(* ===== verification/_CoqProject ===== *)
-Q . S2P
Prelude.v
JsString.v
JsNumber.v
JsNumberFacts.v
JsValue.v
JsJson.v
Syntax.v
SyntaxFacts.v
Parser.v
ParserFacts.v
Grammar.v
GrammarFacts.v
NumberText.v
LexText.v
JsonText.v
IntegerSums.v
Compile.v
CompileFacts.v
EraseFacts.v
Runtime.v
RuntimeFacts.v
Semantics.v
RequestFacts.v
Display.v
DisplayFacts.v
TimeFacts.v
TaskTiers.v
TaskDisplay.v
TaskFacts.v
TaskDisplayFacts.v
Structure.v
ConditionDisplay.v
Visual.v
VisualFacts.v
RequestRules.v
RuleText.v
RuleFacts.v
RuleRoundtrip.v
RuleSplit.v
TierSummary.v
TaskConfig.v
TaskConfigFacts.v
TaskMatrixFacts.v
PriceTable.v
TierMatch.v
Catalog.v
CatalogFacts.v
PluginPricing.v
DynamicPrice.v
DynamicPriceFacts.v
TierEditor.v
TierText.v
TierCompile.v
TierEditorFacts.v
TaskText.v
TaskTextFacts.v
AuthSession.v
AuthSessionFacts.v
HttpClient.v
PricingOptions.v
PricingFacts.v
PricingRowFacts.v
StatusCodes.v
ChatMessage.v
ChatStream.v
ChatFacts.v
ChatTextFacts.v
ThinkTags.v
JsMap.v
PlaygroundStorage.v
StorageFacts.v
CustomRoutes.v
CustomRoutesFacts.v
Flow.v
FlowFacts.v
FlowViewFacts.v
FlowFilterFacts.v
ModelMapping.v
ModelMappingFacts.v
ModelSyncFacts.v
