(* ===== verification/Prelude.v ===== *)
(** * The web client of New API

    New API sells access to language models.  What a request costs is described
    by a _billing expression_, a small expression language over token counts,
    request bodies, headers, task usage facts and wall-clock time.  The web
    client (under [src/web/src/features/pricing/lib]) parses, checks, evaluates,
    displays and edits these expressions, and lists the models they price; its
    settings pages store the administrator's prices and the routes of channels,
    its session library keeps every tab signed in as the same user, and its
    playground streams the answers of a model into a conversation.  This
    development models those libraries and proves what they promise: prices shown
    are prices charged, edits change what the user edited and nothing else, a
    session is replaced, refreshed and ended as a whole, and only the request that
    is current writes to the conversation.

    ** The program and its model

    - [billing-expression/types.ts]: the vocabulary, the tree, diagnostics and
      the depth-limited traversal.  Model: [Syntax], with its facts in
      [SyntaxFacts].
    - [billing-expression/parser.ts]: the lexer and the parser ([Parser],
      [ParserFacts]) against a declarative precedence grammar ([Grammar],
      [GrammarFacts], and [LexText] for the tokens of generated text); the type
      check, the shape check of fixed prices, the list of request rules,
      compilation and its cache of 128 results ([Compile], [CompileFacts], and
      [EraseFacts] for what does not depend on spans).
    - [billing-expression/runtime.ts]: the interpreter, with the fields of
      [BillingRuntime] as explicit state ([Runtime], [RuntimeFacts]); what an
      evaluation guarantees ([Semantics]); request paths, headers and clocks
      ([RequestFacts]).
    - [billing-expression/display.ts]: token and time tiers ([Display],
      [DisplayFacts], [TimeFacts]) and task tiers ([TaskTiers], [TaskFacts]).
    - [billing-expression/task-display.ts]: the conditional task price table with
      its budget of steps and rows ([TaskDisplay], [TaskDisplayFacts]).
    - [billing-expression/structure.ts]: splitting and unwrapping source text
      ([Structure]).
    - [billing-expression/condition-display.ts] and the locale resolution of
      [i18n/languages.ts]: descriptions of conditions ([ConditionDisplay]).
    - [billing-expression/visual.ts]: the visual editor's document, read from a
      tree and written back as patches of the source ([Visual], [VisualFacts]).
    - [billing-expr.ts]: the registry of variables and the rows of tier tables
      ([TierSummary]); request rules, their text, and the split of an expression
      into price and rules ([RequestRules], with [RuleText], [RuleFacts],
      [RuleRoundtrip] and [RuleSplit]).
    - [task-expr.ts]: the task price editor, its matrix, its normal form, its
      text and its preview ([TaskConfig], [TaskConfigFacts], [TaskMatrixFacts]; its
      text through the grammar in [TaskText] and [TaskTextFacts]).
    - [breakdown-tier-match.ts]: which row of a table was charged ([TierMatch]).
    - [tier-expr.ts]: the token tier editor, its normal form, the text it writes
      and the local estimator ([TierEditor], with [TierText], [TierCompile] and
      [TierEditorFacts]).
    - [task-matrix-display.ts]: the task price table of the marketplace
      ([PriceTable]).
    - [plugin-pricing.ts]: keys, compatibility and the models of providers
      ([PluginPricing]).
    - [dynamic-price.ts], [billing-mode.ts]: price entries, ranges and summaries
      over tiers and providers ([DynamicPrice], [DynamicPriceFacts]).
    - [filters.ts], [model-helpers.ts], [price.ts]: the catalogue, group ratios
      and ratio prices ([Catalog], [CatalogFacts]).

    - [lib/auth-session.ts], [lib/session-hint.ts], [stores/auth-store.ts] and
      the session part of [routes/__root.tsx]: the store of the session, the
      messages between tabs and the shared refresh run ([AuthSession]).  What
      happens between two awaits is one function on the tab's record;
      [AuthSessionFacts] has the step relation over the events that can occur
      and the invariants along it.
    - [lib/api.ts] and [lib/http-client.ts]: the interceptors of a call, the
      sharing of equal GET requests and signing out ([HttpClient]).
    - [features/system-settings/models]: the option maps that hold the
      administrator's prices, their editing and comparison ([PricingOptions]),
      with what a save changes ([PricingFacts]) and what a stored price opens as
      ([PricingRowFacts]).
    - [lib/http-status-code-rules.ts]: lists and ranges of status codes
      ([StatusCodes]).
    - [features/playground/lib]: messages, timing, reasoning sections, streamed
      chunks and the edits of a conversation ([ChatMessage], [ThinkTags]); its
      hooks [use-stream-request.ts], [use-chat-handler.ts] and
      [use-playground-conversation.ts]: the stream controller and the chat handler
      as one state, with React's queue of updaters ([ChatStream]); what its runs
      guarantee ([ChatFacts]) and the text of an answer ([ChatTextFacts]).
    - [features/playground/lib/storage]: stored settings and messages per user,
      their schemas and their repair on loading ([PlaygroundStorage],
      [StorageFacts]); the schema package zod is the class [Zod] with [ZodLaws].
    - [features/channels/lib/advanced-custom.ts]: the routes of a custom channel,
      their templates, editing and validation ([CustomRoutes],
      [CustomRoutesFacts]).
    - [features/channels/lib/model-mapping-validation.ts],
      [model-mapping-rules.ts], [model-naming-patterns.ts],
      [upstream-update-utils.ts] and the redirect panel of
      [components/drawers/channel-mutate-drawer.tsx]: the model names of a channel
      and the document of its redirects ([ModelMapping]); merging and deriving
      redirects ([ModelMappingFacts]); the panel, which keeps the two texts of the
      form and two remembered sets as its state, and the checks of a saved channel
      ([ModelSyncFacts]).
    - [features/dashboard/lib/flow.ts] and [flow-selection.ts]: the flow graph of
      the dashboard, its totals, limits, masking, highlighting and filters ([Flow]);
      what it conserves ([FlowFacts]), what it hides and bounds ([FlowViewFacts])
      and what its filters mean ([FlowFilterFacts]).

    Beneath them: [JsString] (strings as lists of UTF-16 code units), [JsNumber],
    [JsNumberFacts] and [NumberText] (binary64 numbers with rounding, their
    decimal text and its round trip), [JsValue] (JSON values, objects in property
    order, dates, and the class [Platform] of what the host provides) and
    [JsJson] and [JsonText] ([JSON.parse] and [JSON.stringify], with the round
    trip through text and the shape of parsed documents), [JsMap] ([Map], sorting
    with a comparison, [toFixed]) and [IntegerSums] (exact sums of integers, and
    the sign of rounded differences).  This file holds the result
    type of code that may throw, its bind notation and the tactics [rinv] and
    [bsplit].

    ** Conventions

    A function that may throw returns [result]; the thrown values are [exn], a
    billing diagnostic or another error.  Mutable state (parser position, the
    interpreter's depth and records, the compilation cache, counters of ids and
    budgets) is passed explicitly.  Object identity of tree nodes is equality of
    spans, which is justified by a theorem.  Regular expressions are written as
    scanners.  Numbers are [spec_float] in binary64; no rounding is idealised.
    The host's clock, [toLowerCase], [Intl.DateTimeFormat] and
    [localeCompare] are operations of the classes [Platform] and [Collation]; what
    a theorem needs of them is stated in [PlatformLaws] and [CollationLaws].
    Translation functions
    and the currency formatter are arguments.

    Recursion: the parser has fuel 50000, more than any run can use since it
    reads at most 10000 tokens; the traversal has fuel twice the size of the
    tree; both are proved never to run out.  Every other function is structural
    or has the length of its input as fuel.

    ** What the theorems show

    - Parsing and compiling (C1 to C4, [parse_node_identity]): parsing is total, its trees are
      well-formed and are those of the grammar; the type check is a declarative
      type system; the cache is invisible and bounded; spans identify nodes.
    - Evaluating (C5 to C8, [time_memo_transparent]): evaluation always ends in a success or a
      classified diagnostic; costs are finite and non-negative; fixed prices and
      types are sound; memoised clocks are invisible.
    - Displaying (C9 to C14, [resolved_condition_sound]): the tiers, tables,
      conditions and marks that are shown are those of the charge an evaluation
      makes, for task tiers when the expression reads only facts of its schema
      ([undeclared_fact_misread]); a conditional table has a row for every usage at
      every moment.
    - Editing prices (C23 to C31): the visual document, request rules, price
      matrices, the tiers of the token and of the task editor and the stored prices
      of a model survive their round trips, under conditions on what is written
      that each theorem states and whose failure has examples
      ([enclosed_base_bare], [unwritable_texts], [unwritable_task_texts],
      [reopened_normalizes]); a save changes the chosen models only.  One family
      of rules does not survive ([guarded_rule_unreadable]).
    - Sessions (C15 to C17, C38, C39): a token refresh settles, is inert once it is
      overtaken, and the data of a session stay together; signing out reaches
      every tab; a call is repeated at most once.
    - The playground (C18 to C22, [think_sections_split]): streamed text arrives
      complete in every interleaving, requests settle at most once and write nothing
      once overtaken, connections are closed, stored data are private and pass their
      schemas unchanged when they are read back,
      and reasoning sections are split exactly.
    - Channels (C32 to C35, [route_edits_separate], [published_models_synced],
      [saved_channel_checked], [verified_alias_known], [removed_models_exact],
      [status_rules_normal]): routes are validated exactly and edited separately;
      merged redirects read back, derived ones are split exactly, and an edit of
      the redirect panel is undone exactly under a condition that the panel does
      not ensure ([redirect_undo_overreaches]); lists of status codes have a normal
      form.
    - The dashboard (C36, C37, [flow_limit_respected], [flow_facets_exact]): the flow
      graph conserves what it shows, hides masked names, respects its limits, and
      offers the nodes that can be chosen.
    - The catalogue (C40) and its summaries ([task_ranges_exact]): the page shows exactly what the
      filters admit, in the requested and stable order; price ranges are the smallest and largest prices.

    ** Not modelled

    The reader of [tier-expr.ts], [tryParseVisualConfig], which relies on the
    backtracking of generated regular expressions; the labels of
    [task-price-display.ts]; model metadata and mock statistics; currency
    formatting through [Intl.NumberFormat] with [stripTrailingZeros]; the preview
    and display of administrator's prices ([modelPricingDisplay],
    [buildPreviewRows], [formatPricingNumber]); the storage-event fallback of the
    messages between tabs, and the subscriber that clears queries; the style
    callbacks and click data of the flow diagram; the React state of the
    playground's settings and the localisation of its errors (an argument); the JSON text
    of channel routes; the form fields of the channel drawer besides models and
    redirects; the relation of the task editor's preview to an evaluation of its
    text; the React components, routes and remaining features of the console, which
    render and fetch; and the Go backend. *)
From Stdlib Require Export ZArith Lia.
From stdpp Require Export base list gmap numbers option.
From stdpp Require Import options.

#[global] Set Default Goal Selector "!".

(** ** Results of code that may throw

    The TypeScript code reports every failure by throwing; a computation is
    therefore either a value or the thrown object. *)
Inductive result (E A : Type) : Type :=
| Ok (a : A)
| Err (e : E).
Arguments Ok {E A} a.
Arguments Err {E A} e.

Definition rbind {E A B} (c : result E A) (k : A -> result E B) : result E B :=
  match c with
  | Ok a => k a
  | Err e => Err e
  end.

Definition is_ok {E A} (c : result E A) : bool :=
  match c with Ok _ => true | Err _ => false end.

Declare Scope billing_scope.
Delimit Scope billing_scope with billing.
Notation "'let*' x := c 'in' k" :=
  (rbind c (fun x => k))
  (at level 10, x name, c at level 100, k at level 200)
  : billing_scope.
Notation "'let*' ' p := c 'in' k" :=
  (rbind c (fun x => match x with p => k end))
  (at level 10, p strict pattern, c at level 100, k at level 200)
  : billing_scope.
Open Scope billing_scope.

Lemma rbind_ok {E A B} (c : result E A) (k : A -> result E B) b :
  rbind c k = Ok b <-> exists a, c = Ok a /\ k a = Ok b.
Proof. destruct c; simpl; naive_solver. Qed.

Lemma Ok_inj {E A} (a b : A) : @Ok E A a = Ok b -> a = b.
Proof. by intros [= ->]. Qed.

Lemma rbind_err {E A B} (c : result E A) (k : A -> result E B) e :
  rbind c k = Err e <-> c = Err e \/ exists a, c = Ok a /\ k a = Err e.
Proof. destruct c; simpl; naive_solver. Qed.

Lemma rbind_assoc {E A B C} (c : result E A) (k : A -> result E B) (h : B -> result E C) :
  rbind (rbind c k) h = rbind c (fun a => rbind (k a) h).
Proof. by destruct c. Qed.

(** Folding a fallible step over a list, left to right. *)
Fixpoint rfold {E A S} (f : A -> S -> result E S) (l : list A) (s : S) : result E S :=
  match l with
  | [] => Ok s
  | x :: l => let* s := f x s in rfold f l s
  end.

Lemma rfold_app {E A S} (f : A -> S -> result E S) l1 l2 s :
  rfold f (l1 ++ l2) s = (let* s := rfold f l1 s in rfold f l2 s).
Proof.
  revert s. induction l1 as [|x l1 IH]; intros s; simpl; [done|].
  destruct (f x s); simpl; [apply IH|done].
Qed.

(** The results of a list of computations, or the first failure. *)
Fixpoint rseq {E A} (l : list (result E A)) : result E (list A) :=
  match l with
  | [] => Ok []
  | c :: l => let* x := c in let* xs := rseq l in Ok (x :: xs)
  end.

(** ** Automation

    [rinv] decomposes hypotheses about successful computations: it splits
    binds, conditionals and matches whose result is known. *)
Create HintDb billing discriminated.

Ltac rinv_step :=
  match goal with
  | H : Ok _ = Ok _ |- _ => injection H as H; subst
  | H : Err _ = Err _ |- _ => injection H as H; subst
  | H : Ok _ = Err _ |- _ => discriminate H
  | H : Err _ = Ok _ |- _ => discriminate H
  | H : Some _ = Some _ |- _ => injection H as H; subst
  | H : Some _ = None |- _ => discriminate H
  | H : None = Some _ |- _ => discriminate H
  | H : (_, _) = (_, _) |- _ => injection H as H; subst
  | H : rbind ?c _ = Ok _ |- _ =>
      let a := fresh "a" in let Ha := fresh "Hr" in
      apply rbind_ok in H as (a & Ha & H)
  | H : (match ?c with _ => _ end) = Ok _ |- _ =>
      let Hc := fresh "Hc" in destruct c eqn:Hc; simpl in H
  | H : (match ?c with _ => _ end) = Some _ |- _ =>
      let Hc := fresh "Hc" in destruct c eqn:Hc; simpl in H
  | H : _ /\ _ |- _ => destruct H
  | H : exists _, _ |- _ => destruct H
  end.
Ltac rinv := repeat rinv_step; simplify_eq/=.

(** Boolean tests as propositions. *)
Lemma andb_true_split (a b : bool) : a && b = true -> a = true /\ b = true.
Proof. by destruct a, b. Qed.

Lemma orb_false_split (a b : bool) : a || b = false -> a = false /\ b = false.
Proof. by destruct a, b. Qed.

Ltac bsplit :=
  repeat match goal with
  | H : _ && _ = true |- _ => apply andb_true_split in H as [? ?]
  | H : _ || _ = false |- _ => apply orb_false_split in H as [? ?]
  | H : negb _ = true |- _ => apply negb_true_iff in H
  | H : negb _ = false |- _ => apply negb_false_iff in H
  | H : bool_decide _ = true |- _ => apply bool_decide_eq_true in H
  | H : bool_decide _ = false |- _ => apply bool_decide_eq_false in H
  | H : (_ <? _)%Z = true |- _ => apply Z.ltb_lt in H
  | H : (_ <? _)%Z = false |- _ => apply Z.ltb_ge in H
  | H : (_ <=? _)%Z = true |- _ => apply Z.leb_le in H
  | H : (_ <=? _)%Z = false |- _ => apply Z.leb_gt in H
  | H : (_ =? _)%Z = true |- _ => apply Z.eqb_eq in H
  | H : (_ =? _)%Z = false |- _ => apply Z.eqb_neq in H
  | H : (_ <? _)%nat = true |- _ => apply Nat.ltb_lt in H
  | H : (_ <? _)%nat = false |- _ => apply Nat.ltb_ge in H
  | H : (_ <=? _)%nat = true |- _ => apply Nat.leb_le in H
  | H : (_ <=? _)%nat = false |- _ => apply Nat.leb_gt in H
  | H : (_ =? _)%nat = true |- _ => apply Nat.eqb_eq in H
  | H : (_ =? _)%nat = false |- _ => apply Nat.eqb_neq in H
  end.

(** [Forall] by membership. *)
Lemma Forall_elem {A} (P : A -> Prop) l : Forall P l <-> forall x, x ∈ l -> P x.
Proof. apply list.Forall_forall. Qed.

(** ** Sublists between two positions, the [slice] of the code *)
Definition slice {A} (l : list A) (i j : nat) : list A := take (j - i) (drop i l).

Lemma length_slice {A} (l : list A) i j :
  length (slice l i j) = (j - i) `min` (length l - i).
Proof. unfold slice. by rewrite length_take, length_drop. Qed.

Lemma slice_app_adj {A} (l : list A) i j k :
  i <= j <= k -> slice l i j ++ slice l j k = slice l i k.
Proof.
  intros. unfold slice.
  replace (k - i) with ((j - i) + (k - j)) by lia.
  rewrite <- (take_take_drop (drop i l)). f_equal.
  rewrite drop_drop. by replace (i + (j - i)) with j by lia.
Qed.

Lemma slice_full {A} (l : list A) j : length l <= j -> slice l 0 j = l.
Proof. intros. unfold slice. rewrite drop_0, Nat.sub_0_r. by apply take_ge. Qed.

Lemma slice_slice {A} (l : list A) i j a b :
  i + b <= j -> slice (slice l i j) a b = slice l (i + a) (i + b).
Proof.
  intros. unfold slice. rewrite skipn_firstn_comm, drop_drop, take_take.
  f_equal. lia.
Qed.

Lemma slice_nil {A} (l : list A) i j : j <= i -> slice l i j = [].
Proof. intros. unfold slice. by replace (j - i) with 0 by lia. Qed.
