(* ===== verification/JsString.v ===== *)
(** * JavaScript strings

    A string value is its sequence of UTF-16 code units (an integer below
    65536 each), which is how the code indexes, slices and scans source text.
    [js] turns an ASCII literal into such a sequence.  The character classes
    are those of the regular expressions the code uses ([\s], [\d], [\w],
    hexadecimal digits), and [trim] removes the same characters as [\s]. *)
From Stdlib Require Import Ascii String.
From stdpp Require Import strings.
From S2P Require Import Prelude.

#[local] Open Scope Z_scope.

Notation jstr := (list Z).

Definition js (s : string) : jstr :=
  map (fun a => Z.of_N (N_of_ascii a)) (String.list_ascii_of_string s).
#[global] Arguments js : simpl never.

(** ** Character classes *)

(** WhiteSpace and LineTerminator of ECMAScript, the class [\s]. *)
Definition is_space (c : Z) : bool :=
  ((9 <=? c) && (c <=? 13)) || (c =? 32) || (c =? 160) || (c =? 5760)
  || ((8192 <=? c) && (c <=? 8202)) || (c =? 8232) || (c =? 8233)
  || (c =? 8239) || (c =? 8287) || (c =? 12288) || (c =? 65279).

Definition is_digit (c : Z) : bool := (48 <=? c) && (c <=? 57).
Definition is_upper (c : Z) : bool := (65 <=? c) && (c <=? 90).
Definition is_lower (c : Z) : bool := (97 <=? c) && (c <=? 122).

(** [[A-Za-z_]] and [\w]. *)
Definition is_name_start (c : Z) : bool := is_upper c || is_lower c || (c =? 95).
Definition is_word (c : Z) : bool := is_name_start c || is_digit c.

Definition hex_value (c : Z) : option Z :=
  if is_digit c then Some (c - 48)
  else if (97 <=? c) && (c <=? 102) then Some (c - 87)
  else if (65 <=? c) && (c <=? 70) then Some (c - 55)
  else None.

(** ** Operations of [String.prototype] the code uses *)

(** The longest prefix whose characters satisfy [f], and the rest. *)
Fixpoint span_while (f : Z -> bool) (s : jstr) : jstr * jstr :=
  match s with
  | [] => ([], [])
  | c :: s' =>
      if f c then let '(a, b) := span_while f s' in (c :: a, b) else ([], s)
  end.

Fixpoint drop_while (f : Z -> bool) (s : jstr) : jstr :=
  match s with
  | [] => []
  | c :: s' => if f c then drop_while f s' else s
  end.

Definition trim_start (s : jstr) : jstr := drop_while is_space s.
Definition trim_end (s : jstr) : jstr := rev (drop_while is_space (rev s)).
Definition trim (s : jstr) : jstr := trim_end (trim_start s).

Fixpoint starts_with (p s : jstr) : bool :=
  match p, s with
  | [], _ => true
  | _ :: _, [] => false
  | a :: p', b :: s' => (a =? b) && starts_with p' s'
  end.

Definition ends_with (p s : jstr) : bool := starts_with (rev p) (rev s).

Fixpoint includes (sub s : jstr) : bool :=
  starts_with sub s ||
  match s with
  | [] => false
  | _ :: s' => includes sub s'
  end.

(** [text.split(sep)] for a separator of one code unit *)
Fixpoint split_at (sep : Z) (s : jstr) : list jstr :=
  match s with
  | [] => [[]]
  | c :: s =>
      if c =? sep then [] :: split_at sep s
      else match split_at sep s with
           | part :: parts => (c :: part) :: parts
           | [] => [[c]]
           end
  end.

Fixpoint join (sep : jstr) (l : list jstr) : jstr :=
  match l with
  | [] => []
  | [x] => x
  | x :: l' => (x ++ sep ++ join sep l')%list
  end.

(** [<] on strings: lexicographic on code units. *)
Fixpoint str_ltb (a b : jstr) : bool :=
  match a, b with
  | _, [] => false
  | [], _ :: _ => true
  | x :: a', y :: b' => (x <? y) || ((x =? y) && str_ltb a' b')
  end.

Definition str_leb (a b : jstr) : bool := negb (str_ltb b a).

(** [s.slice(a, b)]: negative positions count from the end, and positions
    beyond the ends are clamped. *)
Definition js_slice (s : jstr) (a b : Z) : jstr :=
  let len := Z.of_nat (length s) in
  let clamp i := if i <? 0 then Z.max 0 (len + i) else Z.min i len in
  slice s (Z.to_nat (clamp a)) (Z.to_nat (clamp b)).

(** [JSON.stringify] of a string. *)
Definition hex_char (d : Z) : Z := if d <? 10 then 48 + d else 87 + d.

Definition unicode_escape (c : Z) : jstr :=
  [92; 117; hex_char (c / 4096 mod 16); hex_char (c / 256 mod 16);
   hex_char (c / 16 mod 16); hex_char (c mod 16)].

Definition json_char (c : Z) : jstr :=
  if (c =? 34) || (c =? 92) then [92; c]
  else if c =? 8 then [92; 98]
  else if c =? 12 then [92; 102]
  else if c =? 10 then [92; 110]
  else if c =? 13 then [92; 114]
  else if c =? 9 then [92; 116]
  else if c <? 32 then unicode_escape c
  else [c].

Definition high_surrogate (c : Z) : bool := (55296 <=? c) && (c <=? 56319).
Definition low_surrogate (c : Z) : bool := (56320 <=? c) && (c <=? 57343).

Fixpoint json_body (s : jstr) : jstr :=
  match s with
  | [] => []
  | c :: s1 =>
      if high_surrogate c then
        match s1 with
        | d :: s2 => if low_surrogate d then c :: d :: json_body s2
                     else unicode_escape c ++ json_body s1
        | [] => unicode_escape c
        end
      else if low_surrogate c then unicode_escape c ++ json_body s1
      else json_char c ++ json_body s1
  end.

Definition json_stringify (s : jstr) : jstr := 34 :: json_body s ++ [34].

(** ** Lemmas *)
Lemma span_while_app f s : let '(a, b) := span_while f s in s = (a ++ b)%list.
Proof.
  induction s as [|c s IH]; simpl; [done|].
  destruct (f c); [|done]. destruct (span_while f s). by rewrite IH.
Qed.

Lemma span_while_all f s : Forall (fun c => f c = true) (fst (span_while f s)).
Proof.
  induction s as [|c s IH]; simpl; [constructor|].
  destruct (f c) eqn:E; [|constructor].
  destruct (span_while f s); simpl in *. by constructor.
Qed.

Lemma span_while_stop f a c b :
  Forall (fun c => f c = true) a -> f c = false ->
  span_while f (a ++ c :: b) = (a, c :: b).
Proof.
  induction 1 as [|x a Hx _ IH]; intros Hc; simpl; [by rewrite Hc|].
  by rewrite Hx, IH.
Qed.

Lemma span_while_end f a :
  Forall (fun c => f c = true) a -> span_while f a = (a, []).
Proof. induction 1 as [|x a Hx _ IH]; simpl; [done|]. by rewrite Hx, IH. Qed.

Lemma drop_while_length f s : (length (drop_while f s) <= length s)%nat.
Proof. induction s as [|c s IH]; simpl; [lia|]. destruct (f c); simpl; lia. Qed.

Lemma drop_while_head f s c s' : drop_while f s = c :: s' -> f c = false.
Proof.
  induction s as [|x s IH]; simpl; [done|].
  destruct (f x) eqn:E; [done|]. by intros [= <- <-].
Qed.

Lemma drop_while_id f s : match s with [] => true | c :: _ => negb (f c) end = true ->
  drop_while f s = s.
Proof. destruct s as [|c s]; simpl; [done|]. by destruct (f c). Qed.

Lemma drop_while_suffix f s : exists p, s = (p ++ drop_while f s)%list /\
  Forall (fun c => f c = true) p.
Proof.
  induction s as [|c s (p & Hp & Hall)]; simpl; [by exists []|].
  destruct (f c) eqn:E; [|by exists []].
  exists (c :: p). split; [by rewrite Hp at 1|by constructor].
Qed.

Lemma drop_while_idemp f s : drop_while f (drop_while f s) = drop_while f s.
Proof.
  apply drop_while_id. destruct (drop_while f s) as [|c s'] eqn:E; [done|].
  by rewrite (drop_while_head _ _ _ _ E).
Qed.

(** What [trim] removes is white space on both sides. *)
Lemma trim_decompose s : exists a b, s = (a ++ trim s ++ b)%list /\
  Forall (fun c => is_space c = true) a /\ Forall (fun c => is_space c = true) b.
Proof.
  unfold trim, trim_end, trim_start.
  destruct (drop_while_suffix is_space s) as (a & Ha & HA).
  destruct (drop_while_suffix is_space (rev (drop_while is_space s))) as (b & Hb & HB).
  exists a, (rev b). split_and!; [|done|by apply Forall_rev].
  rewrite Ha at 1. f_equal.
  rewrite <- rev_app_distr, <- Hb. by rewrite rev_involutive.
Qed.

Lemma trim_length s : (length (trim s) <= length s)%nat.
Proof.
  unfold trim, trim_end, trim_start. rewrite length_rev.
  pose proof (drop_while_length is_space (rev (drop_while is_space s))) as H1.
  pose proof (drop_while_length is_space s). rewrite length_rev in H1. lia.
Qed.

Definition no_outer_space (s : jstr) : bool :=
  match s with [] => true | c :: _ => negb (is_space c) end &&
  match rev s with [] => true | c :: _ => negb (is_space c) end.

Lemma trim_id s : no_outer_space s = true -> trim s = s.
Proof.
  unfold no_outer_space. intros H. bsplit.
  unfold trim, trim_end, trim_start. rewrite (drop_while_id is_space s) by done.
  rewrite (drop_while_id is_space (rev s)) by done. apply rev_involutive.
Qed.

Lemma starts_with_app p s : starts_with p (p ++ s) = true.
Proof. induction p as [|c p IH]; simpl; [done|]. by rewrite Z.eqb_refl, IH. Qed.

Lemma starts_with_spec p s : starts_with p s = true <-> exists t, s = (p ++ t)%list.
Proof.
  split.
  - revert s. induction p as [|a p IH]; intros s H; simpl in *; [by exists s|].
    destruct s as [|b s]; [done|]. bsplit. subst.
    destruct (IH s) as [t ->]; [done|]. by exists t.
  - intros [t ->]. apply starts_with_app.
Qed.

Lemma includes_spec sub s :
  includes sub s = true <-> exists a b, s = (a ++ sub ++ b)%list.
Proof.
  split.
  - induction s as [|c s IH]; simpl; intros H; apply orb_true_iff in H as [H|H].
    + apply starts_with_spec in H as [t Ht]. by exists [], t.
    + done.
    + apply starts_with_spec in H as [t Ht]. by exists [], t.
    + destruct (IH H) as (a & b & ->). by exists (c :: a), b.
  - intros (a & b & ->). induction a as [|c a IH]; simpl.
    + destruct (sub ++ b) eqn:E; simpl; rewrite <- ?E, starts_with_app; done.
    + apply orb_true_iff. by right.
Qed.

Lemma str_ltb_irrefl s : str_ltb s s = false.
Proof.
  induction s as [|c s IH]; simpl; [done|].
  by rewrite Z.ltb_irrefl, Z.eqb_refl, IH.
Qed.
