(* ===== verification/JsNumber.v ===== *)
(** * JavaScript numbers

    Numbers are IEEE-754 binary64 values.  The carrier and the four
    arithmetic operations, negation and comparison are those of the Standard
    Library's [SpecFloat] at precision 53 and maximal exponent 1024, so every
    computation of the interpreter is carried out with its exact rounding.
    This file adds what the code uses of the language besides: conversion of
    decimal text to the nearest number ([Number(text)]), the shortest decimal
    text of a number ([String(x)], [x.toExponential()]), the [Number.isX]
    predicates and the functions of [Math] and [%]. *)
From Stdlib Require Import SpecFloat.
From stdpp Require Import strings.
From S2P Require Import Prelude JsString.

#[local] Open Scope Z_scope.

Notation num := spec_float.

Definition n_add : num -> num -> num := SFadd 53 1024.
Definition n_sub : num -> num -> num := SFsub 53 1024.
Definition n_mul : num -> num -> num := SFmul 53 1024.
Definition n_div : num -> num -> num := SFdiv 53 1024.
Definition n_neg : num -> num := SFopp.
Definition n_abs : num -> num := SFabs.
(** [===], [<] and [<=] on numbers. *)
Definition n_eqb : num -> num -> bool := SFeqb.
Definition n_ltb : num -> num -> bool := SFltb.
Definition n_leb : num -> num -> bool := SFleb.

Definition n_zero : num := S754_zero false.
Definition n_of_Z (z : Z) : num := binary_normalize 53 1024 z 0 false.
Definition n_one : num := Eval vm_compute in n_of_Z 1.
Definition n_million : num := Eval vm_compute in n_of_Z 1000000.

#[global] Instance num_eq_dec : EqDecision num.
Proof. solve_decision. Defined.

(** ** [Number.isFinite], [Number.isInteger], [Number.isSafeInteger] *)
Definition is_finite (x : num) : bool :=
  match x with S754_zero _ | S754_finite _ _ _ => true | _ => false end.

(** The integer a number denotes, when it denotes one. *)
Definition num_to_Z (x : num) : option Z :=
  match x with
  | S754_zero _ => Some 0
  | S754_finite s m e =>
      if 0 <=? e then Some (cond_Zopp s (Zpos m * 2 ^ e))
      else if Zpos m mod 2 ^ (- e) =? 0
           then Some (cond_Zopp s (Zpos m / 2 ^ (- e)))
           else None
  | _ => None
  end.

Definition is_integer (x : num) : bool := bool_decide (is_Some (num_to_Z x)).

Definition is_safe_integer (x : num) : bool :=
  match num_to_Z x with
  | Some z => Z.abs z <=? 9007199254740991
  | None => false
  end.

Definition sign_bit (x : num) : bool :=
  match x with
  | S754_zero s | S754_infinity s | S754_finite s _ _ => s
  | S754_nan => false
  end.

(** ** Functions of [Math], and [%] *)
Definition n_min (a b : num) : num :=
  match a, b with
  | S754_nan, _ | _, S754_nan => S754_nan
  | S754_zero sa, S754_zero sb => S754_zero (sa || sb)
  | _, _ => if n_ltb b a then b else a
  end.

Definition n_max (a b : num) : num :=
  match a, b with
  | S754_nan, _ | _, S754_nan => S754_nan
  | S754_zero sa, S754_zero sb => S754_zero (sa && sb)
  | _, _ => if n_ltb a b then b else a
  end.

(** [Math.floor]; an integer result zero keeps the sign of the argument. *)
Definition n_floor (x : num) : num :=
  match x with
  | S754_finite s m e =>
      if 0 <=? e then x
      else binary_normalize 53 1024 (cond_Zopp s (Zpos m) / 2 ^ (- e)) 0 s
  | _ => x
  end.

Definition n_ceil (x : num) : num := n_neg (n_floor (n_neg x)).

(** The remainder of the truncating division, with the sign of the dividend. *)
Definition n_rem (x y : num) : num :=
  match x, y with
  | S754_nan, _ | _, S754_nan | S754_infinity _, _ | _, S754_zero _ => S754_nan
  | S754_zero _, _ | S754_finite _ _ _, S754_infinity _ => x
  | S754_finite s m e, S754_finite _ m' e' =>
      let ez := Z.min e e' in
      let a := Zpos m * 2 ^ (e - ez) in
      let b := Zpos m' * 2 ^ (e' - ez) in
      binary_normalize 53 1024 (cond_Zopp s (a mod b)) ez s
  end.

(** ** Decimal text to number *)

(** The exponent of the leading bit of the quotient [a / b]. *)
Definition ratio_log2 (a b : Z) : Z :=
  let l := Z.log2 a - Z.log2 b in
  if a * 2 ^ Z.max 0 (- l) <? b * 2 ^ Z.max 0 l then l - 1 else l.

Definition round_half_even (q r d : Z) : Z :=
  match 2 * r ?= d with
  | Lt => q
  | Eq => if Z.even q then q else q + 1
  | Gt => q + 1
  end.

(** The number nearest to [a / b], ties to even. *)
Definition ratio_to_num (a b : Z) : num :=
  if a <=? 0 then S754_zero false else
  let e := Z.max (ratio_log2 a b - 52) (-1074) in
  let nn := a * 2 ^ Z.max 0 (- e) in
  let dd := b * 2 ^ Z.max 0 e in
  let q := round_half_even (nn / dd) (nn mod dd) dd in
  let '(q, e) := if q =? 2 ^ 53 then (2 ^ 52, e + 1) else (q, e) in
  match q with
  | Zpos m => if e <=? 971 then S754_finite false m e else S754_infinity false
  | _ => S754_zero false
  end.

(** The number nearest to [m * 10^k]. *)
Definition decimal_to_num (m k : Z) : num :=
  ratio_to_num (m * 10 ^ Z.max 0 k) (10 ^ Z.max 0 (- k)).

(** A decimal literal as the regular expressions of the code read it:
    digits with an optional point and more digits, or a point and digits,
    then an optional exponent. *)
Record dec_lit := DecLit {
  dl_int : jstr;                            (* digits before the point *)
  dl_frac : option jstr;                    (* digits after it, if it is there *)
  dl_exp : option (Z * option Z * jstr);    (* [eE], sign, digits *)
}.

Definition dl_text (d : dec_lit) : jstr :=
  dl_int d
  ++ (match dl_frac d with Some f => 46 :: f | None => [] end)
  ++ match dl_exp d with
     | Some (c, sg, ds) => c :: (match sg with Some x => [x] | None => [] end) ++ ds
     | None => []
     end.

Definition is_exp_mark (c : Z) : bool := (c =? 101) || (c =? 69).
Definition is_sign (c : Z) : bool := (c =? 43) || (c =? 45).

Definition scan_exp (s : jstr) : option (Z * option Z * jstr) * jstr :=
  match s with
  | c :: s1 =>
      if is_exp_mark c then
        let '(sg, s2) :=
          match s1 with
          | x :: s2 => if is_sign x then (Some x, s2) else (None, s1)
          | [] => (None, s1)
          end in
        let '(ds, s3) := span_while is_digit s2 in
        match ds with
        | [] => (None, s)
        | _ => (Some (c, sg, ds), s3)
        end
      else (None, s)
  | [] => (None, s)
  end.

Definition scan_number (s : jstr) : option (dec_lit * jstr) :=
  let '(ds, s1) := span_while is_digit s in
  let whole := match ds with
               | [] => None
               | _ => let '(ex, s2) := scan_exp s1 in Some (DecLit ds None ex, s2)
               end in
  match s1 with
  | c :: s2 =>
      if c =? 46 then
        let '(fs, s3) := span_while is_digit s2 in
        match ds, fs with
        | [], [] => None
        | _, _ => let '(ex, s4) := scan_exp s3 in Some (DecLit ds (Some fs) ex, s4)
        end
      else whole
  | [] => whole
  end.

Definition digits_value (ds : jstr) : Z :=
  fold_left (fun acc c => acc * 10 + (c - 48)) ds 0.

Definition dl_exponent (d : dec_lit) : Z :=
  match dl_exp d with
  | Some (_, Some sg, ds) => if sg =? 45 then - digits_value ds else digits_value ds
  | Some (_, None, ds) => digits_value ds
  | None => 0
  end.

Definition dl_value (d : dec_lit) : num :=
  let f := default [] (dl_frac d) in
  decimal_to_num (digits_value (dl_int d ++ f))
                 (dl_exponent d - Z.of_nat (length f)).

(** No [.], [e] or [E] in the text: the test [!/[.eE]/.test(text)]. *)
Definition dl_integer (d : dec_lit) : bool :=
  match dl_frac d, dl_exp d with None, None => true | _, _ => false end.

(** ** [Number(text)] *)
Definition radix_value (b : Z) (s : jstr) : option Z :=
  match s with
  | [] => None
  | _ => fold_left (fun acc c =>
           match acc, hex_value c with
           | Some v, Some d => if d <? b then Some (v * b + d) else None
           | _, _ => None
           end) s (Some 0)
  end.

Definition unsigned_to_number (s : jstr) : num :=
  if bool_decide (s = js "Infinity") then S754_infinity false
  else match scan_number s with
       | Some (d, []) => dl_value d
       | _ => S754_nan
       end.

Definition to_number (text : jstr) : num :=
  let radix b t := match radix_value b t with
                   | Some v => ratio_to_num v 1 | None => S754_nan end in
  match trim text with
  | [] => S754_zero false
  | x :: s =>
      if x =? 43 then unsigned_to_number s
      else if x =? 45 then n_neg (unsigned_to_number s)
      else
        match s with
        | c :: t =>
            if (x =? 48) && ((c =? 120) || (c =? 88)) then radix 16 t
            else if (x =? 48) && ((c =? 111) || (c =? 79)) then radix 8 t
            else if (x =? 48) && ((c =? 98) || (c =? 66)) then radix 2 t
            else unsigned_to_number (x :: s)
        | [] => unsigned_to_number (x :: s)
        end
  end.

(** ** Number to text *)

(** The decimal digits of a natural number, without leading zeros. *)
Fixpoint dec_digits (fuel : nat) (n : Z) (acc : jstr) : jstr :=
  match fuel with
  | O => acc
  | S fuel =>
      let acc := (48 + n mod 10) :: acc in
      if n <? 10 then acc else dec_digits fuel (n / 10) acc
  end.

Definition dec_of_Z (n : Z) : jstr := dec_digits (Z.to_nat (Z.log2 n) + 1) n [].

(** The position [n] of the decimal point of [a / b] with
    [10^(n-1) <= a/b < 10^n]. *)
Fixpoint leading_zeros (fuel : nat) (a b : Z) : Z :=
  match fuel with
  | O => 0
  | S fuel => if b <=? a * 10 then 0 else 1 + leading_zeros fuel (a * 10) b
  end.

Definition point_position (a b : Z) : Z :=
  if b <=? a then Z.of_nat (length (dec_of_Z (a / b)))
  else - leading_zeros 400 a b.

(** A positive finite number as a quotient of integers. *)
Definition num_ratio (m : positive) (e : Z) : Z * Z :=
  (Zpos m * 2 ^ Z.max 0 e, 2 ^ Z.max 0 (- e)).

(** The shortest digits: integers [s], [k], [n] with [k] digits in [s] such
    that [s * 10^(n-k)] rounds to the number, [k] minimal; of two candidates
    of the same length, the one closer to the number.  [a / b] is the number
    and [p] the position of its decimal point; the candidate just above may be
    the power of ten [10^p], whose point position is [p + 1]. *)
Fixpoint shortest_digits (fuel : nat) (x : num) (a b p k : Z) : option (Z * Z * Z) :=
  match fuel with
  | O => None
  | S fuel =>
      let nn := a * 10 ^ Z.max 0 (k - p) in
      let dd := b * 10 ^ Z.max 0 (p - k) in
      let s := nn / dd in
      let r := nn mod dd in
      let fits s := bool_decide (decimal_to_num s (p - k) = x) in
      let above := if s + 1 =? 10 ^ k then (10 ^ (k - 1), k, p + 1)
                   else (s + 1, k, p) in
      let up := match 2 * r ?= dd with
                | Gt => true | Eq => negb (Z.even s) | Lt => false end in
      match fits s, fits (s + 1) with
      | true, true => Some (if up then above else (s, k, p))
      | true, false => Some (s, k, p)
      | false, true => Some above
      | false, false => shortest_digits fuel x a b p (k + 1)
      end
  end.

(** The digits, their number [k] and the point position [n] of a positive
    finite number; 1100 digits suffice for the exact expansion of any. *)
Definition num_digits (m : positive) (e : Z) : option (Z * Z * Z) :=
  let '(a, b) := num_ratio m e in
  shortest_digits 1100 (S754_finite false m e) a b (point_position a b) 1.

Definition zeros (n : Z) : jstr := replicate (Z.to_nat n) 48.

Definition exponent_text (e : Z) : jstr :=
  (if e <? 0 then 45 else 43) :: dec_of_Z (Z.abs e).

Definition mantissa_text (ds : jstr) : jstr :=
  match ds with
  | [] => []
  | [d] => [d]
  | d :: f => d :: 46 :: f
  end.

(** Number::toString(x, 10) *)
Definition positive_to_string (m : positive) (e : Z) : jstr :=
  match num_digits m e with
  | None => js "NaN"
  | Some (s, k, n) =>
      let ds := dec_of_Z s in
      if (k <=? n) && (n <=? 21) then ds ++ zeros (n - k)
      else if (0 <? n) && (n <=? 21) then
        take (Z.to_nat n) ds ++ 46 :: drop (Z.to_nat n) ds
      else if (-6 <? n) && (n <=? 0) then js "0." ++ zeros (- n) ++ ds
      else mantissa_text ds ++ 101 :: exponent_text (n - 1)
  end.

Definition num_to_string (x : num) : jstr :=
  match x with
  | S754_nan => js "NaN"
  | S754_zero _ => js "0"
  | S754_infinity s => if s then js "-Infinity" else js "Infinity"
  | S754_finite s m e =>
      (if s then [45] else []) ++ positive_to_string m e
  end.

(** [x.toExponential()] for a finite number, split at ["e"]: the mantissa and
    the exponent. *)
Definition to_exponential (x : num) : jstr * Z :=
  match x with
  | S754_finite s m e =>
      match num_digits m e with
      | Some (sg, k, n) =>
          ((if s then [45] else []) ++ mantissa_text (dec_of_Z sg), n - 1)
      | None => (js "NaN", 0)
      end
  | _ => (js "0", 0)
  end.
