(* ===== verification/JsValue.v ===== *)
(** * JSON values, dates and the platform

    The request bodies, headers and task usage the interpreter reads are JSON
    values; a date is an absolute time in milliseconds.  The parts of the
    platform that are not computable from the language alone (the time-zone
    database behind [Intl.DateTimeFormat], Unicode lower-casing and the current
    time) are the operations of the class [Platform]; [PlatformLaws] states what
    their documentation promises and the theorems rely on. *)
From Stdlib Require Import SpecFloat.
From stdpp Require Import strings.
From S2P Require Import Prelude JsString JsNumber.

#[local] Open Scope Z_scope.

Inductive jsval :=
| J_undefined
| J_null
| J_bool (b : bool)
| J_num (x : num)
| J_str (s : jstr)
| J_arr (l : list jsval)
| J_obj (props : list (jstr * jsval)).

(** An own property of an object ([Object.hasOwn] and the read). *)
Definition own_property (props : list (jstr * jsval)) (key : jstr) : option jsval :=
  snd <$> List.find (fun p => bool_decide (fst p = key)) props.

(** [typeof value === 'object'] for a value that is not null. *)
Definition is_object (v : jsval) : bool :=
  match v with J_arr _ | J_obj _ => true | _ => false end.

(** [value == null] *)
Definition is_nullish (v : jsval) : bool :=
  match v with J_undefined | J_null => true | _ => false end.

Definition is_null (v : jsval) : bool := match v with J_null => true | _ => false end.

(** [a === b] for values that are not both objects. *)
Definition strict_equal (a b : jsval) : bool :=
  match a, b with
  | J_undefined, J_undefined | J_null, J_null => true
  | J_bool x, J_bool y => Bool.eqb x y
  | J_num x, J_num y => n_eqb x y
  | J_str x, J_str y => bool_decide (x = y)
  | _, _ => false
  end.

(** ** Dates *)

(** The time value of a [Date]: [None] for an invalid date. *)
Notation date := (option Z).

Definition ms_per_day : Z := 86400000.

Definition getUTCHours (t : Z) : Z := (t mod ms_per_day) / 3600000.
Definition getUTCMinutes (t : Z) : Z := (t mod 3600000) / 60000.
Definition utc_day (t : Z) : Z := t / ms_per_day.
Definition getUTCDay (t : Z) : Z := (utc_day t + 4) mod 7.

(** Day of the 400-year cycle that starts on a 1 March, and from it the day of
    the year (counted from 1 March), the month and the day of the month. *)
Definition cycle_day (t : Z) : Z := (utc_day t + 719468) mod 146097.
Definition day_of_year (doe : Z) : Z :=
  let yoe := (doe - doe / 1460 + doe / 36524 - doe / 146096) / 365 in
  doe - (365 * yoe + yoe / 4 - yoe / 100).
Definition month_of_doe (doe : Z) : Z :=
  let mp := (5 * day_of_year doe + 2) / 153 in
  if mp <? 10 then mp + 2 else mp - 10.
Definition date_of_doe (doe : Z) : Z :=
  let mp := (5 * day_of_year doe + 2) / 153 in
  day_of_year doe - (153 * mp + 2) / 5 + 1.
(** Months count from 0, days of the month from 1. *)
Definition getUTCMonth (t : Z) : Z := month_of_doe (cycle_day t).
Definition getUTCDate (t : Z) : Z := date_of_doe (cycle_day t).

(** ** The platform *)

(** The parts of [formatToParts] the code reads. *)
Record time_parts := TimeParts {
  tp_hour : jstr;
  tp_minute : jstr;
  tp_weekday : jstr;
  tp_month : jstr;
  tp_day : jstr;
}.

Class Platform := {
  pf_now : date;                              (* new Date() *)
  pf_toLowerCase : jstr -> jstr;              (* String.prototype.toLowerCase *)
  (* new Intl.DateTimeFormat('en-US', {timeZone, ...}): [None] when it throws,
     else the resolved zone and [formatToParts] *)
  pf_intl : jstr -> option (jstr * (Z -> time_parts));
}.

Definition ascii_lower (c : Z) : Z := if is_upper c then c + 32 else c.
Definition is_ascii (s : jstr) : Prop := Forall (fun c => 0 <= c < 128) s.

Definition WEEKDAYS : list jstr :=
  [js "Sun"; js "Mon"; js "Tue"; js "Wed"; js "Thu"; js "Fri"; js "Sat"].

(** A formatted numeric field in a range, with or without a leading zero. *)
Definition part_in (s : jstr) (lo hi : Z) : Prop :=
  exists z, lo <= z <= hi /\ (s = dec_of_Z z \/ (z <= 9 /\ s = 48 :: dec_of_Z z)).

Record parts_ok (p : time_parts) : Prop := {
  po_hour : part_in (tp_hour p) 0 23;
  po_minute : part_in (tp_minute p) 0 59;
  po_weekday : tp_weekday p ∈ WEEKDAYS;
  po_month : part_in (tp_month p) 1 12;
  po_day : part_in (tp_day p) 1 31;
}.

(** Documented behaviour: lower-casing maps ASCII letters and keeps other ASCII
    characters; the options [hourCycle: 'h23'], [hour: 'numeric'],
    [weekday: 'short'] of the [en-US] locale give fields in their calendar
    ranges. *)
Class PlatformLaws {P : Platform} : Prop := {
  pl_lower_ascii : forall s, is_ascii s -> pf_toLowerCase s = map ascii_lower s;
  pl_parts : forall zone resolved parts t,
    pf_intl zone = Some (resolved, parts) -> parts_ok (parts t);
}.
#[global] Arguments PlatformLaws : clear implicits.

(** ** Calendar ranges *)
Lemma utc_hours_range t : 0 <= getUTCHours t <= 23.
Proof. unfold getUTCHours, ms_per_day. Z.to_euclidean_division_equations. lia. Qed.

Lemma utc_minutes_range t : 0 <= getUTCMinutes t <= 59.
Proof. unfold getUTCMinutes. Z.to_euclidean_division_equations. lia. Qed.

Lemma utc_weekday_range t : 0 <= getUTCDay t <= 6.
Proof. unfold getUTCDay. Z.to_euclidean_division_equations. lia. Qed.

Lemma day_of_year_range doe : 0 <= doe < 146097 -> 0 <= day_of_year doe <= 365.
Proof. intros. unfold day_of_year. Z.to_euclidean_division_equations. lia. Qed.

Lemma utc_calendar_range t : 0 <= getUTCMonth t <= 11 /\ 1 <= getUTCDate t <= 31.
Proof.
  assert (0 <= cycle_day t < 146097) as Hd by (apply Z.mod_pos_bound; lia).
  apply day_of_year_range in Hd. revert Hd.
  unfold getUTCMonth, getUTCDate, month_of_doe, date_of_doe.
  generalize (day_of_year (cycle_day t)). intros d Hd.
  destruct (Z.ltb_spec ((5 * d + 2) / 153) 10); Z.to_euclidean_division_equations; lia.
Qed.

(** ** Objects the code builds

    The own properties of an object in enumeration order: array indices first,
    ascending, then the other keys in order of creation. *)
Definition array_index_of (key : jstr) : option Z :=
  match key with
  | [] => None
  | _ =>
      if forallb is_digit key then
        let z := digits_value key in
        if bool_decide (dec_of_Z z = key) && (z <? 4294967295) then Some z else None
      else None
  end.

Fixpoint obj_insert {A} (key : jstr) (v : A) (o : list (jstr * A)) : list (jstr * A) :=
  match o with
  | [] => [(key, v)]
  | (k, w) :: rest =>
      match array_index_of key, array_index_of k with
      | Some i, Some j => if i <? j then (key, v) :: o else (k, w) :: obj_insert key v rest
      | Some _, None => (key, v) :: o
      | None, _ => (k, w) :: obj_insert key v rest
      end
  end.

Fixpoint obj_update {A} (key : jstr) (v : A) (o : list (jstr * A)) : list (jstr * A) :=
  match o with
  | [] => []
  | (k, w) :: rest => if bool_decide (k = key) then (k, v) :: rest else (k, w) :: obj_update key v rest
  end.

(** [o[key] = v] *)
Definition obj_set {A} (key : jstr) (v : A) (o : list (jstr * A)) : list (jstr * A) :=
  if bool_decide (key ∈ o.*1) then obj_update key v o else obj_insert key v o.

(** [o[key]] for an own property *)
Definition obj_get {A} (key : jstr) (o : list (jstr * A)) : option A :=
  snd <$> List.find (fun p => bool_decide (fst p = key)) o.

(** The names every plain object inherits. *)
Definition inherited_names : list jstr :=
  map js ["constructor"; "__defineGetter__"; "__defineSetter__"; "hasOwnProperty";
          "__lookupGetter__"; "__lookupSetter__"; "isPrototypeOf"; "propertyIsEnumerable";
          "toString"; "valueOf"; "__proto__"; "toLocaleString"]%string.

Lemma obj_insert_perm {A} key (v : A) o : Permutation ((key, v) :: o) (obj_insert key v o).
Proof.
  induction o as [|[k w] o IH]; simpl; [done|].
  destruct (array_index_of key) as [i|], (array_index_of k) as [j|]; try done;
    try (destruct (i <? j); [done|]); rewrite <- IH; constructor.
Qed.

Lemma obj_set_fresh {A} key (v : A) o : key ∉ o.*1 -> Permutation ((key, v) :: o) (obj_set key v o).
Proof. intros H. unfold obj_set. rewrite bool_decide_eq_false_2 by done. apply obj_insert_perm. Qed.

Lemma obj_get_cons {A} key k (w : A) o :
  obj_get key ((k, w) :: o) = if bool_decide (k = key) then Some w else obj_get key o.
Proof. unfold obj_get. simpl. by case_bool_decide. Qed.

Lemma obj_get_insert {A} key k (v : A) o : k ∉ o.*1 ->
  obj_get key (obj_insert k v o) = if bool_decide (k = key) then Some v else obj_get key o.
Proof.
  induction o as [|[k' w] o IH]; intros Hk.
  - change (obj_insert k v []) with [(k, v)]. by rewrite obj_get_cons.
  - simpl in Hk. apply not_elem_of_cons in Hk as [Hne Hk].
    assert (obj_get key ((k', w) :: obj_insert k v o) =
      if bool_decide (k = key) then Some v else obj_get key ((k', w) :: o)) as Hin.
    { rewrite !obj_get_cons, IH by done. do 2 case_bool_decide; congruence. }
    simpl obj_insert. destruct (array_index_of k) as [i|], (array_index_of k') as [j|];
      try (destruct (i <? j)); try exact Hin; by rewrite obj_get_cons.
Qed.

Lemma obj_get_update {A} key k (v : A) o : k ∈ o.*1 ->
  obj_get key (obj_update k v o) = if bool_decide (k = key) then Some v else obj_get key o.
Proof.
  induction o as [|[k' w] o IH]; intros Hk; simpl in *; [by apply not_elem_of_nil in Hk|].
  destruct (bool_decide_reflect (k' = k)) as [->|Hne].
  - rewrite !obj_get_cons. by case_bool_decide.
  - apply elem_of_cons in Hk as [->|Hk]; [done|]. rewrite !obj_get_cons, IH by done.
    do 2 case_bool_decide; congruence.
Qed.

Lemma obj_get_set {A} key k (v : A) o :
  obj_get key (obj_set k v o) = if bool_decide (k = key) then Some v else obj_get key o.
Proof.
  unfold obj_set. destruct (bool_decide_reflect (k ∈ o.*1));
    [by apply obj_get_update|by apply obj_get_insert].
Qed.
