(* ===== verification/JsJson.v ===== *)
(** * JSON text

    [JSON.parse] on arbitrary text and [String(value)] of its result, as the
    request-rule reader uses them, and the round trip of [JSON.stringify] and
    [JSON.parse] on strings. *)
From Stdlib Require Import SpecFloat.
From stdpp Require Import strings.
From S2P Require Import Prelude JsString JsNumber JsValue.

#[local] Open Scope Z_scope.

(** ** [JSON.parse] *)
Definition json_space (c : Z) : bool := (c =? 32) || (c =? 9) || (c =? 10) || (c =? 13).

Definition json_simple_escape (c : Z) : option Z :=
  if (c =? 34) || (c =? 92) || (c =? 47) then Some c
  else if c =? 98 then Some 8
  else if c =? 102 then Some 12
  else if c =? 110 then Some 10
  else if c =? 114 then Some 13
  else if c =? 116 then Some 9
  else None.

(** The characters after an opening quote, up to and including the closing one. *)
Fixpoint json_string (s : jstr) : option (jstr * jstr) :=
  match s with
  | [] => None
  | c :: s1 =>
      if c =? 34 then Some ([], s1)
      else if c <? 32 then None
      else if negb (c =? 92) then '(v, rest) ← json_string s1; Some (c :: v, rest)
      else match s1 with
           | [] => None
           | x :: s2 =>
               match json_simple_escape x with
               | Some u => '(v, rest) ← json_string s2; Some (u :: v, rest)
               | None =>
                   if x =? 117 then
                     match s2 with
                     | a :: b :: d :: e :: s3 =>
                         match radix_value 16 [a; b; d; e] with
                         | Some u => '(v, rest) ← json_string s3; Some (u :: v, rest)
                         | None => None
                         end
                     | _ => None
                     end
                   else None
               end
           end
  end.

(** A number: no leading zeros, digits on both sides of a point. *)
Definition json_number (s : jstr) : option (num * jstr) :=
  let '(negative, s1) := match s with
                         | c :: s1 => if c =? 45 then (true, s1) else (false, s)
                         | [] => (false, s)
                         end in
  '(d, rest) ← scan_number s1;
  let leading_zero := match dl_int d with c :: _ :: _ => c =? 48 | _ => false end in
  if leading_zero || bool_decide (dl_int d = []) || bool_decide (dl_frac d = Some []) then None
  else Some (if negative then n_neg (dl_value d) else dl_value d, rest).

Definition skip_space (s : jstr) : jstr := drop_while json_space s.

Definition json_word (s : jstr) : option (jsval * jstr) :=
  if starts_with (js "true") s then Some (J_bool true, drop 4 s)
  else if starts_with (js "false") s then Some (J_bool false, drop 5 s)
  else if starts_with (js "null") s then Some (J_null, drop 4 s)
  else '(x, rest) ← json_number s; Some (J_num x, rest).

(** Values, the elements of an array and the members of an object, from the
    first character that is not white space. *)
Fixpoint json_value (fuel : nat) (s : jstr) : option (jsval * jstr) :=
  match fuel with
  | O => None
  | S fuel =>
      match skip_space s with
      | [] => None
      | c :: s1 =>
          if c =? 34 then '(v, rest) ← json_string s1; Some (J_str v, rest)
          else if c =? 91 then
            match skip_space s1 with
            | x :: rest => if x =? 93 then Some (J_arr [], rest)
                           else '(l, rest) ← json_elements fuel s1; Some (J_arr l, rest)
            | [] => None
            end
          else if c =? 123 then
            match skip_space s1 with
            | x :: rest => if x =? 125 then Some (J_obj [], rest)
                           else '(o, rest) ← json_members fuel s1 []; Some (J_obj o, rest)
            | [] => None
            end
          else json_word (c :: s1)
      end
  end
with json_elements (fuel : nat) (s : jstr) : option (list jsval * jstr) :=
  match fuel with
  | O => None
  | S fuel =>
      '(v, s1) ← json_value fuel s;
      match skip_space s1 with
      | c :: s2 =>
          if c =? 44 then '(l, rest) ← json_elements fuel s2; Some (v :: l, rest)
          else if c =? 93 then Some ([v], s2)
          else None
      | [] => None
      end
  end
with json_members (fuel : nat) (s : jstr) (o : list (jstr * jsval))
  : option (list (jstr * jsval) * jstr) :=
  match fuel with
  | O => None
  | S fuel =>
      match skip_space s with
      | q :: s1 =>
          if negb (q =? 34) then None else
          '(key, s2) ← json_string s1;
          match skip_space s2 with
          | colon :: s3 =>
              if negb (colon =? 58) then None else
              '(v, s4) ← json_value fuel s3;
              let o := obj_set key v o in
              match skip_space s4 with
              | c :: s5 =>
                  if c =? 44 then json_members fuel s5 o
                  else if c =? 125 then Some (o, s5)
                  else None
              | [] => None
              end
          | [] => None
          end
      | [] => None
      end
  end.

(** [JSON.parse]: [None] when it throws.  Every second call consumes a
    character, so that the fuel suffices. *)
Definition json_parse (s : jstr) : option jsval :=
  '(v, rest) ← json_value (2 * length s + 2) s;
  match skip_space rest with [] => Some v | _ => None end.

(** [String(value)] *)
Fixpoint js_to_string (v : jsval) : jstr :=
  match v with
  | J_undefined => js "undefined"
  | J_null => js "null"
  | J_bool b => if b then js "true" else js "false"
  | J_num x => num_to_string x
  | J_str s => s
  | J_arr l => join (js ",") (map (fun x => if is_nullish x then [] else js_to_string x) l)
  | J_obj _ => js "[object Object]"
  end.

(** ** Strings round-trip *)
Definition code_units (s : jstr) : Prop := Forall (fun c => 0 <= c < 65536) s.

Lemma hex_char_value d : 0 <= d < 16 -> hex_value (hex_char d) = Some d.
Proof.
  intros Hd. unfold hex_char, hex_value, is_digit. destruct (Z.ltb_spec d 10).
  - rewrite (proj2 (andb_true_iff _ _)) by lia. f_equal. lia.
  - rewrite (proj2 (andb_false_iff _ _)) by (right; lia). rewrite (proj2 (andb_true_iff _ _)) by lia.
    f_equal. lia.
Qed.

Lemma radix_hex a b d e : 0 <= a < 16 -> 0 <= b < 16 -> 0 <= d < 16 -> 0 <= e < 16 ->
  radix_value 16 [hex_char a; hex_char b; hex_char d; hex_char e]
  = Some (((a * 16 + b) * 16 + d) * 16 + e).
Proof.
  intros Ha Hb Hd He. unfold radix_value. cbn [fold_left].
  rewrite !hex_char_value by done. by rewrite !(proj2 (Z.ltb_lt _ _)) by lia.
Qed.

Lemma json_string_escape c rest v : 0 <= c < 65536 ->
  json_string rest = v -> json_string (unicode_escape c ++ rest) = ('(w, r) ← v; Some (c :: w, r)).
Proof.
  intros Hc <-. unfold unicode_escape. cbn -[radix_value hex_char].
  rewrite radix_hex by (apply Z.mod_pos_bound; lia).
  replace (((c / 4096 mod 16 * 16 + c / 256 mod 16) * 16 + c / 16 mod 16) * 16 + c mod 16) with c; [done|].
  Z.to_euclidean_division_equations. lia.
Qed.

Lemma json_string_char c rest : 0 <= c < 65536 ->
  json_string (json_char c ++ rest) = ('(w, r) ← json_string rest; Some (c :: w, r)).
Proof.
  intros Hc. unfold json_char.
  destruct ((c =? 34) || (c =? 92)) eqn:E1; [apply orb_true_iff in E1 as [E|E]; bsplit; by subst|].
  bsplit. repeat match goal with |- context [if ?c =? ?k then _ else _] => destruct (Z.eqb_spec c k) as [->|?]; [done|] end.
  destruct (Z.ltb_spec c 32); [by apply json_string_escape|].
  cbn. rewrite !(proj2 (Z.eqb_neq _ _)) by done. by rewrite (proj2 (Z.ltb_ge _ _)) by done.
Qed.

Lemma json_string_plain c rest : 35 <= c -> c <> 92 ->
  json_string (c :: rest) = ('(w, r) ← json_string rest; Some (c :: w, r)).
Proof.
  intros H1 H2. cbn. rewrite (proj2 (Z.eqb_neq c 34)), (proj2 (Z.ltb_ge c 32)) by lia.
  by rewrite (proj2 (Z.eqb_neq c 92)).
Qed.

(** Induction along the branches of [json_body]. *)
Lemma json_body_ind (P : jstr -> jstr -> Prop) :
  P [] [] ->
  (forall c d s, high_surrogate c = true -> low_surrogate d = true -> P s (json_body s) ->
     P (c :: d :: s) (c :: d :: json_body s)) ->
  (forall c s, high_surrogate c || low_surrogate c = true -> P s (json_body s) ->
     P (c :: s) (unicode_escape c ++ json_body s)) ->
  (forall c s, high_surrogate c || low_surrogate c = false -> P s (json_body s) ->
     P (c :: s) (json_char c ++ json_body s)) ->
  forall s, P s (json_body s).
Proof.
  intros H0 Hpair Hesc Hchar s. remember (length s) as k eqn:Hk. revert s Hk.
  induction k as [k IH] using lt_wf_ind. intros s ->. destruct s as [|c s]; [done|].
  assert (P s (json_body s)) as Hs by (apply (IH (length s)); [simpl; lia|done]).
  cbn [json_body]. destruct (high_surrogate c) eqn:Eh.
  - destruct s as [|d s]; [rewrite <- (app_nil_r (unicode_escape c)); by apply (Hesc c []); [rewrite Eh|]|].
    destruct (low_surrogate d) eqn:Ed; [|apply Hesc; [by rewrite Eh|done]].
    apply Hpair; [done|done|]. apply (IH (length s)); [simpl; lia|done].
  - destruct (low_surrogate c) eqn:El; [apply Hesc; [by rewrite Eh, El|done]|].
    apply Hchar; [by rewrite Eh, El|done].
Qed.

Lemma json_string_body s rest : code_units s -> json_string (json_body s ++ 34 :: rest) = Some (s, rest).
Proof.
  apply (json_body_ind (fun s b => code_units s -> json_string (b ++ 34 :: rest) = Some (s, rest))); clear s.
  - done.
  - intros c d s Hc Hd IH Hu. unfold high_surrogate, low_surrogate in *. bsplit.
    cbn [app]. rewrite !json_string_plain, IH by (lia || by inversion Hu as [|? ? ? Hu']; inversion Hu'). done.
  - intros c s _ IH Hu. apply Forall_cons_iff in Hu as [Hc Hu]. rewrite <- app_assoc.
    by rewrite (json_string_escape c _ _ Hc (IH Hu)).
  - intros c s _ IH Hu. apply Forall_cons_iff in Hu as [Hc Hu]. rewrite <- app_assoc.
    by rewrite json_string_char, IH.
Qed.

(** [JSON.parse(JSON.stringify(s)) = s] *)
Lemma json_roundtrip s : code_units s -> json_parse (json_stringify s) = Some (J_str s).
Proof.
  intros Hu. unfold json_parse, json_stringify.
  replace (2 * length (34%Z :: json_body s ++ [34%Z]) + 2)%nat
    with (S (2 * length (34%Z :: json_body s ++ [34%Z]) + 1)) by lia.
  cbn [json_value]. change (skip_space (34 :: json_body s ++ [34])) with (34 :: json_body s ++ [34]).
  cbv iota. change (34 =? 34) with true. cbv iota. by rewrite json_string_body.
Qed.
