(* ===== verification/Syntax.v ===== *)
(** * The abstract syntax of billing expressions

    Models [billing-expression/types.ts]: the vocabulary of the language, the
    expression nodes with their source spans, diagnostics and failures, the
    bounded post-order traversal every analysis is built on, and the
    dependencies (variables and functions) of an expression.

    A node of the source is an object compared by reference; in the model two
    nodes of one tree are the same object when their spans agree.  That this is
    faithful is a theorem about the parser ([Spans]): in a parsed tree the
    spans of distinct nodes differ. *)
From Stdlib Require Import SpecFloat.
From stdpp Require Import strings.
From S2P Require Import Prelude JsString JsNumber.

#[local] Open Scope Z_scope.

(** ** Vocabulary *)

(** The members of [TOKEN_VARIABLES]. *)
Inductive token_variable :=
| V_p | V_c | V_len | V_cr | V_cc | V_cc1h | V_img | V_img_o | V_img_cr
| V_image_count | V_ai | V_ao.

(** The members of [TIME_FUNCTIONS]. *)
Inductive time_function := T_hour | T_minute | T_weekday | T_month | T_day.

(** The keys of [BILLING_FUNCTIONS]. *)
Inductive billing_function :=
| F_tier | F_fixed | F_param | F_header | F_has | F_u
| F_time (t : time_function) | F_min | F_max | F_abs | F_ceil | F_floor.

Inductive unary_operator := U_not | U_plus | U_minus.

Inductive binary_operator :=
| B_or | B_and | B_eq | B_ne | B_lt | B_le | B_gt | B_ge
| B_add | B_sub | B_mul | B_div | B_mod.

#[global] Instance token_variable_eq_dec : EqDecision token_variable.
Proof. solve_decision. Defined.
#[global] Instance time_function_eq_dec : EqDecision time_function.
Proof. solve_decision. Defined.
#[global] Instance billing_function_eq_dec : EqDecision billing_function.
Proof. solve_decision. Defined.
#[global] Instance unary_operator_eq_dec : EqDecision unary_operator.
Proof. solve_decision. Defined.
#[global] Instance binary_operator_eq_dec : EqDecision binary_operator.
Proof. solve_decision. Defined.

Definition TOKEN_VARIABLES : list token_variable :=
  [V_p; V_c; V_len; V_cr; V_cc; V_cc1h; V_img; V_img_o; V_img_cr;
   V_image_count; V_ai; V_ao].

Definition TIME_FUNCTIONS : list time_function :=
  [T_hour; T_minute; T_weekday; T_month; T_day].

Definition variable_text (v : token_variable) : jstr :=
  match v with
  | V_p => js "p" | V_c => js "c" | V_len => js "len" | V_cr => js "cr"
  | V_cc => js "cc" | V_cc1h => js "cc1h" | V_img => js "img"
  | V_img_o => js "img_o" | V_img_cr => js "img_cr"
  | V_image_count => js "image_count" | V_ai => js "ai" | V_ao => js "ao"
  end.

Definition time_text (t : time_function) : jstr :=
  match t with
  | T_hour => js "hour" | T_minute => js "minute" | T_weekday => js "weekday"
  | T_month => js "month" | T_day => js "day"
  end.

Definition function_text (f : billing_function) : jstr :=
  match f with
  | F_tier => js "tier" | F_fixed => js "fixed" | F_param => js "param"
  | F_header => js "header" | F_has => js "has" | F_u => js "u"
  | F_time t => time_text t
  | F_min => js "min" | F_max => js "max" | F_abs => js "abs"
  | F_ceil => js "ceil" | F_floor => js "floor"
  end.

(** The table [BILLING_FUNCTIONS]: every function with its arity. *)
Definition BILLING_FUNCTIONS : list (billing_function * nat) :=
  [(F_tier, 2%nat); (F_fixed, 1%nat); (F_param, 1%nat); (F_header, 1%nat);
   (F_has, 2%nat); (F_u, 1%nat); (F_time T_hour, 1%nat); (F_time T_minute, 1%nat);
   (F_time T_weekday, 1%nat); (F_time T_month, 1%nat); (F_time T_day, 1%nat);
   (F_min, 2%nat); (F_max, 2%nat); (F_abs, 1%nat); (F_ceil, 1%nat); (F_floor, 1%nat)].

Definition arity (f : billing_function) : nat :=
  match f with
  | F_tier | F_has | F_min | F_max => 2
  | _ => 1
  end.

Definition unary_text (o : unary_operator) : jstr :=
  match o with U_not => js "!" | U_plus => js "+" | U_minus => js "-" end.

Definition binary_text (o : binary_operator) : jstr :=
  match o with
  | B_or => js "||" | B_and => js "&&" | B_eq => js "==" | B_ne => js "!="
  | B_lt => js "<" | B_le => js "<=" | B_gt => js ">" | B_ge => js ">="
  | B_add => js "+" | B_sub => js "-" | B_mul => js "*" | B_div => js "/"
  | B_mod => js "%"
  end.

(** Reading a word of the vocabulary: membership in the tables. *)
Definition variable_of_text (s : jstr) : option token_variable :=
  List.find (fun v => bool_decide (variable_text v = s)) TOKEN_VARIABLES.

Definition function_of_text (s : jstr) : option billing_function :=
  fst <$> List.find (fun p => bool_decide (function_text (fst p) = s)) BILLING_FUNCTIONS.

Definition unary_of_text (s : jstr) : option unary_operator :=
  List.find (fun o => bool_decide (unary_text o = s)) [U_not; U_plus; U_minus].

Definition BINARY_OPERATORS : list binary_operator :=
  [B_or; B_and; B_eq; B_ne; B_lt; B_le; B_gt; B_ge; B_add; B_sub; B_mul; B_div; B_mod].

Definition binary_of_text (s : jstr) : option binary_operator :=
  List.find (fun o => bool_decide (binary_text o = s)) BINARY_OPERATORS.

(** ** Expression nodes *)
Inductive literal :=
| L_num (x : num) (integer : bool)
| L_str (s : jstr)
| L_bool (b : bool)
| L_nil.

Inductive node :=
| Lit (v : literal) (s e : nat)
| Var (v : token_variable) (s e : nat)
| Call (f : billing_function) (args : list node) (s e : nat)
| Un (o : unary_operator) (a : node) (s e : nat)
| Bin (o : binary_operator) (l r : node) (s e : nat)
| Cond (c y n : node) (s e : nat).

Section NodeInd.
Variable P : node -> Prop.
Hypothesis HLit : forall v s e, P (Lit v s e).
Hypothesis HVar : forall v s e, P (Var v s e).
Hypothesis HCall : forall f args s e, Forall P args -> P (Call f args s e).
Hypothesis HUn : forall o a s e, P a -> P (Un o a s e).
Hypothesis HBin : forall o l r s e, P l -> P r -> P (Bin o l r s e).
Hypothesis HCond : forall c y n s e, P c -> P y -> P n -> P (Cond c y n s e).

Fixpoint node_rect_strong (n : node) : P n :=
  match n with
  | Lit v s e => HLit v s e
  | Var v s e => HVar v s e
  | Call f args s e =>
      HCall f args s e
        ((fix go l : Forall P l :=
            match l with
            | [] => List.Forall_nil _
            | x :: l => List.Forall_cons _ _ _ (node_rect_strong x) (go l)
            end) args)
  | Un o a s e => HUn o a s e (node_rect_strong a)
  | Bin o l r s e => HBin o l r s e (node_rect_strong l) (node_rect_strong r)
  | Cond c y n s e =>
      HCond c y n s e (node_rect_strong c) (node_rect_strong y) (node_rect_strong n)
  end.
End NodeInd.

Definition n_start (n : node) : nat :=
  match n with
  | Lit _ s _ | Var _ s _ | Call _ _ s _ | Un _ _ s _ | Bin _ _ _ s _
  | Cond _ _ _ s _ => s
  end.

Definition n_end (n : node) : nat :=
  match n with
  | Lit _ _ e | Var _ _ e | Call _ _ _ e | Un _ _ _ e | Bin _ _ _ _ e
  | Cond _ _ _ _ e => e
  end.

(** [{ ...node, start, end }] *)
Definition with_span (n : node) (s e : nat) : node :=
  match n with
  | Lit v _ _ => Lit v s e
  | Var v _ _ => Var v s e
  | Call f args _ _ => Call f args s e
  | Un o a _ _ => Un o a s e
  | Bin o l r _ _ => Bin o l r s e
  | Cond c y n _ _ => Cond c y n s e
  end.

Definition children (n : node) : list node :=
  match n with
  | Lit _ _ _ | Var _ _ _ => []
  | Call _ args _ _ => args
  | Un _ a _ _ => [a]
  | Bin _ l r _ _ => [l; r]
  | Cond c y n _ _ => [c; y; n]
  end.

(** Reference equality of two nodes of one tree. *)
Definition same_node (a b : node) : bool :=
  Nat.eqb (n_start a) (n_start b) && Nat.eqb (n_end a) (n_end b).

(** ** Diagnostics and failures *)
Inductive diagnostic_code :=
| C_syntax | C_unsupported | C_missing_context | C_type | C_number | C_limit.

#[global] Instance diagnostic_code_eq_dec : EqDecision diagnostic_code.
Proof. solve_decision. Defined.

Record diagnostic := Diag {
  d_code : diagnostic_code;
  d_detail : jstr;
  d_position : option nat;
}.

(** A thrown object: a [BillingExpressionError] or any other [Error], with its
    message.  The latter stands for exceptions of the language itself (and for
    a recursion bound of the model being exceeded, which is shown not to
    happen). *)
Inductive exn :=
| Billing (d : diagnostic)
| OtherError (message : jstr).

Notation outcome A := (result exn A).

Definition throw {A} (c : diagnostic_code) (detail : jstr) (pos : option nat) : outcome A :=
  Err (Billing (Diag c detail pos)).

Definition out_of_fuel {A} : outcome A := Err (OtherError (js "out of fuel")).
Definition type_error {A} : outcome A := Err (OtherError (js "TypeError")).

Inductive failure_status := S_unsupported | S_invalid | S_missing_context.

Record failure := Failure { f_status : failure_status; f_diagnostic : diagnostic }.

Definition expressionFailure (e : exn) : failure :=
  let d := match e with
           | Billing d => d
           | OtherError m => Diag C_syntax m None
           end in
  let st := S_invalid in
  let st := match d_code d with C_missing_context => S_missing_context | _ => st end in
  let st := match d_code d with C_unsupported | C_limit => S_unsupported | _ => st end in
  Failure st d.

(** ** Bounded post-order traversal *)
Record visit_entry := Entry { en_node : node; en_visited : bool; en_depth : Z }.

Fixpoint node_size (n : node) : nat :=
  S (match n with
     | Lit _ _ _ | Var _ _ _ => 0
     | Call _ args _ _ => list_sum (map node_size args)
     | Un _ a _ _ => node_size a
     | Bin _ l r _ _ => node_size l + node_size r
     | Cond c y n _ _ => node_size c + node_size y + node_size n
     end).

(** The loop of [visitExpression] over its explicit stack (the head is the
    top).  [visitor] may throw. *)
Fixpoint visit_loop {S} (fuel : nat) (visitor : node -> S -> outcome S)
    (stack : list visit_entry) (st : S) : outcome S :=
  match fuel with
  | O => match stack with [] => Ok st | _ => out_of_fuel end
  | Datatypes.S fuel =>
      match stack with
      | [] => Ok st
      | entry :: stack =>
          if 256 <? en_depth entry then throw C_limit (js "expression depth") None
          else if en_visited entry then
            let* st := visitor (en_node entry) st in
            visit_loop fuel visitor stack st
          else
            visit_loop fuel visitor
              (map (fun child => Entry child false (en_depth entry + 1))
                   (children (en_node entry))
               ++ Entry (en_node entry) true (en_depth entry) :: stack) st
      end
  end.

Definition visitExpression {S} (n : node) (visitor : node -> S -> outcome S) (st : S)
  : outcome S :=
  visit_loop (2 * node_size n) visitor [Entry n false 0] st.

(** ** Dependencies *)

(** [Set.prototype.add], insertion ordered. *)
Definition set_add {A} `{EqDecision A} (x : A) (l : list A) : list A :=
  if bool_decide (x ∈ l) then l else l ++ [x].

Record dependencies := Deps {
  dep_variables : list token_variable;
  dep_functions : list billing_function;
}.

Definition expressionDependencies (n : node) : outcome dependencies :=
  visitExpression n (fun part d =>
    match part with
    | Var v _ _ => Ok (Deps (set_add v (dep_variables d)) (dep_functions d))
    | Call f _ _ _ => Ok (Deps (dep_variables d) (set_add f (dep_functions d)))
    | _ => Ok d
    end) (Deps [] []).
