(* ===== verification/SyntaxFacts.v ===== *)
(** * Facts about the syntax tree and its traversal

    The explicit-stack loop of [visitExpression] is the fold of its visitor over
    the post-order list of nodes, for trees of at most 257 levels; higher trees
    are rejected.  Dependencies are exactly the variables and functions that
    occur. *)
From stdpp Require Import strings.
From S2P Require Import Prelude JsString JsNumber Syntax.

#[local] Open Scope Z_scope.

Fixpoint postorder (n : node) : list node :=
  match n with
  | Lit _ _ _ | Var _ _ _ => []
  | Call _ args _ _ => mjoin (map postorder args)
  | Un _ a _ _ => postorder a
  | Bin _ l r _ _ => postorder l ++ postorder r
  | Cond c y no _ _ => postorder c ++ postorder y ++ postorder no
  end ++ [n].

(** Number of nodes on the longest path to a leaf. *)
Fixpoint levels (n : node) : Z :=
  1 + match n with
      | Lit _ _ _ | Var _ _ _ => 0
      | Call _ args _ _ => foldr Z.max 0 (map levels args)
      | Un _ a _ _ => levels a `max` 0
      | Bin _ l r _ _ => levels l `max` (levels r `max` 0)
      | Cond c y no _ _ => levels c `max` (levels y `max` (levels no `max` 0))
      end.

Lemma node_ind_children (P : node -> Prop) :
  (forall n, Forall P (children n) -> P n) -> forall n, P n.
Proof. intros H n. induction n using node_rect_strong; apply H; simpl; auto. Qed.

Lemma postorder_eq n : postorder n = mjoin (map postorder (children n)) ++ [n].
Proof. destruct n; simpl; rewrite ?app_nil_r; reflexivity. Qed.

Lemma node_size_eq n : node_size n = S (list_sum (map node_size (children n))).
Proof. destruct n; simpl; lia. Qed.

Lemma levels_eq n : levels n = 1 + foldr Z.max 0 (map levels (children n)).
Proof. by destruct n. Qed.

Lemma foldr_max_le l b : 0 <= b -> foldr Z.max 0 l <= b <-> Forall (fun x => x <= b) l.
Proof.
  intros Hb. induction l as [|x l IH]; simpl; [by split|].
  rewrite Forall_cons_iff, <- IH. lia.
Qed.

Lemma levels_pos n : 1 <= levels n.
Proof.
  rewrite levels_eq. generalize (map levels (children n)).
  intros l. induction l; simpl; lia.
Qed.

(** A tree fits in [b] levels exactly when its children fit in [b - 1]. *)
Lemma levels_le n b : 1 <= b ->
  levels n <= b <-> Forall (fun c => levels c <= b - 1) (children n).
Proof.
  intros. rewrite levels_eq. rewrite <- (Forall_map levels (fun x => x <= b - 1)).
  rewrite <- foldr_max_le by lia. lia.
Qed.

Definition fits (d : Z) (n : node) : Prop := d + levels n <= 257.
#[global] Instance fits_dec d n : Decision (fits d n).
Proof. unfold fits. apply _. Defined.

Lemma fits_children d n : d <= 256 -> fits d n <-> Forall (fits (d + 1)) (children n).
Proof.
  intros. unfold fits. transitivity (levels n <= 257 - d); [lia|].
  rewrite levels_le by lia. apply Forall_iff. intros c. lia.
Qed.

Section Visit.
Context {S : Type} (visitor : node -> S -> outcome S).

Notation entries d ns := (map (fun c => Entry c false d) ns).

Lemma visit_loop_entries d ns f stack st :
  Forall (fun n => forall f stack st,
    visit_loop (2 * node_size n + f) visitor (Entry n false d :: stack) st =
    (let* st := rfold visitor (postorder n) st in visit_loop f visitor stack st)) ns ->
  visit_loop (2 * list_sum (map node_size ns) + f) visitor (entries d ns ++ stack) st =
  (let* st := rfold visitor (mjoin (map postorder ns)) st in visit_loop f visitor stack st).
Proof.
  intros H. revert f stack st. induction H as [|n ns Hn _ IH]; intros f stack st; [done|].
  replace (2 * list_sum (map node_size (n :: ns)) + f)%nat
    with (2 * node_size n + (2 * list_sum (map node_size ns) + f))%nat
    by (cbn [map list_sum]; unfold list_sum; simpl; lia).
  change (mjoin (map postorder (n :: ns))) with (postorder n ++ mjoin (map postorder ns)).
  cbn [map app].
  rewrite Hn, rfold_app, rbind_assoc.
  destruct (rfold visitor (postorder n) st); simpl; [apply IH|done].
Qed.

Lemma visit_loop_fits n d f stack st : fits d n ->
  visit_loop (2 * node_size n + f) visitor (Entry n false d :: stack) st =
  (let* st := rfold visitor (postorder n) st in visit_loop f visitor stack st).
Proof.
  revert d f stack st. induction n as [n IH] using node_ind_children.
  intros d f stack st Hf.
  assert (d <= 256) as Hd by (unfold fits in Hf; pose proof (levels_pos n); lia).
  rewrite node_size_eq, postorder_eq.
  replace (2 * Datatypes.S (list_sum (map node_size (children n))) + f)%nat
    with (Datatypes.S (2 * list_sum (map node_size (children n)) + Datatypes.S f)) by lia.
  cbn [visit_loop en_depth en_visited en_node].
  destruct (Z.ltb_spec 256 d); [lia|].
  rewrite visit_loop_entries.
  - rewrite rfold_app, !rbind_assoc.
    destruct (rfold visitor (mjoin (map postorder (children n))) st); simpl; [|done].
    destruct (Z.ltb_spec 256 d); [lia|].
    destruct (visitor n a); simpl; done.
  - apply fits_children in Hf; [|done].
    rewrite Forall_elem in *. intros c Hc g stk s. apply IH; auto.
Qed.

(** The visitor throws nothing but billing errors on the nodes of a list. *)
Definition throws_billing (ns : list node) : Prop :=
  forall m st e, m ∈ ns -> visitor m st = Err e -> exists d, e = Billing d.

Lemma rfold_throws ns st e : rfold visitor ns st = Err e ->
  throws_billing ns -> exists d, e = Billing d.
Proof.
  revert st. induction ns as [|n ns IH]; intros st H Hv; simpl in H; [done|].
  apply rbind_err in H as [H|(st1 & _ & H)].
  - eapply Hv; [|done]. by left.
  - eapply IH; [done|]. intros m s' e' Hm. apply Hv. by right.
Qed.

(** A tree that does not fit makes the traversal throw. *)
Lemma visit_loop_too_deep n d f stack st : ~ fits d n ->
  exists e, visit_loop (2 * node_size n + f) visitor (Entry n false d :: stack) st = Err e /\
    (throws_billing (postorder n) -> exists d, e = Billing d).
Proof.
  revert d f stack st. induction n as [n IH] using node_ind_children.
  intros d f stack st Hf. rewrite node_size_eq.
  replace (2 * Datatypes.S (list_sum (map node_size (children n))) + f)%nat
    with (Datatypes.S (2 * list_sum (map node_size (children n)) + Datatypes.S f)) by lia.
  cbn [visit_loop en_depth en_visited en_node].
  destruct (Z.ltb_spec 256 d); [by eauto|].
  rewrite fits_children in Hf by done. rewrite postorder_eq.
  generalize (Entry n true d :: stack) (Datatypes.S f) [n]. revert st.
  induction IH as [|c ns Hc Hns IHl]; intros st stk g tl; [by destruct Hf|].
  replace (2 * list_sum (map node_size (c :: ns)) + g)%nat
    with (2 * node_size c + (2 * list_sum (map node_size ns) + g))%nat
    by (unfold list_sum; simpl; lia).
  change (mjoin (map postorder (c :: ns))) with (postorder c ++ mjoin (map postorder ns)).
  cbn [map app].
  destruct (decide (fits (d + 1) c)) as [Hfc|Hfc].
  - rewrite visit_loop_fits by done.
    destruct (rfold visitor (postorder c) st) as [st1|e] eqn:E; cbn [rbind].
    + destruct (IHl (fun Hall => Hf (List.Forall_cons _ _ _ Hfc Hall)) st1 stk g tl)
        as (e & -> & He).
      exists e. split; [done|]. intros Hv. apply He. intros m s' e' Hm. apply Hv.
      rewrite !elem_of_app in *. tauto.
    + exists e. split; [done|]. intros Hv. eapply rfold_throws; [exact E|].
      intros m s' e' Hm. apply Hv. rewrite !elem_of_app. tauto.
  - destruct (Hc (d + 1) (2 * list_sum (map node_size ns) + g)%nat
      (entries (d + 1) ns ++ stk) st Hfc) as (e & -> & He).
    exists e. split; [done|]. intros Hv. apply He. intros m s' e' Hm. apply Hv.
    rewrite !elem_of_app. tauto.
Qed.

Lemma visit_spec n st : fits 0 n ->
  visitExpression n visitor st = rfold visitor (postorder n) st.
Proof.
  intros Hf. unfold visitExpression. rewrite <- (Nat.add_0_r (2 * node_size n)).
  rewrite visit_loop_fits by done.
  by destruct (rfold visitor (postorder n) st).
Qed.

Lemma visit_ok_fits n st st' : visitExpression n visitor st = Ok st' -> fits 0 n.
Proof.
  intros H. destruct (decide (fits 0 n)) as [|Hf]; [done|].
  destruct (visit_loop_too_deep n 0 0 [] st Hf) as (e & He & _).
  unfold visitExpression in H. rewrite Nat.add_0_r in He. congruence.
Qed.

(** A traversal throws only what its visitor throws, or the depth limit. *)
Lemma visit_throws n st e : visitExpression n visitor st = Err e ->
  throws_billing (postorder n) -> exists d, e = Billing d.
Proof.
  intros H Hv. destruct (decide (fits 0 n)) as [Hf|Hf].
  - rewrite visit_spec in H by done. by eapply rfold_throws.
  - destruct (visit_loop_too_deep n 0 0 [] st Hf) as (e' & He & Hb).
    unfold visitExpression in H. rewrite Nat.add_0_r, H in He. injection He as <-. auto.
Qed.
End Visit.

(** ** Subterms *)
Lemma elem_of_postorder_children n m :
  m ∈ postorder n <-> m = n \/ exists c, c ∈ children n /\ m ∈ postorder c.
Proof.
  rewrite postorder_eq, elem_of_app, list_elem_of_singleton.
  rewrite list_elem_of_join. setoid_rewrite list_elem_of_fmap. naive_solver.
Qed.

Lemma postorder_self n : n ∈ postorder n.
Proof. apply elem_of_postorder_children. by left. Qed.

Lemma postorder_trans n m k : m ∈ postorder n -> k ∈ postorder m -> k ∈ postorder n.
Proof.
  revert m k. induction n as [n IH] using node_ind_children. intros m k Hm Hk.
  apply elem_of_postorder_children in Hm as [->|(c & Hc & Hm)]; [done|].
  apply elem_of_postorder_children. right. exists c. split; [done|].
  rewrite Forall_elem in IH. by apply (IH c Hc m).
Qed.

Lemma postorder_child n c : c ∈ children n -> c ∈ postorder n.
Proof.
  intros. apply elem_of_postorder_children. right. eauto using postorder_self.
Qed.

Lemma fits_mono d d' n : d' <= d -> fits d n -> fits d' n.
Proof. unfold fits. lia. Qed.

Lemma fits_subterm n m : fits 0 n -> m ∈ postorder n -> fits 0 m.
Proof.
  revert m. induction n as [n IH] using node_ind_children. intros m Hf Hm.
  apply elem_of_postorder_children in Hm as [->|(c & Hc & Hm)]; [done|].
  rewrite Forall_elem in IH. apply (IH c Hc); [|done].
  apply fits_children in Hf; [|lia]. rewrite Forall_elem in Hf.
  eapply fits_mono, Hf; [lia|done].
Qed.

(** ** Dependencies *)
Lemma elem_of_set_add {A} `{EqDecision A} (x y : A) l : y ∈ set_add x l <-> y = x \/ y ∈ l.
Proof.
  unfold set_add. case_bool_decide; [naive_solver|].
  rewrite elem_of_app, list_elem_of_singleton. naive_solver.
Qed.

Definition uses_variable (v : token_variable) (n : node) : Prop :=
  exists s e, Var v s e ∈ postorder n.
Definition uses_function (f : billing_function) (n : node) : Prop :=
  exists args s e, Call f args s e ∈ postorder n.

Definition deps_step (part : node) (d : dependencies) : outcome dependencies :=
  match part with
  | Var v _ _ => Ok (Deps (set_add v (dep_variables d)) (dep_functions d))
  | Call f _ _ _ => Ok (Deps (dep_variables d) (set_add f (dep_functions d)))
  | _ => Ok d
  end.

Lemma deps_fold l d : exists d', rfold deps_step l d = Ok d' /\
  (forall v, v ∈ dep_variables d' <-> v ∈ dep_variables d \/ exists s e, Var v s e ∈ l) /\
  (forall f, f ∈ dep_functions d' <->
     f ∈ dep_functions d \/ exists args s e, Call f args s e ∈ l).
Proof.
  revert d. induction l as [|x l IH]; intros d; simpl.
  - exists d. split; [done|]. split; intros; split; try tauto;
      intros [?|H]; try done; destruct_and?; destruct H as (? & ? & H);
      try destruct H as [? H]; by apply not_elem_of_nil in H.
  - assert (exists d1, deps_step x d = Ok d1 /\
      (forall v, v ∈ dep_variables d1 <-> v ∈ dep_variables d \/ exists s e, x = Var v s e) /\
      (forall f, f ∈ dep_functions d1 <-> f ∈ dep_functions d \/ exists args s e, x = Call f args s e))
      as (d1 & -> & Hv1 & Hf1).
    { destruct x; simpl; eexists; (split; [reflexivity|]); split; intros; simpl;
        rewrite ?elem_of_set_add; naive_solver. }
    simpl. destruct (IH d1) as (d' & -> & Hv & Hf). exists d'. split; [done|]. split.
    + intros v. rewrite Hv, Hv1. setoid_rewrite elem_of_cons. naive_solver.
    + intros f. rewrite Hf, Hf1. setoid_rewrite elem_of_cons. naive_solver.
Qed.

Lemma dependencies_ok n : fits 0 n -> exists d, expressionDependencies n = Ok d /\
  (forall v, v ∈ dep_variables d <-> uses_variable v n) /\
  (forall f, f ∈ dep_functions d <-> uses_function f n).
Proof.
  intros Hf. unfold expressionDependencies. rewrite visit_spec by done.
  destruct (deps_fold (postorder n) (Deps [] [])) as (d & Hd & Hv & Hfn).
  exists d. split; [exact Hd|]. split; intros x; rewrite ?Hv, ?Hfn; simpl;
    (split; [intros [H|H]; [by apply not_elem_of_nil in H|exact H]|by right]).
Qed.

Lemma dependencies_fits n d : expressionDependencies n = Ok d -> fits 0 n.
Proof. apply visit_ok_fits. Qed.
