(* ===== verification/Parser.v ===== *)
(** * Lexer and parser

    Models the class [BillingParser] of [billing-expression/parser.ts]: the
    lexer [next] over the source text and the precedence-climbing parser
    [expression] / [primary], with the parser's mutable fields (cursor, token
    count, depth, current lexeme) as an explicit state.  Lexing is on demand,
    as in the code, so lexical and syntactic errors surface in the same order. *)
From Stdlib Require Import SpecFloat.
From stdpp Require Import strings.
From S2P Require Import Prelude JsString JsNumber Syntax.

#[local] Open Scope Z_scope.

Inductive lexeme_kind :=
| K_number (value : num) (integer : bool)
| K_string (value : jstr)
| K_symbol
| K_name
| K_end.

Record lexeme := Lexeme {
  lx_kind : lexeme_kind;
  lx_text : jstr;
  lx_start : nat;
  lx_end : nat;
}.

Definition PRECEDENCE (o : binary_operator) : Z :=
  match o with
  | B_or => 1
  | B_and => 2
  | B_eq | B_ne => 3
  | B_lt | B_le | B_gt | B_ge => 4
  | B_add | B_sub => 5
  | B_mul | B_div | B_mod => 6
  end.

(** ** The lexer *)

(** The version prefix [/^\s*v(\d+):/] with the digits it captures. *)
Definition match_version (source : jstr) : option (jstr * jstr) :=
  let '(ws, s1) := span_while is_space source in
  match s1 with
  | v :: s2 =>
      let '(ds, s3) := span_while is_digit s2 in
      match ds, s3 with
      | _ :: _, colon :: _ =>
          if (v =? 118) && (colon =? 58) then Some (ws ++ v :: ds ++ [colon], ds) else None
      | _, _ => None
      end
  | [] => None
  end.

(** Single-character escapes of string literals. *)
Definition simple_escape (c : Z) : option Z :=
  if c =? 110 then Some 10          (* n *)
  else if c =? 114 then Some 13     (* r *)
  else if c =? 116 then Some 9      (* t *)
  else if c =? 98 then Some 8       (* b *)
  else if c =? 102 then Some 12     (* f *)
  else if c =? 118 then Some 11     (* v *)
  else if (c =? 92) || (c =? 34) || (c =? 39) || (c =? 47) then Some c
  else None.

Definition hex_digits_value (s : jstr) : option Z := radix_value 16 s.
#[global] Arguments hex_digits_value : simpl never.

Inductive string_scan :=
| Scanned (value : jstr) (length : nat)   (* characters consumed, quote included *)
| BadEscape (offset : nat)                (* offset of the escaped character *)
| Unterminated.

(** The loop of [next] over the characters after an opening quote.  [s] is the
    text from the cursor on, [n] the characters consumed so far and [value]
    the value read so far. *)
Fixpoint scan_string (quote : Z) (s : jstr) (n : nat) (value : jstr) : string_scan :=
  match s with
  | [] => Unterminated
  | char :: s1 =>
      if char =? quote then Scanned value (n + 1)
      else if (char =? 10) || (char =? 13) then Unterminated
      else if negb (char =? 92) then scan_string quote s1 (n + 1) (value ++ [char])
      else match s1 with
           | [] => BadEscape (n + 1)
           | escaped :: s2 =>
               match simple_escape escaped with
               | Some c => scan_string quote s2 (n + 2) (value ++ [c])
               | None =>
                   if escaped =? 117 then
                     match s2 with
                     | a :: b :: c :: d :: s3 =>
                         match hex_digits_value [a; b; c; d] with
                         | Some v => scan_string quote s3 (n + 6) (value ++ [v])
                         | None => Unterminated
                         end
                     | _ => Unterminated
                     end
                   else if escaped =? 120 then
                     match s2 with
                     | a :: b :: s3 =>
                         match hex_digits_value [a; b] with
                         | Some v => scan_string quote s3 (n + 4) (value ++ [v])
                         | None => Unterminated
                         end
                     | _ => Unterminated
                     end
                   else BadEscape (n + 1)
               end
           end
  end.

(** [/^(?:&&|\|\||==|!=|<=|>=|[+\-*/%<>()!?:,])/] *)
Definition match_operator (rest : jstr) : option jstr :=
  let two := take 2 rest in
  if existsb (fun o => bool_decide (two = o))
       [js "&&"; js "||"; js "=="; js "!="; js "<="; js ">="] then Some two
  else match rest with
       | c :: _ => if bool_decide (c ∈ js "+-*/%<>()!?:,") then Some [c] else None
       | [] => None
       end.

Record parser := Parser {
  ps_cursor : nat;
  ps_count : Z;
  ps_depth : Z;
  ps_current : lexeme;
}.

(** [next] from a cursor and a token count: the new cursor and count and the
    lexeme. *)
Definition next (source : jstr) (cursor : nat) (count : Z) : outcome (nat * Z * lexeme) :=
  let count := count + 1 in
  if 10000 <? count then throw C_limit (js "expression tokens") None else
  let '(blank, rest) := span_while is_space (drop cursor source) in
  let start := (cursor + length blank)%nat in
  match rest with
  | [] => Ok (start, count, Lexeme K_end [] start start)
  | first :: after =>
      match scan_number rest with
      | Some (d, _) =>
          let text := dl_text d in
          let value := dl_value d in
          let integer := dl_integer d in
          if negb (is_finite value) then throw C_number text (Some start)
          else if integer && negb (is_safe_integer value)
          then throw C_unsupported (js "integer precision") (Some start)
          else
            let stop := (start + length text)%nat in
            Ok (stop, count, Lexeme (K_number value integer) text start stop)
      | None =>
          if (first =? 34) || (first =? 39) then
            match scan_string first after 0 [] with
            | Scanned value n =>
                let stop := (start + 1 + n)%nat in
                Ok (stop, count,
                    Lexeme (K_string value) (slice source start stop) start stop)
            | BadEscape n =>
                throw C_unsupported (js "string escape") (Some (start + 1 + n)%nat)
            | Unterminated => throw C_syntax (js "unterminated string") (Some start)
            end
          else if is_name_start first then
            let '(text, _) := span_while is_word rest in
            let stop := (start + length text)%nat in
            Ok (stop, count, Lexeme K_name text start stop)
          else
            match match_operator rest with
            | None => throw C_unsupported [first] (Some start)
            | Some text =>
                let stop := (start + length text)%nat in
                Ok (stop, count, Lexeme K_symbol text start stop)
            end
      end
  end.

(** The constructor of [BillingParser]. *)
Definition new_parser (source : jstr) : outcome parser :=
  if 65536 <? Z.of_nat (length source) then throw C_limit (js "expression length") None
  else
    let version := match_version source in
    let* cursor :=
      match version with
      | Some (text, digits) =>
          if bool_decide (digits = js "1") then Ok (length text)
          else throw C_unsupported text None
      | None => Ok 0%nat
      end in
    let* '(cursor, count, current) := next source cursor 0 in
    Ok (Parser cursor count 0 current).

(** ** The parser *)
Definition take_lexeme (source : jstr) (p : parser) : outcome (lexeme * parser) :=
  let* '(cursor, count, lx) := next source (ps_cursor p) (ps_count p) in
  Ok (ps_current p, Parser cursor count (ps_depth p) lx).

Definition is_text (p : parser) (text : jstr) : bool :=
  bool_decide (lx_text (ps_current p) = text).

Definition expect (source : jstr) (text : jstr) (p : parser) : outcome (lexeme * parser) :=
  if is_text p text then take_lexeme source p
  else throw C_syntax (js "expected " ++ text) (Some (lx_start (ps_current p))).

Definition set_depth (p : parser) (d : Z) : parser :=
  Parser (ps_cursor p) (ps_count p) d (ps_current p).

(** [expression], the loop over binary operators inside it, [primary] and its
    loop over arguments; [fuel] bounds the nesting of these calls. *)
Fixpoint expression (fuel : nat) (source : jstr) (minimum : Z) (p : parser)
  : outcome (node * parser) :=
  match fuel with
  | O => out_of_fuel
  | S fuel =>
      let p := set_depth p (ps_depth p + 1) in
      if 128 <? ps_depth p then throw C_limit (js "expression depth") None else
      let* '(lhs, p) := primary fuel source p in
      let* '(lhs, p) := binary_loop fuel source minimum lhs p in
      let* '(lhs, p) :=
        if (minimum =? 0) && is_text p (js "?") then
          let* '(_, p) := take_lexeme source p in
          let* '(yes, p) := expression fuel source 0 p in
          let* '(_, p) := expect source (js ":") p in
          let* '(no, p) := expression fuel source 0 p in
          Ok (Cond lhs yes no (n_start lhs) (n_end no), p)
        else Ok (lhs, p) in
      Ok (lhs, set_depth p (ps_depth p - 1))
  end
with binary_loop (fuel : nat) (source : jstr) (minimum : Z) (lhs : node) (p : parser)
  : outcome (node * parser) :=
  match fuel with
  | O => out_of_fuel
  | S fuel =>
      match binary_of_text (lx_text (ps_current p)) with
      | Some operator =>
          if minimum <=? PRECEDENCE operator then
            let* '(_, p) := take_lexeme source p in
            let* '(rhs, p) := expression fuel source (PRECEDENCE operator + 1) p in
            binary_loop fuel source minimum
              (Bin operator lhs rhs (n_start lhs) (n_end rhs)) p
          else Ok (lhs, p)
      | None => Ok (lhs, p)
      end
  end
with primary (fuel : nat) (source : jstr) (p : parser) : outcome (node * parser) :=
  match fuel with
  | O => out_of_fuel
  | S fuel =>
      let* '(token, p) := take_lexeme source p in
      let s := lx_start token in
      let e := lx_end token in
      match lx_kind token with
      | K_number value integer => Ok (Lit (L_num value integer) s e, p)
      | K_string value => Ok (Lit (L_str value) s e, p)
      | kind =>
          if bool_decide (lx_text token = js "(") then
            let* '(n, p) := expression fuel source 0 p in
            let* '(close, p) := expect source (js ")") p in
            Ok (with_span n s (lx_end close), p)
          else
            match unary_of_text (lx_text token) with
            | Some operator =>
                let* '(operand, p) := expression fuel source 7 p in
                Ok (Un operator operand s (n_end operand), p)
            | None =>
                match kind with
                | K_name => primary_name fuel source token p
                | _ => throw C_syntax (lx_text token) (Some s)
                end
            end
      end
  end
with primary_name (fuel : nat) (source : jstr) (token : lexeme) (p : parser)
  : outcome (node * parser) :=
  match fuel with
  | O => out_of_fuel
  | S fuel =>
      let s := lx_start token in
      let e := lx_end token in
      let text := lx_text token in
      if bool_decide (text = js "nil") then Ok (Lit L_nil s e, p)
      else if bool_decide (text = js "true") || bool_decide (text = js "false")
      then Ok (Lit (L_bool (bool_decide (text = js "true"))) s e, p)
      else if negb (is_text p (js "(")) then
        match variable_of_text text with
        | Some v => Ok (Var v s e, p)
        | None => throw C_unsupported text (Some s)
        end
      else
        match function_of_text text with
        | None => throw C_unsupported text (Some s)
        | Some f =>
            let* '(_, p) := take_lexeme source p in
            let* '(args, p) := arguments fuel source p in
            let* '(close, p) := expect source (js ")") p in
            if negb (Nat.eqb (length args) (arity f))
            then throw C_type text (Some s)
            else Ok (Call f args s (lx_end close), p)
        end
  end
with arguments (fuel : nat) (source : jstr) (p : parser) : outcome (list node * parser) :=
  match fuel with
  | O => out_of_fuel
  | S fuel =>
      if is_text p (js ")") then Ok ([], p)
      else
        let* '(arg, p) := expression fuel source 0 p in
        if negb (is_text p (js ",")) then Ok ([arg], p)
        else
          let* '(_, p) := take_lexeme source p in
          let* '(rest, p) := arguments fuel source p in
          Ok (arg :: rest, p)
  end.

(** Every nesting of the calls above consumes tokens, of which there are at
    most 10000. *)
Definition parse_fuel : nat := Z.to_nat 50000.

Definition parse (source : jstr) : outcome node :=
  let* p := new_parser source in
  let* '(n, p) := expression parse_fuel source 0 p in
  match lx_kind (ps_current p) with
  | K_end => Ok n
  | _ => throw C_unsupported (lx_text (ps_current p)) (Some (lx_start (ps_current p)))
  end.
