(* ===== verification/ParserFacts.v ===== *)
(** * Correctness of the lexer and the parser

    For every source text: parsing ends (the recursion bound is never reached),
    the tree has the arities of the function table, every literal is a finite
    number, and the source spans of the nodes nest properly.  In particular the
    spans of distinct nodes differ, so comparing spans is comparing objects. *)
From Stdlib Require Import SpecFloat.
From stdpp Require Import strings.
From S2P Require Import Prelude JsString JsNumber Syntax SyntaxFacts Parser.

#[local] Open Scope Z_scope.

(** ** The lexer *)
Lemma span_while_eq f s a b : span_while f s = (a, b) -> s = a ++ b.
Proof. intros H. pose proof (span_while_app f s) as E. by rewrite H in E. Qed.

Lemma scan_exp_text s ex r : scan_exp s = (ex, r) ->
  s = match ex with
      | Some (c, sg, ds) => c :: (match sg with Some x => [x] | None => [] end) ++ ds
      | None => []
      end ++ r.
Proof.
  unfold scan_exp. intros H. destruct s as [|c s]; [by simplify_eq|].
  destruct (is_exp_mark c); [|by simplify_eq].
  destruct s as [|x s]; simpl in H; [by simplify_eq|].
  destruct (is_sign x) eqn:Ex.
  - destruct (span_while is_digit s) as [ds s3] eqn:E; simpl in H.
    apply span_while_eq in E. destruct ds; simplify_eq/=; done.
  - destruct (span_while is_digit (x :: s)) as [ds s3] eqn:E.
    apply span_while_eq in E. destruct ds; simplify_eq/=; by rewrite ?E.
Qed.

Lemma scan_number_text s d r : scan_number s = Some (d, r) -> s = dl_text d ++ r.
Proof.
  unfold scan_number, dl_text. intros H.
  destruct (span_while is_digit s) as [ds s1] eqn:E. apply span_while_eq in E. subst s.
  assert (forall ex s2, scan_exp s1 = (ex, s2) ->
    Some (DecLit ds None ex, s2) = Some (d, r) -> ds ++ s1 = dl_text d ++ r) as Hwhole.
  { intros ex s2 Hs Heq. simplify_eq. apply scan_exp_text in Hs. subst s1.
    unfold dl_text. simpl. by rewrite app_assoc. }
  destruct s1 as [|c s2].
  - destruct ds; [done|]. destruct (scan_exp []) as [ex s2] eqn:E. eauto.
  - destruct (c =? 46) eqn:Ec.
    + destruct (span_while is_digit s2) as [fs s3] eqn:E. apply span_while_eq in E.
      assert (exists ex s4, scan_exp s3 = (ex, s4) /\
        Some (DecLit ds (Some fs) ex, s4) = Some (d, r)) as (ex & s4 & Hs & Heq).
      { destruct (scan_exp s3) as [ex s4]. exists ex, s4. split; [done|].
        by destruct ds, fs. }
      apply scan_exp_text in Hs. simplify_eq/=. apply Z.eqb_eq in Ec. subst c.
      rewrite <- (app_assoc ds). f_equal. simpl. f_equal. by rewrite <- app_assoc.
    + destruct ds; [done|]. destruct (scan_exp (c :: s2)) as [ex s3] eqn:E. eauto.
Qed.

Lemma scan_number_nonempty s d r : scan_number s = Some (d, r) -> dl_text d <> [].
Proof.
  unfold scan_number, dl_text. intros H.
  destruct (span_while is_digit s) as [ds s1].
  destruct ds as [|d0 ds]; repeat case_match; simplify_eq/=; done.
Qed.

Lemma scan_string_length quote s n value v n' :
  scan_string quote s n value = Scanned v n' -> (n < n' <= n + length s)%nat.
Proof.
  remember (length s) as k eqn:Hk. revert s Hk n value.
  induction k as [k IH] using lt_wf_ind. intros s -> n value H.
  destruct s as [|c s]; [done|]. simpl in H.
  destruct (c =? quote)%Z; [simplify_eq/=; lia|].
  destruct ((c =? 10)%Z || (c =? 13)%Z); [done|].
  destruct (negb (c =? 92)%Z).
  { apply IH with (m := length s) in H; simpl; [lia|lia|done]. }
  destruct s as [|e s]; [done|].
  destruct (simple_escape e).
  { apply IH with (m := length s) in H; simpl; [lia|lia|done]. }
  destruct (e =? 117)%Z.
  { do 4 (destruct s as [|? s]; [done|]). destruct (hex_digits_value _) in H; [|done].
    apply IH with (m := length s) in H; simpl; [lia|lia|done]. }
  destruct (e =? 120)%Z; [|done].
  do 2 (destruct s as [|? s]; [done|]). destruct (hex_digits_value _) in H; [|done].
  apply IH with (m := length s) in H; simpl; [lia|lia|done].
Qed.

(** A computation that succeeds with [Q] or throws a [BillingExpressionError],
    never another exception. *)
Definition billing_ok {A} (r : outcome A) (Q : A -> Prop) : Prop :=
  match r with
  | Ok a => Q a
  | Err (Billing _) => True
  | Err (OtherError _) => False
  end.

Lemma billing_bind {A B} (c : outcome A) (k : A -> outcome B) (P : A -> Prop) (Q : B -> Prop) :
  billing_ok c P -> (forall a, P a -> billing_ok (k a) Q) -> billing_ok (rbind c k) Q.
Proof. destruct c as [a|[]]; simpl; auto. Qed.

Lemma billing_weaken {A} (c : outcome A) (P Q : A -> Prop) :
  billing_ok c P -> (forall a, P a -> Q a) -> billing_ok c Q.
Proof. destruct c as [a|[]]; simpl; auto. Qed.

Lemma billing_throw {A} c d p (Q : A -> Prop) : billing_ok (throw c d p) Q.
Proof. done. Qed.
#[export] Hint Resolve billing_throw : billing.

(** Literals the lexer produces. *)
Definition number_ok (x : num) (integer : bool) : Prop :=
  is_finite x = true /\ (integer = true -> is_safe_integer x = true) /\
  exists d, x = dl_value d.

Record lexeme_ok (source : jstr) (lx : lexeme) : Prop := {
  lk_end : lx_end lx = (lx_start lx + length (lx_text lx))%nat;
  lk_bound : (lx_end lx <= length source)%nat;
  lk_text : lx_text lx = slice source (lx_start lx) (lx_end lx);
  lk_nonempty : lx_kind lx <> K_end -> lx_text lx <> [];
  lk_number : forall x i, lx_kind lx = K_number x i -> number_ok x i;
}.

Lemma slice_of_drop {A} (l r t : list A) i :
  drop i l = t ++ r -> slice l i (i + length t) = t.
Proof.
  intros H. unfold slice. rewrite H. replace (i + length t - i)%nat with (length t) by lia.
  by rewrite take_app_length.
Qed.

Lemma next_spec source cursor count : (cursor <= length source)%nat ->
  billing_ok (next source cursor count) (fun '(cursor', count', lx) =>
    lexeme_ok source lx /\ cursor' = lx_end lx /\ count' = count + 1 /\
    count' <= 10000 /\ (cursor <= lx_start lx)%nat).
Proof.
  intros Hc. unfold next. destruct (Z.ltb_spec 10000 (count + 1)); [done|].
  destruct (span_while is_space (drop cursor source)) as [blank rest] eqn:Eb.
  apply span_while_eq in Eb.
  assert (drop (cursor + length blank) source = rest) as Hrest.
  { rewrite <- drop_drop, Eb. apply drop_app_length. }
  assert (cursor + length blank + length rest = length source)%nat as Hlen.
  { apply (f_equal length) in Eb. rewrite length_drop, length_app in Eb. lia. }
  destruct rest as [|first after]; [|].
  { simpl. split_and!; [constructor; simpl in *|..]; try done; try lia.
    rewrite slice_nil by lia. done. }
  assert (forall kind t r, first :: after = t ++ r -> t <> [] ->
    (forall x i, kind = K_number x i -> number_ok x i) ->
    let lx := Lexeme kind t (cursor + length blank)%nat (cursor + length blank + length t)%nat in
    lexeme_ok source lx /\ (cursor + length blank + length t)%nat = lx_end lx /\
    count + 1 = count + 1 /\ count + 1 <= 10000 /\ (cursor <= lx_start lx)%nat) as Hlx.
  { intros kind t r Ht Hne Hnum. simpl. split_and!; [constructor; simpl|..]; try done; try lia.
    - rewrite Ht, length_app in Hlen. lia.
    - symmetry. apply slice_of_drop with (r := r). by rewrite Hrest. }
  destruct (scan_number (first :: after)) as [[d r]|] eqn:En.
  - destruct (negb (is_finite (dl_value d))) eqn:Ef; [done|].
    destruct (dl_integer d && negb (is_safe_integer (dl_value d))) eqn:Es; [done|].
    apply (Hlx _ _ r); [by apply scan_number_text|by eapply scan_number_nonempty|].
    intros x i [= <- <-]. bsplit. split_and!; [done| |by exists d].
    intros Hi. rewrite Hi in Es. simpl in Es. by apply negb_false_iff in Es.
  - destruct ((first =? 34) || (first =? 39)).
    + destruct (scan_string first after 0 []) as [v n| |] eqn:Es; [|done|done].
      apply scan_string_length in Es. simpl in Hlen.
      replace (cursor + length blank + 1 + n)%nat
        with (cursor + length blank + (1 + n))%nat by lia.
      assert (length (take (1 + n) (first :: after)) = 1 + n)%nat as Hl.
      { rewrite length_take. simpl. lia. }
      assert (slice source (cursor + length blank) (cursor + length blank + (1 + n)) =
        take (1 + n) (first :: after)) as ->.
      { rewrite <- Hl at 1. apply (slice_of_drop _ (drop (1 + n) (first :: after))).
        by rewrite take_drop. }
      pose proof (Hlx (K_string v) (take (1 + n) (first :: after)) (drop (1 + n) (first :: after)))
        as Hs. cbv zeta in Hs. rewrite Hl in Hs. apply Hs; try done. by rewrite take_drop.
    + destruct (is_name_start first) eqn:En1.
      * destruct (span_while is_word (first :: after)) as [t r] eqn:Ew.
        pose proof Ew as Ew'. apply span_while_eq in Ew.
        apply (Hlx _ _ r); [done| |done]. simpl in Ew'.
        assert (is_word first = true) as Hw by (unfold is_word; by rewrite En1).
        rewrite Hw in Ew'. destruct (span_while is_word after). by simplify_eq.
      * destruct (match_operator (first :: after)) as [t|] eqn:Eo; [|done].
        assert (t <> [] /\ exists r, first :: after = t ++ r) as [Ht [r Hr]].
        { unfold match_operator in Eo. case_match; simplify_eq.
          - split; [|exists (drop 2 (first :: after)); by rewrite take_drop].
            by destruct after.
          - case_bool_decide; simplify_eq. split; [done|]. by exists after. }
        by apply (Hlx _ _ r).
Qed.

(** ** Well-formed trees *)

(** Consecutive spans between two positions, with a gap after each. *)
Fixpoint chain (lo hi : nat) (l : list node) : Prop :=
  match l with
  | [] => (lo <= S hi)%nat
  | c :: l => (lo <= n_start c)%nat /\ (n_start c < n_end c)%nat /\ chain (S (n_end c)) hi l
  end.

Definition n_length (n : node) : nat := (n_end n - n_start n)%nat.

(** What one node contributes to well-formedness. *)
Record node_ok (n : node) : Prop := {
  nk_span : (n_start n < n_end n)%nat;
  nk_chain : chain (n_start n) (n_end n) (children n);
  nk_strict : Forall (fun c => n_length c < n_length n)%nat (children n);
  nk_arity : match n with
             | Call f args _ _ => length args = arity f
             | Lit (L_num x i) _ _ => number_ok x i
             | _ => True
             end;
}.

Definition wf (n : node) : Prop := Forall node_ok (postorder n).

Lemma wf_unfold n : wf n <-> node_ok n /\ Forall wf (children n).
Proof.
  unfold wf at 1. rewrite postorder_eq, Forall_app, Forall_singleton.
  assert (Forall node_ok (mjoin (map postorder (children n))) <-> Forall wf (children n))
    as ->; [|tauto].
  induction (children n) as [|c l IH]; simpl; [by split|].
  rewrite Forall_app, Forall_cons_iff. by rewrite IH.
Qed.

Lemma chain_weaken lo lo' hi hi' l :
  (lo' <= lo)%nat -> (hi <= hi')%nat -> chain lo hi l -> chain lo' hi' l.
Proof.
  revert lo lo'. induction l as [|c l IH]; intros lo lo' H1 H2; simpl; [lia|].
  intros (? & ? & ?). split_and!; [lia|lia|]. by eapply IH; [reflexivity| |].
Qed.

Lemma wf_with_span n s e :
  (s <= n_start n)%nat -> (n_end n <= e)%nat -> wf n -> wf (with_span n s e).
Proof.
  rewrite !wf_unfold. intros Hs He [[H1 H2 H3 H4] Hc].
  assert (children (with_span n s e) = children n) as E by by destruct n.
  assert (n_start (with_span n s e) = s /\ n_end (with_span n s e) = e) as [E1 E2]
    by by destruct n.
  split; [|by rewrite E]. constructor.
  - rewrite E1, E2. lia.
  - rewrite E, E1, E2. by eapply chain_weaken.
  - rewrite E. revert H3. apply Forall_impl. intros c. unfold n_length.
    rewrite E1, E2. lia.
  - by destruct n.
Qed.

Lemma n_start_with_span n s e : n_start (with_span n s e) = s.
Proof. by destruct n. Qed.
Lemma n_end_with_span n s e : n_end (with_span n s e) = e.
Proof. by destruct n. Qed.

Lemma wf_span n : wf n -> (n_start n < n_end n)%nat.
Proof. rewrite wf_unfold. by intros [[] _]. Qed.

Lemma wf_un o a s : wf a -> (s < n_start a)%nat -> wf (Un o a s (n_end a)).
Proof.
  intros Ha Hs. pose proof (wf_span _ Ha). apply wf_unfold. split; [|by repeat constructor].
  constructor; unfold n_length; simpl; [lia|lia| |done].
  constructor; [simpl; lia|constructor].
Qed.

Lemma wf_bin o l r : wf l -> wf r -> (n_end l < n_start r)%nat ->
  wf (Bin o l r (n_start l) (n_end r)).
Proof.
  intros Hl Hr H. pose proof (wf_span _ Hl). pose proof (wf_span _ Hr).
  apply wf_unfold. split; [|by repeat constructor].
  constructor; unfold n_length; simpl; [lia|lia| |done].
  repeat constructor; simpl; lia.
Qed.

Lemma wf_cond c y n : wf c -> wf y -> wf n ->
  (n_end c < n_start y)%nat -> (n_end y < n_start n)%nat ->
  wf (Cond c y n (n_start c) (n_end n)).
Proof.
  intros Hc Hy Hn H1 H2. pose proof (wf_span _ Hc). pose proof (wf_span _ Hy).
  pose proof (wf_span _ Hn). apply wf_unfold. split; [|by repeat constructor].
  constructor; unfold n_length; simpl; [lia|lia| |done].
  repeat constructor; simpl; lia.
Qed.

Lemma chain_bounds lo hi l c : chain lo hi l -> c ∈ l ->
  (lo <= n_start c)%nat /\ (n_end c <= hi)%nat.
Proof.
  revert lo. induction l as [|x l IH]; intros lo H Hc; [by apply not_elem_of_nil in Hc|].
  simpl in H. destruct H as (H1 & H2 & H3).
  assert (forall lo l, chain lo hi l -> lo <= S hi)%nat as Hle.
  { clear. intros lo l. revert lo. induction l as [|y l IH]; intros lo; simpl; [lia|].
    intros (? & ? & H). apply IH in H. lia. }
  apply elem_of_cons in Hc as [->|Hc]; [apply Hle in H3; lia|].
  destruct (IH _ H3 Hc). lia.
Qed.

Lemma wf_call f args s e : Forall wf args -> length args = arity f ->
  chain (S s) e args -> (s < e)%nat -> wf (Call f args s e).
Proof.
  intros Ha Hl Hch Hse. apply wf_unfold. split; [|done].
  constructor; simpl; [lia| | |done].
  - by eapply chain_weaken; [| |exact Hch]; lia.
  - apply Forall_elem. intros c Hc. destruct (chain_bounds _ _ _ _ Hch Hc).
    rewrite Forall_elem in Ha. pose proof (wf_span _ (Ha _ Hc)). unfold n_length. simpl. lia.
Qed.

(** ** The parser *)
Record state_ok (source : jstr) (p : parser) : Prop := {
  sk_lexeme : lexeme_ok source (ps_current p);
  sk_cursor : ps_cursor p = lx_end (ps_current p);
  sk_count : ps_count p <= 10000;
}.

Notation cur p := (lx_start (ps_current p)).

(** [p'] is a later state than [p]. *)
Definition later (source : jstr) (p p' : parser) : Prop :=
  state_ok source p' /\ ps_count p < ps_count p'.

Lemma take_spec source p : state_ok source p ->
  billing_ok (take_lexeme source p) (fun '(tok, p') =>
    tok = ps_current p /\ state_ok source p' /\ ps_count p' = ps_count p + 1 /\
    (lx_end (ps_current p) <= cur p')%nat /\ ps_depth p' = ps_depth p).
Proof.
  intros [Hlx Hcu Hco]. unfold take_lexeme. eapply billing_bind.
  - apply next_spec. rewrite Hcu. apply Hlx.
  - intros [[cursor count] lx] (H1 & H2 & H3 & H4 & H5). simpl.
    split_and!; try done; lia.
Qed.

Lemma lexeme_text_width source lx t : lexeme_ok source lx -> lx_text lx = t ->
  lx_end lx = (lx_start lx + length t)%nat.
Proof. intros [] <-. done. Qed.

Lemma expect_spec source text p : state_ok source p ->
  billing_ok (expect source text p) (fun '(tok, p') =>
    tok = ps_current p /\ later source p p' /\
    lx_end tok = (cur p + length text)%nat /\ (lx_end tok <= cur p')%nat).
Proof.
  intros H. unfold expect, is_text. case_bool_decide as E; [|done].
  eapply billing_weaken; [by apply take_spec|].
  intros [tok p'] (-> & H1 & H2 & H3 & _). split_and!; [done|split; [done|lia]| |done].
  apply (lexeme_text_width source); [apply H|done].
Qed.

(** The calls of the parser at a state, with enough fuel for the tokens left. *)
Definition left_tokens (p : parser) : Z := 10000 - ps_count p.

Definition node_post (source : jstr) (p : parser) (start : nat) (r : node * parser) : Prop :=
  let '(n, p') := r in
  wf n /\ n_start n = start /\ (n_end n <= cur p')%nat /\ later source p p'.

Definition expression_spec (fuel : nat) : Prop := forall source minimum p,
  state_ok source p -> 4 * left_tokens p + 4 <= Z.of_nat fuel ->
  billing_ok (expression fuel source minimum p) (node_post source p (cur p)).

Definition loop_spec (fuel : nat) : Prop := forall source minimum lhs p,
  state_ok source p -> 4 * left_tokens p + 1 <= Z.of_nat fuel ->
  wf lhs -> (n_end lhs <= cur p)%nat ->
  billing_ok (binary_loop fuel source minimum lhs p) (fun '(n, p') =>
    wf n /\ n_start n = n_start lhs /\ (n_end n <= cur p')%nat /\
    state_ok source p' /\ ps_count p <= ps_count p').

Definition primary_spec (fuel : nat) : Prop := forall source p,
  state_ok source p -> 4 * left_tokens p + 3 <= Z.of_nat fuel ->
  billing_ok (primary fuel source p) (node_post source p (cur p)).

Definition name_spec (fuel : nat) : Prop := forall source tok p,
  state_ok source p -> 4 * left_tokens p + 2 <= Z.of_nat fuel ->
  lexeme_ok source tok -> lx_kind tok = K_name -> (lx_end tok <= cur p)%nat ->
  billing_ok (primary_name fuel source tok p) (fun '(n, p') =>
    wf n /\ n_start n = lx_start tok /\ (n_end n <= cur p')%nat /\
    state_ok source p' /\ ps_count p <= ps_count p').

Definition arguments_spec (fuel : nat) : Prop := forall source p,
  state_ok source p -> 4 * left_tokens p + 5 <= Z.of_nat fuel ->
  billing_ok (arguments fuel source p) (fun '(args, p') =>
    Forall wf args /\ chain (cur p) (cur p') args /\ (cur p <= cur p')%nat /\
    state_ok source p' /\ ps_count p <= ps_count p').

Lemma state_ok_depth source p d : state_ok source p -> state_ok source (set_depth p d).
Proof. intros []. by constructor. Qed.

Lemma binary_of_text_nonempty t o : binary_of_text t = Some o -> t <> [].
Proof. intros H ->. done. Qed.

Lemma loop_step fuel : expression_spec fuel -> loop_spec fuel -> loop_spec (S fuel).
Proof.
  intros IHe IHl source minimum lhs p Hp Hf Hw He. simpl.
  destruct (binary_of_text (lx_text (ps_current p))) as [o|] eqn:Eo;
    [|simpl; split_and!; try done; lia].
  destruct (minimum <=? PRECEDENCE o); [|simpl; split_and!; try done; lia].
  eapply billing_bind; [by apply take_spec|]. intros [tok p1] (-> & Hp1 & Hc1 & Hend & _).
  apply binary_of_text_nonempty in Eo.
  assert (cur p < lx_end (ps_current p))%nat as Hw1.
  { rewrite (lk_end _ _ (sk_lexeme _ _ Hp)). destruct (lx_text (ps_current p)); [done|].
    simpl. lia. }
  eapply billing_bind; [apply IHe; [done|unfold left_tokens in *; lia]|].
  intros [rhs p2] (Hwr & Hsr & Her & Hp2 & Hc2).
  eapply billing_weaken; [apply IHl; [done|unfold left_tokens in *; lia| |done]|].
  - apply wf_bin; [done|done|]. lia.
  - intros [n p3] (? & ? & ? & ? & ?). simpl in *. split_and!; try done. lia.
Qed.

Lemma expression_step fuel :
  expression_spec fuel -> loop_spec fuel -> primary_spec fuel -> expression_spec (S fuel).
Proof.
  intros IHe IHl IHp source minimum p Hp Hf. simpl.
  destruct (128 <? ps_depth p + 1); [done|].
  eapply billing_bind; [apply IHp; [by apply state_ok_depth|unfold left_tokens in *; simpl; lia]|].
  intros [lhs p1] (Hw1 & Hs1 & He1 & Hp1 & Hc1). simpl in Hs1, Hc1.
  eapply billing_bind; [apply IHl; [done|unfold left_tokens in *; lia|done|done]|].
  intros [n2 p2] (Hw2 & Hs2 & He2 & Hp2 & Hc2).
  eapply billing_bind with (P := node_post source p (cur p)).
  - destruct ((minimum =? 0) && is_text p2 (js "?")) eqn:Eq;
      [|simpl; split_and!; try done; [congruence|split; [done|lia]]].
    bsplit. unfold is_text in *. bsplit.
    assert (lx_end (ps_current p2) = (cur p2 + 1)%nat) as Hq
      by (by apply (lexeme_text_width source _ (js "?")); [apply Hp2|]).
    eapply billing_bind; [by apply take_spec|]. intros [tok p3] (_ & Hp3 & Hc3 & Hend & _).
    eapply billing_bind; [apply IHe; [done|unfold left_tokens in *; lia]|].
    intros [yes p4] (Hw4 & Hs4 & He4 & Hp4 & Hc4).
    eapply billing_bind; [by apply expect_spec|].
    intros [tok2 p5] (_ & [Hp5 Hc5] & Hw5 & He5).
    eapply billing_bind; [apply IHe; [done|unfold left_tokens in *; lia]|].
    intros [no p6] (Hw6 & Hs6 & He6 & Hp6 & Hc6). simpl in *.
    split_and!; [|congruence|done|split; [done|lia]].
    apply wf_cond; try done; lia.
  - intros [n p3] (? & ? & ? & ? & ?). simpl.
    split_and!; try done. split; [by apply state_ok_depth|done].
Qed.

Lemma primary_step fuel : expression_spec fuel -> name_spec fuel -> primary_spec (S fuel).
Proof.
  intros IHe IHn source p Hp Hf. simpl.
  eapply billing_bind; [by apply take_spec|]. intros [tok p1] (-> & Hp1 & Hc1 & Hend & _).
  assert (forall v, (match v with L_num x i => number_ok x i | _ => True end) ->
    lx_kind (ps_current p) <> K_end ->
    billing_ok (Ok (Lit v (cur p) (lx_end (ps_current p)), p1)) (node_post source p (cur p)))
    as Hlit.
  { intros v Hv Hk. simpl. split_and!; [|done|done|split; [done|lia]].
    assert (cur p < lx_end (ps_current p))%nat.
    { rewrite (lk_end _ _ (sk_lexeme _ _ Hp)).
      pose proof (lk_nonempty _ _ (sk_lexeme _ _ Hp) Hk).
      destruct (lx_text (ps_current p)); [done|]. simpl. lia. }
    apply wf_unfold. simpl. split; [|constructor].
    constructor; simpl; [lia|lia|constructor|by destruct v]. }
  assert (billing_ok
    (if bool_decide (lx_text (ps_current p) = js "(") then
       let* '(n, p0) := expression fuel source 0 p1 in
       let* '(close, p0) := expect source (js ")") p0 in
       Ok (with_span n (cur p) (lx_end close), p0)
     else
       match unary_of_text (lx_text (ps_current p)) with
       | Some operator =>
           let* '(operand, p0) := expression fuel source 7 p1 in
           Ok (Un operator operand (cur p) (n_end operand), p0)
       | None =>
           match lx_kind (ps_current p) with
           | K_name => primary_name fuel source (ps_current p) p1
           | _ => throw C_syntax (lx_text (ps_current p)) (Some (cur p))
           end
       end) (node_post source p (cur p))) as Hrest.
  { case_bool_decide as Eo.
    - assert (lx_end (ps_current p) = (cur p + 1)%nat) as Hq
        by (by apply (lexeme_text_width source _ (js "(")); [apply Hp|]).
      eapply billing_bind; [apply IHe; [done|unfold left_tokens in *; lia]|].
      intros [n p2] (Hw & Hs & He & Hp2 & Hc2).
      eapply billing_bind; [by apply expect_spec|].
      intros [close p3] (_ & [Hp3 Hc3] & Hw3 & He3). simpl in *.
      rewrite n_start_with_span, n_end_with_span.
      split_and!; [|done|done|split; [done|lia]].
      apply wf_with_span; [lia|lia|done].
    - destruct (unary_of_text (lx_text (ps_current p))) as [o|] eqn:Eu.
      + assert (lx_text (ps_current p) <> []) as Hne by (intros E; by rewrite E in Eu).
        assert (cur p < lx_end (ps_current p))%nat as Hq.
        { rewrite (lk_end _ _ (sk_lexeme _ _ Hp)). destruct (lx_text (ps_current p)); [done|].
          simpl. lia. }
        eapply billing_bind; [apply IHe; [done|unfold left_tokens in *; lia]|].
        intros [n p2] (Hw & Hs & He & Hp2 & Hc2). simpl.
        split_and!; [|done|done|split; [done|lia]]. apply wf_un; [done|lia].
      + destruct (lx_kind (ps_current p)) eqn:Ek; try done.
        eapply billing_weaken;
          [apply IHn; [done|unfold left_tokens in *; lia|apply Hp|done|done]|].
        intros [n p2] (? & ? & ? & ? & ?). simpl. split_and!; try done. split; [done|lia]. }
  destruct (lx_kind (ps_current p)) as [x i|v| | |] eqn:Ek; try exact Hrest;
    apply Hlit; try done. by apply (lk_number _ _ (sk_lexeme _ _ Hp)).
Qed.

Lemma name_step fuel : arguments_spec fuel -> name_spec (S fuel).
Proof.
  intros IHa source tok p Hp Hf Ht Hk He. simpl.
  assert (lx_start tok < lx_end tok)%nat as Hw.
  { rewrite (lk_end _ _ Ht). pose proof (lk_nonempty _ _ Ht) as Hne.
    rewrite Hk in Hne. destruct (lx_text tok); [by destruct Hne|]. simpl. lia. }
  assert (forall n, n_start n = lx_start tok -> n_end n = lx_end tok -> children n = [] ->
    (match n with Call _ _ _ _ => False | Lit (L_num _ _) _ _ => False | _ => True end) ->
    billing_ok (Ok (n, p)) (fun '(n, p') =>
      wf n /\ n_start n = lx_start tok /\ (n_end n <= cur p')%nat /\
      state_ok source p' /\ ps_count p <= ps_count p')) as Hleaf.
  { intros n E1 E2 E3 E4. simpl. split_and!; [|lia|lia|done|lia].
    apply wf_unfold. rewrite E3. split; [|constructor].
    constructor; rewrite ?E3, ?E1, ?E2; simpl; [lia|lia|constructor|].
    destruct n as [[]| | | | |]; done. }
  case_bool_decide; [by apply Hleaf|].
  destruct (bool_decide _ || bool_decide _); [by apply Hleaf|].
  destruct (negb (is_text p (js "("))) eqn:Eo.
  { destruct (variable_of_text (lx_text tok)); [by apply Hleaf|done]. }
  destruct (function_of_text (lx_text tok)) as [f|]; [|done].
  unfold is_text in Eo. bsplit.
  assert (lx_end (ps_current p) = (cur p + 1)%nat) as Hq
    by (by apply (lexeme_text_width source _ (js "(")); [apply Hp|]).
  eapply billing_bind; [by apply take_spec|]. intros [tok1 p1] (_ & Hp1 & Hc1 & Hend & _).
  eapply billing_bind; [apply IHa; [done|unfold left_tokens in *; lia]|].
  intros [args p2] (Hwa & Hch & Hle & Hp2 & Hc2).
  eapply billing_bind; [by apply expect_spec|].
  intros [close p3] (_ & [Hp3 Hc3] & Hw3 & He3).
  destruct (negb (Nat.eqb (length args) (arity f))) eqn:Ea; [done|]. bsplit. simpl in *.
  split_and!; [|done|done|done|lia].
  apply wf_call; [done|done| |lia]. eapply chain_weaken; [| |exact Hch]; lia.
Qed.

Lemma arguments_step fuel :
  expression_spec fuel -> arguments_spec fuel -> arguments_spec (S fuel).
Proof.
  intros IHe IHa source p Hp Hf. simpl.
  destruct (is_text p (js ")")); [simpl; split_and!; try done; try lia; constructor|].
  eapply billing_bind; [apply IHe; [done|unfold left_tokens in *; lia]|].
  intros [arg p1] (Hw & Hs & He & Hp1 & Hc1). pose proof (wf_span _ Hw).
  destruct (negb (is_text p1 (js ","))) eqn:Ec.
  { simpl. split_and!; try done; try lia. by constructor. }
  unfold is_text in Ec. bsplit.
  assert (lx_end (ps_current p1) = (cur p1 + 1)%nat) as Hq
    by (by apply (lexeme_text_width source _ (js ",")); [apply Hp1|]).
  eapply billing_bind; [by apply take_spec|]. intros [tok p2] (_ & Hp2 & Hc2 & Hend & _).
  eapply billing_bind; [apply IHa; [done|unfold left_tokens in *; lia]|].
  intros [rest p3] (Hwr & Hch & Hle & Hp3 & Hc3). simpl.
  split_and!; [by constructor|lia|lia| |lia|done|lia].
  eapply chain_weaken; [| |exact Hch]; lia.
Qed.

Lemma parser_specs fuel :
  expression_spec fuel /\ loop_spec fuel /\ primary_spec fuel /\ name_spec fuel /\
  arguments_spec fuel.
Proof.
  induction fuel as [|fuel (IHe & IHl & IHp & IHn & IHa)].
  - split_and!; repeat intro; unfold left_tokens in *;
      match goal with H : state_ok _ _ |- _ => destruct H end; lia.
  - split_and!; [by apply expression_step|by apply loop_step|by apply primary_step|
      by apply name_step|by apply arguments_step].
Qed.

(** ** Results about [parse] *)
Lemma match_version_length source t d :
  match_version source = Some (t, d) -> (length t <= length source)%nat.
Proof.
  unfold match_version. intros H.
  destruct (span_while is_space source) as [ws s1] eqn:E. apply span_while_eq in E.
  destruct s1 as [|v s2]; [done|].
  destruct (span_while is_digit s2) as [ds s3] eqn:E'. apply span_while_eq in E'.
  destruct ds, s3; simplify_eq. case_match; simplify_eq.
  rewrite !length_app. simpl. rewrite !length_app. simpl. lia.
Qed.

Lemma new_parser_spec source : 
  billing_ok (new_parser source) (fun p => state_ok source p /\ ps_count p = 1).
Proof.
  unfold new_parser. destruct (65536 <? Z.of_nat (length source)); [done|].
  eapply billing_bind with (P := fun c => (c <= length source)%nat).
  - destruct (match_version source) as [[t d]|] eqn:E; [|simpl; lia].
    case_bool_decide; [|done]. simpl. by apply match_version_length in E.
  - intros c Hc. eapply billing_bind; [by apply next_spec|].
    intros [[cursor count] lx] (H1 & H2 & H3 & H4 & H5). simpl. split; [by constructor|done].
Qed.

Lemma parse_spec source :
  billing_ok (parse source) (fun n => wf n /\ (n_end n <= length source)%nat).
Proof.
  unfold parse. eapply billing_bind; [apply new_parser_spec|]. intros p [Hp Hc].
  eapply billing_bind; [apply (parser_specs parse_fuel); [done|]|].
  - unfold left_tokens, parse_fuel. rewrite Z2Nat.id by lia. lia.
  - intros [n p2] (Hw & _ & He & Hp2 & _). destruct (lx_kind (ps_current p2)); simpl; try done.
    split; [done|]. pose proof (lk_bound _ _ (sk_lexeme _ _ Hp2)).
    pose proof (lk_end _ _ (sk_lexeme _ _ Hp2)). lia.
Qed.

(** ** Node identity *)
Lemma wf_subterm n m : wf n -> m ∈ postorder n -> wf m.
Proof.
  unfold wf. rewrite !Forall_elem. intros H Hm k Hk. eauto using postorder_trans.
Qed.

Lemma wf_within n m : wf n -> m ∈ postorder n ->
  (n_start n <= n_start m)%nat /\ (n_start m < n_end m)%nat /\ (n_end m <= n_end n)%nat.
Proof.
  revert m. induction n as [n IH] using node_ind_children. intros m Hw Hm.
  pose proof (wf_span _ (wf_subterm _ _ Hw Hm)).
  apply wf_unfold in Hw as [Hn Hc].
  apply elem_of_postorder_children in Hm as [->|(c & Hin & Hm)]; [lia|].
  rewrite Forall_elem in IH, Hc. destruct (IH c Hin m (Hc c Hin) Hm) as (? & ? & ?).
  destruct (chain_bounds _ _ _ _ (nk_chain _ Hn) Hin). lia.
Qed.

Definition node_span (n : node) : nat * nat := (n_start n, n_end n).

Lemma chain_keys_nodup lo hi l : chain lo hi l -> Forall wf l ->
  Forall (fun c => NoDup (map node_span (postorder c))) l ->
  NoDup (map node_span (mjoin (map postorder l))).
Proof.
  revert lo. induction l as [|c l IH]; intros lo Hch Hw Hnd; simpl; [constructor|].
  destruct Hch as (H1 & H2 & H3). inversion_clear Hw. inversion_clear Hnd.
  rewrite map_app. apply list.NoDup_app. split_and!; [done| |by eapply IH].
  intros k Hk Hk'. apply list_elem_of_fmap in Hk as (m & -> & Hm).
  apply list_elem_of_fmap in Hk' as (m' & Heq & Hm').
  apply list_elem_of_join in Hm' as (ms & Hm' & Hms).
  apply list_elem_of_fmap in Hms as (c' & -> & Hc').
  destruct (wf_within c m) as (? & ? & ?); [done..|].
  rewrite Forall_elem in H0. destruct (wf_within c' m') as (? & ? & ?); [auto..|].
  destruct (chain_bounds _ _ _ _ H3 Hc'). unfold node_span in Heq. simplify_eq. lia.
Qed.

Lemma wf_keys_nodup n : wf n -> NoDup (map node_span (postorder n)).
Proof.
  induction n as [n IH] using node_ind_children. intros Hw.
  apply wf_unfold in Hw as [Hn Hc]. rewrite postorder_eq, map_app.
  apply list.NoDup_app. split_and!; [| |apply NoDup_singleton].
  - apply (chain_keys_nodup (n_start n) (n_end n)); [apply Hn|done|].
    rewrite Forall_elem in *. auto.
  - intros k Hk Hk'. apply list_elem_of_singleton in Hk'. subst k.
    apply list_elem_of_fmap in Hk as (m & Heq & Hm).
    apply list_elem_of_join in Hm as (ms & Hm & Hms).
    apply list_elem_of_fmap in Hms as (c & -> & Hin).
    rewrite Forall_elem in Hc. destruct (wf_within c m) as (? & ? & ?); [auto..|].
    pose proof (nk_strict _ Hn) as Hs. rewrite Forall_elem in Hs.
    specialize (Hs c Hin). unfold n_length, node_span in *. simplify_eq. lia.
Qed.

Lemma parse_wf source n : parse source = Ok n -> wf n.
Proof. intros H. pose proof (parse_spec source) as Hs. rewrite H in Hs. apply Hs. Qed.

Lemma NoDup_map_inj {A B} (f : A -> B) l x y :
  NoDup (map f l) -> x ∈ l -> y ∈ l -> f x = f y -> x = y.
Proof.
  intros Hnd Hx Hy Hf. apply list_elem_of_lookup in Hx as [i Hi], Hy as [j Hj].
  assert (i = j) as ->; [|congruence].
  eapply (NoDup_lookup (map f l)); [done|by rewrite list_lookup_fmap, Hi|].
  by rewrite list_lookup_fmap, Hj, Hf.
Qed.

(** In a well-formed tree, comparing spans decides equality of nodes. *)
Lemma same_node_eq n a b : wf n -> a ∈ postorder n -> b ∈ postorder n ->
  same_node a b = bool_decide (node_span a = node_span b) /\
  (same_node a b = true <-> a = b).
Proof.
  intros Hw Ha Hb. unfold same_node.
  assert (Nat.eqb (n_start a) (n_start b) && Nat.eqb (n_end a) (n_end b) =
    bool_decide (node_span a = node_span b)) as ->.
  { unfold node_span. case_bool_decide as E; [injection E as -> ->; by rewrite !Nat.eqb_refl|].
    apply not_true_iff_false. intros H. bsplit. apply E. by f_equal. }
  split; [done|]. rewrite bool_decide_eq_true. split; [|by intros ->].
  intros E. by eapply (NoDup_map_inj _ _ _ _ (wf_keys_nodup _ Hw)).
Qed.

(** C1: parsing any source text ends with a tree or a billing error, never by
    exhausting the recursion bound; a tree returned has properly nested source
    spans inside the text, calls with the arity of the function table and only
    finite number literals (safe integers where the literal is an integer). *)
Theorem parse_total_wf source :
  match parse source with
  | Ok n => wf n /\ (n_end n <= length source)%nat
  | Err e => exists d, e = Billing d
  end.
Proof.
  pose proof (parse_spec source) as H. destruct (parse source) as [n|[d|m]]; simpl in H;
    [done|by exists d|done].
Qed.

(** in a parsed tree no two nodes share a source span, so the test by which
    the code finds "the same node" (reference equality, here equality of spans)
    identifies a node among all nodes of the tree. *)
Theorem parse_node_identity source n :
  parse source = Ok n ->
  NoDup (map node_span (postorder n)) /\
  forall a b, a ∈ postorder n -> b ∈ postorder n -> (same_node a b = true <-> a = b).
Proof.
  intros H. apply parse_wf in H. split; [by apply wf_keys_nodup|].
  intros a b Ha Hb. by apply (same_node_eq n).
Qed.

Lemma parse_node_identity_witness :
  let n := Bin B_add (Var V_p 0 1) (Var V_p 4 5) 0 5 in
  parse (js "p + p") = Ok n /\ NoDup (map node_span (postorder n)).
Proof.
  intros n. split; [vm_compute; reflexivity|].
  apply (parse_node_identity (js "p + p")). vm_compute. reflexivity.
Defined.
