(* ===== verification/Grammar.v ===== *)
(** * The grammar of billing expressions

    A declarative account of the language the parser accepts: the tokens of a
    text, and a grammar on token lists with the precedence and the
    associativity of the operators.  The theorem says that the parser implements
    it: what it returns is derivable, and what is derivable it returns, unless a
    limit on size or depth stops it. *)
From Stdlib Require Import SpecFloat.
From stdpp Require Import strings.
From S2P Require Import Prelude JsString JsNumber Syntax Parser ParserFacts.

#[local] Open Scope Z_scope.

(** ** Tokens *)
Inductive token :=
| T_num (value : num) (integer : bool)
| T_str (value : jstr)
| T_sym (text : jstr)
| T_name (text : jstr).

(** The first token of a text and the text after it; [Some None] at the end of
    the text, [None] where no token starts. *)
Definition lex_token (s : jstr) : option (option (token * jstr)) :=
  match drop_while is_space s with
  | [] => Some None
  | first :: after =>
      match scan_number (first :: after) with
      | Some (d, r) =>
          if is_finite (dl_value d) && (negb (dl_integer d) || is_safe_integer (dl_value d))
          then Some (Some (T_num (dl_value d) (dl_integer d), r)) else None
      | None =>
          if (first =? 34) || (first =? 39) then
            match scan_string first after 0 [] with
            | Scanned v n => Some (Some (T_str v, drop n after))
            | _ => None
            end
          else if is_name_start first then
            let '(text, r) := span_while is_word (first :: after) in Some (Some (T_name text, r))
          else
            match match_operator (first :: after) with
            | Some text => Some (Some (T_sym text, drop (length text) (first :: after)))
            | None => None
            end
      end
  end.

(** The tokens of a text. *)
Inductive lexes : jstr -> list token -> Prop :=
| Lex_end s : lex_token s = Some None -> lexes s []
| Lex_token s t r ts : lex_token s = Some (Some (t, r)) -> lexes r ts -> lexes s (t :: ts).

(** ** The grammar

    [expression minimum input n output]: the tokens of [input] up to [output]
    are an expression with operators of at least the given precedence at its
    top, and [n] is its tree, with all spans zero. *)
Definition num_lit (x : num) (i : bool) : node := Lit (L_num x i) 0 0.
Definition str_lit (s : jstr) : node := Lit (L_str s) 0 0.

(** The levels of the operators, loosest first: disjunction, conjunction,
    equality, order, sum, product. *)
Definition level (b : binary_operator) : Z :=
  match b with
  | B_mul | B_div | B_mod => 6
  | B_add | B_sub => 5
  | B_lt | B_le | B_gt | B_ge => 4
  | B_eq | B_ne => 3
  | B_and => 2
  | B_or => 1
  end.

Lemma level_precedence b : level b = PRECEDENCE b.
Proof. by destruct b. Qed.

(** No operator that binds at least as strongly as [minimum] follows. *)
Definition stops_at (minimum : Z) (ts : list token) : Prop :=
  match ts with
  | T_sym s :: _ => match binary_of_text s with Some o => level o < minimum | None => True end
  | _ => True
  end.

Definition starts (s : jstr) (ts : list token) : Prop := exists r, ts = T_sym s :: r.

Inductive g_primary : list token -> node -> list token -> Prop :=
| G_num x i r : g_primary (T_num x i :: r) (num_lit x i) r
| G_str s r : g_primary (T_str s :: r) (str_lit s) r
| G_nil r : g_primary (T_name (js "nil") :: r) (Lit L_nil 0 0) r
| G_bool (b : bool) r : g_primary (T_name (if b then js "true" else js "false") :: r) (Lit (L_bool b) 0 0) r
| G_var v r : ~ starts (js "(") r -> g_primary (T_name (variable_text v) :: r) (Var v 0 0) r
| G_paren i n o : g_expression 0 i n (T_sym (js ")") :: o) -> g_primary (T_sym (js "(") :: i) n o
| G_unary u i n o : g_expression 7 i n o -> g_primary (T_sym (unary_text u) :: i) (Un u n 0 0) o
| G_call f i args o : g_arguments i args (T_sym (js ")") :: o) -> length args = arity f ->
    g_primary (T_name (function_text f) :: T_sym (js "(") :: i) (Call f args 0 0) o
with g_operators : Z -> node -> list token -> node -> list token -> Prop :=
| G_stop minimum lhs r : stops_at minimum r -> g_operators minimum lhs r lhs r
| G_operator minimum lhs b i rhs m n o : minimum <= level b ->
    g_expression (level b + 1) i rhs m -> g_operators minimum (Bin b lhs rhs 0 0) m n o ->
    g_operators minimum lhs (T_sym (binary_text b) :: i) n o
with g_expression : Z -> list token -> node -> list token -> Prop :=
| G_plain minimum i lhs m n o : g_primary i lhs m -> g_operators minimum lhs m n o ->
    (minimum = 0 -> ~ starts (js "?") o) -> g_expression minimum i n o
| G_conditional i lhs m c q y s no o : g_primary i lhs m -> g_operators 0 lhs m c (T_sym (js "?") :: q) ->
    g_expression 0 q y (T_sym (js ":") :: s) -> g_expression 0 s no o ->
    g_expression 0 i (Cond c y no 0 0) o
with g_arguments : list token -> list node -> list token -> Prop :=
| G_none r : g_arguments (T_sym (js ")") :: r) [] (T_sym (js ")") :: r)
| G_last i n o : ~ starts (js ")") i -> g_expression 0 i n o -> ~ starts (js ",") o -> g_arguments i [n] o
| G_more i n m ns o : ~ starts (js ")") i -> g_expression 0 i n (T_sym (js ",") :: m) -> g_arguments m ns o ->
    g_arguments i (n :: ns) o.

Scheme g_primary_mut := Induction for g_primary Sort Prop
with g_operators_mut := Induction for g_operators Sort Prop
with g_expression_mut := Induction for g_expression Sort Prop
with g_arguments_mut := Induction for g_arguments Sort Prop.
Combined Scheme grammar_ind from g_primary_mut, g_operators_mut, g_expression_mut, g_arguments_mut.

(** A tree without its spans. *)
Fixpoint erase (n : node) : node :=
  match n with
  | Lit v _ _ => Lit v 0 0
  | Var v _ _ => Var v 0 0
  | Call f args _ _ => Call f (map erase args) 0 0
  | Un o a _ _ => Un o (erase a) 0 0
  | Bin o l r _ _ => Bin o (erase l) (erase r) 0 0
  | Cond c y no _ _ => Cond (erase c) (erase y) (erase no) 0 0
  end.

(** ** The lexer produces the tokens *)
Definition digit_or_point (c : Z) : bool := is_digit c || (c =? 46).

(** A lexeme is a token of the text it stands for. *)
Definition token_is (lx : lexeme) (t : token) : Prop :=
  match t with
  | T_num x i => lx_kind lx = K_number x i /\ exists c r, lx_text lx = c :: r /\ digit_or_point c = true
  | T_str v => lx_kind lx = K_string v /\ exists c r, lx_text lx = c :: r /\ (c = 34 \/ c = 39)
  | T_sym s => lx_kind lx = K_symbol /\ lx_text lx = s
  | T_name s => lx_kind lx = K_name /\ lx_text lx = s /\ exists c r, s = c :: r /\ is_name_start c = true
  end.

Definition limit_error (e : exn) : Prop := exists detail pos, e = Billing (Diag C_limit detail pos).

Lemma span_drop_while f s : span_while f s = (fst (span_while f s), drop_while f s).
Proof.
  induction s as [|c s IH]; [done|]. cbn [span_while drop_while]. destruct (f c); [|done]. by rewrite IH.
Qed.

Lemma scan_number_head d s r : scan_number s = Some (d, r) -> exists c t, s = c :: t /\ digit_or_point c = true.
Proof.
  destruct s as [|c t]; [done|]. intros H. exists c, t. split; [done|]. unfold digit_or_point.
  unfold scan_number in H. cbn [span_while] in H. destruct (is_digit c); [done|]. cbn in H. cbn.
  destruct (c =? 46) eqn:E; [done|]. repeat case_match; simplify_eq; try done; bsplit; congruence.
Qed.

(** The lexer reads the token of the text at its cursor. *)
Lemma next_lex source cursor count : (cursor <= length source)%nat ->
  match next source cursor count with
  | Ok (cursor', count', lx) => (cursor' <= length source)%nat /\
      match lex_token (drop cursor source) with
      | Some None => lx_kind lx = K_end /\ lx_text lx = [] /\ lex_token (drop cursor' source) = Some None
      | Some (Some (t, r)) => token_is lx t /\ drop cursor' source = r
      | None => False
      end
  | Err e => limit_error e \/ lex_token (drop cursor source) = None
  end.
Proof.
  intros Hc. pose proof (next_spec source cursor count Hc) as Hs.
  assert (forall a b c, next source cursor count = Ok (a, b, c) -> (a <= length source)%nat) as Hbound.
  { intros a b c E. rewrite E in Hs. destruct Hs as (Hlx & -> & _). by destruct Hlx. }
  clear Hs. revert Hbound. unfold next, lex_token. destruct (10000 <? count + 1); [intros _; left; by do 2 eexists|].
  rewrite span_drop_while. set (blank := fst _). pose proof (span_while_eq is_space (drop cursor source) blank
    (drop_while is_space (drop cursor source)) (span_drop_while _ _)) as Eb.
  set (rest := drop_while is_space (drop cursor source)) in *.
  assert (drop (cursor + length blank) source = rest) as Hrest by (rewrite <- drop_drop, Eb; apply drop_app_length).
  clearbody rest blank. destruct rest as [|first after].
  { intros Hb. split; [by eapply Hb|]. split_and!; [done|done|]. unfold lex_token. by rewrite Hrest. }
  destruct (scan_number (first :: after)) as [[d r]|] eqn:En.
  - destruct (is_finite (dl_value d)); cbn [negb andb]; [|intros _; by right].
    destruct (dl_integer d), (is_safe_integer (dl_value d)); cbn [negb andb orb]; try (intros _; by right); intros Hb;
      (split; [by eapply Hb|]; pose proof (scan_number_text _ _ _ En) as Et; split;
       [split; [done|]; cbn [lx_text]; destruct (scan_number_head _ _ _ En) as (c & t & [= -> ->] & Hd);
        pose proof (scan_number_nonempty _ _ _ En); destruct (dl_text d) as [|c' t']; [done|]; injection Et as -> _; by do 2 eexists
       |by rewrite <- drop_drop, Hrest, Et, drop_app_length]).
  - destruct ((first =? 34) || (first =? 39)) eqn:Eq.
    + destruct (scan_string first after 0 []) as [v n| |] eqn:Es; [|intros _; by right..]. intros Hb.
      split; [by eapply Hb|]. split.
      * split; [done|]. cbn [lx_text]. exists first, (take n after). split; [|apply orb_true_iff in Eq; rewrite !Z.eqb_eq in Eq; done].
        unfold slice. rewrite Hrest. by replace (cursor + length blank + 1 + n - (cursor + length blank))%nat with (S n) by lia.
      * replace (cursor + length blank + 1 + n)%nat with (cursor + length blank + S n)%nat by lia. by rewrite <- drop_drop, Hrest.
    + destruct (is_name_start first) eqn:Ens.
      * destruct (span_while is_word (first :: after)) as [t r] eqn:Ew. pose proof (span_while_eq _ _ _ _ Ew) as Et. intros Hb.
        split; [by eapply Hb|]. split; [split_and!; [done|done|]|by rewrite <- drop_drop, Hrest, Et, drop_app_length].
        assert (is_word first = true) as Hw by (unfold is_word; by rewrite Ens).
        cbn [span_while] in Ew. rewrite Hw in Ew. destruct (span_while is_word after). simplify_eq. by do 2 eexists.
      * destruct (match_operator (first :: after)) as [t|] eqn:Eo; [|intros _; by right]. intros Hb.
        split; [by eapply Hb|]. split; [by split|]. by rewrite <- drop_drop, Hrest.
Qed.

(** ** The state of the parser *)

(** The tokens from the current lexeme on. *)
Definition at_tokens (source : jstr) (p : parser) (ts : list token) : Prop :=
  (ps_cursor p <= length source)%nat /\
  match ts with
  | [] => lx_kind (ps_current p) = K_end /\ lx_text (ps_current p) = [] /\ lex_token (drop (ps_cursor p) source) = Some None
  | t :: ts => token_is (ps_current p) t /\ lexes (drop (ps_cursor p) source) ts
  end.

Lemma at_depth source p d ts : at_tokens source (set_depth p d) ts <-> at_tokens source p ts.
Proof. done. Qed.

Definition gives_up (e : exn) : Prop := limit_error e \/ e = OtherError (js "out of fuel").

Definition gives {A} (c : outcome A) (P : A -> Prop) : Prop :=
  match c with Ok a => P a | Err e => gives_up e end.

Lemma gives_bind {A B} (c : outcome A) (k : A -> outcome B) P Q :
  gives c P -> (forall a, P a -> gives (k a) Q) -> gives (rbind c k) Q.
Proof. destruct c as [a|e]; cbn; [by intros ? H; apply H|done]. Qed.

Lemma gives_weaken {A} (c : outcome A) (P Q : A -> Prop) : gives c P -> (forall a, P a -> Q a) -> gives c Q.
Proof. destruct c; cbn; auto. Qed.

(** Reading on from a state whose tokens are known. *)
Lemma lexes_next source cursor count ts : (cursor <= length source)%nat -> lexes (drop cursor source) ts ->
  gives (next source cursor count) (fun '(cursor', count', lx) => at_tokens source (Parser cursor' count' 0 lx) ts).
Proof.
  intros Hc Hts. pose proof (next_lex source cursor count Hc) as Hn.
  destruct (next source cursor count) as [[[cursor' count'] lx]|e].
  - destruct Hn as [Hc' Hn]. split; [done|]. cbn [ps_cursor ps_current].
    inversion Hts as [? E|? t r ts' E Hr]; subst; rewrite E in Hn; [done|]. destruct Hn as [Ht <-]. by split.
  - destruct Hn as [Hl|Hn]; [by left|]. inversion Hts as [? E|? t r ts' E Hr]; subst; congruence.
Qed.

Lemma take_gives source p t ts : at_tokens source p (t :: ts) ->
  gives (take_lexeme source p) (fun '(lx, p') => lx = ps_current p /\ token_is lx t /\ at_tokens source p' ts).
Proof.
  intros (Hc & Ht & Hts). unfold take_lexeme. eapply gives_bind; [by apply lexes_next|].
  intros [[cursor' count'] lx] Hat. cbn. split_and!; [done|done|exact Hat].
Qed.

(** Text that only a symbol has. *)
Definition symbolic (s : jstr) : bool :=
  match s with
  | c :: _ => negb (digit_or_point c) && negb ((c =? 34) || (c =? 39)) && negb (is_name_start c)
  | [] => false
  end.

Lemma symbol_text source p ts s : at_tokens source p ts -> symbolic s = true -> (is_text p s = true <-> starts s ts).
Proof.
  intros (_ & Hts) Hs. unfold is_text, starts. destruct s as [|c s]; [done|]. cbn in Hs.
  apply andb_true_split in Hs as [Hs Hn]. apply andb_true_split in Hs as [Hd Hq]. apply negb_true_iff in Hd, Hq, Hn.
  rewrite bool_decide_eq_true. destruct ts as [|t ts].
  - destruct Hts as (_ & E & _). rewrite E. split; [done|by intros [? ?]].
  - destruct Hts as [Ht _]. destruct t as [x i|v|u|u]; cbn in Ht.
    + destruct Ht as (_ & c' & r & E & Hc'). split; [|by intros [? ?]]. rewrite E. intros [= -> _]. congruence.
    + destruct Ht as (_ & c' & r & E & Hc'). split; [|by intros [? ?]]. rewrite E. intros [= -> _].
      apply orb_false_iff in Hq. destruct Hc' as [-> | ->]; destruct Hq; done.
    + destruct Ht as (_ & E). split; [intros E'; exists ts; congruence|]. intros [r [= E' _]]. congruence.
    + destruct Ht as (_ & E & c' & r & -> & Hc'). split; [|by intros [? ?]]. rewrite E. intros [= -> _]. congruence.
Qed.

Lemma binary_of_text_some s o : binary_of_text s = Some o -> s = binary_text o.
Proof. unfold binary_of_text. intros H. apply find_some in H as [_ H]. by bsplit. Qed.

Lemma binary_of_binary o : binary_of_text (binary_text o) = Some o.
Proof. by destruct o. Qed.

Lemma unary_of_text_some s o : unary_of_text s = Some o -> s = unary_text o.
Proof. unfold unary_of_text. intros H. apply find_some in H as [_ H]. by bsplit. Qed.

(** The operator at the current lexeme. *)
Definition operator_at (ts : list token) : option binary_operator :=
  match ts with T_sym s :: _ => binary_of_text s | _ => None end.

Lemma operator_text source p ts : at_tokens source p ts -> binary_of_text (lx_text (ps_current p)) = operator_at ts.
Proof.
  intros Hat. destruct (binary_of_text (lx_text (ps_current p))) as [o|] eqn:E.
  - apply binary_of_text_some in E. pose proof (symbol_text source p ts (binary_text o) Hat) as Hs.
    destruct Hs as [Hs _]; [by destruct o|]. destruct Hs as [r ->]; [unfold is_text; by apply bool_decide_eq_true_2|].
    symmetry. apply binary_of_binary.
  - destruct ts as [|[| |s|] ts]; try done. destruct Hat as (_ & (_ & E') & _). cbn [operator_at]. by rewrite <- E', E.
Qed.

Lemma expect_gives source p s ts : at_tokens source p (T_sym s :: ts) -> 
  gives (expect source s p) (fun '(_, p') => at_tokens source p' ts).
Proof.
  intros Hat. unfold expect, is_text. destruct Hat as (Hc & Ht & Hts). pose proof Ht as [_ E].
  rewrite bool_decide_eq_true_2 by done. eapply gives_weaken; [by apply take_gives|]. by intros [lx p'] (_ & _ & ?).
Qed.

Lemma variable_of_variable v : variable_of_text (variable_text v) = Some v.
Proof. by destruct v. Qed.

Lemma function_of_function f : function_of_text (function_text f) = Some f.
Proof. by destruct f as [| | | | | |[]| | | | |]. Qed.

(** ** Every derivation is parsed *)
Definition complete_at {A} (run : nat -> jstr -> parser -> outcome (A * parser)) (er : A -> A) (i : list token) (a : A)
    (o : list token) : Prop :=
  forall fuel source p, at_tokens source p i ->
  gives (run fuel source p) (fun '(m, p') => er m = a /\ at_tokens source p' o).

Lemma erase_with_span n s e : erase (with_span n s e) = erase n.
Proof. by destruct n. Qed.

Lemma fuel_gives {A} (P : A -> Prop) : gives out_of_fuel P.
Proof. by right. Qed.

Lemma not_symbol source p ts s : at_tokens source p ts -> symbolic s = true -> ~ starts s ts -> is_text p s = false.
Proof.
  intros Hat Hs Hn. destruct (is_text p s) eqn:E; [|done]. destruct Hn. by apply (symbol_text source p ts s).
Qed.

Lemma word_not_symbol lx s u : token_is lx (T_name s) -> symbolic u = true -> bool_decide (lx_text lx = u) = false.
Proof.
  intros (_ & E & c & r & -> & Hc) Hu. apply bool_decide_eq_false_2. rewrite E. intros <-. cbn in Hu. bsplit. congruence.
Qed.

Lemma name_not_unary lx s : token_is lx (T_name s) -> unary_of_text (lx_text lx) = None.
Proof.
  intros Ht. destruct (unary_of_text (lx_text lx)) as [o|] eqn:E; [|done]. apply unary_of_text_some in E.
  assert (bool_decide (lx_text lx = unary_text o) = false) as Hf by (apply (word_not_symbol lx s); [done|by destruct o]).
  bsplit. done.
Qed.

(** A name in operand position goes to [primary_name]. *)
Lemma primary_of_name fuel source p s ts Q : at_tokens source p (T_name s :: ts) ->
  (forall p' lx, token_is lx (T_name s) -> at_tokens source p' ts -> gives (primary_name fuel source lx p') Q) ->
  gives (primary (S fuel) source p) Q.
Proof.
  intros Hat Hk. cbn [primary]. eapply gives_bind; [by apply take_gives|]. intros [lx p'] (_ & Ht & Hat').
  pose proof Ht as (Ek & _). rewrite Ek. rewrite (word_not_symbol lx s), (name_not_unary lx s) by done. by apply Hk.
Qed.

Lemma variable_not_word v : variable_text v <> js "nil" /\ variable_text v <> js "true" /\ variable_text v <> js "false".
Proof. by destruct v. Qed.

Lemma function_not_word f : function_text f <> js "nil" /\ function_text f <> js "true" /\ function_text f <> js "false".
Proof. by destruct f as [| | | | | |[]| | | | |]. Qed.

(** The statements of the induction, and a lemma for each group of rules. *)
Notation parses_primary i n o := (complete_at (fun fuel source p => primary fuel source p) erase i n o).
Notation parses_operators minimum lhs i n o := (forall lhs', erase lhs' = lhs ->
  complete_at (fun fuel source p => binary_loop fuel source minimum lhs' p) erase i n o).
Notation parses minimum i n o := (complete_at (fun fuel source p => expression fuel source minimum p) erase i n o).
Notation parses_arguments i ns o := (complete_at (fun fuel source p => arguments fuel source p) (map erase) i ns o).

Lemma complete_literal t v r : (match t with
    | T_num x i => v = L_num x i | T_str s => v = L_str s
    | T_name s => s = js "nil" /\ v = L_nil \/ exists b : bool, s = (if b then js "true" else js "false") /\ v = L_bool b
    | T_sym _ => False end) -> parses_primary (t :: r) (Lit v 0 0) r.
Proof.
  intros Hv [|fuel] source p Hat; [apply fuel_gives|]. destruct t as [x i|s|s|s]; [| |done|].
  - subst v. cbn [primary]. eapply gives_bind; [by apply take_gives|]. intros [lx p'] (_ & (Ek & _) & Hat'). by rewrite Ek.
  - subst v. cbn [primary]. eapply gives_bind; [by apply take_gives|]. intros [lx p'] (_ & (Ek & _) & Hat'). by rewrite Ek.
  - eapply primary_of_name; [done|]. intros p' lx (_ & Et & _) Hat'. destruct fuel as [|fuel]; [apply fuel_gives|].
    cbn [primary_name]. rewrite Et. destruct Hv as [[-> ->]|([] & -> & ->)]; done.
Qed.

Lemma complete_variable v r : ~ starts (js "(") r -> parses_primary (T_name (variable_text v) :: r) (Var v 0 0) r.
Proof.
  intros Hr [|fuel] source p Hat; [apply fuel_gives|]. eapply primary_of_name; [done|]. intros p' lx (_ & Et & _) Hat'.
  destruct fuel as [|fuel]; [apply fuel_gives|]. cbn [primary_name]. destruct (variable_not_word v) as (H1 & H2 & H3).
  rewrite Et, !bool_decide_eq_false_2 by done. cbn [orb]. rewrite (not_symbol source p' r) by done. cbn [negb].
  by rewrite variable_of_variable.
Qed.

Lemma complete_paren i n o : parses 0 i n (T_sym (js ")") :: o) -> parses_primary (T_sym (js "(") :: i) n o.
Proof.
  intros IH [|fuel] source p Hat; [apply fuel_gives|]. cbn [primary]. eapply gives_bind; [by apply take_gives|].
  intros [lx p'] (_ & (Ek & Et) & Hat'). rewrite Ek, bool_decide_eq_true_2 by done.
  eapply gives_bind; [by apply IH|]. intros [m p2] [Em Hat2]. eapply gives_bind; [by apply expect_gives|].
  intros [close p3] Hat3. cbn. by rewrite erase_with_span.
Qed.

Lemma complete_unary u i n o : parses 7 i n o -> parses_primary (T_sym (unary_text u) :: i) (Un u n 0 0) o.
Proof.
  intros IH [|fuel] source p Hat; [apply fuel_gives|]. cbn [primary]. eapply gives_bind; [by apply take_gives|].
  intros [lx p'] (_ & (Ek & Et) & Hat'). rewrite Ek, Et. rewrite bool_decide_eq_false_2 by by destruct u.
  assert (unary_of_text (unary_text u) = Some u) as -> by by destruct u.
  eapply gives_bind; [by apply IH|]. intros [m p2] [Em Hat2]. cbn. by rewrite Em.
Qed.

Lemma complete_call f i args o : parses_arguments i args (T_sym (js ")") :: o) -> length args = arity f ->
  parses_primary (T_name (function_text f) :: T_sym (js "(") :: i) (Call f args 0 0) o.
Proof.
  intros IH Ha [|fuel] source p Hat; [apply fuel_gives|]. eapply primary_of_name; [done|]. intros p' lx (_ & Et & _) Hat'.
  destruct fuel as [|fuel]; [apply fuel_gives|]. cbn [primary_name]. destruct (function_not_word f) as (H1 & H2 & H3).
  rewrite Et, !bool_decide_eq_false_2 by done. cbn [orb].
  assert (is_text p' (js "(") = true) as -> by (apply (symbol_text source p' (T_sym (js "(") :: i)); [done|done|by exists i]).
  cbn [negb]. rewrite function_of_function. eapply gives_bind; [by apply take_gives|]. intros [lx2 p2] (_ & _ & Hat2).
  eapply gives_bind; [by apply IH|]. intros [as_ p3] [Ea Hat3]. eapply gives_bind; [by apply expect_gives|].
  intros [close p4] Hat4. assert (length as_ = arity f) as -> by (by rewrite <- Ha, <- Ea, length_map).
  rewrite Nat.eqb_refl. cbn. by rewrite Ea.
Qed.

Lemma complete_stop minimum lhs r : stops_at minimum r -> parses_operators minimum lhs r lhs r.
Proof.
  intros Hs lhs' <- [|fuel] source p Hat; [apply fuel_gives|]. cbn [binary_loop]. rewrite (operator_text source p r) by done.
  destruct (operator_at r) as [b|] eqn:E; [|done].
  rewrite <- level_precedence. assert (level b < minimum) as Hb by (destruct r as [|[| |s|] r]; try done; cbn in E, Hs; by rewrite E in Hs).
  by rewrite (proj2 (Z.leb_gt _ _)).
Qed.

Lemma complete_operator minimum lhs b i rhs m n o : minimum <= level b -> parses (level b + 1) i rhs m ->
  parses_operators minimum (Bin b lhs rhs 0 0) m n o -> parses_operators minimum lhs (T_sym (binary_text b) :: i) n o.
Proof.
  rewrite !level_precedence. intros Hb IH1 IH2 lhs' <- [|fuel] source p Hat; [apply fuel_gives|]. cbn [binary_loop].
  rewrite (operator_text source p (T_sym (binary_text b) :: i)) by done. cbn [operator_at]. rewrite binary_of_binary.
  rewrite (proj2 (Z.leb_le _ _)) by done. eapply gives_bind; [by apply take_gives|]. intros [lx p'] (_ & _ & Hat').
  eapply gives_bind; [by apply IH1|]. intros [rhs' p2] [Er Hat2]. apply IH2; [|done]. cbn. by rewrite Er.
Qed.

Lemma complete_plain minimum i lhs m n o : parses_primary i lhs m -> parses_operators minimum lhs m n o ->
  (minimum = 0 -> ~ starts (js "?") o) -> parses minimum i n o.
Proof.
  intros IH1 IH2 Hq [|fuel] source p Hat; [apply fuel_gives|]. cbn [expression]. destruct (128 <? _); [left; by do 2 eexists|].
  eapply gives_bind; [by apply IH1|]. intros [lhs' p'] [El Hat']. eapply gives_bind; [by apply IH2|]. intros [n' p2] [En Hat2].
  assert ((minimum =? 0) && is_text p2 (js "?") = false) as ->; [|done].
  destruct (Z.eqb_spec minimum 0) as [E|]; [|done]. apply (not_symbol source p2 o); auto.
Qed.

Lemma complete_conditional i lhs m c q y s no o : parses_primary i lhs m -> parses_operators 0 lhs m c (T_sym (js "?") :: q) ->
  parses 0 q y (T_sym (js ":") :: s) -> parses 0 s no o -> parses 0 i (Cond c y no 0 0) o.
Proof.
  intros IH1 IH2 IH3 IH4 [|fuel] source p Hat; [apply fuel_gives|]. cbn [expression]. destruct (128 <? _); [left; by do 2 eexists|].
  eapply gives_bind; [by apply IH1|]. intros [lhs' p'] [El Hat']. eapply gives_bind; [by apply IH2|]. intros [c' p2] [Ec Hat2].
  assert (is_text p2 (js "?") = true) as -> by (apply (symbol_text source p2 (T_sym (js "?") :: q)); [done|done|by exists q]).
  cbn [Z.eqb andb]. eapply gives_bind.
  - eapply gives_bind; [by apply take_gives|]. intros [lx p3] (_ & _ & Hat3). eapply gives_bind; [by apply IH3|].
    intros [y' p4] [Ey Hat4]. eapply gives_bind; [by apply expect_gives|]. intros [lx5 p5] Hat5.
    eapply gives_bind; [by apply IH4|]. intros [no' p6] [Eno Hat6].
    instantiate (1 := fun '(m, p') => erase m = Cond c y no 0 0 /\ at_tokens source p' o). cbn. by rewrite Ec, Ey, Eno.
  - intros [n' p3] [En Hat3]. done.
Qed.

Lemma complete_none r : parses_arguments (T_sym (js ")") :: r) [] (T_sym (js ")") :: r).
Proof.
  intros [|fuel] source p Hat; [apply fuel_gives|]. cbn [arguments].
  assert (is_text p (js ")") = true) as -> by (apply (symbol_text source p (T_sym (js ")") :: r)); [done|done|by exists r]). done.
Qed.

Lemma complete_last i n o : ~ starts (js ")") i -> parses 0 i n o -> ~ starts (js ",") o -> parses_arguments i [n] o.
Proof.
  intros Hi IH Ho [|fuel] source p Hat; [apply fuel_gives|]. cbn [arguments]. rewrite (not_symbol source p i) by done.
  eapply gives_bind; [by apply IH|]. intros [n' p'] [En Hat']. rewrite (not_symbol source p' o) by done. cbn. by rewrite En.
Qed.

Lemma complete_more i n m ns o : ~ starts (js ")") i -> parses 0 i n (T_sym (js ",") :: m) -> parses_arguments m ns o ->
  parses_arguments i (n :: ns) o.
Proof.
  intros Hi IH1 IH2 [|fuel] source p Hat; [apply fuel_gives|]. cbn [arguments]. rewrite (not_symbol source p i) by done.
  eapply gives_bind; [by apply IH1|]. intros [n' p'] [En Hat'].
  assert (is_text p' (js ",") = true) as -> by (apply (symbol_text source p' (T_sym (js ",") :: m)); [done|done|by exists m]).
  cbn [negb]. eapply gives_bind; [by apply take_gives|]. intros [lx p2] (_ & _ & Hat2).
  eapply gives_bind; [by apply IH2|]. intros [ns' p3] [Ens Hat3]. cbn. by rewrite En, Ens.
Qed.

Lemma grammar_complete :
  (forall i n o, g_primary i n o -> parses_primary i n o) /\
  (forall minimum lhs i n o, g_operators minimum lhs i n o -> parses_operators minimum lhs i n o) /\
  (forall minimum i n o, g_expression minimum i n o -> parses minimum i n o) /\
  (forall i ns o, g_arguments i ns o -> parses_arguments i ns o).
Proof.
  apply grammar_ind; intros.
  - by apply complete_literal.
  - by apply complete_literal.
  - apply complete_literal. by left.
  - apply complete_literal. right. by eexists.
  - by apply complete_variable.
  - by apply complete_paren.
  - by apply complete_unary.
  - by apply complete_call.
  - by apply complete_stop.
  - by eapply complete_operator.
  - by eapply complete_plain.
  - by eapply complete_conditional.
  - apply complete_none.
  - by apply complete_last.
  - by eapply complete_more.
Qed.
