(* ===== verification/GrammarFacts.v ===== *)
(** * The parser implements the grammar

    What the parser returns is derivable in [Grammar], by induction on its fuel
    and backwards over the tokens it has read; with the completeness of
    [Grammar] this makes parsing and deriving the same thing, up to limits. *)
From Stdlib Require Import SpecFloat.
From stdpp Require Import strings.
From S2P Require Import Prelude JsString JsNumber Syntax Parser ParserFacts Grammar.

#[local] Open Scope Z_scope.

(** A state the lexer can leave: at the end, or at some token. *)
Definition live (source : jstr) (p : parser) : Prop :=
  (ps_cursor p <= length source)%nat /\
  (lx_kind (ps_current p) = K_end /\ lx_text (ps_current p) = [] /\ lex_token (drop (ps_cursor p) source) = Some None \/
   exists t, token_is (ps_current p) t).

Lemma token_is_det lx t t' : token_is lx t -> token_is lx t' -> t = t'.
Proof.
  destruct t, t'; cbn; intros H1 H2; destruct H1 as [H1 H1'], H2 as [H2 H2']; try congruence;
    destruct H1' as [H1' _], H2' as [H2' _]; congruence.
Qed.

Lemma token_not_end lx t : token_is lx t -> lx_kind lx <> K_end.
Proof. destruct t; cbn; intros [E _]; by rewrite E. Qed.

(** Tokens after a step of the lexer are tokens before it, but for the first. *)
Lemma next_back source cursor count cursor' count' lx d : (cursor <= length source)%nat ->
  next source cursor count = Ok (cursor', count', lx) ->
  live source (Parser cursor' count' d lx) /\
  forall ts, at_tokens source (Parser cursor' count' d lx) ts -> lexes (drop cursor source) ts.
Proof.
  intros Hc E. pose proof (next_lex source cursor count Hc) as Hn. rewrite E in Hn. destruct Hn as [Hc' Hn].
  destruct (lex_token (drop cursor source)) as [[[t r]|]|] eqn:El; [| |done].
  - destruct Hn as [Ht Hr]. split; [split; [done|right; by exists t]|]. intros [|t' ts] [_ Hts]; cbn in Hts.
    + destruct Hts as (Hk & _). by destruct (token_not_end _ _ Ht).
    + destruct Hts as [Ht' Hts]. rewrite (token_is_det _ _ _ Ht Ht') in El. eapply Lex_token; [exact El|by rewrite <- Hr].
  - destruct Hn as (Hk & Hx & Hz). split; [split; [done|by left]|]. intros [|t' ts] [_ Hts]; cbn in Hts; [by apply Lex_end|].
    destruct Hts as [Ht' _]. by destruct (token_not_end _ _ Ht').
Qed.

(** A run from [p] to [p'] whose tokens are related by [R]. *)
Definition back (source : jstr) (p p' : parser) (R : list token -> list token -> Prop) : Prop :=
  live source p' /\ forall o, at_tokens source p' o -> exists i, at_tokens source p i /\ R i o.

Lemma back_trans source p1 p2 p3 (R1 R2 : list token -> list token -> Prop) : back source p1 p2 R1 -> back source p2 p3 R2 ->
  back source p1 p3 (fun i o => exists m, R1 i m /\ R2 m o).
Proof.
  intros [_ H1] [Hl H2]. split; [done|]. intros o Ho. destruct (H2 o Ho) as (m & Hm & R2m).
  destruct (H1 m Hm) as (i & Hi & R1i). exists i. split; [done|by exists m].
Qed.

Lemma back_weaken source p p' (R R' : list token -> list token -> Prop) : back source p p' R ->
  (forall i o, at_tokens source p i -> at_tokens source p' o -> R i o -> R' i o) -> back source p p' R'.
Proof. intros [Hl H] HR. split; [done|]. intros o Ho. destruct (H o Ho) as (i & Hi & Hio). exists i. auto. Qed.

Lemma back_refl source p : live source p -> back source p p eq.
Proof. intros Hl. split; [done|]. intros o Ho. by exists o. Qed.

Lemma take_back source p t lx p' : live source p -> token_is (ps_current p) t -> take_lexeme source p = Ok (lx, p') ->
  lx = ps_current p /\ back source p p' (fun i o => i = t :: o).
Proof.
  intros [Hc _] Ht E. unfold take_lexeme in E. apply rbind_ok in E as ([[cursor' count'] lx'] & En & E). injection E as <- <-.
  split; [done|]. destruct (next_back _ _ _ _ _ _ (ps_depth p) Hc En) as [Hl Hb]. split; [done|]. intros o Ho.
  exists (t :: o). split; [|done]. split; [done|]. split; [done|by apply Hb].
Qed.

(** A symbol at the current lexeme is a symbol token. *)
Lemma symbol_token source p s : live source p -> symbolic s = true -> is_text p s = true -> token_is (ps_current p) (T_sym s).
Proof.
  intros [Hc [(_ & E & _)|[t Ht]]] Hs Htext; unfold is_text in Htext; bsplit; [by rewrite E in Htext; subst s|].
  destruct s as [|c s]; [done|]. cbn in Hs. bsplit. destruct t as [x i|v|u|u]; cbn in Ht.
  - destruct Ht as (_ & c' & r & E & Hc'). rewrite Htext in E. simplify_eq. congruence.
  - destruct Ht as (_ & c' & r & E & Hc'). rewrite Htext in E. simplify_eq. lia.
  - destruct Ht as (Hk & E). by split.
  - destruct Ht as (_ & E & c' & r & -> & Hc'). rewrite Htext in E. simplify_eq. congruence.
Qed.

Lemma take_symbol source p s lx p' : live source p -> symbolic s = true -> is_text p s = true ->
  take_lexeme source p = Ok (lx, p') -> back source p p' (fun i o => i = T_sym s :: o).
Proof. intros Hl Hs Ht E. eapply take_back; [done|by apply (symbol_token source)|done]. Qed.

Lemma expect_back source p s lx p' : live source p -> symbolic s = true -> expect source s p = Ok (lx, p') ->
  back source p p' (fun i o => i = T_sym s :: o).
Proof. unfold expect. intros Hl Hs. destruct (is_text p s) eqn:E; [|done]. by apply take_symbol. Qed.

Lemma live_depth source p d : live source p -> live source (set_depth p d).
Proof. done. Qed.

(** ** What each procedure returns is derivable *)
Section Step.
Context (fuel : nat).

Definition sound_expression : Prop := forall source minimum p m p', live source p ->
  expression fuel source minimum p = Ok (m, p') -> back source p p' (fun i o => g_expression minimum i (erase m) o).
Definition sound_loop : Prop := forall source minimum lhs p m p', live source p ->
  binary_loop fuel source minimum lhs p = Ok (m, p') -> back source p p' (fun i o => g_operators minimum (erase lhs) i (erase m) o).
Definition sound_primary : Prop := forall source p m p', live source p ->
  primary fuel source p = Ok (m, p') -> back source p p' (fun i o => g_primary i (erase m) o).
Definition sound_name : Prop := forall source s lx p m p', live source p -> token_is lx (T_name s) ->
  primary_name fuel source lx p = Ok (m, p') -> back source p p' (fun i o => g_primary (T_name s :: i) (erase m) o).
Definition sound_arguments : Prop := forall source p ms p', live source p ->
  arguments fuel source p = Ok (ms, p') -> back source p p' (fun i o => g_arguments i (map erase ms) o).
End Step.

Lemma loop_sound fuel : sound_expression fuel -> sound_loop fuel -> sound_loop (S fuel).
Proof.
  intros IHe IHl source minimum lhs p m p' Hl E. cbn [binary_loop] in E.
  destruct (binary_of_text (lx_text (ps_current p))) as [b|] eqn:Eb.
  - rewrite <- level_precedence in E. destruct (Z.leb_spec minimum (level b)) as [Hb|Hb].
    + apply rbind_ok in E as ([lx p1] & E1 & E). apply rbind_ok in E as ([rhs p2] & E2 & E).
      pose proof (binary_of_text_some _ _ Eb) as Et.
      assert (back source p p1 (fun i o => i = T_sym (binary_text b) :: o)) as B1.
      { eapply take_symbol; [done|by destruct b| |done]. unfold is_text. by apply bool_decide_eq_true_2. }
      pose proof (IHe _ _ _ _ _ (proj1 B1) E2) as B2. pose proof (IHl _ _ _ _ _ _ (proj1 B2) E) as B3.
      eapply back_weaken; [exact (back_trans _ _ _ _ _ _ B1 (back_trans _ _ _ _ _ _ B2 B3))|].
      intros i o _ _ (m1 & -> & m2 & R2 & R3). by eapply G_operator.
    + injection E as <- <-. eapply back_weaken; [by apply back_refl|]. intros i o Hi _ ->. apply G_stop.
      rewrite (operator_text source p o Hi) in Eb. destruct o as [|[| |s|] o]; try done. cbn in *. by rewrite Eb.
  - injection E as <- <-. eapply back_weaken; [by apply back_refl|]. intros i o Hi _ ->. apply G_stop.
    rewrite (operator_text source p o Hi) in Eb. destruct o as [|[| |s|] o]; try done. cbn in *. by rewrite Eb.
Qed.

Lemma expression_sound fuel : sound_primary fuel -> sound_loop fuel -> sound_expression fuel -> sound_expression (S fuel).
Proof.
  intros IHp IHl IHe source minimum p m p' Hl E. cbn [expression] in E. destruct (128 <? _); [done|].
  apply rbind_ok in E as ([lhs p1] & E1 & E). apply rbind_ok in E as ([c p2] & E2 & E). apply rbind_ok in E as ([n p3] & E3 & E).
  injection E as <- <-.
  pose proof (IHp _ _ _ _ (live_depth _ _ _ Hl) E1) as B1. pose proof (IHl _ _ _ _ _ _ (proj1 B1) E2) as B2.
  pose proof (back_trans _ _ _ _ _ _ B1 B2) as B12.
  destruct ((minimum =? 0) && is_text p2 (js "?")) eqn:Eq.
  - apply andb_true_split in Eq as [Em Eq]. apply Z.eqb_eq in Em as ->.
    apply rbind_ok in E3 as ([q p4] & E4 & E3). apply rbind_ok in E3 as ([y p5] & E5 & E3).
    apply rbind_ok in E3 as ([s p6] & E6 & E3). apply rbind_ok in E3 as ([no p7] & E7 & E3). injection E3 as <- <-.
    pose proof (take_symbol source p2 (js "?") q p4 (proj1 B2) eq_refl Eq E4) as B4. pose proof (IHe _ _ _ _ _ (proj1 B4) E5) as B5.
    pose proof (expect_back source p5 (js ":") s p6 (proj1 B5) eq_refl E6) as B6. pose proof (IHe _ _ _ _ _ (proj1 B6) E7) as B7.
    pose proof (back_trans _ _ _ _ _ _ B12 (back_trans _ _ _ _ _ _ B4 (back_trans _ _ _ _ _ _ B5 (back_trans _ _ _ _ _ _ B6 B7)))) as B.
    destruct B as [Hl7 B]. split; [done|]. intros o Ho.
    destruct (B o Ho) as (i & Hi & m1 & (m0 & R1 & R2) & m2 & -> & m3 & R5 & m4 & -> & R7).
    exists i. split; [done|]. by eapply G_conditional.
  - injection E3 as <- <-. destruct B12 as [Hl2 B]. split; [done|]. intros o Ho. destruct (B o Ho) as (i & Hi & m1 & R1 & R2).
    exists i. split; [done|]. eapply G_plain; [exact R1|exact R2|]. intros ->. cbn [Z.eqb andb] in Eq. intros Hs.
    assert (is_text p2 (js "?") = true) as Ht by (by apply (symbol_text source p2 o)). congruence.
Qed.

Lemma variable_of_text_some s v : variable_of_text s = Some v -> s = variable_text v.
Proof. unfold variable_of_text. intros H. apply find_some in H as [_ H]. by bsplit. Qed.

Lemma function_of_text_some s f : function_of_text s = Some f -> s = function_text f.
Proof.
  unfold function_of_text. intros H. apply fmap_Some in H as ([f' a] & H & ->). apply find_some in H as [_ H]. by bsplit.
Qed.

Lemma name_sound fuel : sound_arguments fuel -> sound_name (S fuel).
Proof.
  intros IHa source s lx p m p' Hl Ht E. cbn [primary_name] in E. destruct Ht as (_ & Et & _). rewrite Et in E. clear Et.
  destruct (bool_decide_reflect (s = js "nil")) as [->|_].
  { injection E as <- <-. eapply back_weaken; [by apply back_refl|]. intros i o _ _ ->. apply G_nil. }
  destruct (bool_decide (s = js "true") || bool_decide (s = js "false")) eqn:Eb.
  { injection E as <- <-. eapply back_weaken; [by apply back_refl|]. intros i o _ _ ->.
    apply orb_true_iff in Eb as [Eb|Eb]; bsplit; subst s; [apply (G_bool true)|apply (G_bool false)]. }
  destruct (is_text p (js "(")) eqn:Ep; cbn [negb] in E.
  - destruct (function_of_text s) as [f|] eqn:Ef; [|done]. apply function_of_text_some in Ef as ->.
    apply rbind_ok in E as ([l1 p1] & E1 & E). apply rbind_ok in E as ([args p2] & E2 & E). apply rbind_ok in E as ([close p3] & E3 & E).
    destruct (length args =? arity f)%nat eqn:Ea; [|done]. cbn [negb] in E. injection E as <- <-. apply Nat.eqb_eq in Ea.
    pose proof (take_symbol source p (js "(") l1 p1 Hl eq_refl Ep E1) as B1. pose proof (IHa _ _ _ _ (proj1 B1) E2) as B2.
    pose proof (expect_back source p2 (js ")") close p3 (proj1 B2) eq_refl E3) as B3.
    eapply back_weaken; [exact (back_trans _ _ _ _ _ _ B1 (back_trans _ _ _ _ _ _ B2 B3))|].
    intros i o _ _ (m1 & -> & m2 & R2 & ->). apply G_call; [exact R2|by rewrite length_map].
  - destruct (variable_of_text s) as [v|] eqn:Ev; [|done]. apply variable_of_text_some in Ev as ->. injection E as <- <-.
    eapply back_weaken; [by apply back_refl|]. intros i o Hi _ ->. apply G_var. intros Hs.
    assert (is_text p (js "(") = true) as Ht by (by apply (symbol_text source p o)). congruence.
Qed.

Lemma primary_sound fuel : sound_expression fuel -> sound_name fuel -> sound_primary (S fuel).
Proof.
  intros IHe IHn source p m p' Hl E. cbn [primary] in E. apply rbind_ok in E as ([lx p1] & E1 & E).
  assert (lx = ps_current p) as -> by (unfold take_lexeme in E1; apply rbind_ok in E1 as ([[? ?] ?] & _ & E1); by injection E1).
  destruct (proj2 Hl) as [(Ek & Et & _)|[t Ht]].
  { rewrite Ek, Et in E. cbn in E. done. }
  destruct (take_back source p t _ p1 Hl Ht E1) as [_ B1]. destruct t as [x i|v|s|s].
  - destruct Ht as [Ek _]. rewrite Ek in E. injection E as <- <-. eapply back_weaken; [exact B1|]. intros i' o _ _ ->. apply G_num.
  - destruct Ht as [Ek _]. rewrite Ek in E. injection E as <- <-. eapply back_weaken; [exact B1|]. intros i' o _ _ ->. apply G_str.
  - destruct Ht as [Ek Et]. rewrite Ek, Et in E. clear Ek Et. destruct (bool_decide (s = js "(")) eqn:Es; [apply bool_decide_eq_true in Es as ->|clear Es].
    + apply rbind_ok in E as ([n p2] & E2 & E). apply rbind_ok in E as ([close p3] & E3 & E). injection E as <- <-.
      pose proof (IHe _ _ _ _ _ (proj1 B1) E2) as B2.
      pose proof (expect_back source p2 (js ")") close p3 (proj1 B2) eq_refl E3) as B3. rewrite erase_with_span.
      eapply back_weaken; [exact (back_trans _ _ _ _ _ _ B1 (back_trans _ _ _ _ _ _ B2 B3))|].
      intros i o _ _ (m1 & -> & m2 & R2 & ->). by apply G_paren.
    + destruct (unary_of_text s) as [u|] eqn:Eu; [|done]. apply unary_of_text_some in Eu as ->.
      apply rbind_ok in E as ([n p2] & E2 & E). injection E as <- <-. pose proof (IHe _ _ _ _ _ (proj1 B1) E2) as B2.
      eapply back_weaken; [exact (back_trans _ _ _ _ _ _ B1 B2)|]. intros i o _ _ (m1 & -> & R2). by apply G_unary.
  - pose proof Ht as (Ek & _). rewrite Ek in E. rewrite (word_not_symbol _ s), (name_not_unary _ s) in E by done.
    pose proof (IHn _ _ _ _ _ _ (proj1 B1) Ht E) as B2.
    eapply back_weaken; [exact (back_trans _ _ _ _ _ _ B1 B2)|]. by intros i o _ _ (m1 & -> & R2).
Qed.

Lemma arguments_sound fuel : sound_expression fuel -> sound_arguments fuel -> sound_arguments (S fuel).
Proof.
  intros IHe IHa source p ms p' Hl E. cbn [arguments] in E. destruct (is_text p (js ")")) eqn:Ep.
  { injection E as <- <-. eapply back_weaken; [by apply back_refl|]. intros i o Hi _ ->.
    destruct (proj1 (symbol_text source p o (js ")") Hi eq_refl) Ep) as [r E']. rewrite E'. apply G_none. }
  assert (forall i, at_tokens source p i -> ~ starts (js ")") i) as Hno.
  { intros i Hi Hs. assert (is_text p (js ")") = true) as Ht by (by apply (symbol_text source p i)). congruence. }
  apply rbind_ok in E as ([n p1] & E1 & E). pose proof (IHe _ _ _ _ _ Hl E1) as B1.
  destruct (is_text p1 (js ",")) eqn:Ec; cbn [negb] in E.
  - apply rbind_ok in E as ([l2 p2] & E2 & E). apply rbind_ok in E as ([ns p3] & E3 & E). injection E as <- <-.
    pose proof (take_symbol source p1 (js ",") l2 p2 (proj1 B1) eq_refl Ec E2) as B2. pose proof (IHa _ _ _ _ (proj1 B2) E3) as B3.
    eapply back_weaken; [exact (back_trans _ _ _ _ _ _ B1 (back_trans _ _ _ _ _ _ B2 B3))|].
    intros i o Hi _ (m1 & R1 & m2 & -> & R3). eapply G_more; [by apply Hno|exact R1|exact R3].
  - injection E as <- <-. eapply back_weaken; [exact B1|]. intros i o Hi Ho R. apply G_last; [by apply Hno|done|].
    intros Hs. assert (is_text p1 (js ",") = true) as Ht by (by apply (symbol_text source p1 o)). congruence.
Qed.

Lemma parser_sound fuel : sound_expression fuel /\ sound_loop fuel /\ sound_primary fuel /\ sound_name fuel /\ sound_arguments fuel.
Proof.
  induction fuel as [|fuel (He & Hl & Hp & Hn & Ha)]; [by split_and!; intros ? * _ E|].
  split_and!; [by apply expression_sound|by apply loop_sound|by apply primary_sound|by apply name_sound|by apply arguments_sound].
Qed.

(** ** Whole sources *)

(** The text after the version prefix; [None] for an unsupported version. *)
Definition body_text (source : jstr) : option jstr :=
  match match_version source with
  | Some (text, digits) => if bool_decide (digits = js "1") then Some (drop (length text) source) else None
  | None => Some source
  end.

Lemma parse_derivable source m : parse source = Ok m ->
  exists body ts, body_text source = Some body /\ lexes body ts /\ g_expression 0 ts (erase m) [].
Proof.
  intros E. unfold parse in E. apply rbind_ok in E as (p & E1 & E). apply rbind_ok in E as ([n p'] & E2 & E).
  destruct (lx_kind (ps_current p')) eqn:Ek; try done. injection E as ->.
  unfold new_parser in E1. destruct (65536 <? _); [done|]. apply rbind_ok in E1 as (cursor & Ec & E1).
  apply rbind_ok in E1 as ([[c k] lx] & En & E1). injection E1 as <-.
  assert (exists body, body_text source = Some body /\ drop cursor source = body /\ (cursor <= length source)%nat) as (body & Hb & Hd & Hc).
  { unfold body_text. destruct (match_version source) as [[text digits]|] eqn:Ev; [|injection Ec as <-; eexists; split_and!; [done|done|lia]].
    destruct (bool_decide _); [|done]. injection Ec as <-. eexists. split_and!; [done|done|by eapply match_version_length]. }
  destruct (next_back _ _ _ _ _ _ 0 Hc En) as [Hl Hlex].
  destruct (proj1 (parser_sound parse_fuel) _ _ _ _ _ Hl E2) as [Hl' Hback].
  assert (at_tokens source p' []) as Hend.
  { split; [apply Hl'|]. destruct (proj2 Hl') as [?|[t Ht]]; [done|]. by destruct (token_not_end _ _ Ht). }
  destruct (Hback [] Hend) as (ts & Hts & Hg). exists body, ts. split_and!; [done|rewrite <- Hd; by apply Hlex|done].
Qed.

Lemma derivable_parses source body ts n : body_text source = Some body -> lexes body ts -> g_expression 0 ts n [] ->
  match parse source with Ok m => erase m = n | Err e => limit_error e end.
Proof.
  intros Hb Hlex Hg. assert (gives (parse source) (fun m => erase m = n)) as H.
  { unfold parse, new_parser. destruct (65536 <? _); [left; by do 2 eexists|].
    assert (exists cursor, match match_version source with
        | Some (text, digits) => if bool_decide (digits = js "1") then Ok (length text) else throw C_unsupported text None
        | None => Ok 0%nat end = Ok cursor /\ drop cursor source = body /\ (cursor <= length source)%nat) as (cursor & -> & Hd & Hc).
    { unfold body_text in Hb. destruct (match_version source) as [[text digits]|] eqn:Ev.
      - destruct (bool_decide _); [|done]. injection Hb as <-. eexists. split_and!; [done|done|by eapply match_version_length].
      - injection Hb as <-. exists 0%nat. split_and!; [done|done|lia]. }
    cbn [rbind]. rewrite <- Hd in Hlex. eapply gives_bind; [eapply gives_bind; [by apply lexes_next|]|].
    - intros [[c k] lx] Hat. instantiate (1 := fun p => at_tokens source p ts). exact Hat.
    - intros p Hat. eapply gives_bind; [by apply (proj1 (proj2 (proj2 grammar_complete)) 0 ts n [] Hg)|].
      intros [m p'] [Em (_ & Hk & _)]. cbn beta iota. by rewrite Hk. }
  pose proof (parse_spec source) as Hs. destruct (parse source) as [m|e]; [done|]. destruct H as [H|H]; [done|]. by subst e.
Qed.

(** C2: the parser implements the grammar: a tree it returns is, but for its
    spans, a derivation of the tokens of the source by the precedence grammar,
    with left-associative operators and right-associative conditionals; and when
    the tokens of a source derive a tree, parsing returns that tree, unless the
    source exceeds a limit on length, tokens or depth. *)
Theorem parser_implements_grammar source :
  (forall m, parse source = Ok m ->
     exists body ts, body_text source = Some body /\ lexes body ts /\ g_expression 0 ts (erase m) []) /\
  (forall body ts n, body_text source = Some body -> lexes body ts -> g_expression 0 ts n [] ->
     match parse source with Ok m => erase m = n | Err e => limit_error e end).
Proof. split; [apply parse_derivable|apply derivable_parses]. Qed.
