(* ===== verification/NumberText.v ===== *)
(** * The decimal text of a number reads back

    [String(x)] prints the shortest digits that round to [x]; this file proves
    that the digit search always succeeds within its bound, that the printed
    text is a decimal literal in the sense of [scan_number], and that
    [Number(String(x)) = x] for every non-negative finite number. *)
From Stdlib Require Import SpecFloat.
From stdpp Require Import strings.
From S2P Require Import Prelude JsString JsNumber JsNumberFacts.
From S2P Require Import Syntax Parser ParserFacts.

#[local] Open Scope Z_scope.

Notation ten_pos := (base_pos 10 eq_refl).
Notation ten_le := (base_le 10).

(** ** Digit strings *)
Notation digits ds := (Forall (fun c => is_digit c = true) ds).

Lemma digits_value_snoc ds c : digits_value (ds ++ [c]) = digits_value ds * 10 + (c - 48).
Proof. unfold digits_value. by rewrite fold_left_app. Qed.

Lemma digits_value_app a b :
  digits_value (a ++ b) = digits_value a * 10 ^ Z.of_nat (length b) + digits_value b.
Proof.
  induction b as [|c b IH] using rev_ind; [rewrite app_nil_r; change (digits_value []) with 0; simpl; lia|].
  rewrite app_assoc, !digits_value_snoc, IH, length_app, Nat2Z.inj_add. simpl length.
  rewrite Z.pow_add_r by lia. change (10 ^ Z.of_nat 1) with 10. lia.
Qed.

Lemma digits_value_zeros n : digits_value (zeros n) = 0.
Proof.
  unfold zeros. induction (Z.to_nat n) as [|k IH]; [done|].
  rewrite replicate_S_end, digits_value_snoc, IH. lia.
Qed.

Lemma digits_zeros n : digits (zeros n).
Proof. unfold zeros. by apply Forall_replicate. Qed.

Lemma one_digit n acc : 0 <= n < 10 -> exists ds,
  (48 + n mod 10) :: acc = ds ++ acc /\ digits ds /\ digits_value ds = n /\
  (1 <= length ds)%nat /\ n < 10 ^ Z.of_nat (length ds) /\
  (0 < n -> 10 ^ (Z.of_nat (length ds) - 1) <= n).
Proof.
  intros Hn. exists [48 + n mod 10]. rewrite Z.mod_small by lia. unfold digits_value, is_digit. simpl.
  split_and!; try done; try lia. constructor; [|constructor]. apply andb_true_iff. lia.
Qed.

(** The digits of a positive integer: their value and their number. *)
Lemma dec_digits_spec fuel n acc : 0 <= n < 10 * 2 ^ Z.of_nat fuel -> exists ds,
  dec_digits (S fuel) n acc = ds ++ acc /\ digits ds /\ digits_value ds = n /\
  (1 <= length ds)%nat /\ n < 10 ^ Z.of_nat (length ds) /\
  (0 < n -> 10 ^ (Z.of_nat (length ds) - 1) <= n).
Proof.
  revert n acc. induction fuel as [|fuel IH]; intros n acc Hn;
    (cbn [dec_digits]; destruct (Z.ltb_spec n 10) as [Hlt|Hge]; [apply one_digit; lia|]).
  - simpl in Hn. lia.
  - rewrite Nat2Z.inj_succ, Z.pow_succ_r in Hn by lia.
    pose proof (Z.div_mod n 10 ltac:(lia)) as Hdm. pose proof (Z.mod_pos_bound n 10 ltac:(lia)) as Hmod.
    destruct (IH (n / 10) ((48 + n mod 10) :: acc)) as (ds & Hds & Hdig & Hval & Hlen & Hup & Hlow);
      [lia|].
    exists (ds ++ [48 + n mod 10]). cbn [dec_digits] in Hds. rewrite Hds.
    rewrite <- app_assoc, digits_value_snoc, length_app, Nat2Z.inj_add. simpl length.
    split_and!; [done| |lia|lia| |].
    + apply Forall_app. split; [done|]. constructor; [|constructor].
      unfold is_digit. apply andb_true_iff. lia.
    + rewrite Z.pow_add_r by lia. lia.
    + intros _. replace (Z.of_nat (length ds) + Z.of_nat 1 - 1) with (Z.of_nat (length ds) - 1 + 1) by lia.
      rewrite Z.pow_add_r by lia. specialize (Hlow ltac:(lia)). lia.
Qed.

Lemma dec_of_Z_spec n : 0 <= n ->
  digits (dec_of_Z n) /\ digits_value (dec_of_Z n) = n /\ (1 <= length (dec_of_Z n))%nat /\
  n < 10 ^ Z.of_nat (length (dec_of_Z n)) /\
  (0 < n -> 10 ^ (Z.of_nat (length (dec_of_Z n)) - 1) <= n).
Proof.
  intros Hn. unfold dec_of_Z. rewrite Nat.add_comm. cbn [Nat.add].
  destruct (dec_digits_spec (Z.to_nat (Z.log2 n)) n []) as (ds & Hds & H).
  { rewrite Z2Nat.id by apply Z.log2_nonneg. destruct (Z.eq_dec n 0) as [->|Hz]; [done|].
    pose proof (log2_bounds n ltac:(lia)) as [_ Hu]. rewrite Z.pow_add_r in Hu by (apply Z.log2_nonneg || lia).
    pose proof (pow_pos (Z.log2 n) (Z.log2_nonneg n)). lia. }
  rewrite app_nil_r in Hds. by rewrite Hds.
Qed.

(** ** The position of the decimal point *)
Definition point_ok (a b p : Z) : Prop := ten_le a b (p - 1) /\ ~ ten_le a b p.

Lemma leading_zeros_spec fuel a b : 0 < a -> 0 < b -> a < b ->
  b <= a * 10 ^ Z.of_nat fuel -> 0 <= leading_zeros fuel a b /\
  b <= a * 10 ^ (leading_zeros fuel a b + 1) /\ a * 10 ^ leading_zeros fuel a b < b.
Proof.
  revert a. induction fuel as [|fuel IH]; intros a Ha Hb Hab Hf.
  { simpl in Hf. lia. }
  cbn [leading_zeros]. destruct (Z.leb_spec b (a * 10)) as [H|H]; [simpl; lia|].
  rewrite Nat2Z.inj_succ, Z.pow_succ_r in Hf by lia.
  destruct (IH (a * 10)) as (H0 & H1 & H2); [lia|lia|lia|lia|].
  set (z := leading_zeros fuel (a * 10) b) in *.
  replace (1 + z + 1) with (1 + (z + 1)) by lia.
  rewrite !(Z.pow_add_r 10 1) by lia. lia.
Qed.

Lemma point_position_spec a b : 0 < a -> 0 < b -> b <= a * 10 ^ 400 -> point_ok a b (point_position a b).
Proof.
  intros Ha Hb Hf. unfold point_position, point_ok.
  destruct (Z.leb_spec b a) as [Hba|Hab].
  - assert (1 <= a / b) as Hq by (apply Z.div_le_lower_bound; lia).
    destruct (dec_of_Z_spec (a / b) ltac:(lia)) as (_ & _ & Hlen & Hup & Hlow).
    set (p := Z.of_nat (length (dec_of_Z (a / b)))) in *. assert (1 <= p) by lia.
    specialize (Hlow ltac:(lia)). pose proof (Z.div_mod a b ltac:(lia)).
    pose proof (Z.mod_pos_bound a b Hb). pose proof (ten_pos p ltac:(lia)).
    unfold base_le. rewrite (Z.max_r 0 (p - 1)), (Z.max_r 0 p), (Z.max_l 0 (- (p - 1))), (Z.max_l 0 (- p)) by lia.
    split; [|apply Z.nle_gt]; nia.
  - destruct (leading_zeros_spec 400 a b Ha Hb Hab Hf) as (H0 & H1 & H2).
    set (z := leading_zeros 400 a b) in *. unfold base_le. rewrite (Z.max_l 0 (- z - 1)), (Z.max_l 0 (- z)), (Z.max_r 0 (- (- z - 1))), (Z.max_r 0 (- - z)) by lia. replace (- (- z - 1)) with (z + 1) by lia.
    rewrite Z.opp_involutive. split; [|apply Z.nle_gt]; lia.
Qed.

(** ** The search for the shortest digits *)

(** [s] has [k] digits and [s * 10^(n-k)] rounds to [x]. *)
Definition digits_ok (x : num) (r : Z * Z * Z) : Prop :=
  let '(s, k, n) := r in
  1 <= k /\ 10 ^ (k - 1) <= s < 10 ^ k /\ decimal_to_num s (n - k) = x.

Section Search.
Variables (x : num) (a b p : Z).
Hypothesis (Ha : 0 < a) (Hb : 0 < b) (Hp : point_ok a b p).

Lemma candidate_digits k : 1 <= k ->
  10 ^ (k - 1) <= a * 10 ^ Z.max 0 (k - p) / (b * 10 ^ Z.max 0 (p - k)) < 10 ^ k.
Proof using Ha Hb Hp.
  intros Hk. destruct Hp as [H1 H2].
  pose proof (ten_pos (Z.max 0 (p - k)) ltac:(lia)).
  set (N := Z.max 0 (k - p)). assert (0 <= N) by lia.
  rewrite (base_le_shift 10 eq_refl a b (p - 1) (N + Z.max 0 (1 - p))) in H1 by lia.
  rewrite (base_le_shift 10 eq_refl a b p (N + Z.max 0 (1 - p))) in H2 by lia.
  pose proof (ten_pos (Z.max 0 (1 - p)) ltac:(lia)) as HQ. set (Q := Z.max 0 (1 - p)) in *.
  replace (p - 1 + (N + Q)) with (k - 1 + Z.max 0 (p - k) + Q) in H1 by lia.
  replace (p + (N + Q)) with (k + Z.max 0 (p - k) + Q) in H2 by lia.
  rewrite !Z.pow_add_r in H1 by lia. rewrite !Z.pow_add_r in H2 by lia.
  split; [apply Z.div_le_lower_bound|apply Z.div_lt_upper_bound]; nia.
Qed.

(** Every answer is a correct rendering. *)
Lemma shortest_digits_ok fuel k r : 1 <= k ->
  shortest_digits fuel x a b p k = Some r -> digits_ok x r.
Proof using Ha Hb Hp.
  revert k. induction fuel as [|fuel IH]; intros k Hk; [done|]. cbn [shortest_digits].
  pose proof (candidate_digits k Hk) as Hs.
  set (s := a * 10 ^ Z.max 0 (k - p) / (b * 10 ^ Z.max 0 (p - k))) in *.
  assert (decimal_to_num s (p - k) = x -> digits_ok x (s, k, p)) as Hlow by (intros; done).
  assert (decimal_to_num (s + 1) (p - k) = x ->
    digits_ok x (if s + 1 =? 10 ^ k then (10 ^ (k - 1), k, p + 1) else (s + 1, k, p))) as Hup.
  { intros E. destruct (Z.eqb_spec (s + 1) (10 ^ k)) as [Ek|Ek].
    - pose proof (ten_pos (k - 1) ltac:(lia)) as Hpos.
      assert (10 ^ k = 10 ^ (k - 1) * 10 ^ 1) as E10 by (rewrite <- Z.pow_add_r by lia; f_equal; lia).
      split_and!; [lia|lia|lia|]. replace (p + 1 - k) with (p - k + 1) by lia.
      by rewrite <- decimal_shift, <- E10, <- Ek by lia.
    - split_and!; [lia|lia|lia|done]. }
  cbv zeta. repeat case_bool_decide; intros E; [| | |apply (IH (k + 1)); [lia|exact E]].
  - injection E as <-. match goal with |- digits_ok x (if ?up then _ else _) => destruct up end;
      [by apply Hup|by apply Hlow].
  - injection E as <-. by apply Hlow.
  - injection E as <-. by apply Hup.
Qed.

(** The search answers at the latest where the digits are exact. *)
Lemma shortest_digits_some fuel k K : k <= K < k + Z.of_nat fuel ->
  decimal_to_num (a * 10 ^ Z.max 0 (K - p) / (b * 10 ^ Z.max 0 (p - K))) (p - K) = x ->
  is_Some (shortest_digits fuel x a b p k).
Proof.
  revert k. induction fuel as [|fuel IH]; intros k Hk HK; [lia|]. cbn [shortest_digits].
  destruct (Z.eq_dec k K) as [->|Hne].
  - rewrite (bool_decide_eq_true_2 _ HK). cbv zeta. by case_match.
  - cbv zeta. repeat case_bool_decide; eauto. apply IH; [lia|done].
Qed.
End Search.

(** ** Exactness *)
Lemma exact_digits m e p K a b : canonical m e -> num_ratio m e = (a, b) ->
  (b * 10 ^ Z.max 0 (p - K) | a * 10 ^ Z.max 0 (K - p)) ->
  decimal_to_num (a * 10 ^ Z.max 0 (K - p) / (b * 10 ^ Z.max 0 (p - K))) (p - K)
  = S754_finite false m e.
Proof.
  intros Hc E [s Hs]. destruct (num_ratio_pos m e) as [Ha Hb].
  rewrite <- (ratio_to_num_exact m e Hc). rewrite E in *. simpl fst in *. simpl snd in *.
  pose proof (ten_pos (Z.max 0 (p - K)) ltac:(lia)). pose proof (ten_pos (Z.max 0 (K - p)) ltac:(lia)).
  rewrite Hs, Z.div_mul by nia. unfold decimal_to_num. replace (- (p - K)) with (K - p) by lia.
  apply ratio_to_num_cross; nia.
Qed.

Lemma ratio_bound m e : canonical m e ->
  let '(a, b) := num_ratio m e in b <= a * 10 ^ 400 /\ a < b * 10 ^ 309 /\
  (e < 0 -> a < b * 10 ^ 16) /\ b * 10 ^ Z.max 0 e <= a * 10 ^ Z.max 0 (- e) * 10 ^ Z.max 0 e.
Proof.
  intros Hc. destruct (canonical_bounds m e Hc) as [Hm He]. unfold num_ratio. cbv iota beta.
  pose proof (pow_pos (Z.max 0 e) ltac:(lia)). pose proof (pow_pos (Z.max 0 (- e)) ltac:(lia)).
  assert (2 ^ Z.max 0 (- e) <= 2 ^ 1074) by (apply Z.pow_le_mono_r; lia).
  assert (2 ^ Z.max 0 e <= 2 ^ 971) by (apply Z.pow_le_mono_r; lia).
  assert (2 ^ 1074 <= 10 ^ 400) by (vm_compute; done).
  assert (2 ^ 53 * 2 ^ 971 < 10 ^ 309) by (vm_compute; done).
  assert (2 ^ 53 < 10 ^ 16) by (vm_compute; done).
  assert (2 ^ Z.max 0 (- e) <= 10 ^ Z.max 0 (- e)) by (apply Z.pow_le_mono_l; lia).
  pose proof (ten_pos (Z.max 0 e) ltac:(lia)).
  set (E := 2 ^ Z.max 0 e) in *. set (F := 2 ^ Z.max 0 (- e)) in *. set (M := Zpos m) in *.
  assert (1 <= M) by lia. split_and!.
  - assert (1 <= M * E) by nia. apply (Z.le_trans _ (1 * 10 ^ 400)); [lia|].
    apply Z.mul_le_mono_nonneg_r; lia.
  - apply (Z.le_lt_trans _ (2 ^ 53 * 2 ^ 971)); [apply Z.mul_le_mono_nonneg; lia|].
    apply (Z.lt_le_trans _ (1 * 10 ^ 309)); [lia|]. apply Z.mul_le_mono_nonneg_r; lia.
  - intros Hneg. assert (E = 1) as -> by (subst E; by rewrite Z.max_l by lia).
    apply (Z.lt_le_trans _ (1 * 10 ^ 16)); [lia|]. apply Z.mul_le_mono_nonneg_r; lia.
  - apply Z.mul_le_mono_nonneg_r; [lia|]. assert (1 <= M * E) by nia. nia.
Qed.

(** Every canonical number has a rendering. *)
Lemma num_digits_ok m e : canonical m e -> exists r,
  num_digits m e = Some r /\ digits_ok (S754_finite false m e) r.
Proof.
  intros Hc. unfold num_digits. destruct (canonical_bounds m e Hc) as [Hm He].
  pose proof (ratio_bound m e Hc) as Hbd. pose proof (num_ratio_pos m e) as [Ha Hb].
  pose proof (exact_digits m e) as Hexact.
  assert (e < 0 -> snd (num_ratio m e) = 2 ^ (- e)) as Eneg
    by (intros; unfold num_ratio; simpl; by rewrite Z.max_r by lia).
  assert (0 <= e -> snd (num_ratio m e) = 1) as Epos
    by (intros; unfold num_ratio; simpl; by rewrite Z.max_l by lia).
  destruct (num_ratio m e) as [a b]. simpl fst in *. simpl snd in *.
  destruct Hbd as (H400 & H309 & H16 & Hlow).
  pose proof (point_position_spec a b Ha Hb H400) as Hp. set (p := point_position a b) in *.
  assert (p <= 309) as Hp309.
  { destruct (Z.le_gt_cases p 309) as [|Hgt]; [done|]. destruct Hp as [H1 _].
    apply (base_le_mono 10 eq_refl a b (p - 1) 309 Hb ltac:(lia)) in H1. unfold base_le in H1.
    change (Z.max 0 309) with 309 in H1. change (Z.max 0 (- 309)) with 0 in H1.
    rewrite Z.pow_0_r, Z.mul_1_r in H1. by apply Z.lt_nge in H309. }
  assert (e < 0 -> p <= 16) as Hp16.
  { intros Hneg. destruct (Z.le_gt_cases p 16) as [|Hgt]; [done|]. destruct Hp as [H1 _].
    apply (base_le_mono 10 eq_refl a b (p - 1) 16 Hb ltac:(lia)) in H1. unfold base_le in H1.
    change (Z.max 0 16) with 16 in H1. change (Z.max 0 (- 16)) with 0 in H1.
    rewrite Z.pow_0_r, Z.mul_1_r in H1. specialize (H16 Hneg). by apply Z.lt_nge in H16. }
  assert (Z.min e 0 < p) as Hpe.
  { destruct (Z.lt_ge_cases (Z.min e 0) p) as [|Hge]; [done|]. destruct Hp as [_ H2]. exfalso. apply H2.
    apply (base_le_mono 10 eq_refl a b (Z.min e 0) p Hb Hge). unfold base_le.
    replace (Z.max 0 (Z.min e 0)) with 0 by lia. replace (- Z.min e 0) with (Z.max 0 (- e)) by lia.
    pose proof (ten_pos (Z.max 0 e) ltac:(lia)). rewrite Z.max_r by lia. change (10 ^ 0) with 1. nia. }
  destruct (shortest_digits_some (S754_finite false m e) a b p 1100 1 (p + Z.max 0 (- e))) as [r Hr].
  - lia.
  - apply Hexact; [done|done|]. replace (p - (p + Z.max 0 (- e))) with (- Z.max 0 (- e)) by lia.
    replace (p + Z.max 0 (- e) - p) with (Z.max 0 (- e)) by lia.
    rewrite (Z.max_l 0 (- Z.max 0 (- e))) by lia. rewrite (Z.max_r 0 (Z.max 0 (- e))) by lia.
    change (10 ^ 0) with 1. rewrite Z.mul_1_r. destruct (Z.lt_ge_cases e 0) as [Hneg|Hpos].
    + rewrite (Eneg Hneg), Z.max_r by lia. exists (a * 5 ^ (- e)).
      change 10 with (5 * 2). rewrite Z.pow_mul_l by lia. lia.
    + rewrite (Epos Hpos). apply Z.divide_1_l.
  - exists r. split; [done|]. apply (shortest_digits_ok _ a b p Ha Hb Hp 1100 1 r); [lia|exact Hr].
Qed.

(** ** The printed text *)
Lemma digit_count s k : 1 <= k -> 10 ^ (k - 1) <= s < 10 ^ k -> Z.of_nat (length (dec_of_Z s)) = k.
Proof.
  intros Hk [H1 H2]. pose proof (ten_pos (k - 1) ltac:(lia)).
  destruct (dec_of_Z_spec s ltac:(lia)) as (_ & _ & Hlen & Hup & Hlow). specialize (Hlow ltac:(lia)).
  set (l := Z.of_nat (length (dec_of_Z s))) in *.
  destruct (Z.lt_trichotomy l k) as [Hl|[Hl|Hl]]; [|done|]; exfalso.
  - assert (10 ^ l <= 10 ^ (k - 1)) by (apply Z.pow_le_mono_r; lia). lia.
  - assert (10 ^ k <= 10 ^ (l - 1)) by (apply Z.pow_le_mono_r; lia). lia.
Qed.

(** [t] is the text of the decimal literal [d], which denotes [x]. *)
Definition prints (t : jstr) (x : num) : Prop := exists d,
  scan_number t = Some (d, []) /\ dl_value d = x /\ dl_int d <> [] /\ digits (dl_int d).

Lemma digits_head ds : digits ds -> ds <> [] -> exists c r, ds = c :: r /\ is_digit c = true.
Proof. destruct 1; [done|eauto]. Qed.

Lemma not_digit_point : is_digit 46 = false. Proof. done. Qed.

Lemma scan_integer ds : digits ds -> ds <> [] -> scan_number ds = Some (DecLit ds None None, []).
Proof.
  intros H Hne. unfold scan_number. rewrite (span_while_end _ _ H). by destruct ds.
Qed.

Lemma scan_fraction ds fs : digits ds -> ds <> [] -> digits fs ->
  scan_number (ds ++ 46 :: fs) = Some (DecLit ds (Some fs) None, []).
Proof.
  intros H Hne Hf. unfold scan_number. rewrite (span_while_stop _ _ 46 fs H) by done.
  cbn -[span_while]. rewrite (span_while_end _ _ Hf). by destruct ds.
Qed.

Lemma scan_exponent sg es : is_sign sg = true -> digits es -> es <> [] ->
  scan_exp (101 :: sg :: es) = (Some (101, Some sg, es), []).
Proof.
  intros Hs He Hne. unfold scan_exp. cbn -[span_while is_sign]. rewrite Hs.
  rewrite (span_while_end _ _ He). by destruct es.
Qed.

Lemma scan_mantissa ds sg es : digits ds -> ds <> [] -> is_sign sg = true -> digits es -> es <> [] ->
  scan_number (mantissa_text ds ++ 101 :: sg :: es)
  = Some (match ds with
          | d :: (_ :: _) as f => DecLit [d] (Some f) (Some (101, Some sg, es))
          | _ => DecLit ds None (Some (101, Some sg, es))
          end, []).
Proof.
  intros H Hne Hs He Hes. destruct ds as [|d [|d' f]]; [done| |].
  - change (mantissa_text [d] ++ 101 :: sg :: es) with ([d] ++ 101 :: sg :: es).
    unfold scan_number. rewrite (span_while_stop _ _ 101 _ H) by done. cbv iota.
    by rewrite scan_exponent.
  - apply Forall_cons_iff in H as [Hd Hf].
    change (mantissa_text (d :: d' :: f) ++ 101 :: sg :: es) with ([d] ++ 46 :: (d' :: f) ++ 101 :: sg :: es).
    unfold scan_number. rewrite (span_while_stop _ [d] 46 _) by (done || by repeat constructor).
    cbv iota. change (46 =? 46) with true. cbv iota.
    rewrite (span_while_stop _ _ 101 _ Hf) by done. by rewrite scan_exponent.
Qed.

Lemma dec_of_Z_ne n : 0 <= n -> dec_of_Z n <> [].
Proof. intros Hn E. destruct (dec_of_Z_spec n Hn) as (_ & _ & H & _). rewrite E in H. simpl in H. lia. Qed.

Lemma sign_text e : exists sg es, exponent_text e = sg :: es /\ is_sign sg = true /\ digits es /\
  es <> [] /\ (if sg =? 45 then - digits_value es else digits_value es) = e.
Proof.
  unfold exponent_text. destruct (dec_of_Z_spec (Z.abs e) ltac:(lia)) as (Hd & Hv & Hl & _).
  eexists _, _. split; [done|]. split_and!; [by destruct (e <? 0)|done|by apply dec_of_Z_ne; lia|].
  rewrite Hv. destruct (Z.ltb_spec e 0); simpl; lia.
Qed.

Lemma prints_positive m e : canonical m e -> prints (positive_to_string m e) (S754_finite false m e).
Proof.
  intros Hc. unfold positive_to_string.
  destruct (num_digits_ok m e Hc) as ([[s k] n] & -> & Hk & Hs & Hx).
  pose proof (digit_count s k Hk Hs) as Hlen. pose proof (ten_pos (k - 1) ltac:(lia)).
  destruct (dec_of_Z_spec s ltac:(lia)) as (Hd & Hv & Hl1 & _).
  set (ds := dec_of_Z s) in *. assert (ds <> []) as Hne by (apply dec_of_Z_ne; lia).
  rewrite <- Hx. unfold prints.
  destruct ((k <=? n) && (n <=? 21)) eqn:E1; [|destruct ((0 <? n) && (n <=? 21)) eqn:E2;
    [|destruct ((-6 <? n) && (n <=? 0)) eqn:E3]]; bsplit.
  - assert (digits (ds ++ zeros (n - k))) as Hall by (apply Forall_app; split; [done|apply digits_zeros]).
    eexists. split; [apply scan_integer; [done|by destruct ds]|]. split_and!; [|by destruct ds|done].
    unfold dl_value, dl_exponent. simpl. rewrite app_nil_r, digits_value_app, digits_value_zeros, Hv.
    unfold zeros. rewrite length_replicate, Z2Nat.id, Z.add_0_r by lia.
    rewrite decimal_shift by lia. done.
  - assert (n < k) by (apply andb_false_iff in E1 as [?|?]; bsplit; lia).
    eexists. split; [apply scan_fraction; [by apply Forall_take| |by apply Forall_drop]|].
    { destruct ds; [done|]. destruct (Z.to_nat n) eqn:En; [lia|done]. }
    split_and!; [|destruct ds; [done|]; simpl; destruct (Z.to_nat n) eqn:En; [lia|done]|by apply Forall_take].
    unfold dl_value, dl_exponent. simpl. rewrite take_drop, Hv, length_drop. f_equal. lia.
  - change (js "0." ++ zeros (- n) ++ ds) with ([48] ++ 46 :: (zeros (- n) ++ ds)).
    eexists. split; [apply scan_fraction; [by repeat constructor|done|]|].
    { apply Forall_app. split; [apply digits_zeros|done]. }
    split_and!; [|done|by repeat constructor]. unfold dl_value, dl_exponent. simpl.
    change (48 :: zeros (- n) ++ ds) with ([48] ++ zeros (- n) ++ ds).
    rewrite !digits_value_app, digits_value_zeros, Hv, length_app. unfold zeros. rewrite length_replicate.
    change (digits_value [48]) with 0. f_equal; lia.
  - destruct (sign_text (n - 1)) as (sg & es & -> & Hsg & Hes & Hene & Hev).
    eexists. split; [by apply scan_mantissa|].
    destruct ds as [|d [|d' f]]; [done| |]; (split_and!; [|done|by simpl; inversion Hd; repeat constructor]).
    + unfold dl_value, dl_exponent. simpl in *. rewrite Hev, Hv. f_equal. lia.
    + unfold dl_value, dl_exponent. simpl dl_exp. simpl dl_int. simpl dl_frac. cbv iota. rewrite Hev.
      change (default [] (Some (d' :: f))) with (d' :: f).
      change ([d] ++ d' :: f) with (d :: d' :: f). rewrite Hv. f_equal. simpl in *. lia.
Qed.

(** ** Reading the text *)
Definition num_char (c : Z) : bool := is_digit c || (c =? 46) || is_exp_mark c || is_sign c.

Lemma digits_num_char ds : digits ds -> Forall (fun c => num_char c = true) ds.
Proof. apply Forall_impl. intros c H. unfold num_char. by rewrite H. Qed.

Lemma span_digits s ds r : span_while is_digit s = (ds, r) -> Forall (fun c => num_char c = true) ds.
Proof. intros E. apply digits_num_char. pose proof (span_while_all is_digit s) as H. by rewrite E in H. Qed.

Lemma scan_exp_chars s c sg ds r : scan_exp s = (Some (c, sg, ds), r) ->
  Forall (fun c => num_char c = true) (c :: (match sg with Some x => [x] | None => [] end) ++ ds).
Proof.
  unfold scan_exp. destruct s as [|x s]; [done|]. destruct (is_exp_mark x) eqn:Ex; [|done].
  destruct (match s with [] => _ | _ => _ end) as [sg' s2] eqn:Es.
  destruct (span_while is_digit s2) as [es s3] eqn:Ed. apply span_digits in Ed.
  destruct es; [done|]. intros [= -> -> <- ->]. constructor.
  { unfold num_char. by rewrite Ex, !orb_true_r. }
  apply Forall_app. split; [|done]. destruct s as [|y s']; [by simplify_eq|].
  destruct (is_sign y) eqn:Ey; simplify_eq; [|constructor]. constructor; [|constructor].
  unfold num_char. by rewrite Ey, !orb_true_r.
Qed.

Lemma scan_number_chars s d r : scan_number s = Some (d, r) -> Forall (fun c => num_char c = true) (dl_text d).
Proof.
  unfold scan_number. destruct (span_while is_digit s) as [ds s1] eqn:Ed. apply span_digits in Ed.
  assert (forall f s' ex s2, Forall (fun c => num_char c = true) (match f with Some f => 46 :: f | None => [] end) ->
    scan_exp s' = (ex, s2) -> Forall (fun c => num_char c = true) (dl_text (DecLit ds f ex))) as Hd.
  { intros f s' ex s2 Hf He. unfold dl_text. simpl. apply Forall_app. split; [done|].
    apply Forall_app. split; [done|]. destruct ex as [[[c sg] es]|]; [by eapply scan_exp_chars|constructor]. }
  assert (forall d' r', match ds with [] => None | _ :: _ => let '(ex, s2) := scan_exp s1 in
    Some (DecLit ds None ex, s2) end = Some (d', r') -> Forall (fun c => num_char c = true) (dl_text d')) as Hw.
  { intros d' r'. destruct ds; [done|]. destruct (scan_exp s1) as [ex s2] eqn:Ee. intros [= <- <-].
    by apply (Hd None s1 ex s2); [constructor|]. }
  destruct s1 as [|c s1]; [apply Hw|]. destruct (c =? 46); [|apply Hw].
  destruct (span_while is_digit s1) as [fs s3] eqn:Ef. apply span_digits in Ef.
  destruct (scan_exp s3) as [ex s4] eqn:Ee. intros E.
  assert (DecLit ds (Some fs) ex = d) as <- by (by destruct ds, fs; simplify_eq).
  by apply (Hd (Some fs) s3 ex s4); [constructor|].
Qed.

Lemma num_char_space c : num_char c = true -> is_space c = false.
Proof.
  unfold num_char, is_digit, is_exp_mark, is_sign, is_space. intros H.
  repeat (rewrite ?orb_true_iff, ?andb_true_iff in H).
  repeat (apply orb_false_iff; split); try apply andb_false_iff; lia.
Qed.

Lemma num_chars_outer t : Forall (fun c => num_char c = true) t -> no_outer_space t = true.
Proof.
  intros H. pose proof (Forall_rev H) as Hr. unfold no_outer_space. apply andb_true_iff.
  split; [destruct H as [|c]|destruct Hr as [|c]]; try done; by rewrite num_char_space.
Qed.

Lemma to_number_literal t d : scan_number t = Some (d, []) -> to_number t = dl_value d.
Proof.
  intros E. pose proof (scan_number_chars _ _ _ E) as Hc. pose proof (scan_number_text _ _ _ E) as Ht.
  pose proof (scan_number_nonempty _ _ _ E) as Hne.
  rewrite app_nil_r in Ht. rewrite <- Ht in Hc, Hne. clear Ht.
  unfold to_number. rewrite (trim_id t) by by apply num_chars_outer.
  assert (unsigned_to_number t = dl_value d) as Hu.
  { unfold unsigned_to_number. rewrite bool_decide_eq_false_2, E; [done|].
    intros ->. vm_compute in Hc. apply Forall_cons_iff in Hc as [? _]. done. }
  destruct t as [|x t]; [done|]. apply Forall_cons_iff in Hc as [Hx Hc].
  destruct (Z.eqb_spec x 43) as [->|]; [by vm_compute in E|].
  destruct (Z.eqb_spec x 45) as [->|]; [by vm_compute in E|].
  destruct t as [|c t]; [done|]. apply Forall_cons_iff in Hc as [Hc _].
  assert (forall z, num_char z = false -> c =? z = false) as Hz
    by (intros z Hz; apply Z.eqb_neq; intros ->; by rewrite Hz in Hc).
  by rewrite !Hz, !andb_false_r by done.
Qed.

(** ** The round trip *)
Lemma digits2_log2 m : Zpos (digits2_pos m) = Z.log2 (Zpos m) + 1.
Proof.
  induction m as [m IH|m IH|]; cbn [digits2_pos]; [..|done]; rewrite Pos2Z.inj_succ, IH.
  - rewrite Pos2Z.inj_xI, Z.log2_succ_double by lia. lia.
  - rewrite Pos2Z.inj_xO, Z.log2_double by lia. lia.
Qed.

Lemma bounded_canonical m e : bounded 53 1024 m e = true <-> canonical m e.
Proof.
  unfold bounded, canonical_mantissa, fexp, emin. rewrite digits2_log2, andb_true_iff, Z.leb_le, Z.eqb_eq.
  pose proof (log2_bounds (Zpos m) ltac:(lia)) as [H1 H2]. pose proof (Z.log2_nonneg (Zpos m)).
  assert (Z.log2 (Zpos m) < 53 <-> Zpos m < 2 ^ 53) as Hlt by (by rewrite <- Z.log2_lt_pow2 by lia).
  assert (Z.log2 (Zpos m) < 52 <-> Zpos m < 2 ^ 52) as Hlt' by (by rewrite <- Z.log2_lt_pow2 by lia).
  unfold canonical. lia.
Qed.

Lemma dl_value_valid d : valid_binary 53 1024 (dl_value d) = true /\ sign_bit (dl_value d) = false /\
  dl_value d <> S754_nan.
Proof.
  unfold dl_value, decimal_to_num.
  match goal with |- context [ratio_to_num ?a ?b] =>
    assert (0 < b) as Hb by (apply ten_pos; lia);
    pose proof (ratio_to_num_canonical a b Hb) as H; destruct (ratio_to_num a b) end; try done.
  destruct H as [-> H]. split_and!; [by apply bounded_canonical|done|done].
Qed.

Lemma unsigned_canonical m e : canonical m e -> prints (positive_to_string m e) (S754_finite false m e) /\
  unsigned_to_number (positive_to_string m e) = S754_finite false m e.
Proof.
  intros Hc. pose proof (prints_positive m e Hc) as Hp. split; [done|].
  destruct Hp as (d & Hs & Hv & Hne & Hd). unfold unsigned_to_number. rewrite Hs, bool_decide_eq_false_2; [done|].
  intros E. pose proof (scan_number_chars _ _ _ Hs) as Hch. pose proof (scan_number_text _ _ _ Hs) as Ht.
  rewrite app_nil_r in Ht. rewrite <- Ht, E in Hch. vm_compute in Hch. by apply Forall_cons_iff in Hch as [? _].
Qed.

(** [Number(String(x)) = x] for every binary64 number [x], infinities and
    NaN included, other than [-0], which prints as [0].  Price and threshold
    values that a visual editor turns into text therefore denote the same
    number when they are read again. *)
Theorem number_text_roundtrip x : valid_binary 53 1024 x = true -> x <> S754_zero true ->
  to_number (num_to_string x) = x.
Proof.
  destruct x as [s|s| |s m e]; intros Hv Hz; [by destruct s|by destruct s|done|].
  apply bounded_canonical in Hv. destruct (unsigned_canonical m e Hv) as [(d & Hs & Hd & _ & _) Hu].
  destruct s; simpl num_to_string.
  - unfold to_number. pose proof (scan_number_chars _ _ _ Hs) as Hch.
    pose proof (scan_number_text _ _ _ Hs) as Ht. rewrite app_nil_r in Ht. rewrite <- Ht in Hch.
    rewrite trim_id; [|apply num_chars_outer; by constructor]. cbn -[unsigned_to_number]. by rewrite Hu.
  - by rewrite (to_number_literal _ d Hs).
Qed.

Lemma number_text_roundtrip_witness :
  to_number (num_to_string (dl_value (DecLit [48] (Some [49]) None)))
  = dl_value (DecLit [48] (Some [49]) None).
Proof. apply (number_text_roundtrip (dl_value (DecLit [48] (Some [49]) None))); vm_compute; congruence. Defined.
