(* ===== verification/LexText.v ===== *)
(** * Lexing generated text

    The editors write expressions by joining the texts of numbers, names,
    strings and symbols.  The lemmas of this file give the tokens of such a text
    from those of its parts. *)
From Stdlib Require Import SpecFloat.
From stdpp Require Import strings.
From S2P Require Import Prelude JsString JsNumber JsNumberFacts Syntax Parser ParserFacts Grammar GrammarFacts NumberText.

#[local] Open Scope Z_scope.

(** A space, a closing parenthesis or the end of the text ends every token. *)
Definition ends (rest : jstr) : Prop := match rest with [] => True | c :: _ => c = 32 \/ c = 41 end.

Lemma span_app f t a b rest : span_while f t = (a, b) -> match rest with [] => True | c :: _ => f c = false end ->
  span_while f (t ++ rest) = (a, b ++ rest).
Proof.
  revert a. induction t as [|c t IH]; cbn [span_while app].
  - intros a [= <- <-] Hr. destruct rest as [|c rest]; [done|]. cbn. by rewrite Hr.
  - intros a E Hr. destruct (f c); [|by injection E as <- <-]. destruct (span_while f t) as [a' b'] eqn:Et.
    injection E as <- <-. by rewrite (IH a').
Qed.

(** More generally, a character that no number contains ends a number. *)
Definition stops (rest : jstr) : Prop := match rest with [] => True | c :: _ => num_char c = false end.

Lemma ends_stops rest : ends rest -> stops rest.
Proof. destruct rest as [|c rest]; [done|]. by intros [->| ->]. Qed.

Lemma stops_class rest : stops rest -> match rest with
  | [] => True
  | c :: _ => is_digit c = false /\ (c =? 46) = false /\ is_exp_mark c = false /\ is_sign c = false
  end.
Proof. destruct rest as [|c rest]; [done|]. unfold stops, num_char. rewrite !orb_false_iff. tauto. Qed.

Lemma stops_digit rest : stops rest -> match rest with [] => True | c :: _ => is_digit c = false end.
Proof. intros H. apply stops_class in H. by destruct rest; [|destruct H]. Qed.

Lemma scan_exp_app s ex r rest : scan_exp s = (ex, r) -> stops rest -> scan_exp (s ++ rest) = (ex, r ++ rest).
Proof.
  intros E Hr. pose proof (stops_digit rest Hr) as Hd. apply stops_class in Hr. destruct s as [|c s1].
  { injection E as <- <-. destruct rest as [|c rest]; [done|]. destruct Hr as (_ & _ & He & _). cbn. by rewrite He. }
  cbn [scan_exp app] in *. destruct (is_exp_mark c); [|by injection E as <- <-].
  assert (match s1 ++ rest with x :: s2 => if is_sign x then (Some x, s2) else (None, s1 ++ rest) | [] => (None, s1 ++ rest) end
    = let '(sg, s2) := match s1 with x :: s2 => if is_sign x then (Some x, s2) else (None, s1) | [] => (None, s1) end in (sg, s2 ++ rest)) as ->.
  { destruct s1 as [|x s2]; cbn [app]; [|by destruct (is_sign x)]. destruct rest as [|c' rest]; [done|].
    destruct Hr as (_ & _ & _ & Hs). by rewrite Hs. }
  destruct (match s1 with [] => _ | _ => _ end) as [sg s2]. destruct (span_while is_digit s2) as [ds s3] eqn:Es.
  rewrite (span_app _ _ _ _ rest Es Hd). destruct ds; by injection E as <- <-.
Qed.

Lemma scan_number_stops t d rest : scan_number t = Some (d, []) -> stops rest -> scan_number (t ++ rest) = Some (d, rest).
Proof.
  intros E Hr. pose proof (stops_digit rest Hr) as Hd. unfold scan_number in *.
  destruct (span_while is_digit t) as [ds s1] eqn:Et. rewrite (span_app _ _ _ _ rest Et Hd).
  assert (match ds with [] => None | _ => let '(ex, s2) := scan_exp s1 in Some (DecLit ds None ex, s2) end = Some (d, []) ->
    match ds with [] => None | _ => let '(ex, s2) := scan_exp (s1 ++ rest) in Some (DecLit ds None ex, s2) end = Some (d, rest)) as Hwhole.
  { destruct ds as [|x ds]; [done|]. destruct (scan_exp s1) as [ex s2] eqn:Ee. rewrite (scan_exp_app _ _ _ rest Ee Hr).
    intros [= <- ->]. done. }
  destruct s1 as [|c s2].
  - apply Hwhole in E. apply stops_class in Hr. destruct rest as [|c' rest]; [done|]. cbn [app] in *.
    destruct Hr as (_ & Hp & _ & _). rewrite Hp. exact E.
  - cbn [app]. destruct (c =? 46); [|by apply Hwhole]. destruct (span_while is_digit s2) as [fs s3] eqn:Ef.
    rewrite (span_app _ _ _ _ rest Ef Hd). destruct (scan_exp s3) as [ex s4] eqn:Ee. rewrite (scan_exp_app _ _ _ rest Ee Hr).
    destruct ds, fs; try done; by injection E as <- ->.
Qed.

Lemma scan_number_app t d rest : scan_number t = Some (d, []) -> ends rest -> scan_number (t ++ rest) = Some (d, rest).
Proof. intros E Hr. by apply scan_number_stops, ends_stops. Qed.

(** The number a text stands for, with the flag that it is an integer literal;
    the lexer accepts a finite number, and an integer literal only when safe. *)
Definition literal_of (t : jstr) : option (num * bool) :=
  match scan_number t with
  | Some (d, []) =>
      if is_finite (dl_value d) && (negb (dl_integer d) || is_safe_integer (dl_value d))
      then Some (dl_value d, dl_integer d) else None
  | _ => None
  end.

(** ** Tokens of texts *)
Lemma lexes_space s ts : lexes s ts -> lexes (32 :: s) ts.
Proof. intros H. inversion H; subst; [by apply Lex_end|by eapply Lex_token]. Qed.

Lemma lexes_nil : lexes [] [].
Proof. by apply Lex_end. Qed.

Lemma digit_point_space c : digit_or_point c = true -> is_space c = false.
Proof. unfold digit_or_point. intros H. apply num_char_space. unfold num_char. apply orb_true_iff in H as [-> | ->]; rewrite ?orb_true_r; done. Qed.

Lemma lexes_number t x i rest ts : literal_of t = Some (x, i) -> ends rest -> lexes rest ts -> lexes (t ++ rest) (T_num x i :: ts).
Proof.
  unfold literal_of. intros E Hr Hts. destruct (scan_number t) as [[d [|]]|] eqn:Es; try done. eapply Lex_token; [|exact Hts].
  destruct (is_finite _ && _) eqn:Ef; [|done]. injection E as <- <-.
  pose proof (scan_number_app _ _ rest Es Hr) as Ea. destruct (scan_number_head _ _ _ Es) as (c & t' & -> & Hc).
  unfold lex_token. cbn [drop_while app]. rewrite digit_point_space by done. cbn [app] in Ea. by rewrite Ea, Ef.
Qed.

Lemma scan_string_plain q s n v rest : Forall (fun c => c <> q /\ c <> 10 /\ c <> 13 /\ c <> 92) s ->
  scan_string q (s ++ q :: rest) n v = Scanned (v ++ s) (n + length s + 1).
Proof.
  intros Hs. revert n v. induction Hs as [|c s (H1 & H2 & H3 & H4) _ IH]; intros n v; cbn [scan_string app length].
  - rewrite Z.eqb_refl, app_nil_r. f_equal. lia.
  - rewrite (proj2 (Z.eqb_neq c q) H1), (proj2 (Z.eqb_neq c 10) H2), (proj2 (Z.eqb_neq c 13) H3), (proj2 (Z.eqb_neq c 92) H4).
    cbn [orb negb]. rewrite IH, <- app_assoc. cbn. f_equal. lia.
Qed.

(** Text that needs no escape inside double quotes. *)
Definition unquoted (s : jstr) : bool :=
  forallb (fun c => negb ((c =? 34) || (c =? 10) || (c =? 13) || (c =? 92))) s.

Lemma lexes_string s rest ts : unquoted s = true -> lexes rest ts -> lexes ([34] ++ s ++ [34] ++ rest) (T_str s :: ts).
Proof.
  intros Hs Hts. eapply Lex_token; [|exact Hts]. unfold lex_token. cbn [app drop_while].
  change (is_space 34) with false. cbn [orb Z.eqb].
  assert (scan_number (34 :: s ++ 34 :: rest) = None) as -> by done.
  change ((34 =? 34) || (34 =? 39)) with true. cbn iota. rewrite scan_string_plain.
  - cbn [app]. do 3 f_equal. rewrite Nat.add_0_l.
    assert (s ++ 34 :: rest = (s ++ [34]) ++ rest) as -> by (by rewrite <- app_assoc).
    rewrite drop_app_length'; [done|]. rewrite length_app. done.
  - apply Forall_elem. intros c Hc. unfold unquoted in Hs. rewrite forallb_forall in Hs.
    apply list_elem_of_In, Hs in Hc. bsplit. done.
Qed.

Definition identifier (s : jstr) : bool :=
  match s with [] => false | c :: s' => is_name_start c && forallb is_word s' end.

Lemma name_start_plain c : is_name_start c = true -> is_space c = false /\ digit_or_point c = false /\ c <> 34 /\ c <> 39.
Proof.
  unfold is_name_start, is_upper, is_lower, is_space, digit_or_point, is_digit. intros H.
  repeat (rewrite ?orb_true_iff, ?andb_true_iff in H). split_and!; [| |lia|lia];
  repeat (apply orb_false_iff; split); try apply andb_false_iff; lia.
Qed.

Lemma scan_number_none c s : digit_or_point c = false -> scan_number (c :: s) = None.
Proof.
  intros H. destruct (scan_number (c :: s)) as [[d r]|] eqn:E; [|done]. destruct (scan_number_head _ _ _ E) as (c' & t & [= <- <-] & Hc). congruence.
Qed.

Lemma lexes_name s rest ts : identifier s = true -> match rest with [] => True | c :: _ => is_word c = false end ->
  lexes rest ts -> lexes (s ++ rest) (T_name s :: ts).
Proof.
  intros Hs Hr Hts. eapply Lex_token; [|exact Hts]. destruct s as [|c s]; [done|]. cbn in Hs. bsplit.
  destruct (name_start_plain c) as (H1 & H2 & H3 & H4); [done|]. unfold lex_token. cbn [app drop_while]. rewrite H1.
  rewrite scan_number_none by done. rewrite (proj2 (Z.eqb_neq c 34)), (proj2 (Z.eqb_neq c 39)) by done. cbn [orb].
  match goal with H : is_name_start c = true |- _ => rewrite H; rename H into Hc end.
  assert (span_while is_word (c :: s) = (c :: s, [])) as Es.
  { apply span_while_end. constructor; [unfold is_word; by rewrite Hc|]. apply Forall_elem. intros x Hx.
    match goal with H : forallb _ _ = true |- _ => rewrite forallb_forall in H; by apply H, list_elem_of_In end. }
  change (c :: s ++ rest) with ((c :: s) ++ rest). by rewrite (span_app _ _ _ _ rest Es Hr).
Qed.

(** A symbol followed by a text that does not extend it. *)
Definition symbol_start (s : jstr) : bool := symbolic s && match s with c :: _ => negb (is_space c) | [] => false end.

Lemma lexes_symbol s rest ts : match_operator (s ++ rest) = Some s -> symbol_start s = true -> lexes rest ts ->
  lexes (s ++ rest) (T_sym s :: ts).
Proof.
  intros Hm Hs Hts. eapply Lex_token; [|exact Hts]. destruct s as [|c s]; [done|]. unfold symbol_start in Hs. cbn [symbolic] in Hs.
  apply andb_true_split in Hs as [Hs H1]. apply andb_true_split in Hs as [Hs H4]. apply andb_true_split in Hs as [H2 H3].
  apply negb_true_iff in H1, H2, H3, H4. unfold lex_token. cbn [app drop_while].
  rewrite H1, scan_number_none, H3, H4 by done. cbn [app] in Hm. rewrite Hm.
  do 3 f_equal. change (c :: s ++ rest) with ((c :: s) ++ rest). by rewrite drop_app_length.
Qed.

(** The symbols editors write: one followed by a space, and punctuation. *)
Definition written (o : jstr) : Prop :=
  o ∈ [js "*"; js "+"; js "?"; js ":"; js "&&"; js "<"; js "<="; js ">"; js ">="; js "=="; js "/"].

Lemma lexes_operator o rest ts : written o -> lexes rest ts -> lexes (o ++ 32 :: rest) (T_sym o :: ts).
Proof.
  intros Ho Hts. unfold written in Ho. apply lexes_symbol; [| |by apply lexes_space].
  - by repeat (apply elem_of_cons in Ho as [->|Ho]; [done|]); apply elem_of_nil in Ho.
  - by repeat (apply elem_of_cons in Ho as [->|Ho]; [done|]); apply elem_of_nil in Ho.
Qed.

Lemma lexes_punctuation c rest ts : c ∈ [40; 41; 44] -> lexes rest ts -> lexes (c :: rest) (T_sym [c] :: ts).
Proof.
  intros Hc. change (c :: rest) with ([c] ++ rest). apply lexes_symbol.
  - repeat (apply elem_of_cons in Hc as [->|Hc]; [by destruct rest|]). by apply elem_of_nil in Hc.
  - repeat (apply elem_of_cons in Hc as [->|Hc]; [done|]). by apply elem_of_nil in Hc.
Qed.

(** ** Amounts

    A non-negative number that is a safe integer, or whose text is not a plain
    run of digits, is written so that it is read back. *)
Definition amount (x : num) : bool :=
  valid_binary 53 1024 x && is_finite x && negb (sign_bit x)
  && (is_safe_integer x || negb (forallb is_digit (num_to_string x))).

Lemma amount_literal x : amount x = true -> exists i, literal_of (num_to_string x) = Some (x, i).
Proof.
  unfold amount. intros H. apply andb_true_split in H as [H Hi]. apply andb_true_split in H as [H Hsign].
  apply andb_true_split in H as [Hvalid Hf]. apply negb_true_iff in Hsign.
  assert (prints (num_to_string x) x) as (d & Hs & Hv & Hne & Hd).
  { destruct x as [s| | |s m e]; try done; cbn [sign_bit] in *; subst s.
    - exists (DecLit [48] None None). split_and!; [done|by vm_compute|done|]. by repeat constructor.
    - by apply prints_positive, bounded_canonical. }
  exists (dl_integer d). unfold literal_of. rewrite Hs, Hv, Hf. cbn [andb].
  assert (negb (dl_integer d) || is_safe_integer x = true) as ->; [|done].
  apply orb_true_iff in Hi as [Hi|Hi]; [by rewrite Hi, orb_true_r|]. apply negb_true_iff in Hi.
  destruct (dl_integer d) eqn:Ei; [|done].
  apply scan_number_text in Hs. rewrite app_nil_r in Hs. exfalso. apply not_true_iff_false in Hi. apply Hi.
  rewrite Hs. unfold dl_text, dl_integer in *. destruct (dl_frac d), (dl_exp d); try done. rewrite !app_nil_r.
  apply forallb_forall. intros c Hc. rewrite Forall_elem in Hd. by apply Hd, list_elem_of_In.
Qed.
