(* ===== verification/JsonText.v ===== *)
(** * JSON text of values, and its round trip

    [JSON.stringify] of a value, and the theorem that [JSON.parse] of that text
    gives the value back: strings by their escapes, numbers by the shortest
    decimal text, objects with their properties in enumeration order. *)
From Stdlib Require Import SpecFloat.
From stdpp Require Import strings.
From S2P Require Import Prelude JsString JsNumber JsNumberFacts JsValue JsJson ParserFacts NumberText LexText.

#[local] Open Scope Z_scope.

(** ** [JSON.stringify(value)] *)

(** An undefined member is left out, an undefined element is [null], and so is a
    number that is not finite. *)
Fixpoint json_text (v : jsval) : jstr :=
  match v with
  | J_undefined | J_null => js "null"
  | J_bool b => if b then js "true" else js "false"
  | J_num x => if is_finite x then num_to_string x else js "null"
  | J_str s => json_stringify s
  | J_arr l => [91] ++ join [44] (map json_text l) ++ [93]
  | J_obj props =>
      [123] ++ join [44] (omap (fun p : jstr * jsval =>
        match p.2 with
        | J_undefined => None
        | _ => Some (json_stringify p.1 ++ [58] ++ json_text p.2)
        end) props) ++ [125]
  end.

(** ** Numbers *)

(** The literal is one JSON accepts. *)
Definition json_literal (d : dec_lit) : bool :=
  negb (match dl_int d with c :: _ :: _ => c =? 48 | _ => false end
        || bool_decide (dl_int d = []) || bool_decide (dl_frac d = Some [])).

Lemma digits_value_bound ds : digits ds -> 0 <= digits_value ds < 10 ^ Z.of_nat (length ds).
Proof.
  induction ds as [|c ds IH] using rev_ind; intros H; [by vm_compute|].
  apply Forall_app in H as [H Hc]. specialize (IH H). apply Forall_cons_iff in Hc as [Hc _].
  unfold is_digit in Hc. bsplit. rewrite digits_value_snoc, length_app. simpl length.
  rewrite Nat2Z.inj_add, Z.pow_add_r by lia. change (10 ^ Z.of_nat 1) with 10. lia.
Qed.

Lemma dec_of_Z_head s : 0 < s -> exists c ds, dec_of_Z s = c :: ds /\ c <> 48 /\ is_digit c = true /\ digits ds.
Proof.
  intros Hs. destruct (dec_of_Z_spec s ltac:(lia)) as (Hd & Hv & Hl & _ & Hlow). specialize (Hlow Hs).
  destruct (dec_of_Z s) as [|c ds]; [simpl in Hl; lia|]. apply Forall_cons_iff in Hd as [Hc Hd].
  exists c, ds. split_and!; try done. intros ->.
  pose proof (digits_value_bound ds Hd) as Hb. change (48 :: ds) with ([48] ++ ds) in *.
  rewrite digits_value_app in Hv. change (digits_value [48]) with 0 in Hv.
  rewrite length_app in Hlow. simpl length in Hlow.
  replace (Z.of_nat (1 + length ds) - 1) with (Z.of_nat (length ds)) in Hlow by lia. lia.
Qed.

Lemma positive_json m e : canonical m e ->
  exists d, scan_number (positive_to_string m e) = Some (d, []) /\ json_literal d = true /\
    dl_value d = S754_finite false m e.
Proof.
  intros Hc. destruct (prints_positive m e Hc) as (d & Hs & Hv & _). exists d. split; [done|]. split; [|done].
  revert Hs. unfold positive_to_string.
  destruct (num_digits_ok m e Hc) as ([[s k] n] & -> & Hk & Hs & _).
  pose proof (ten_pos (k - 1) ltac:(lia)). pose proof (digit_count s k Hk Hs) as Hlen.
  destruct (dec_of_Z_head s ltac:(lia)) as (c & ds & E & Hc0 & Hcd & Hds). rewrite E in *.
  assert (digits (c :: ds)) as Hall by by constructor.
  destruct ((k <=? n) && (n <=? 21)) eqn:E1; [|destruct ((0 <? n) && (n <=? 21)) eqn:E2;
    [|destruct ((-6 <? n) && (n <=? 0)) eqn:E3]]; bsplit.
  - rewrite scan_integer; [|apply Forall_app; split; [done|apply digits_zeros]|done].
    intros [= <-]. unfold json_literal. simpl. destruct (ds ++ zeros (n - k)); [done|].
    by rewrite (proj2 (Z.eqb_neq c 48)).
  - assert (n < k) by (apply andb_false_iff in E1 as [?|?]; bsplit; lia).
    destruct (Z.to_nat n) as [|n'] eqn:En; [lia|]. cbn [take drop].
    rewrite scan_fraction; [|constructor; [done|by apply Forall_take]|done|by apply Forall_drop].
    intros [= <-]. unfold json_literal. simpl.
    rewrite (bool_decide_eq_false_2 (Some _ = Some [])).
    + destruct (take n' ds); [done|]. by rewrite (proj2 (Z.eqb_neq c 48)).
    + intros [= Hn]. apply (f_equal length) in Hn. rewrite length_drop in Hn. simpl in *. lia.
  - change (js "0." ++ zeros (- n) ++ c :: ds) with ([48] ++ 46 :: (zeros (- n) ++ c :: ds)).
    rewrite scan_fraction; [|by repeat constructor|done|apply Forall_app; split; [apply digits_zeros|done]].
    intros [= <-]. unfold json_literal. simpl. rewrite bool_decide_eq_false_2; [done|].
    intros [= Hn]. by destruct (zeros (- n)).
  - destruct (sign_text (n - 1)) as (sg & es & -> & Hsg & Hes & Hene & _).
    rewrite scan_mantissa by done. destruct ds; intros [= <-]; done.
Qed.

(** The numbers JSON carries: finite, and not [-0]. *)
Definition json_num (x : num) : bool :=
  valid_binary 53 1024 x && is_finite x && negb (bool_decide (x = S754_zero true)).

Lemma positive_head m e : canonical m e -> exists c s, positive_to_string m e = c :: s /\ is_digit c = true.
Proof.
  intros Hc. destruct (prints_positive m e Hc) as (d & Hs & _ & Hne & Hd).
  apply scan_number_text in Hs. rewrite app_nil_r in Hs. rewrite Hs. unfold dl_text.
  destruct (dl_int d) as [|c ds]; [done|]. apply Forall_cons_iff in Hd as [Hc' _]. by eexists _, _.
Qed.

Lemma json_number_positive m e rest : canonical m e -> stops rest ->
  json_number (positive_to_string m e ++ rest) = Some (S754_finite false m e, rest) /\
  json_number (45 :: positive_to_string m e ++ rest) = Some (S754_finite true m e, rest).
Proof.
  intros Hc Hr. destruct (positive_json m e Hc) as (d & Hs & Hj & Hv).
  pose proof (scan_number_stops _ _ _ Hs Hr) as Hsr.
  unfold json_literal in Hj. apply negb_true_iff in Hj.
  destruct (positive_head m e Hc) as (c & s & E & Hcd). rewrite E in *. cbn [app] in *.
  unfold json_number. split.
  - destruct (Z.eqb_spec c 45) as [->|_]; [done|]. rewrite Hsr. cbn [mbind option_bind]. by rewrite Hj, Hv.
  - change (45 =? 45) with true. cbv iota. rewrite Hsr. cbn [mbind option_bind]. by rewrite Hj, Hv.
Qed.

(** The text of a number starts with a digit or a minus sign. *)
Definition number_head (c : Z) : bool := is_digit c || (c =? 45).

Lemma num_text_head x : json_num x = true -> exists c s, num_to_string x = c :: s /\ number_head c = true.
Proof.
  unfold json_num. intros H. destruct x as [s|s| |s m e]; try discriminate H.
  - by exists 48, [].
  - assert (canonical m e) as Hc by (apply bounded_canonical; bsplit; done).
    destruct (positive_head m e Hc) as (c & t & E & Hd). destruct s; simpl.
    + by exists 45, (positive_to_string m e).
    + exists c, t. split; [done|]. unfold number_head. by rewrite Hd.
Qed.

Lemma json_number_text x rest : json_num x = true -> stops rest ->
  json_number (num_to_string x ++ rest) = Some (x, rest).
Proof.
  unfold json_num. intros H Hr. destruct x as [s|s| |s m e]; try discriminate H.
  - destruct s; [done|]. unfold json_number. cbn [num_to_string].
    change (js "0") with [48]. cbn [app]. change (48 =? 45) with false. cbv iota.
    change (48 :: rest) with ([48] ++ rest).
    by rewrite (scan_number_stops [48] (DecLit [48] None None) rest eq_refl Hr).
  - assert (canonical m e) as Hc by (apply bounded_canonical; bsplit; done).
    destruct (json_number_positive m e rest Hc Hr) as [H1 H2]. by destruct s.
Qed.

(** ** Objects in enumeration order *)

(** The key [k] is enumerated before the later key [k']. *)
Definition key_before (k k' : jstr) : bool :=
  match array_index_of k, array_index_of k' with
  | Some i, Some j => i <? j
  | Some _, None => true
  | None, Some _ => false
  | None, None => negb (bool_decide (k = k'))
  end.

Fixpoint keys_ordered (ks : list jstr) : bool :=
  match ks with
  | [] => true
  | k :: ks => forallb (key_before k) ks && keys_ordered ks
  end.

Lemma key_before_ne k k' : key_before k k' = true -> k <> k'.
Proof.
  unfold key_before. intros H ->. destruct (array_index_of k') as [i|].
  - rewrite Z.ltb_irrefl in H. done.
  - by rewrite bool_decide_eq_true_2 in H.
Qed.

Lemma obj_insert_last {A} key (v : A) o : forallb (fun k => key_before k key) o.*1 = true ->
  obj_insert key v o = o ++ [(key, v)].
Proof.
  induction o as [|[k w] o IH]; [done|]. cbn [fmap list_fmap forallb fst]. intros H.
  apply andb_true_iff in H as [Hk Ho]. specialize (IH Ho). simpl. unfold key_before in Hk.
  destruct (array_index_of key) as [i|], (array_index_of k) as [j|]; try done; try (by rewrite IH).
  bsplit. rewrite (proj2 (Z.ltb_ge i j)) by lia. by rewrite IH.
Qed.

Lemma obj_set_last {A} key (v : A) o : forallb (fun k => key_before k key) o.*1 = true ->
  obj_set key v o = o ++ [(key, v)].
Proof.
  intros H. unfold obj_set. rewrite bool_decide_eq_false_2; [by apply obj_insert_last|].
  intros Hin. rewrite forallb_forall in H. apply list_elem_of_In in Hin.
  by apply (key_before_ne key key (H _ Hin)).
Qed.

Lemma keys_ordered_app ks k : keys_ordered (ks ++ [k]) = true <->
  keys_ordered ks = true /\ forallb (fun k' => key_before k' k) ks = true.
Proof.
  induction ks as [|k0 ks IH]; simpl; [done|].
  rewrite !andb_true_iff, forallb_app, andb_true_iff, IH. simpl. rewrite andb_true_r. tauto.
Qed.

Lemma keys_ordered_mid ks k ks' : keys_ordered (ks ++ k :: ks') = true ->
  forallb (fun k' => key_before k' k) ks = true.
Proof.
  induction ks as [|k0 ks IH]; [done|]. simpl. rewrite !andb_true_iff, forallb_app. simpl.
  rewrite !andb_true_iff. tauto.
Qed.

(** ** The values that survive *)
Fixpoint json_ok (v : jsval) : bool :=
  match v with
  | J_undefined => false
  | J_null | J_bool _ => true
  | J_num x => json_num x
  | J_str s => forallb (fun c => (0 <=? c) && (c <? 65536)) s
  | J_arr l => forallb json_ok l
  | J_obj props =>
      keys_ordered props.*1 &&
      forallb (fun p => forallb (fun c => (0 <=? c) && (c <? 65536)) p.1 && json_ok p.2) props
  end.

Lemma units_ok s : forallb (fun c => (0 <=? c) && (c <? 65536)) s = true -> code_units s.
Proof.
  intros H. apply List.Forall_forall. intros c Hc. rewrite forallb_forall in H.
  apply H in Hc. bsplit. lia.
Qed.

(** The text of a member. *)
Definition member_text (p : jstr * jsval) : jstr := json_stringify p.1 ++ [58] ++ json_text p.2.

Lemma obj_text props : forallb (fun p : jstr * jsval => json_ok p.2) props = true ->
  json_text (J_obj props) = [123] ++ join [44] (map member_text props) ++ [125].
Proof.
  intros H. cbn [json_text]. do 2 f_equal. f_equal.
  induction props as [|[k v] props IH]; [done|]. cbn [forallb snd] in H. apply andb_true_iff in H as [Hv H].
  cbn [omap list_omap map snd]. rewrite (IH H). by destruct v.
Qed.

(** What may follow a value. *)
Definition value_ends (rest : jstr) : Prop :=
  match rest with [] => True | c :: _ => c = 44 \/ c = 93 \/ c = 125 end.

Lemma value_ends_stops rest : value_ends rest -> stops rest.
Proof. destruct rest as [|c rest]; [done|]. by intros [->|[->| ->]]. Qed.

(** A value's text is not empty and does not begin with white space, a closing
    bracket or a closing brace. *)
Definition value_head (c : Z) : bool := negb (json_space c) && negb (c =? 93) && negb (c =? 125).

Lemma value_text_head v : json_ok v = true -> exists c s, json_text v = c :: s /\ value_head c = true.
Proof.
  destruct v as [| |[]|x|s|l|props]; intros H; try done; try (by eexists _, _).
  - cbn [json_ok] in H. destruct (num_text_head x H) as (c & s & E & Hc). exists c, s. split.
    + cbn [json_text]. unfold json_num in H. by bsplit; case_match.
    + unfold number_head, is_digit in Hc. unfold value_head, json_space.
      apply orb_true_iff in Hc as [Hc|Hc]; bsplit; rewrite !(proj2 (Z.eqb_neq c _)) by lia; done.
Qed.

Lemma skip_head c s : value_head c = true -> skip_space (c :: s) = c :: s.
Proof. unfold value_head, skip_space. cbn [drop_while]. intros H. bsplit. by destruct (json_space c). Qed.

Lemma word_number c s : number_head c = true ->
  json_word (c :: s) = ('(x, rest) ← json_number (c :: s); Some (J_num x, rest)).
Proof.
  intros H. unfold json_word, number_head, is_digit in *.
  assert (forall d t, 97 <= d -> starts_with (d :: t) (c :: s) = false) as Hf.
  { intros d t Hd. cbn [starts_with]. rewrite (proj2 (Z.eqb_neq _ _)); [done|].
    apply orb_true_iff in H as [H|H]; bsplit; lia. }
  change (js "true") with [116; 114; 117; 101]. change (js "false") with [102; 97; 108; 115; 101].
  change (js "null") with [110; 117; 108; 108]. by rewrite !Hf by lia.
Qed.

(** ** The round trip *)
Lemma join_map_cons {A} (f : A -> jstr) x y l :
  join [44] (map f (x :: y :: l)) = f x ++ [44] ++ join [44] (map f (y :: l)).
Proof. done. Qed.

Section Parsing.
Context (n : nat).
Context (IH : forall v fuel rest, (length (json_text v) <= n)%nat -> json_ok v = true -> value_ends rest ->
  (length (json_text v) <= fuel)%nat -> json_value fuel (json_text v ++ rest) = Some (v, rest)).

Lemma elements_text l fuel rest : l <> [] ->
  (length (join [44%Z] (map json_text l)) <= n)%nat -> forallb json_ok l = true ->
  (length (join [44%Z] (map json_text l)) < fuel)%nat ->
  json_elements fuel (join [44] (map json_text l) ++ 93 :: rest) = Some (l, rest).
Proof.
  revert fuel. induction l as [|v l IHl]; intros fuel Hne Hn Hok Hf; [done|].
  cbn [forallb] in Hok. apply andb_true_iff in Hok as [Hv Hl].
  destruct fuel as [|fuel]; [lia|]. destruct l as [|v' l].
  - cbn [map join] in *. cbn [json_elements]. rewrite IH by (done || lia || (simpl; tauto)). done.
  - rewrite join_map_cons, !length_app in Hn, Hf. change (length [44%Z]) with 1%nat in Hn, Hf.
    rewrite join_map_cons. cbn [json_elements]. rewrite <- !app_assoc. cbn [app].
    rewrite IH by (done || lia || (simpl; tauto)). cbn [mbind option_bind].
    change (skip_space (44 :: ?s)) with (44 :: s). cbv iota. change (44 =? 44) with true. cbv iota.
    rewrite IHl; [done|done|lia|done|lia].
Qed.

Lemma members_text ps fuel o rest : ps <> [] ->
  (length (join [44%Z] (map member_text ps)) <= n)%nat ->
  keys_ordered (o ++ ps).*1 = true ->
  forallb (fun p => forallb (fun c => (0 <=? c) && (c <? 65536)) p.1 && json_ok p.2) ps = true ->
  (length (join [44%Z] (map member_text ps)) <= fuel)%nat ->
  json_members fuel (join [44] (map member_text ps) ++ 125 :: rest) o = Some (o ++ ps, rest).
Proof.
  revert fuel o. induction ps as [|[k v] ps IHps]; intros fuel o Hne Hn Hord Hok Hf; [done|].
  cbn [forallb fst snd] in Hok. apply andb_true_iff in Hok as [Hkv Hok].
  apply andb_true_iff in Hkv as [Hk Hv]. apply units_ok in Hk.
  assert (obj_set k v o = o ++ [(k, v)]) as Hset.
  { apply obj_set_last. rewrite fmap_app in Hord. by apply keys_ordered_mid in Hord. }
  assert (forall s r fuel', (length (member_text (k, v)) <= n)%nat -> s = member_text (k, v) ++ r -> value_ends r ->
    (length (member_text (k, v)) <= S fuel')%nat -> json_members (S fuel') s o =
      match skip_space r with
      | c :: s5 => if c =? 44 then json_members fuel' s5 (o ++ [(k, v)])
                   else if c =? 125 then Some (o ++ [(k, v)], s5) else None
      | [] => None
      end) as Hone.
  { intros s r fuel' Hn' -> Hr Hf'. unfold member_text, json_stringify in *. cbn [fst snd] in *.
    cbn [app] in *. rewrite <- !app_assoc in *. cbn [app length] in Hn', Hf' |- *.
    rewrite !length_app in Hn', Hf'. simpl length in Hn', Hf'.
    cbn [json_members]. change (skip_space (34 :: ?s)) with (34 :: s). cbv iota.
    change (negb (34 =? 34)) with false. cbv iota. rewrite json_string_body by done. cbn [mbind option_bind].
    change (skip_space (58 :: ?s)) with (58 :: s). cbv iota. change (negb (58 =? 58)) with false. cbv iota.
    rewrite IH by (done || lia). cbn [mbind option_bind]. by rewrite Hset. }
  destruct fuel as [|fuel]; [unfold member_text in Hf; destruct ps; simpl in Hf; lia|].
  destruct ps as [|p ps].
  - cbn [map join] in *. rewrite (Hone _ (125 :: rest) fuel) by (done || (simpl; tauto)). done.
  - rewrite join_map_cons, !length_app in Hn, Hf. change (length [44%Z]) with 1%nat in Hn, Hf.
    rewrite join_map_cons.
    rewrite (Hone _ ([44] ++ join [44] (map member_text (p :: ps)) ++ 125 :: rest) fuel);
      [|lia|by rewrite <- !app_assoc|simpl; tauto|lia].
    cbn [app]. change (skip_space (44 :: ?s)) with (44 :: s). cbv iota. change (44 =? 44) with true. cbv iota.
    assert (0 < length (member_text (k, v)))%nat by (unfold member_text; simpl; lia).
    rewrite (IHps fuel (o ++ [(k, v)])); [by rewrite <- app_assoc|done|lia| |done|lia].
    by rewrite <- app_assoc.
Qed.
End Parsing.

Lemma json_value_text n v fuel rest : (length (json_text v) <= n)%nat -> json_ok v = true ->
  value_ends rest -> (length (json_text v) <= fuel)%nat ->
  json_value fuel (json_text v ++ rest) = Some (v, rest).
Proof.
  revert v fuel rest. induction n as [|n IH]; intros v fuel rest Hn Hok Hr Hf.
  { destruct (value_text_head v Hok) as (c & s & E & _). rewrite E in Hn. simpl in Hn. lia. }
  destruct fuel as [|fuel].
  { destruct (value_text_head v Hok) as (c & s & E & _). rewrite E in Hf. simpl in Hf. lia. }
  destruct v as [| |[]|x|s|l|props]; try done.
  - cbn [json_ok] in Hok. destruct (num_text_head x Hok) as (c & s & E & Hc).
    pose proof (json_number_text x rest Hok (value_ends_stops _ Hr)) as Hnum.
    destruct (value_text_head (J_num x) Hok) as (c' & s' & E' & Hc').
    assert (json_text (J_num x) = num_to_string x) as Et.
    { cbn [json_text]. unfold json_num in Hok. by bsplit; case_match. }
    rewrite Et in *. rewrite E in E'. injection E' as -> ->. rewrite E in *. cbn [app] in *.
    cbn [json_value]. rewrite skip_head by done.
    assert ((c' =? 34) = false /\ (c' =? 91) = false /\ (c' =? 123) = false) as (-> & -> & ->).
    { unfold number_head, is_digit in Hc. apply orb_true_iff in Hc as [Hc|Hc]; bsplit;
        rewrite !(proj2 (Z.eqb_neq c' _)) by lia; done. }
    by rewrite word_number, Hnum by done.
  - cbn [json_ok json_text] in *. apply units_ok in Hok. unfold json_stringify. cbn [app json_value].
    change (skip_space (34 :: ?s)) with (34 :: s). cbv iota. change (34 =? 34) with true. cbv iota.
    rewrite <- app_assoc. cbn [app]. by rewrite json_string_body.
  - cbn [json_ok json_text] in *. cbn [app] in *. rewrite <- app_assoc. cbn [app json_value].
    change (skip_space (91 :: ?s)) with (91 :: s). cbv iota.
    change (91 =? 34) with false. change (91 =? 91) with true. cbv iota.
    destruct l as [|v l]; [done|]. set (t := join [44] (map json_text (v :: l))) in *.
    simpl length in Hn, Hf. rewrite length_app in Hn, Hf. simpl length in Hn, Hf.
    assert (exists c s, t = c :: s /\ value_head c = true) as (c & s & Et & Hc).
    { destruct (value_text_head v) as (c & s & E & Hc); [cbn [forallb] in Hok; by bsplit|].
      subst t. cbn [map]. destruct (map json_text l) as [|t' ts]; cbn [join]; rewrite E; by eexists _, _. }
    assert (json_elements fuel (t ++ 93 :: rest) = Some (v :: l, rest)) as He.
    { apply (elements_text n IH); [done|subst t; lia|done|subst t; lia]. }
    rewrite Et in *. cbn [app] in *. rewrite skip_head by done. unfold value_head in Hc. bsplit.
    rewrite (proj2 (Z.eqb_neq c 93)) by done. by rewrite He.
  - assert (forallb (fun p : jstr * jsval => json_ok p.2) props = true) as Hvals.
    { cbn [json_ok] in Hok. apply andb_true_iff in Hok as [_ Hok]. rewrite forallb_forall in *.
      intros p Hp. specialize (Hok p Hp). simpl in Hok. by bsplit. }
    rewrite (obj_text _ Hvals) in *. cbn [json_ok] in Hok. apply andb_true_iff in Hok as [Hord Hok].
    cbn [app] in *. rewrite <- app_assoc. cbn [app json_value].
    change (skip_space (123 :: ?s)) with (123 :: s). cbv iota.
    change (123 =? 34) with false. change (123 =? 91) with false. change (123 =? 123) with true. cbv iota.
    destruct props as [|p props]; [done|]. set (t := join [44] (map member_text (p :: props))) in *.
    simpl length in Hn, Hf. rewrite length_app in Hn, Hf. simpl length in Hn, Hf.
    assert (exists s, t = 34 :: s) as (s & Et).
    { subst t. cbn [map]. destruct (map member_text props); cbn [join]; by eexists. }
    assert (json_members fuel (t ++ 125 :: rest) [] = Some (p :: props, rest)) as He.
    { apply (members_text n IH (p :: props) fuel []); [done|subst t; lia|done|done|subst t; lia]. }
    rewrite Et in *. cbn [app] in *. change (skip_space (34 :: ?s)) with (34 :: s). cbv iota.
    change (34 =? 125) with false. cbv iota. by rewrite He.
Qed.

(** [JSON.parse(JSON.stringify(v))] is [v] for every JSON value whose numbers are
    finite and not [-0] and whose strings are code units. *)
Theorem json_text_roundtrip v : json_ok v = true -> json_parse (json_text v) = Some v.
Proof.
  intros H. unfold json_parse. rewrite <- (app_nil_r (json_text v)) at 2.
  by rewrite (json_value_text (length (json_text v)) v) by (done || lia).
Qed.

Lemma json_text_roundtrip_witness :
  json_parse (json_text (J_obj [(js "3", J_num (n_of_Z 7)); (js "a", J_arr [J_str (js "x"); J_null])]))
  = Some (J_obj [(js "3", J_num (n_of_Z 7)); (js "a", J_arr [J_str (js "x"); J_null])]).
Proof. apply (json_text_roundtrip (J_obj [(js "3", J_num (n_of_Z 7)); (js "a", J_arr [J_str (js "x"); J_null])])). vm_compute. reflexivity. Defined.

(** * The shape of parsed documents

    [JSON.parse] of a text of code units answers strings of code units, and the
    own properties of every object are in enumeration order; so a document that
    was read can be written again. *)

(** ** Assignment keeps the enumeration order *)
Lemma array_index_inj k k' i : array_index_of k = Some i -> array_index_of k' = Some i -> k = k'.
Proof.
  assert (forall k, array_index_of k = Some i -> dec_of_Z i = k) as H.
  { intros [|c s]; [done|]. unfold array_index_of. generalize (c :: s). intros key E.
    destruct (forallb is_digit key); [|done]. cbv zeta in E.
    destruct (bool_decide_reflect (dec_of_Z (digits_value key) = key)) as [Hk|]; [|done].
    destruct (_ <? _); [|done]. simpl in E. by injection E as <-. }
  intros E E'. by rewrite <- (H k E), <- (H k' E').
Qed.

Lemma key_before_trans a b c : key_before a b = true -> key_before b c = true -> a <> c -> key_before a c = true.
Proof.
  unfold key_before. destruct (array_index_of a), (array_index_of b), (array_index_of c); try done.
  - intros. bsplit. lia.
  - intros _ _ H. by rewrite bool_decide_eq_false_2.
Qed.

Lemma key_before_total a b : a <> b -> key_before a b = true \/ key_before b a = true.
Proof.
  intros Hne. unfold key_before. destruct (array_index_of a) as [i|] eqn:Ea, (array_index_of b) as [j|] eqn:Eb; try tauto.
  - destruct (Z.eq_dec i j) as [->|]; [|lia]. destruct Hne. by apply (array_index_inj _ _ j).
  - left. by rewrite bool_decide_eq_false_2.
Qed.

Lemma before_all (P : jstr -> bool) {A} key (v : A) o : P key = true -> forallb P o.*1 = true ->
  forallb P (obj_insert key v o).*1 = true.
Proof.
  intros Hk Ho. rewrite forallb_forall in *. intros x Hx. rewrite <- list_elem_of_In in Hx.
  rewrite <- obj_insert_perm in Hx. simpl in Hx. apply elem_of_cons in Hx as [->|Hx]; [done|].
  by apply Ho, list_elem_of_In.
Qed.

Lemma insert_ordered {A} key (v : A) o : key ∉ o.*1 -> keys_ordered o.*1 = true ->
  keys_ordered (obj_insert key v o).*1 = true.
Proof.
  induction o as [|[k w] o IH]; [done|]. cbn [fmap list_fmap fst]. intros Hk Ho. cbn [keys_ordered] in Ho.
  apply andb_true_iff in Ho as [Hall Hrest]. apply not_elem_of_cons in Hk as [Hne Hk].
  assert (key_before k key = true -> keys_ordered (((k, w) :: obj_insert key v o).*1) = true) as Hafter.
  { intros Hb. cbn [fmap list_fmap fst keys_ordered]. by rewrite before_all, IH. }
  assert (key_before key k = true -> keys_ordered (key :: k :: o.*1) = true) as Hhere.
  { intros Hb. cbn [keys_ordered forallb]. rewrite Hb, Hall, Hrest, !andb_true_r. simpl.
    rewrite forallb_forall in *. intros x Hx. apply (key_before_trans key k x Hb (Hall x Hx)).
    intros ->. by apply Hk, list_elem_of_In. }
  cbn [obj_insert]. unfold key_before in Hafter, Hhere.
  destruct (array_index_of key) as [i|] eqn:Ei, (array_index_of k) as [j|] eqn:Ej.
  - destruct (Z.ltb_spec i j); [by apply Hhere|]. apply Hafter. apply Z.ltb_lt.
    assert (i <> j) by (intros ->; exact (Hne (array_index_inj _ _ j Ei Ej))). lia.
  - by apply Hhere.
  - by apply Hafter.
  - apply Hafter. by rewrite bool_decide_eq_false_2.
Qed.

Lemma update_keys {A} key (v : A) o : (obj_update key v o).*1 = o.*1.
Proof. induction o as [|[k w] o IH]; [done|]. cbn [obj_update]. destruct (bool_decide (k = key)); [done|]. cbn [fmap list_fmap fst]. by f_equal. Qed.

Lemma set_ordered {A} key (v : A) o : keys_ordered o.*1 = true -> keys_ordered (obj_set key v o).*1 = true.
Proof.
  intros Ho. unfold obj_set. destruct (bool_decide_reflect (key ∈ o.*1)); [by rewrite update_keys|].
  by apply insert_ordered.
Qed.

Lemma filter_ordered {A} (f : jstr * A -> bool) o : keys_ordered o.*1 = true ->
  keys_ordered (List.filter f o).*1 = true.
Proof.
  induction o as [|[k v] o IH]; intros H; [done|]. cbn [fmap list_fmap fst keys_ordered] in H.
  apply andb_true_iff in H as [Hk Ho]. cbn [List.filter].
  destruct (f (k, v)); [|by apply IH]. cbn [fmap list_fmap fst keys_ordered].
  apply andb_true_iff. split; [|by apply IH]. rewrite forallb_forall in *. intros x Hx. apply Hk.
  apply list_elem_of_In in Hx. apply list_elem_of_fmap in Hx as ([k' v'] & -> & Hin).
  apply list_elem_of_In, filter_In in Hin as [Hin _].
  apply list_elem_of_In, list_elem_of_fmap. exists (k', v'). split; [done|]. by apply list_elem_of_In.
Qed.

Lemma set_forall {A} (P : jstr * A -> Prop) key v o : P (key, v) -> Forall P o -> Forall P (obj_set key v o).
Proof.
  intros Hp Ho. unfold obj_set. case_bool_decide.
  - clear H. induction Ho as [|[k w] o Hw Ho IH]; cbn [obj_update]; [constructor|].
    case_bool_decide; [subst|]; by constructor.
  - rewrite <- obj_insert_perm. by constructor.
Qed.

Lemma keys_ordered_nodup ks : keys_ordered ks = true -> NoDup ks.
Proof.
  induction ks as [|k ks IH]; [constructor|]. cbn [keys_ordered]. intros H. apply andb_true_iff in H as [Hk H].
  constructor; [|by apply IH]. intros Hin. rewrite forallb_forall in Hk. apply list_elem_of_In in Hin.
  by apply (key_before_ne k k (Hk _ Hin)).
Qed.

(** ** Code units *)
Lemma json_string_units s v rest : json_string s = Some (v, rest) -> code_units s -> code_units v /\ code_units rest.
Proof.
  unfold code_units. revert v rest. remember (length s) as n eqn:Hn. assert (length s <= n)%nat as Hle by lia. clear Hn.
  revert s Hle. induction n as [|n IH]; intros [|c s] Hle v rest E Hs; try done; [simpl in Hle; lia|].
  simpl in Hle. apply list.Forall_cons in Hs as [Hc Hs]. cbn [json_string] in E.
  assert (forall u t w, (length t <= n)%nat -> 0 <= u < 65536 -> Forall (fun c => 0 <= c < 65536) t ->
    ('(v, rest) ← json_string t; Some (u :: v, rest)) = Some w ->
    Forall (fun c => 0 <= c < 65536) (fst w) /\ Forall (fun c => 0 <= c < 65536) (snd w)) as Hgo.
  { intros u t w Ht Hu Hts Ew. destruct (json_string t) as [[v' r']|] eqn:Et; [|done]. simpl in Ew. injection Ew as <-.
    destruct (IH t Ht v' r' Et Hts). split; [by constructor|done]. }
  destruct (c =? 34); [by injection E as <- <-|]. destruct (c <? 32); [done|].
  destruct (negb (c =? 92)); [by apply (Hgo c s (v, rest)); [lia| | |]|].
  destruct s as [|x s2]; [done|]. simpl in Hle. apply list.Forall_cons in Hs as [Hx Hs].
  destruct (json_simple_escape x) as [u|] eqn:Eu.
  { apply (Hgo u s2 (v, rest)); [lia| |done|done]. unfold json_simple_escape in Eu. repeat case_match; simplify_eq; lia. }
  destruct (x =? 117); [|done]. do 4 (destruct s2 as [|? s2]; [done|]).
  match type of E with match radix_value 16 ?l with _ => _ end = _ => destruct (radix_value 16 l) as [u|] eqn:Er end; [|done].
  simpl in Hle. rewrite !list.Forall_cons in Hs. apply (Hgo u s2 (v, rest)); [lia| |tauto|done].
  unfold radix_value in Er. cbn [fold_left] in Er.
  repeat match type of Er with context [hex_value ?c] =>
    let Hh := fresh "Hh" in destruct (hex_value c) as [?|] eqn:Hh; [|try done] end; try done.
  all: assert (forall c d, hex_value c = Some d -> 0 <= d) as Hpos
    by (intros ? ? Hd; unfold hex_value, is_digit in Hd; repeat case_match; simplify_eq; bsplit; lia).
  all: repeat match goal with Hh : hex_value _ = Some _ |- _ => apply Hpos in Hh end.
  all: repeat case_match; simplify_eq; bsplit; lia.
Qed.

Lemma units_suffix a b : code_units (a ++ b) -> code_units b.
Proof. intros H. by apply list.Forall_app in H as [_ H]. Qed.

Lemma units_drop n s : code_units s -> code_units (drop n s).
Proof. rewrite <- (take_drop n s) at 1. apply units_suffix. Qed.

Lemma units_skip s : code_units s -> code_units (skip_space s).
Proof. destruct (drop_while_suffix json_space s) as (p & E & _). rewrite E at 1. apply units_suffix. Qed.

Lemma units_trim s : code_units s -> code_units (trim s).
Proof.
  destruct (trim_decompose s) as (a & b & E & _). rewrite E at 1. intros H. apply units_suffix in H.
  by apply list.Forall_app in H as [H _].
Qed.

Lemma json_word_units s v rest : json_word s = Some (v, rest) -> code_units s ->
  code_units rest /\ match v with J_str _ | J_obj _ => False | _ => True end.
Proof.
  unfold json_word. intros E Hs. repeat (case_match; [injection E as <- <-; split; [by apply units_drop|done]|]).
  destruct (json_number s) as [[x r]|] eqn:En; [|done]. simpl in E. injection E as <- <-. split; [|done].
  unfold json_number in En. destruct s as [|c s']; [done|].
  assert (forall t, code_units t -> forall d r', scan_number t = Some (d, r') -> code_units r') as Hscan.
  { intros t Ht d r' Es. apply scan_number_text in Es. rewrite Es in Ht. by apply units_suffix in Ht. }
  destruct (c =? 45).
  - destruct (scan_number s') as [[d r']|] eqn:Es; [|done]. simpl in En. case_match; [done|]. injection En as _ <-.
    apply list.Forall_cons in Hs as [_ Hs]. by apply (Hscan s' Hs d).
  - destruct (scan_number (c :: s')) as [[d r']|] eqn:Es; [|done]. simpl in En. case_match; [done|]. injection En as _ <-.
    by apply (Hscan (c :: s') Hs d).
Qed.

(** ** Parsed values *)
Definition entry_shape (k : jstr) (v : jsval) : Prop :=
  code_units k /\ match v with J_str s => code_units s | _ => True end.

Definition props_shape (props : list (jstr * jsval)) : Prop :=
  keys_ordered props.*1 = true /\ Forall (fun p => entry_shape (fst p) (snd p)) props.

Definition value_shape (v : jsval) : Prop :=
  match v with J_str s => code_units s | J_obj props => props_shape props | _ => True end.

Lemma parsed_values_shape fuel :
  (forall s v rest, json_value fuel s = Some (v, rest) -> code_units s -> value_shape v /\ code_units rest) /\
  (forall s l rest, json_elements fuel s = Some (l, rest) -> code_units s -> code_units rest) /\
  (forall s o o' rest, json_members fuel s o = Some (o', rest) -> code_units s -> props_shape o ->
     props_shape o' /\ code_units rest).
Proof.
  induction fuel as [|fuel (IHv & IHe & IHm)]; [done|]. split_and!.
  - intros s v rest E Hs. cbn [json_value] in E. apply units_skip in Hs. destruct (skip_space s) as [|c s1]; [done|].
    pose proof Hs as Hall. apply list.Forall_cons in Hs as [_ Hs]. destruct (c =? 34).
    { destruct (json_string s1) as [[t r]|] eqn:Et; [|done]. injection E as <- <-. by apply (json_string_units s1). }
    destruct (c =? 91).
    { pose proof (units_skip _ Hs) as Hk. destruct (skip_space s1) as [|x r1]; [done|]. apply list.Forall_cons in Hk as [_ Hk].
      destruct (x =? 93); [by injection E as <- <-|]. destruct (json_elements fuel s1) as [[l r]|] eqn:El; [|done].
      injection E as <- <-. split; [done|]. by apply (IHe s1 l). }
    destruct (c =? 123).
    { pose proof (units_skip _ Hs) as Hk. destruct (skip_space s1) as [|x r1]; [done|]. apply list.Forall_cons in Hk as [_ Hk].
      destruct (x =? 125); [injection E as <- <-; by repeat split|].
      destruct (json_members fuel s1 []) as [[o r]|] eqn:Eo; [|done]. injection E as <- <-. by apply (IHm s1 []). }
    destruct (json_word_units _ _ _ E Hall) as [Hr Hv]. split; [by destruct v|done].
  - intros s l rest E Hs. cbn [json_elements] in E. destruct (json_value fuel s) as [[v s1]|] eqn:Ev; [|done]. cbn in E.
    apply IHv in Ev as [_ Hs1]; [|done]. apply units_skip in Hs1. destruct (skip_space s1) as [|c s2]; [done|].
    apply list.Forall_cons in Hs1 as [_ Hs1]. destruct (c =? 44).
    + destruct (json_elements fuel s2) as [[l' r]|] eqn:El; [|done]. injection E as <- <-. by apply (IHe s2 l').
    + destruct (c =? 93); [|done]. by injection E as <- <-.
  - intros s o o' rest E Hs Ho. cbn [json_members] in E. apply units_skip in Hs. destruct (skip_space s) as [|q s1]; [done|].
    apply list.Forall_cons in Hs as [_ Hs]. destruct (negb (q =? 34)); [done|].
    destruct (json_string s1) as [[key s2]|] eqn:Ek; [|done]. cbn in E. apply json_string_units in Ek as [Hkey Hs2]; [|done].
    apply units_skip in Hs2. destruct (skip_space s2) as [|colon s3]; [done|]. apply list.Forall_cons in Hs2 as [_ Hs3].
    destruct (negb (colon =? 58)); [done|]. destruct (json_value fuel s3) as [[v s4]|] eqn:Ev; [|done]. cbn in E.
    apply IHv in Ev as [Hv Hs4]; [|done]. apply units_skip in Hs4. destruct (skip_space s4) as [|c s5]; [done|].
    apply list.Forall_cons in Hs4 as [_ Hs5].
    assert (props_shape (obj_set key v o)) as Ho'.
    { destruct Ho as [Hord Hall]. split; [by apply set_ordered|]. apply set_forall; [|done]. split; [done|]. by destruct v. }
    destruct (c =? 44); [by apply (IHm s5 (obj_set key v o))|]. destruct (c =? 125); [|done]. by injection E as <- <-.
Qed.

Lemma json_parse_shape s v : json_parse s = Some v -> code_units s -> value_shape v.
Proof.
  unfold json_parse. intros E Hs. destruct (json_value _ s) as [[w rest]|] eqn:Ev; [|done]. cbn in E.
  destruct (skip_space rest); [|done]. injection E as <-. by apply (parsed_values_shape _) in Ev as [? _].
Qed.
