(* ===== verification/IntegerSums.v ===== *)
(** * Sums and differences in binary64

    Integers below [2^53] are added exactly: the sum of two such numbers is the
    number of their sum, and so is a longer sum whatever the order of its terms,
    as long as it stays below [2^53].  And rounding never changes the sign of a
    difference: two different numbers have a difference other than zero. *)
From Stdlib Require Import SpecFloat Permutation.
From stdpp Require Import list.
From S2P Require Import Prelude JsString JsNumber JsNumberFacts NumberText.

#[local] Open Scope Z_scope.

(** ** Rounding of exact values *)
Lemma shift_pos_value p d : Zpos (Pos.iter xO p d) = Zpos p * 2 ^ Zpos d.
Proof.
  revert p. induction d as [|d IH] using Pos.peano_ind; intros p.
  - cbn. lia.
  - rewrite Pos.iter_succ, Pos2Z.inj_succ, Z.pow_succ_r by lia. rewrite Pos2Z.inj_xO, IH. lia.
Qed.

Lemma digits_shift p k : 0 <= k -> forall q, Zpos q = Zpos p * 2 ^ k -> Zpos (digits2_pos q) = Zpos (digits2_pos p) + k.
Proof.
  intros Hk q E. rewrite !digits2_log2, E, Z.log2_mul_pow2 by lia. lia.
Qed.

Lemma iter_shift n : forall q p, Zpos p = Zpos q * 2 ^ Zpos n ->
  SpecFloat.iter_pos shr_1 n {| shr_m := Zpos p; shr_r := false; shr_s := false |}
  = {| shr_m := Zpos q; shr_r := false; shr_s := false |}.
Proof.
  induction n as [n IH|n IH|]; intros q p E.
  - assert (exists p', p = xO p' /\ Zpos p' = Zpos q * 2 ^ Zpos n * 2 ^ Zpos n) as (p' & -> & Hp).
    { rewrite (Pos2Z.inj_xI n) in E. replace (2 * Zpos n + 1) with (1 + Zpos n + Zpos n) in E by lia.
      rewrite !Z.pow_add_r in E by lia. destruct p as [p|p|]; [lia| |lia]. exists p. split; [done|lia]. }
    cbn [SpecFloat.iter_pos shr_1 orb]. rewrite (IH (Z.to_pos (Zpos q * 2 ^ Zpos n))); [apply IH|]; rewrite Z2Pos.id; lia.
  - rewrite (Pos2Z.inj_xO n) in E. replace (2 * Zpos n) with (Zpos n + Zpos n) in E by lia. rewrite Z.pow_add_r in E by lia.
    cbn [SpecFloat.iter_pos]. rewrite (IH (Z.to_pos (Zpos q * 2 ^ Zpos n))); [apply IH|]; rewrite Z2Pos.id; lia.
  - destruct p as [p|p|]; cbn; [lia| |lia]. do 2 f_equal. lia.
Qed.

(** A value that has a canonical form is rounded to it. *)
Lemma round_exact p e q f : bounded 53 1024 q f = true ->
  (f <= e -> Zpos q = Zpos p * 2 ^ (e - f)) -> (e <= f -> Zpos p = Zpos q * 2 ^ (f - e)) ->
  binary_round 53 1024 false p e = S754_finite false q f.
Proof.
  intros Hb Hle Hge. unfold bounded, canonical_mantissa in Hb. bsplit.
  assert (shr_fexp 53 1024 (Zpos q) f loc_Exact = ({| shr_m := Zpos q; shr_r := false; shr_s := false |}, f)) as Hq.
  { unfold shr_fexp. cbn [Zdigits2]. replace (fexp _ _ _ - f) with 0 by lia. done. }
  assert (binary_round_aux 53 1024 false (Zpos q) f loc_Exact = S754_finite false q f) as Haux.
  { unfold binary_round_aux. rewrite Hq. cbn [shr_m loc_of_shr_record round_nearest_even]. rewrite Hq. cbn [shr_m].
    by rewrite (proj2 (Z.leb_le _ _)) by lia. }
  destruct (Z.le_ge_cases f e) as [H1|H1].
  - specialize (Hle H1). pose proof (digits_shift p (e - f) ltac:(lia) q Hle) as Hd. unfold binary_round, shl_align.
    replace (Zpos (digits2_pos p) + e) with (Zpos (digits2_pos q) + f) by lia. rewrite H.
    destruct (f - e) as [|d|d] eqn:Ed; [|lia|].
    + assert (f = e) as -> by lia. assert (q = p) as -> by (replace (e - e) with 0 in Hle by lia; lia). done.
    + assert (Pos.iter xO p d = q) as ->; [|done]. apply Pos2Z.inj. rewrite shift_pos_value, Hle. do 2 f_equal. lia.
  - destruct (Z.eq_dec f e) as [->|Hne].
    { specialize (Hge ltac:(lia)). assert (p = q) as -> by (replace (e - e) with 0 in Hge by lia; lia). unfold binary_round, shl_align.
      rewrite H. by replace (e - e) with 0 by lia. }
    specialize (Hge ltac:(lia)). pose proof (digits_shift q (f - e) ltac:(lia) p Hge) as Hd. unfold binary_round, shl_align.
    replace (Zpos (digits2_pos p) + e) with (Zpos (digits2_pos q) + f) by lia. rewrite H.
    destruct (f - e) as [|d|d] eqn:Ed; [lia| |lia]. unfold binary_round_aux, shr_fexp at 1. cbn [Zdigits2 shr_record_of_loc].
    replace (Zpos (digits2_pos p) + e) with (Zpos (digits2_pos q) + f) by lia. rewrite H, Ed. cbn [shr].
    rewrite (iter_shift d q p) by done. cbn [shr_m loc_of_shr_record round_nearest_even].
    replace (e + Zpos d) with f by lia. rewrite Hq. cbn [shr_m]. by rewrite (proj2 (Z.leb_le _ _)) by lia.
Qed.

(** ** Integers *)
Record integer_form (z : Z) (q : positive) (f : Z) : Prop := {
  if_bounded : bounded 53 1024 q f = true;
  if_exponent : f <= 0;
  if_value : Zpos q = z * 2 ^ (- f)
}.

Lemma integer_form_exists z : 0 < z < 2 ^ 53 -> exists q f, integer_form z q f.
Proof.
  intros Hz. set (f := Z.log2 z - 52). pose proof (Z.log2_spec z ltac:(lia)) as Hl.
  assert (0 <= Z.log2 z < 53) as Hr by (split; [apply Z.log2_nonneg|apply Z.log2_lt_pow2; lia]).
  assert (0 < z * 2 ^ (- f)) as Hp by (apply Z.mul_pos_pos; [lia|apply Z.pow_pos_nonneg; lia]).
  exists (Z.to_pos (z * 2 ^ (- f))), f. split; [|lia|by rewrite Z2Pos.id].
  unfold bounded, canonical_mantissa. rewrite digits2_log2, Z2Pos.id, Z.log2_mul_pow2 by lia.
  apply andb_true_iff. split; [apply Z.eqb_eq|apply Z.leb_le; lia]. unfold fexp, emin. lia.
Qed.

(** A scaled integer rounds to the number of the integer. *)
Lemma scaled_integer z q f k : integer_form z q f -> 0 <= k ->
  binary_normalize 53 1024 (z * 2 ^ k) (- k) false = S754_finite false q f.
Proof.
  intros [Hb Hf Hq] Hk. assert (0 < 2 ^ k) as H2 by (apply Z.pow_pos_nonneg; lia).
  assert (0 < 2 ^ (- f)) as H3 by (apply Z.pow_pos_nonneg; lia).
  assert (0 < z) as Hz by nia. destruct (z * 2 ^ k) as [|p|p] eqn:E; [nia| |nia]. cbn [binary_normalize].
  apply round_exact; [done| |]; intros Hle.
  - rewrite Hq, <- E, <- Z.mul_assoc, <- Z.pow_add_r by lia. do 2 f_equal. lia.
  - rewrite <- E, Hq, <- Z.mul_assoc, <- Z.pow_add_r by lia. do 2 f_equal. lia.
Qed.

Lemma n_of_Z_form z q f : integer_form z q f -> n_of_Z z = S754_finite false q f.
Proof. intros H. rewrite <- (scaled_integer z q f 0 H) by lia. unfold n_of_Z. by rewrite Z.pow_0_r, Z.mul_1_r. Qed.

Lemma align_value p e k : 0 <= e + k -> Zpos (fst (shl_align p e (- k))) = Zpos p * 2 ^ (e + k).
Proof.
  intros H. unfold shl_align. destruct (- k - e) as [|d|d] eqn:E; cbn [fst]; [|lia|].
  - replace (e + k) with 0 by lia. lia.
  - rewrite shift_pos_value. do 2 f_equal. lia.
Qed.

Lemma n_add_integers a b : 0 <= a -> 0 <= b -> a + b < 2 ^ 53 -> n_add (n_of_Z a) (n_of_Z b) = n_of_Z (a + b).
Proof.
  intros Ha Hb Hs. destruct (Z.eq_dec a 0) as [->|Ha0].
  { change (n_of_Z 0) with n_zero. destruct (Z.eq_dec b 0) as [->|Hb0]; [done|].
    destruct (integer_form_exists b) as (q & f & Hf); [lia|]. by rewrite Z.add_0_l, (n_of_Z_form b q f). }
  destruct (integer_form_exists a) as (qa & fa & Fa); [lia|]. rewrite (n_of_Z_form _ _ _ Fa).
  destruct (Z.eq_dec b 0) as [->|Hb0]; [by rewrite Z.add_0_r, (n_of_Z_form _ _ _ Fa)|].
  destruct (integer_form_exists b) as (qb & fb & Fb); [lia|]. rewrite (n_of_Z_form _ _ _ Fb).
  destruct (integer_form_exists (a + b)) as (q & f & F); [lia|]. rewrite (n_of_Z_form _ _ _ F).
  pose proof (if_exponent _ _ _ Fa). pose proof (if_exponent _ _ _ Fb).
  set (k := - Z.min fa fb). rewrite <- (scaled_integer (a + b) q f k F) by lia.
  unfold n_add, SFadd. cbn [cond_Zopp]. replace (Z.min fa fb) with (- k) by lia. f_equal.
  rewrite !align_value by lia. rewrite (if_value _ _ _ Fa), (if_value _ _ _ Fb), <- !Z.mul_assoc, <- !Z.pow_add_r by lia.
  replace (- fa + (fa + k)) with k by lia. replace (- fb + (fb + k)) with k by lia. lia.
Qed.

(** ** The sign of a difference *)

(** A shift to the right halves the mantissa. *)
Lemma shr_1_half mrs : 0 <= shr_m mrs -> shr_m (shr_1 mrs) = shr_m mrs / 2.
Proof.
  destruct mrs as [m r s]. cbn [shr_m]. intros Hm. destruct m as [|[p|p|]|p]; cbn; try done.
  - apply (Z.div_unique_pos _ 2 (Zpos p) 1); lia.
  - apply (Z.div_unique_pos _ 2 (Zpos p) 0); lia.
Qed.

Lemma shr_shift n mrs : 0 <= shr_m mrs -> shr_m (SpecFloat.iter_pos shr_1 n mrs) = shr_m mrs / 2 ^ Zpos n.
Proof.
  revert mrs. induction n as [n IH|n IH|]; intros mrs Hm; cbn [SpecFloat.iter_pos].
  - assert (0 < 2 ^ Zpos n) by (apply Z.pow_pos_nonneg; lia). pose proof (shr_1_half mrs Hm) as E1.
    assert (0 <= shr_m (shr_1 mrs)) as H1 by (rewrite E1; apply Z.div_pos; lia).
    assert (0 <= shr_m (SpecFloat.iter_pos shr_1 n (shr_1 mrs))) as H2 by (rewrite IH by done; apply Z.div_pos; lia).
    rewrite !IH, E1, !Z.div_div by lia. f_equal. rewrite (Pos2Z.inj_xI n). replace (2 * Zpos n + 1) with (1 + Zpos n + Zpos n) by lia.
    rewrite !Z.pow_add_r by lia. lia.
  - assert (0 < 2 ^ Zpos n) by (apply Z.pow_pos_nonneg; lia).
    assert (0 <= shr_m (SpecFloat.iter_pos shr_1 n mrs)) as H2 by (rewrite IH by done; apply Z.div_pos; lia).
    rewrite !IH, !Z.div_div by lia. f_equal. rewrite (Pos2Z.inj_xO n). replace (2 * Zpos n) with (Zpos n + Zpos n) by lia. by rewrite Z.pow_add_r by lia.
  - rewrite shr_1_half by done. done.
Qed.

(** Rounding to the precision keeps a positive mantissa positive: the exponent
    is never raised by more than the mantissa has digits. *)
Lemma shr_fexp_positive m e l : 0 < m -> -1074 <= e ->
  0 < shr_m (fst (shr_fexp 53 1024 m e l)) /\ -1074 <= snd (shr_fexp 53 1024 m e l).
Proof.
  intros Hm He. unfold shr_fexp. destruct m as [|p|p]; [lia| |lia]. cbn [Zdigits2].
  assert (shr_m (shr_record_of_loc (Zpos p) l) = Zpos p) as Er by (destruct l as [|[]]; done).
  pose proof (digits2_log2 p) as Hd. pose proof (Z.log2_nonneg (Zpos p)) as Hl. unfold fexp, emin.
  set (n := Z.max _ _ - e). assert (n <= Z.log2 (Zpos p)) as Hn by lia.
  destruct n as [|d|d]; cbn [shr fst snd]; [by rewrite Er| |by rewrite Er]. split; [|lia]. rewrite shr_shift, Er by (rewrite Er; lia).
  assert (0 < 2 ^ Zpos d) by (apply Z.pow_pos_nonneg; lia). apply Z.div_str_pos. split; [done|].
  pose proof (Z.log2_spec (Zpos p) ltac:(lia)). etransitivity; [apply (Z.pow_le_mono_r 2 (Zpos d) (Z.log2 (Zpos p))); lia|lia].
Qed.

Lemma nearest_above m l : m <= round_nearest_even m l.
Proof. unfold round_nearest_even. destruct l as [|[]]; [lia|destruct (Z.even m); lia|lia|lia]. Qed.

Lemma round_sign sx m e l : 0 < m -> -1074 <= e -> n_ltb n_zero (binary_round_aux 53 1024 sx m e l) = negb sx.
Proof.
  intros Hm He. unfold binary_round_aux. pose proof (shr_fexp_positive m e l Hm He) as [H1 H2].
  destruct (shr_fexp 53 1024 m e l) as [mrs e1]. cbn [fst snd] in *.
  pose proof (nearest_above (shr_m mrs) (loc_of_shr_record mrs)) as Hr.
  pose proof (shr_fexp_positive (round_nearest_even (shr_m mrs) (loc_of_shr_record mrs)) e1 loc_Exact ltac:(lia) H2) as [H3 H4].
  destruct (shr_fexp 53 1024 (round_nearest_even _ _) e1 loc_Exact) as [mrs2 e2]. cbn [fst snd] in *.
  destruct (shr_m mrs2) as [|p|p]; [lia| |lia]. destruct (e2 <=? _); by destruct sx.
Qed.

(** The number nearest to [z * 2^e] has the sign of [z]: no difference of numbers
    is rounded to zero. *)
Lemma normalize_sign z e : -1074 <= e -> n_ltb n_zero (binary_normalize 53 1024 z e false) = (0 <? z).
Proof.
  intros He. assert (forall sx p, n_ltb n_zero (binary_round 53 1024 sx p e) = negb sx) as Hr.
  { intros sx p. unfold binary_round, shl_align. destruct (fexp _ _ _ - e) as [|d|d] eqn:E; apply round_sign; try lia.
    unfold fexp, emin in *. lia. }
  destruct z as [|p|p]; cbn [binary_normalize]; [done|by rewrite Hr|by rewrite Hr].
Qed.

(** ** Longer sums *)
Definition num_sum (l : list num) : num := fold_left n_add l n_zero.

Definition sum_Z (l : list Z) : Z := foldr Z.add 0 l.

Lemma sum_Z_app a b : sum_Z (a ++ b) = sum_Z a + sum_Z b.
Proof. unfold sum_Z. induction a as [|x a IH]; cbn; [done|]. rewrite IH. lia. Qed.

Lemma sum_Z_nonneg l : Forall (fun z => 0 <= z) l -> 0 <= sum_Z l.
Proof. unfold sum_Z. induction 1; cbn; lia. Qed.

#[export] Instance sum_Z_perm : Proper (Permutation ==> eq) sum_Z.
Proof. intros a b H. unfold sum_Z. induction H; cbn; lia. Qed.

Lemma sum_from a l : 0 <= a -> Forall (fun z => 0 <= z) l -> a + sum_Z l < 2 ^ 53 ->
  fold_left n_add (map n_of_Z l) (n_of_Z a) = n_of_Z (a + sum_Z l).
Proof.
  intros Ha Hl. revert a Ha. induction Hl as [|z l Hz Hl IH]; intros a Ha Hs; cbn [map fold_left].
  - unfold sum_Z. cbn. by rewrite Z.add_0_r.
  - change (sum_Z (z :: l)) with (z + sum_Z l) in *. pose proof (sum_Z_nonneg l Hl).
    rewrite n_add_integers, IH by lia. f_equal. lia.
Qed.

Lemma num_sum_integers l : Forall (fun z => 0 <= z) l -> sum_Z l < 2 ^ 53 -> num_sum (map n_of_Z l) = n_of_Z (sum_Z l).
Proof. intros Hl Hs. unfold num_sum. change n_zero with (n_of_Z 0). by rewrite sum_from, Z.add_0_l by lia || done. Qed.

(** Sums by classes: the terms whose class is in a list without repetitions. *)
Lemma sum_by_class {A K} `{EqDecision K} (class : A -> K) (value : A -> Z) (keys : list K) (l : list A) : NoDup keys ->
  sum_Z (map (fun k => sum_Z (map value (List.filter (fun x => bool_decide (class x = k)) l))) keys)
  = sum_Z (map value (List.filter (fun x => bool_decide (class x ∈ keys)) l)).
Proof.
  intros Hn. induction l as [|x l IH].
  - cbn [List.filter map]. clear. unfold sum_Z. induction keys as [|k keys IH]; cbn in *; [done|]. rewrite IH. done.
  - assert (forall keys, NoDup keys -> sum_Z (map (fun k => sum_Z (map value (List.filter (fun x => bool_decide (class x = k)) (x :: l)))) keys)
      = (if bool_decide (class x ∈ keys) then value x else 0)
        + sum_Z (map (fun k => sum_Z (map value (List.filter (fun x => bool_decide (class x = k)) l))) keys)) as Hx.
    { clear. intros keys. induction keys as [|k keys IH]; intros Hn; [by rewrite bool_decide_eq_false_2 by apply not_elem_of_nil|].
      apply list.NoDup_cons in Hn as [Hk Hn]. cbn [map]. change (sum_Z (?a :: ?b)) with (a + sum_Z b). rewrite IH by done.
      cbn [List.filter]. destruct (decide (class x = k)) as [<-|Hne].
      - rewrite (bool_decide_eq_true_2 (class x = class x)), (bool_decide_eq_false_2 _ Hk), bool_decide_eq_true_2 by (done || by left).
        cbn [map]. change (sum_Z (?a :: ?b)) with (a + sum_Z b). lia.
      - rewrite (bool_decide_eq_false_2 (class x = k)) by done.
        rewrite (bool_decide_ext (class x ∈ k :: keys) (class x ∈ keys)) by (rewrite elem_of_cons; naive_solver). lia. }
    rewrite Hx, IH by done. cbn [List.filter]. case_bool_decide; [done|lia].
Qed.
