(* ===== verification/Compile.v ===== *)
(** * Type checking and compilation

    Models the rest of [billing-expression/parser.ts]: the static type check,
    the collection of request rules, the shape check of expressions that use
    [fixed], [compileBillingExpression] and its cache of 128 results. *)
From Stdlib Require Import SpecFloat.
From stdpp Require Import strings gmap.
From S2P Require Import Prelude JsString JsNumber Syntax Parser.

#[local] Open Scope Z_scope.

(** ** [checkExpressionTypes] *)
Inductive expression_type := Ty_number | Ty_string | Ty_boolean | Ty_nil | Ty_dynamic.

#[global] Instance expression_type_eq_dec : EqDecision expression_type.
Proof. solve_decision. Defined.

Definition type_text (t : expression_type) : jstr :=
  match t with
  | Ty_number => js "number" | Ty_string => js "string" | Ty_boolean => js "boolean"
  | Ty_nil => js "nil" | Ty_dynamic => js "dynamic"
  end.

(** The map [types], keyed by node. *)
Abbreviation type_map := (gmap (nat * nat) expression_type).
Definition node_key (n : node) : nat * nat := (n_start n, n_end n).
Definition type_of (types : type_map) (n : node) : option expression_type :=
  types !! node_key n.

Definition requireType (types : type_map) (child : option node) (expected : expression_type)
  : outcome unit :=
  match child with
  | None => type_error
  | Some child =>
      let actual := type_of types child in
      if bool_decide (actual <> Some expected) && bool_decide (actual <> Some Ty_dynamic)
      then throw C_type (type_text expected ++ js " operand") (Some (n_start child))
      else Ok tt
  end.

#[global] Arguments requireType : simpl never.

Definition literal_type (v : literal) : expression_type :=
  match v with
  | L_nil => Ty_nil
  | L_num _ _ => Ty_number
  | L_str _ => Ty_string
  | L_bool _ => Ty_boolean
  end.

Definition is_time_function (f : billing_function) : bool :=
  match f with F_time _ => true | _ => false end.

Definition call_type (types : type_map) (f : billing_function) (args : list node)
  : outcome expression_type :=
  let* _ :=
    match f with
    | F_param | F_header | F_u | F_time _ => requireType types (args !! 0%nat) Ty_string
    | _ => Ok tt
    end in
  match f with
  | F_header => Ok Ty_string
  | F_has =>
      let* _ := requireType types (args !! 1%nat) Ty_string in Ok Ty_boolean
  | F_tier =>
      let* _ := requireType types (args !! 0%nat) Ty_string in
      let* _ := requireType types (args !! 1%nat) Ty_number in Ok Ty_number
  | F_time _ => Ok Ty_number
  | F_fixed | F_min | F_max | F_abs | F_ceil | F_floor =>
      let* _ := rfold (fun arg _ => requireType types (Some arg) Ty_number) args tt in
      Ok Ty_number
  | F_param | F_u => Ok Ty_dynamic
  end.

(** The visitor of [checkExpressionTypes]: the type of one node from those of
    its children. *)
Definition node_type (types : type_map) (n : node) : outcome expression_type :=
  match n with
  | Lit v _ _ => Ok (literal_type v)
  | Var _ _ _ => Ok Ty_number
  | Un o a _ _ =>
      let t := match o with U_not => Ty_boolean | _ => Ty_number end in
      let* _ := requireType types (Some a) t in Ok t
  | Cond c y n _ _ =>
      let* _ := requireType types (Some c) Ty_boolean in
      Ok (if bool_decide (type_of types y = type_of types n)
          then default Ty_dynamic (type_of types y) else Ty_dynamic)
  | Bin o l r _ _ =>
      match o with
      | B_and | B_or =>
          let* _ := requireType types (Some l) Ty_boolean in
          let* _ := requireType types (Some r) Ty_boolean in
          Ok Ty_boolean
      | B_eq | B_ne | B_lt | B_le | B_gt | B_ge => Ok Ty_boolean
      | _ =>
          if bool_decide (o = B_add) && bool_decide (type_of types l = Some Ty_string)
             && bool_decide (type_of types r = Some Ty_string)
          then Ok Ty_string
          else
            let* _ := requireType types (Some l) Ty_number in
            let* _ := requireType types (Some r) Ty_number in
            Ok Ty_number
      end
  | Call f args _ _ => call_type types f args
  end.

Definition checkExpressionTypes (ast : node) : outcome type_map :=
  visitExpression ast (fun n types =>
    let* t := node_type types n in Ok (<[node_key n := t]> types)) ∅.

(** ** Request rules and the shape of fixed prices *)
Record request_rule := Rule {
  rl_node : node;
  rl_condition : node;
  rl_multiplier : num;
  rl_cond : jstr;
}.

Definition containsPricingMarker (n : node) : outcome bool :=
  let* d := expressionDependencies n in
  Ok (bool_decide (F_tier ∈ dep_functions d) || bool_decide (F_fixed ∈ dep_functions d)).

(** [rules.find((candidate) => candidate.node === factor)] *)
Definition find_rule (rules : list request_rule) (n : node) : option request_rule :=
  List.find (fun r => same_node (rl_node r) n) rules.

Definition shape_detail : jstr :=
  js "Use tier(name, fixed(amount)) with a finite, non-negative numeric literal; combine pricing branches only with conditions and request multipliers.".

(** The tier case of [validateFixedPricingTree]: does the node end the walk? *)
Definition valid_tier_leaf (n : node) : outcome bool :=
  match n with
  | Call F_tier (label :: price :: _) _ _ =>
      let* m := containsPricingMarker label in
      if m then Ok false else
      match price with
      | Call F_fixed args _ _ =>
          match args with
          | Lit (L_num x _) _ _ :: _ =>
              Ok (n_leb n_zero x && is_finite (n_mul x n_million))
          | _ :: _ => Ok false
          | [] => type_error
          end
      | _ => let* m := containsPricingMarker price in Ok (negb m)
      end
  | Call F_tier _ _ _ => type_error
  | _ => Ok false
  end.

(** Whether [factor] may multiply a pricing tree: [image_count] or a request
    rule with a non-negative multiplier and a condition free of prices. *)
Definition pricing_factor (rules : list request_rule) (factor : node) : outcome bool :=
  match factor with
  | Var V_image_count _ _ => Ok true
  | _ =>
      match find_rule rules factor with
      | Some rule =>
          if n_leb n_zero (rl_multiplier rule) then
            let* m := containsPricingMarker (rl_condition rule) in Ok (negb m)
          else Ok false
      | None => Ok false
      end
  end.

Definition shape_error {A} (n : node) : outcome A :=
  throw C_type shape_detail (Some (n_start n)).

Fixpoint validateFixedPricingTree (n : node) (rules : list request_rule) : outcome unit :=
  let leaf := let* ok := valid_tier_leaf n in if ok then Ok tt else shape_error n in
  match n with
  | Cond c y no _ _ =>
      let* m := containsPricingMarker c in
      if m then leaf
      else
        let* _ := validateFixedPricingTree y rules in
        validateFixedPricingTree no rules
  | Bin B_mul l r _ _ =>
      let* ok := pricing_factor rules r in
      if ok then validateFixedPricingTree l rules
      else
        let* ok := pricing_factor rules l in
        if ok then validateFixedPricingTree r rules else leaf
  | _ => leaf
  end.

Definition is_rule_probe (f : billing_function) : bool :=
  match f with F_param | F_header | F_time _ => true | _ => false end.

(** The visitor that collects the request rules of an expression. *)
Definition collect_rule (source : jstr) (n : node) (rules : list request_rule)
  : outcome (list request_rule) :=
  match n with
  | Cond c (Lit (L_num m _) _ _) (Lit (L_num one _) _ _) _ _ =>
      if n_eqb one n_one then
        let* d := expressionDependencies c in
        if existsb is_rule_probe (dep_functions d)
        then Ok (rules ++ [Rule n c m (slice source (n_start c) (n_end c))])
        else Ok rules
      else Ok rules
  | _ => Ok rules
  end.

Definition collect_rules (source : jstr) (ast : node) : outcome (list request_rule) :=
  visitExpression ast (collect_rule source) [].

(** ** [compileBillingExpression] *)
Record compiled_expression := Compiled {
  ce_source : jstr;
  ce_ast : node;
  ce_variables : list token_variable;
  ce_functions : list billing_function;
  ce_rules : list request_rule;
}.

Inductive compilation :=
| Ready (c : compiled_expression)
| Failed (f : failure).

(** The body of the [try] block. *)
Definition compile_body (source : jstr) : outcome compiled_expression :=
  let* ast := parse source in
  let* _ := checkExpressionTypes ast in
  let* d := expressionDependencies ast in
  let* rules := collect_rules source ast in
  let* _ :=
    if bool_decide (F_fixed ∈ dep_functions d)
    then validateFixedPricingTree ast rules else Ok tt in
  Ok (Compiled source ast (dep_variables d) (dep_functions d) rules).

(** The result for a source that is not in the cache. *)
Definition compile (source : jstr) : compilation :=
  match compile_body source with
  | Ok c => Ready c
  | Err e => Failed (expressionFailure e)
  end.

(** [compiledCache], a map in insertion order. *)
Definition cache := list (jstr * compilation).

Definition cache_get (source : jstr) (c : cache) : option compilation :=
  snd <$> List.find (fun p => bool_decide (fst p = source)) c.

Definition cache_set (source : jstr) (r : compilation) (c : cache) : cache :=
  c ++ [(source, r)].

Definition cache_evict (c : cache) : cache :=
  match c with
  | _ :: rest => if 128 <=? Z.of_nat (length c) then rest else c
  | [] => c
  end.

Definition compileBillingExpression (source : jstr) (c : cache) : compilation * cache :=
  match cache_get source c with
  | Some cached => (cached, c)
  | None =>
      let result := compile source in
      (result, cache_set source result (cache_evict c))
  end.
