(* ===== verification/CompileFacts.v ===== *)
(** * Correctness of compilation

    The static check implements a declarative type system; the compilation
    cache is transparent and bounded; a compiled expression carries exactly the
    dependencies of its tree. *)
From Stdlib Require Import SpecFloat.
From stdpp Require Import strings gmap.
From S2P Require Import Prelude JsString JsNumber Syntax SyntaxFacts Parser ParserFacts Compile.

#[local] Open Scope Z_scope.

(** ** The type system *)

(** An operand of type [t] is accepted where [expected] is required. *)
Definition accepts (expected t : expression_type) : Prop := t = expected \/ t = Ty_dynamic.

Definition number_function (f : billing_function) : bool :=
  match f with F_fixed | F_min | F_max | F_abs | F_ceil | F_floor => true | _ => false end.

Inductive has_type : node -> expression_type -> Prop :=
| HT_lit v s e : has_type (Lit v s e) (literal_type v)
| HT_var v s e : has_type (Var v s e) Ty_number
| HT_not a t s e : has_type a t -> accepts Ty_boolean t -> has_type (Un U_not a s e) Ty_boolean
| HT_sign o a t s e : o <> U_not -> has_type a t -> accepts Ty_number t ->
    has_type (Un o a s e) Ty_number
| HT_logic o l r tl tr s e : o = B_and \/ o = B_or ->
    has_type l tl -> has_type r tr -> accepts Ty_boolean tl -> accepts Ty_boolean tr ->
    has_type (Bin o l r s e) Ty_boolean
| HT_compare o l r tl tr s e : o ∈ [B_eq; B_ne; B_lt; B_le; B_gt; B_ge] ->
    has_type l tl -> has_type r tr -> has_type (Bin o l r s e) Ty_boolean
| HT_concat l r s e : has_type l Ty_string -> has_type r Ty_string ->
    has_type (Bin B_add l r s e) Ty_string
| HT_arith o l r tl tr s e : o ∈ [B_add; B_sub; B_mul; B_div; B_mod] ->
    has_type l tl -> has_type r tr -> accepts Ty_number tl -> accepts Ty_number tr ->
    has_type (Bin o l r s e) Ty_number
| HT_cond_same c y n tc t s e : has_type c tc -> accepts Ty_boolean tc ->
    has_type y t -> has_type n t -> has_type (Cond c y n s e) t
| HT_cond_mixed c y n tc ty tn s e : has_type c tc -> accepts Ty_boolean tc ->
    has_type y ty -> has_type n tn -> ty <> tn -> has_type (Cond c y n s e) Ty_dynamic
| HT_probe f a t s e : f = F_param \/ f = F_u -> has_type a t -> accepts Ty_string t ->
    has_type (Call f [a] s e) Ty_dynamic
| HT_header a t s e : has_type a t -> accepts Ty_string t ->
    has_type (Call F_header [a] s e) Ty_string
| HT_time f a t s e : has_type a t -> accepts Ty_string t ->
    has_type (Call (F_time f) [a] s e) Ty_number
| HT_has a b ta tb s e : has_type a ta -> has_type b tb -> accepts Ty_string tb ->
    has_type (Call F_has [a; b] s e) Ty_boolean
| HT_tier a b ta tb s e : has_type a ta -> has_type b tb ->
    accepts Ty_string ta -> accepts Ty_number tb -> has_type (Call F_tier [a; b] s e) Ty_number
| HT_math f args s e : number_function f = true ->
    Forall (fun a => exists t, has_type a t /\ accepts Ty_number t) args ->
    length args = arity f -> has_type (Call f args s e) Ty_number.

(** The map assigns every node of a list the type the rules give it. *)
Definition typed_in (types : type_map) (n : node) : Prop :=
  exists t, types !! node_key n = Some t /\ has_type n t.

Definition check_step (n : node) (types : type_map) : outcome type_map :=
  let* t := node_type types n in Ok (<[node_key n := t]> types).

Lemma requireType_ok types c expected u :
  requireType types (Some c) expected = Ok u <->
  exists t, types !! node_key c = Some t /\ accepts expected t.
Proof.
  unfold requireType, type_of, accepts. destruct u.
  generalize (types !! node_key c) as o. intros o. split.
  - intros H. destruct (decide (o = Some expected)) as [->|H1]; [eauto|].
    destruct (decide (o = Some Ty_dynamic)) as [->|H2]; [eauto|].
    rewrite !bool_decide_eq_true_2 in H by done. done.
  - intros (t & -> & [->| ->]).
    + by rewrite bool_decide_eq_false_2 by naive_solver.
    + rewrite (bool_decide_eq_false_2 (Some Ty_dynamic <> Some Ty_dynamic)) by naive_solver.
      by rewrite andb_false_r.
Qed.

Ltac use_types :=
  repeat match goal with
  | H : requireType _ (Some _) _ = Ok _ |- _ => apply requireType_ok in H as (? & ? & ?)
  | H : typed_in _ _ |- _ => destruct H as (? & ? & ?)
  end; simplify_eq/=.

Lemma call_type_sound types f args s e t :
  Forall (typed_in types) args -> length args = arity f ->
  call_type types f args = Ok t -> has_type (Call f args s e) t.
Proof.
  intros Ha Hl H. unfold call_type in H.
  destruct f; simpl in Hl;
    repeat match goal with
    | H : length ?l = S _ |- _ => destruct l; simplify_eq/=
    | H : length ?l = O |- _ => destruct l; simplify_eq/=
    end; repeat match goal with H : Forall _ (_ :: _) |- _ => inversion_clear H end;
    rinv; use_types; try (econstructor; eauto; fail);
    try (apply HT_math; [done| |done]; repeat constructor; eauto).
Qed.

Lemma node_type_sound types n t :
  node_ok n -> Forall (typed_in types) (children n) -> node_type types n = Ok t -> has_type n t.
Proof.
  intros Hok Hc H. pose proof (nk_arity _ Hok) as Har.
  destruct n as [v s e|v s e|f args s e|o a s e|o l r s e|c y no s e]; simpl in *;
    repeat match goal with H : Forall _ (_ :: _) |- _ => inversion_clear H end.
  - rinv. constructor.
  - rinv. constructor.
  - by eapply call_type_sound.
  - rinv; use_types; destruct o; econstructor; eauto; done.
  - destruct o; simpl in H; rinv; bsplit; use_types; unfold type_of in *;
      try (eapply HT_logic; eauto; fail);
      try (eapply HT_compare; eauto; set_solver);
      try (eapply HT_arith; eauto; set_solver).
    simplify_eq. by apply HT_concat.
  - rinv. use_types. unfold type_of in *.
    match goal with H : types !! node_key y = _ |- _ => rewrite H end.
    match goal with H : types !! node_key no = _ |- _ => rewrite H end.
    case_bool_decide; simplify_eq/=; [by eapply HT_cond_same|].
    eapply HT_cond_mixed; eauto. congruence.
Qed.

(** The check of a well-formed tree types all its nodes and nothing else. *)
Definition same_outside (keys : list (nat * nat)) (m m' : type_map) : Prop :=
  forall k, k ∉ keys -> m' !! k = m !! k.

Lemma typed_in_outside ns m m' c : same_outside (map node_span ns) m m' ->
  node_span c ∉ map node_span ns -> typed_in m c -> typed_in m' c.
Proof. intros H Hc (t & Ht & Hty). exists t. split; [|done]. by rewrite H. Qed.

Lemma check_children_sound ns m m' :
  Forall (fun n => forall m m', NoDup (map node_span (postorder n)) -> wf n ->
    rfold check_step (postorder n) m = Ok m' ->
    typed_in m' n /\ same_outside (map node_span (postorder n)) m m') ns ->
  NoDup (map node_span (mjoin (map postorder ns))) -> Forall wf ns ->
  rfold check_step (mjoin (map postorder ns)) m = Ok m' ->
  Forall (typed_in m') ns /\ same_outside (map node_span (mjoin (map postorder ns))) m m'.
Proof.
  intros IH. revert m m'. induction IH as [|n ns Hn _ IHl]; intros m m' Hnd Hw H; simpl in *.
  { rinv. split; [constructor|]. by intros k _. }
  inversion_clear Hw. rewrite map_app in Hnd.
  apply list.NoDup_app in Hnd as (Hnd1 & Hdis & Hnd2).
  rewrite rfold_app in H. apply rbind_ok in H as (m1 & H1' & H2').
  destruct (Hn m m1) as [Ht Hs]; [done..|].
  destruct (IHl m1 m') as [Ht' Hs']; [done..|]. split.
  - constructor; [|done]. eapply typed_in_outside; [done| |done].
    apply Hdis, list_elem_of_fmap. eauto using postorder_self.
  - intros k Hk. rewrite map_app, not_elem_of_app in Hk.
    rewrite Hs', Hs; naive_solver.
Qed.

Lemma check_sound n m m' : NoDup (map node_span (postorder n)) -> wf n ->
  rfold check_step (postorder n) m = Ok m' ->
  typed_in m' n /\ same_outside (map node_span (postorder n)) m m'.
Proof.
  revert m m'. induction n as [n IH] using node_ind_children. intros m m' Hnd Hw H.
  rewrite postorder_eq in *. rewrite map_app in Hnd.
  apply list.NoDup_app in Hnd as (Hnd & Hdis & _).
  apply wf_unfold in Hw as [Hok Hw]. rewrite rfold_app in H.
  apply rbind_ok in H as (m1 & H1 & H2).
  destruct (check_children_sound _ _ _ IH Hnd Hw H1) as [Ht Hs].
  simpl in H2. rinv.
  match goal with H : check_step _ _ = Ok _ |- _ => unfold check_step in H end. rinv.
  split.
  - eexists. split; [apply lookup_insert_eq|]. by eapply node_type_sound.
  - intros k Hk. rewrite map_app, not_elem_of_app in Hk. destruct Hk as [Hk1 Hk2].
    rewrite lookup_insert_ne; [by apply Hs|]. intros E. apply Hk2, list_elem_of_singleton.
    by rewrite <- E.
Qed.

(** Completeness: every typing derivation is found. *)
Lemma requireType_intro types c expected t :
  types !! node_key c = Some t -> accepts expected t ->
  requireType types (Some c) expected = Ok tt.
Proof. intros. apply requireType_ok. eauto. Qed.

Lemma has_type_children n t : has_type n t -> Forall (fun c => exists t, has_type c t) (children n).
Proof.
  destruct 1; simpl; repeat constructor; eauto.
  eapply Forall_impl; [|done]. naive_solver.
Qed.

Lemma type_of_key types n t : types !! node_key n = Some t -> type_of types n = Some t.
Proof. done. Qed.

Lemma has_type_det n t t' : has_type n t -> has_type n t' -> t = t'.
Proof.
  intros H. revert t'. induction H; intros t' H'; inversion H'; subst; try done;
    try (by naive_solver);
    repeat match goal with
    | IH : forall t, has_type ?n t -> _ = t, H : has_type ?n _ |- _ => apply IH in H; subst
    end; unfold accepts in *; simpl in *; try done; try naive_solver; try set_solver.
Qed.

Lemma node_type_complete types n t :
  (forall c t, c ∈ children n -> has_type c t -> types !! node_key c = Some t) ->
  has_type n t -> exists t', node_type types n = Ok t'.
Proof.
  intros Hc Ht. assert (forall c t expected, c ∈ children n -> has_type c t ->
    accepts expected t -> requireType types (Some c) expected = Ok tt) as Hreq.
  { intros c tc ex Hin Hty Hacc. eapply requireType_intro; [by apply Hc|done]. }
  destruct Ht; simpl in *; eauto;
    try (erewrite !Hreq; eauto; set_solver).
  all: try (destruct H as [->| ->]; simpl; erewrite !Hreq by (eauto; set_solver); simpl; eauto; fail).
  - destruct o; try done; erewrite !Hreq by (eauto; set_solver); simpl; eauto.
  - repeat (apply elem_of_cons in H as [->|H]; [by eauto|]). by apply not_elem_of_nil in H.
  - unfold type_of. rewrite (Hc l Ty_string), (Hc r Ty_string) by (done || set_solver).
    rewrite !bool_decide_eq_true_2 by done. simpl. eauto.
  - assert (requireType types (Some l) Ty_number = Ok tt) as E1 by (eapply Hreq; eauto; set_solver).
    assert (requireType types (Some r) Ty_number = Ok tt) as E2 by (eapply Hreq; eauto; set_solver).
    repeat (apply elem_of_cons in H as [->|H];
      [simpl; rewrite E1, E2; simpl; try case_match; eauto|]).
    by apply not_elem_of_nil in H.
  - destruct H as [->| ->]; unfold call_type; simpl;
      erewrite Hreq by (eauto; set_solver); simpl; eauto.
  - unfold call_type; simpl; erewrite Hreq by (eauto; set_solver); simpl; eauto.
  - unfold call_type; simpl; erewrite Hreq by (eauto; set_solver); simpl; eauto.
  - unfold call_type; simpl; erewrite Hreq by (eauto; set_solver); simpl; eauto.
  - unfold call_type; simpl. erewrite Hreq by (eauto; set_solver). simpl.
    erewrite Hreq by (eauto; set_solver). simpl. eauto.
  - assert (rfold (fun arg _ => requireType types (Some arg) Ty_number) args tt = Ok tt) as E.
    { assert (Forall (fun a => requireType types (Some a) Ty_number = Ok tt) args) as Hall.
      { apply Forall_elem. intros a Ha. rewrite Forall_elem in H0.
        destruct (H0 a Ha) as (t & ? & ?). eauto. }
      clear -Hall. induction Hall as [|a l Ha _ IH]; simpl; [done|]. by rewrite Ha. }
    destruct f; try done; unfold call_type; simpl; rewrite E; simpl; eauto.
Qed.

Lemma check_children_complete ns m :
  Forall (fun n => forall t m, NoDup (map node_span (postorder n)) -> wf n -> has_type n t ->
    exists m', rfold check_step (postorder n) m = Ok m') ns ->
  NoDup (map node_span (mjoin (map postorder ns))) -> Forall wf ns ->
  Forall (fun c => exists t, has_type c t) ns ->
  exists m', rfold check_step (mjoin (map postorder ns)) m = Ok m'.
Proof.
  intros IH. revert m. induction IH as [|n ns Hn _ IHl]; intros m Hnd Hw Hty; simpl in *; [eauto|].
  inversion_clear Hw. inversion_clear Hty as [|?? [t Ht] Hts]. rewrite map_app in Hnd.
  apply list.NoDup_app in Hnd as (Hnd1 & Hdis & Hnd2). rewrite rfold_app.
  destruct (Hn t m) as [m1 ->]; [done..|]. simpl. by apply IHl.
Qed.

Lemma check_complete n t m : NoDup (map node_span (postorder n)) -> wf n -> has_type n t ->
  exists m', rfold check_step (postorder n) m = Ok m'.
Proof.
  revert t m. induction n as [n IH] using node_ind_children. intros t m Hnd Hw Ht.
  rewrite postorder_eq in *. rewrite map_app in Hnd.
  apply list.NoDup_app in Hnd as (Hnd & Hdis & _).
  apply wf_unfold in Hw as [Hok Hw]. rewrite rfold_app.
  destruct (check_children_complete (children n) m) as [m1 H1];
    [done|done|done|by eapply has_type_children|].
  rewrite H1. simpl. unfold check_step.
  assert (Forall (fun n => forall m m', NoDup (map node_span (postorder n)) -> wf n ->
    rfold check_step (postorder n) m = Ok m' ->
    typed_in m' n /\ same_outside (map node_span (postorder n)) m m') (children n)) as Hsound.
  { apply Forall_elem. intros c _ m2 m3. apply check_sound. }
  destruct (check_children_sound _ _ _ Hsound Hnd Hw H1) as [Hty _].
  destruct (node_type_complete m1 n t) as [t' ->]; [|done|by simpl; eauto].
  intros c tc Hin Hc. rewrite Forall_elem in Hty. destruct (Hty c Hin) as (t2 & E & H2).
  by rewrite (has_type_det _ _ _ Hc H2).
Qed.

(** ** What a compiled expression guarantees *)
Record compiled_ok (source : jstr) (c : compiled_expression) : Prop := {
  co_source : ce_source c = source;
  co_parse : parse source = Ok (ce_ast c);
  co_fits : fits 0 (ce_ast c);
  co_typed : exists t, has_type (ce_ast c) t;
  co_variables : forall v, v ∈ ce_variables c <-> uses_variable v (ce_ast c);
  co_functions : forall f, f ∈ ce_functions c <-> uses_function f (ce_ast c);
  co_rules : rfold (collect_rule source) (postorder (ce_ast c)) [] = Ok (ce_rules c);
  co_fixed : F_fixed ∈ ce_functions c ->
             validateFixedPricingTree (ce_ast c) (ce_rules c) = Ok tt;
}.

Lemma compile_body_ok source c : compile_body source = Ok c -> compiled_ok source c.
Proof.
  unfold compile_body. intros H.
  apply rbind_ok in H as (ast & Hp & H). apply rbind_ok in H as (types & Ht & H).
  apply rbind_ok in H as (d & Hd & H). apply rbind_ok in H as (rules & Hr & H).
  apply rbind_ok in H as ([] & Hf & H). injection H as <-.
  pose proof (parse_wf _ _ Hp) as Hw. pose proof (dependencies_fits _ _ Hd) as Hfit.
  destruct (dependencies_ok ast Hfit) as (d' & Hd' & Hv & Hfn).
  rewrite Hd in Hd'. injection Hd' as <-.
  constructor; simpl; try done.
  - unfold checkExpressionTypes in Ht. rewrite visit_spec in Ht by done.
    destruct (check_sound ast ∅ types (wf_keys_nodup _ Hw) Hw Ht) as [(t & _ & Hty) _]. eauto.
  - unfold collect_rules in Hr. by rewrite visit_spec in Hr by done.
  - intros Hin. by rewrite bool_decide_eq_true_2 in Hf by done.
Qed.

Lemma compile_ready source c : compile source = Ready c -> compiled_ok source c.
Proof.
  unfold compile. destruct (compile_body source) eqn:E; [|done]. intros [= <-].
  by apply compile_body_ok.
Qed.

(** ** Only billing errors are thrown *)
Definition safe {A} (r : outcome A) : Prop := billing_ok r (fun _ => True).

Lemma safe_ok {A} (a : A) : safe (Ok a).
Proof. done. Qed.
Lemma safe_throw {A} c d p : safe (@throw A c d p).
Proof. done. Qed.
Lemma safe_bind {A B} (c : outcome A) (k : A -> outcome B) :
  safe c -> (forall a, safe (k a)) -> safe (rbind c k).
Proof. intros Hc Hk. eapply billing_bind; [exact Hc|]. intros a _. apply Hk. Qed.

Ltac safe_step :=
  match goal with
  | |- safe (Ok _) => apply safe_ok
  | |- safe (throw _ _ _) => apply safe_throw
  | |- safe (shape_error _) => apply safe_throw
  | |- safe (rbind _ _) => apply safe_bind; [|intros ?]
  | |- safe (match ?x with _ => _ end) => destruct x
  | |- safe (let _ := _ in _) => cbv zeta
  end.

Lemma safe_visit {S} (visitor : node -> S -> outcome S) n st :
  (forall m st, m ∈ postorder n -> safe (visitor m st)) -> safe (visitExpression n visitor st).
Proof.
  intros Hv. destruct (visitExpression n visitor st) as [a|e] eqn:E; [done|].
  destruct (visit_throws visitor n st e E) as [d ->]; [|done].
  intros m st' e' Hm He. specialize (Hv m st' Hm). rewrite He in Hv.
  destruct e' as [d|]; [by exists d|done].
Qed.

Lemma safe_requireType types a t : safe (requireType types (Some a) t).
Proof. unfold requireType. repeat safe_step. Qed.

Lemma safe_require_all types args t u :
  safe (rfold (fun arg _ => requireType types (Some arg) t) args u).
Proof.
  revert u. induction args as [|a l IH]; intros u; simpl; [done|].
  apply safe_bind; [apply safe_requireType|done].
Qed.

Lemma safe_node_type types n : node_ok n -> safe (node_type types n).
Proof.
  intros Hn. pose proof (nk_arity _ Hn) as Ha. destruct n; simpl in *;
    try done; try (repeat first [apply safe_requireType|safe_step]; fail).
  unfold call_type. destruct f; simpl in *; destruct args as [|a0 [|a1 args]]; simplify_eq/=;
    repeat first [apply safe_requireType|apply safe_require_all|safe_step].
Qed.

Lemma safe_dependencies n : safe (expressionDependencies n).
Proof. apply safe_visit. intros m st _. repeat safe_step. Qed.

Lemma safe_marker n : safe (containsPricingMarker n).
Proof. unfold containsPricingMarker. apply safe_bind; [apply safe_dependencies|done]. Qed.

Lemma safe_factor rules n : safe (pricing_factor rules n).
Proof. unfold pricing_factor. repeat first [apply safe_marker|safe_step]. Qed.

Lemma safe_leaf n : wf n -> safe (valid_tier_leaf n).
Proof.
  intros Hw. apply wf_unfold in Hw as [Hn Hc]. pose proof (nk_arity _ Hn) as Ha.
  destruct n as [| |f args s e| | |]; try done. destruct f; try done.
  simpl in *. destruct args as [|label [|price args]]; try done.
  apply Forall_cons_iff in Hc as [_ Hc]. apply Forall_cons_iff in Hc as [Hp _].
  apply wf_unfold in Hp as [Hp _]. pose proof (nk_arity _ Hp) as Ha'.
  simpl. apply safe_bind; [apply safe_marker|]. intros m.
  destruct m; [done|].
  destruct price as [| |g args' s' e'| | |]; repeat first [apply safe_marker|safe_step].
  done.
Qed.

Lemma safe_fixed_tree n rules : wf n -> safe (validateFixedPricingTree n rules).
Proof.
  revert n. refine (node_ind_children _ _). intros n IH Hw.
  assert (safe (let* ok := valid_tier_leaf n in if ok then Ok tt else shape_error n)) as Hleaf.
  { apply safe_bind; [by apply safe_leaf|]. intros []; done. }
  pose proof Hw as Hw'. apply wf_unfold in Hw' as [_ Hc].
  assert (forall c, c ∈ children n -> safe (validateFixedPricingTree c rules)) as Hrec.
  { intros c Hin. rewrite Forall_elem in IH, Hc. auto. }
  destruct n; try exact Hleaf.
  - destruct o; try exact Hleaf. simpl in *.
    repeat first [apply safe_factor|exact Hleaf|(apply Hrec; set_solver)|safe_step].
  - simpl in *.
    repeat first [apply safe_marker|exact Hleaf|(apply Hrec; set_solver)|safe_step].
Qed.

Lemma safe_compile_body source : safe (compile_body source).
Proof.
  unfold compile_body.
  eapply billing_bind; [apply parse_spec|]. intros ast [Hw _].
  apply safe_bind.
  { apply safe_visit. intros m st Hm. apply safe_bind; [|done].
    apply safe_node_type. apply (wf_subterm _ _ Hw), wf_unfold in Hm. tauto. }
  intros _. apply safe_bind; [apply safe_dependencies|]. intros d. apply safe_bind.
  { apply safe_visit. intros m st _. unfold collect_rule.
    repeat first [apply safe_dependencies|safe_step]. }
  intros rules. apply safe_bind; [|done]. case_bool_decide; [|done].
  by apply safe_fixed_tree.
Qed.

(** C3: the static check is the declarative type system: on a parsed tree of
    admissible height it succeeds exactly when the tree has a type, and then
    the type it records for the root is that type. *)
Theorem check_types_iff source n :
  parse source = Ok n -> fits 0 n ->
  forall t, has_type n t <->
    exists types, checkExpressionTypes n = Ok types /\ types !! node_key n = Some t.
Proof.
  intros Hp Hf t. pose proof (parse_wf _ _ Hp) as Hw. pose proof (wf_keys_nodup _ Hw) as Hnd.
  unfold checkExpressionTypes. rewrite visit_spec by done. split.
  - intros Ht. destruct (check_complete n t ∅ Hnd Hw Ht) as [m Hm]. exists m.
    split; [exact Hm|]. destruct (check_sound n ∅ m Hnd Hw Hm) as [(t' & E & Ht') _].
    by rewrite (has_type_det _ _ _ Ht Ht').
  - intros (types & Hc & E). destruct (check_sound n ∅ types Hnd Hw Hc) as [(t' & E' & Ht') _].
    by simplify_eq.
Qed.

Lemma check_types_iff_witness :
  let n := Bin B_gt (Var V_p 0 1) (Lit (L_num n_one true) 4 5) 0 5 in
  parse (js "p > 1") = Ok n /\ fits 0 n /\
  exists types, checkExpressionTypes n = Ok types /\ types !! node_key n = Some Ty_boolean.
Proof.
  intros n. assert (parse (js "p > 1") = Ok n) as Hp by (vm_compute; reflexivity).
  assert (fits 0 n) as Hf by (vm_compute; congruence).
  split; [exact Hp|]. split; [exact Hf|].
  apply (check_types_iff (js "p > 1") n Hp Hf).
  apply (HT_compare _ _ _ Ty_number Ty_number); [set_solver|constructor|].
  apply (HT_lit (L_num n_one true)).
Defined.

(** ** The cache *)
Record cache_ok (c : cache) : Prop := {
  ck_nodup : NoDup (map fst c);
  ck_size : (length c <= 128)%nat;
  ck_value : forall source r, (source, r) ∈ c -> r = compile source;
}.

Lemma cache_get_some source c r : cache_get source c = Some r -> (source, r) ∈ c.
Proof.
  unfold cache_get. intros H. apply fmap_Some in H as ([s r'] & Hf & ->).
  apply List.find_some in Hf as [Hin Hd]. apply bool_decide_eq_true in Hd. simpl in *.
  subst. by apply list_elem_of_In.
Qed.

Lemma cache_get_none source c : cache_get source c = None -> source ∉ map fst c.
Proof.
  unfold cache_get. rewrite fmap_None. intros H Hin.
  apply list_elem_of_fmap in Hin as ([s r] & -> & Hin). apply list_elem_of_In in Hin.
  apply (List.find_none _ _ H) in Hin. apply bool_decide_eq_false in Hin. by apply Hin.
Qed.

Lemma cache_evict_spec c : (length c <= 128)%nat ->
  (exists d, c = d ++ cache_evict c) /\ (length (cache_evict c) < 128)%nat.
Proof.
  unfold cache_evict. destruct c as [|x c]; intros Hl; [split; [by exists []|simpl; lia]|].
  destruct (Z.leb_spec 128 (Z.of_nat (length (x :: c)))).
  - split; [by exists [x]|simpl in *; lia].
  - split; [by exists []|simpl in *; lia].
Qed.

Lemma compile_cached source c : cache_ok c ->
  fst (compileBillingExpression source c) = compile source /\
  cache_ok (snd (compileBillingExpression source c)).
Proof.
  intros [H1 H2 H3]. unfold compileBillingExpression.
  destruct (cache_get source c) as [r|] eqn:E; simpl.
  { apply cache_get_some in E. split; [by apply H3|by constructor]. }
  apply cache_get_none in E. destruct (cache_evict_spec c H2) as [[d Hd] Hl].
  split; [done|]. unfold cache_set.
  rewrite Hd, map_app in H1, E. apply list.NoDup_app in H1 as (_ & _ & H1).
  rewrite not_elem_of_app in E. destruct E as [_ E].
  constructor.
  - rewrite map_app. apply list.NoDup_app. split_and!; [done| |apply NoDup_singleton].
    intros k Hk Hk'. apply list_elem_of_singleton in Hk'. simpl in Hk'. by subst.
  - rewrite length_app. simpl. lia.
  - intros s r Hin. apply elem_of_app in Hin as [Hin|Hin].
    + apply H3. rewrite Hd. apply elem_of_app. by right.
    + apply list_elem_of_singleton in Hin. by simplify_eq.
Qed.

Lemma cache_ok_nil : cache_ok [].
Proof.
  constructor; [constructor|simpl; lia|]. intros s r Hin. by apply not_elem_of_nil in Hin.
Qed.

(** A session: the results of compiling some sources one after the other. *)
Fixpoint compile_all (sources : list jstr) (c : cache) : list compilation * cache :=
  match sources with
  | [] => ([], c)
  | s :: sources =>
      let '(r, c) := compileBillingExpression s c in
      let '(rs, c) := compile_all sources c in (r :: rs, c)
  end.

(** C4: the compilation cache is transparent and bounded: any sequence of calls
    from the empty cache returns, call by call, what compiling without a cache
    returns, and leaves at most 128 entries, each for a different source and
    each holding that source's result. *)
Theorem compile_cache_transparent sources :
  let '(rs, c) := compile_all sources [] in
  rs = map compile sources /\ cache_ok c.
Proof.
  pose proof cache_ok_nil as H. revert H. generalize ([] : cache). induction sources as [|s l IH]; intros c H; simpl; [done|].
  destruct (compile_cached s c H) as [H1 H2].
  destruct (compileBillingExpression s c) as [r c1]. simpl in *.
  specialize (IH c1 H2). destruct (compile_all l c1). naive_solver.
Qed.
