(* ===== verification/EraseFacts.v ===== *)
(** * Spans do not matter to types and dependencies

    A tree and the tree without its spans have the same depth, the same types
    and the same functions. *)
From Stdlib Require Import SpecFloat.
From stdpp Require Import strings.
From S2P Require Import Prelude JsString JsNumber Syntax SyntaxFacts Parser Grammar Compile CompileFacts.

#[local] Open Scope Z_scope.

Lemma children_erase n : children (erase n) = map erase (children n).
Proof. by destruct n. Qed.

Lemma levels_erase n : levels (erase n) = levels n.
Proof.
  induction n as [n IH] using node_ind_children. rewrite !levels_eq, children_erase, map_map. do 2 f_equal.
  apply map_ext_in. intros c Hc. rewrite Forall_elem in IH. by apply IH, list_elem_of_In.
Qed.

Lemma postorder_erase n : postorder (erase n) = map erase (postorder n).
Proof.
  induction n as [n IH] using node_ind_children. rewrite !postorder_eq, children_erase, map_app. f_equal.
  induction IH as [|c l Hc _ IHl]; [done|].
  change (postorder (erase c) ++ mjoin (map postorder (map erase l)) = map erase (postorder c ++ mjoin (map postorder l))).
  by rewrite map_app, Hc, IHl.
Qed.

Lemma uses_function_erase f n : uses_function f (erase n) <-> uses_function f n.
Proof.
  unfold uses_function. rewrite postorder_erase. split.
  - intros (args & s & e & Hin). apply list_elem_of_In, in_map_iff in Hin as (m & E & Hm).
    destruct m as [| |g args' s' e'| | |]; try done. injection E as <- _ _ _. exists args', s', e'. by apply list_elem_of_In.
  - intros (args & s & e & Hin). exists (map erase args), 0%nat, 0%nat. apply list_elem_of_In, in_map_iff.
    exists (Call f args s e). split; [done|by apply list_elem_of_In].
Qed.

Lemma has_type_erase n t : has_type (erase n) t -> has_type n t.
Proof.
  revert t. induction n as [n IH] using node_ind_children. intros t H. rewrite Forall_elem in IH.
  destruct n as [v s e|v s e|f args s e|o a s e|o l r s e|c y no s e]; cbn [erase children] in *.
  - inversion H; subst. constructor.
  - inversion H; subst. constructor.
  - assert (forall a ta, a ∈ args -> has_type (erase a) ta -> has_type a ta) as Ha by (intros; by apply IH).
    inversion H; subst;
      try (match goal with E : _ = map erase args |- _ => symmetry in E end);
      try (match goal with E : map erase args = [_] |- _ =>
             destruct args as [|a1 [|]]; [done| |done]; injection E as <- end);
      try (match goal with E : map erase args = [_; _] |- _ =>
             destruct args as [|a1 [|a2 [|]]]; [done|done| |done]; injection E as <- <- end);
      try (econstructor; eauto; (apply Ha; [set_solver|done])).
    apply HT_math; [done| |by rewrite <- (length_map erase)].
    apply Forall_elem. intros a Hin. match goal with H : Forall _ _ |- _ => rewrite Forall_elem in H; destruct (H (erase a)) as (ta & Hta & Hacc) end.
    { apply list_elem_of_fmap. by exists a. }
    exists ta. split; [by apply Ha|done].
  - assert (forall ta, has_type (erase a) ta -> has_type a ta) as Ha by (intros; apply IH; [set_solver|done]).
    inversion H; subst; [eapply HT_not|eapply HT_sign]; eauto.
  - assert (forall ta, has_type (erase l) ta -> has_type l ta) as Hl by (intros; apply IH; [set_solver|done]).
    assert (forall ta, has_type (erase r) ta -> has_type r ta) as Hr by (intros; apply IH; [set_solver|done]).
    inversion H; subst; [eapply HT_logic|eapply HT_compare|eapply HT_concat|eapply HT_arith]; eauto.
  - assert (forall ta, has_type (erase c) ta -> has_type c ta) as Hc by (intros; apply IH; [set_solver|done]).
    assert (forall ta, has_type (erase y) ta -> has_type y ta) as Hy by (intros; apply IH; [set_solver|done]).
    assert (forall ta, has_type (erase no) ta -> has_type no ta) as Hn by (intros; apply IH; [set_solver|done]).
    inversion H; subst; [eapply HT_cond_same|eapply HT_cond_mixed]; eauto.
Qed.
