(* ===== verification/Runtime.v ===== *)
(** * The interpreter

    Models [billing-expression/runtime.ts]: request paths, the Go-like text of
    JSON values, times in a billing zone, the class [BillingRuntime] with its
    mutable fields as an explicit state, [evaluateBillingCondition] and
    [evaluateBillingExpression].  Each private method is one definition over the
    evaluator it calls back; [evaluate] ties the knot by recursion on the node. *)
From Stdlib Require Import SpecFloat.
From stdpp Require Import strings gmap.
From S2P Require Import Prelude JsString JsNumber JsValue Syntax Parser Compile.

#[local] Open Scope Z_scope.

(** ** [readRequestPath] *)
Definition path_reserved : jstr := js "*?[]()|@!".

(** The keys of a path: [part] is the key read so far. *)
Fixpoint split_path (s : jstr) (part : jstr) : option (list jstr) :=
  match s with
  | [] => Some [part]
  | c :: s1 =>
      if c =? 92 then
        match s1 with
        | [] => None
        | e :: s2 => split_path s2 (part ++ [e])
        end
      else if c =? 46 then cons part <$> split_path s1 []
      else if bool_decide (c ∈ path_reserved) then None
      else split_path s1 (part ++ [c])
  end.

Definition all_digits (s : jstr) : bool :=
  match s with [] => false | _ => forallb is_digit s end.

Definition array_index (l : list jsval) (key : jstr) : jsval :=
  let index := to_number key in
  if is_safe_integer index then
    default J_undefined (num_to_Z index ≫= fun z => l !! Z.to_nat z)
  else J_undefined.

Fixpoint walk_path (path : jstr) (parts : list jstr) (v : jsval) : outcome jsval :=
  match parts with
  | [] => Ok (match v with J_undefined => J_null | _ => v end)
  | key :: rest =>
      match v with
      | J_arr l =>
          if bool_decide (key = js "#") then
            match rest with
            | [] => Ok (J_num (n_of_Z (Z.of_nat (length l))))
            | _ => throw C_unsupported path None
            end
          else if all_digits key then walk_path path rest (array_index l key)
          else Ok J_null
      | J_obj props =>
          match own_property props key with
          | Some v => walk_path path rest v
          | None => Ok J_null
          end
      | _ => Ok J_null
      end
  end.

Definition readRequestPath (body : jsval) (rawPath : jstr) : outcome jsval :=
  let path := trim rawPath in
  match path with
  | [] => Ok J_null
  | _ =>
      match split_path path [] with
      | None => throw C_unsupported path None
      | Some parts => walk_path path parts body
      end
  end.

(** ** [billingString] *)
Fixpoint insert_sorted {A} (x : jstr * A) (l : list (jstr * A)) : list (jstr * A) :=
  match l with
  | [] => [x]
  | y :: l' => if str_ltb (fst x) (fst y) then x :: l else y :: insert_sorted x l'
  end.

Definition sort_entries {A} (l : list (jstr * A)) : list (jstr * A) :=
  foldr insert_sorted [] (rev l).

Definition number_string (x : num) : outcome jstr :=
  if negb (is_finite x) then throw C_number (js "request number") None
  else match x with
       | S754_zero true => Ok (js "-0")
       | _ =>
           let '(mantissa, exponent) := to_exponential x in
           if (6 <=? exponent) || (exponent <? -4) then
             let digits := dec_of_Z (Z.abs exponent) in
             Ok (mantissa ++ js "e" ++ (if exponent <? 0 then js "-" else js "+")
                 ++ replicate (2 - length digits) 48 ++ digits)
           else Ok (num_to_string x)
       end.

Fixpoint billingString (v : jsval) (depth : Z) : outcome jstr :=
  if 128 <? depth then throw C_limit (js "request value depth") None else
  match v with
  | J_undefined | J_null => Ok (js "<nil>")
  | J_bool b => Ok (if b then js "true" else js "false")
  | J_str s => Ok s
  | J_num x => number_string x
  | J_arr l =>
      let* items := rseq (map (fun x => billingString x (depth + 1)) l) in
      Ok (js "[" ++ join (js " ") items ++ js "]")
  | J_obj props =>
      let* items :=
        rseq (map (fun '(k, t) => let* t := t in Ok (k ++ js ":" ++ t))
          (sort_entries (map (fun '(k, x) => (k, billingString x (depth + 1))) props))) in
      Ok (js "map[" ++ join (js " ") items ++ js "]")
  end.

(** ** [timeInBillingZone] *)
Record time_values := TimeValues {
  tv_hour : num;
  tv_minute : num;
  tv_weekday : num;
  tv_month : num;
  tv_day : num;
}.

Definition time_value (v : time_values) (t : time_function) : num :=
  match t with
  | T_hour => tv_hour v
  | T_minute => tv_minute v
  | T_weekday => tv_weekday v
  | T_month => tv_month v
  | T_day => tv_day v
  end.

Definition is_zone_char (c : Z) : bool := is_word c || (c =? 43) || (c =? 45).

(** [/^[A-Z][A-Za-z0-9_+-]*(?:\/[A-Z][A-Za-z0-9_+-]* )*$/]: segments separated
    by slashes, each of which starts with a capital.  [fresh] says that a
    segment must start here. *)
Fixpoint zone_syntax (s : jstr) (fresh : bool) : bool :=
  match s with
  | [] => negb fresh
  | c :: s1 =>
      if fresh then is_upper c && zone_syntax s1 false
      else if c =? 47 then zone_syntax s1 true
      else is_zone_char c && zone_syntax s1 false
  end.

(** [Array.prototype.indexOf], -1 when absent. *)
Definition index_of (l : list jstr) (s : jstr) : Z :=
  match list_find (fun x => x = s) l with
  | Some (i, _) => Z.of_nat i
  | None => -1
  end.

Section WithPlatform.
Context `{Platform}.

Definition utc_values (t : Z) : time_values :=
  TimeValues (n_of_Z (getUTCHours t)) (n_of_Z (getUTCMinutes t)) (n_of_Z (getUTCDay t))
             (n_of_Z (getUTCMonth t + 1)) (n_of_Z (getUTCDate t)).

(** The [try] block: a formatter for the zone unless a [RangeError] is thrown. *)
Definition zone_formatter (timezone : jstr) : option (Z -> time_parts) :=
  if negb (zone_syntax timezone true) then None
  else
    match pf_intl timezone with
    | None => None
    | Some (resolved, parts) =>
        if bool_decide (pf_toLowerCase resolved = pf_toLowerCase timezone)
           && bool_decide (resolved <> timezone)
        then None else Some parts
    end.

Definition timeInBillingZone (now : date) (zone : jstr) : outcome time_values :=
  match now with
  | None => throw C_type (js "simulation time") None
  | Some t =>
      let timezone := match trim zone with [] => js "UTC" | z => z end in
      if bool_decide (timezone = js "Local")
      then throw C_unsupported (js "server Local timezone") None
      else
        match zone_formatter timezone with
        | None => Ok (utc_values t)
        | Some parts =>
            let p := parts t in
            Ok (TimeValues (to_number (tp_hour p)) (to_number (tp_minute p))
                  (n_of_Z (index_of WEEKDAYS (tp_weekday p)))
                  (to_number (tp_month p)) (to_number (tp_day p)))
        end
  end.

(** ** The runtime *)
Record request := Request {
  rq_body : jsval;
  rq_headers : list (jstr * jsval);
}.

(** [BillingSimulationContext].  A token entry may be explicitly undefined. *)
Record context := Context_ {
  cx_tokens : option (list (token_variable * option num));
  cx_request : option request;
  cx_usage : option (list (jstr * jsval));
  cx_now : option date;
  cx_imageCount : option num;
}.

Definition empty_context : context := Context_ None None None None None.

Record rule_trace := Trace {
  tr_cond : jstr;
  tr_multiplier : num;
  tr_matched : bool;
}.

Inductive billing_unit := Unit_token | Unit_request.

(** The fields of [BillingRuntime] that evaluation changes. *)
Record runtime := Runtime_ {
  rt_rules : list rule_trace;
  rt_matchedTier : jstr;
  rt_billingUnit : billing_unit;
  rt_fixedPrice : option num;
  rt_timeValues : gmap jstr time_values;
  rt_depth : Z;
}.

(** The fields that stay as the constructor set them. *)
Record env := Env {
  ev_compiled : compiled_expression;
  ev_context : context;
  ev_now : date;
  ev_headers : gmap jstr jstr;
}.

Definition read_header (h : jstr * jsval) (m : gmap jstr jstr) : outcome (gmap jstr jstr) :=
  match snd h with
  | J_str raw =>
      let key := pf_toLowerCase (trim (fst h)) in
      let value := trim raw in
      Ok (if bool_decide (key <> []) && bool_decide (value <> [])
          then <[key := value]> m else m)
  | _ => throw C_type (js "request header") None
  end.

(** The constructor. *)
Definition new_runtime (compiled : compiled_expression) (cx : context)
  : outcome (env * runtime) :=
  let now := default pf_now (cx_now cx) in
  let rules := map (fun r => Trace (rl_cond r) (rl_multiplier r) false) (ce_rules compiled) in
  let* headers := rfold read_header (default [] (rq_headers <$> cx_request cx)) ∅ in
  Ok (Env compiled cx now headers,
      Runtime_ rules [] Unit_token None ∅ 0).

Definition rvalue : Type := jsval * bool.
Notation evaluator := (node -> runtime -> outcome (rvalue * runtime)).

Definition set_rt_depth (d : Z) (rt : runtime) : runtime :=
  Runtime_ (rt_rules rt) (rt_matchedTier rt) (rt_billingUnit rt) (rt_fixedPrice rt)
           (rt_timeValues rt) d.

(** [boolean], [numeric] and [string]: evaluate and check the kind. *)
Definition booleanOf (ev : evaluator) (n : node) (rt : runtime) : outcome (bool * runtime) :=
  let* '((v, _), rt) := ev n rt in
  match v with
  | J_bool b => Ok (b, rt)
  | _ => throw C_type (js "boolean condition") (Some (n_start n))
  end.

Definition numericOf (ev : evaluator) (n : node) (rt : runtime)
  : outcome (num * bool * runtime) :=
  let* '((v, integer), rt) := ev n rt in
  match v with
  | J_num x => Ok (x, integer, rt)
  | _ => throw C_type (js "numeric operand") (Some (n_start n))
  end.

Definition stringOf (ev : evaluator) (n : node) (rt : runtime) : outcome (jstr * runtime) :=
  let* '((v, _), rt) := ev n rt in
  match v with
  | J_str s => Ok (s, rt)
  | _ => throw C_type (js "string argument") (Some (n_start n))
  end.

(** The comparison operators on two numbers or two strings. *)
Definition compare_values (o : binary_operator) (a b : jsval) : option bool :=
  match a, b with
  | J_num x, J_num y =>
      match o with
      | B_lt => Some (n_ltb x y)
      | B_le => Some (n_leb x y)
      | B_gt => Some (n_ltb y x)
      | B_ge => Some (n_leb y x)
      | _ => None
      end
  | J_str x, J_str y =>
      match o with
      | B_lt => Some (str_ltb x y)
      | B_le => Some (str_leb x y)
      | B_gt => Some (str_ltb y x)
      | B_ge => Some (str_leb y x)
      | _ => None
      end
  | _, _ => None
  end.

(** What [binary] computes from the values of its operands. *)
Definition binary_values (o : binary_operator) (pos : nat) (l r : rvalue) : outcome rvalue :=
  let '(a, ia) := l in
  let '(b, ib) := r in
  match o with
  | B_eq | B_ne =>
      if negb (is_null a) && negb (is_null b)
         && (is_object a || is_object b)
      then throw C_unsupported (js "object comparison") (Some pos)
      else
        let equal := strict_equal a b in
        Ok (J_bool (match o with B_eq => equal | _ => negb equal end), false)
  | _ =>
      match o, a, b with
      | B_add, J_str x, J_str y => Ok (J_str (x ++ y), false)
      | _, _, _ =>
          match compare_values o a b with
          | Some c => Ok (J_bool c, false)
          | None =>
              match a, b with
              | J_num x, J_num y =>
                  let integer := ia && ib in
                  match o with
                  | B_add => Ok (J_num (n_add x y), integer)
                  | B_sub => Ok (J_num (n_sub x y), integer)
                  | B_mul => Ok (J_num (n_mul x y), integer)
                  | B_div => Ok (J_num (n_div x y), false)
                  | B_mod =>
                      if integer then Ok (J_num (n_rem x y), true)
                      else throw C_type (js "integer modulo") (Some pos)
                  | _ => throw C_unsupported (binary_text o) (Some pos)
                  end
              | _, _ => throw C_type (binary_text o) (Some pos)
              end
          end
      end
  end.

(** [binary]: the logical operators evaluate their right operand on demand. *)
Definition binaryOf (ev : evaluator) (o : binary_operator) (l r : node) (pos : nat)
    (rt : runtime) : outcome (rvalue * runtime) :=
  match o with
  | B_and =>
      let* '(a, rt) := booleanOf ev l rt in
      if a then let* '(b, rt) := booleanOf ev r rt in Ok ((J_bool b, false), rt)
      else Ok ((J_bool false, false), rt)
  | B_or =>
      let* '(a, rt) := booleanOf ev l rt in
      if a then Ok ((J_bool true, false), rt)
      else let* '(b, rt) := booleanOf ev r rt in Ok ((J_bool b, false), rt)
  | _ =>
      let* '(a, rt) := ev l rt in
      let* '(b, rt) := ev r rt in
      let* v := binary_values o pos a b in
      Ok (v, rt)
  end.

(** Effects of [tier] and [fixed] on the runtime. *)
Definition record_tier (name : jstr) (rt : runtime) : runtime :=
  Runtime_ (rt_rules rt) name (rt_billingUnit rt) (rt_fixedPrice rt)
           (rt_timeValues rt) (rt_depth rt).

Definition record_fixed (amount : num) (rt : runtime) : runtime :=
  Runtime_ (rt_rules rt) (rt_matchedTier rt) Unit_request (Some amount)
           (rt_timeValues rt) (rt_depth rt).

Definition record_time (zone : jstr) (v : time_values) (rt : runtime) : runtime :=
  Runtime_ (rt_rules rt) (rt_matchedTier rt) (rt_billingUnit rt) (rt_fixedPrice rt)
           (<[zone := v]> (rt_timeValues rt)) (rt_depth rt).

(** The memoised reading of a zone. *)
Definition read_time (ev_ : env) (zone : jstr) (rt : runtime)
  : outcome (time_values * runtime) :=
  match rt_timeValues rt !! zone with
  | Some values => Ok (values, rt)
  | None =>
      let* values := timeInBillingZone (ev_now ev_) zone in
      Ok (values, record_time zone values rt)
  end.

Definition value_only {A} (v : A) (rt : runtime) : outcome ((A * bool) * runtime) :=
  Ok ((v, false), rt).

(** [call] *)
Definition callOf (ev_ : env) (ev : evaluator) (f : billing_function) (args : list node)
    (pos : nat) (rt : runtime) : outcome (rvalue * runtime) :=
  let cx := ev_context ev_ in
  match f, args with
  | F_fixed, a0 :: _ =>
      let* '(amount, _, rt) := numericOf ev a0 rt in
      value_only (J_num (n_mul amount n_million)) (record_fixed amount rt)
  | F_tier, a0 :: a1 :: _ =>
      let* '(name, rt) := stringOf ev a0 rt in
      let* '(value, _, rt) := numericOf ev a1 rt in
      value_only (J_num value) (record_tier name rt)
  | F_param, a0 :: _ =>
      let* '(path, rt) := stringOf ev a0 rt in
      match cx_request cx with
      | None => throw C_missing_context (js "request body") (Some pos)
      | Some rq =>
          let* v := readRequestPath (rq_body rq) path in value_only v rt
      end
  | F_header, a0 :: _ =>
      let* '(name, rt) := stringOf ev a0 rt in
      let name := pf_toLowerCase (trim name) in
      match cx_request cx with
      | None => throw C_missing_context (js "request headers") (Some pos)
      | Some _ => value_only (J_str (default [] (ev_headers ev_ !! name))) rt
      end
  | F_u, a0 :: _ =>
      let* '(name, rt) := stringOf ev a0 rt in
      match cx_usage cx with
      | None => throw C_missing_context (js "task usage") (Some pos)
      | Some usage => value_only (default J_null (own_property usage name)) rt
      end
  | F_has, a0 :: a1 :: _ =>
      let* '((source, _), rt) := ev a0 rt in
      let* '(substring, rt) := stringOf ev a1 rt in
      if negb (is_nullish source) && bool_decide (substring <> []) then
        let* text := billingString source 0 in
        value_only (J_bool (includes substring text)) rt
      else value_only (J_bool false) rt
  | F_min, a0 :: a1 :: _ =>
      let* '(x, _, rt) := numericOf ev a0 rt in
      let* '(y, _, rt) := numericOf ev a1 rt in
      value_only (J_num (n_min x y)) rt
  | F_max, a0 :: a1 :: _ =>
      let* '(x, _, rt) := numericOf ev a0 rt in
      let* '(y, _, rt) := numericOf ev a1 rt in
      value_only (J_num (n_max x y)) rt
  | F_abs, a0 :: _ =>
      let* '(x, _, rt) := numericOf ev a0 rt in value_only (J_num (n_abs x)) rt
  | F_floor, a0 :: _ =>
      let* '(x, _, rt) := numericOf ev a0 rt in value_only (J_num (n_floor x)) rt
  | F_ceil, a0 :: _ =>
      let* '(x, _, rt) := numericOf ev a0 rt in value_only (J_num (n_ceil x)) rt
  | F_time t, a0 :: _ =>
      let* '(zone, rt) := stringOf ev a0 rt in
      let* '(values, rt) := read_time ev_ (trim zone) rt in
      Ok ((J_num (time_value values t), true), rt)
  | _, _ => type_error
  end.

Definition lookup_token (tokens : option (list (token_variable * option num)))
    (v : token_variable) : option num :=
  match tokens with
  | None => None
  | Some l => List.find (fun p => bool_decide (fst p = v)) l ≫= snd
  end.

Definition variableOf (cx : context) (v : token_variable) (pos : nat) : outcome rvalue :=
  match v with
  | V_image_count =>
      let x := default n_one (cx_imageCount cx) in
      if negb (is_integer x) || n_ltb x n_one || n_ltb (n_of_Z 128) x
      then throw C_number (js "image_count must be between 1 and 128") (Some pos)
      else Ok (J_num x, false)
  | _ =>
      match lookup_token (cx_tokens cx) v with
      | None => throw C_missing_context (variable_text v) (Some pos)
      | Some x =>
          if n_ltb x n_zero then throw C_number (variable_text v) (Some pos)
          else Ok (J_num x, false)
      end
  end.

Definition literalOf (v : literal) : rvalue :=
  match v with
  | L_num x integer => (J_num x, integer)
  | L_str s => (J_str s, false)
  | L_bool b => (J_bool b, false)
  | L_nil => (J_null, false)
  end.

(** [requestRules[findIndex(rule => rule.node === node)].matched = true] *)
Fixpoint mark_rule (rules : list request_rule) (n : node) (traces : list rule_trace)
  : list rule_trace :=
  match rules, traces with
  | r :: rules, t :: traces =>
      if same_node (rl_node r) n then Trace (tr_cond t) (tr_multiplier t) true :: traces
      else t :: mark_rule rules n traces
  | _, _ => traces
  end.

Definition record_rule (ev_ : env) (n : node) (rt : runtime) : runtime :=
  Runtime_ (mark_rule (ce_rules (ev_compiled ev_)) n (rt_rules rt)) (rt_matchedTier rt)
           (rt_billingUnit rt) (rt_fixedPrice rt) (rt_timeValues rt) (rt_depth rt).

Definition evaluateNode (ev_ : env) (ev : evaluator) (n : node) (rt : runtime)
  : outcome (rvalue * runtime) :=
  match n with
  | Lit v _ _ => Ok (literalOf v, rt)
  | Var v s _ => let* x := variableOf (ev_context ev_) v s in Ok (x, rt)
  | Cond c y no _ _ =>
      let* '(condition, rt) := booleanOf ev c rt in
      if condition then ev y (record_rule ev_ n rt) else ev no rt
  | Un o a _ _ =>
      match o with
      | U_not => let* '(b, rt) := booleanOf ev a rt in value_only (J_bool (negb b)) rt
      | _ =>
          let* '(x, integer, rt) := numericOf ev a rt in
          Ok ((J_num (match o with U_minus => n_neg x | _ => x end), integer), rt)
      end
  | Bin o l r s _ => binaryOf ev o l r s rt
  | Call f args s _ => callOf ev_ ev f args s rt
  end.

(** The check of [evaluate] on a node's value. *)
Definition check_number (pos : nat) (v : rvalue) : outcome rvalue :=
  match v with
  | (J_num x, integer) =>
      if negb (is_finite x) then throw C_number (js "non-finite result") (Some pos)
      else if integer && negb (is_safe_integer x)
      then throw C_unsupported (js "integer precision") (Some pos)
      else Ok v
  | _ => Ok v
  end.

Fixpoint evaluate (ev_ : env) (n : node) (rt : runtime) : outcome (rvalue * runtime) :=
  let rt := set_rt_depth (rt_depth rt + 1) rt in
  if 256 <? rt_depth rt then throw C_limit (js "evaluation depth") None else
  let* '(v, rt) := evaluateNode ev_ (evaluate ev_) n rt in
  let* v := check_number (n_start n) v in
  Ok (v, set_rt_depth (rt_depth rt - 1) rt).

(** ** Entry points *)
Definition evaluateBillingCondition (compiled : compiled_expression) (n : node) (now : date)
  : option bool :=
  match
    (let* '(ev_, rt) := new_runtime compiled (Context_ None None None (Some now) None) in
     evaluate ev_ n rt)
  with
  | Ok ((J_bool b, _), _) => Some b
  | _ => None
  end.

Record evaluation_success := Success {
  es_cost : num;
  es_billingUnit : billing_unit;
  es_fixedPrice : option num;
  es_imageCount : option num;
  es_matchedTier : jstr;
  es_requestRules : list rule_trace;
}.

Definition check_token (p : token_variable * option num) (_ : unit) : outcome unit :=
  match snd p with
  | Some x =>
      if negb (is_finite x) || n_ltb x n_zero
      then throw C_number (variable_text (fst p)) None else Ok tt
  | None => throw C_number (variable_text (fst p)) None
  end.

(** The body of the [try] block of [evaluateBillingExpression]. *)
Definition evaluate_body (compiled : compiled_expression) (cx : context)
  : outcome evaluation_success :=
  let* _ := rfold check_token (default [] (cx_tokens cx)) tt in
  let* '(ev_, rt) := new_runtime compiled cx in
  let* '((v, _), rt) := evaluate ev_ (ce_ast compiled) rt in
  match v with
  | J_num x =>
      if negb (is_finite x) || n_ltb x n_zero
      then throw C_number (js "billing result") None
      else Ok (Success x (rt_billingUnit rt) (rt_fixedPrice rt)
                 (if bool_decide (V_image_count ∈ ce_variables compiled)
                  then Some (default n_one (cx_imageCount cx)) else None)
                 (rt_matchedTier rt) (rt_rules rt))
  | _ => throw C_number (js "billing result") None
  end.

Inductive evaluation :=
| Evaluated (s : evaluation_success)
| NotEvaluated (f : failure).

Definition evaluate_compiled (c : compilation) (cx : context) : evaluation :=
  match c with
  | Failed f => NotEvaluated f
  | Ready compiled =>
      match evaluate_body compiled cx with
      | Ok s => Evaluated s
      | Err e => NotEvaluated (expressionFailure e)
      end
  end.

(** On a source text: compiled through the cache, which is returned. *)
Definition evaluateBillingExpression (source : jstr) (cx : context) (c : cache)
  : evaluation * cache :=
  let '(compiled, c) := compileBillingExpression source c in
  (evaluate_compiled compiled cx, c).

End WithPlatform.
