(* ===== verification/RuntimeFacts.v ===== *)
(** * Correctness of the interpreter

    Invariants of evaluation (depth, rule traces, memoised times), the safety of
    the numbers it returns, soundness of the static types at run time, and what
    a successful evaluation guarantees. *)
From Stdlib Require Import SpecFloat.
From stdpp Require Import strings gmap.
From S2P Require Import Prelude JsString JsNumber JsValue Syntax SyntaxFacts Parser ParserFacts Compile CompileFacts Runtime.

#[local] Open Scope Z_scope.

Section Facts.
Context `{Platform}.

Notation evaluator := (node -> runtime -> outcome (rvalue * runtime)).

Lemma evaluate_eq ev_ n rt : evaluate ev_ n rt =
  (let rt := set_rt_depth (rt_depth rt + 1) rt in
   if 256 <? rt_depth rt then throw C_limit (js "evaluation depth") None else
   let* '(v, rt) := evaluateNode ev_ (evaluate ev_) n rt in
   let* v := check_number (n_start n) v in
   Ok (v, set_rt_depth (rt_depth rt - 1) rt)).
Proof. by destruct n. Qed.

(** ** Inversion of the helpers *)
Lemma booleanOf_ok ev n rt b rt' : booleanOf ev n rt = Ok (b, rt') <->
  exists i, ev n rt = Ok ((J_bool b, i), rt').
Proof.
  unfold booleanOf. split.
  - intros H'. apply rbind_ok in H' as ([[v i] r] & E & H'). destruct v; simplify_eq. eauto.
  - intros [i ->]. done.
Qed.

Lemma numericOf_ok ev n rt x i rt' : numericOf ev n rt = Ok (x, i, rt') <->
  ev n rt = Ok ((J_num x, i), rt').
Proof.
  unfold numericOf. split.
  - intros H'. apply rbind_ok in H' as ([[v j] r] & E & H'). destruct v; by simplify_eq.
  - by intros ->.
Qed.

Lemma stringOf_ok ev n rt s rt' : stringOf ev n rt = Ok (s, rt') <->
  exists i, ev n rt = Ok ((J_str s, i), rt').
Proof.
  unfold stringOf. split.
  - intros H'. apply rbind_ok in H' as ([[v i] r] & E & H'). destruct v; simplify_eq. eauto.
  - intros [i ->]. done.
Qed.

(** ** Relations preserved by evaluation

    A relation between runtimes that every update of the runtime satisfies
    relates the runtimes before and after the evaluation of a node; the updates
    by [tier] and [fixed] only count when the tree calls them. *)
Section Preserve.
Variable ev_ : env.
Variable root : node.
Variable R : runtime -> runtime -> Prop.
Hypothesis R_refl : forall rt, R rt rt.
Hypothesis R_trans : forall a b c, R a b -> R b c -> R a c.
Hypothesis R_depth : forall rt rt', R (set_rt_depth (rt_depth rt + 1) rt) rt' ->
  R rt (set_rt_depth (rt_depth rt' - 1) rt').
Hypothesis R_tier : uses_function F_tier root ->
  forall name rt, R rt (record_tier name rt).
Hypothesis R_fixed : uses_function F_fixed root ->
  forall x rt, R rt (record_fixed x rt).
Hypothesis R_time : forall zone v rt, timeInBillingZone (ev_now ev_) zone = Ok v ->
  R rt (record_time zone v rt).
Hypothesis R_rule : forall n rt, R rt (record_rule ev_ n rt).

Definition preserves (ev : evaluator) (n : node) : Prop :=
  forall rt v rt', ev n rt = Ok (v, rt') -> R rt rt'.

Lemma preserves_boolean ev n rt b rt' :
  preserves ev n -> booleanOf ev n rt = Ok (b, rt') -> R rt rt'.
Proof. intros Hp E. apply booleanOf_ok in E as [i E]. eauto. Qed.
Lemma preserves_numeric ev n rt x i rt' :
  preserves ev n -> numericOf ev n rt = Ok (x, i, rt') -> R rt rt'.
Proof. intros Hp E. apply numericOf_ok in E. eauto. Qed.
Lemma preserves_string ev n rt s rt' :
  preserves ev n -> stringOf ev n rt = Ok (s, rt') -> R rt rt'.
Proof. intros Hp E. apply stringOf_ok in E as [i E]. eauto. Qed.

Lemma preserves_time zone rt v rt' : read_time ev_ zone rt = Ok (v, rt') -> R rt rt'.
Proof. unfold read_time. intros E. rinv; eauto. Qed.

Ltac chain_R :=
  repeat match goal with
  | E : booleanOf _ _ _ = Ok _ |- _ => apply preserves_boolean in E; [|by eauto]
  | E : numericOf _ _ _ = Ok _ |- _ => apply preserves_numeric in E; [|by eauto]
  | E : stringOf _ _ _ = Ok _ |- _ => apply preserves_string in E; [|by eauto]
  | E : read_time _ _ _ = Ok _ |- _ => apply preserves_time in E
  | Hp : preserves ?ev ?n, E : ?ev ?n _ = Ok _ |- _ => apply Hp in E
  end; eauto 6.

Lemma preserves_call ev f args pos rt v rt' : Forall (preserves ev) args ->
  uses_function f root -> callOf ev_ ev f args pos rt = Ok (v, rt') -> R rt rt'.
Proof.
  intros Ha Hu E. unfold callOf, value_only in E.
  destruct f; destruct args as [|a0 [|a1 args]]; simpl in E; try discriminate E;
    repeat match goal with Hf : Forall _ (_ :: _) |- _ => inversion_clear Hf end;
    rinv; chain_R.
Qed.

Lemma preserves_binary ev o l r pos rt v rt' : preserves ev l -> preserves ev r ->
  binaryOf ev o l r pos rt = Ok (v, rt') -> R rt rt'.
Proof. intros Hl Hr E. unfold binaryOf in E. destruct o; rinv; chain_R. Qed.

Lemma preserves_node ev n rt v rt' : Forall (preserves ev) (children n) ->
  n ∈ postorder root -> evaluateNode ev_ ev n rt = Ok (v, rt') -> R rt rt'.
Proof.
  intros Hc Hin E. destruct n; simpl in *;
    repeat match goal with Hf : Forall _ (_ :: _) |- _ => inversion_clear Hf end.
  - rinv. done.
  - rinv. done.
  - eapply preserves_call; [exact Hc| |exact E]. unfold uses_function. eauto.
  - unfold value_only in E. destruct o; rinv; chain_R.
  - eapply preserves_binary; [| |exact E]; assumption.
  - rinv; chain_R.
Qed.

Lemma evaluate_preserves n : n ∈ postorder root -> preserves (evaluate ev_) n.
Proof.
  induction n as [n IH] using node_ind_children. intros Hin rt v rt' E.
  rewrite evaluate_eq in E. simpl in E. destruct (256 <? rt_depth rt + 1); [done|].
  apply rbind_ok in E as ([v1 rt1] & E1 & E). rinv.
  apply R_depth. eapply preserves_node; [|exact Hin|exact E1].
  rewrite Forall_elem in *. eauto using postorder_trans, postorder_child.
Qed.
End Preserve.

Lemma evaluate_depth ev_ n rt v rt' :
  evaluate ev_ n rt = Ok (v, rt') -> rt_depth rt' = rt_depth rt.
Proof.
  apply (evaluate_preserves ev_ n (fun a b => rt_depth b = rt_depth a)); simpl; try done;
    [congruence|lia|apply postorder_self].
Qed.

(** Rule traces keep their conditions and multipliers, and only ever turn from
    unmatched to matched. *)
Definition trace_le (a b : rule_trace) : Prop :=
  tr_cond a = tr_cond b /\ tr_multiplier a = tr_multiplier b /\
  (tr_matched a = true -> tr_matched b = true).

Lemma trace_le_refl l : Forall2 trace_le l l.
Proof. induction l; constructor; [by split_and!|done]. Qed.

Lemma trace_le_trans l1 l2 l3 :
  Forall2 trace_le l1 l2 -> Forall2 trace_le l2 l3 -> Forall2 trace_le l1 l3.
Proof.
  intros H1. revert l3. induction H1 as [|a b l1 l2 Hab _ IH]; intros l3 H2;
    inversion_clear H2; constructor; [|by apply IH].
  destruct Hab as (? & ? & ?). match goal with Hx : trace_le b _ |- _ => destruct Hx as (? & ? & ?) end.
  split_and!; [congruence|congruence|auto].
Qed.

Lemma mark_rule_le rules n l : Forall2 trace_le l (mark_rule rules n l).
Proof.
  revert l. induction rules as [|r rules IH]; intros [|t l]; simpl; try apply trace_le_refl.
  destruct (same_node (rl_node r) n); constructor; try apply trace_le_refl; try apply IH;
    by split_and!.
Qed.

Lemma evaluate_traces ev_ n rt v rt' :
  evaluate ev_ n rt = Ok (v, rt') -> Forall2 trace_le (rt_rules rt) (rt_rules rt').
Proof.
  apply (evaluate_preserves ev_ n (fun a b => Forall2 trace_le (rt_rules a) (rt_rules b)));
    simpl; try done; intros; try apply trace_le_refl; try apply mark_rule_le;
    try apply postorder_self. by eapply trace_le_trans.
Qed.

(** ** Values *)
Lemma check_number_ok pos v v' : check_number pos v = Ok v' ->
  v' = v /\ match v with
            | (J_num x, i) => is_finite x = true /\ (i = true -> is_safe_integer x = true)
            | _ => True
            end.
Proof.
  unfold check_number. destruct v as [[] i]; intros E; rinv; try done.
  bsplit. split_and!; [done|done|]. intros ->. simpl in *. by bsplit.
Qed.

Lemma evaluate_inv ev_ n rt v rt' : evaluate ev_ n rt = Ok (v, rt') ->
  exists rt1, evaluateNode ev_ (evaluate ev_) n (set_rt_depth (rt_depth rt + 1) rt) = Ok (v, rt1) /\
    rt' = set_rt_depth (rt_depth rt1 - 1) rt1 /\ check_number (n_start n) v = Ok v.
Proof.
  rewrite evaluate_eq. cbv zeta. intros E. destruct (256 <? _); [done|].
  apply rbind_ok in E as ([v1 rt1] & E1 & E). apply rbind_ok in E as (v2 & E2 & E).
  destruct (check_number_ok _ _ _ E2) as [-> _]. rinv. eauto.
Qed.

(** ** Soundness of the static types *)

(** The run-time values an expression of a static type may have.  A number is a
    string when it is the concatenation of two operands of dynamic type. *)
Definition conforms (v : jsval) (t : expression_type) : Prop :=
  match t with
  | Ty_boolean => exists b, v = J_bool b
  | Ty_string => exists s, v = J_str s
  | Ty_nil => v = J_null
  | Ty_number => (exists x, v = J_num x) \/ (exists s, v = J_str s)
  | Ty_dynamic => True
  end.

Lemma binary_compare_bool o pos a b v : o ∈ [B_eq; B_ne; B_lt; B_le; B_gt; B_ge] ->
  binary_values o pos a b = Ok v -> exists c, fst v = J_bool c.
Proof.
  intros Ho E. destruct a as [a ia], b as [b ib]. unfold binary_values in E.
  repeat (apply elem_of_cons in Ho as [->|Ho];
    [simpl in E; rinv; eauto; destruct a, b; simpl in *; simplify_eq; eauto|]).
  by apply not_elem_of_nil in Ho.
Qed.

Lemma binary_arith_value o pos a b v : o ∈ [B_add; B_sub; B_mul; B_div; B_mod] ->
  binary_values o pos a b = Ok v -> conforms (fst v) Ty_number.
Proof.
  intros Ho E. destruct a as [a ia], b as [b ib]. unfold binary_values in E.
  repeat (apply elem_of_cons in Ho as [->|Ho];
    [destruct a, b; simpl in E; simplify_eq; simpl; rinv; eauto|]).
  by apply not_elem_of_nil in Ho.
Qed.

Lemma typed_value ev_ n t : has_type n t -> forall rt v i rt',
  evaluate ev_ n rt = Ok ((v, i), rt') -> conforms v t.
Proof.
  induction 1; intros rt v0 i rt' E; apply evaluate_inv in E as (rt1 & E & _ & _); simpl in E.
  - destruct v; simpl in *; simplify_eq; simpl; eauto.
  - apply rbind_ok in E as (x & Ex & E). simplify_eq. unfold variableOf in Ex.
    destruct v; rinv; simpl; eauto.
  - unfold value_only in E. rinv. simpl. eauto.
  - destruct o; [done| |]; rinv; simpl; eauto.
  - destruct H0 as [->| ->]; simpl in E; rinv; simpl; eauto.
  - assert (exists a b, binary_values o s a b = Ok (v0, i)) as (a & b & Eb).
    { unfold binaryOf in E. repeat (apply elem_of_cons in H0 as [->|H0]; [rinv; eauto|]).
      by apply not_elem_of_nil in H0. }
    apply binary_compare_bool in Eb as [c Hc]; [|done]. simpl in *. eauto.
  - rinv.
    match goal with
    | E1 : evaluate _ l _ = Ok (?a, _), E2 : evaluate _ r _ = Ok (?b, _) |- _ =>
        destruct a as [a ia], b as [b ib]; apply IHhas_type1 in E1 as [? ->];
        apply IHhas_type2 in E2 as [? ->]
    end. simpl in *. simplify_eq. simpl. eauto.
  - assert (exists a b, binary_values o s a b = Ok (v0, i)) as (a & b & Eb).
    { unfold binaryOf in E. repeat (apply elem_of_cons in H0 as [->|H0]; [rinv; eauto|]).
      by apply not_elem_of_nil in H0. }
    by apply binary_arith_value in Eb.
  - rinv; eauto.
  - done.
  - done.
  - rinv. unfold value_only in *. rinv. simpl. eauto.
  - unfold callOf in E. rinv. simpl. eauto.
  - unfold callOf, value_only in E. rinv; simpl; eauto.
  - unfold callOf, value_only in E. rinv; simpl; eauto.
  - unfold callOf, value_only in E.
    destruct f; try done; simpl in *;
      destruct args as [|a0 [|a1 args]]; simplify_eq/=; rinv; simpl; eauto.
Qed.

(** ** Only billing errors are thrown *)
Ltac safe_auto :=
  repeat first [safe_step | match goal with |- safe (value_only _ _) => apply safe_ok end]; auto.

Lemma safe_rseq {A} (l : list (outcome A)) : Forall safe l -> safe (rseq l).
Proof. induction 1; simpl; safe_auto. Qed.

Lemma safe_walk path parts v : safe (walk_path path parts v).
Proof. revert v. induction parts as [|k parts IH]; intros v; simpl; safe_auto. Qed.

Lemma safe_path body p : safe (readRequestPath body p).
Proof. unfold readRequestPath. safe_auto; apply safe_walk. Qed.

Lemma insert_sorted_perm {A} (x : jstr * A) l : Permutation (x :: l) (insert_sorted x l).
Proof.
  induction l as [|y l IH]; simpl; [done|]. destruct (str_ltb x.1 y.1); [done|].
  rewrite <- IH. constructor.
Qed.

Lemma sort_entries_perm {A} (l : list (jstr * A)) : Permutation l (sort_entries l).
Proof.
  unfold sort_entries. transitivity (rev l); [apply Permutation_rev|].
  induction (rev l) as [|x k IH]; simpl; [done|].
  rewrite <- insert_sorted_perm. by constructor.
Qed.

Section JsvalInd.
Variable P : jsval -> Prop.
Hypothesis Hbase : forall v, is_object v = false -> P v.
Hypothesis Harr : forall l, Forall P l -> P (J_arr l).
Hypothesis Hobj : forall l, Forall (fun p => P (snd p)) l -> P (J_obj l).

Fixpoint jsval_ind_strong (v : jsval) : P v :=
  match v with
  | J_arr l => Harr l ((fix go l : Forall P l :=
      match l with
      | [] => List.Forall_nil _
      | x :: l => List.Forall_cons _ _ _ (jsval_ind_strong x) (go l)
      end) l)
  | J_obj l => Hobj l ((fix go l : Forall (fun p => P (snd p)) l :=
      match l with
      | [] => List.Forall_nil _
      | x :: l => List.Forall_cons _ _ _ (jsval_ind_strong (snd x)) (go l)
      end) l)
  | v => Hbase v eq_refl
  end.
End JsvalInd.

Lemma safe_billingString v depth : safe (billingString v depth).
Proof.
  revert depth. induction v as [v Hv|l IH|l IH] using jsval_ind_strong; intros depth.
  - destruct v; try done; simpl; safe_auto. unfold number_string. safe_auto.
  - simpl. safe_auto. apply safe_rseq. apply Forall_elem. intros c Hc.
    apply list_elem_of_fmap in Hc as (x & -> & Hx). rewrite Forall_elem in IH. by apply IH.
  - simpl. safe_auto. apply safe_rseq. apply Forall_elem. intros c Hc.
    apply list_elem_of_fmap in Hc as ([k t] & -> & Hx).
    apply (elem_of_Permutation_proper _ _ _ (sort_entries_perm _)) in Hx.
    apply list_elem_of_fmap in Hx as ([k' x] & [= -> ->] & Hx).
    rewrite Forall_elem in IH. safe_auto. apply (IH (k', x) Hx).
Qed.

Lemma safe_time now zone : safe (timeInBillingZone now zone).
Proof. unfold timeInBillingZone. safe_auto. Qed.

Lemma safe_values o pos a b : safe (binary_values o pos a b).
Proof. unfold binary_values. safe_auto. Qed.

Definition safe_ev (ev : evaluator) (n : node) : Prop := forall rt, safe (ev n rt).

Lemma safe_boolean ev n rt : safe_ev ev n -> safe (booleanOf ev n rt).
Proof. intros Hs. unfold booleanOf. safe_auto. Qed.
Lemma safe_numeric ev n rt : safe_ev ev n -> safe (numericOf ev n rt).
Proof. intros Hs. unfold numericOf. safe_auto. Qed.
Lemma safe_string ev n rt : safe_ev ev n -> safe (stringOf ev n rt).
Proof. intros Hs. unfold stringOf. safe_auto. Qed.

Lemma safe_read_time ev_ zone rt : safe (read_time ev_ zone rt).
Proof. unfold read_time. safe_auto. apply safe_time. Qed.

Ltac safe_ev_auto :=
  safe_auto; auto using safe_boolean, safe_numeric, safe_string, safe_read_time,
    safe_path, safe_billingString, safe_values, safe_ok, safe_throw.

Lemma safe_call ev_ ev f args pos rt : length args = arity f ->
  Forall (safe_ev ev) args -> safe (callOf ev_ ev f args pos rt).
Proof.
  intros Hl Ha. unfold callOf. cbv zeta.
  destruct f; simpl in Hl; destruct args as [|a0 [|a1 args]]; simplify_eq/=;
    repeat match goal with Hf : Forall _ (_ :: _) |- _ => inversion_clear Hf end;
    safe_ev_auto.
Qed.

Lemma evaluate_safe ev_ n : wf n -> safe_ev (evaluate ev_) n.
Proof.
  induction n as [n IH] using node_ind_children. intros Hw rt.
  apply wf_unfold in Hw as [Hok Hw]. rewrite evaluate_eq. cbv zeta.
  destruct (256 <? _); [done|]. apply safe_bind; [|intros [v rt1]; unfold check_number; safe_auto].
  assert (Forall (safe_ev (evaluate ev_)) (children n)) as Hc.
  { rewrite Forall_elem in *. auto. }
  destruct n; simpl in *;
    repeat match goal with Hf : Forall _ (_ :: _) |- _ => inversion_clear Hf end.
  - done.
  - safe_auto. unfold variableOf. safe_auto.
  - apply safe_call; [apply Hok|done].
  - safe_ev_auto.
  - unfold binaryOf. safe_ev_auto.
  - safe_ev_auto; apply H3.
Qed.

Lemma safe_new_runtime compiled cx : safe (new_runtime compiled cx).
Proof.
  unfold new_runtime. safe_auto.
  generalize (default [] (rq_headers <$> cx_request cx)) as l, (∅ : gmap jstr jstr) as m.
  intros l. induction l as [|h l IH]; intros m; simpl; safe_auto. unfold read_header. safe_auto.
Qed.

Lemma safe_evaluate_body source compiled cx :
  compile source = Ready compiled -> safe (evaluate_body compiled cx).
Proof.
  intros Hc. apply compile_ready in Hc as [? Hp]. apply parse_wf in Hp.
  unfold evaluate_body. apply safe_bind.
  { generalize (default [] (cx_tokens cx)) as l. intros l. generalize tt.
    induction l as [|p l IH]; intros u; simpl; safe_auto. unfold check_token. safe_auto. }
  intros _. apply safe_bind; [apply safe_new_runtime|]. intros [ev_ rt].
  apply safe_bind; [by apply evaluate_safe|]. intros [[v i] rt']. safe_auto.
Qed.

(** ** The memoised times *)

(** Every memoised reading is the reading of the zone at the evaluation's
    instant. *)
Definition times_ok (ev_ : env) (rt : runtime) : Prop :=
  forall zone v, rt_timeValues rt !! zone = Some v ->
    timeInBillingZone (ev_now ev_) zone = Ok v.

Lemma evaluate_times ev_ n rt v rt' :
  evaluate ev_ n rt = Ok (v, rt') -> times_ok ev_ rt -> times_ok ev_ rt'.
Proof.
  apply (evaluate_preserves ev_ n (fun a b => times_ok ev_ a -> times_ok ev_ b));
    unfold times_ok; simpl; auto using postorder_self.
  intros zone w rt0 Hw Hok z u Hz. destruct (decide (zone = z)) as [->|Hne].
  - rewrite lookup_insert_eq in Hz. by simplify_eq.
  - rewrite lookup_insert_ne in Hz by done. auto.
Qed.

(** Two runtimes that differ only in what they have memoised. *)
Record same_but_times (ev_ : env) (a b : runtime) : Prop := {
  st_rules : rt_rules a = rt_rules b;
  st_tier : rt_matchedTier a = rt_matchedTier b;
  st_unit : rt_billingUnit a = rt_billingUnit b;
  st_fixed : rt_fixedPrice a = rt_fixedPrice b;
  st_depth : rt_depth a = rt_depth b;
  st_left : times_ok ev_ a;
  st_right : times_ok ev_ b;
}.

(** Two computations with the same outcome up to related runtimes. *)
Definition agree {A} (ev_ : env) (x y : outcome (A * runtime)) : Prop :=
  match x, y with
  | Ok (a, r), Ok (b, r') => a = b /\ same_but_times ev_ r r'
  | Err e, Err e' => e = e'
  | _, _ => False
  end.

Definition agrees (ev_ : env) (ev : evaluator) (n : node) : Prop :=
  forall a b, same_but_times ev_ a b -> agree ev_ (ev n a) (ev n b).

Lemma agree_bind {A B} ev_ (x y : outcome (A * runtime)) (k k' : A * runtime -> outcome (B * runtime)) :
  agree ev_ x y ->
  (forall a r r', same_but_times ev_ r r' -> agree ev_ (k (a, r)) (k' (a, r'))) ->
  agree ev_ (rbind x k) (rbind y k').
Proof.
  destruct x as [[a r]|e], y as [[b r']|e']; simpl; try done.
  intros [-> Hs] Hk. by apply Hk.
Qed.

Lemma agree_ret {A} ev_ (a : A) r r' : same_but_times ev_ r r' -> agree ev_ (Ok (a, r)) (Ok (a, r')).
Proof. done. Qed.

Lemma agree_pure {A B} ev_ (x : outcome A) (k k' : A -> outcome (B * runtime)) :
  (forall a, agree ev_ (k a) (k' a)) -> agree ev_ (rbind x k) (rbind x k').
Proof. destruct x; simpl; auto. Qed.

Lemma agree_read_time ev_ zone a b : same_but_times ev_ a b ->
  agree ev_ (read_time ev_ zone a) (read_time ev_ zone b).
Proof.
  intros Hs. pose proof (st_left _ _ _ Hs zone) as Ha. pose proof (st_right _ _ _ Hs zone) as Hb.
  assert (forall v rt, timeInBillingZone (ev_now ev_) zone = Ok v -> times_ok ev_ rt ->
    times_ok ev_ (record_time zone v rt)) as Hrec.
  { intros v rt Hv Hok z w Hz. simpl in Hz. destruct (decide (zone = z)) as [->|Hne].
    - rewrite lookup_insert_eq in Hz. by simplify_eq.
    - rewrite lookup_insert_ne in Hz by done. auto. }
  unfold read_time. destruct Hs.
  destruct (rt_timeValues a !! zone) as [v|], (rt_timeValues b !! zone) as [w|];
    try specialize (Ha _ eq_refl); try specialize (Hb _ eq_refl);
    rewrite ?Ha, ?Hb; simpl.
  - simplify_eq. split; [congruence|by constructor].
  - split; [done|]. constructor; simpl; auto.
  - split; [done|]. constructor; simpl; auto.
  - destruct (timeInBillingZone (ev_now ev_) zone) as [v|e] eqn:E; simpl; [|done].
    split; [done|]. constructor; simpl; auto.
Qed.

Lemma agree_boolean ev_ ev n a b : agrees ev_ ev n -> same_but_times ev_ a b ->
  agree ev_ (booleanOf ev n a) (booleanOf ev n b).
Proof.
  intros Hn Hs. unfold booleanOf. eapply agree_bind; [by apply Hn|].
  intros [v i] r r' Hr. by destruct v.
Qed.

Lemma agree_numeric ev_ ev n a b : agrees ev_ ev n -> same_but_times ev_ a b ->
  agree ev_ (numericOf ev n a) (numericOf ev n b).
Proof.
  intros Hn Hs. unfold numericOf. eapply agree_bind; [by apply Hn|].
  intros [v i] r r' Hr. by destruct v.
Qed.

Lemma agree_string ev_ ev n a b : agrees ev_ ev n -> same_but_times ev_ a b ->
  agree ev_ (stringOf ev n a) (stringOf ev n b).
Proof.
  intros Hn Hs. unfold stringOf. eapply agree_bind; [by apply Hn|].
  intros [v i] r r' Hr. by destruct v.
Qed.

Lemma same_record_tier ev_ name a b : same_but_times ev_ a b ->
  same_but_times ev_ (record_tier name a) (record_tier name b).
Proof. intros []. by constructor. Qed.
Lemma same_record_fixed ev_ x a b : same_but_times ev_ a b ->
  same_but_times ev_ (record_fixed x a) (record_fixed x b).
Proof. intros []. by constructor. Qed.
Lemma same_record_rule ev_ n a b : same_but_times ev_ a b ->
  same_but_times ev_ (record_rule ev_ n a) (record_rule ev_ n b).
Proof. intros []. constructor; simpl; congruence || done. Qed.
Lemma same_depth ev_ d d' a b : d = d' -> same_but_times ev_ a b ->
  same_but_times ev_ (set_rt_depth d a) (set_rt_depth d' b).
Proof. intros -> []. by constructor. Qed.

Ltac agree_auto :=
  repeat match goal with
  | |- agree _ (Err _) (Err _) => reflexivity
  | |- agree _ (throw _ _ _) (throw _ _ _) => reflexivity
  | |- agree _ type_error type_error => reflexivity
  | |- agree _ (value_only _ _) (value_only _ _) => apply agree_ret
  | |- agree _ (Ok _) (Ok _) => apply agree_ret
  | |- agree _ (rbind (booleanOf _ _ _) _) _ =>
      eapply agree_bind; [apply agree_boolean; assumption|intros ? ? ? ?]
  | |- agree _ (rbind (numericOf _ _ _) _) _ =>
      eapply agree_bind; [apply agree_numeric; assumption|intros [? ?] ? ? ?]
  | |- agree _ (rbind (stringOf _ _ _) _) _ =>
      eapply agree_bind; [apply agree_string; assumption|intros ? ? ? ?]
  | |- agree _ (rbind (read_time _ _ _) _) _ =>
      eapply agree_bind; [apply agree_read_time; assumption|intros ? ? ? ?]
  | Hn : agrees _ ?ev ?n |- agree _ (rbind (?ev ?n _) _) _ =>
      eapply agree_bind; [apply Hn; assumption|intros ? ? ? ?]
  | Hn : agrees _ ?ev ?n |- agree _ (?ev ?n _) (?ev ?n _) => apply Hn
  | |- agree _ (rbind ?x _) (rbind ?x _) => apply agree_pure; intros ?
  | |- agree _ (match ?x with _ => _ end) _ => destruct x
  end; auto using same_record_tier, same_record_fixed, same_record_rule.

Lemma agree_call ev_ ev f args pos a b : Forall (agrees ev_ ev) args ->
  same_but_times ev_ a b -> agree ev_ (callOf ev_ ev f args pos a) (callOf ev_ ev f args pos b).
Proof.
  intros Ha Hs. unfold callOf. cbv zeta.
  destruct f; destruct args as [|a0 [|a1 args]]; try reflexivity;
    repeat match goal with Hf : Forall _ (_ :: _) |- _ => inversion_clear Hf end; agree_auto.
Qed.

Lemma evaluate_agrees ev_ n : agrees ev_ (evaluate ev_) n.
Proof.
  induction n as [n IH] using node_ind_children. intros a b Hs. rewrite !evaluate_eq.
  cbv zeta. rewrite <- (st_depth _ _ _ Hs). simpl.
  destruct (256 <? rt_depth a + 1); [done|].
  pose proof (same_depth ev_ (rt_depth a + 1) _ a b eq_refl Hs) as Hs'.
  eapply agree_bind with (x := evaluateNode _ _ _ _).
  - destruct n; simpl in *;
      repeat match goal with Hf : Forall _ (_ :: _) |- _ => inversion_clear Hf end.
    + done.
    + agree_auto.
    + by apply agree_call.
    + destruct o; agree_auto.
    + unfold binaryOf. destruct o; agree_auto.
    + agree_auto.
  - intros v r r' Hr. apply agree_pure. intros w. apply agree_ret.
    apply same_depth; [|done]. by rewrite (st_depth _ _ _ Hr).
Qed.
End Facts.
