(* ===== verification/Semantics.v ===== *)
(** * What an evaluation guarantees

    The theorems about [evaluateBillingExpression] as a whole: it is total and
    reports every failure as a billing diagnostic; a success is a finite,
    non-negative cost whose request rules are those of the expression; the
    static types are sound; fixed prices are only ever scaled by the image count
    and by request multipliers; the memoised times are transparent. *)
From Stdlib Require Import SpecFloat.
From stdpp Require Import strings gmap.
From S2P Require Import Prelude JsString JsNumber JsValue Syntax SyntaxFacts Parser ParserFacts Compile CompileFacts Runtime RuntimeFacts.

#[local] Open Scope Z_scope.
#[local] Arguments evaluate : simpl never.

(** A concrete platform: a clock, ASCII lower-casing and a runtime whose
    formatter knows no named zone. *)
Definition plain_platform : Platform := {|
  pf_now := Some 0;
  pf_toLowerCase := map ascii_lower;
  pf_intl := fun _ => None;
|}.

(** ** Request rules *)
Record rule_ok (source : jstr) (ast : node) (r : request_rule) : Prop := {
  ro_node : rl_node r ∈ postorder ast;
  ro_shape : exists i s e j s' e' s'' e'',
    rl_node r = Cond (rl_condition r) (Lit (L_num (rl_multiplier r) i) s e)
                     (Lit (L_num n_one j) s' e') s'' e'';
  ro_text : rl_cond r = slice source (n_start (rl_condition r)) (n_end (rl_condition r));
}.

Lemma n_eqb_finite x m e : n_eqb x (S754_finite false m e) = true -> x = S754_finite false m e.
Proof.
  unfold n_eqb, SFeqb, SFcompare. destruct x as [[]|[]| |[] m' e']; try done.
  destruct (Z.compare_spec e' e) as [->| |]; try done.
  change (Pos.compare_cont Eq m' m) with (Pos.compare m' m).
  destruct (Pos.compare_spec m' m) as [->| |]; done.
Qed.

Lemma n_eqb_one x : n_eqb x n_one = true -> x = n_one.
Proof. apply n_eqb_finite. Qed.

Lemma collect_rule_ok source ast n rules rules' : n ∈ postorder ast ->
  Forall (rule_ok source ast) rules -> collect_rule source n rules = Ok rules' ->
  Forall (rule_ok source ast) rules'.
Proof.
  intros Hn Hr E. unfold collect_rule in E. rinv; try done.
  apply Forall_app. split; [done|]. constructor; [|done].
  match goal with H : n_eqb _ _ = true |- _ => apply n_eqb_one in H; subst end.
  constructor; simpl; [done|by repeat eexists|done].
Qed.

Lemma compiled_rules_ok source c : compiled_ok source c ->
  Forall (rule_ok source (ce_ast c)) (ce_rules c).
Proof.
  intros Hc. pose proof (co_rules _ _ Hc) as Hr.
  assert (forall l rules, (forall n, n ∈ l -> n ∈ postorder (ce_ast c)) ->
    Forall (rule_ok source (ce_ast c)) rules ->
    rfold (collect_rule source) l rules = Ok (ce_rules c) ->
    Forall (rule_ok source (ce_ast c)) (ce_rules c)) as Hgen.
  { clear Hr. induction l as [|n l IH]; intros rules Hin Hok E; simpl in E; [by simplify_eq|].
    apply rbind_ok in E as (rules1 & E1 & E). eapply IH; [|by eapply collect_rule_ok; [apply Hin; left|..]|done].
    intros m Hm. apply Hin. by right. }
  by apply (Hgen (postorder (ce_ast c)) []).
Qed.

Section Theorems.
Context `{Platform}.

(** ** Fixed prices *)
Definition unit_price (rt : runtime) : billing_unit * option num :=
  (rt_billingUnit rt, rt_fixedPrice rt).

Lemma no_fixed_unit ev_ n rt v rt' : ~ uses_function F_fixed n ->
  evaluate ev_ n rt = Ok (v, rt') -> unit_price rt' = unit_price rt.
Proof.
  intros Hn. apply (evaluate_preserves ev_ n (fun a b => unit_price b = unit_price a));
    try done; [congruence|apply postorder_self].
Qed.

Lemma marker_false n : containsPricingMarker n = Ok false ->
  ~ uses_function F_fixed n /\ ~ uses_function F_tier n.
Proof.
  unfold containsPricingMarker. intros E. apply rbind_ok in E as (d & Hd & E).
  pose proof (dependencies_fits _ _ Hd) as Hf.
  destruct (dependencies_ok n Hf) as (d' & Hd' & _ & Hfn).
  rewrite Hd in Hd'. injection Hd' as <-. injection E as E. bsplit. by rewrite <- !Hfn.
Qed.

(** The factors that may multiply a price. *)
Inductive price_factor (count : num) (rules : list request_rule) : num -> Prop :=
| PF_count : price_factor count rules count
| PF_rule r : r ∈ rules -> n_leb n_zero (rl_multiplier r) = true ->
    price_factor count rules (rl_multiplier r)
| PF_one : price_factor count rules n_one.

(** [base] multiplied by any number of such factors, in the code's order. *)
Inductive scaled (count : num) (rules : list request_rule) (base : num) : num -> Prop :=
| SC_base : scaled count rules base base
| SC_right x f : scaled count rules base x -> price_factor count rules f ->
    scaled count rules base (n_mul x f)
| SC_left x f : scaled count rules base x -> price_factor count rules f ->
    scaled count rules base (n_mul f x).

(** A leaf [tier(label, fixed(amount))] of the tree. *)
Definition fixed_leaf (amount : num) (n : node) : Prop :=
  n_leb n_zero amount = true /\ is_finite (n_mul amount n_million) = true /\
  exists label i s e s' e' args rest s'' e'',
    Call F_tier (label :: Call F_fixed (Lit (L_num amount i) s e :: args) s' e' :: rest) s'' e''
      ∈ postorder n.

Lemma fixed_leaf_mono a n m : n ∈ postorder m -> fixed_leaf a n -> fixed_leaf a m.
Proof.
  intros Hn (? & ? & lb & i & s & e & s' & e' & args & rest & s'' & e'' & Hin).
  split_and!; [done..|]. repeat eexists. by eapply postorder_trans.
Qed.

(** A leaf [tier(label, price)] whose price is computed from tokens. *)
Definition token_leaf (n : node) : Prop :=
  exists label price rest s e,
    Call F_tier (label :: price :: rest) s e ∈ postorder n /\ ~ uses_function F_fixed price.

Lemma token_leaf_mono n m : n ∈ postorder m -> token_leaf n -> token_leaf m.
Proof. intros Hn (lb & p & rest & s & e & Hin & Hp). repeat eexists; [by eapply postorder_trans|done]. Qed.

Lemma image_count_cases n :
  (exists s e, n = Var V_image_count s e) \/ ~ (exists s e, n = Var V_image_count s e).
Proof. destruct n as [|[]| | | |]; eauto; right; naive_solver. Qed.

Lemma fixed_cases n :
  (exists args s e, n = Call F_fixed args s e) \/ ~ (exists args s e, n = Call F_fixed args s e).
Proof. destruct n as [| |[]| | |]; eauto; right; naive_solver. Qed.

Section FixedTree.
Variables (source : jstr) (ev_ : env).
Let c := ev_compiled ev_.
Let count := default n_one (cx_imageCount (ev_context ev_)).
Hypothesis Hc : compiled_ok source c.

Lemma factor_value f rt v i rt' : pricing_factor (ce_rules c) f = Ok true ->
  f ∈ postorder (ce_ast c) -> evaluate ev_ f rt = Ok ((v, i), rt') ->
  unit_price rt' = unit_price rt /\
  exists x, v = J_num x /\ price_factor count (ce_rules c) x.
Proof.
  intros Hf Hin E. destruct (image_count_cases f) as [Hv|Hv].
  - destruct Hv as (s & e & ->). split.
    + eapply no_fixed_unit; [|exact E]. intros (a & s1 & e1 & Hu). simpl in Hu.
      apply list_elem_of_singleton in Hu. done.
    + apply evaluate_inv in E as (rt1 & E & _). simpl in E. rinv. eexists.
      split; [done|]. constructor.
  - assert (exists r, find_rule (ce_rules c) f = Some r /\
      n_leb n_zero (rl_multiplier r) = true /\
      containsPricingMarker (rl_condition r) = Ok false) as (r & Hr & Hm & Hmk).
    { unfold pricing_factor in Hf. destruct f as [| []| | | |]; try (by destruct Hv; eauto);
        rinv; bsplit; subst; eauto. }
    apply List.find_some in Hr as [Hr Hs]. apply list_elem_of_In in Hr.
    pose proof (compiled_rules_ok _ _ Hc) as Hok. rewrite Forall_elem in Hok.
    destruct (Hok r Hr) as [Hrn (i1 & s1 & e1 & j & s2 & e2 & s3 & e3 & Hsh) _].
    apply (same_node_eq (ce_ast c)) in Hs; [|by apply (parse_wf source), Hc|done|done].
    subst f. rewrite Hsh in *. split.
    + eapply no_fixed_unit; [|exact E]. intros (a & s4 & e4 & Hu).
      apply marker_false in Hmk as [Hmk _]. apply Hmk. exists a, s4, e4.
      simpl in Hu. rewrite !elem_of_app, !list_elem_of_singleton in Hu.
      destruct Hu as [[?|Hu]|?]; [done| |done]. exfalso. set_solver.
    + apply evaluate_inv in E as (rt1 & E & _). simpl in E.
      apply rbind_ok in E as ([b rt2] & _ & E). destruct b.
      * apply evaluate_inv in E as (rt3 & E & _). simpl in E. rinv. eexists.
        split; [done|]. by apply PF_rule.
      * apply evaluate_inv in E as (rt3 & E & _). simpl in E. rinv. eexists.
        split; [done|]. apply PF_one.
Qed.

Definition priced (n : node) (rt : runtime) (v : jsval) (rt' : runtime) : Prop :=
  (unit_price rt' = unit_price rt /\ token_leaf n) \/
  exists a x, unit_price rt' = (Unit_request, Some a) /\ v = J_num x /\ fixed_leaf a n /\
    scaled count (ce_rules c) (n_mul a n_million) x.

Lemma leaf_priced n rt v i rt' : valid_tier_leaf n = Ok true ->
  evaluate ev_ n rt = Ok ((v, i), rt') -> priced n rt v rt'.
Proof.
  intros Hl E. unfold valid_tier_leaf in Hl.
  destruct n as [| |f [|label [|price rest]] s e| | |]; try done; destruct f; try done.
  apply rbind_ok in Hl as (m & Hm & Hl). destruct m; [done|].
  apply marker_false in Hm as [Hlab _].
  apply evaluate_inv in E as (rt1 & E & -> & _). simpl in E.
  apply rbind_ok in E as ([name rt2] & E1 & E). apply stringOf_ok in E1 as [i1 E1].
  apply no_fixed_unit in E1; [|done].
  apply rbind_ok in E as ([[x i2] rt3] & E2 & E). apply numericOf_ok in E2.
  unfold value_only in E. injection E as <- <- <-. unfold priced.
  change (unit_price (set_rt_depth _ _)) with (unit_price rt3).
  change (unit_price rt2 = unit_price rt) in E1. rewrite <- E1.
  destruct (fixed_cases price) as [Hfx|Hfx].
  - destruct Hfx as (args & s' & e' & ->).
    destruct args as [|[[a ia| | |] sa ea| | | | |] args]; try done.
    injection Hl as Hl. bsplit. right. exists a, x.
    apply evaluate_inv in E2 as (rt4 & E2 & -> & _). simpl in E2.
    apply rbind_ok in E2 as ([[y i3] rt5] & E3 & E2). apply numericOf_ok in E3.
    apply evaluate_inv in E3 as (rt6 & E3 & -> & _). simpl in E3. unfold value_only in E2.
    simplify_eq. split_and!; [done|done| |constructor].
    split_and!; [done|done|]. repeat eexists. apply postorder_self.
  - left. assert (containsPricingMarker price = Ok false) as Hp.
    { destruct price as [| |[] args s' e'| | |]; try (by destruct Hfx; eauto);
        apply rbind_ok in Hl as ([] & Hl & ?); done. }
    apply marker_false in Hp as [Hp _]. split; [by eapply no_fixed_unit|]. repeat eexists; [apply postorder_self|done].
Qed.

Lemma tree_priced n : validateFixedPricingTree n (ce_rules c) = Ok tt ->
  n ∈ postorder (ce_ast c) -> forall rt v i rt',
  evaluate ev_ n rt = Ok ((v, i), rt') -> priced n rt v rt'.
Proof.
  induction n as [n IH] using node_ind_children. intros Hv Hin rt v i rt' E.
  assert ((let* ok := valid_tier_leaf n in if ok then Ok tt else shape_error n) = Ok tt ->
    priced n rt v rt') as Hleaf.
  { intros Hl. apply rbind_ok in Hl as ([] & Hl & ?); [|done]. by eapply leaf_priced. }
  assert (forall m, m ∈ children n -> m ∈ postorder (ce_ast c)) as Hsub.
  { intros m Hm. eapply postorder_trans; [exact Hin|by apply postorder_child]. }
  assert (forall m rt1 v1 rt2, m ∈ children n -> priced m rt1 v1 rt2 ->
    unit_price rt1 = unit_price rt -> unit_price rt2 = unit_price rt' -> v1 = v ->
    priced n rt v rt') as Hup.
  { intros m rt1 v1 rt2 Hm Hp H1 H2 ->. destruct Hp as [[Hp Ht]|(a & x & Hp & -> & Hl & Hs)].
    - left. split; [congruence|]. eapply token_leaf_mono; [|done]. by apply postorder_child.
    - right. exists a, x. split_and!; [congruence|done| |done].
      eapply fixed_leaf_mono; [|done]. by apply postorder_child. }
  rewrite Forall_elem in IH. destruct n as [| | | |o l r s e|cn y no s e]; try by apply Hleaf.
  - destruct o; try by apply Hleaf. simpl in Hv.
    apply evaluate_inv in E as (rt1 & E & -> & _). simpl in E.
    apply rbind_ok in E as ([[a ia] rt2] & E1 & E). apply rbind_ok in E as ([[b ib] rt3] & E2 & E).
    apply rbind_ok in E as (w & E3 & E). simplify_eq.
    assert (exists x y, a = J_num x /\ b = J_num y /\ v = J_num (n_mul x y)) as (x & y & -> & -> & ->).
    { unfold binary_values in E3. destruct a, b; simpl in E3; try done. simplify_eq. eauto. }
    apply rbind_ok in Hv as ([] & Hf & Hv).
    + destruct (factor_value _ _ _ _ _ Hf (Hsub r ltac:(set_solver)) E2) as [Hu (y' & [= <-] & Hy)].
      destruct (IH l ltac:(set_solver) Hv (Hsub l ltac:(set_solver)) _ _ _ _ E1)
        as [[Hp Ht]|(p & z & Hp & [= <-] & Hl & Hs)].
      * left. split; [exact (eq_trans Hu Hp)|]. eapply token_leaf_mono; [|done]. apply postorder_child. set_solver.
      * right. exists p, (n_mul x y). split_and!; [exact (eq_trans Hu Hp)|done| |by constructor].
        eapply fixed_leaf_mono; [|done]. apply postorder_child. set_solver.
    + apply rbind_ok in Hv as ([] & Hg & Hv); [|by apply Hleaf].
      destruct (factor_value _ _ _ _ _ Hg (Hsub l ltac:(set_solver)) E1) as [Hu (x' & [= <-] & Hx)].
      destruct (IH r ltac:(set_solver) Hv (Hsub r ltac:(set_solver)) _ _ _ _ E2)
        as [[Hp Ht]|(p & z & Hp & [= <-] & Hl & Hs)].
      * left. split; [exact (eq_trans Hp Hu)|]. eapply token_leaf_mono; [|done]. apply postorder_child. set_solver.
      * right. exists p, (n_mul x y). split_and!; [exact Hp|done| |by constructor].
        eapply fixed_leaf_mono; [|done]. apply postorder_child. set_solver.
  - simpl in Hv. apply rbind_ok in Hv as ([] & Hm & Hv); [by apply Hleaf|].
    apply marker_false in Hm as [Hm _]. apply rbind_ok in Hv as ([] & Hy & Hno).
    apply evaluate_inv in E as (rt1 & E & -> & _). simpl in E.
    apply rbind_ok in E as ([b rt2] & E1 & E). apply booleanOf_ok in E1 as [i1 E1].
    apply no_fixed_unit in E1; [|done]. destruct b.
    + eapply Hup; [|eapply (IH y); [set_solver|done|apply Hsub; set_solver|exact E]|done..].
      set_solver.
    + eapply Hup; [|eapply (IH no); [set_solver|done|apply Hsub; set_solver|exact E]|done..].
      set_solver.
Qed.
End FixedTree.
End Theorems.

(** ** Totality *)

(** C5: evaluating any source in any context, from any cache that holds
    compilations, returns: either a success computed from the compiled
    expression, or a failure that is the classification of a billing diagnostic
    raised while compiling or while evaluating; and the cache stays sound.  No
    other exception, and in particular no recursion bound of the model, is ever
    reached. *)
Theorem evaluation_total `{Platform} source cx cached :
  cache_ok cached ->
  cache_ok (snd (evaluateBillingExpression source cx cached)) /\
  match fst (evaluateBillingExpression source cx cached) with
  | Evaluated s => exists c, compile source = Ready c /\ evaluate_body c cx = Ok s
  | NotEvaluated f => exists d, f = expressionFailure (Billing d) /\
      (compile_body source = Err (Billing d) \/
       exists c, compile source = Ready c /\ evaluate_body c cx = Err (Billing d))
  end.
Proof.
  intros Hok. unfold evaluateBillingExpression.
  destruct (compile_cached source cached Hok) as [E Hok'].
  destruct (compileBillingExpression source cached) as [r cached']. simpl in *. subst r.
  split; [done|].
  pose proof (safe_compile_body source) as Hs. pose proof (safe_evaluate_body source) as He.
  unfold compile in *. destruct (compile_body source) as [c|[d|m]]; [|by simpl; eauto|done]. simpl.
  specialize (He c cx eq_refl).
  destruct (evaluate_body c cx) as [s|[d|m]] eqn:E; [by eauto| |done].
  exists d. split; [done|]. right. eauto.
Qed.

Lemma evaluation_total_witness :
  cache_ok [] /\
  cache_ok (snd (@evaluateBillingExpression plain_platform (js "tier('a', p) +") empty_context [])).
Proof.
  split; [exact cache_ok_nil|].
  destruct (@evaluation_total plain_platform (js "tier('a', p) +") empty_context [] cache_ok_nil)
    as [H _]. exact H.
Defined.

(** ** What a success carries *)
Record success_ok (c : compiled_expression) (cx : context) (s : evaluation_success) : Prop := {
  so_finite : is_finite (es_cost s) = true;
  so_nonneg : n_leb n_zero (es_cost s) = true;
  so_unit : es_billingUnit s = Unit_request <-> is_Some (es_fixedPrice s);
  so_fixed : es_billingUnit s = Unit_request -> uses_function F_fixed (ce_ast c);
  so_tier : es_matchedTier s <> [] -> uses_function F_tier (ce_ast c);
  so_count : is_Some (es_imageCount s) <-> uses_variable V_image_count (ce_ast c);
  so_rules : Forall2 (fun r t => tr_cond t = rl_cond r /\ tr_multiplier t = rl_multiplier r)
    (ce_rules c) (es_requestRules s);
  so_tokens : Forall (fun p => exists x, snd p = Some x /\ is_finite x = true /\ n_ltb x n_zero = false)
    (default [] (cx_tokens cx));
}.

Lemma finite_nonneg x : is_finite x = true -> n_ltb x n_zero = false -> n_leb n_zero x = true.
Proof. destruct x as [[]|[]| |[] m e]; done. Qed.

Lemma check_tokens l u u' : rfold check_token l u = Ok u' ->
  Forall (fun p => exists x, snd p = Some x /\ is_finite x = true /\ n_ltb x n_zero = false) l.
Proof.
  revert u. induction l as [|[v o] l IH]; intros u E; [constructor|]. simpl in E.
  apply rbind_ok in E as (u1 & E1 & E). constructor; [|by eapply IH].
  unfold check_token in E1. rinv. bsplit. simpl in *. eauto.
Qed.

Lemma initial_traces rules l :
  Forall2 trace_le (map (fun r => Trace (rl_cond r) (rl_multiplier r) false) rules) l ->
  Forall2 (fun r t => tr_cond t = rl_cond r /\ tr_multiplier t = rl_multiplier r) rules l.
Proof.
  revert l. induction rules as [|r rules IH]; intros l Hl; inversion_clear Hl as [|? t ? ? Ht Hl'];
    constructor; [|by apply IH]. destruct Ht as (? & ? & _). done.
Qed.

Lemma unit_price_fixed `{Platform} ev_ n rt v rt' : evaluate ev_ n rt = Ok (v, rt') ->
  (rt_billingUnit rt = Unit_request <-> is_Some (rt_fixedPrice rt)) ->
  (rt_billingUnit rt' = Unit_request <-> is_Some (rt_fixedPrice rt')).
Proof.
  apply (evaluate_preserves ev_ n (fun a b =>
    (rt_billingUnit a = Unit_request <-> is_Some (rt_fixedPrice a)) ->
    (rt_billingUnit b = Unit_request <-> is_Some (rt_fixedPrice b)))); simpl; auto using postorder_self.
  intros _ x rt0 _. by eauto.
Qed.

Lemma no_tier_label `{Platform} ev_ n rt v rt' : ~ uses_function F_tier n ->
  evaluate ev_ n rt = Ok (v, rt') -> rt_matchedTier rt' = rt_matchedTier rt.
Proof.
  intros Hn. apply (evaluate_preserves ev_ n (fun a b => rt_matchedTier b = rt_matchedTier a));
    try done; [congruence|apply postorder_self].
Qed.

(** [evaluate_body] as one evaluation of the tree from the initial runtime. *)
Lemma evaluate_body_ok `{Platform} c cx s : evaluate_body c cx = Ok s ->
  exists ev_ rt rt' i, new_runtime c cx = Ok (ev_, rt) /\
    evaluate ev_ (ce_ast c) rt = Ok ((J_num (es_cost s), i), rt') /\
    rfold check_token (default [] (cx_tokens cx)) tt = Ok tt /\
    n_ltb (es_cost s) n_zero = false /\ is_finite (es_cost s) = true /\
    s = Success (es_cost s) (rt_billingUnit rt') (rt_fixedPrice rt')
          (if bool_decide (V_image_count ∈ ce_variables c)
           then Some (default n_one (cx_imageCount cx)) else None)
          (rt_matchedTier rt') (rt_rules rt').
Proof.
  unfold evaluate_body. intros E. apply rbind_ok in E as ([] & Ht & E).
  apply rbind_ok in E as ([ev_ rt] & Hn & E). apply rbind_ok in E as ([[v i] rt'] & He & E).
  rinv. bsplit. exists ev_, rt, rt', i. by split_and!.
Qed.

Lemma new_runtime_ok `{Platform} c cx ev_ rt : new_runtime c cx = Ok (ev_, rt) ->
  ev_compiled ev_ = c /\ ev_context ev_ = cx /\
  rt = Runtime_ (map (fun r => Trace (rl_cond r) (rl_multiplier r) false) (ce_rules c))
         [] Unit_token None ∅ 0.
Proof. unfold new_runtime. intros E. by rinv. Qed.

(** C6: a successful evaluation yields a finite, non-negative cost; it is billed
    per request exactly when a fixed price was recorded, which needs a [fixed]
    in the expression; a tier label needs a [tier]; the image count is reported
    exactly when the expression reads it; and the traced request rules are those
    of the compiled expression, in order and with their multipliers.  Every
    token count it accepted is finite and non-negative. *)
Theorem evaluation_success_ok `{Platform} source c cx s :
  compile source = Ready c -> evaluate_body c cx = Ok s -> success_ok c cx s.
Proof.
  intros Hc Hs. apply compile_ready in Hc as Hc'.
  apply evaluate_body_ok in Hs as (ev_ & rt & rt' & i & Hn & He & Ht & Hz & Hfin & Es).
  destruct (new_runtime_ok _ _ _ _ Hn) as (_ & _ & Hrt).
  pose proof (unit_price_fixed _ _ _ _ _ He) as Hunit. rewrite Hrt in Hunit.
  specialize (Hunit ltac:(split; [done|intros [? ?]; done])).
  assert (rt_billingUnit rt' = Unit_request -> uses_function F_fixed (ce_ast c)) as Hfx.
  { intros Hu. apply (co_functions _ _ Hc').
    destruct (decide (F_fixed ∈ ce_functions c)) as [|Hno]; [done|].
    rewrite (co_functions _ _ Hc') in Hno. apply no_fixed_unit in He; [|done].
    unfold unit_price in He. rewrite Hrt in He. simpl in He. congruence. }
  assert (rt_matchedTier rt' <> [] -> uses_function F_tier (ce_ast c)) as Htier.
  { intros Hu. apply (co_functions _ _ Hc').
    destruct (decide (F_tier ∈ ce_functions c)) as [|Hno]; [done|].
    rewrite (co_functions _ _ Hc') in Hno. apply no_tier_label in He; [|done].
    rewrite Hrt in He. done. }
  apply evaluate_traces in He. rewrite Hrt in He. simpl in He.
  rewrite Es; constructor; simpl; auto using finite_nonneg, initial_traces.
  - rewrite <- (co_variables _ _ Hc'). case_bool_decide; split; try done; eauto.
  - by eapply check_tokens.
Qed.

(** An expression with a request multiplier, priced at midnight UTC. *)
Definition night_source : jstr := js "tier('base', p * 2) * (hour('UTC') >= 22 ? 3 : 1)".
Definition tokens_of (x : num) : list (token_variable * option num) := [(V_p, Some x)].
Definition night_context : context :=
  Context_ (Some (tokens_of (n_of_Z 1000))) None None (Some (Some 82800000)) None.

Definition ready (c : compilation) : compiled_expression :=
  match c with
  | Ready c => c
  | Failed _ => Compiled [] (Lit L_nil 0 0) [] [] []
  end.
Definition night_compiled : compiled_expression := Eval vm_compute in ready (compile night_source).
Definition night_success : evaluation_success :=
  Success (n_of_Z 6000) Unit_token None None (js "base")
    [Trace (js "hour('UTC') >= 22") (n_of_Z 3) true].

Lemma evaluation_success_ok_witness :
  compile night_source = Ready night_compiled /\
  @evaluate_body plain_platform night_compiled night_context = Ok night_success /\
  success_ok night_compiled night_context night_success.
Proof.
  assert (compile night_source = Ready night_compiled) as H1 by (vm_compute; reflexivity).
  assert (@evaluate_body plain_platform night_compiled night_context = Ok night_success) as H2
    by (vm_compute; reflexivity).
  split; [exact H1|]. split; [exact H2|].
  exact (@evaluation_success_ok plain_platform night_source _ _ _ H1 H2).
Defined.

(** ** Fixed prices *)

(** C7: an expression that uses [fixed] has a sound price.  Its evaluation either
    records the amount of one of its [tier(label, fixed(amount))] leaves, is billed
    per request, and its cost is that amount in the internal scale multiplied only
    by the image count and by non-negative request multipliers; or it records no
    fixed price and is billed by tokens, which happens only when the expression
    has a tier without a fixed price too.  So where every tier is fixed, one of
    the fixed amounts is charged. *)
Theorem fixed_price_sound `{Platform} source c cx s :
  compile source = Ready c -> uses_function F_fixed (ce_ast c) -> evaluate_body c cx = Ok s ->
  match es_fixedPrice s with
  | None => es_billingUnit s = Unit_token /\ token_leaf (ce_ast c)
  | Some a => es_billingUnit s = Unit_request /\ fixed_leaf a (ce_ast c) /\
      scaled (default n_one (cx_imageCount cx)) (ce_rules c) (n_mul a n_million) (es_cost s)
  end.
Proof.
  intros Hc Hf Hs. apply compile_ready in Hc as Hc'.
  apply evaluate_body_ok in Hs as (ev_ & rt & rt' & i & Hn & He & _ & _ & _ & ->).
  destruct (new_runtime_ok _ _ _ _ Hn) as (Ec & Ex & Hrt). simpl.
  apply (co_functions _ _ Hc'), (co_fixed _ _ Hc') in Hf. rewrite <- Ec in *.
  apply (tree_priced source) in He; [|done|done|apply postorder_self].
  destruct He as [[Hu Ht]|(a & x & Hu & [= ->] & Hl & Hsc)]; unfold unit_price in Hu.
  - rewrite Hrt in Hu. injection Hu as -> ->. done.
  - injection Hu as -> ->. by rewrite <- Ex.
Qed.

Definition image_source : jstr := js "tier('image', fixed(0.25)) * image_count".
Definition image_compiled : compiled_expression := Eval vm_compute in ready (compile image_source).
Definition image_context : context := Context_ None None None None (Some (n_of_Z 4)).
Definition image_success : evaluation_success :=
  Eval vm_compute in
    Success (n_of_Z 1000000) Unit_request (Some (n_div n_one (n_of_Z 4))) (Some (n_of_Z 4))
      (js "image") [].

Lemma fixed_price_sound_witness :
  compile image_source = Ready image_compiled /\
  @evaluate_body plain_platform image_compiled image_context = Ok image_success /\
  scaled (n_of_Z 4) (ce_rules image_compiled)
    (n_mul (n_div n_one (n_of_Z 4)) n_million) (n_of_Z 1000000).
Proof.
  assert (compile image_source = Ready image_compiled) as H1 by (vm_compute; reflexivity).
  assert (@evaluate_body plain_platform image_compiled image_context = Ok image_success) as H2
    by (vm_compute; reflexivity).
  assert (uses_function F_fixed (ce_ast image_compiled)) as H3.
  { do 3 eexists. simpl. right. right. left. }
  split; [exact H1|]. split; [exact H2|].
  exact (proj2 (proj2 (@fixed_price_sound plain_platform _ _ _ _ H1 H3 H2))).
Defined.

(** ** Types and numbers at run time *)

(** C8: the static types are sound: when a node that the type system gives a
    type evaluates, its value conforms to that type; a number it yields is
    finite, and is a safe integer when the node is integer-valued; and the
    recursion depth is back where it was. *)
Theorem evaluation_typed `{Platform} ev_ n t rt v i rt' :
  has_type n t -> evaluate ev_ n rt = Ok ((v, i), rt') ->
  conforms v t /\ rt_depth rt' = rt_depth rt /\
  forall x, v = J_num x -> is_finite x = true /\ (i = true -> is_safe_integer x = true).
Proof.
  intros Ht E. split; [by eapply typed_value|]. split; [by eapply evaluate_depth|].
  intros x ->. apply evaluate_inv in E as (rt1 & _ & _ & Hk).
  apply check_number_ok in Hk as [_ Hk]. exact Hk.
Qed.

Definition night_env : env := Env night_compiled night_context (Some 82800000) ∅.
Definition start_runtime : runtime := Runtime_ [] [] Unit_token None ∅ 0.

Lemma evaluation_typed_witness :
  let n := Bin B_add (Var V_p 0 1) (Lit (L_num n_one true) 4 5) 0 5 in
  has_type n Ty_number /\ conforms (J_num (n_of_Z 1001)) Ty_number.
Proof.
  intros n. assert (has_type n Ty_number) as Ht.
  { apply (HT_arith _ _ _ Ty_number Ty_number);
      [by left|constructor|apply (HT_lit (L_num n_one true))|by left|by left]. }
  assert (@evaluate plain_platform night_env n start_runtime =
          Ok ((J_num (n_of_Z 1001), false), start_runtime)) as E by (vm_compute; reflexivity).
  split; [exact Ht|].
  exact (proj1 (@evaluation_typed plain_platform _ _ _ _ _ _ _ Ht E)).
Defined.

(** ** Memoised times *)
Definition forget_times (rt : runtime) : runtime :=
  Runtime_ (rt_rules rt) (rt_matchedTier rt) (rt_billingUnit rt) (rt_fixedPrice rt) ∅ (rt_depth rt).

(** memoising the wall-clock fields of a zone is transparent: from any
    runtime whose memo holds the readings of its instant, evaluation gives the
    same value or the same error, and the same recorded tier, price, rules and
    depth, as from that runtime with an empty memo, and the memo it leaves again
    holds readings of that instant only. *)
Theorem time_memo_transparent `{Platform} ev_ n rt :
  times_ok ev_ rt ->
  agree ev_ (evaluate ev_ n rt) (evaluate ev_ n (forget_times rt)).
Proof.
  intros Ht. apply evaluate_agrees. constructor; try done.
Qed.

Lemma time_memo_transparent_witness :
  let call := Call (F_time T_hour) [Lit (L_str (js "UTC")) 5 10] 0 11 in
  let rt := @record_time (js "UTC") (utc_values 82800000) start_runtime in
  @agree plain_platform rvalue night_env
    (@evaluate plain_platform night_env call rt)
    (@evaluate plain_platform night_env call (forget_times rt)).
Proof.
  intros call rt. apply (@time_memo_transparent plain_platform night_env call rt).
  intros zone v Hz. unfold rt, record_time in Hz. cbn [rt_timeValues start_runtime] in Hz.
  apply lookup_insert_Some in Hz as [[<- <-]|[_ Hz]]; [vm_compute; reflexivity|].
  by rewrite lookup_empty in Hz.
Defined.
