(* ===== verification/RequestFacts.v ===== *)
(** * Requests and clocks as the interpreter reads them

    Request paths written with backslash escapes address exactly the property
    they name; headers are looked up without regard to case, the last non-empty
    one winning; the wall-clock fields of a zone stay in their calendar ranges. *)
From Stdlib Require Import SpecFloat.
From stdpp Require Import strings gmap.
From S2P Require Import Prelude JsString JsNumber JsValue Syntax Parser Compile CompileFacts Runtime RuntimeFacts Semantics.

#[local] Open Scope Z_scope.

(** ** Paths *)

(** Quoting a key: a backslash before every character that means something. *)
Definition needs_escape (c : Z) : bool :=
  (c =? 92) || (c =? 46) || bool_decide (c ∈ path_reserved).
Definition escape_key (key : jstr) : jstr :=
  mjoin (map (fun c => if needs_escape c then [92; c] else [c]) key).
Definition escape_path (keys : list jstr) : jstr := join (js ".") (map escape_key keys).

Lemma split_escaped key rest part :
  split_path (escape_key key ++ rest) part = split_path rest (part ++ key).
Proof.
  revert part. induction key as [|c key IH]; intros part; [by rewrite app_nil_r|].
  change (escape_key (c :: key)) with ((if needs_escape c then [92; c] else [c]) ++ escape_key key).
  destruct (needs_escape c) eqn:Ec; simpl.
  - rewrite IH. by rewrite <- app_assoc.
  - unfold needs_escape in Ec. bsplit.
    rewrite (proj2 (Z.eqb_neq c 92)), (proj2 (Z.eqb_neq c 46)) by done.
    rewrite bool_decide_eq_false_2 by done. rewrite IH. by rewrite <- app_assoc.
Qed.

Lemma split_escape_path key keys part :
  split_path (escape_path (key :: keys)) part = Some ((part ++ key) :: keys).
Proof.
  revert key part. induction keys as [|k keys IH]; intros key part.
  - unfold escape_path. simpl. rewrite <- (app_nil_r (escape_key key)). by rewrite split_escaped.
  - change (escape_path (key :: k :: keys)) with (escape_key key ++ 46 :: escape_path (k :: keys)).
    rewrite split_escaped. simpl. by rewrite IH.
Qed.

(** The value reached from [v] through own properties. *)
Fixpoint reach (v : jsval) (keys : list jstr) : option jsval :=
  match keys with
  | [] => Some v
  | k :: keys =>
      match v with
      | J_obj props => own_property props k ≫= fun v => reach v keys
      | _ => None
      end
  end.

(** a path written by quoting the keys of nested objects reads exactly the
    property they name: the value found there, and null when there is none (or
    when it is undefined), whatever characters the keys are made of. *)
Theorem escaped_path_reads body keys :
  keys <> [] -> trim (escape_path keys) = escape_path keys -> escape_path keys <> [] ->
  forall v, reach body keys = Some v ->
  readRequestPath body (escape_path keys) =
    Ok (match v with J_undefined => J_null | _ => v end).
Proof.
  intros Hk Ht Hne v Hv. unfold readRequestPath. rewrite Ht.
  destruct (escape_path keys) as [|c p] eqn:Ep; [done|]. rewrite <- Ep.
  destruct keys as [|k keys]; [done|]. rewrite split_escape_path. simpl app.
  clear -Hv. generalize (escape_path (k :: keys)). revert Hv. generalize (k :: keys).
  intros l. revert body. induction l as [|x l IH]; intros body Hv path; simpl in *.
  - by simplify_eq.
  - destruct body; try done. apply bind_Some in Hv as (w & Hw & Hv). rewrite Hw. by apply IH.
Qed.

Lemma escaped_path_reads_witness :
  let body := J_obj [(js "a.b", J_obj [(js "c*", J_bool true)])] in
  escape_path [js "a.b"; js "c*"] = js "a\.b.c\*" /\
  readRequestPath body (escape_path [js "a.b"; js "c*"]) = Ok (J_bool true).
Proof.
  intros body. split; [vm_compute; reflexivity|].
  apply (escaped_path_reads body [js "a.b"; js "c*"]) with (v := J_bool true);
    first [discriminate | vm_compute; reflexivity | vm_compute; discriminate].
Defined.

(** ** Headers *)
Section Headers.
Context `{Platform}.

Definition header_key (name : jstr) : jstr := pf_toLowerCase (trim name).

(** The non-empty values sent under a name, in order. *)
Definition header_values (name : jstr) (hs : list (jstr * jsval)) : list jstr :=
  omap (fun h => match snd h with
    | J_str raw => if bool_decide (header_key (fst h) = name) && bool_decide (trim raw <> [])
                   then Some (trim raw) else None
    | _ => None
    end) hs.

Lemma read_headers_spec hs m m' name : name <> [] ->
  rfold read_header hs m = Ok m' ->
  m' !! name = match list.last (header_values name hs) with Some v => Some v | None => m !! name end.
Proof.
  intros Hn. revert m. induction hs as [|[k v] hs IH]; intros m E; simpl in E.
  { by simplify_eq. }
  apply rbind_ok in E as (m1 & E1 & E). rewrite (IH _ E). clear IH E.
  unfold read_header in E1. simpl in E1. destruct v as [| | | |raw| |]; try done.
  injection E1 as <-. unfold header_values at 2. simpl.
  change (list_omap _ _ _ hs) with (header_values name hs).
  fold (header_key k).
  destruct (decide (header_key k = name)) as [Hk|Hk].
  - rewrite (bool_decide_eq_true_2 (header_key k = name)) by done.
    rewrite (bool_decide_eq_true_2 (header_key k <> [])) by congruence. simpl.
    case_bool_decide; [|done]. rewrite list.last_cons, Hk, lookup_insert_eq. by case_match.
  - rewrite (bool_decide_eq_false_2 (header_key k = name)) by done. simpl.
    case_match; [done|]. case_match; [by rewrite lookup_insert_ne|done].
Qed.
End Headers.

(** [header(name)] is the last non-empty value sent under that name,
    compared trimmed and in lower case, and the empty string when there is
    none. *)
Theorem header_lookup `{Platform} compiled cx rq ev_ rt name s e s' e' rt' v :
  cx_request cx = Some rq -> new_runtime compiled cx = Ok (ev_, rt) ->
  header_key name <> [] ->
  evaluate ev_ (Call F_header [Lit (L_str name) s e] s' e') rt = Ok (v, rt') ->
  v = (J_str (default [] (list.last (header_values (header_key name) (rq_headers rq)))), false).
Proof.
  intros Hrq Hn Hne E. unfold new_runtime in Hn. rewrite Hrq in Hn. simpl in Hn.
  apply rbind_ok in Hn as (m & Hm & Hn). injection Hn as <- <-.
  apply evaluate_inv in E as (rt1 & E & _). simpl in E. rewrite Hrq in E.
  unfold value_only in E. injection E as <- _. fold (header_key name).
  rewrite (read_headers_spec _ _ _ _ Hne Hm). rewrite lookup_empty. by case_match.
Qed.

Lemma header_lookup_witness :
  let _ := plain_platform in
  let hs := [(js "X-Plan", J_str (js "basic")); (js "x-plan ", J_str (js " pro ")); (js "X-PLAN", J_str [])] in
  let cx := Context_ None (Some (Request J_null hs)) None None None in
  exists ev_ rt rt',
  @new_runtime plain_platform night_compiled cx = Ok (ev_, rt) /\
  @evaluate plain_platform ev_ (Call F_header [Lit (L_str (js "X-plan")) 7 15] 0 16) rt =
    Ok ((J_str (js "pro"), false), rt').
Proof.
  intros P hs cx.
  destruct (@new_runtime plain_platform night_compiled cx) as [[ev_ rt]|] eqn:Hn;
    [|vm_compute in Hn; discriminate].
  exists ev_, rt. unfold new_runtime in Hn. simpl in Hn.
  destruct (@evaluate plain_platform ev_ (Call F_header [Lit (L_str (js "X-plan")) 7 15] 0 16) rt)
    as [[v rt']|] eqn:E.
  - exists rt'. split; [reflexivity|]. do 2 f_equal.
    exact (@header_lookup plain_platform night_compiled cx (Request J_null hs) ev_ rt (js "X-plan")
             7 15 0 16 rt' v eq_refl Hn ltac:(discriminate) E).
  - exfalso. injection Hn as <- <-. vm_compute in E. discriminate.
Defined.

(** ** Clocks *)
Definition field_range (f : time_function) : Z * Z :=
  match f with
  | T_hour => (0, 23) | T_minute => (0, 59) | T_weekday => (0, 6)
  | T_month => (1, 12) | T_day => (1, 31)
  end.

(** The decimal text of every number below 60, with and without a leading zero,
    reads back as that number. *)
Lemma small_decimals_read : forallb (fun i =>
    let z := Z.of_nat i in
    bool_decide (to_number (dec_of_Z z) = n_of_Z z) &&
    bool_decide (to_number (48 :: dec_of_Z z) = n_of_Z z)) (List.seq 0 60) = true.
Proof. vm_compute. reflexivity. Qed.

Lemma part_in_read s lo hi : 0 <= lo -> hi < 60 -> part_in s lo hi ->
  exists z, lo <= z <= hi /\ to_number s = n_of_Z z.
Proof.
  intros Hlo Hhi (z & Hz & Hs). exists z. split; [done|].
  pose proof small_decimals_read as Hall. rewrite forallb_forall in Hall.
  specialize (Hall (Z.to_nat z)).
  assert (In (Z.to_nat z) (List.seq 0 60)) as Hin by (apply in_seq; lia).
  apply Hall in Hin. cbv zeta in Hin. rewrite Z2Nat.id in Hin by lia. bsplit. destruct Hs as [->|[_ ->]]; done.
Qed.

Lemma weekday_index s : s ∈ WEEKDAYS -> 0 <= index_of WEEKDAYS s <= 6.
Proof.
  intros Hs. unfold WEEKDAYS in Hs.
  repeat (apply elem_of_cons in Hs as [->|Hs]; [vm_compute; split; discriminate|]).
  by apply not_elem_of_nil in Hs.
Qed.

(** in every zone, known to the runtime or not, the wall-clock fields are
    integers in their calendar ranges: hours 0 to 23, minutes 0 to 59, weekdays
    0 to 6, months 1 to 12, days 1 to 31. *)
Theorem time_fields_in_range `{P : Platform} (HL : PlatformLaws P) t zone v f :
  timeInBillingZone (Some t) zone = Ok v ->
  exists z, fst (field_range f) <= z <= snd (field_range f) /\ time_value v f = n_of_Z z.
Proof.
  unfold timeInBillingZone. intros E. case_bool_decide; [done|].
  destruct (zone_formatter _) as [parts|] eqn:Hz; injection E as <-.
  - unfold zone_formatter in Hz. destruct (negb _); [done|].
    destruct (pf_intl _) as [[resolved parts']|] eqn:Hi; [|done].
    destruct (_ && _); [done|]. injection Hz as ->.
    destruct (pl_parts _ _ _ t Hi). destruct f; simpl; try by apply part_in_read.
    eexists. split; [by apply weekday_index|done].
  - pose proof (utc_hours_range t). pose proof (utc_minutes_range t).
    pose proof (utc_weekday_range t). pose proof (utc_calendar_range t).
    destruct f; simpl; eexists; (split; [|reflexivity]); lia.
Qed.

Lemma plain_platform_laws : PlatformLaws plain_platform.
Proof. constructor; [done|]. intros zone resolved parts t H. discriminate H. Qed.

Lemma time_fields_in_range_witness :
  @timeInBillingZone plain_platform (Some 82800000) (js "Mars/Base") = Ok (utc_values 82800000) /\
  exists z, 0 <= z <= 23 /\ time_value (utc_values 82800000) T_hour = n_of_Z z.
Proof.
  assert (@timeInBillingZone plain_platform (Some 82800000) (js "Mars/Base") =
          Ok (utc_values 82800000)) as E by (vm_compute; reflexivity).
  split; [exact E|].
  exact (@time_fields_in_range plain_platform plain_platform_laws _ _ _ T_hour E).
Defined.
