(* ===== verification/Display.v ===== *)
(** * Reading tiers off an expression

    Models [billing-expression/display.ts]: the adapters that recognise the
    linear tier chains of token and task expressions and the time-dependent
    branches above them, for display and editing.  The trees they read come from
    the compiler, so that every call has its arity; on a call with missing
    arguments, which cannot occur, the readers answer "not recognised". *)
From Stdlib Require Import SpecFloat.
From stdpp Require Import strings gmap.
From S2P Require Import Prelude JsString JsNumber JsValue Syntax Compile Runtime.

#[local] Open Scope Z_scope.

(** ** Token tiers *)
Record token_condition := TokenCondition {
  tc_var : token_variable;
  tc_op : binary_operator;
  tc_value : num;
}.

(** [TokenTier]; [prices] is an object, in the order of its keys. *)
Record token_tier := TokenTier {
  tt_conditionText : option jstr;
  tt_imageCount : bool;
  tt_billingUnit : option billing_unit;
  tt_fixedPrice : option num;
  tt_label : jstr;
  tt_conditions : list token_condition;
  tt_prices : list (token_variable * num);
}.

Fixpoint flattenBinary (n : node) (o : binary_operator) : list node :=
  match n with
  | Bin o' l r _ _ =>
      if bool_decide (o' = o) then flattenBinary l o ++ flattenBinary r o else [n]
  | _ => [n]
  end.

Definition is_order (o : binary_operator) : bool :=
  match o with B_lt | B_le | B_gt | B_ge => true | _ => false end.

Definition is_tier_variable (v : token_variable) : bool :=
  match v with V_p | V_c | V_len => true | _ => false end.

Definition token_condition_of (part : node) : option token_condition :=
  match part with
  | Bin o (Var v _ _) (Lit (L_num x _) _ _) _ _ =>
      if is_order o && is_tier_variable v && negb (n_ltb x n_zero)
      then Some (TokenCondition v o x) else None
  | _ => None
  end.

Definition tokenConditions (n : node) : option (list token_condition) :=
  mapM token_condition_of (flattenBinary n B_and).

Definition nonnegativePriceLiteral (n : node) : option num :=
  match n with
  | Lit (L_num x _) _ _ => if n_leb n_zero x then Some x else None
  | Un U_minus (Lit (L_num x _) _ _) _ _ =>
      if n_eqb x n_zero then Some (S754_zero true) else None
  | _ => None
  end.

(** [node.kind === 'literal' && node.value === 0] *)
Definition is_zero_literal (n : node) : bool :=
  match n with
  | Lit (L_num x _) _ _ => n_eqb x n_zero
  | _ => false
  end.

(** The variable a priced quantity stands for: a token count, or
    [max(0, len - ai)], which counts as [p]. *)
Definition priced_variable (input : node) : option token_variable :=
  match input with
  | Var v _ _ =>
      match v with
      | V_len | V_image_count => None
      | _ => Some v
      end
  | Call F_max [a; b] _ _ =>
      let remainder :=
        if is_zero_literal a then Some b
        else if is_zero_literal b then Some a else None in
      match remainder with
      | Some (Bin B_sub (Var V_len _ _) (Var V_ai _ _) _ _) => Some V_p
      | _ => None
      end
  | _ => None
  end.

Definition price_term (term : node) : option (token_variable * num) :=
  match term with
  | Bin B_mul l r _ _ =>
      match nonnegativePriceLiteral r with
      | Some price => (fun v => (v, price)) <$> priced_variable l
      | None =>
          match nonnegativePriceLiteral l with
          | Some price => (fun v => (v, price)) <$> priced_variable r
          | None => None
          end
      end
  | _ => None
  end.

(** The loop over the terms of a tier's price: no variable is priced twice. *)
Fixpoint price_terms (terms : list node) (prices : list (token_variable * num))
  : option (list (token_variable * num)) :=
  match terms with
  | [] => Some prices
  | term :: terms =>
      match price_term term with
      | Some (v, price) =>
          if bool_decide (v ∈ prices.*1) then None
          else price_terms terms (prices ++ [(v, price)])
      | None => None
      end
  end.

Definition tokenTier (n : node) (conditions : list token_condition) : option token_tier :=
  match n with
  | Call F_tier (Lit (L_str label) _ _ :: body :: _) _ _ =>
      match body with
      | Call F_fixed (Lit (L_num x _) _ _ :: _) _ _ =>
          Some (TokenTier None false (Some Unit_request) (Some x) label conditions [])
      | _ =>
          match price_terms (flattenBinary body B_add) [] with
          | Some (p :: prices) =>
              Some (TokenTier None false None None label conditions (p :: prices))
          | _ => None
          end
      end
  | _ => None
  end.

(** [ai > 0] or [ao > 0] *)
Definition audio_probe (part : node) : option token_variable :=
  match part with
  | Bin B_gt (Var v _ _) (Lit (L_num x _) _ _) _ _ =>
      match v with
      | V_ai | V_ao => if n_eqb x n_zero then Some v else None
      | _ => None
      end
  | _ => None
  end.

Definition with_condition_text (text : jstr) (t : token_tier) : token_tier :=
  TokenTier (Some text) (tt_imageCount t) (tt_billingUnit t) (tt_fixedPrice t)
            (tt_label t) (tt_conditions t) (tt_prices t).

Definition with_image_count (t : token_tier) : token_tier :=
  TokenTier (tt_conditionText t) true (tt_billingUnit t) (tt_fixedPrice t)
            (tt_label t) (tt_conditions t) (tt_prices t).

(** The first block of [readTokenTierChain]: an audio and a text tier. *)
Definition audio_tiers (n : node) : option (list token_tier) :=
  match n with
  | Cond (Bin B_or l r _ _) yes no _ _ =>
      match audio_probe l, audio_probe r with
      | Some a, Some b =>
          if bool_decide (a <> b) then
            match tokenTier yes [], tokenTier no [] with
            | Some audio, Some text =>
                Some [with_condition_text (js "Audio requests") audio;
                      with_condition_text (js "Text-only requests") text]
            | _, _ => None
            end
          else None
      | _, _ => None
      end
  | _ => None
  end.

(** The loop over the conditionals of a chain and its fallback. *)
Fixpoint tier_chain (n : node) : option (list token_tier) :=
  match n with
  | Cond c yes no _ _ =>
      match tokenConditions c with
      | None => None
      | Some conditions =>
          match tokenTier yes conditions with
          | None => None
          | Some tier => cons tier <$> tier_chain no
          end
      end
  | _ => (fun t => [t]) <$> tokenTier n []
  end.

Definition is_image_count (n : node) : bool :=
  match n with Var V_image_count _ _ => true | _ => false end.

Fixpoint readTokenTierChain (n : node) : option (list token_tier) :=
  match audio_tiers n with
  | Some tiers => Some tiers
  | None =>
      match n with
      | Bin B_mul l r _ _ =>
          if is_image_count l then map with_image_count <$> readTokenTierChain r
          else if is_image_count r then map with_image_count <$> readTokenTierChain l
          else tier_chain n
      | _ => tier_chain n
      end
  end.

(** ** Time-dependent tiers *)
Definition is_math_function (f : billing_function) : bool :=
  match f with F_min | F_max | F_abs | F_ceil | F_floor => true | _ => false end.

Definition isTimeCondition (n : node) : outcome bool :=
  let* d := expressionDependencies n in
  Ok (bool_decide (dep_variables d = [])
      && existsb is_time_function (dep_functions d)
      && forallb (fun f => is_time_function f || is_math_function f) (dep_functions d)).

(** [TimeTokenTier] *)
Record time_tier := TimeTier {
  ti_tier : token_tier;
  ti_timeConditions : list (node * bool);
}.

Definition condition_text (c : token_condition) : jstr :=
  variable_text (tc_var c) ++ js " " ++ binary_text (tc_op c) ++ js " "
  ++ num_to_string (tc_value c).

Definition path_text (source : jstr) (p : node * bool) : jstr :=
  let text := slice source (n_start (fst p)) (n_end (fst p)) in
  if snd p then js "(" ++ text ++ js ")" else js "!(" ++ text ++ js ")".

(** A tier below the time conditions of [path]. *)
Definition time_tier_of (source : jstr) (path : list (node * bool)) (t : token_tier) : time_tier :=
  let description := join (js " && ") (map (path_text source) path) in
  TimeTier
    (with_condition_text
       (join (js " && ") (description :: map condition_text (tt_conditions t))) t)
    path.

Fixpoint timeTierBranches (compiled : compiled_expression) (n : node)
    (path : list (node * bool)) : outcome (option (list time_tier)) :=
  let leaf :=
    match readTokenTierChain n, path with
    | None, _ | _, [] => None
    | Some tiers, _ => Some (map (time_tier_of (ce_source compiled) path) tiers)
    end in
  match n with
  | Cond c yes no _ _ =>
      let* time := isTimeCondition c in
      if time then
        let* y := timeTierBranches compiled yes (path ++ [(c, true)]) in
        let* n := timeTierBranches compiled no (path ++ [(c, false)]) in
        Ok (match y, n with Some y, Some n => Some (y ++ n) | _, _ => None end)
      else Ok leaf
  | _ => Ok leaf
  end.

Section WithPlatform.
Context `{Platform}.

(** [evaluateBillingCondition(compiled, condition, now) === matches] *)
Definition condition_matches (compiled : compiled_expression) (now : date)
    (p : node * bool) : bool :=
  bool_decide (evaluateBillingCondition compiled (fst p) now = Some (snd p)).

Definition current_tiers (compiled : compiled_expression) (now : option date)
    (tiers : list time_tier) : list time_tier :=
  match now with
  | Some now =>
      List.filter (fun t => forallb (condition_matches compiled now) (ti_timeConditions t)) tiers
  | None => []
  end.

Definition readTimeTokenPricing (source : jstr) (now : option date)
  : outcome (option (list time_tier * list time_tier)) :=
  match compile source with
  | Failed _ => Ok None
  | Ready compiled =>
      let* tiers := timeTierBranches compiled (ce_ast compiled) [] in
      Ok ((fun tiers => (tiers, current_tiers compiled now tiers)) <$> tiers)
  end.

End WithPlatform.
