(* ===== verification/DisplayFacts.v ===== *)
(** * The displayed tiers are the charged tiers

    A specification of what a list of token tiers charges, and the refinement
    theorems: when the readers of [Display] recognise an expression, evaluating
    it selects the first tier that applies and charges that tier's prices. *)
From Stdlib Require Import SpecFloat.
From stdpp Require Import strings gmap.
From S2P Require Import Prelude JsString JsNumber JsValue Syntax SyntaxFacts Parser ParserFacts.
From S2P Require Import Compile CompileFacts Runtime RuntimeFacts Semantics Display.

#[local] Open Scope Z_scope.
#[local] Arguments evaluate : simpl never.

(** ** What a tier charges *)

(** A condition on a token count; it fails when the count is not known. *)
Definition order_holds (o : binary_operator) (x y : num) : bool :=
  match o with
  | B_lt => n_ltb x y
  | B_le => n_leb x y
  | B_gt => n_ltb y x
  | B_ge => n_leb y x
  | _ => false
  end.

Definition count_of (cx : context) (v : token_variable) : option num :=
  lookup_token (cx_tokens cx) v.

Definition condition_holds (cx : context) (c : token_condition) : bool :=
  match count_of cx (tc_var c) with
  | Some x => order_holds (tc_op c) x (tc_value c)
  | None => false
  end.

Definition is_positive (cx : context) (v : token_variable) : bool :=
  match count_of cx v with Some x => n_ltb n_zero x | None => false end.

Definition audio_text : jstr := js "Audio requests".

(** Whether a tier applies: the audio tier when there are audio tokens, any
    other when its conditions hold. *)
Definition applies (cx : context) (t : token_tier) : bool :=
  if bool_decide (tt_conditionText t = Some audio_text)
  then is_positive cx V_ai || is_positive cx V_ao
  else forallb (condition_holds cx) (tt_conditions t).

(** The quantity priced under a variable: its count, or for [p] also the text
    part [max(0, len - ai)] of the input. *)
Inductive quantity (cx : context) : token_variable -> num -> Prop :=
| Q_count v x : count_of cx v = Some x -> quantity cx v x
| Q_text z len ai : n_eqb z n_zero = true -> count_of cx V_len = Some len ->
    count_of cx V_ai = Some ai -> quantity cx V_p (n_max z (n_sub len ai))
| Q_text_swapped z len ai : n_eqb z n_zero = true -> count_of cx V_len = Some len ->
    count_of cx V_ai = Some ai -> quantity cx V_p (n_max (n_sub len ai) z).

Definition charge (cx : context) (p : token_variable * num) (x : num) : Prop :=
  exists q, quantity cx (fst p) q /\ x = n_mul q (snd p).

(** A sum of numbers in this order, under some bracketing. *)
Inductive sum_of : list num -> num -> Prop :=
| Sum_one x : sum_of [x] x
| Sum_add l1 l2 x y : sum_of l1 x -> sum_of l2 y -> sum_of (l1 ++ l2) (n_add x y).

(** The cost of a tier before image counts. *)
Definition base_charge (cx : context) (t : token_tier) (x : num) : Prop :=
  match tt_fixedPrice t with
  | Some a => x = n_mul a n_million
  | None => exists charges, Forall2 (charge cx) (tt_prices t) charges /\ sum_of charges x
  end.

(** Multiplication by the image count, at least once when the tier says so. *)
Inductive counted (count : num) : bool -> num -> num -> Prop :=
| CN_base x : counted count false x x
| CN_left b x y : counted count b x y -> counted count true x (n_mul count y)
| CN_right b x y : counted count b x y -> counted count true x (n_mul y count).

Definition image_count_of (cx : context) : num := default n_one (cx_imageCount cx).

(** Charging a tier: the label, the billing unit and price it leaves, starting
    from those in [before], and the cost. *)
Record charged (cx : context) (t : token_tier) (before : billing_unit * option num)
    (label : jstr) (after : billing_unit * option num) (cost : num) : Prop := {
  cg_label : label = tt_label t;
  cg_unit : after = match tt_fixedPrice t with
                    | Some a => (Unit_request, Some a)
                    | None => before
                    end;
  cg_cost : exists base, base_charge cx t base /\
    counted (image_count_of cx) (tt_imageCount t) base cost;
}.

(** ** Arithmetic *)
Lemma n_mul_comm x y : n_mul x y = n_mul y x.
Proof.
  unfold n_mul, SFmul. destruct x as [sx|sx| |sx mx ex], y as [sy|sy| |sy my ey]; try done;
    rewrite ?(xorb_comm sx sy); try done. by rewrite Pos.mul_comm, Z.add_comm.
Qed.

Lemma mapM_app_Some {A B} (f : A -> option B) l1 l2 k :
  mapM f (l1 ++ l2) = Some k ->
  exists k1 k2, mapM f l1 = Some k1 /\ mapM f l2 = Some k2 /\ k = k1 ++ k2.
Proof.
  revert k. induction l1 as [|x l1 IH]; intros k E; simpl in *; [by eauto|].
  apply bind_Some in E as (y & Hy & E). apply bind_Some in E as (ys & Hys & [= <-]).
  destruct (IH _ Hys) as (k1 & k2 & E1 & E2 & ->).
  exists (y :: k1), k2. split_and!; [by rewrite Hy; simpl; rewrite E1|done|done].
Qed.

(** A literal of a parsed tree is not a negative zero. *)
Lemma dl_value_not_negzero d : dl_value d <> S754_zero true.
Proof.
  unfold dl_value, decimal_to_num, ratio_to_num. repeat case_match; try done.
Qed.

Section Refine.
Context `{Platform}.

(** ** Evaluation of the recognised parts *)
Lemma evaluate_lit ev_ l s e rt v i rt' : evaluate ev_ (Lit l s e) rt = Ok ((v, i), rt') ->
  (v, i) = literalOf l.
Proof. intros E. apply evaluate_inv in E as (rt1 & E & _). simpl in E. by simplify_eq. Qed.

Lemma evaluate_count ev_ v s e rt w i rt' : v <> V_image_count ->
  evaluate ev_ (Var v s e) rt = Ok ((w, i), rt') ->
  exists x, w = J_num x /\ count_of (ev_context ev_) v = Some x.
Proof.
  intros Hv E. apply evaluate_inv in E as (rt1 & E & _). simpl in E.
  apply rbind_ok in E as (y & E & Hy). simplify_eq. unfold count_of.
  unfold variableOf in E. destruct v; try done; rinv; eauto.
Qed.

Lemma evaluate_image_count ev_ s e rt w i rt' :
  evaluate ev_ (Var V_image_count s e) rt = Ok ((w, i), rt') ->
  w = J_num (image_count_of (ev_context ev_)).
Proof.
  intros E. apply evaluate_inv in E as (rt1 & E & _). simpl in E. by rinv.
Qed.

Lemma evaluate_bin ev_ o l r s e rt v i rt' : o <> B_and -> o <> B_or ->
  evaluate ev_ (Bin o l r s e) rt = Ok ((v, i), rt') ->
  exists a b rt1 rt2 rt3, evaluate ev_ l rt1 = Ok (a, rt2) /\ evaluate ev_ r rt2 = Ok (b, rt3) /\
    binary_values o s a b = Ok (v, i).
Proof.
  intros H1 H2 E. apply evaluate_inv in E as (rt1 & E & _). simpl in E.
  unfold binaryOf in E. destruct o; try done; rinv; repeat eexists; eauto.
Qed.

Lemma binary_num o s x i y j v k : o ∈ [B_add; B_sub; B_mul] ->
  binary_values o s (J_num x, i) (J_num y, j) = Ok (v, k) ->
  v = J_num (match o with B_add => n_add x y | B_sub => n_sub x y | _ => n_mul x y end).
Proof.
  intros Ho E. repeat (apply elem_of_cons in Ho as [->|Ho]; [by simpl in E; simplify_eq|]).
  by apply not_elem_of_nil in Ho.
Qed.

Lemma condition_value ev_ n c rt v i rt' : token_condition_of n = Some c ->
  evaluate ev_ n rt = Ok ((v, i), rt') -> v = J_bool (condition_holds (ev_context ev_) c).
Proof.
  intros Hc E. unfold token_condition_of in Hc.
  destruct n as [| | | |o [|w sv ev1| | | |] [[x ix| | |] sx ex| | | | |] s e|]; try done.
  destruct (is_order o) eqn:Ho; [|done]. destruct (is_tier_variable w) eqn:Hw; [|done].
  simpl in Hc. destruct (n_ltb x n_zero); [done|]. injection Hc as <-.
  apply evaluate_bin in E as ([a ia] & [b ib] & rt1 & rt2 & rt3 & E1 & E2 & E3);
    [|by intros ->|by intros ->].
  apply evaluate_lit in E2. simpl in E2. simplify_eq.
  apply evaluate_count in E1 as (y & -> & Hy); [|by intros ->].
  unfold condition_holds. simpl. rewrite Hy.
  destruct o; try done; simpl in *; by simplify_eq.
Qed.

(** Flattening by an operator, as an induction principle. *)
Lemma flatten_ind o (P : node -> Prop) :
  (forall n, flattenBinary n o = [n] -> P n) ->
  (forall l r s e, P l -> P r -> P (Bin o l r s e)) -> forall n, P n.
Proof.
  intros Hleaf Hbin n. induction n as [| | | |o' l r s e IHl IHr|] using node_rect_strong;
    try by apply Hleaf.
  destruct (decide (o' = o)) as [->|Hne]; [by apply Hbin|].
  apply Hleaf. simpl. by rewrite bool_decide_eq_false_2.
Qed.

Lemma flatten_bin o l r s e :
  flattenBinary (Bin o l r s e) o = flattenBinary l o ++ flattenBinary r o.
Proof. simpl. by rewrite bool_decide_eq_true_2. Qed.

Lemma flatten_subterms n o t : t ∈ flattenBinary n o -> t ∈ postorder n.
Proof.
  induction n as [n Hn|l r s e IHl IHr] using (flatten_ind o); intros Ht.
  - rewrite Hn in Ht. apply list_elem_of_singleton in Ht as ->. apply postorder_self.
  - rewrite flatten_bin in Ht. apply elem_of_postorder_children. right.
    apply elem_of_app in Ht as [Ht|Ht]; [exists l|exists r]; simpl; set_solver.
Qed.

Lemma mapM_singleton {A B} (f : A -> option B) x k :
  mapM f [x] = Some k -> exists y, f x = Some y /\ k = [y].
Proof. simpl. destruct (f x) as [y|]; simpl; [|done]. intros [= <-]. eauto. Qed.

Lemma conditions_value ev_ n cs rt v i rt' : tokenConditions n = Some cs ->
  evaluate ev_ n rt = Ok ((v, i), rt') ->
  v = J_bool (forallb (condition_holds (ev_context ev_)) cs).
Proof.
  unfold tokenConditions. revert cs rt v i rt'.
  induction n as [n Hn|l r s e IHl IHr] using (flatten_ind B_and); intros cs rt v i rt' Hc E.
  - rewrite Hn in Hc. apply mapM_singleton in Hc as (c & Hc & ->). simpl.
    rewrite andb_true_r. by eapply condition_value.
  - rewrite flatten_bin in Hc. apply mapM_app_Some in Hc as (c1 & c2 & H1 & H2 & ->).
    rewrite forallb_app. apply evaluate_inv in E as (rt1 & E & _). simpl in E.
    apply rbind_ok in E as ([b rt2] & E1 & E). apply booleanOf_ok in E1 as [j E1].
    apply (IHl _ _ _ _ _ H1) in E1. injection E1 as ->.
    destruct (forallb _ c1); simpl; [|by simplify_eq].
    apply rbind_ok in E as ([b rt3] & E2 & E). apply booleanOf_ok in E2 as [j2 E2].
    apply (IHr _ _ _ _ _ H2) in E2. by simplify_eq.
Qed.

Lemma price_literal_value ev_ n x rt v i rt' : wf n -> nonnegativePriceLiteral n = Some x ->
  evaluate ev_ n rt = Ok ((v, i), rt') -> v = J_num x.
Proof.
  intros Hw Hx E. destruct n as [[y iy| | |] s e| | |[] [[y iy| | |] s e| | | | |] s' e'| |]; try done;
    simpl in Hx.
  - destruct (n_leb n_zero y); [|done]. apply evaluate_lit in E. simpl in E. by simplify_eq.
  - destruct (n_eqb y n_zero) eqn:Hz; [|done]. injection Hx as <-.
    apply evaluate_inv in E as (rt1 & E & _). simpl in E.
    apply rbind_ok in E as ([[z iz] rt2] & E1 & E). apply numericOf_ok, evaluate_lit in E1.
    simpl in E1. simplify_eq. apply wf_unfold in Hw as [_ Hw].
    apply Forall_cons_iff in Hw as [Hw _]. apply wf_unfold in Hw as [Hok _].
    destruct (nk_arity _ Hok) as (_ & _ & d & ->).
    pose proof (dl_value_not_negzero d) as Hd.
    destruct (dl_value d) as [[]|[]| |[]]; try done.
Qed.

Lemma quantity_value ev_ n w rt v i rt' : priced_variable n = Some w ->
  evaluate ev_ n rt = Ok ((v, i), rt') ->
  exists q, v = J_num q /\ quantity (ev_context ev_) w q.
Proof.
  intros Hw E. destruct n as [|x s e|f args s e| | |]; try done.
  - assert (x = w /\ x <> V_image_count) as [-> Hx] by (by destruct x; simpl in Hw; simplify_eq).
    apply evaluate_count in E as (q & -> & Hq); [|done]. eexists. split; [done|]. by constructor.
  - destruct f; try done. destruct args as [|a [|b [|]]]; try done. simpl in Hw.
    assert (forall len ai sl el sa ea s1 e1 rt1 v1 i1 rt2, len = V_len -> ai = V_ai ->
      evaluate ev_ (Bin B_sub (Var len sl el) (Var ai sa ea) s1 e1) rt1 = Ok ((v1, i1), rt2) ->
      exists x y, count_of (ev_context ev_) V_len = Some x /\
        count_of (ev_context ev_) V_ai = Some y /\ v1 = J_num (n_sub x y)) as Hsub.
    { intros len ai sl el sa ea s1 e1 rt1 v1 i1 rt2 -> -> E1.
      apply evaluate_bin in E1 as ([a1 ia] & [b1 ib] & r1 & r2 & r3 & E1 & E2 & E3); [|done|done].
      apply evaluate_count in E1 as (x & -> & Hx); [|done].
      apply evaluate_count in E2 as (y & -> & Hy); [|done].
      apply binary_num in E3; [|set_solver]. eauto. }
    apply evaluate_inv in E as (rt1 & E & _). simpl in E.
    apply rbind_ok in E as ([[x ix] rt2] & E1 & E). apply numericOf_ok in E1.
    apply rbind_ok in E as ([[y iy] rt3] & E2 & E). apply numericOf_ok in E2.
    unfold value_only in E. simplify_eq. eexists. split; [done|].
    assert (forall z m iz r1 r2, is_zero_literal m = true ->
      evaluate ev_ m r1 = Ok ((J_num z, iz), r2) -> n_eqb z n_zero = true) as Hzero.
    { intros z m iz r1 r2 Hm E3. destruct m as [[k ik| | |] sm em| | | | |]; try done.
      apply evaluate_lit in E3. simpl in *. by simplify_eq. }
    destruct (is_zero_literal a) eqn:Ha; [|destruct (is_zero_literal b) eqn:Hb; [|done]].
    + destruct b as [| | | |[] [|[] | | | |] [|[] | | | |] sb eb|]; try done. injection Hw as <-.
      apply Hsub in E2 as (len & ai & Hl & Hai & [= ->]); [|done|done].
      eapply Q_text; eauto.
    + destruct a as [| | | |[] [|[] | | | |] [|[] | | | |] sb eb|]; try done. injection Hw as <-.
      apply Hsub in E1 as (len & ai & Hl & Hai & [= ->]); [|done|done].
      eapply Q_text_swapped; eauto.
Qed.

Lemma term_value ev_ n p rt v i rt' : wf n -> price_term n = Some p ->
  evaluate ev_ n rt = Ok ((v, i), rt') ->
  exists x, v = J_num x /\ charge (ev_context ev_) p x.
Proof.
  intros Hw Hp E. destruct n as [| | | |o l r s e|]; try done. destruct o; try done.
  apply evaluate_bin in E as ([a ia] & [b ib] & r1 & r2 & r3 & E1 & E2 & E3); [|done|done].
  apply wf_unfold in Hw as [_ Hw]. apply Forall_cons_iff in Hw as [Hwl Hw].
  apply Forall_cons_iff in Hw as [Hwr _]. simpl in Hp.
  destruct (nonnegativePriceLiteral r) as [price|] eqn:Hr.
  - apply fmap_Some in Hp as (w & Hv & ->). apply (price_literal_value _ _ _ _ _ _ _ Hwr Hr) in E2.
    apply (quantity_value _ _ _ _ _ _ _ Hv) in E1 as (q & -> & Hq). subst b.
    apply binary_num in E3; [|set_solver]. eexists. split; [done|]. exists q. done.
  - destruct (nonnegativePriceLiteral l) as [price|] eqn:Hl; [|done].
    apply fmap_Some in Hp as (w & Hv & ->). apply (price_literal_value _ _ _ _ _ _ _ Hwl Hl) in E1.
    apply (quantity_value _ _ _ _ _ _ _ Hv) in E2 as (q & -> & Hq). subst a.
    apply binary_num in E3; [|set_solver]. eexists. split; [done|]. exists q.
    split; [done|]. apply n_mul_comm.
Qed.

Lemma sum_value ev_ n ps rt v i rt' : wf n -> mapM price_term (flattenBinary n B_add) = Some ps ->
  evaluate ev_ n rt = Ok ((v, i), rt') ->
  exists x charges, v = J_num x /\ Forall2 (charge (ev_context ev_)) ps charges /\ sum_of charges x.
Proof.
  revert ps rt v i rt'.
  induction n as [n Hn|l r s e IHl IHr] using (flatten_ind B_add); intros ps rt v i rt' Hw Hp E.
  - rewrite Hn in Hp. apply mapM_singleton in Hp as (p & Hp & ->).
    apply (term_value _ _ _ _ _ _ _ Hw Hp) in E as (x & -> & Hx).
    exists x, [x]. split_and!; [done|by repeat constructor|constructor].
  - rewrite flatten_bin in Hp. apply mapM_app_Some in Hp as (p1 & p2 & H1 & H2 & ->).
    apply wf_unfold in Hw as [_ Hw]. apply Forall_cons_iff in Hw as [Hwl Hw].
    apply Forall_cons_iff in Hw as [Hwr _].
    apply evaluate_bin in E as ([a ia] & [b ib] & r1 & r2 & r3 & E1 & E2 & E3); [|done|done].
    apply (IHl _ _ _ _ _ Hwl H1) in E1 as (x & k1 & -> & Hk1 & Hx).
    apply (IHr _ _ _ _ _ Hwr H2) in E2 as (y & k2 & -> & Hk2 & Hy).
    apply binary_num in E3; [|set_solver]. exists (n_add x y), (k1 ++ k2).
    split_and!; [done|by apply Forall2_app|by constructor].
Qed.

(** ** Effects of the recognised parts *)
Lemma uses_children f n : uses_function f n ->
  (exists args s e, n = Call f args s e) \/ exists c, c ∈ children n /\ uses_function f c.
Proof.
  intros (args & s & e & Hin). apply elem_of_postorder_children in Hin as [<-|(c & Hc & Hin)].
  - left. eauto.
  - right. exists c. split; [done|]. unfold uses_function. eauto.
Qed.

Lemma uses_child f n c : c ∈ children n -> uses_function f c -> uses_function f n.
Proof.
  intros Hc (args & s & e & Hin). exists args, s, e.
  apply elem_of_postorder_children. right. eauto.
Qed.

Ltac no_uses :=
  repeat match goal with
  | H : _ ∈ [] |- _ => by apply not_elem_of_nil in H
  | H : _ ∈ _ :: _ |- _ => apply elem_of_cons in H as [->|H]
  | H : _ ∈ children _ |- _ => progress simpl in H
  | H : uses_function _ _ |- _ => apply uses_children in H as [(? & ? & ? & ?)|(? & ? & H)]
  end; simplify_eq.

Lemma conditions_no_calls n cs f : tokenConditions n = Some cs -> ~ uses_function f n.
Proof.
  unfold tokenConditions. revert cs.
  induction n as [n Hn|l r s e IHl IHr] using (flatten_ind B_and); intros cs Hc Hu.
  - rewrite Hn in Hc. apply mapM_singleton in Hc as (c & Hc & _).
    destruct n as [| | | |o [|w sv ev1| | | |] [[x ix| | |] sx ex| | | | |] s e|]; try done.
    no_uses.
  - rewrite flatten_bin in Hc. apply mapM_app_Some in Hc as (c1 & c2 & H1 & H2 & ->).
    apply uses_children in Hu as [(? & ? & ? & ?)|(c & Hc & Hu)]; [done|]. simpl in Hc.
    apply elem_of_cons in Hc as [->|Hc]; [by eapply IHl|].
    apply elem_of_cons in Hc as [->|Hc]; [by eapply IHr|by apply not_elem_of_nil in Hc].
Qed.

Lemma literal_no_calls n x f : nonnegativePriceLiteral n = Some x -> ~ uses_function f n.
Proof.
  intros Hx Hu. destruct n as [[y iy| | |] s e| | |[] [[y iy| | |] s e| | | | |] s' e'| |]; try done;
    no_uses.
Qed.

Lemma zero_no_calls n f : is_zero_literal n = true -> ~ uses_function f n.
Proof. intros Hx Hu. destruct n as [[y iy| | |] s e| | | | |]; try done; no_uses. Qed.

Lemma priced_calls n v f : priced_variable n = Some v -> uses_function f n -> f = F_max.
Proof.
  intros Hv Hu. destruct n as [|x s e|g args s e| | |]; try done; [no_uses|].
  destruct g; try done. destruct args as [|a [|b [|]]]; try done. simpl in Hv.
  apply uses_children in Hu as [(? & ? & ? & ?)|(c & Hc & Hu)]; [by simplify_eq|]. simpl in Hc.
  destruct (is_zero_literal a) eqn:Ha; [|destruct (is_zero_literal b) eqn:Hb; [|done]].
  - destruct b as [| | | |[] [|[] | | | |] [|[] | | | |] sb eb|]; try done.
    apply elem_of_cons in Hc as [->|Hc]; [by apply zero_no_calls in Hu|]. no_uses.
  - destruct a as [| | | |[] [|[] | | | |] [|[] | | | |] sb eb|]; try done.
    apply elem_of_cons in Hc as [->|Hc]; [no_uses|].
    apply elem_of_cons in Hc as [->|Hc]; [by apply zero_no_calls in Hu|no_uses].
Qed.

Lemma term_calls n p f : price_term n = Some p -> uses_function f n -> f = F_max.
Proof.
  intros Hp Hu. destruct n as [| | | |o l r s e|]; try done. destruct o; try done. simpl in Hp.
  apply uses_children in Hu as [(? & ? & ? & ?)|(c & Hc & Hu)]; [done|]. simpl in Hc.
  destruct (nonnegativePriceLiteral r) as [price|] eqn:Hr;
    [|destruct (nonnegativePriceLiteral l) as [price|] eqn:Hl; [|done]];
    apply fmap_Some in Hp as (w & Hv & ->);
    (apply elem_of_cons in Hc as [->|Hc];
      [|apply elem_of_cons in Hc as [->|Hc]; [|by apply not_elem_of_nil in Hc]]);
    solve [by eapply priced_calls | exfalso; by eapply literal_no_calls].
Qed.

Lemma sum_calls n ps f : mapM price_term (flattenBinary n B_add) = Some ps ->
  uses_function f n -> f = F_max.
Proof.
  revert ps. induction n as [n Hn|l r s e IHl IHr] using (flatten_ind B_add); intros ps Hp Hu.
  - rewrite Hn in Hp. apply mapM_singleton in Hp as (p & Hp & _). by eapply term_calls.
  - rewrite flatten_bin in Hp. apply mapM_app_Some in Hp as (p1 & p2 & H1 & H2 & ->).
    apply uses_children in Hu as [(? & ? & ? & ?)|(c & Hc & Hu)]; [done|]. simpl in Hc.
    apply elem_of_cons in Hc as [->|Hc]; [by eapply IHl|].
    apply elem_of_cons in Hc as [->|Hc]; [by eapply IHr|by apply not_elem_of_nil in Hc].
Qed.

(** ** One tier *)
Lemma price_terms_mapM terms acc ps : price_terms terms acc = Some ps ->
  exists qs, mapM price_term terms = Some qs /\ ps = acc ++ qs.
Proof.
  revert acc. induction terms as [|t terms IH]; intros acc E; simpl in *.
  { injection E as <-. exists []. by rewrite app_nil_r. }
  destruct (price_term t) as [[v price]|]; [|done]. case_bool_decide; [done|].
  apply IH in E as (qs & -> & ->). exists ((v, price) :: qs). by rewrite <- app_assoc.
Qed.

Definition charges (ev_ : env) (t : token_tier) (rt : runtime) (v : jsval) (rt' : runtime) : Prop :=
  exists x, v = J_num x /\
    charged (ev_context ev_) t (unit_price rt) (rt_matchedTier rt') (unit_price rt') x.

Lemma tier_charges ev_ n cs t rt v i rt' : wf n -> tokenTier n cs = Some t ->
  evaluate ev_ n rt = Ok ((v, i), rt') ->
  charges ev_ t rt v rt' /\ tt_conditions t = cs /\ tt_conditionText t = None.
Proof.
  intros Hw Ht E. destruct n as [| |f args s e| | |]; try done. destruct f; try done.
  destruct args as [|[[|label| |] sl el| | | | |] [|body rest]]; try done. simpl in Ht.
  apply wf_unfold in Hw as [_ Hw]. simpl in Hw.
  apply Forall_cons_iff in Hw as [_ Hw]. apply Forall_cons_iff in Hw as [Hwb _].
  apply evaluate_inv in E as (rt1 & E & -> & _). simpl in E.
  apply rbind_ok in E as ([name rt2] & E1 & E). apply stringOf_ok in E1 as [i1 E1].
  pose proof E1 as Eu. apply no_fixed_unit in Eu; [|intros Hu; no_uses].
  apply evaluate_lit in E1. injection E1 as -> ->.
  apply rbind_ok in E as ([[x ix] rt3] & E2 & E). apply numericOf_ok in E2.
  unfold value_only in E. injection E as <- <- <-.
  destruct (fixed_cases body) as [(fargs & sf & ef & ->)|Hnf].
  - destruct fargs as [|[[a ia| | |] sa ea| | | | |] fargs]; try done. injection Ht as <-.
    apply evaluate_inv in E2 as (rt4 & E2 & -> & _). simpl in E2.
    apply rbind_ok in E2 as ([[y iy] rt5] & E3 & E2). apply numericOf_ok, evaluate_lit in E3.
    simpl in E3. unfold value_only in E2. simplify_eq. split; [|done].
    eexists. split; [done|]. constructor; [done|done|]. eexists. split; [done|constructor].
  - assert (exists p ps, price_terms (flattenBinary body B_add) [] = Some (p :: ps) /\
      t = TokenTier None false None None label cs (p :: ps)) as (p & ps & Hps & ->).
    { destruct body as [| |[]| | |]; try (by destruct Hnf; eauto); repeat case_match; simplify_eq;
        eauto. }
    apply price_terms_mapM in Hps as (qs & Hqs & Hq). simpl in Hq. subst qs.
    pose proof E2 as Eu2. apply no_fixed_unit in Eu2;
      [|intros Hu; by apply (sum_calls _ _ _ Hqs) in Hu].
    apply (sum_value _ _ _ _ _ _ _ Hwb Hqs) in E2 as (z & ks & [= ->] & Hks & Hsum).
    split; [|done]. eexists. split; [done|]. constructor; simpl; [done| |].
    + etransitivity; [exact Eu2|exact Eu].
    + exists z. split; [|constructor]. by exists ks.
Qed.

(** ** Chains *)
Lemma charged_before ev_ t rt0 rt v rt' : unit_price rt0 = unit_price rt ->
  charges ev_ t rt0 v rt' -> charges ev_ t rt v rt'.
Proof. unfold charges. by intros ->. Qed.

Lemma charged_depth ev_ t rt v rt' d : charges ev_ t rt v rt' -> charges ev_ t rt v (set_rt_depth d rt').
Proof. done. Qed.

(** Evaluating a conditional: one branch, after a condition without prices. *)
Lemma evaluate_cond ev_ c y no s e rt v i rt' : ~ uses_function F_fixed c ->
  evaluate ev_ (Cond c y no s e) rt = Ok ((v, i), rt') ->
  exists b ib rt1 rt2 rt3 rt4, evaluate ev_ c rt1 = Ok ((J_bool b, ib), rt2) /\
    evaluate ev_ (if b then y else no) rt3 = Ok ((v, i), rt4) /\
    unit_price rt3 = unit_price rt /\ unit_price rt' = unit_price rt4 /\
    rt_matchedTier rt' = rt_matchedTier rt4.
Proof.
  intros Hc E. apply evaluate_inv in E as (rt1 & E & -> & _). simpl in E.
  apply rbind_ok in E as ([b rt2] & E1 & E). apply booleanOf_ok in E1 as [i1 E1].
  pose proof (no_fixed_unit _ _ _ _ _ Hc E1) as Hu.
  exists b, i1, (set_rt_depth (rt_depth rt + 1) rt), rt2.
  destruct b; eexists _, rt1; (split; [done|]); (split; [exact E|]);
    (split; [exact Hu|]); done.
Qed.

Lemma chain_charges ev_ n tiers rt v i rt' : wf n -> tier_chain n = Some tiers ->
  evaluate ev_ n rt = Ok ((v, i), rt') ->
  exists t, List.find (applies (ev_context ev_)) tiers = Some t /\ charges ev_ t rt v rt'.
Proof.
  revert tiers rt v i rt'.
  assert (forall n tiers rt v i rt', wf n -> (fun t => [t]) <$> tokenTier n [] = Some tiers ->
    evaluate ev_ n rt = Ok ((v, i), rt') ->
    exists t, List.find (applies (ev_context ev_)) tiers = Some t /\ charges ev_ t rt v rt') as Hleaf.
  { intros m tiers rt v i rt' Hw Ht E. apply fmap_Some in Ht as (t & Ht & ->).
    destruct (tier_charges _ _ _ _ _ _ _ _ Hw Ht E) as (Hc & Hcs & Htx).
    exists t. simpl. unfold applies. rewrite Hcs, Htx.
    rewrite bool_decide_eq_false_2 by done. done. }
  induction n as [| | | | |c y no s e _ _ IH] using node_rect_strong;
    intros tiers rt w i rt' Hw Ht E; try (by eapply Hleaf).
  simpl in Ht. destruct (tokenConditions c) as [cs|] eqn:Hc; [|done].
  destruct (tokenTier y cs) as [t|] eqn:Hy; [|done].
  apply fmap_Some in Ht as (ts & Hts & ->).
  apply wf_unfold in Hw as [_ Hw]. simpl in Hw. apply Forall_cons_iff in Hw as [_ Hw].
  apply Forall_cons_iff in Hw as [Hwy Hw]. apply Forall_cons_iff in Hw as [Hwn _].
  apply evaluate_cond in E as (b & ib & rt1 & rt2 & rt3 & rt4 & E1 & E2 & Hb & Ha & Hl);
    [|by eapply conditions_no_calls].
  apply (conditions_value _ _ _ _ _ _ _ Hc) in E1. injection E1 as ->.
  assert (forall u, charges ev_ u rt3 w rt4 -> charges ev_ u rt w rt') as Hup.
  { intros u (x & -> & Hx). exists x. split; [done|]. by rewrite Ha, Hl, <- Hb. }
  assert (applies (ev_context ev_) t = forallb (condition_holds (ev_context ev_)) cs) as Hap.
  { clear -Hy. destruct y as [| |[] [|[[|label| |] sl el| | | | |] [|body rest]] s e| | |]; try done.
    simpl in Hy. unfold applies. repeat case_match; simplify_eq/=; done. }
  simpl. rewrite Hap. destruct (forallb _ cs) eqn:Hcs.
  - destruct (tier_charges _ _ _ _ _ _ _ _ Hwy Hy E2) as (Hch & _). eauto.
  - apply (IH _ _ _ _ _ Hwn Hts) in E2 as (u & Hu & Hch). eauto.
Qed.

Lemma audio_probe_value ev_ n a rt v i rt' : audio_probe n = Some a ->
  evaluate ev_ n rt = Ok ((v, i), rt') -> v = J_bool (is_positive (ev_context ev_) a).
Proof.
  intros Ha E. destruct n as [| | | |[] [|w sv ev1| | | |] [[x ix| | |] sx ex| | | | |] s e|]; try done.
  assert (w = a /\ n_eqb x n_zero = true /\ w <> V_image_count) as (-> & Hx & Hw).
  { simpl in Ha. destruct w; try done; destruct (n_eqb x n_zero); by simplify_eq. }
  apply evaluate_bin in E as ([y iy] & [b ib] & r1 & r2 & r3 & E1 & E2 & E3); [|done|done].
  apply evaluate_lit in E2. injection E2 as -> ->.
  apply evaluate_count in E1 as (z & -> & Hz); [|done]. simpl in E3. simplify_eq.
  unfold is_positive. rewrite Hz. f_equal. clear -Hx.
  destruct x as [[]|[]| |[]]; try done; by destruct z as [[]|[]| |[]].
Qed.

Lemma audio_probe_calls n a f : audio_probe n = Some a -> ~ uses_function f n.
Proof.
  intros Ha Hu. destruct n as [| | | |[] [|w sv ev1| | | |] [[x ix| | |] sx ex| | | | |] s e|]; try done.
  no_uses.
Qed.

Lemma audio_charges ev_ n tiers rt v i rt' : wf n -> audio_tiers n = Some tiers ->
  evaluate ev_ n rt = Ok ((v, i), rt') ->
  exists t, List.find (applies (ev_context ev_)) tiers = Some t /\ charges ev_ t rt v rt'.
Proof.
  intros Hw Ht E. destruct n as [| | | | |[| | | |[] l r sc ec|] y no s e]; try done. simpl in Ht.
  destruct (audio_probe l) as [a|] eqn:Ha; [|done]. destruct (audio_probe r) as [b|] eqn:Hb; [|done].
  case_bool_decide as Hab; [|done]. destruct (tokenTier y []) as [ta|] eqn:Hy; [|done].
  destruct (tokenTier no []) as [tx|] eqn:Hn; [|done]. injection Ht as <-.
  apply wf_unfold in Hw as [_ Hw]. simpl in Hw. apply Forall_cons_iff in Hw as [_ Hw].
  apply Forall_cons_iff in Hw as [Hwy Hw]. apply Forall_cons_iff in Hw as [Hwn _].
  apply evaluate_cond in E as (c & ic & rt1 & rt2 & rt3 & rt4 & E1 & E2 & Hbf & Haf & Hlb).
  2: { intros Hu. apply uses_children in Hu as [(? & ? & ? & ?)|(k & Hk & Hu)]; [done|].
       simpl in Hk. apply elem_of_cons in Hk as [->|Hk]; [by apply (audio_probe_calls _ _ _ Ha) in Hu|].
       apply elem_of_cons in Hk as [->|Hk]; [by apply (audio_probe_calls _ _ _ Hb) in Hu|].
       by apply not_elem_of_nil in Hk. }
  assert (c = is_positive (ev_context ev_) a || is_positive (ev_context ev_) b) as ->.
  { apply evaluate_inv in E1 as (rt5 & E1 & _). simpl in E1.
    apply rbind_ok in E1 as ([c1 rt6] & E3 & E1). apply booleanOf_ok in E3 as [i3 E3].
    apply (audio_probe_value _ _ _ _ _ _ _ Ha) in E3. injection E3 as ->.
    destruct (is_positive _ a); simpl; [by simplify_eq|].
    apply rbind_ok in E1 as ([c1 rt7] & E3 & E1). apply booleanOf_ok in E3 as [i4 E3].
    apply (audio_probe_value _ _ _ _ _ _ _ Hb) in E3. by simplify_eq. }
  assert (is_positive (ev_context ev_) a || is_positive (ev_context ev_) b =
          is_positive (ev_context ev_) V_ai || is_positive (ev_context ev_) V_ao) as Heq.
  { assert (forall n a, audio_probe n = Some a -> a = V_ai \/ a = V_ao) as Hv.
    { intros n a' Hn'. destruct n as [| | | |[] [|[]| | | |] [[]| | | | |] s1 e1|]; simpl in Hn';
        try done; case_match; simplify_eq; eauto. }
    destruct (Hv _ _ Ha) as [->| ->], (Hv _ _ Hb) as [->| ->]; try done. apply orb_comm. }
  assert (forall u k, charges ev_ u rt3 v rt4 -> charges ev_ (with_condition_text k u) rt v rt') as Hup.
  { intros u k (x & -> & [H1 H2 H3]). exists x. split; [done|].
    rewrite Haf, Hlb, <- Hbf. by constructor. }
  assert (applies (ev_context ev_) (with_condition_text (js "Audio requests") ta) =
          is_positive (ev_context ev_) V_ai || is_positive (ev_context ev_) V_ao) as Hpa.
  { unfold applies. by rewrite bool_decide_eq_true_2. }
  assert (applies (ev_context ev_) (with_condition_text (js "Text-only requests") tx) =
          forallb (condition_holds (ev_context ev_)) (tt_conditions tx)) as Hpx.
  { unfold applies. by rewrite bool_decide_eq_false_2. }
  rewrite Heq in E2. cbn [List.find]. rewrite Hpa, Hpx. destruct (_ || _).
  - apply (tier_charges _ _ _ _ _ _ _ _ Hwy Hy) in E2 as [Hc _]. eauto.
  - apply (tier_charges _ _ _ _ _ _ _ _ Hwn Hn) in E2 as (Hc & Hcs & _). rewrite Hcs. simpl. eauto.
Qed.

Lemma find_map_same {A} (f : A -> bool) (g : A -> A) l t :
  (forall x, f (g x) = f x) -> List.find f l = Some t -> List.find f (map g l) = Some (g t).
Proof.
  intros Hg. induction l as [|x l IH]; simpl; [done|]. rewrite Hg. destruct (f x); [|done].
  by intros [= ->].
Qed.

(** Multiplying a charge by the image count. *)
Lemma counted_charges ev_ t rt x rt1 y rt' :
  charges ev_ t rt (J_num x) rt1 -> unit_price rt' = unit_price rt1 ->
  rt_matchedTier rt' = rt_matchedTier rt1 ->
  (y = n_mul (image_count_of (ev_context ev_)) x \/ y = n_mul x (image_count_of (ev_context ev_))) ->
  charges ev_ (with_image_count t) rt (J_num y) rt'.
Proof.
  intros (x' & [= <-] & [H1 H2 (base & Hb & Hc)]) Hu Hl Hy. exists y. split; [done|].
  rewrite Hu, Hl. constructor; [done|done|]. exists base. split; [done|]. simpl.
  destruct Hy as [->| ->]; [by eapply CN_left|by eapply CN_right].
Qed.

Lemma var_state ev_ w s e rt v rt' : evaluate ev_ (Var w s e) rt = Ok (v, rt') ->
  unit_price rt' = unit_price rt /\ rt_matchedTier rt' = rt_matchedTier rt.
Proof.
  intros E. split; [eapply no_fixed_unit|eapply no_tier_label]; try exact E; intros Hu; no_uses.
Qed.

Lemma token_chain_charges ev_ n tiers rt v i rt' : wf n -> readTokenTierChain n = Some tiers ->
  evaluate ev_ n rt = Ok ((v, i), rt') ->
  exists t, List.find (applies (ev_context ev_)) tiers = Some t /\ charges ev_ t rt v rt'.
Proof.
  revert tiers rt v i rt'. induction n as [| | | |o l r s e IHl IHr|c y no s e _ _ _] using node_rect_strong;
    intros tiers rt w i rt' Hw Ht E;
    try exact (chain_charges _ _ _ _ _ _ _ Hw Ht E).
  2: { destruct (audio_tiers (Cond c y no s e)) as [ts|] eqn:Ha; simpl in Ht, Ha;
         rewrite Ha in Ht.
       - injection Ht as <-. by eapply audio_charges.
       - by eapply chain_charges. }
  destruct (decide (o = B_mul)) as [->|Ho].
  2: { simpl in Ht. eapply chain_charges; [done| |exact E]. by destruct o. }
  apply wf_unfold in Hw as Hw'. destruct Hw' as [_ Hw'].
  apply Forall_cons_iff in Hw' as [Hwl Hw']. apply Forall_cons_iff in Hw' as [Hwr _].
  simpl in Ht. destruct (is_image_count l) eqn:Hil; [|destruct (is_image_count r) eqn:Hir].
  - destruct l as [|[] sl el| | | |]; try done. apply fmap_Some in Ht as (ts & Hts & ->).
    apply evaluate_inv in E as (rt1 & E & -> & _). simpl in E.
    apply rbind_ok in E as ([[a ia] rt2] & E1 & E). apply rbind_ok in E as ([[b ib] rt3] & E2 & E).
    apply rbind_ok in E as (z & E3 & E). injection E as -> <-.
    destruct (var_state _ _ _ _ _ _ _ E1) as [Hu _]. apply evaluate_image_count in E1. subst a.
    apply (IHr _ _ _ _ _ Hwr Hts) in E2 as (t & Hf & Hc).
    assert (exists y, b = J_num y) as [y ->] by (destruct Hc as (y & -> & _); eauto).
    apply binary_num in E3; [|set_solver]. subst w.
    exists (with_image_count t). split; [by apply find_map_same|].
    eapply counted_charges; [eapply charged_before; [exact Hu|exact Hc]|done|done|by left].
  - destruct r as [|[] sl el| | | |]; try done. apply fmap_Some in Ht as (ts & Hts & ->).
    apply evaluate_inv in E as (rt1 & E & -> & _). simpl in E.
    apply rbind_ok in E as ([[a ia] rt2] & E1 & E). apply rbind_ok in E as ([[b ib] rt3] & E2 & E).
    apply rbind_ok in E as (z & E3 & E). injection E as -> <-.
    destruct (var_state _ _ _ _ _ _ _ E2) as [Hu Hl]. apply evaluate_image_count in E2. subst b.
    apply (IHl _ _ _ _ _ Hwl Hts) in E1 as (t & Hf & Hc).
    assert (exists y, a = J_num y) as [y ->] by (destruct Hc as (y & -> & _); eauto).
    apply binary_num in E3; [|set_solver]. subst w.
    exists (with_image_count t). split; [by apply find_map_same|].
    eapply counted_charges; [eapply charged_before; [|exact Hc]; done|exact Hu|exact Hl|by right].
  - done.
Qed.

End Refine.

(** C9: the displayed token tiers are what is charged: when the reader
    recognises an expression as a chain of token tiers and its evaluation
    succeeds, the first tier that applies to the token counts exists, its label
    is the matched tier, its fixed price (if any) is the recorded one and decides
    the billing unit, and the cost is its fixed price or the sum of its prices
    times the counts, times the image count where the tier says so. *)
Theorem token_tiers_charged `{Platform} source c cx s tiers :
  compile source = Ready c -> readTokenTierChain (ce_ast c) = Some tiers ->
  evaluate_body c cx = Ok s ->
  exists t, List.find (applies cx) tiers = Some t /\
    charged cx t (Unit_token, None) (es_matchedTier s) (es_billingUnit s, es_fixedPrice s)
      (es_cost s).
Proof.
  intros Hc Ht Hs. apply compile_ready in Hc as Hc'.
  apply evaluate_body_ok in Hs as (ev_ & rt & rt' & i & Hn & He & _ & _ & _ & ->). simpl.
  destruct (new_runtime_ok _ _ _ _ Hn) as (_ & Ex & Hrt).
  apply (token_chain_charges _ _ tiers) in He as (t & Hf & x & [= <-] & Hch);
    [|by apply (parse_wf source), Hc'|done].
  rewrite Ex in *. exists t. split; [done|]. rewrite Hrt in Hch. exact Hch.
Qed.

Definition tiered_source : jstr :=
  js "len <= 200000 ? tier('short', p * 3 + c * 15) : tier('long', p * 6 + 22.5 * c)".
Definition tiered_compiled : compiled_expression := Eval vm_compute in ready (compile tiered_source).
Definition tiered_context : context :=
  Context_ (Some [(V_p, Some (n_of_Z 1000)); (V_c, Some (n_of_Z 10)); (V_len, Some (n_of_Z 300000))])
    None None None None.
Definition tiered_success : evaluation_success :=
  Eval vm_compute in Success (n_of_Z 6225) Unit_token None None (js "long") [].
Definition tiered_tiers : list token_tier :=
  Eval vm_compute in default [] (readTokenTierChain (ce_ast tiered_compiled)).

Lemma token_tiers_charged_witness :
  readTokenTierChain (ce_ast tiered_compiled) = Some tiered_tiers /\
  map tt_label tiered_tiers = [js "short"; js "long"] /\
  exists t, List.find (applies tiered_context) tiered_tiers = Some t /\
    charged tiered_context t (Unit_token, None) (js "long") (Unit_token, None) (n_of_Z 6225).
Proof.
  assert (compile tiered_source = Ready tiered_compiled) as H1 by (vm_compute; reflexivity).
  assert (readTokenTierChain (ce_ast tiered_compiled) = Some tiered_tiers) as H2
    by (vm_compute; reflexivity).
  assert (@evaluate_body plain_platform tiered_compiled tiered_context = Ok tiered_success) as H3
    by (vm_compute; reflexivity).
  split; [exact H2|]. split; [vm_compute; reflexivity|].
  exact (@token_tiers_charged plain_platform _ _ _ _ _ H1 H2 H3).
Defined.
