(* ===== verification/TimeFacts.v ===== *)
(** * Time-dependent tiers

    A condition that reads nothing but the clock has the same value wherever it
    is evaluated, so that the tiers [readTimeTokenPricing] calls current are
    those of the branch an evaluation at that instant takes. *)
From Stdlib Require Import SpecFloat.
From stdpp Require Import strings gmap.
From S2P Require Import Prelude JsString JsNumber JsValue Syntax SyntaxFacts Parser ParserFacts.
From S2P Require Import Compile CompileFacts Runtime RuntimeFacts Semantics Display DisplayFacts.

#[local] Open Scope Z_scope.
#[local] Arguments evaluate : simpl never.

(** ** Conditions on the clock only *)
Definition time_only (n : node) : Prop :=
  (forall v, ~ uses_variable v n) /\
  (forall f, uses_function f n -> is_time_function f || is_math_function f = true).

Lemma time_only_child n c : c ∈ children n -> time_only n -> time_only c.
Proof.
  intros Hc [Hv Hf]. split.
  - intros v (s & e & Hin). apply (Hv v). exists s, e. apply elem_of_postorder_children. eauto.
  - intros f Hu. apply Hf. by eapply uses_child.
Qed.

Lemma isTimeCondition_time_only n : isTimeCondition n = Ok true -> time_only n.
Proof.
  unfold isTimeCondition. intros E. apply rbind_ok in E as (d & Hd & E). injection E as E. bsplit.
  pose proof (dependencies_fits _ _ Hd) as Hfit.
  destruct (dependencies_ok n Hfit) as (d' & Hd' & Hv & Hfn). rewrite Hd in Hd'. injection Hd' as <-.
  split.
  - intros v Hu. apply Hv in Hu. rewrite H in Hu. by apply not_elem_of_nil in Hu.
  - intros f Hu. apply Hfn in Hu. rewrite forallb_forall in H0. apply H0. by apply list_elem_of_In.
Qed.

Section Independent.
Context `{Platform}.
Variables ev1 ev2 : env.
Hypothesis Hnow : ev_now ev1 = ev_now ev2.

Definition follows (n : node) : Prop := forall rt1 v rt1' rt2,
  evaluate ev1 n rt1 = Ok (v, rt1') -> times_ok ev1 rt1 -> times_ok ev2 rt2 ->
  rt_depth rt2 <= rt_depth rt1 ->
  exists rt2', evaluate ev2 n rt2 = Ok (v, rt2') /\ times_ok ev1 rt1' /\ times_ok ev2 rt2' /\
    rt_depth rt2' <= rt_depth rt1'.

Lemma follows_intro n :
  (forall rt1 v rt1' rt2, evaluateNode ev1 (evaluate ev1) n rt1 = Ok (v, rt1') ->
    times_ok ev1 rt1 -> times_ok ev2 rt2 -> rt_depth rt2 <= rt_depth rt1 ->
    exists rt2', evaluateNode ev2 (evaluate ev2) n rt2 = Ok (v, rt2')) -> follows n.
Proof.
  intros Hn rt1 v rt1' rt2 E Ht1 Ht2 Hd.
  assert (exists rt2', evaluate ev2 n rt2 = Ok (v, rt2')) as [rt2' E2].
  { rewrite evaluate_eq in *. cbv zeta in *. simpl rt_depth in *.
    destruct (Z.ltb_spec 256 (rt_depth rt1 + 1)); [done|].
    destruct (Z.ltb_spec 256 (rt_depth rt2 + 1)); [lia|].
    apply rbind_ok in E as ([w r] & E & E'). apply rbind_ok in E' as (w' & Ew & E').
    simplify_eq. destruct (Hn _ _ _ (set_rt_depth (rt_depth rt2 + 1) rt2) E) as [r2 ->];
      [done|done|simpl; lia|]. simpl. rewrite Ew. simpl. eauto. }
  exists rt2'. split; [done|]. split; [by eapply evaluate_times|].
  split; [by eapply evaluate_times|].
  by rewrite (evaluate_depth _ _ _ _ _ E), (evaluate_depth _ _ _ _ _ E2).
Qed.

Lemma follows_boolean n rt1 b rt1' rt2 : follows n -> booleanOf (evaluate ev1) n rt1 = Ok (b, rt1') ->
  times_ok ev1 rt1 -> times_ok ev2 rt2 -> rt_depth rt2 <= rt_depth rt1 ->
  exists rt2', booleanOf (evaluate ev2) n rt2 = Ok (b, rt2') /\ times_ok ev1 rt1' /\ times_ok ev2 rt2' /\
    rt_depth rt2' <= rt_depth rt1'.
Proof.
  intros Hf E Ht1 Ht2 Hd. apply booleanOf_ok in E as [i E].
  destruct (Hf _ _ _ _ E Ht1 Ht2 Hd) as (rt2' & E2 & ?). exists rt2'.
  split; [|done]. apply booleanOf_ok. eauto.
Qed.

Lemma follows_numeric n rt1 x i rt1' rt2 : follows n -> numericOf (evaluate ev1) n rt1 = Ok (x, i, rt1') ->
  times_ok ev1 rt1 -> times_ok ev2 rt2 -> rt_depth rt2 <= rt_depth rt1 ->
  exists rt2', numericOf (evaluate ev2) n rt2 = Ok (x, i, rt2') /\ times_ok ev1 rt1' /\ times_ok ev2 rt2' /\
    rt_depth rt2' <= rt_depth rt1'.
Proof.
  intros Hf E Ht1 Ht2 Hd. apply numericOf_ok in E.
  destruct (Hf _ _ _ _ E Ht1 Ht2 Hd) as (rt2' & E2 & ?). exists rt2'.
  split; [|done]. by apply numericOf_ok.
Qed.

Lemma follows_string n rt1 s rt1' rt2 : follows n -> stringOf (evaluate ev1) n rt1 = Ok (s, rt1') ->
  times_ok ev1 rt1 -> times_ok ev2 rt2 -> rt_depth rt2 <= rt_depth rt1 ->
  exists rt2', stringOf (evaluate ev2) n rt2 = Ok (s, rt2') /\ times_ok ev1 rt1' /\ times_ok ev2 rt2' /\
    rt_depth rt2' <= rt_depth rt1'.
Proof.
  intros Hf E Ht1 Ht2 Hd. apply stringOf_ok in E as [i E].
  destruct (Hf _ _ _ _ E Ht1 Ht2 Hd) as (rt2' & E2 & ?). exists rt2'.
  split; [|done]. apply stringOf_ok. eauto.
Qed.

Lemma follows_time zone rt1 v rt1' rt2 : read_time ev1 zone rt1 = Ok (v, rt1') ->
  times_ok ev1 rt1 -> times_ok ev2 rt2 -> exists rt2', read_time ev2 zone rt2 = Ok (v, rt2').
Proof.
  intros E Ht1 Ht2. assert (timeInBillingZone (ev_now ev1) zone = Ok v) as Hz.
  { unfold read_time in E. rinv; [by apply Ht1|done]. }
  unfold read_time. destruct (rt_timeValues rt2 !! zone) as [w|] eqn:Hw.
  - apply Ht2 in Hw. rewrite <- Hnow, Hz in Hw. injection Hw as ->. eauto.
  - rewrite <- Hnow, Hz. simpl. eauto.
Qed.

Ltac follow_step :=
  match goal with
  | Hf : follows ?n, E : booleanOf _ ?n ?r1 = Ok _, Hd : rt_depth ?r2 <= rt_depth ?r1 |- _ =>
      let E2 := fresh "E2" in
      destruct (follows_boolean _ _ _ _ r2 Hf E) as (? & E2 & ? & ? & ?);
      [assumption|assumption|assumption|clear E; try rewrite E2; simpl]
  | Hf : follows ?n, E : numericOf _ ?n ?r1 = Ok _, Hd : rt_depth ?r2 <= rt_depth ?r1 |- _ =>
      let E2 := fresh "E2" in
      destruct (follows_numeric _ _ _ _ _ r2 Hf E) as (? & E2 & ? & ? & ?);
      [assumption|assumption|assumption|clear E; try rewrite E2; simpl]
  | Hf : follows ?n, E : stringOf _ ?n ?r1 = Ok _, Hd : rt_depth ?r2 <= rt_depth ?r1 |- _ =>
      let E2 := fresh "E2" in
      destruct (follows_string _ _ _ _ r2 Hf E) as (? & E2 & ? & ? & ?);
      [assumption|assumption|assumption|clear E; try rewrite E2; simpl]
  | Hf : follows ?n, E : evaluate ev1 ?n ?r1 = Ok _, Hd : rt_depth ?r2 <= rt_depth ?r1 |- _ =>
      let E2 := fresh "E2" in
      destruct (Hf _ _ _ r2 E) as (? & E2 & ? & ? & ?);
      [assumption|assumption|assumption|clear E; try rewrite E2; simpl]
  end.

Ltac follow := rinv; repeat (follow_step; try match goal with H : (if ?b then _ else _) = _ |- _ => destruct b end); rinv; eauto.

Lemma time_only_follows n : time_only n -> follows n.
Proof.
  induction n as [n IH] using node_ind_children. intros Ht.
  assert (Forall follows (children n)) as Hc.
  { rewrite Forall_elem in *. intros c Hin. eauto using time_only_child. }
  apply follows_intro. intros rt1 v rt1' rt2 E Ht1 Ht2 Hd.
  destruct n as [l s e|w s e|f args s e|o a s e|o l r s e|c y no s e]; simpl in *;
    repeat match goal with Hf : Forall _ (_ :: _) |- _ => inversion_clear Hf end.
  - rinv. eauto.
  - exfalso. apply (proj1 Ht w). exists s, e. apply postorder_self.
  - assert (is_time_function f || is_math_function f = true) as Hf.
    { apply (proj2 Ht). exists args, s, e. apply postorder_self. }
    unfold callOf, value_only in *. cbv zeta in *.
    destruct f; try done; destruct args as [|a0 [|a1 args]]; simpl in E; try done;
      repeat match goal with Hf : Forall _ (_ :: _) |- _ => inversion_clear Hf end.
    all: rinv; repeat follow_step;
      try match goal with H : read_time _ _ _ = Ok _, Ht : times_ok ev2 ?r |- context [read_time ev2 _ ?r] =>
        destruct (follows_time _ _ _ _ r H) as [? ->]; [assumption|assumption|simpl] end; eauto.
  - unfold value_only in *. destruct o; follow.
  - unfold binaryOf in *. destruct o; follow;
      match goal with Hv : binary_values _ _ _ _ = Ok _ |- _ => rewrite Hv; simpl; eauto end.
  - apply rbind_ok in E as ([b r1] & E1 & E). follow_step.
    match goal with Hx : times_ok ev2 ?x, Hy : follows y, Hn : follows no |- context [record_rule ev2 ?m ?x] =>
      destruct b; [destruct (Hy _ _ _ (record_rule ev2 m x) E) as (? & E3 & _)
                  |destruct (Hn _ _ _ x E) as (? & E3 & _)] end; try assumption;
      rewrite E3; eauto.
Qed.
End Independent.

(** ** The current branch *)
Section Current.
Context `{Platform}.

(** A clock condition that holds or fails in an evaluation holds or fails when
    it is evaluated on its own at the same instant. *)
Lemma condition_agrees ev_ n rt b i rt' : time_only n -> times_ok ev_ rt -> 0 <= rt_depth rt ->
  evaluate ev_ n rt = Ok ((J_bool b, i), rt') ->
  evaluateBillingCondition (ev_compiled ev_) n (ev_now ev_) = Some b.
Proof.
  intros Ht Hok Hd E. unfold evaluateBillingCondition, new_runtime. simpl.
  match goal with |- context [evaluate ?e n ?r] =>
    destruct (time_only_follows ev_ e eq_refl n Ht _ _ _ r E) as (r2 & -> & _) end; try done.
Qed.

Lemma leaf_prefix source (chain : option (list token_tier)) (path : list (node * bool)) tiers :
  match chain, path with
  | None, _ | _, [] => None
  | Some tiers, _ => Some (map (time_tier_of source path) tiers)
  end = Some tiers -> Forall (fun t => path `prefix_of` ti_timeConditions t) tiers.
Proof.
  intros E. destruct chain; [|done]. destruct path; [done|]. injection E as <-.
  apply Forall_elem. intros u Hin. apply list_elem_of_fmap in Hin as (t & -> & _). done.
Qed.

Ltac leaf_prefix_tac E :=
  match type of E with
  | context [readTokenTierChain ?m] =>
      let o := fresh "o" in
      revert E; generalize (readTokenTierChain m) as o; intros o E; exact (leaf_prefix _ o _ _ E)
  end.

Lemma branches_prefix compiled n path tiers :
  timeTierBranches compiled n path = Ok (Some tiers) ->
  Forall (fun t => path `prefix_of` ti_timeConditions t) tiers.
Proof.
  revert path tiers. induction n as [| | | | |c y no s e _ IHy IHn] using node_rect_strong;
    intros path tiers E; cbn [timeTierBranches] in E;
    try (apply Ok_inj in E; leaf_prefix_tac E).
  apply rbind_ok in E as ([] & _ & E); [|apply Ok_inj in E; leaf_prefix_tac E].
  apply rbind_ok in E as ([ys|] & Ey & E); apply rbind_ok in E as ([ns|] & En & E); try done.
  injection E as <-. apply Forall_app. split.
  - eapply Forall_impl; [|exact (IHy _ _ Ey)]. intros t Hp. etransitivity; [|exact Hp].
    by apply prefix_app_r.
  - eapply Forall_impl; [|exact (IHn _ _ En)]. intros t Hp. etransitivity; [|exact Hp].
    by apply prefix_app_r.
Qed.

Lemma filter_none {A} (f : A -> bool) l : Forall (fun x => f x = false) l -> List.filter f l = [].
Proof. induction 1 as [|x l Hx _ IH]; simpl; [done|]. by rewrite Hx. Qed.

Lemma mismatch_filtered compiled now path p tiers :
  condition_matches compiled now p = false ->
  Forall (fun t => (path ++ [p]) `prefix_of` ti_timeConditions t) tiers ->
  List.filter (fun t => forallb (condition_matches compiled now) (ti_timeConditions t)) tiers = [].
Proof.
  intros Hp Hall. apply filter_none. eapply Forall_impl; [|exact Hall].
  intros t [k ->]. rewrite !forallb_app. simpl. rewrite Hp. simpl. by rewrite andb_false_r.
Qed.

(** The tiers of the branch taken, below the conditions in [path]. *)
Definition current_chain (ev_ : env) (tiers : list time_tier) (rt : runtime) (v : jsval)
    (rt' : runtime) : Prop :=
  exists chain path,
    List.filter (fun t => forallb (condition_matches (ev_compiled ev_) (ev_now ev_))
                            (ti_timeConditions t)) tiers =
      map (time_tier_of (ce_source (ev_compiled ev_)) path) chain /\
    forallb (condition_matches (ev_compiled ev_) (ev_now ev_)) path = true /\
    exists t, List.find (applies (ev_context ev_)) chain = Some t /\ charges ev_ t rt v rt'.

Lemma leaf_current ev_ n path tiers rt v i rt' : wf n ->
  forallb (condition_matches (ev_compiled ev_) (ev_now ev_)) path = true ->
  match readTokenTierChain n, path with
  | None, _ | _, [] => None
  | Some tiers, _ => Some (map (time_tier_of (ce_source (ev_compiled ev_)) path) tiers)
  end = Some tiers ->
  evaluate ev_ n rt = Ok ((v, i), rt') -> current_chain ev_ tiers rt v rt'.
Proof.
  intros Hw Hp Ht E. destruct (readTokenTierChain n) as [chain|] eqn:Hc; [|done].
  destruct path as [|p path]; [done|]. injection Ht as <-. exists chain, (p :: path).
  split_and!; [|done|by eapply token_chain_charges].
  clear -Hp. induction chain as [|t chain IH]; [done|].
  cbn [map List.filter]. cbn [ti_timeConditions time_tier_of]. rewrite Hp. by f_equal.
Qed.

Lemma branches_current ev_ n path tiers rt v i rt' : wf n ->
  timeTierBranches (ev_compiled ev_) n path = Ok (Some tiers) ->
  forallb (condition_matches (ev_compiled ev_) (ev_now ev_)) path = true ->
  times_ok ev_ rt -> 0 <= rt_depth rt ->
  evaluate ev_ n rt = Ok ((v, i), rt') -> current_chain ev_ tiers rt v rt'.
Proof.
  revert path tiers rt v i rt'.
  induction n as [| | | | |c y no s e _ IHy IHn] using node_rect_strong;
    intros path tiers rt w i rt' Hw Ht Hp Hok Hd E;
    try (apply Ok_inj in Ht; exact (leaf_current _ _ _ _ _ _ _ _ Hw Hp Ht E)).
  cbn [timeTierBranches] in Ht. apply rbind_ok in Ht as ([] & Htc & Ht);
    [|apply Ok_inj in Ht; exact (leaf_current _ _ _ _ _ _ _ _ Hw Hp Ht E)].
  apply rbind_ok in Ht as ([ys|] & Ey & Ht); apply rbind_ok in Ht as ([ns|] & En & Ht); try done.
  injection Ht as <-. apply isTimeCondition_time_only in Htc.
  apply wf_unfold in Hw as [_ Hw]. simpl in Hw. apply Forall_cons_iff in Hw as [_ Hw].
  apply Forall_cons_iff in Hw as [Hwy Hw]. apply Forall_cons_iff in Hw as [Hwn _].
  assert (~ uses_function F_fixed c) as Hfx by (intros Hu; by apply (proj2 Htc) in Hu).
  apply evaluate_inv in E as (rt1 & E & -> & _). simpl in E.
  apply rbind_ok in E as ([b rt2] & E1 & E). apply booleanOf_ok in E1 as [i1 E1].
  pose proof (no_fixed_unit _ _ _ _ _ Hfx E1) as Hu.
  pose proof (evaluate_times _ _ _ _ _ E1 Hok) as Hok2.
  pose proof (evaluate_depth _ _ _ _ _ E1) as Hd2. simpl in Hd2.
  apply condition_agrees in E1; [|done|done|simpl; lia].
  assert (condition_matches (ev_compiled ev_) (ev_now ev_) (c, b) = true) as Hm.
  { unfold condition_matches. simpl. rewrite E1. by rewrite bool_decide_eq_true_2. }
  assert (condition_matches (ev_compiled ev_) (ev_now ev_) (c, negb b) = false) as Hn.
  { unfold condition_matches. simpl. rewrite E1. rewrite bool_decide_eq_false_2; [done|].
    intros [= Hb]. by destruct b. }
  assert (forall q, condition_matches (ev_compiled ev_) (ev_now ev_) q = true ->
    forallb (condition_matches (ev_compiled ev_) (ev_now ev_)) (path ++ [q]) = true) as Hpath.
  { intros q Hq. by rewrite forallb_app, Hp; simpl; rewrite Hq. }
  unfold current_chain. rewrite List.filter_app. destruct b.
  - rewrite (mismatch_filtered _ _ _ _ ns Hn (branches_prefix _ _ _ _ En)), app_nil_r.
    eapply (IHy _ _ _ _ _ _ Hwy Ey (Hpath _ Hm)) in E as (k & p & Hk & Hkp & t & Hf & Hch);
      [|done|simpl; lia].
    exists k, p. split_and!; [done|done|]. exists t. split; [done|].
    eapply charged_before; [|exact Hch]. exact Hu.
  - rewrite (mismatch_filtered _ _ _ _ ys Hn (branches_prefix _ _ _ _ Ey)). simpl app.
    eapply (IHn _ _ _ _ _ _ Hwn En (Hpath _ Hm)) in E as (k & p & Hk & Hkp & t & Hf & Hch);
      [|done|simpl; lia].
    exists k, p. split_and!; [done|done|]. exists t. split; [done|].
    eapply charged_before; [|exact Hch]. exact Hu.
Qed.
End Current.

(** C14: the tiers shown as current are those an evaluation at that instant
    charges: they are the token tiers of one branch of the expression, all of
    whose time conditions hold at that instant, and the evaluation charges the
    first of them that applies to the token counts. *)
Theorem current_tiers_charged `{Platform} source c cx s now tiers current :
  compile source = Ready c ->
  readTimeTokenPricing source (Some now) = Ok (Some (tiers, current)) ->
  cx_now cx = Some now -> evaluate_body c cx = Ok s ->
  exists chain path,
    current = map (time_tier_of source path) chain /\
    forallb (condition_matches c now) path = true /\
    exists t, List.find (applies cx) chain = Some t /\
      charged cx t (Unit_token, None) (es_matchedTier s) (es_billingUnit s, es_fixedPrice s)
        (es_cost s).
Proof.
  intros Hc Hr Hnow Hs. apply compile_ready in Hc as Hc'. unfold readTimeTokenPricing in Hr.
  rewrite Hc in Hr. apply rbind_ok in Hr as ([ts|] & Hts & Hr); [|done].
  injection Hr as <- <-.
  apply evaluate_body_ok in Hs as (ev_ & rt & rt' & i & Hn & He & _ & _ & _ & ->). simpl.
  assert (ev_now ev_ = now) as Hn'.
  { unfold new_runtime in Hn. rewrite Hnow in Hn. by rinv. }
  destruct (new_runtime_ok _ _ _ _ Hn) as (Ec & Ex & Hrt).
  assert (wf (ce_ast c)) as Hw by (by apply (parse_wf source), Hc').
  subst c cx now. rewrite <- (co_source _ _ Hc').
  apply (branches_current _ _ [] ts) in He as (chain & path & H1 & H2 & t & Hf & x & [= <-] & Hch);
    [|done|done|done| |by rewrite Hrt].
  - exists chain, path. split_and!; [done|done|]. exists t. split; [done|].
    rewrite Hrt in Hch. exact Hch.
  - rewrite Hrt. intros z v Hz. simpl in Hz. by rewrite lookup_empty in Hz.
Qed.

Definition clock_source : jstr :=
  js "hour('UTC') >= 20 ? tier('night', p * 1) : len < 100 ? tier('small', p * 2) : tier('big', p * 4)".
Definition clock_compiled : compiled_expression := Eval vm_compute in ready (compile clock_source).
Definition clock_context : context :=
  Context_ (Some [(V_p, Some (n_of_Z 1000)); (V_len, Some (n_of_Z 500))]) None None (Some (Some 0)) None.

Lemma current_tiers_charged_witness :
  let _ := plain_platform in
  exists tiers current s,
    readTimeTokenPricing clock_source (Some (Some 0)) = Ok (Some (tiers, current)) /\
    length tiers = 3%nat /\ length current = 2%nat /\
    exists chain path, current = map (time_tier_of clock_source path) chain /\
      exists t, List.find (applies clock_context) chain = Some t /\
      charged clock_context t (Unit_token, None) (js "big") (Unit_token, None) (es_cost s).
Proof.
  intros P.
  assert (compile clock_source = Ready clock_compiled) as H1 by (vm_compute; reflexivity).
  destruct (readTimeTokenPricing clock_source (Some (Some 0))) as [[[tiers current]|]|] eqn:H2;
    [|vm_compute in H2; discriminate|vm_compute in H2; discriminate].
  pose (s := Success (n_of_Z 4000) Unit_token None None (js "big") []).
  assert (evaluate_body clock_compiled clock_context = Ok s) as H3 by (vm_compute; reflexivity).
  exists tiers, current, s. split; [reflexivity|].
  assert (length tiers = 3%nat /\ length current = 2%nat) as [Hl1 Hl2].
  { vm_compute in H2. injection H2 as <- <-. split; reflexivity. }
  split; [exact Hl1|]. split; [exact Hl2|].
  destruct (@current_tiers_charged plain_platform _ _ clock_context _ _ _ _ H1 H2 eq_refl H3)
    as (chain & path & Hcur & _ & Ht).
  exists chain, path. split; [exact Hcur|exact Ht].
Defined.
