(* ===== verification/TaskTiers.v ===== *)
(** * Reading task tiers

    Models the task half of [billing-expression/display.ts]
    ([readTaskTierChain] and its helpers), the usage schema of
    [features/pricing/types.ts], and [billing-expression/task-display.ts]
    ([readConditionalTaskPricing]), which enumerates the declared categorical
    facts and reads a symbolic linear price for each.  A schema is the list of
    its own properties; looking a field up also finds the names every object
    inherits, whose values carry none of the schema's attributes. *)
From Stdlib Require Import SpecFloat.
From stdpp Require Import strings gmap.
From S2P Require Import Prelude JsString JsNumber JsValue Syntax Compile Runtime Display.

#[local] Open Scope Z_scope.

(** ** Usage schemas *)
Inductive usage_unit := Unit_second | Unit_count | Unit_tokens | Unit_credit.
Inductive field_type := Field_number | Field_boolean.

#[global] Instance usage_unit_eq_dec : EqDecision usage_unit.
Proof. solve_decision. Defined.
#[global] Instance field_type_eq_dec : EqDecision field_type.
Proof. solve_decision. Defined.

(** A plain text, or a text per language. *)
Inductive localized_text := LT_text (s : jstr) | LT_map (texts : list (jstr * jstr)).

(** [BillingUsageFieldSchema] *)
Record usage_field := UsageFieldOf {
  uf_type : option field_type;
  uf_unit : option usage_unit;
  uf_enum : option (list jstr);
  uf_unitLabel : option localized_text;
  uf_enumLabels : option (list (jstr * localized_text));
  uf_description : option localized_text;
}.

(** A field without texts. *)
Definition UsageField (type : option field_type) (unit : option usage_unit) (values : option (list jstr)) : usage_field :=
  UsageFieldOf type unit values None None None.

Notation usage_schema := (list (jstr * usage_field)).

(** [schema[field]] *)
Definition schema_get (schema : usage_schema) (field : jstr) : option usage_field :=
  match obj_get field schema with
  | Some d => Some d
  | None =>
      if bool_decide (field ∈ inherited_names) then Some (UsageField None None None) else None
  end.

(** ** Task tier chains *)
Record task_condition := TaskCondition { tk_field : jstr; tk_value : jstr }.

#[global] Instance task_condition_eq_dec : EqDecision task_condition.
Proof. solve_decision. Defined.

Record task_tier := TaskTier {
  kt_conditionText : option jstr;
  kt_label : jstr;
  kt_conditions : list task_condition;
  kt_constant : num;
  kt_unitPrices : list (jstr * num);
}.

Inductive task_conditions :=
| TC_null
| TC_unreachable
| TC_list (l : list task_condition).

Definition bool_text (b : bool) : jstr := if b then js "true" else js "false".

(** A term [u('field') == literal]. *)
Definition usage_probe (term : node) : option (jstr * literal) :=
  match term with
  | Bin B_eq (Call F_u (Lit (L_str field) _ _ :: _) _ _) (Lit value _ _) _ _ => Some (field, value)
  | _ => None
  end.

(** What one term adds: [None] to give up, else the conditions so far and
    whether the branch can still match. *)
Definition task_condition_step (schema : usage_schema) (includeBoolean : bool) (term : node)
    (st : list task_condition * bool) : option (list task_condition * bool) :=
  let '(conditions, reachable) := st in
  match usage_probe term with
  | None => None
  | Some (field, value) =>
      match schema_get schema field with
      | None =>
          match value with
          | L_bool true => Some (conditions, false)
          | L_bool false | L_str _ => Some (conditions, reachable)
          | _ => None
          end
      | Some definition =>
          if bool_decide (uf_type definition = Some Field_boolean) then
            match value with
            | L_bool b =>
                if includeBoolean
                then Some (conditions ++ [TaskCondition field (bool_text b)], reachable)
                else None
            | _ => None
            end
          else
            match value, uf_enum definition with
            | L_str s, Some values =>
                Some (conditions ++ [TaskCondition field s],
                      reachable && bool_decide (s ∈ values))
            | _, _ => None
            end
      end
  end.

Fixpoint task_condition_terms (schema : usage_schema) (includeBoolean : bool) (terms : list node)
    (st : list task_condition * bool) : option (list task_condition * bool) :=
  match terms with
  | [] => Some st
  | term :: terms =>
      match task_condition_step schema includeBoolean term st with
      | Some st => task_condition_terms schema includeBoolean terms st
      | None => None
      end
  end.

Definition taskConditions (n : node) (schema : usage_schema) (includeBoolean : bool)
  : task_conditions :=
  match task_condition_terms schema includeBoolean (flattenBinary n B_and) ([], true) with
  | None => TC_null
  | Some (conditions, reachable) => if reachable then TC_list conditions else TC_unreachable
  end.

(** [term.kind === 'binary' && term.operator === '/'], and what is divided;
    [None] when the divisor is not a million. *)
Definition unscale (term : node) : option (bool * node) :=
  match term with
  | Bin B_div l r _ _ =>
      match r with
      | Lit (L_num x _) _ _ => if n_eqb x n_million then Some (true, l) else None
      | _ => None
      end
  | _ => Some (false, term)
  end.

(** [u('field') * price] *)
Definition usage_price (term : node) : option (jstr * num) :=
  match term with
  | Bin B_mul (Call F_u (Lit (L_str field) _ _ :: _) _ _) r _ _ =>
      (fun price => (field, price)) <$> nonnegativePriceLiteral r
  | _ => None
  end.

(** The loop over the terms of a tier's price: the constant, whether there was
    one, and the unit prices. *)
Fixpoint task_price_terms (schema : usage_schema) (terms : list node)
    (st : num * bool * list (jstr * num)) : option (num * bool * list (jstr * num)) :=
  match terms with
  | [] => Some st
  | term :: terms =>
      let '(constant, hasConstant, unitPrices) := st in
      match nonnegativePriceLiteral term with
      | Some literal =>
          if hasConstant then None
          else task_price_terms schema terms (literal, true, unitPrices)
      | None =>
          match unscale term with
          | None => None
          | Some (scaled, term) =>
              match usage_price term with
              | None => None
              | Some (field, price) =>
                  match schema_get schema field with
                  | None => task_price_terms schema terms st
                  | Some definition =>
                      match uf_type definition, uf_unit definition with
                      | Some Field_number, Some unit =>
                          if bool_decide (field ∈ unitPrices.*1) then None
                          else if Bool.eqb (bool_decide (unit = Unit_tokens)) scaled
                          then task_price_terms schema terms
                                 (constant, hasConstant, obj_set field price unitPrices)
                          else None
                      | _, _ => None
                      end
                  end
              end
          end
      end
  end.

Definition taskTier (n : node) (conditions : list task_condition) (schema : usage_schema)
  : option task_tier :=
  match n with
  | Call F_tier (Lit (L_str label) _ _ :: body :: _) _ _ =>
      match task_price_terms schema (flattenBinary body B_add) (n_zero, false, []) with
      | Some (constant, _, p :: unitPrices) =>
          Some (TaskTier None label conditions constant (p :: unitPrices))
      | _ => None
      end
  | _ => None
  end.

(** An earlier tier whose conditions are among [conditions] wins over them. *)
Definition shadows (conditions : list task_condition) (earlier : task_tier) : bool :=
  forallb (fun c => bool_decide (c ∈ conditions)) (kt_conditions earlier).

(** The loop of [readTaskTierChain]. *)
Fixpoint task_chain (n : node) (schema : usage_schema) (includeBoolean : bool)
    (tiers : list task_tier) : option (list task_tier) :=
  match n with
  | Cond c yes no _ _ =>
      match taskConditions c schema includeBoolean with
      | TC_null => None
      | TC_unreachable => task_chain no schema includeBoolean tiers
      | TC_list conditions =>
          if existsb (shadows conditions) tiers then task_chain no schema includeBoolean tiers
          else
            match taskTier yes conditions schema with
            | None => None
            | Some tier =>
                match conditions with
                | [] => Some (tiers ++ [tier])
                | _ => task_chain no schema includeBoolean (tiers ++ [tier])
                end
            end
      end
  | _ => (fun fallback => tiers ++ [fallback]) <$> taskTier n [] schema
  end.

Definition readTaskTierChain (n : node) (schema : usage_schema) (includeBoolean : bool)
  : option (list task_tier) :=
  task_chain n schema includeBoolean [].
