(* ===== verification/TaskDisplay.v ===== *)
(** * Conditional task pricing

    Models [billing-expression/task-display.ts].  The context's step budget
    [remaining], which every call decrements, is threaded through the
    definitions: each returns its answer with the budget that is left.  A [Map]
    from condition texts to booleans is the list of its entries, in order. *)
From Stdlib Require Import SpecFloat.
From stdpp Require Import strings gmap.
From S2P Require Import Prelude JsString JsNumber JsValue Syntax Compile Runtime Display TaskTiers.

#[local] Open Scope Z_scope.

Definition MAX_DISPLAY_ROWS : Z := 128.

(** A categorical fact: a string of an enumeration or a boolean. *)
Inductive fact := Fact_str (s : jstr) | Fact_bool (b : bool).

Record price_branch := PriceBranch {
  pb_label : option jstr;
  pb_constant : num;
  pb_prices : list (jstr * num);
  pb_times : list (jstr * bool);
}.

(** The parts of [TaskDisplayContext] that stay fixed during a walk. *)
Record task_context := TaskContext {
  kx_source : jstr;
  kx_schema : usage_schema;
  kx_facts : list (jstr * fact);
}.

(** The answer of [taskDisplayCondition]. *)
Inductive condition_answer :=
| CA_null
| CA_bool (b : bool)
| CA_text (s : jstr).

Definition parens (s : jstr) : jstr := js "(" ++ s ++ js ")".

(** The comparison of a declared fact with a literal: the loop over the two
    orders of the operands.  [None] when neither operand is such a probe. *)
Definition fact_probe (probe lit : node) : option (jstr * literal) :=
  match probe, lit with
  | Call F_u (Lit (L_str key) _ _ :: _) _ _, Lit value _ _ => Some (key, value)
  | _, _ => None
  end.

Definition fact_answer (kx : task_context) (equality : bool) (p : jstr * literal)
  : condition_answer :=
  let '(key, value) := p in
  match obj_get key (kx_facts kx) with
  | None => CA_null
  | Some f =>
      let definition := default (UsageField None None None) (schema_get (kx_schema kx) key) in
      if bool_decide (uf_type definition = Some Field_boolean) then
        match value with
        | L_bool b =>
            let equal := match f with Fact_bool b' => Bool.eqb b' b | Fact_str _ => false end in
            CA_bool (Bool.eqb equality equal)
        | _ => CA_null
        end
      else
        match value with
        | L_str s =>
            match uf_enum definition with
            | Some values =>
                if bool_decide (s ∈ values) then
                  let equal := match f with Fact_str s' => bool_decide (s' = s) | Fact_bool _ => false end in
                  CA_bool (Bool.eqb equality equal)
                else CA_bool (negb equality)
            | None => CA_bool (negb equality)
            end
        | _ => CA_null
        end
  end.

Definition is_call (n : node) : bool := match n with Call _ _ _ _ => true | _ => false end.

(** A number literal, or a clock reading in a literal zone other than the
    server's. *)
Definition is_clock_operand (n : node) : bool :=
  match n with
  | Lit (L_num _ _) _ _ => true
  | Call (F_time _) (Lit (L_str zone) _ _ :: _) _ _ => bool_decide (trim zone <> js "Local")
  | _ => false
  end.

Definition is_comparison (o : binary_operator) : bool :=
  match o with B_eq | B_ne | B_lt | B_le | B_gt | B_ge => true | _ => false end.

Definition clock_answer (kx : task_context) (o : binary_operator) (l r : node) (s e : nat)
  : condition_answer :=
  if is_comparison o && (is_call l || is_call r) && is_clock_operand l && is_clock_operand r
  then CA_text (slice (kx_source kx) s e) else CA_null.

Fixpoint taskDisplayCondition (kx : task_context) (n : node) (remaining : Z)
  : condition_answer * Z :=
  let remaining := remaining - 1 in
  if remaining <? 0 then (CA_null, remaining) else
  match n with
  | Lit (L_bool b) _ _ => (CA_bool b, remaining)
  | Un U_not a _ _ =>
      let '(v, remaining) := taskDisplayCondition kx a remaining in
      (match v with
       | CA_null => CA_null
       | CA_bool b => CA_bool (negb b)
       | CA_text t => CA_text (js "!" ++ parens t)
       end, remaining)
  | Bin o l r s e =>
      match o with
      | B_and | B_or =>
          let '(a, remaining) := taskDisplayCondition kx l remaining in
          let '(b, remaining) := taskDisplayCondition kx r remaining in
          let shortCircuit := bool_decide (o = B_or) in
          (match a, b with
           | CA_null, _ | _, CA_null => CA_null
           | CA_bool x, CA_bool y =>
               if Bool.eqb x shortCircuit || Bool.eqb y shortCircuit
               then CA_bool shortCircuit else CA_bool y
           | CA_bool x, CA_text t => if Bool.eqb x shortCircuit then CA_bool shortCircuit else CA_text t
           | CA_text t, CA_bool y => if Bool.eqb y shortCircuit then CA_bool shortCircuit else CA_text t
           | CA_text t, CA_text t' =>
               CA_text (parens t ++ js " " ++ binary_text o ++ js " " ++ parens t')
           end, remaining)
      | B_eq | B_ne =>
          let equality := bool_decide (o = B_eq) in
          (match fact_probe l r with
           | Some p => fact_answer kx equality p
           | None =>
               match fact_probe r l with
               | Some p => fact_answer kx equality p
               | None => clock_answer kx o l r s e
               end
           end, remaining)
      | _ => (clock_answer kx o l r s e, remaining)
      end
  | _ => (CA_null, remaining)
  end.

(** ** Linear prices *)
Definition times_get (key : jstr) (times : list (jstr * bool)) : option bool := obj_get key times.

(** [new Map([...entries])] *)
Fixpoint map_set {A} (key : jstr) (v : A) (m : list (jstr * A)) : list (jstr * A) :=
  match m with
  | [] => [(key, v)]
  | (k, w) :: rest => if bool_decide (k = key) then (k, v) :: rest else (k, w) :: map_set key v rest
  end.

Definition map_of {A} (entries : list (jstr * A)) : list (jstr * A) :=
  fold_left (fun m p => map_set (fst p) (snd p) m) entries [].

(** The two times contradict each other. *)
Definition contradicts (a b : list (jstr * bool)) : bool :=
  existsb (fun p => match times_get (fst p) b with
                    | Some v => negb (Bool.eqb v (snd p))
                    | None => false
                    end) a.

Definition price_of (field : jstr) (prices : list (jstr * num)) : num :=
  default n_zero (obj_get field prices).

Definition price_ok (x : num) : bool := is_finite x && n_leb n_zero x.

Definition is_empty {A} (l : list A) : bool := match l with [] => true | _ => false end.

(** The sum, product or quotient of two linear prices; [None] when it is not
    linear. *)
Definition linear_combination (o : binary_operator) (a b : price_branch)
  : option (num * list (jstr * num)) :=
  let aQuantity := negb (is_empty (pb_prices a)) in
  let bQuantity := negb (is_empty (pb_prices b)) in
  match o with
  | B_add =>
      let fields := fold_left (fun l f => set_add f l)
                      ((pb_prices a).*1 ++ (pb_prices b).*1) [] in
      Some (n_add (pb_constant a) (pb_constant b),
            fold_left (fun prices f =>
              obj_set f (n_add (price_of f (pb_prices a)) (price_of f (pb_prices b))) prices)
              fields [])
  | _ =>
      let division := bool_decide (o = B_div) in
      if (aQuantity && bQuantity)
         || (division && (bQuantity || n_leb (pb_constant b) n_zero))
      then None
      else
        let quantity := if aQuantity then a else b in
        let factor := if aQuantity then pb_constant b else pb_constant a in
        let factor := if division then n_div n_one (pb_constant b) else factor in
        let constant := if division then n_div (pb_constant a) (pb_constant b)
                        else n_mul (pb_constant a) (pb_constant b) in
        Some (constant,
              fold_left (fun prices p => obj_set (fst p) (n_mul (snd p) factor) prices)
                (pb_prices quantity) [])
  end.

(** The combination, unless some part of it is not a price. *)
Definition combine_prices (o : binary_operator) (a b : price_branch)
  : option (num * list (jstr * num)) :=
  match linear_combination o a b with
  | Some (constant, prices) =>
      if forallb price_ok (constant :: prices.*2) then Some (constant, prices) else None
  | None => None
  end.

Definition either_label (a b : option jstr) : option jstr :=
  match a with Some l => Some l | None => b end.

(** One pair of branches: [None] to give up, else nothing (contradictory times)
    or the combined branch. *)
Definition combine_branch (o : binary_operator) (a b : price_branch) : option (list price_branch) :=
  match pb_label a, pb_label b with
  | Some _, Some _ => None
  | _, _ =>
      if contradicts (pb_times a) (pb_times b) then Some []
      else
        match combine_prices o a b with
        | None => None
        | Some (constant, prices) =>
            Some [PriceBranch (either_label (pb_label a) (pb_label b)) constant prices
                    (map_of (pb_times a ++ pb_times b))]
        end
  end.

Definition combine_branches (o : binary_operator) (l r : list price_branch)
  : option (list price_branch) :=
  mjoin <$> mapM (fun '(a, b) => combine_branch o a b) (list_prod l r).

Definition add_time (condition : jstr) (matches : bool) (child : price_branch)
  : list price_branch :=
  match times_get condition (pb_times child) with
  | Some v => if Bool.eqb v matches
              then [PriceBranch (pb_label child) (pb_constant child) (pb_prices child)
                      (map_of ((condition, matches) :: pb_times child))]
              else []
  | None => [PriceBranch (pb_label child) (pb_constant child) (pb_prices child)
               (map_of ((condition, matches) :: pb_times child))]
  end.

Definition within_rows (n : nat) : bool := Z.of_nat n <=? MAX_DISPLAY_ROWS.

Fixpoint taskPriceBranches (kx : task_context) (n : node) (remaining : Z)
  : option (list price_branch) * Z :=
  let remaining := remaining - 1 in
  if remaining <? 0 then (None, remaining) else
  match n with
  | Lit (L_num x _) _ _ =>
      (if n_leb n_zero x then Some [PriceBranch None x [] []] else None, remaining)
  | Call F_u (Lit (L_str field) _ _ :: _) _ _ =>
      (match schema_get (kx_schema kx) field with
       | Some definition =>
           match uf_type definition, uf_unit definition with
           | Some Field_number, Some _ =>
               Some [PriceBranch None n_zero [(field, n_one)] []]
           | _, _ => None
           end
       | None => None
       end, remaining)
  | Call F_tier [Lit (L_str label) _ _; body] _ _ =>
      let '(branches, remaining) := taskPriceBranches kx body remaining in
      (match branches with
       | None => None
       | Some branches =>
           if existsb (fun b => bool_decide (is_Some (pb_label b))) branches then None
           else Some (map (fun b => PriceBranch (Some label) (pb_constant b) (pb_prices b)
                                      (pb_times b)) branches)
       end, remaining)
  | Cond c yes no _ _ =>
      let '(condition, remaining) := taskDisplayCondition kx c remaining in
      match condition with
      | CA_null => (None, remaining)
      | CA_bool b => taskPriceBranches kx (if b then yes else no) remaining
      | CA_text text =>
          let '(y, remaining) := taskPriceBranches kx yes remaining in
          match y with
          | None => (None, remaining)
          | Some y =>
              let '(z, remaining) := taskPriceBranches kx no remaining in
              match z with
              | None => (None, remaining)
              | Some z =>
                  let branches := mjoin (map (add_time text true) y)
                                  ++ mjoin (map (add_time text false) z) in
                  (if within_rows (length branches) then Some branches else None, remaining)
              end
          end
      end
  | Bin o l r _ _ =>
      match o with
      | B_add | B_mul | B_div =>
          let '(a, remaining) := taskPriceBranches kx l remaining in
          let '(b, remaining) := taskPriceBranches kx r remaining in
          (match a, b with
           | Some a, Some b =>
               if within_rows (length a * length b) then combine_branches o a b else None
           | _, _ => None
           end, remaining)
      | _ => (None, remaining)
      end
  | _ => (None, remaining)
  end.

(** ** [readConditionalTaskPricing] *)

(** The visitor that collects the declared usage fields. *)
Definition collect_field (schema : usage_schema) (n : node) (st : list jstr * bool)
  : outcome (list jstr * bool) :=
  let '(fields, valid) := st in
  match n with
  | Call F_u (key :: _) _ _ =>
      match key with
      | Lit (L_str k) _ _ =>
          if bool_decide (k ∈ schema.*1) then Ok (set_add k fields, valid) else Ok (fields, false)
      | _ => Ok (fields, false)
      end
  | Call F_u [] _ _ => type_error
  | _ => Ok st
  end.

(** The values of a categorical field. *)
Definition field_values (definition : usage_field) : option (list fact) :=
  match uf_type definition with
  | Some Field_boolean => Some [Fact_bool false; Fact_bool true]
  | _ => map Fact_str <$> uf_enum definition
  end.

Fixpoint fact_combinations (schema : usage_schema) (fields : list jstr)
    (combinations : list (list (jstr * fact))) : option (list (list (jstr * fact))) :=
  match fields with
  | [] => Some combinations
  | field :: fields =>
      let definition := default (UsageField None None None) (schema_get schema field) in
      if bool_decide (uf_type definition = Some Field_number)
      then fact_combinations schema fields combinations
      else
        match field_values definition with
        | None | Some [] => None
        | Some values =>
            if within_rows (length combinations * length values) then
              fact_combinations schema fields
                (mjoin (map (fun facts => map (fun v => obj_set field v facts) values) combinations))
            else None
        end
  end.

Definition fact_text (f : fact) : jstr :=
  match f with Fact_str s => s | Fact_bool b => bool_text b end.

(** The displayed unit prices of a branch, in the order of the fields. *)
Definition branch_unit_prices (schema : usage_schema) (fields : list jstr) (b : price_branch)
  : list (jstr * num) :=
  fold_left (fun prices field =>
    match schema_get schema field with
    | Some (UsageFieldOf (Some Field_number) (Some unit) _ _ _ _) =>
        obj_set field
          (n_mul (price_of field (pb_prices b))
             (if bool_decide (unit = Unit_tokens) then n_million else n_one)) prices
    | _ => prices
    end) fields [].

Definition branch_tier (schema : usage_schema) (fields : list jstr) (facts : list (jstr * fact))
    (b : price_branch) : option task_tier :=
  match pb_label b with
  | None => None
  | Some label =>
      let unitPrices := branch_unit_prices schema fields b in
      if is_empty unitPrices || negb (forallb (fun p => is_finite (snd p)) unitPrices) then None
      else
        let text := join (js " && ") (map (fun '(condition, matches) =>
          if matches : bool then parens condition else js "!" ++ parens condition) (pb_times b)) in
        Some (TaskTier (match text with [] => None | _ => Some text end) label
                (map (fun '(f, v) => TaskCondition f (fact_text v)) facts)
                (pb_constant b) unitPrices)
  end.

(** The loop over the combinations of facts. *)
Fixpoint combination_tiers (source : jstr) (schema : usage_schema) (fields : list jstr) (ast : node)
    (combinations : list (list (jstr * fact))) (remaining : Z) (tiers : list task_tier)
  : option (list task_tier) :=
  match combinations with
  | [] => Some tiers
  | facts :: combinations =>
      let '(branches, remaining) := taskPriceBranches (TaskContext source schema facts) ast remaining in
      match branches with
      | None => None
      | Some branches =>
          if within_rows (length tiers + length branches) then
            match mapM (branch_tier schema fields facts) branches with
            | None => None
            | Some new =>
                combination_tiers source schema fields ast combinations remaining (tiers ++ new)
            end
          else None
      end
  end.

Definition readConditionalTaskPricing (source : jstr) (schema : usage_schema)
  : outcome (option (list task_tier)) :=
  match compile source with
  | Failed _ => Ok None
  | Ready compiled =>
      let* '(fields, valid) := visitExpression (ce_ast compiled) (collect_field schema) ([], true) in
      if negb valid then Ok None
      else
        match fact_combinations schema fields [[]] with
        | None => Ok None
        | Some combinations =>
            Ok (combination_tiers source schema fields (ce_ast compiled) combinations 20000 [])
        end
  end.
