(* ===== verification/TaskFacts.v ===== *)
(** * Task tiers are what a task is charged

    When the plugin reports every fact its schema declares, and the expression
    reads only declared facts, the tiers [readTaskTierChain] shows (with the
    unreachable and shadowed branches dropped) charge exactly as the evaluation:
    the first tier whose conditions the facts satisfy. *)
From Stdlib Require Import SpecFloat.
From stdpp Require Import strings gmap.
From S2P Require Import Prelude JsString JsNumber JsValue Syntax SyntaxFacts Parser ParserFacts.
From S2P Require Import Compile CompileFacts Runtime RuntimeFacts Semantics Display DisplayFacts TaskTiers.

#[local] Open Scope Z_scope.
#[local] Arguments evaluate : simpl never.
#[local] Arguments task_condition_step : simpl never.

Notation usage := (list (jstr * jsval)).

(** Every usage field the tree reads by a literal name is declared. *)
Definition declared (schema : usage_schema) (n : node) : Prop :=
  forall field s e args s' e',
    Call F_u (Lit (L_str field) s e :: args) s' e' ∈ postorder n -> field ∈ schema.*1.

Definition declaredb (schema : usage_schema) (n : node) : bool :=
  forallb (fun m => match m with
    | Call F_u (Lit (L_str field) _ _ :: _) _ _ => bool_decide (field ∈ schema.*1)
    | _ => true
    end) (postorder n).

Lemma declaredb_ok schema n : declaredb schema n = true -> declared schema n.
Proof.
  unfold declaredb. rewrite forallb_forall. intros Hall field s e args s' e' Hin.
  apply list_elem_of_In in Hin. apply Hall in Hin. by apply bool_decide_eq_true in Hin.
Qed.

(** The reported facts conform to the schema. *)
Definition conforming (schema : usage_schema) (u : usage) : Prop :=
  forall field d, obj_get field schema = Some d ->
    match uf_type d with
    | Some Field_boolean => exists b, own_property u field = Some (J_bool b)
    | _ => forall values, uf_enum d = Some values ->
        exists s, s ∈ values /\ own_property u field = Some (J_str s)
    end.

Definition fact_holds (u : usage) (c : task_condition) : bool :=
  match own_property u (tk_field c) with
  | Some (J_str s) => bool_decide (s = tk_value c)
  | Some (J_bool b) => bool_decide (bool_text b = tk_value c)
  | _ => false
  end.

Definition tier_holds (u : usage) (t : task_tier) : bool := forallb (fact_holds u) (kt_conditions t).

(** What one priced term costs: a constant, or a reported quantity times its
    unit price, per million for tokens. *)
Definition contribution_value (schema : usage_schema) (u : usage) (c : num + jstr * num) (x : num)
  : Prop :=
  match c with
  | inl k => x = k
  | inr (field, price) =>
      exists d unit q, schema_get schema field = Some d /\ uf_unit d = Some unit /\
        own_property u field = Some (J_num q) /\
        x = if bool_decide (unit = Unit_tokens) then n_div (n_mul q price) n_million
            else n_mul q price
  end.

Definition constants (l : list (num + jstr * num)) : list num :=
  omap (fun c => match c with inl k => Some k | inr _ => None end) l.
Definition units (l : list (num + jstr * num)) : list (jstr * num) :=
  omap (fun c => match c with inl _ => None | inr p => Some p end) l.

(** The cost of a tier: its constant, if any, and the contribution of each of
    its unit prices, summed in some order. *)
Definition task_cost (schema : usage_schema) (u : usage) (t : task_tier) (cost : num) : Prop :=
  exists contributions values,
    (constants contributions = [kt_constant t] \/
     (constants contributions = [] /\ kt_constant t = n_zero)) /\
    Permutation (kt_unitPrices t) (units contributions) /\
    Forall2 (contribution_value schema u) contributions values /\
    sum_of values cost.

Lemma obj_get_elem {A} key (o : list (jstr * A)) : key ∈ o.*1 -> exists v, obj_get key o = Some v.
Proof.
  unfold obj_get. induction o as [|[k v] o IH]; simpl; intros H; [by apply not_elem_of_nil in H|].
  case_bool_decide; simpl; [by eauto|]. apply elem_of_cons in H as [->|H]; [done|auto].
Qed.

Lemma declared_get schema field : field ∈ schema.*1 ->
  exists d, obj_get field schema = Some d /\ schema_get schema field = Some d.
Proof. intros H. apply obj_get_elem in H as [d Hd]. exists d. unfold schema_get. by rewrite Hd. Qed.

Lemma declared_child schema n c : c ∈ children n -> declared schema n -> declared schema c.
Proof.
  intros Hc Hd field s e args s' e' Hin. eapply Hd. apply elem_of_postorder_children. eauto.
Qed.

Lemma usage_probe_inv term field value : usage_probe term = Some (field, value) ->
  exists sf ef args sc ec sl el s e,
    term = Bin B_eq (Call F_u (Lit (L_str field) sf ef :: args) sc ec) (Lit value sl el) s e.
Proof.
  intros Hp. destruct term as [| | | |o l r s e|]; try done. destruct o; try done.
  destruct l as [| |f args sc ec| | |]; try done. destruct f; try done.
  destruct args as [|a args]; try done. destruct a as [lv sf ef| | | | |]; try done.
  destruct lv; try done. destruct r; try done. injection Hp as <- <-. by repeat eexists.
Qed.

Lemma usage_price_inv term field price : usage_price term = Some (field, price) ->
  exists sf ef args sc ec r s e, nonnegativePriceLiteral r = Some price /\
    term = Bin B_mul (Call F_u (Lit (L_str field) sf ef :: args) sc ec) r s e.
Proof.
  intros Hp. destruct term as [| | | |o l r s e|]; try done. destruct o; try done.
  destruct l as [| |f args sc ec| | |]; try done. destruct f; try done.
  destruct args as [|a args]; try done. destruct a as [lv sf ef| | | | |]; try done.
  destruct lv; try done. apply fmap_Some in Hp as (x & Hx & [= -> ->]). by repeat eexists.
Qed.

Section TaskRefine.
Context `{Platform}.
Variables (schema : usage_schema) (ib : bool) (ev_ : env) (u : usage).
Hypothesis Hu : cx_usage (ev_context ev_) = Some u.
Hypothesis Hconf : conforming schema u.

Lemma evaluate_usage field s e s' e' rt v i rt' :
  evaluate ev_ (Call F_u [Lit (L_str field) s e] s' e') rt = Ok ((v, i), rt') ->
  v = default J_null (own_property u field).
Proof.
  intros E. apply evaluate_inv in E as (rt1 & E & _). simpl in E.
  apply rbind_ok in E as ([name rt2] & E1 & E). apply stringOf_ok in E1 as [j E1].
  apply evaluate_lit in E1. injection E1 as -> _. rewrite Hu in E.
  unfold value_only in E. by simplify_eq.
Qed.

(** ** Conditions *)
Lemma probe_value term field value rt v i rt' : wf term -> usage_probe term = Some (field, value) ->
  evaluate ev_ term rt = Ok ((v, i), rt') ->
  is_object (default J_null (own_property u field)) = false ->
  v = J_bool (strict_equal (default J_null (own_property u field)) (fst (literalOf value))).
Proof.
  intros Hw Hp E Ho. apply wf_unfold in Hw as [_ Hw].
  apply usage_probe_inv in Hp as (sf & ef & args & sc & ec & sl & el & s & e & ->).
  apply Forall_cons_iff in Hw as [Hw _]. apply wf_unfold in Hw as [Hw _].
  pose proof (nk_arity _ Hw) as Har. destruct args; [|done].
  apply evaluate_bin in E as ([a ia] & [b ib'] & r1 & r2 & r3 & E1 & E2 & E3); [|done|done].
  apply evaluate_usage in E1. subst a. apply evaluate_lit in E2.
  destruct (literalOf value) as [w iw] eqn:Hlv. injection E2 as -> ->. simpl in E3 |- *.
  rewrite Ho in E3. assert (is_object w = false) as Hw' by (destruct value; simpl in Hlv; by simplify_eq).
  rewrite Hw' in E3. simpl in E3. rewrite !andb_false_r in E3. by simplify_eq.
Qed.

Lemma step_sound term cs r cs' r' : declared schema term ->
  task_condition_step schema ib term (cs, r) = Some (cs', r') ->
  exists c ok, cs' = cs ++ [c] /\ r' = r && ok /\ (ok = false -> fact_holds u c = false) /\
    forall rt v i rt', wf term -> evaluate ev_ term rt = Ok ((v, i), rt') -> v = J_bool (fact_holds u c).
Proof.
  intros Hd Hs. unfold task_condition_step in Hs.
  destruct (usage_probe term) as [[field value]|] eqn:Hp; [|done].
  assert (field ∈ schema.*1) as Hin.
  { apply usage_probe_inv in Hp as (sf & ef & args & sc & ec & sl & el & s & e & ->). eapply Hd.
    apply elem_of_postorder_children. right. eexists. split; [by left|apply postorder_self]. }
  apply declared_get in Hin as (d & Hg & Hsg). rewrite Hsg in Hs.
  pose proof (Hconf _ _ Hg) as Hcf. case_bool_decide as Ht.
  - destruct value as [| |b|]; try done. destruct ib; [|done]. injection Hs as <- <-.
    rewrite Ht in Hcf. destruct Hcf as [b' Hb'].
    exists (TaskCondition field (bool_text b)), true. unfold fact_holds. simpl. rewrite Hb'.
    split_and!; [done|by rewrite andb_true_r|done|]. intros rt v i rt' Hw E.
    apply (probe_value _ _ _ _ _ _ _ Hw Hp) in E; rewrite Hb' in *; simpl in *; [|done].
    rewrite E. f_equal. by destruct b, b'.
  - destruct value as [|s| |]; try done. destruct (uf_enum d) as [values|] eqn:He; [|done].
    injection Hs as <- <-.
    assert (exists s, s ∈ values /\ own_property u field = Some (J_str s)) as (s' & Hs' & Hf).
    { destruct (uf_type d) as [[]|]; [by apply Hcf|done|by apply Hcf]. }
    exists (TaskCondition field s), (bool_decide (s ∈ values)). unfold fact_holds. simpl. rewrite Hf.
    split_and!; [done|done| |].
    + intros Hn. bsplit. apply bool_decide_eq_false. by intros ->.
    + intros rt v i rt' Hw E. apply (probe_value _ _ _ _ _ _ _ Hw Hp) in E; rewrite Hf in *; done.
Qed.

Lemma terms_app l1 l2 st : task_condition_terms schema ib (l1 ++ l2) st =
  match task_condition_terms schema ib l1 st with
  | Some st => task_condition_terms schema ib l2 st
  | None => None
  end.
Proof.
  revert st. induction l1 as [|x l1 IH]; intros st; simpl; [done|].
  destruct (task_condition_step schema ib x st); [apply IH|done].
Qed.

Lemma terms_sound n cs r cs' r' : declared schema n -> wf n ->
  task_condition_terms schema ib (flattenBinary n B_and) (cs, r) = Some (cs', r') ->
  exists ks ok, cs' = cs ++ ks /\ r' = r && ok /\ (ok = false -> forallb (fact_holds u) ks = false) /\
    forall rt v i rt', evaluate ev_ n rt = Ok ((v, i), rt') -> v = J_bool (forallb (fact_holds u) ks).
Proof.
  revert cs r cs' r'.
  induction n as [n Hn|l rn s e IHl IHr] using (flatten_ind B_and); intros cs r cs' r' Hd Hw Hc.
  - rewrite Hn in Hc. simpl in Hc.
    destruct (task_condition_step schema ib n (cs, r)) as [[cs1 r1]|] eqn:Hs; [|done].
    injection Hc as <- <-. apply step_sound in Hs as (c & ok & -> & -> & Hf & Hev); [|done].
    exists [c], ok. simpl. setoid_rewrite andb_true_r. split_and!; [done|done|done|eauto].
  - rewrite flatten_bin, terms_app in Hc.
    destruct (task_condition_terms schema ib (flattenBinary l B_and) (cs, r)) as [[cs1 r1]|] eqn:H1; [|done].
    apply wf_unfold in Hw as [_ Hw]. apply Forall_cons_iff in Hw as [Hwl Hw].
    apply Forall_cons_iff in Hw as [Hwr _].
    apply IHl in H1 as (k1 & ok1 & -> & -> & Hf1 & Hev1);
      [|eapply declared_child, Hd; by left|done].
    apply IHr in Hc as (k2 & ok2 & -> & -> & Hf2 & Hev2);
      [|eapply declared_child, Hd; right; by left|done].
    exists (k1 ++ k2), (ok1 && ok2). rewrite forallb_app, app_assoc, andb_assoc.
    split_and!; [done|done| |].
    + destruct ok1; simpl; [intros E; by rewrite (Hf2 E), andb_false_r|].
      intros _. by rewrite (Hf1 eq_refl).
    + intros rt v i rt' E. apply evaluate_inv in E as (rt1 & E & _). simpl in E.
      apply rbind_ok in E as ([b rt2] & E1 & E). apply booleanOf_ok in E1 as [j E1].
      apply Hev1 in E1. injection E1 as ->. destruct (forallb _ k1); simpl; [|by simplify_eq].
      apply rbind_ok in E as ([b rt3] & E2 & E). apply booleanOf_ok in E2 as [j2 E2].
      apply Hev2 in E2. by simplify_eq.
Qed.

Lemma conditions_sound n : declared schema n -> wf n ->
  match taskConditions n schema ib with
  | TC_null => True
  | TC_unreachable => forall rt v i rt', evaluate ev_ n rt = Ok ((v, i), rt') -> v = J_bool false
  | TC_list cs => forall rt v i rt', evaluate ev_ n rt = Ok ((v, i), rt') ->
      v = J_bool (forallb (fact_holds u) cs)
  end.
Proof.
  intros Hd Hw. unfold taskConditions.
  destruct (task_condition_terms schema ib (flattenBinary n B_and) ([], true)) as [[cs r]|] eqn:E; [|done].
  apply terms_sound in E as (ks & ok & -> & -> & Hf & Hev); [|done|done]. simpl.
  destruct ok; [done|]. intros rt v i rt' E. apply Hev in E. by rewrite Hf in E.
Qed.

(** ** Prices *)

(** The contribution of a term, by its shape. *)
Definition term_class (term : node) (c : num + jstr * num) : Prop :=
  match c with
  | inl k => nonnegativePriceLiteral term = Some k
  | inr (field, price) => exists scaled term' d unit,
      unscale term = Some (scaled, term') /\ usage_price term' = Some (field, price) /\
      schema_get schema field = Some d /\ uf_unit d = Some unit /\
      bool_decide (unit = Unit_tokens) = scaled
  end.

Lemma unscale_cases term scaled term' : unscale term = Some (scaled, term') ->
  (scaled = true /\ exists i s e s' e', term = Bin B_div term' (Lit (L_num n_million i) s e) s' e') \/
  (scaled = false /\ term' = term).
Proof.
  unfold unscale. intros Hs. destruct term as [| | | |[] l r s e|]; simplify_eq; eauto.
  destruct r as [[x i| | |] sx ex| | | | |]; try done. destruct (n_eqb x n_million) eqn:Hm; [|done].
  injection Hs as <- <-. apply n_eqb_finite in Hm. subst x. left. split; [done|]. by repeat eexists.
Qed.

Lemma usage_price_declared term scaled term' field price : declared schema term ->
  unscale term = Some (scaled, term') -> usage_price term' = Some (field, price) ->
  field ∈ schema.*1.
Proof.
  intros Hd Hs Hp.
  assert (term' ∈ postorder term) as Hin.
  { destruct (unscale_cases _ _ _ Hs) as [(_ & i & s & e & s' & e' & ->)|(_ & ->)];
      [apply postorder_child; by left|apply postorder_self]. }
  apply usage_price_inv in Hp as (sf & ef & args & sc & ec & r & s & e & _ & ->). eapply Hd. eapply postorder_trans; [exact Hin|].
  apply postorder_child. by left.
Qed.

Lemma price_terms_classes terms k h up k' h' up' : Forall (declared schema) terms ->
  task_price_terms schema terms (k, h, up) = Some (k', h', up') ->
  exists cls, Forall2 term_class terms cls /\ Permutation up' (up ++ units cls) /\
    ((constants cls = [] /\ k' = k /\ h' = h) \/ (constants cls = [k'] /\ h = false /\ h' = true)).
Proof.
  revert k h up. induction terms as [|term terms IH]; intros k h up Hd E; simpl in E.
  { injection E as <- <- <-. exists []. rewrite app_nil_r. split_and!; [constructor|done|by left]. }
  apply Forall_cons_iff in Hd as [Hd1 Hd].
  destruct (nonnegativePriceLiteral term) as [x|] eqn:Hx.
  - destruct h; [done|]. apply IH in E as (cls & Hcl & Hp & Hc); [|done].
    exists (inl x :: cls). split_and!; [by constructor|done|].
    right. destruct Hc as [(Hc & -> & ->)|(_ & ? & _)]; [|done]. simpl. by rewrite Hc.
  - destruct (unscale term) as [[scaled term']|] eqn:Hs; [|done].
    destruct (usage_price term') as [[field price]|] eqn:Hu'; [|done].
    pose proof (usage_price_declared _ _ _ _ _ Hd1 Hs Hu') as Hin.
    apply declared_get in Hin as (d & _ & Hsg). rewrite Hsg in E.
    destruct (uf_type d) as [[]|]; try done. destruct (uf_unit d) as [unit|] eqn:Hun; [|done].
    case_bool_decide as Hf; [done|]. destruct (Bool.eqb _ scaled) eqn:Heq; [|done].
    apply Bool.eqb_prop in Heq.
    apply IH in E as (cls & Hcl & Hp & Hc); [|done].
    exists (inr (field, price) :: cls). split_and!; [|  |done].
    + constructor; [|done]. exists scaled, term', d, unit. by split_and!.
    + rewrite Hp, <- (obj_set_fresh field price up Hf). simpl. by rewrite Permutation_middle.
Qed.

Lemma class_value term c rt v i rt' : wf term -> term_class term c ->
  evaluate ev_ term rt = Ok ((v, i), rt') ->
  exists x, v = J_num x /\ contribution_value schema u c x.
Proof.
  intros Hw Hc E. destruct c as [k|[field price]]; simpl in Hc.
  { apply (price_literal_value _ _ _ _ _ _ _ Hw Hc) in E. exists k. done. }
  destruct Hc as (scaled & term' & d & unit & Hs & Hp & Hsg & Hun & Heq).
  assert (forall rt v i rt', wf term' -> evaluate ev_ term' rt = Ok ((v, i), rt') ->
    exists q, own_property u field = Some (J_num q) /\ v = J_num (n_mul q price)) as Hmul.
  { clear -Hp Hu. intros rt v i rt' Hw E.
    apply usage_price_inv in Hp as (sf & ef & args & sc & ec & r & s & e & Hx & ->).
    apply wf_unfold in Hw as [_ Hw]. apply Forall_cons_iff in Hw as [Hwl Hw].
    apply Forall_cons_iff in Hw as [Hwr _]. apply wf_unfold in Hwl as [Hwl _].
    pose proof (nk_arity _ Hwl) as Har. destruct args; [|done].
    apply evaluate_bin in E as ([a ia] & [b ib'] & r1 & r2 & r3 & E1 & E2 & E3); [|done|done].
    apply evaluate_usage in E1. apply (price_literal_value _ _ _ _ _ _ _ Hwr Hx) in E2. subst a b.
    destruct (own_property u field) as [w|]; [|done].
    destruct w; simpl in E3; try done. simplify_eq. eauto. }
  destruct (unscale_cases _ _ _ Hs) as [(-> & ix & sx & ex & s & e & ->)|(-> & ->)].
  - apply wf_unfold in Hw as [_ Hw]. apply Forall_cons_iff in Hw as [Hwl _].
    apply evaluate_bin in E as ([a ia] & [b ib'] & r1 & r2 & r3 & E1 & E2 & E3); [|done|done].
    apply Hmul in E1 as (q & Hq & ->); [|done]. apply evaluate_lit in E2. injection E2 as -> ->.
    simpl in E3. simplify_eq. eexists. split; [done|]. exists d, unit, q.
    split_and!; [done|done|done|]. by rewrite Heq.
  - apply Hmul in E as (q & Hq & ->); [|done]. eexists. split; [done|].
    exists d, unit, q. split_and!; [done|done|done|]. by rewrite Heq.
Qed.

Lemma classes_value n cls rt v i rt' : wf n -> Forall2 term_class (flattenBinary n B_add) cls ->
  evaluate ev_ n rt = Ok ((v, i), rt') ->
  exists x values, v = J_num x /\ Forall2 (contribution_value schema u) cls values /\ sum_of values x.
Proof.
  revert cls rt v i rt'.
  induction n as [n Hn|l r s e IHl IHr] using (flatten_ind B_add); intros cls rt v i rt' Hw Hc E.
  - rewrite Hn in Hc. apply Forall2_cons_inv_l in Hc as (c & cs & Hc & Hcs & ->).
    apply Forall2_nil_inv_l in Hcs as ->.
    apply (class_value _ _ _ _ _ _ Hw Hc) in E as (x & -> & Hx).
    exists x, [x]. split_and!; [done|by repeat constructor|constructor].
  - rewrite flatten_bin in Hc. apply Forall2_app_inv_l in Hc as (c1 & c2 & H1 & H2 & ->).
    apply wf_unfold in Hw as [_ Hw]. apply Forall_cons_iff in Hw as [Hwl Hw].
    apply Forall_cons_iff in Hw as [Hwr _].
    apply evaluate_bin in E as ([a ia] & [b ib'] & r1 & r2 & r3 & E1 & E2 & E3); [|done|done].
    apply (IHl _ _ _ _ _ Hwl H1) in E1 as (x & k1 & -> & Hk1 & Hx).
    apply (IHr _ _ _ _ _ Hwr H2) in E2 as (y & k2 & -> & Hk2 & Hy).
    apply binary_num in E3; [|set_solver]. exists (n_add x y), (k1 ++ k2).
    split_and!; [done|by apply Forall2_app|by constructor].
Qed.

Lemma declared_subterm n m : m ∈ postorder n -> declared schema n -> declared schema m.
Proof. intros Hm Hd field s e args s' e' Hin. eapply Hd. by eapply postorder_trans. Qed.

Lemma task_tier_charges n cs t rt v i rt' : wf n -> declared schema n ->
  taskTier n cs schema = Some t -> evaluate ev_ n rt = Ok ((v, i), rt') ->
  rt_matchedTier rt' = kt_label t /\ kt_conditions t = cs /\
  exists x, v = J_num x /\ task_cost schema u t x.
Proof.
  intros Hw Hd Ht E. destruct n as [| |f args s e| | |]; try done. destruct f; try done.
  destruct args as [|[[|label| |] sl el| | | | |] [|body rest]]; try done. simpl in Ht.
  apply wf_unfold in Hw as [_ Hw]. simpl in Hw.
  apply Forall_cons_iff in Hw as [_ Hw]. apply Forall_cons_iff in Hw as [Hwb _].
  apply (declared_child _ _ body) in Hd; [|right; by left].
  apply evaluate_inv in E as (rt1 & E & -> & _). simpl in E.
  apply rbind_ok in E as ([name rt2] & E1 & E). apply stringOf_ok in E1 as [i1 E1].
  apply evaluate_lit in E1. injection E1 as -> ->.
  apply rbind_ok in E as ([[x ix] rt3] & E2 & E). apply numericOf_ok in E2.
  unfold value_only in E. injection E as <- <- <-.
  destruct (task_price_terms schema (flattenBinary body B_add) (n_zero, false, []))
    as [[[k h] [|p up]]|] eqn:Hp; try done. injection Ht as <-.
  apply price_terms_classes in Hp as (cls & Hcl & Hperm & Hk).
  2: { apply Forall_elem. intros m Hm. eapply declared_subterm; [|exact Hd]. by eapply flatten_subterms. }
  apply (classes_value _ _ _ _ _ _ Hwb Hcl) in E2 as (y & values & [= ->] & Hv & Hsum).
  split_and!; [done|done|]. exists y. split; [done|]. exists cls, values.
  split_and!; [|done|done|done]. destruct Hk as [(Hk & -> & _)|(Hk & _ & _)]; [by right|by left].
Qed.

(** ** Chains *)
Lemma evaluate_if c y no s e rt v i rt' :
  evaluate ev_ (Cond c y no s e) rt = Ok ((v, i), rt') ->
  exists b ib' rt1 rt2 rt3 rt4, evaluate ev_ c rt1 = Ok ((J_bool b, ib'), rt2) /\
    evaluate ev_ (if b then y else no) rt3 = Ok ((v, i), rt4) /\
    rt_matchedTier rt' = rt_matchedTier rt4.
Proof.
  intros E. apply evaluate_inv in E as (rt1 & E & -> & _). simpl in E.
  apply rbind_ok in E as ([b rt2] & E1 & E). apply booleanOf_ok in E1 as [i1 E1].
  exists b, i1. destruct b; do 4 eexists; (split; [exact E1|]); (split; [exact E|]); done.
Qed.

Lemma chain_prefix n tiers all : task_chain n schema ib tiers = Some all ->
  exists rest, all = tiers ++ rest.
Proof.
  revert tiers. induction n as [| | | | |c y no s e _ _ IH] using node_rect_strong;
    intros tiers E; try (apply fmap_Some in E as (t & _ & ->); by eauto).
  simpl in E. destruct (taskConditions c schema ib) as [| |cs]; [done|by auto|].
  destruct (existsb _ tiers); [by auto|]. destruct (taskTier y cs schema) as [t|]; [|done].
  destruct cs; [injection E as <-; by eauto|].
  apply IH in E as [rest ->]. exists (t :: rest). by rewrite <- app_assoc.
Qed.

Lemma find_after {A} (f : A -> bool) l t rest :
  Forall (fun x => f x = false) l -> f t = true -> List.find f (l ++ t :: rest) = Some t.
Proof. induction 1 as [|x l Hx _ IH]; simpl; [by intros ->|]. by rewrite Hx. Qed.

Lemma shadowed_false cs tiers : Forall (fun t => tier_holds u t = false) tiers ->
  existsb (shadows cs) tiers = true -> forallb (fact_holds u) cs = false.
Proof.
  intros Ht Hs. apply existsb_exists in Hs as (t & Hin & Hsh).
  rewrite Forall_elem in Ht. specialize (Ht t (proj2 (list_elem_of_In _ _) Hin)).
  destruct (forallb (fact_holds u) cs) eqn:Hall; [|done].
  rewrite forallb_forall in Hall. unfold shadows in Hsh. rewrite forallb_forall in Hsh.
  unfold tier_holds in Ht. apply not_true_iff_false in Ht. destruct Ht.
  apply forallb_forall. intros c Hc. apply Hall, list_elem_of_In.
  apply Hsh in Hc. by apply bool_decide_eq_true in Hc.
Qed.

Lemma task_chain_charges n tiers all rt v i rt' : wf n -> declared schema n ->
  task_chain n schema ib tiers = Some all -> Forall (fun t => tier_holds u t = false) tiers ->
  evaluate ev_ n rt = Ok ((v, i), rt') ->
  exists t, List.find (tier_holds u) all = Some t /\ rt_matchedTier rt' = kt_label t /\
    exists x, v = J_num x /\ task_cost schema u t x.
Proof.
  revert tiers rt v i rt'. induction n as [| | | | |c y no s e _ _ IH] using node_rect_strong;
    intros tiers rt w i rt' Hw Hd Hc Hf E;
    try (apply fmap_Some in Hc as (t & Ht & ->);
         destruct (task_tier_charges _ _ _ _ _ _ _ Hw Hd Ht E) as (Hl & Hcs & Hx);
         exists t; split_and!; [|done|done]; apply find_after; [done|];
         unfold tier_holds; by rewrite Hcs).
  apply wf_unfold in Hw as [_ Hw]. simpl in Hw. apply Forall_cons_iff in Hw as [Hwc Hw].
  apply Forall_cons_iff in Hw as [Hwy Hw]. apply Forall_cons_iff in Hw as [Hwn _].
  pose proof (declared_child _ (Cond c y no s e) c ltac:(by left) Hd) as Hdc.
  pose proof (declared_child _ (Cond c y no s e) y ltac:(right; by left) Hd) as Hdy.
  pose proof (declared_child _ (Cond c y no s e) no ltac:(right; right; by left) Hd) as Hdn.
  apply evaluate_if in E as (b & ib' & rt1 & rt2 & rt3 & rt4 & E1 & E2 & ->).
  pose proof (conditions_sound c Hdc Hwc) as Hcond. simpl in Hc.
  destruct (taskConditions c schema ib) as [| |cs]; [done| |].
  { apply Hcond in E1. injection E1 as ->. by eapply IH. }
  apply Hcond in E1. injection E1 as ->.
  destruct (existsb (shadows cs) tiers) eqn:Hs.
  { rewrite (shadowed_false _ _ Hf Hs) in E2. by eapply IH. }
  destruct (taskTier y cs schema) as [t|] eqn:Ht; [|done].
  assert (forall rest, forallb (fact_holds u) cs = true ->
    evaluate ev_ y rt3 = Ok ((w, i), rt4) ->
    exists t', List.find (tier_holds u) (tiers ++ t :: rest) = Some t' /\
      rt_matchedTier rt4 = kt_label t' /\ exists x, w = J_num x /\ task_cost schema u t' x) as Hyes.
  { intros rest Hall E3. destruct (task_tier_charges _ _ _ _ _ _ _ Hwy Hdy Ht E3) as (Hl & Hcs & Hx).
    exists t. split_and!; [|done|done]. apply find_after; [done|]. unfold tier_holds. by rewrite Hcs. }
  destruct (forallb (fact_holds u) cs) eqn:Hall.
  - destruct cs as [|c0 cs]; [injection Hc as <-; by apply Hyes|].
    destruct (chain_prefix _ _ _ Hc) as [rest ->]. rewrite <- app_assoc. by apply Hyes.
  - destruct cs as [|c0 cs]; [done|]. eapply IH; [done|done|exact Hc| |exact E2].
    apply Forall_app. split; [done|]. constructor; [|done].
    assert (kt_conditions t = c0 :: cs) as Hk.
    { clear -Ht. destruct y as [| |[] [|[[|label| |] sl el| | | | |] [|body rest]] s e| | |]; try done.
      simpl in Ht. repeat case_match; by simplify_eq. }
    unfold tier_holds. by rewrite Hk.
Qed.

End TaskRefine.

(** A successful evaluation charges the first tier read that holds. *)
Lemma chain_charged `{Platform} source c schema ib tiers cx u s :
  compile source = Ready c -> readTaskTierChain (ce_ast c) schema ib = Some tiers ->
  declared schema (ce_ast c) -> cx_usage cx = Some u -> conforming schema u ->
  evaluate_body c cx = Ok s ->
  exists t, List.find (tier_holds u) tiers = Some t /\
    es_matchedTier s = kt_label t /\ task_cost schema u t (es_cost s).
Proof.
  intros Hc Ht Hd Hu Hcf Hs. apply compile_ready in Hc as Hc'.
  apply evaluate_body_ok in Hs as (ev_ & rt & rt' & i & Hn & He & _ & _ & _ & ->). simpl.
  destruct (new_runtime_ok _ _ _ _ Hn) as (_ & <- & _).
  destruct (task_chain_charges schema ib ev_ u Hu Hcf _ _ _ _ _ _ _
    (parse_wf _ _ (co_parse _ _ Hc')) Hd Ht (List.Forall_nil _) He) as (t & Hf & Hl & x & [= <-] & Hx).
  eauto.
Qed.

(** C10: the task tiers shown are what a task is charged: when the reader
    recognises the expression, the expression reads only facts its schema
    declares and the reported facts conform to the schema, a successful
    evaluation charges the first displayed tier whose conditions the facts
    satisfy; its label is the matched tier and its cost the sum of the tier's
    constant and of the reported quantities times their unit prices (per million
    for tokens).  In particular the dropped branches are never charged. *)
Theorem task_tiers_charged `{Platform} source c schema ib tiers cx u s :
  compile source = Ready c -> readTaskTierChain (ce_ast c) schema ib = Some tiers ->
  declared schema (ce_ast c) -> cx_usage cx = Some u -> conforming schema u ->
  evaluate_body c cx = Ok s ->
  exists t, List.find (tier_holds u) tiers = Some t /\
    es_matchedTier s = kt_label t /\ task_cost schema u t (es_cost s).
Proof. apply chain_charged. Qed.

Definition video_schema : usage_schema :=
  [(js "quality", UsageField None None (Some [js "hd"; js "sd"]));
   (js "seconds", UsageField (Some Field_number) (Some Unit_second) None)].
Definition video_source : jstr :=
  js "u('quality') == 'hd' ? tier('hd', 0.5 + u('seconds') * 2) : u('quality') == '4k' ? tier('4k', u('seconds') * 9) : tier('sd', u('seconds') * 1)".
Definition video_compiled : compiled_expression := Eval vm_compute in ready (compile video_source).
Definition video_usage : usage := [(js "quality", J_str (js "hd")); (js "seconds", J_num (n_of_Z 10))].
Definition video_context : context := Context_ None None (Some video_usage) None None.
Definition video_success : evaluation_success :=
  Eval vm_compute in
    Success (n_add (n_div n_one (n_of_Z 2)) (n_of_Z 20)) Unit_token None None (js "hd") [].
Definition video_tiers : list task_tier :=
  Eval vm_compute in default [] (readTaskTierChain (ce_ast video_compiled) video_schema false).

Lemma video_conforming : conforming video_schema video_usage.
Proof.
  intros field d Hg. apply fmap_Some in Hg as ([k d'] & Hf & ->). simpl.
    apply List.find_some in Hf as [Hin Heq]. apply bool_decide_eq_true in Heq. simpl in Heq. subst k.
    destruct Hin as [[= <- <-]|[[= <- <-]|[]]]; simpl; intros values Hv; [|discriminate].
    injection Hv as <-. exists (js "hd"). split; [by left|vm_compute; reflexivity].
Qed.

Lemma task_tiers_charged_witness :
  map kt_label video_tiers = [js "hd"; js "sd"] /\
  exists t, List.find (tier_holds video_usage) video_tiers = Some t /\
    js "hd" = kt_label t /\ task_cost video_schema video_usage t (es_cost video_success).
Proof.
  split; [vm_compute; reflexivity|].
  assert (compile video_source = Ready video_compiled) as H1 by (vm_compute; reflexivity).
  assert (readTaskTierChain (ce_ast video_compiled) video_schema false = Some video_tiers) as H2
    by (vm_compute; reflexivity).
  assert (@evaluate_body plain_platform video_compiled video_context = Ok video_success) as H3
    by (vm_compute; reflexivity).
  assert (declared video_schema (ce_ast video_compiled)) as H4.
  { apply declaredb_ok. vm_compute. reflexivity. }
  pose proof video_conforming as H5.
  exact (@task_tiers_charged plain_platform _ _ _ _ _ video_context video_usage _ H1 H2 H4 eq_refl H5 H3).
Defined.

(** Without [declared] it fails: a tier on a fact the schema does not know takes
    the place of the whole chain, whatever is reported. *)
Definition undeclared_source : jstr :=
  js "u('dropped') == 'a' ? tier('A', u('seconds') * 2) : tier('B', u('seconds') * 1)".
Definition undeclared_compiled : compiled_expression := Eval vm_compute in ready (compile undeclared_source).

Example undeclared_fact_misread :
  map kt_label <$> readTaskTierChain (ce_ast undeclared_compiled) video_schema false = Some [js "A"] /\
  match @evaluate_body plain_platform undeclared_compiled video_context with Ok s => es_matchedTier s = js "B" | Err _ => False end.
Proof. split; vm_compute; reflexivity. Qed.
