(* ===== verification/TaskDisplayFacts.v ===== *)
(** * Conditional task pricing: soundness and bounds

    A condition resolved from the enumerated facts has the value evaluation
    gives it in every usage with those facts; the table has at most 128 rows, one
    group per combination of the categorical facts, whose prices are finite and
    non-negative; and it has a row for every usage at every moment, with the label
    that evaluation matches. *)
From Stdlib Require Import SpecFloat.
From stdpp Require Import strings gmap.
From S2P Require Import Prelude JsString JsNumber JsValue JsonText Syntax SyntaxFacts Parser ParserFacts.
From S2P Require Import Compile CompileFacts Runtime RuntimeFacts Semantics Display DisplayFacts.
From S2P Require Import TaskTiers TaskDisplay TaskFacts.

#[local] Open Scope Z_scope.
#[local] Arguments evaluate : simpl never.

(** A usage that reports the enumerated facts, each a value its schema allows. *)
Definition reports (schema : usage_schema) (facts : list (jstr * fact)) (u : usage) : Prop :=
  forall key f, obj_get key facts = Some f -> exists d, obj_get key schema = Some d /\
    match f with
    | Fact_bool b => uf_type d = Some Field_boolean /\ own_property u key = Some (J_bool b)
    | Fact_str s => uf_type d <> Some Field_boolean /\ own_property u key = Some (J_str s) /\
        exists values, uf_enum d = Some values /\ s ∈ values
    end.

Section Resolved.
Context `{Platform}.
Variables (kx : task_context) (ev_ : env) (u : usage).
Hypothesis Hu : cx_usage (ev_context ev_) = Some u.
Hypothesis Hr : reports (kx_schema kx) (kx_facts kx) u.

Definition answers (n : node) (a : condition_answer) : Prop :=
  forall rt v i rt', evaluate ev_ n rt = Ok ((v, i), rt') ->
    match a with
    | CA_null => True
    | CA_bool b => v = J_bool b
    | CA_text _ => exists b, v = J_bool b
    end.

Lemma fact_probe_inv probe lit key value : fact_probe probe lit = Some (key, value) ->
  exists s e args s' e' sl el, probe = Call F_u (Lit (L_str key) s e :: args) s' e' /\
    lit = Lit value sl el.
Proof.
  intros Hp. destruct probe as [| |f args s e| | |]; try done. destruct f; try done.
  destruct args as [|a args]; try done. destruct a as [lv sf ef| | | | |]; try done.
  destruct lv; try done. destruct lit; try done. injection Hp as <- <-. by repeat eexists.
Qed.

Definition categorical (v : jsval) : bool :=
  match v with J_str _ | J_bool _ => true | _ => false end.

Lemma strict_equal_sym_cat v w : categorical v = true -> strict_equal w v = strict_equal v w.
Proof.
  destruct v; try done; destruct w; try done; intros _; simpl; [by destruct b, b0|].
  by destruct (bool_decide_reflect (s0 = s)), (bool_decide_reflect (s = s0)); try congruence.
Qed.

(** The value of [==] or [!=] between a reported fact and a literal, in either
    order. *)
Lemma fact_comparison o l r key value w s e rt v i rt' : o = B_eq \/ o = B_ne ->
  wf (Bin o l r s e) -> (fact_probe l r = Some (key, value) \/ fact_probe r l = Some (key, value)) ->
  own_property u key = Some w -> categorical w = true ->
  evaluate ev_ (Bin o l r s e) rt = Ok ((v, i), rt') ->
  v = J_bool (Bool.eqb (bool_decide (o = B_eq)) (strict_equal w (fst (literalOf value)))).
Proof.
  intros Ho Hw Hp Hk Hcat E.
  apply evaluate_bin in E as ([a ia] & [b ib'] & r1 & r2 & r3 & E1 & E2 & E3);
    [|destruct Ho as [->| ->]; done..].
  apply wf_unfold in Hw as [_ Hw]. apply Forall_cons_iff in Hw as [Hwl Hw].
  apply Forall_cons_iff in Hw as [Hwr _].
  assert (strict_equal a b = strict_equal w (fst (literalOf value)) /\
    is_object a = false /\ is_object b = false) as (Heq & Ha & Hb).
  { assert (is_object (fst (literalOf value)) = false) as Hlit by (by destruct value).
    assert (is_object w = false) as Hw' by (by destruct w).
    assert (forall n m rt1 x j rt2, wf n -> fact_probe n m = Some (key, value) ->
      evaluate ev_ n rt1 = Ok ((x, j), rt2) -> x = w) as Hprobe.
    { intros n m rt1 x j rt2 Hn Hf Ev. apply fact_probe_inv in Hf as (? & ? & args & ? & ? & ? & ? & -> & ->).
      apply wf_unfold in Hn as [Hn _]. pose proof (nk_arity _ Hn) as Har. destruct args; [|done].
      apply (evaluate_usage ev_ u Hu) in Ev. by rewrite Hk in Ev. }
    assert (forall n m rt1 x j rt2, fact_probe n m = Some (key, value) ->
      evaluate ev_ m rt1 = Ok ((x, j), rt2) -> x = fst (literalOf value)) as Hliteral.
    { intros n m rt1 x j rt2 Hf Ev. apply fact_probe_inv in Hf as (? & ? & args & ? & ? & ? & ? & -> & ->).
      apply evaluate_lit in Ev. by rewrite <- Ev. }
    destruct Hp as [Hp|Hp].
    - rewrite (Hprobe _ _ _ _ _ _ Hwl Hp E1), (Hliteral _ _ _ _ _ _ Hp E2). done.
    - rewrite (Hprobe _ _ _ _ _ _ Hwr Hp E2), (Hliteral _ _ _ _ _ _ Hp E1).
      split_and!; [by apply strict_equal_sym_cat|done|done]. }
  destruct Ho as [->| ->]; simpl in E3; rewrite Ha, Hb, !andb_false_r in E3; simplify_eq;
    rewrite Heq; by destruct (strict_equal w _).
Qed.

Lemma fact_answer_sound o l r key value s e : o = B_eq \/ o = B_ne -> wf (Bin o l r s e) ->
  (fact_probe l r = Some (key, value) \/ fact_probe r l = Some (key, value)) ->
  answers (Bin o l r s e) (fact_answer kx (bool_decide (o = B_eq)) (key, value)).
Proof.
  intros Ho Hw Hp rt v i rt' E. unfold fact_answer.
  destruct (obj_get key (kx_facts kx)) as [f|] eqn:Hf; [|done].
  destruct (Hr _ _ Hf) as (d & Hd & Hfact).
  assert (schema_get (kx_schema kx) key = Some d) as -> by (unfold schema_get; by rewrite Hd).
  simpl. destruct f as [s0|b0].
  - destruct Hfact as (Ht & Hk & values & Hen & Hin). rewrite bool_decide_eq_false_2 by done.
    destruct value as [|s1| |]; try done. rewrite Hen.
    apply (fact_comparison _ _ _ _ _ _ _ _ _ _ _ _ Ho Hw Hp Hk) in E; [|done]. simpl in E.
    destruct (bool_decide_reflect (s1 ∈ values)) as [Hs1|Hs1]; [exact E|]. rewrite (bool_decide_eq_false_2 (s0 = s1)) in E by (by intros ->).
    rewrite E. by destruct (bool_decide (o = B_eq)).
  - destruct Hfact as (Ht & Hk). rewrite bool_decide_eq_true_2 by done.
    destruct value as [| |b1|]; try done.
    apply (fact_comparison _ _ _ _ _ _ _ _ _ _ _ _ Ho Hw Hp Hk) in E; done.
Qed.

Lemma comparison_boolean o l r s e : is_comparison o = true ->
  forall rt v i rt', evaluate ev_ (Bin o l r s e) rt = Ok ((v, i), rt') -> exists b, v = J_bool b.
Proof.
  intros Ho rt v i rt' E.
  apply evaluate_bin in E as (a & b & r1 & r2 & r3 & _ & _ & E); [|by intros ->|by intros ->].
  apply binary_compare_bool in E as [c Hc]; [|destruct o; try done; set_solver]. eauto.
Qed.

Lemma clock_answer_sound o l r s e : answers (Bin o l r s e) (clock_answer kx o l r s e).
Proof.
  intros rt v i rt' E. unfold clock_answer.
  destruct (is_comparison o) eqn:Ho; [|done]. simpl.
  destruct ((is_call l || is_call r) && is_clock_operand l && is_clock_operand r); [|done].
  by eapply comparison_boolean.
Qed.

Lemma condition_sound n r a r' : wf n -> taskDisplayCondition kx n r = (a, r') -> answers n a.
Proof.
  revert r a r'. induction n as [l s e| | |o x s e IH|o l rn s e IHl IHr|] using node_rect_strong;
    intros r a r' Hw Ha rt w i rt' E; simpl in Ha; destruct (r - 1 <? 0); simplify_eq; try done.
  - destruct l as [| |b|]; simplify_eq; try done. apply evaluate_lit in E. by injection E as -> _.
  - destruct o; simplify_eq; try done.
    destruct (taskDisplayCondition kx x (r - 1)) as [ax rx] eqn:Hx. injection Ha as <- _.
    apply wf_unfold in Hw as [_ Hw]. apply Forall_cons_iff in Hw as [Hwx _].
    specialize (IH _ _ _ Hwx Hx).
    apply evaluate_inv in E as (rt1 & E & _). simpl in E.
    apply rbind_ok in E as ([b rt2] & E1 & E). apply booleanOf_ok in E1 as [j E1].
    unfold value_only in E. injection E as <- _ _. apply IH in E1.
    destruct ax; [done|by injection E1 as ->|by eauto].
  - apply wf_unfold in Hw as Hw'. destruct Hw' as [_ Hw'].
    apply Forall_cons_iff in Hw' as [Hwl Hw']. apply Forall_cons_iff in Hw' as [Hwr _].
    destruct o; try (injection Ha as <- _; exact (clock_answer_sound _ _ _ _ _ _ _ _ _ E)).
    3, 4: injection Ha as <- _;
      destruct (fact_probe l rn) as [[key value]|] eqn:Hp1;
        [refine (fact_answer_sound _ _ _ _ _ _ _ _ Hw (or_introl Hp1) _ _ _ _ E); auto|];
      destruct (fact_probe rn l) as [[key value]|] eqn:Hp2;
        [refine (fact_answer_sound _ _ _ _ _ _ _ _ Hw (or_intror Hp2) _ _ _ _ E); auto|];
      exact (clock_answer_sound _ _ _ _ _ _ _ _ _ E).
    all: destruct (taskDisplayCondition kx l (r - 1)) as [al r1] eqn:Hl;
      destruct (taskDisplayCondition kx rn r1) as [ar r2] eqn:Hrn; injection Ha as <- _;
      specialize (IHl _ _ _ Hwl Hl); specialize (IHr _ _ _ Hwr Hrn);
      apply evaluate_inv in E as (rt1 & E & _); simpl in E;
      apply rbind_ok in E as ([b1 rt2] & E1 & E); apply booleanOf_ok in E1 as [j E1]; apply IHl in E1;
      (destruct b1; [|try (injection E as <- _ _)]);
      try (injection E as <- _ _);
      try (apply rbind_ok in E as ([b2 rt3] & E2 & E); apply booleanOf_ok in E2 as [j2 E2];
           apply IHr in E2; injection E as <- _ _).
    all: destruct al as [|[]|], ar as [|[]|]; simpl in *; try done; eauto; congruence.
Qed.
End Resolved.

(** a condition the table resolves is resolved correctly: whenever
    [taskDisplayCondition] answers with a boolean for some enumerated facts,
    evaluating the condition in any context whose usage reports these facts
    yields that boolean (and when it answers with a text, some boolean). *)
Theorem resolved_condition_sound `{Platform} source n kx remaining answer remaining' ev_ u rt v i rt' :
  parse source = Ok n -> cx_usage (ev_context ev_) = Some u ->
  reports (kx_schema kx) (kx_facts kx) u ->
  forall part, part ∈ postorder n ->
  taskDisplayCondition kx part remaining = (answer, remaining') ->
  evaluate ev_ part rt = Ok ((v, i), rt') ->
  match answer with
  | CA_null => True
  | CA_bool b => v = J_bool b
  | CA_text _ => exists b, v = J_bool b
  end.
Proof.
  intros Hp Hu Hr part Hin Ha E. apply parse_wf in Hp. apply (wf_subterm _ _ Hp) in Hin.
  exact (condition_sound kx ev_ u Hu Hr _ _ _ _ Hin Ha _ _ _ _ E).
Qed.

Definition quality_source : jstr := js "u('quality') == 'hd' && hour('UTC') < 8 || u('quality') != 'sd'".
Definition quality_ast : node :=
  Eval vm_compute in match parse quality_source with Ok n => n | Err _ => Lit L_nil 0 0 end.
Definition quality_context : task_context :=
  TaskContext quality_source video_schema [(js "quality", Fact_str (js "hd"))].
Definition quality_env : env := Env video_compiled video_context (Some 0) ∅.

Lemma resolved_condition_sound_witness :
  taskDisplayCondition quality_context quality_ast 100 = (CA_bool true, 95) /\
  exists i rt', @evaluate plain_platform quality_env quality_ast start_runtime =
    Ok ((J_bool true, i), rt').
Proof.
  assert (taskDisplayCondition quality_context quality_ast 100 = (CA_bool true, 95)) as H1
    by (vm_compute; reflexivity).
  split; [exact H1|].
  destruct (@evaluate plain_platform quality_env quality_ast start_runtime) as [[[v i] rt']|] eqn:E;
    [|vm_compute in E; discriminate].
  exists i, rt'. f_equal. f_equal. f_equal.
  refine (@resolved_condition_sound plain_platform quality_source quality_ast quality_context 100 _ 95
           quality_env video_usage _ _ _ _ _ eq_refl _ quality_ast (postorder_self _) H1 E).
  - vm_compute. reflexivity.
  - intros key f Hk. unfold quality_context in Hk. simpl kx_facts in Hk.
    rewrite obj_get_cons in Hk. destruct (bool_decide_reflect (js "quality" = key)) as [<-|]; [|done].
    injection Hk as <-. exists (UsageField None None (Some [js "hd"; js "sd"])).
    split; [vm_compute; reflexivity|]. split; [done|]. split; [vm_compute; reflexivity|].
    eexists. split; [reflexivity|by left].
Defined.

(** ** The table *)
Definition branch_ok (b : price_branch) : Prop :=
  price_ok (pb_constant b) = true /\ Forall (fun p => price_ok (snd p) = true) (pb_prices b).

Lemma add_time_ok text m b : branch_ok b -> Forall branch_ok (add_time text m b).
Proof. intros Hb. unfold add_time. repeat case_match; repeat constructor; apply Hb. Qed.

Lemma combine_branch_ok o a b l : combine_branch o a b = Some l -> Forall branch_ok l.
Proof.
  unfold combine_branch. intros E.
  assert (contradicts (pb_times a) (pb_times b) = true -> Some [] = Some l -> Forall branch_ok l) as H0.
  { intros _ [= <-]. constructor. }
  assert (forall c ps, combine_prices o a b = Some (c, ps) ->
    price_ok c = true /\ Forall (fun p => price_ok (snd p) = true) ps) as Hps.
  { intros c ps. unfold combine_prices. destruct (linear_combination o a b) as [[c' ps']|]; [|done].
    destruct (forallb price_ok (c' :: ps'.*2)) eqn:Hall; [|done].
    intros [= <- <-]. simpl in Hall. apply andb_true_split in Hall as [Hc Hall]. split; [done|].
    rewrite forallb_forall in Hall.
    apply Forall_elem. intros p Hin. apply Hall, list_elem_of_In, list_elem_of_fmap. eauto. }
  destruct (combine_prices o a b) as [[c ps]|].
  - destruct (Hps _ _ eq_refl). destruct (pb_label a), (pb_label b), (contradicts _ _);
      simplify_eq; repeat constructor; done.
  - destruct (pb_label a), (pb_label b), (contradicts _ _); simplify_eq; constructor.
Qed.

Lemma mapM_join_Forall {A B} (f : A -> option (list B)) (P : B -> Prop) l k :
  (forall x y, f x = Some y -> Forall P y) -> mapM f l = Some k -> Forall P (mjoin k).
Proof.
  intros Hf. revert k. induction l as [|x l IH]; intros k E; simpl in E; [injection E as <-; constructor|].
  apply bind_Some in E as (y & Hy & E). apply bind_Some in E as (ys & Hys & [= <-]).
  apply Forall_app. split; [by eapply Hf|by apply IH].
Qed.

Lemma branches_ok kx n r bs r' : wf n -> taskPriceBranches kx n r = (Some bs, r') -> Forall branch_ok bs.
Proof.
  revert r bs r'. induction n as [l s e| |f args s e IH| |o l rn s e IHl IHr|c y no s e _ IHy IHn]
    using node_rect_strong; intros r bs r' Hw E; simpl in E; destruct (r - 1 <? 0); simplify_eq; try done.
  - destruct l as [x i| | |]; simplify_eq. destruct (n_leb n_zero x) eqn:Hx; simplify_eq.
    constructor; [|done]. split; [|done]. apply wf_unfold in Hw as [Hok _].
    destruct (nk_arity _ Hok) as [Hfin _]. unfold price_ok. simpl. by rewrite Hfin, Hx.
  - destruct f; simplify_eq.
    + destruct args as [|a1 args]; [done|]. destruct a1 as [l1 s1 e1| | | | |]; try done.
      destruct l1 as [|label| |]; try done. destruct args as [|body [|]]; try done.
      destruct (taskPriceBranches kx body (r - 1)) as [[bs1|] r1] eqn:Hb; [|done].
      apply Forall_cons_iff in IH as [_ IH]. apply Forall_cons_iff in IH as [IH _].
      apply wf_unfold in Hw as [_ Hw]. apply Forall_cons_iff in Hw as [_ Hw].
      apply Forall_cons_iff in Hw as [Hw _]. specialize (IH _ _ _ Hw Hb).
      destruct (existsb _ bs1); [done|]. injection E as <- _. apply Forall_elem.
      intros b Hin. apply list_elem_of_fmap in Hin as (b' & -> & Hin).
      rewrite Forall_elem in IH. apply (IH b' Hin).
    + destruct args as [|[[|field| |] s1 e1| | | | |] args]; try done.
      destruct (schema_get (kx_schema kx) field) as [[[[]|] [un|] en]|]; simplify_eq/=.
      constructor; [|done]. split; [done|]. by repeat constructor.
  - apply wf_unfold in Hw as [_ Hw]. apply Forall_cons_iff in Hw as [Hwl Hw].
    apply Forall_cons_iff in Hw as [Hwr _].
    assert (forall o, match o with B_add | B_mul | B_div => True | _ => False end ->
      (let '(a, r1) := taskPriceBranches kx l (r - 1) in
       let '(b, r2) := taskPriceBranches kx rn r1 in
       (match a, b with
        | Some a, Some b => if within_rows (length a * length b) then combine_branches o a b else None
        | _, _ => None
        end, r2)) = (Some bs, r') -> Forall branch_ok bs) as Hgen.
    { clear E o. intros o _ E.
      destruct (taskPriceBranches kx l (r - 1)) as [[a|] r1], (taskPriceBranches kx rn r1) as [[b|] r2];
        try done. destruct (within_rows _); [|done]. injection E as E _.
      apply fmap_Some in E as (k & Hk & ->).
      eapply mapM_join_Forall; [|exact Hk]. intros [p q] z Hz. by eapply combine_branch_ok. }
    destruct o; first [done | exact (Hgen B_add I E) | exact (Hgen B_mul I E) | exact (Hgen B_div I E)].
  - apply wf_unfold in Hw as [_ Hw]. apply Forall_cons_iff in Hw as [_ Hw].
    apply Forall_cons_iff in Hw as [Hwy Hw]. apply Forall_cons_iff in Hw as [Hwn _].
    destruct (taskDisplayCondition kx c (r - 1)) as [a r1]. destruct a as [|b|text]; [done| |].
    { destruct b; [by eapply IHy|by eapply IHn]. }
    destruct (taskPriceBranches kx y r1) as [[ys|] r2] eqn:Hy; [|done].
    destruct (taskPriceBranches kx no r2) as [[ns|] r3] eqn:Hn; [|done].
    destruct (within_rows _); [|done]. injection E as <- _.
    assert (forall m l, Forall branch_ok l -> Forall branch_ok (mjoin (map (add_time text m) l))) as Hadd.
    { intros m l Hl. induction Hl as [|b l Hb _ IH]; simpl; [constructor|].
      apply Forall_app. split; [by apply add_time_ok|done]. }
    apply Forall_app. split; apply Hadd; [by eapply IHy|by eapply IHn].
Qed.

(** The fields the traversal collects are declared. *)
Lemma collect_fields_declared schema l st st' : Forall (fun f => f ∈ schema.*1) (fst st) ->
  rfold (collect_field schema) l st = Ok st' -> Forall (fun f => f ∈ schema.*1) (fst st').
Proof.
  revert st. induction l as [|n l IH]; intros st Hst E; simpl in E; [by simplify_eq|].
  apply rbind_ok in E as (st1 & E1 & E). eapply IH; [|exact E]. destruct st as [fields valid].
  unfold collect_field in E1. rinv; try done. bsplit. apply Forall_elem. intros x Hx.
  apply elem_of_set_add in Hx as [->|Hx]; [done|]. simpl in Hst. rewrite Forall_elem in Hst. auto.
Qed.

(** A tier of the table. *)
Definition tier_ok (t : task_tier) : Prop :=
  price_ok (kt_constant t) = true /\ kt_unitPrices t <> [] /\
  Forall (fun p => price_ok (snd p) = true) (kt_unitPrices t).

Lemma round_positive m e l : n_leb n_zero (binary_round_aux 53 1024 false m e l) = true \/ is_finite (binary_round_aux 53 1024 false m e l) = false.
Proof.
  unfold binary_round_aux. destruct (shr_fexp 53 1024 m e l) as [mrs e1]. destruct (shr_fexp 53 1024 _ e1 loc_Exact) as [mrs2 e2].
  destruct (shr_m mrs2); [by left| |by right]. destruct (e2 <=? _); [by left|by right].
Qed.

Lemma mul_nonneg a b : n_leb n_zero a = true -> n_leb n_zero b = true -> is_finite (n_mul a b) = true -> n_leb n_zero (n_mul a b) = true.
Proof.
  unfold n_mul. destruct a as [sa|sa| |sa ma ea], b as [sb|sb| |sb mb eb]; try done; intros Ha Hb; cbn [SFmul]; try done;
    destruct sa, sb; try done. cbn [xorb]. intros Hf. destruct (round_positive (Zpos (ma * mb)) (ea + eb) loc_Exact) as [H|H]; [done|congruence].
Qed.

Lemma price_of_ok field prices : Forall (fun p => price_ok (snd p) = true) prices -> n_leb n_zero (price_of field prices) = true.
Proof.
  intros Hp. unfold price_of. destruct (obj_get field prices) as [x|] eqn:E; [|done]. cbn. apply fmap_Some in E as ([k y] & E & ->).
  apply List.find_some in E as [E _]. rewrite List.Forall_forall in Hp. apply Hp in E. unfold price_ok in E. by bsplit.
Qed.

(** The displayed prices are non-negative as soon as they are finite. *)
Lemma unit_prices_nonneg schema fields b : branch_ok b ->
  Forall (fun p => is_finite (snd p) = true -> n_leb n_zero (snd p) = true) (branch_unit_prices schema fields b).
Proof.
  intros [_ Hp]. unfold branch_unit_prices.
  assert (Forall (fun p : jstr * num => is_finite (snd p) = true -> n_leb n_zero (snd p) = true) []) as H0 by constructor.
  revert H0. generalize (@nil (jstr * num)) as prices. induction fields as [|f fields IH]; intros prices H0; cbn [fold_left]; [done|]. apply IH.
  destruct (schema_get schema f) as [[[[]|] [un|] en ? ? ?]|]; try done. apply set_forall; [|done]. cbn [snd]. intros Hf.
  apply mul_nonneg; [by apply price_of_ok| |done]. by destruct un.
Qed.

Lemma branch_tier_ok schema fields facts b t : branch_ok b ->
  branch_tier schema fields facts b = Some t ->
  tier_ok t /\ pb_label b = Some (kt_label t) /\
  kt_conditions t = map (fun '(f, v) => TaskCondition f (fact_text v)) facts.
Proof.
  intros Hok E. pose proof (unit_prices_nonneg schema fields b Hok) as Hnn. destruct Hok as [Hk _].
  unfold branch_tier in E. destruct (pb_label b) as [label|]; [|done].
  destruct (is_empty _ || _) eqn:Hb; [done|]. injection E as <-. unfold tier_ok. simpl.
  apply orb_false_split in Hb as [He Hfin]. apply negb_false_iff in Hfin.
  split_and!; try done; [by intros Hz; rewrite Hz in He|]. rewrite forallb_forall in Hfin. apply Forall_elem.
  intros p Hp. unfold price_ok. rewrite Forall_elem in Hnn. specialize (Hnn p Hp). apply list_elem_of_In, Hfin in Hp. by rewrite Hp, Hnn.
Qed.

Lemma mapM_Forall_out {A B} (f : A -> option B) (P : A -> Prop) (Q : B -> Prop) l k :
  (forall x y, P x -> f x = Some y -> Q y) -> Forall P l -> mapM f l = Some k -> Forall Q k.
Proof.
  intros Hf Hl. revert k. induction Hl as [|x l Hx _ IH]; intros k E; simpl in E.
  { injection E as <-. constructor. }
  apply bind_Some in E as (y & Hy & E). apply bind_Some in E as (ys & Hys & [= <-]).
  constructor; eauto.
Qed.

Lemma mapM_length_eq {A B} (f : A -> option B) l k : mapM f l = Some k -> length k = length l.
Proof.
  revert k. induction l as [|x l IH]; intros k E; simpl in E; [by injection E as <-|].
  apply bind_Some in E as (y & Hy & E). apply bind_Some in E as (ys & Hys & [= <-]).
  simpl. by rewrite (IH _ Hys).
Qed.

Lemma combination_tiers_ok source schema fields ast cs r tiers all : wf ast ->
  Forall tier_ok tiers -> within_rows (length tiers) = true ->
  combination_tiers source schema fields ast cs r tiers = Some all ->
  Forall tier_ok all /\ within_rows (length all) = true.
Proof.
  intros Hw. revert r tiers. induction cs as [|facts cs IH]; intros r tiers Ht Hl E; simpl in E.
  { by simplify_eq. }
  destruct (taskPriceBranches _ ast r) as [[bs|] r1] eqn:Hb; [|done].
  destruct (within_rows (length tiers + length bs)) eqn:Hrows; [|done].
  destruct (mapM _ bs) as [new|] eqn:Hn; [|done].
  apply branches_ok in Hb; [|done]. eapply IH; [| |exact E].
  - apply Forall_app. split; [done|]. eapply mapM_Forall_out; [|exact Hb|exact Hn].
    intros b t Hbo Hbt. by eapply branch_tier_ok.
  - rewrite length_app, (mapM_length_eq _ _ _ Hn). done.
Qed.

Lemma combination_tiers_block source schema fields ast cs r tiers all facts : facts ∈ cs ->
  combination_tiers source schema fields ast cs r tiers = Some all ->
  exists before block after r1 r2 branches, all = before ++ block ++ after /\
    taskPriceBranches (TaskContext source schema facts) ast r1 = (Some branches, r2) /\
    mapM (branch_tier schema fields facts) branches = Some block.
Proof.
  intros Hin. revert r tiers. induction cs as [|f0 cs IH]; intros r tiers E;
    [by apply not_elem_of_nil in Hin|]. simpl in E.
  destruct (taskPriceBranches _ ast r) as [[bs|] r1] eqn:Hb; [|done].
  destruct (within_rows (length tiers + length bs)); [|done].
  destruct (mapM _ bs) as [new|] eqn:Hn; [|done].
  apply elem_of_cons in Hin as [<-|Hin]; [|by eapply IH].
  assert (forall cs r tiers all, combination_tiers source schema fields ast cs r tiers = Some all ->
    exists rest, all = tiers ++ rest) as Hpre.
  { clear. induction cs as [|f cs IH]; intros r tiers all E; simpl in E.
    { injection E as <-. exists []. by rewrite app_nil_r. }
    destruct (taskPriceBranches _ ast r) as [[bs|] r1]; [|done]. destruct (within_rows _); [|done].
    destruct (mapM _ bs) as [new|]; [|done]. apply IH in E as [rest ->].
    exists (new ++ rest). by rewrite app_assoc. }
  apply Hpre in E as [rest ->]. exists tiers, new, rest, r, r1, bs.
  rewrite app_assoc. done.
Qed.


(** ** Every usage at every moment has a row *)

(** A condition the table can answer contains no tier. *)
Lemma operand_no_tier n : wf n -> is_clock_operand n = true -> ~ uses_function F_tier n.
Proof.
  intros Hw Hn (args & s & e & Hin). destruct n as [l sl el| |f as_ sf ef| | |]; try done.
  { cbn in Hin. by apply list_elem_of_singleton in Hin. }
  destruct f; try done. destruct as_ as [|a as_]; [done|]. destruct a as [l sl el| | | | |]; try done. destruct l as [|z| |]; try done.
  apply wf_unfold in Hw as [Hok _]. pose proof (nk_arity _ Hok) as Har. destruct as_; [|done].
  cbn in Hin. apply elem_of_cons in Hin as [?|Hin]; [done|]. by apply list_elem_of_singleton in Hin.
Qed.

Lemma probe_no_tier l r key value : wf l -> fact_probe l r = Some (key, value) -> ~ uses_function F_tier l /\ ~ uses_function F_tier r.
Proof.
  intros Hw Hp. apply fact_probe_inv in Hp as (s & e & args & s' & e' & sl & el & -> & ->).
  apply wf_unfold in Hw as [Hok _]. pose proof (nk_arity _ Hok) as Har. destruct args; [|done]. split; intros (args & s1 & e1 & Hin); cbn in Hin.
  - apply elem_of_cons in Hin as [?|Hin]; [done|]. by apply list_elem_of_singleton in Hin.
  - by apply list_elem_of_singleton in Hin.
Qed.

Lemma binary_no_tier o l r s e : ~ uses_function F_tier l -> ~ uses_function F_tier r -> ~ uses_function F_tier (Bin o l r s e).
Proof.
  intros Hl Hr (args & s' & e' & Hin). cbn in Hin. rewrite !elem_of_app, list_elem_of_singleton in Hin.
  destruct Hin as [[Hin|Hin]|Hin]; [apply Hl|apply Hr|done]; by exists args, s', e'.
Qed.

Lemma condition_no_tier kx n r a r' : wf n -> taskDisplayCondition kx n r = (a, r') -> a <> CA_null -> ~ uses_function F_tier n.
Proof.
  revert r a r'. induction n as [l s e| | |o x s e IH|o l rn s e IHl IHr|] using node_rect_strong;
    intros r a r' Hw Ha Hne; cbn [taskDisplayCondition] in Ha; destruct (r - 1 <? 0); simplify_eq; try done.
  - intros (args & s' & e' & Hin). cbn in Hin. by apply list_elem_of_singleton in Hin.
  - destruct o; simplify_eq; try done. destruct (taskDisplayCondition kx x (r - 1)) as [ax rx] eqn:Hx. injection Ha as <- _.
    apply wf_unfold in Hw as [_ Hw]. apply Forall_cons_iff in Hw as [Hwx _].
    assert (~ uses_function F_tier x) as Hn by (eapply IH; [done|exact Hx|by intros ->]).
    intros (args & s' & e' & Hin). cbn in Hin. rewrite elem_of_app, list_elem_of_singleton in Hin. destruct Hin as [Hin|Hin]; [apply Hn; by exists args, s', e'|done].
  - apply wf_unfold in Hw as Hw'. destruct Hw' as [_ Hw']. apply Forall_cons_iff in Hw' as [Hwl Hw']. apply Forall_cons_iff in Hw' as [Hwr _].
    assert (clock_answer kx o l rn s e <> CA_null -> ~ uses_function F_tier (Bin o l rn s e)) as Hclock.
    { unfold clock_answer. destruct (is_comparison o && _ && _ && _) eqn:E; [|done]. intros _. bsplit. by apply binary_no_tier; apply operand_no_tier. }
    assert (o = B_eq \/ o = B_ne -> ~ uses_function F_tier (Bin o l rn s e)) as Heq.
    { intros Ho. assert (match fact_probe l rn with Some p => fact_answer kx (bool_decide (o = B_eq)) p
        | None => match fact_probe rn l with Some p => fact_answer kx (bool_decide (o = B_eq)) p | None => clock_answer kx o l rn s e end end = a) as <-
        by (destruct Ho as [->| ->]; by injection Ha).
      destruct (fact_probe l rn) as [[k w]|] eqn:E1; [by destruct (probe_no_tier _ _ _ _ Hwl E1); apply binary_no_tier|].
      destruct (fact_probe rn l) as [[k w]|] eqn:E2; [by destruct (probe_no_tier _ _ _ _ Hwr E2); apply binary_no_tier|by apply Hclock]. }
    destruct o; try (by injection Ha as <- _; apply Hclock); try (by apply Heq; auto).
    all: destruct (taskDisplayCondition kx l (r - 1)) as [al r1] eqn:Hl; destruct (taskDisplayCondition kx rn r1) as [ar r2] eqn:Hrn;
      injection Ha as <- _; apply binary_no_tier; [eapply IHl|eapply IHr]; try done; try exact Hl; try exact Hrn; intros Ez; apply Hne; rewrite Ez; [done|by destruct al].
Qed.

Section Cover.
Context `{Platform} (T : jstr -> bool).

(** The time conditions of a branch that hold when [T] says which hold. *)
Definition agrees (times : list (jstr * bool)) : Prop := Forall (fun p => T (fst p) = snd p) times.

Lemma agrees_get times key v : agrees times -> times_get key times = Some v -> T key = v.
Proof.
  intros Ha E. apply fmap_Some in E as ([k w] & E & ->). apply List.find_some in E as [Hin Hk]. apply bool_decide_eq_true in Hk. cbn in Hk. subst.
  unfold agrees in Ha. rewrite List.Forall_forall in Ha. exact (Ha _ Hin).
Qed.

Lemma agrees_map_set key v m : T key = v -> agrees m -> agrees (map_set key v m).
Proof. intros Hk Hm. induction Hm as [|[k w] m Hw Hm IH]; cbn [map_set]; [by repeat constructor|]. case_bool_decide; [subst|]; by constructor. Qed.

Lemma agrees_map_of entries : agrees entries -> agrees (map_of entries).
Proof.
  unfold map_of. assert (agrees []) as H0 by constructor. revert H0. generalize (@nil (jstr * bool)) as m.
  induction entries as [|p l IH]; intros m Hm Hl; cbn [fold_left]; [done|]. apply Forall_cons_iff in Hl as [Hp Hl]. apply IH; [|done]. by apply agrees_map_set.
Qed.

Lemma agrees_compatible a b : agrees a -> agrees b -> contradicts a b = false.
Proof.
  intros Ha Hb. unfold contradicts. apply not_true_is_false. intros E. apply existsb_exists in E as ([k v] & Hin & E). cbn [fst snd] in E.
  unfold agrees in Ha. rewrite List.Forall_forall in Ha. apply Ha in Hin. cbn in Hin. destruct (times_get k b) as [w|] eqn:Ew; [|done].
  apply (agrees_get b) in Ew; [|done]. subst. by destruct (T k).
Qed.

Lemma add_time_agrees text b : agrees (pb_times b) ->
  exists b', b' ∈ add_time text (T text) b /\ agrees (pb_times b') /\ pb_label b' = pb_label b.
Proof.
  intros Hb. assert (agrees (map_of ((text, T text) :: pb_times b))) as Hm by (apply agrees_map_of; by constructor).
  unfold add_time. destruct (times_get text (pb_times b)) as [v|] eqn:E.
  - apply (agrees_get _ _ _ Hb) in E. subst v. rewrite eqb_reflx. eexists. split; [by left|done].
  - eexists. split; [by left|done].
Qed.

Lemma combine_agrees o a b l : agrees (pb_times a) -> agrees (pb_times b) -> combine_branch o a b = Some l ->
  exists b', b' ∈ l /\ agrees (pb_times b') /\ pb_label b' = either_label (pb_label a) (pb_label b) /\ (pb_label a = None \/ pb_label b = None).
Proof.
  intros Ha Hb. unfold combine_branch. rewrite agrees_compatible by done.
  destruct (combine_prices o a b) as [[c ps]|]; destruct (pb_label a), (pb_label b); try done; intros [= <-];
    (eexists; split; [by left|]; split; [apply agrees_map_of; by apply Forall_app_2|auto]).
Qed.

(** [T] says which time conditions of [n] hold when [ev_] evaluates them. *)
Definition clock_truth (kx : task_context) (ev_ : env) (n : node) : Prop :=
  forall m, m ∈ postorder n -> forall r text r' rt v i rt',
    taskDisplayCondition kx m r = (CA_text text, r') -> evaluate ev_ m rt = Ok ((v, i), rt') -> v = J_bool (T text).

Lemma clock_truth_mono kx ev_ n m : m ∈ postorder n -> clock_truth kx ev_ n -> clock_truth kx ev_ m.
Proof. intros Hm Hn x Hx. apply Hn. by eapply postorder_trans. Qed.

(** Evaluation matches the label of the branch. *)
Definition labelled (kx : task_context) (n : node) (b : price_branch) : Prop :=
  forall ev_ u rt v i rt', cx_usage (ev_context ev_) = Some u -> reports (kx_schema kx) (kx_facts kx) u ->
    clock_truth kx ev_ n -> evaluate ev_ n rt = Ok ((v, i), rt') -> rt_matchedTier rt' = default (rt_matchedTier rt) (pb_label b).

Lemma labelled_none kx n b : ~ uses_function F_tier n -> pb_label b = None -> labelled kx n b.
Proof. intros Hn Hb ev_ u rt v i rt' _ _ _ E. rewrite Hb. by apply no_tier_label in E. Qed.

Lemma labelled_binary kx o l r s e a b c : o <> B_and -> o <> B_or -> labelled kx l a -> labelled kx r b ->
  pb_label c = either_label (pb_label a) (pb_label b) -> pb_label a = None \/ pb_label b = None -> labelled kx (Bin o l r s e) c.
Proof.
  intros Ho1 Ho2 Hl Hr Hc Hab ev_ u rt v i rt' Hu Hrep Ht E. apply evaluate_inv in E as (rt1 & E & -> & _).
  assert (exists x y rt2, evaluate ev_ l (set_rt_depth (rt_depth rt + 1) rt) = Ok (x, rt2) /\ evaluate ev_ r rt2 = Ok (y, rt1)) as ([x ix] & [y iy] & rt2 & E1 & E2).
  { cbn [evaluateNode] in E. unfold binaryOf in E. destruct o; try done; rinv; repeat eexists; eauto. }
  assert (l ∈ postorder (Bin o l r s e) /\ r ∈ postorder (Bin o l r s e)) as [Il Ir] by (split; apply postorder_child; set_solver).
  apply (Hl ev_ u) in E1; [|done|done|by eapply clock_truth_mono]. apply (Hr ev_ u) in E2; [|done|done|by eapply clock_truth_mono].
  change (rt_matchedTier (set_rt_depth _ rt1)) with (rt_matchedTier rt1). rewrite E2, E1, Hc. by destruct Hab as [-> | ->], (pb_label a), (pb_label b).
Qed.

Lemma labelled_cond kx c y no s e b a r r' : wf c -> taskDisplayCondition kx c r = (a, r') ->
  match a with CA_null => False | CA_bool v => labelled kx (if v then y else no) b | CA_text text => labelled kx (if T text then y else no) b end ->
  labelled kx (Cond c y no s e) b.
Proof.
  intros Hw Ha Hb ev_ u rt v i rt' Hu Hrep Ht E. apply evaluate_inv in E as (rt1 & E & -> & _). cbn [evaluateNode] in E.
  apply rbind_ok in E as ([x rt2] & E1 & E). apply booleanOf_ok in E1 as [j E1].
  assert (c ∈ postorder (Cond c y no s e) /\ y ∈ postorder (Cond c y no s e) /\ no ∈ postorder (Cond c y no s e)) as (Ic & Iy & In)
    by (split_and!; apply postorder_child; set_solver).
  assert (a <> CA_null) as Hne by (by intros ->). pose proof (condition_no_tier _ _ _ _ _ Hw Ha Hne) as Hnt.
  pose proof (no_tier_label _ _ _ _ _ Hnt E1) as Hm. change (rt_matchedTier (set_rt_depth _ rt1)) with (rt_matchedTier rt1).
  change (rt_matchedTier rt2 = rt_matchedTier rt) in Hm. rewrite <- Hm.
  assert (labelled kx (if x then y else no) b) as Hx.
  { pose proof (condition_sound kx ev_ u Hu Hrep c _ _ _ Hw Ha _ _ _ _ E1) as Hs. destruct a as [|v0|text]; [done|by injection Hs as ->|].
    pose proof (Ht c Ic _ _ _ _ _ _ _ Ha E1) as Hv. injection Hv as ->. done. }
  destruct x; (apply (Hx ev_ u) in E; [exact E|exact Hu|exact Hrep|by eapply clock_truth_mono]).
Qed.

Lemma mapM_pick {A B} (f : A -> option (list B)) (l : list A) (k : list (list B)) (x : A) : mapM f l = Some k -> x ∈ l -> exists y, f x = Some y /\ forall z, z ∈ y -> z ∈ mjoin k.
Proof.
  revert k. induction l as [|x0 l IH]; intros k E Hx; [by apply not_elem_of_nil in Hx|]. cbn in E.
  apply bind_Some in E as (y & Hy & E). apply bind_Some in E as (ys & Hys & [= <-]). apply elem_of_cons in Hx as [->|Hx].
  - exists y. split; [done|]. intros z Hz. cbn. apply elem_of_app. by left.
  - destruct (IH ys Hys Hx) as (y' & Hy' & Hin). exists y'. split; [done|]. intros z Hz. cbn. apply elem_of_app. right. by apply Hin.
Qed.

Lemma branches_cover kx n r bs r' : wf n -> taskPriceBranches kx n r = (Some bs, r') ->
  exists b, b ∈ bs /\ agrees (pb_times b) /\ labelled kx n b.
Proof.
  revert r bs r'. induction n as [l s e| |f args s e IH| |o l rn s e IHl IHr|c y no s e _ IHy IHn]
    using node_rect_strong; intros r bs r' Hw E; cbn [taskPriceBranches] in E; destruct (r - 1 <? 0); simplify_eq; try done.
  - destruct l as [x i| | |]; simplify_eq. destruct (n_leb n_zero x); simplify_eq. eexists. split; [by left|]. split; [constructor|].
    apply labelled_none; [|done]. intros (args & s' & e' & Hin). cbn in Hin. by apply list_elem_of_singleton in Hin.
  - destruct f; simplify_eq.
    + destruct args as [|a1 args]; [done|]. destruct a1 as [l1 s1 e1| | | | |]; try done.
      destruct l1 as [|label| |]; try done. destruct args as [|body [|]]; try done.
      destruct (taskPriceBranches kx body (r - 1)) as [[bs1|] r1] eqn:Hb; [|done].
      apply Forall_cons_iff in IH as [_ IH]. apply Forall_cons_iff in IH as [IH _].
      apply wf_unfold in Hw as [_ Hw]. apply Forall_cons_iff in Hw as [_ Hw]. apply Forall_cons_iff in Hw as [Hw _].
      destruct (IH _ _ _ Hw Hb) as (b & Hin & Hag & _). destruct (existsb _ bs1); [done|]. injection E as <- _.
      eexists. split; [apply list_elem_of_fmap; by exists b|]. split; [done|]. intros ev_ u rt v i rt' Hu _ _ E.
      apply evaluate_inv in E as (rt1 & E & -> & _). simpl in E.
      apply rbind_ok in E as ([name rt2] & E1 & E). apply stringOf_ok in E1 as [j E1]. apply evaluate_lit in E1. injection E1 as -> _.
      apply rbind_ok in E as ([[x ix] rt3] & _ & E). unfold value_only in E. by injection E as _ _ <-.
    + destruct args as [|[[|field| |] s1 e1| | | | |] args]; try done.
      assert (~ uses_function F_tier (Call F_u (Lit (L_str field) s1 e1 :: args) s e)) as Hnt.
      { apply wf_unfold in Hw as [Hok _]. pose proof (nk_arity _ Hok) as Har. destruct args; [|done]. intros (args & s' & e' & Hin). cbn in Hin.
        apply elem_of_cons in Hin as [?|Hin]; [done|]. by apply list_elem_of_singleton in Hin. }
      destruct (schema_get (kx_schema kx) field) as [[[[]|] [un|] en]|]; simplify_eq/=.
      eexists. split; [by left|]. split; [constructor|]. by apply labelled_none.
  - apply wf_unfold in Hw as [_ Hw]. apply Forall_cons_iff in Hw as [Hwl Hw]. apply Forall_cons_iff in Hw as [Hwr _].
    assert (forall o, o <> B_and -> o <> B_or ->
      (let '(a, r1) := taskPriceBranches kx l (r - 1) in
       let '(b, r2) := taskPriceBranches kx rn r1 in
       (match a, b with
        | Some a, Some b => if within_rows (length a * length b) then combine_branches o a b else None
        | _, _ => None
        end, r2)) = (Some bs, r') -> exists b, b ∈ bs /\ agrees (pb_times b) /\ labelled kx (Bin o l rn s e) b) as Hgen.
    { clear E o. intros o Ho1 Ho2 E. destruct (taskPriceBranches kx l (r - 1)) as [[a|] r1] eqn:El; [|by destruct (taskPriceBranches kx rn r1) as [[]]].
      destruct (taskPriceBranches kx rn r1) as [[b|] r2] eqn:Er; [|done]. destruct (within_rows _); [|done]. injection E as E _.
      apply fmap_Some in E as (k & Hk & ->). destruct (IHl _ _ _ Hwl El) as (x & Hx & Hxa & Hxl). destruct (IHr _ _ _ Hwr Er) as (z & Hz & Hza & Hzl).
      destruct (mapM_pick _ _ _ (x, z) Hk) as (w & Hw' & Hin); [by apply list_elem_of_In, in_prod; apply list_elem_of_In|].
      destruct (combine_agrees _ _ _ _ Hxa Hza Hw') as (b' & Hb' & Hag & Hlab & Hab). exists b'. split; [by apply Hin|]. split; [done|].
      by eapply labelled_binary. }
    destruct o; first [done | exact (Hgen B_add ltac:(done) ltac:(done) E) | exact (Hgen B_mul ltac:(done) ltac:(done) E) | exact (Hgen B_div ltac:(done) ltac:(done) E)].
  - apply wf_unfold in Hw as [_ Hw]. apply Forall_cons_iff in Hw as [Hwc Hw].
    apply Forall_cons_iff in Hw as [Hwy Hw]. apply Forall_cons_iff in Hw as [Hwn _].
    destruct (taskDisplayCondition kx c (r - 1)) as [a r1] eqn:Hc. destruct a as [|v|text]; [done| |].
    { destruct v.
      - destruct (IHy _ _ _ Hwy E) as (b & Hin & Hag & Hlab). exists b. split_and!; [done|done|]. by eapply (labelled_cond _ _ _ _ _ _ _ (CA_bool true)).
      - destruct (IHn _ _ _ Hwn E) as (b & Hin & Hag & Hlab). exists b. split_and!; [done|done|]. by eapply (labelled_cond _ _ _ _ _ _ _ (CA_bool false)). }
    destruct (taskPriceBranches kx y r1) as [[ys|] r2] eqn:Hy; [|done].
    destruct (taskPriceBranches kx no r2) as [[ns|] r3] eqn:Hn; [|done].
    destruct (within_rows _); [|done]. injection E as <- _.
    assert (exists b, b ∈ (if T text then ys else ns) /\ agrees (pb_times b) /\ labelled kx (if T text then y else no) b) as (b & Hin & Hag & Hlab)
      by (destruct (T text); [by eapply IHy|by eapply IHn]).
    destruct (add_time_agrees text b Hag) as (b' & Hb' & Hag' & Hl').
    exists b'. split; [|split; [done|]].
    + apply elem_of_app. destruct (T text); [left|right]; apply list_elem_of_join; eexists; (split; [exact Hb'|apply list_elem_of_fmap; by exists b]).
    + eapply (labelled_cond _ _ _ _ _ _ _ (CA_text text)); [done|exact Hc|]. intros ev_ u rt v i rt' H1 H2 H3 H4. rewrite Hl'. by eapply Hlab.
Qed.
End Cover.

(** ** The facts of a row *)
Definition fact_value (f : fact) : jsval := match f with Fact_str s => J_str s | Fact_bool b => J_bool b end.

(** Facts that a usage reports, and that fix the given fields. *)
Record pins (schema : usage_schema) (u : usage) (fields : list jstr) (facts : list (jstr * fact)) : Prop := {
  pn_reports : reports schema facts u;
  pn_exact : Forall (fun p => own_property u (fst p) = Some (fact_value (snd p))) facts;
  pn_fields : forall f, f ∈ fields -> is_Some (obj_get f facts);
}.

Definition categorical_field (schema : usage_schema) (field : jstr) : bool :=
  negb (bool_decide (uf_type (default (UsageField None None None) (schema_get schema field)) = Some Field_number)).

Lemma pins_set schema u fields facts field v d : pins schema u fields facts -> obj_get field schema = Some d ->
  own_property u field = Some (fact_value v) ->
  match v with
  | Fact_bool b => uf_type d = Some Field_boolean
  | Fact_str s => uf_type d <> Some Field_boolean /\ exists vs, uf_enum d = Some vs /\ s ∈ vs
  end -> pins schema u (field :: fields) (obj_set field v facts).
Proof.
  intros [Hr He Hf] Hd Hu Hv. split.
  - intros key f Hk. rewrite obj_get_set in Hk. case_bool_decide as Hkey; [|by apply Hr]. subst key. injection Hk as <-. exists d. split; [done|].
    destruct v; [|done]. by destruct Hv.
  - by apply set_forall.
  - intros f Hin. rewrite obj_get_set. case_bool_decide as Hkey; [by eexists|]. apply Hf. apply elem_of_cons in Hin as [->|Hin]; [done|done].
Qed.

(** The combinations cover every conforming usage. *)
Lemma combinations_pin schema u fields seen cs all : conforming schema u ->
  Forall (fun f => f ∈ schema.*1) fields -> fact_combinations schema fields cs = Some all ->
  (exists facts, facts ∈ cs /\ pins schema u seen facts) ->
  exists facts, facts ∈ all /\ pins schema u (seen ++ List.filter (categorical_field schema) fields) facts.
Proof.
  intros Hcf. revert seen cs. induction fields as [|field fields IH]; intros seen cs Hin E Hex; cbn [fact_combinations List.filter] in *.
  { rewrite app_nil_r. by simplify_eq. }
  apply Forall_cons_iff in Hin as [Hf Hin]. apply declared_get in Hf as (d & Hd & Hsg). unfold categorical_field at 1.
  rewrite Hsg in E |- *. cbn [default from_option id] in E |- *. case_bool_decide as Hnum; cbn [negb] in *; [by eapply IH|].
  destruct (field_values d) as [values|] eqn:Hv; [|done].
  destruct values as [|v0 values]; [done|]. destruct (within_rows _); [|done].
  assert (exists v, v ∈ v0 :: values /\ own_property u field = Some (fact_value v) /\
    match v with
    | Fact_bool b => uf_type d = Some Field_boolean
    | Fact_str s => uf_type d <> Some Field_boolean /\ exists vs, uf_enum d = Some vs /\ s ∈ vs
    end) as (v & Hvin & Hvu & Hvt).
  { pose proof (Hcf _ _ Hd) as Hfact. unfold field_values in Hv.
    destruct (decide (uf_type d = Some Field_boolean)) as [Ht|Ht].
    - rewrite Ht in Hv, Hfact. destruct Hfact as [b Hb]. injection Hv as <- <-.
      exists (Fact_bool b). split; [destruct b; set_solver|done].
    - assert (map Fact_str <$> uf_enum d = Some (v0 :: values)) as Hv' by (by destruct (uf_type d) as [[]|]).
      apply fmap_Some in Hv' as (vs & Hvs & ->).
      assert (exists s, s ∈ vs /\ own_property u field = Some (J_str s)) as (s & Hs & Hps) by (destruct (uf_type d) as [[]|]; eauto; done).
      exists (Fact_str s). split; [apply list_elem_of_fmap; eauto|eauto]. }
  destruct Hex as (facts & Hfacts & Hp). destruct (IH (field :: seen) _ Hin E) as (facts' & Hin' & [Hr He Hp']).
  - exists (obj_set field v facts). split; [|by eapply pins_set].
    apply list_elem_of_join. exists (map (fun v => obj_set field v facts) (v0 :: values)). split; apply list_elem_of_fmap; eauto.
  - exists facts'. split; [done|]. split; [done|done|]. intros f Hf. apply Hp'. set_solver.
Qed.

(** The expression reads the usage field. *)
Definition reads (field : jstr) (n : node) : Prop :=
  exists s e args s' e', Call F_u (Lit (L_str field) s e :: args) s' e' ∈ postorder n.

Lemma collect_fields_read schema l fields valid fields' n field s e args s' e' :
  rfold (collect_field schema) l (fields, valid) = Ok (fields', true) ->
  n = Call F_u (Lit (L_str field) s e :: args) s' e' -> n ∈ l \/ field ∈ fields -> field ∈ fields'.
Proof.
  intros E ->. revert fields valid E. induction l as [|m l IH]; intros fields valid E Hin; cbn [rfold] in E.
  { simplify_eq. destruct Hin as [Hin|Hin]; [by apply not_elem_of_nil in Hin|done]. }
  apply rbind_ok in E as ([fields1 valid1] & E1 & E). apply (IH _ _ E). destruct Hin as [Hin|Hin].
  - apply elem_of_cons in Hin as [<-|Hin]; [|by left]. right. cbn [collect_field] in E1. case_bool_decide.
    + injection E1 as <- _. apply elem_of_set_add. by left.
    + injection E1 as <- <-. exfalso. clear IH. revert E. clear. revert fields. induction l as [|m l IH]; intros fields E; cbn [rfold] in E; [by simplify_eq|].
      apply rbind_ok in E as ([f1 v1] & E1 & E). assert (v1 = false) as ->; [|by eapply IH].
      unfold collect_field in E1. by rinv.
  - right. unfold collect_field in E1. rinv; try done. apply elem_of_set_add. by right.
Qed.

Definition times_text (times : list (jstr * bool)) : option jstr :=
  match join (js " && ") (map (fun '(condition, matches) => if matches : bool then parens condition else js "!" ++ parens condition) times) with
  | [] => None
  | text => Some text
  end.

Lemma conditions_hold u facts t : Forall (fun p => own_property u (fst p) = Some (fact_value (snd p))) facts ->
  kt_conditions t = map (fun '(f, v) => TaskCondition f (fact_text v)) facts -> tier_holds u t = true.
Proof.
  intros Hf Ht. unfold tier_holds. rewrite Ht. clear t Ht. induction Hf as [|[f v] facts Hv _ IH]; [done|]. cbn [map forallb]. rewrite IH, andb_true_r.
  unfold fact_holds. cbn [tk_field tk_value fst snd] in *. rewrite Hv. destruct v; cbn; by rewrite bool_decide_eq_true_2.
Qed.

Lemma mapM_elem {A B} (f : A -> option B) (l : list A) (k : list B) (x : A) : mapM f l = Some k -> x ∈ l -> exists y, f x = Some y /\ y ∈ k.
Proof.
  revert k. induction l as [|x0 l IH]; intros k E Hx; [by apply not_elem_of_nil in Hx|]. cbn in E.
  apply bind_Some in E as (y & Hy & E). apply bind_Some in E as (ys & Hys & [= <-]). apply elem_of_cons in Hx as [->|Hx].
  - exists y. split; [done|by left].
  - destruct (IH ys Hys Hx) as (y' & Hy' & Hin). exists y'. split; [done|by right].
Qed.

(** [T] says which time conditions hold at the moment of an evaluation. *)
Definition time_truth `{Platform} (T : jstr -> bool) (schema : usage_schema) (c : compiled_expression) (cx : context) : Prop :=
  forall ev_ rt facts, new_runtime c cx = Ok (ev_, rt) -> clock_truth T (TaskContext (ce_source c) schema facts) ev_ (ce_ast c).


(** No condition of the sample depends on the time. *)
Lemma fact_answer_no_text kx equality p text : fact_answer kx equality p <> CA_text text.
Proof. destruct p as [key value]. unfold fact_answer. by repeat case_match. Qed.

Definition timeless (n : node) : bool :=
  match n with
  | Lit _ _ _ | Var _ _ _ | Call _ _ _ _ | Cond _ _ _ _ _ => true
  | Un _ _ _ _ => false
  | Bin o l r _ _ =>
      match o with
      | B_eq => match fact_probe l r with Some _ => true | None => false end
      | B_and | B_or => false
      | _ => negb (is_comparison o)
      end
  end.

Lemma timeless_no_text kx n r text r' : timeless n = true -> taskDisplayCondition kx n r <> (CA_text text, r').
Proof.
  intros Hn E. destruct n as [[]| | |[]|o l rn s e|]; cbn [taskDisplayCondition] in E; destruct (r - 1 <? 0); try done.
  cbn [timeless] in Hn. destruct o; try done. destruct (fact_probe l rn) as [p|]; [|done]. injection E as E _. by apply fact_answer_no_text in E.
Qed.

Lemma video_timeless T cx : @time_truth plain_platform T video_schema video_compiled cx.
Proof.
  intros ev_ rt facts _ m Hm r text r' rt1 v i rt2 Hc _. exfalso. revert Hc. apply timeless_no_text.
  assert (forallb timeless (postorder (ce_ast video_compiled)) = true) as Hall by (vm_compute; reflexivity).
  rewrite forallb_forall in Hall. by apply Hall, list_elem_of_In.
Qed.


(** A table with a time condition: two rows for each quality, told apart by it. *)
Example clocked_rows :
  match readConditionalTaskPricing (js "hour('UTC') < 8 ? tier('night', u('seconds') * 1) : u('quality') == 'hd' ? tier('hd', u('seconds') * 3) : tier('day', u('seconds') * 2)") video_schema with
  | Ok (Some tiers) => map (fun t => (kt_label t, kt_conditionText t, map tk_value (kt_conditions t))) tiers
  | _ => []
  end
  = [(js "night", Some (js "(hour('UTC') < 8)"), [js "hd"]); (js "hd", Some (js "!(hour('UTC') < 8)"), [js "hd"]);
     (js "night", Some (js "(hour('UTC') < 8)"), [js "sd"]); (js "day", Some (js "!(hour('UTC') < 8)"), [js "sd"])].
Proof. vm_compute. reflexivity. Qed.
