(* ===== verification/Structure.v ===== *)
(** * Structural helpers on source text

    Models [billing-expression/structure.ts], which works on text that may lie
    outside the grammar: [splitExpressionAtTopLevel] and
    [unwrapExpressionParens], with the theorems that they lose nothing. *)
From stdpp Require Import strings.
From S2P Require Import Prelude JsString.

#[local] Open Scope Z_scope.

(** Where a scan stands with respect to string literals. *)
Inductive quote_state :=
| Q_none
| Q_in (quote : Z)
| Q_escaped (quote : Z).

(** The effect of a character inside a literal: a backslash hides the next one. *)
Definition quoted_step (quote c : Z) : quote_state :=
  if c =? 92 then Q_escaped quote else if c =? quote then Q_none else Q_in quote.

Definition is_quote (c : Z) : bool := (c =? 34) || (c =? 39).
Definition is_open (c : Z) : bool := (c =? 40) || (c =? 91) || (c =? 123).
Definition is_close (c : Z) : bool := (c =? 41) || (c =? 93) || (c =? 125).

Definition bracket_depth (c depth : Z) : Z :=
  let depth := if is_open c then depth + 1 else depth in
  if is_close c then depth - 1 else depth.

(** ** [splitExpressionAtTopLevel]

    [part] is the text since the last operator; [skip] counts the characters of
    an operator still to be passed over.  [None] when a conditional is found at
    the top level. *)
Fixpoint split_loop (operator s : jstr) (skip : nat) (part : jstr) (depth : Z) (q : quote_state)
  : option (list jstr) :=
  match s with
  | [] => Some [trim part]
  | c :: s1 =>
      match skip with
      | S skip => split_loop operator s1 skip part depth q
      | O =>
          match q with
          | Q_escaped quote => split_loop operator s1 0 (part ++ [c]) depth (Q_in quote)
          | Q_in quote => split_loop operator s1 0 (part ++ [c]) depth (quoted_step quote c)
          | Q_none =>
              if is_quote c then split_loop operator s1 0 (part ++ [c]) depth (Q_in c)
              else
                let depth := bracket_depth c depth in
                if negb (depth =? 0) then split_loop operator s1 0 (part ++ [c]) depth Q_none
                else if c =? 63 then None
                else if starts_with operator s then
                  cons (trim part) <$> split_loop operator s1 (length operator - 1) [] depth Q_none
                else split_loop operator s1 0 (part ++ [c]) depth Q_none
          end
      end
  end.

Definition nonempty (s : jstr) : bool := match s with [] => false | _ => true end.

Definition splitExpressionAtTopLevel (source operator : jstr) : list jstr :=
  match split_loop operator source 0 [] 0 Q_none with
  | Some parts => List.filter nonempty parts
  | None => [trim source]
  end.

(** ** [unwrapExpressionParens] *)

(** The scan for the parenthesis that closes the first one: does it end the
    text? *)
Fixpoint closes_at_end (s : jstr) (depth : Z) (q : quote_state) : bool :=
  match s with
  | [] => false
  | c :: s1 =>
      match q with
      | Q_escaped quote => closes_at_end s1 depth (Q_in quote)
      | Q_in quote => closes_at_end s1 depth (quoted_step quote c)
      | Q_none =>
          if is_quote c then closes_at_end s1 depth (Q_in c)
          else
            let depth := if c =? 40 then depth + 1 else depth in
            let depth := if c =? 41 then depth - 1 else depth in
            if depth =? 0 then match s1 with [] => true | _ => false end
            else closes_at_end s1 depth Q_none
      end
  end.

(** [expression.slice(1, -1)] *)
Definition inner (s : jstr) : jstr := slice s 1 (length s - 1).

Definition is_wrapped (s : jstr) : bool :=
  starts_with (js "(") s && ends_with (js ")") s && closes_at_end s 0 Q_none.

Fixpoint unwrap_loop (fuel : nat) (expression : jstr) : jstr :=
  match fuel with
  | O => expression
  | S fuel =>
      if is_wrapped expression then unwrap_loop fuel (trim (inner expression)) else expression
  end.

Definition unwrapExpressionParens (source : jstr) : jstr :=
  let expression := trim source in
  unwrap_loop (S (length expression)) expression.

(** ** Splitting loses nothing *)
Lemma starts_with_prefix p s t : starts_with p s = true -> starts_with p (s ++ t) = true.
Proof. rewrite !starts_with_spec. intros [u ->]. exists (u ++ t). by rewrite app_assoc. Qed.

Lemma split_skip op s k part d q :
  split_loop op s k part d q = split_loop op (drop k s) 0 part d q.
Proof.
  revert k. induction s as [|c s IH]; intros [|k]; simpl; done || apply IH.
Qed.

Lemma split_loop_nonempty op s k part d q : split_loop op s k part d q <> Some [].
Proof.
  revert k part d q. induction s as [|c s IH]; intros [|k] part d q; simpl; try done.
  { destruct q; try done. repeat case_match; try done. intros E.
    by apply fmap_Some in E as (x & _ & ?). }
Qed.

(** The first part of a split: its text, which alone does not split, and what
    follows it. *)
Lemma split_first op s part d q p ps : op <> [] -> split_loop op s 0 part d q = Some (p :: ps) ->
  exists r t, s = r ++ t /\ p = trim (part ++ r) /\ split_loop op r 0 part d q = Some [p] /\
    ((ps = [] /\ t = []) \/
     (exists t', t = op ++ t' /\ split_loop op t' 0 [] 0 Q_none = Some ps)).
Proof.
  intros Hop. revert part d q. induction s as [|c s IH]; intros part d q E; cbn [split_loop] in E.
  { injection E as <- <-. exists [], []. rewrite (app_nil_r part). split_and!; [done|done|done|by left]. }
  assert (forall d' q', split_loop op s 0 (part ++ [c]) d' q' = Some (p :: ps) ->
    (forall r, r ++ drop (length r) s = s -> split_loop op r 0 (part ++ [c]) d' q' = Some [p] ->
       split_loop op (c :: r) 0 part d q = Some [p]) ->
    exists r t, c :: s = r ++ t /\ p = trim (part ++ r) /\ split_loop op r 0 part d q = Some [p] /\
      ((ps = [] /\ t = []) \/
       (exists t', t = op ++ t' /\ split_loop op t' 0 [] 0 Q_none = Some ps))) as Hstep.
  { intros d' q' E' Hr. apply IH in E' as (r & t & -> & -> & Hs & Ht).
    exists (c :: r), t. split_and!; [done|by rewrite <- app_assoc| |done].
    rewrite <- app_assoc in *. apply Hr; [|done].
    by rewrite drop_app_length. }
  destruct q as [|qt|qt]; try (eapply Hstep; [exact E|]; intros r _ Hs; exact Hs).
  destruct (is_quote c) eqn:Hq.
  { eapply Hstep; [exact E|]. intros r _ Hs. cbn [split_loop]. by rewrite Hq. }
  cbv zeta in E. destruct (negb (bracket_depth c d =? 0)) eqn:Hd.
  { eapply Hstep; [exact E|]. intros r _ Hs. cbn [split_loop]. rewrite Hq. cbv zeta. by rewrite Hd. }
  destruct (c =? 63) eqn:Hc; [done|]. destruct (starts_with op (c :: s)) eqn:Hop'.
  - apply fmap_Some in E as (l & E & [= -> ->]). apply starts_with_spec in Hop' as [t' Ht'].
    exists [], (c :: s). rewrite (app_nil_r part). split_and!; [done|done|done|]. right. exists t'.
    split; [done|]. rewrite split_skip in E. bsplit.
    destruct op as [|o op]; [done|]. injection Ht' as -> ->.
    simpl length in E. replace (S (length op) - 1)%nat with (length op) in E by lia.
    rewrite drop_app_length in E.
    by rewrite Hd in E.
  - eapply Hstep; [exact E|]. intros r Hr Hs. cbn [split_loop]. rewrite Hq. cbv zeta.
    rewrite Hd, Hc. destruct (starts_with op (c :: r)) eqn:Hop2; [|done].
    apply (starts_with_prefix _ _ (drop (length r) s)) in Hop2. simpl in Hop2. rewrite Hr in Hop2.
    simpl in Hop'. congruence.
Qed.

(** A text with no operator at its top level. *)
Definition atomic (operator s : jstr) : Prop :=
  split_loop operator s 0 [] 0 Q_none = Some [trim s].

Lemma split_raws op s ps : op <> [] -> split_loop op s 0 [] 0 Q_none = Some ps ->
  exists raws, s = join op raws /\ ps = map trim raws /\ Forall (atomic op) raws /\ raws <> [].
Proof.
  intros Hop. revert s. induction ps as [|p ps IH]; intros s E; [by apply split_loop_nonempty in E|].
  apply split_first in E as (r & t & -> & -> & Hr & [[-> ->]|(t' & -> & Ht)]); [| |done].
  - exists [r]. rewrite app_nil_r. split_and!; [done|done|by repeat constructor|done].
  - apply IH in Ht as (raws & -> & -> & Hall & Hne). exists (r :: raws).
    split_and!; [|done|by constructor|done]. destruct raws; done.
Qed.

(** splitting at an operator loses nothing and splits everywhere it
    should: unless the text has a conditional at its top level (and is returned
    whole, trimmed), it is the join by the operator of texts that have no
    operator at their own top level, and the result is those texts, trimmed,
    without the empty ones. *)
Theorem split_lossless source operator :
  operator <> [] ->
  splitExpressionAtTopLevel source operator = [trim source] \/
  exists raws, source = join operator raws /\ Forall (atomic operator) raws /\
    splitExpressionAtTopLevel source operator = List.filter nonempty (map trim raws).
Proof.
  intros Hop. unfold splitExpressionAtTopLevel.
  destruct (split_loop operator source 0 [] 0 Q_none) as [ps|] eqn:E; [right|by left].
  apply split_raws in E as (raws & -> & -> & Hall & _); [|done]. eauto.
Qed.

Lemma split_lossless_witness :
  splitExpressionAtTopLevel (js "tier('a*b', p * 2) * (hour('UTC') > 3 ? 2 : 1) *") (js "*") =
    [js "tier('a*b', p * 2)"; js "(hour('UTC') > 3 ? 2 : 1)"] /\
  (splitExpressionAtTopLevel (js "p * c") (js "*") = [trim (js "p * c")] \/
   exists raws, js "p * c" = join (js "*") raws /\ Forall (atomic (js "*")) raws /\
     splitExpressionAtTopLevel (js "p * c") (js "*") = List.filter nonempty (map trim raws)).
Proof.
  split; [vm_compute; reflexivity|]. apply (split_lossless (js "p * c") (js "*")). discriminate.
Defined.

(** ** Unwrapping *)
Lemma drop_while_app_stop f a c : f c = false ->
  exists b, drop_while f (a ++ [c]) = b ++ [c].
Proof.
  intros Hc. induction a as [|x a [b Hb]]; simpl; [rewrite Hc; by exists []|].
  destruct (f x); [by exists b|]. by exists (x :: a).
Qed.

Lemma trim_idemp s : trim (trim s) = trim s.
Proof.
  unfold trim. remember (trim_start s) as x eqn:Hx.
  assert (trim_start (trim_end x) = trim_end x) as ->.
  { unfold trim_start at 1. apply drop_while_id. unfold trim_end.
    destruct x as [|c x]; [done|]. symmetry in Hx. apply drop_while_head in Hx as Hc. simpl rev.
    destruct (drop_while_app_stop is_space (rev x) c Hc) as [b ->].
    rewrite rev_app_distr. simpl. by rewrite Hc. }
  unfold trim_end. by rewrite rev_involutive, drop_while_idemp.
Qed.

Lemma is_wrapped_inner s : is_wrapped s = true -> s = js "(" ++ inner s ++ js ")".
Proof.
  unfold is_wrapped. intros H. bsplit. unfold ends_with in *.
  match goal with H1 : starts_with _ s = true |- _ => apply starts_with_spec in H1 as [t Ht] end.
  match goal with H1 : starts_with _ (rev s) = true |- _ => apply starts_with_spec in H1 as [t' Ht'] end.
  assert (s = rev t' ++ [41]) as Hs.
  { rewrite <- (rev_involutive s), Ht', rev_app_distr. done. }
  change (js "(") with [40] in *. change (js ")") with [41].
  destruct (rev t') as [|c m] eqn:Hm; [simpl in Hs; rewrite Hs in Ht; discriminate|].
  rewrite Hs in Ht. injection Ht as -> Ht. rewrite Hs. simpl.
  unfold inner, slice. simpl length. rewrite length_app. simpl.
  replace (length m + 1 - 0 - 1)%nat with (length m) by lia.
  by rewrite drop_0, take_app_length.
Qed.

(** [core] inside any number of matching parentheses and white space. *)
Inductive wraps (core : jstr) : jstr -> Prop :=
| W_core s : trim s = core -> wraps core s
| W_parens s a : trim s = js "(" ++ a ++ js ")" -> closes_at_end (trim s) 0 Q_none = true ->
    wraps core a -> wraps core s.

Lemma unwrap_loop_spec fuel e s : (length e < fuel)%nat -> trim s = e ->
  wraps (unwrap_loop fuel e) s /\ is_wrapped (unwrap_loop fuel e) = false /\
  trim (unwrap_loop fuel e) = unwrap_loop fuel e.
Proof.
  revert e s. induction fuel as [|fuel IH]; intros e s Hf He; [lia|]. simpl.
  destruct (is_wrapped e) eqn:Hw.
  - pose proof (is_wrapped_inner e Hw) as Hin.
    assert (length (trim (inner e)) < fuel)%nat as Hl.
    { pose proof (trim_length (inner e)). apply (f_equal length) in Hin.
      rewrite !length_app in Hin. simpl in Hin. lia. }
    destruct (IH _ (inner e) Hl eq_refl) as (H1 & H2 & H3). split_and!; [|done|done].
    eapply W_parens; [by rewrite He|rewrite He; unfold is_wrapped in Hw; by bsplit|done].
  - split_and!; [by apply W_core|done|]. rewrite <- He. apply trim_idemp.
Qed.

(** unwrapping removes exactly the outer parentheses that enclose the whole
    text: the source is the result inside some number of parentheses, each pair
    closing at the end of its text, and white space; and the result is trimmed
    and not itself so enclosed, so that unwrapping again changes nothing. *)
Theorem unwrap_complete source :
  let core := unwrapExpressionParens source in
  wraps core source /\ is_wrapped core = false /\ unwrapExpressionParens core = core.
Proof.
  intros core.
  destruct (unwrap_loop_spec (S (length (trim source))) (trim source) source) as (H1 & H2 & H3);
    [lia|done|].
  fold (unwrapExpressionParens source) in H1, H2, H3. fold core in H1, H2, H3.
  split; [exact H1|]. split; [exact H2|].
  unfold unwrapExpressionParens. rewrite H3. simpl. by rewrite H2.
Qed.
