(* ===== verification/ConditionDisplay.v ===== *)
(** * Describing conditions

    Models [billing-expression/condition-display.ts] and the locale resolution of
    [i18n/languages.ts] it uses.  The translation function, number formatting,
    weekday formatting and locale canonicalisation belong to the i18n library and
    to [Intl]: they are the operations of the class [Locale] and the argument
    [t].  Bounds of a time range are integers: the literals compared with clock
    fields are checked to be integers, and the bounds that matter lie in the
    fields' small domains (adding 1 to an integer beyond 2^53 may round, but
    both the rounded and the exact sum are outside every domain). *)
From Stdlib Require Import SpecFloat.
From stdpp Require Import strings gmap.
From S2P Require Import Prelude JsString JsNumber JsValue Syntax Compile Runtime Display.

#[local] Open Scope Z_scope.

(** ** The platform's formatting *)
Class Locale := {
  lc_canonical : jstr -> option jstr;        (* Intl.getCanonicalLocales(value)[0] *)
  lc_number : jstr -> num -> jstr;           (* value.toLocaleString(locale) *)
  lc_weekday : jstr -> Z -> jstr;            (* short weekday of a UTC time *)
}.

(** Options of a translation: strings or numbers, and whether values are
    escaped. *)
Inductive t_value := T_str (s : jstr) | T_int (z : Z).
Notation translate := (jstr -> list (jstr * t_value) -> jstr).

Definition DEFAULT_INTL_LOCALE : jstr := js "zh-CN".

Section WithLocale.
Context `{Locale}.

Definition toIntlLocale (value : jstr) : option jstr :=
  match value with
  | [] => None
  | _ =>
      if bool_decide (value = js "zhCN") then Some (js "zh-CN")
      else if bool_decide (value = js "zhTW") then Some (js "zh-TW")
      else lc_canonical value
  end.

Definition resolveIntlLocale (value : jstr) : jstr :=
  default DEFAULT_INTL_LOCALE (toIntlLocale value).

(** ** Descriptions *)
Inductive description_kind := K_calendar | K_clock | K_combined.

#[global] Instance description_kind_eq_dec : EqDecision description_kind.
Proof. solve_decision. Defined.

Record description := Description {
  ds_text : jstr;
  ds_kind : description_kind;
  ds_timezone : jstr;
  ds_disjunction : bool;
}.

Record time_comparison := TimeComparison {
  cp_name : time_function;
  cp_timezone : jstr;
  cp_operator : binary_operator;
  cp_value : Z;
}.

Definition DOMAINS (f : time_function) : Z * Z :=
  match f with
  | T_hour => (0, 24) | T_minute => (0, 60) | T_weekday => (0, 7)
  | T_month => (1, 13) | T_day => (1, 32)
  end.

Definition is_range_operator (o : binary_operator) : bool :=
  match o with B_eq | B_ge | B_gt | B_le | B_lt => true | _ => false end.

Definition timeComparison (n : node) : option time_comparison :=
  match n with
  | Bin o (Call (F_time f) (Lit (L_str zone) _ _ :: _) _ _) (Lit (L_num x _) _ _) _ _ =>
      if is_range_operator o then
        (fun z => TimeComparison f (match trim zone with [] => js "UTC" | z => z end) o z)
          <$> num_to_Z x
      else None
  | _ => None
  end.

(** The loop over the comparisons of one field: the half-open range that
    satisfies them all. *)
Definition narrow (range : Z * Z) (c : time_comparison) : Z * Z :=
  let '(start, stop) := range in
  let v := cp_value c in
  match cp_operator c with
  | B_ge => (Z.max start v, stop)
  | B_gt => (Z.max start (v + 1), stop)
  | B_lt => (start, Z.min stop v)
  | B_le => (start, Z.min stop (v + 1))
  | B_eq => (Z.max start v, Z.min stop (v + 1))
  | _ => range
  end.

Definition time_range (comparisons : list time_comparison) (f : time_function) : Z * Z :=
  fold_left narrow comparisons (DOMAINS f).

(** [String(n).padStart(2, '0')] *)
Definition pad2 (z : Z) : jstr :=
  let s := if z <? 0 then js "-" ++ dec_of_Z (- z) else dec_of_Z z in
  replicate (2 - length s) 48 ++ s.
Definition int_text (z : Z) : jstr := if z <? 0 then js "-" ++ dec_of_Z (- z) else dec_of_Z z.

(** [Date.UTC(2026, 0, 4 + offset)]: 4 January 2026 is a Sunday. *)
Definition sunday_2026 : Z := 1767484800000.
Definition weekday_date (offset : Z) : Z := sunday_2026 + offset * ms_per_day.

Definition field_label (f : time_function) : jstr :=
  match f with
  | T_minute => js "Minute" | T_month => js "Month" | T_day => js "Day"
  | _ => []
  end.

Definition en_dash : jstr := [8211].
Definition range_key : jstr := js "{{start}}" ++ en_dash ++ js "{{end}}".

Definition describeTimeRange (comparisons : list time_comparison) (t : translate) (locale : jstr)
  : option description :=
  match comparisons with
  | [] => None
  | first :: _ =>
      let '(start, stop) := time_range comparisons (cp_name first) in
      if stop <=? start then None
      else
        let one := start =? stop - 1 in
        let '(text, kind) :=
          match cp_name first with
          | T_hour =>
              (t range_key [(js "start", T_str (pad2 start ++ js ":00"));
                            (js "end", T_str (pad2 stop ++ js ":00"))], K_clock)
          | T_weekday =>
              let intl := resolveIntlLocale locale in
              let from := lc_weekday intl (weekday_date start) in
              let to := lc_weekday intl (weekday_date (stop - 1)) in
              (if one then from
               else t range_key [(js "start", T_str from); (js "end", T_str to)], K_calendar)
          | f =>
              let values :=
                if one then int_text start
                else t range_key [(js "start", T_int start); (js "end", T_int (stop - 1))] in
              (t (field_label f) [] ++ js ": " ++ values, K_calendar)
          end in
        Some (Description text kind (cp_timezone first) false)
  end.

(** [labels[node.left.name]] *)
Definition variable_label (v : token_variable) : option jstr :=
  match v with
  | V_p => Some (js "Input")
  | V_c => Some (js "Output")
  | V_len => Some (js "Full input length")
  | _ => None
  end.

(** The entries of [ranges]: comparisons of the same field and zone together,
    in order of first appearance. *)
Definition same_range (a b : time_comparison) : bool :=
  bool_decide (cp_name a = cp_name b) && bool_decide (cp_timezone a = cp_timezone b).

Fixpoint add_range (c : time_comparison) (ranges : list (list time_comparison))
  : list (list time_comparison) :=
  match ranges with
  | [] => [[c]]
  | r :: ranges =>
      if existsb (same_range c) r then (r ++ [c]) :: ranges else r :: add_range c ranges
  end.

(** A part of a conjunction: a clock comparison, or a description of its own. *)
Inductive condition_part :=
| Part_time (c : time_comparison)
| Part_text (d : option description).

Definition time_parts_of (items : list condition_part) : list (list time_comparison) :=
  fold_left (fun ranges i => match i with Part_time c => add_range c ranges | _ => ranges end)
    items [].
Definition text_parts_of (items : list condition_part) : list (option description) :=
  omap (fun i => match i with Part_text d => Some d | _ => None end) items.

Definition and_key : jstr := js "{{first}} and {{second}}".
Definition or_key : jstr := js "{{first}} or {{second}}".

Definition group_text (conjunction : bool) (d : description) : jstr :=
  if conjunction && ds_disjunction d then js "(" ++ ds_text d ++ js ")" else ds_text d.

(** The end of [describeBillingCondition]: the parts joined. *)
Definition join_parts (conjunction : bool) (parts : list description) (t : translate)
  : option description :=
  let zones := fold_left (fun l z => set_add z l)
                 (List.filter (fun z => negb (bool_decide (z = []))) (map ds_timezone parts)) [] in
  match parts with
  | [] => None
  | first :: rest =>
      if (1 <? Z.of_nat (length zones)) then None
      else
        let timezone := default [] (head zones) in
        match rest with
        | [] => Some first
        | _ =>
            let calendars := List.filter (fun d => bool_decide (ds_kind d = K_calendar)) parts in
            let clocks := List.filter (fun d => bool_decide (ds_kind d = K_clock)) parts in
            match conjunction, parts, calendars, clocks with
            | true, [_; _], [calendar], [clock] =>
                Some (Description (ds_text calendar ++ js " " ++ ds_text clock) K_combined
                        (ds_timezone first) false)
            | _, _, _, _ =>
                let separator := if conjunction then and_key else or_key in
                let text := fold_left (fun text d =>
                    t separator [(js "first", T_str text); (js "second", T_str (group_text conjunction d))])
                  rest (group_text conjunction first) in
                Some (Description text
                        (if Nat.eqb (length clocks) (length parts) then K_clock else K_combined)
                        timezone (negb conjunction))
            end
        end
  end.

Fixpoint describeBillingCondition (t : translate) (locale : jstr) (n : node)
  : option description :=
  match n with
  | Un U_not a _ _ =>
      (fun d => Description
         (t (js "Outside these times: {{condition}}") [(js "condition", T_str (ds_text d))])
         K_combined (ds_timezone d) (ds_disjunction d)) <$> describeBillingCondition t locale a
  | Bin o l r _ _ =>
      let variable :=
        match l, r with
        | Var v _ _, Lit (L_num x _) _ _ =>
            match o with
            | B_lt | B_le | B_gt | B_ge | B_eq | B_ne => Some (v, x)
            | _ => None
            end
        | _, _ => None
        end in
      match variable with
      | Some (v, x) =>
          (fun label => Description
             (t label [] ++ js " " ++ binary_text o ++ js " "
              ++ lc_number (resolveIntlLocale locale) x) K_combined [] false)
            <$> variable_label v
      | None =>
          match timeComparison n with
          | Some single => describeTimeRange [single] t locale
          | None =>
              (* the parts of the flattened conjunction or disjunction *)
              let parts := fix parts (m : node) : list condition_part :=
                match m with
                | Bin o' l' r' _ _ =>
                    if bool_decide (o' = o) then parts l' ++ parts r'
                    else
                      match (if bool_decide (o = B_and) then timeComparison m else None) with
                      | Some c => [Part_time c]
                      | None => [Part_text (describeBillingCondition t locale m)]
                      end
                | _ => [Part_text (describeBillingCondition t locale m)]
                end in
              match o with
              | B_and | B_or =>
                  let items := parts l ++ parts r in
                  match mapM id (text_parts_of items),
                        mapM (fun range => describeTimeRange range t locale) (time_parts_of items) with
                  | Some texts, Some ranges => join_parts (bool_decide (o = B_and)) (texts ++ ranges) t
                  | _, _ => None
                  end
              | _ => None
              end
          end
      end
  | _ => None
  end.

(** ** [formatBillingCondition] *)
Definition formatBillingCondition (source : jstr) (t : translate) (locale : jstr) : option jstr :=
  match compile source with
  | Failed _ => None
  | Ready compiled =>
      match describeBillingCondition t locale (ce_ast compiled) with
      | None => None
      | Some d =>
          match ds_timezone d with
          | [] => Some (ds_text d)
          | zone =>
              Some (t (js "{{condition}} ({{timezone}})")
                      [(js "condition", T_str (ds_text d)); (js "timezone", T_str zone)])
          end
      end
  end.
End WithLocale.

(** ** The described range is exact *)
Definition comparison_holds (c : time_comparison) (z : Z) : bool :=
  let v := cp_value c in
  match cp_operator c with
  | B_ge => v <=? z
  | B_gt => v <? z
  | B_lt => z <? v
  | B_le => z <=? v
  | B_eq => z =? v
  | _ => true
  end.

Lemma narrow_exact range c z : fst range <= z < snd range ->
  comparison_holds c z = true <-> fst (narrow range c) <= z < snd (narrow range c).
Proof.
  destruct range as [a b], c as [f zone o v]; unfold comparison_holds, narrow; simpl.
  intros Hz. destruct o; simpl; rewrite ?Z.leb_le, ?Z.ltb_lt, ?Z.eqb_eq; lia.
Qed.

Lemma narrow_inside range c z :
  fst (narrow range c) <= z < snd (narrow range c) -> fst range <= z < snd range.
Proof. destruct range as [a b], c as [f zone o v]; unfold narrow; simpl. destruct o; simpl; lia. Qed.

Lemma narrow_all cs range z :
  fst (fold_left narrow cs range) <= z < snd (fold_left narrow cs range) <->
  (fst range <= z < snd range /\ forallb (fun c => comparison_holds c z) cs = true).
Proof.
  revert range. induction cs as [|c cs IH]; intros range; cbn [fold_left forallb]; [tauto|].
  rewrite IH, andb_true_iff. split.
  - intros [Hn Hall]. pose proof (narrow_inside _ _ _ Hn). rewrite narrow_exact by done. tauto.
  - intros (Hr & Hc & Hall). rewrite narrow_exact in Hc by done. tauto.
Qed.

(** the range a description prints is exact: the values of the field that
    satisfy all the comparisons are those from its start up to but not including
    its end; and a group of comparisons has no description exactly when no value
    of the field satisfies them all. *)
Theorem time_range_exact `{Locale} first cs t locale :
  let f := cp_name first in
  let '(lo, hi) := DOMAINS f in
  let '(start, stop) := time_range (first :: cs) f in
  (forall z, start <= z < stop <->
    lo <= z < hi /\ forallb (fun c => comparison_holds c z) (first :: cs) = true) /\
  (describeTimeRange (first :: cs) t locale = None <->
    forall z, lo <= z < hi -> forallb (fun c => comparison_holds c z) (first :: cs) = false).
Proof.
  intros f. destruct (DOMAINS f) as [lo hi] eqn:Hd.
  destruct (time_range (first :: cs) f) as [start stop] eqn:Hr.
  assert (forall z, start <= z < stop <->
    lo <= z < hi /\ forallb (fun c => comparison_holds c z) (first :: cs) = true) as Hexact.
  { intros z. pose proof (narrow_all (first :: cs) (DOMAINS f) z) as Hn.
    unfold time_range in Hr. rewrite Hr, Hd in Hn. exact Hn. }
  split; [exact Hexact|]. unfold describeTimeRange. fold f. rewrite Hr.
  destruct (Z.leb_spec stop start) as [Hle|Hgt].
  - split; [|done]. intros _ z Hz. apply not_true_iff_false. intros Hall.
    assert (start <= z < stop) by (apply Hexact; tauto). lia.
  - split; [by destruct (match f with T_hour => _ | _ => _ end)|]. intros Hno.
    assert (start <= start < stop) as Hs by lia. apply Hexact in Hs as [Hs1 Hs2].
    rewrite (Hno _ Hs1) in Hs2. discriminate.
Qed.
