(* ===== verification/Visual.v ===== *)
(** * The visual editor's document

    Models [billing-expression/visual.ts]: the document the visual editor works
    on, how it is read off a compiled expression and how an edited document is
    written back.  Writing reuses the source spans of everything that was not
    edited.  The list of issues the writers push to is an accumulator; the
    translation function is a parameter; a time zone is valid when the
    platform's [Intl.DateTimeFormat] accepts it. *)
From Stdlib Require Import SpecFloat.
From stdpp Require Import strings.
From S2P Require Import Prelude JsString JsNumber JsValue Syntax Compile Runtime.
From S2P Require Import Display.

#[local] Open Scope Z_scope.

(** ** The document *)
Inductive visual_probe := VP_p | VP_c | VP_len | VP_time (f : time_function).

Inductive visual_condition :=
| VC_comparison (id : jstr) (origin : option node) (probe : visual_probe)
    (timezone : jstr) (operator : binary_operator) (value : jstr)
| VC_all (id : jstr) (origin : option node) (children : list visual_condition)
| VC_any (id : jstr) (origin : option node) (children : list visual_condition)
| VC_not (id : jstr) (origin : option node) (child : visual_condition).

Record visual_price := VisualPrice {
  vp_variable : token_variable;
  vp_value : jstr;
  vp_origin : option node;
}.

Inductive visual_unit := VU_token | VU_request.

Inductive visual_pricing :=
| VN_tier (id : jstr) (origin : option node) (label : jstr) (prices : list visual_price)
    (billingUnit : visual_unit) (fixedPrice : jstr)
| VN_branch (id : jstr) (origin : option node) (condition : visual_condition)
    (yes no : visual_pricing).

Record visual_document := VisualDocument { vd_source : jstr; vd_root : visual_pricing }.
Record visual_issue := VisualIssue { vi_id : jstr; vi_message : jstr }.

Inductive visual_serialization :=
| Serialized (source : jstr)
| Issues (issues : list visual_issue).

Definition vc_origin (c : visual_condition) : option node :=
  match c with
  | VC_comparison _ o _ _ _ _ | VC_all _ o _ | VC_any _ o _ | VC_not _ o _ => o
  end.

Definition vn_id (n : visual_pricing) : jstr :=
  match n with VN_tier id _ _ _ _ _ | VN_branch id _ _ _ _ => id end.

Definition COMPARISONS (o : binary_operator) : bool :=
  match o with B_lt | B_le | B_gt | B_ge | B_eq | B_ne => true | _ => false end.

Definition TIME_DOMAINS (f : time_function) : Z * Z :=
  match f with
  | T_hour => (0, 23)
  | T_minute => (0, 59)
  | T_weekday => (0, 6)
  | T_month => (1, 12)
  | T_day => (1, 31)
  end.

Definition probe_text (p : visual_probe) : jstr :=
  match p with
  | VP_p => js "p" | VP_c => js "c" | VP_len => js "len" | VP_time f => time_text f
  end.

(** [visualNodeId]: the module's counter [nextId] is passed and returned. *)
Definition visualNodeId (nextId : Z) : jstr * Z :=
  (js "draft-" ++ dec_of_Z (nextId + 1), nextId + 1).

Definition createEmptyVisualCondition (nextId : Z) : visual_condition * Z :=
  let '(id, nextId) := visualNodeId nextId in
  (VC_comparison id None (VP_time T_hour) (js "Asia/Shanghai") B_ge [], nextId).

(** ** Reading a document off an expression *)
Definition span_id (prefix : string) (n : node) : jstr :=
  js prefix ++ js "-" ++ dec_of_Z (Z.of_nat (n_start n)) ++ js "-"
  ++ dec_of_Z (Z.of_nat (n_end n)).

(** The left operand of a comparison: the probe and its time zone. *)
Definition read_probe (left : node) : option (visual_probe * jstr) :=
  match left with
  | Var V_p _ _ => Some (VP_p, [])
  | Var V_c _ _ => Some (VP_c, [])
  | Var V_len _ _ => Some (VP_len, [])
  | Call (F_time f) (Lit (L_str zone) _ _ :: _) _ _ => Some (VP_time f, zone)
  | _ => None
  end.

Definition read_comparison (n : node) : option visual_condition :=
  match n with
  | Bin o l (Lit (L_num x _) _ _) _ _ =>
      if COMPARISONS o then
        '(probe, zone) ← read_probe l;
        Some (VC_comparison (span_id "condition" n) (Some n) probe zone o (num_to_string x))
      else None
  | _ => None
  end.

Fixpoint readVisualCondition (n : node) : option visual_condition :=
  let read_parts o := fix parts m : option (list visual_condition) :=
    match m with
    | Bin o' l r _ _ =>
        if bool_decide (o' = o)
        then a ← parts l; b ← parts r; Some (a ++ b)
        else c ← readVisualCondition m; Some [c]
    | _ => c ← readVisualCondition m; Some [c]
    end in
  match n with
  | Un U_not a _ _ =>
      child ← readVisualCondition a; Some (VC_not (span_id "condition" n) (Some n) child)
  | Bin B_and l r _ _ =>
      a ← read_parts B_and l; b ← read_parts B_and r;
      Some (VC_all (span_id "condition" n) (Some n) (a ++ b))
  | Bin B_or l r _ _ =>
      a ← read_parts B_or l; b ← read_parts B_or r;
      Some (VC_any (span_id "condition" n) (Some n) (a ++ b))
  | _ => read_comparison n
  end.

(** [String(literal.value)] *)
Definition literal_string (v : literal) : jstr :=
  match v with
  | L_num x _ => num_to_string x
  | L_str s => s
  | L_bool b => if b then js "true" else js "false"
  | L_nil => js "null"
  end.

(** The loop over the terms of a tier's price. *)
Fixpoint read_prices (terms : list node) (prices : list visual_price)
  : option (list visual_price) :=
  match terms with
  | [] => Some prices
  | term :: terms =>
      match term with
      | Bin B_mul (Var v _ _) (Lit (L_num x _) _ _) _ _ =>
          if bool_decide (v = V_len) || n_ltb x n_zero then None
          else if existsb (fun p => bool_decide (vp_variable p = v)) prices then None
          else read_prices terms (prices ++ [VisualPrice v (num_to_string x) (Some term)])
      | _ => None
      end
  end.

Fixpoint readVisualPricing (n : node) : option visual_pricing :=
  match n with
  | Cond c y no _ _ =>
      match readVisualCondition c, readVisualPricing y, readVisualPricing no with
      | Some condition, Some yes, Some no =>
          Some (VN_branch (span_id "pricing" n) (Some n) condition yes no)
      | _, _, _ => None
      end
  | Call F_tier (Lit (L_str label) _ _ :: body :: _) _ _ =>
      match body with
      | Call F_fixed (Lit v _ _ :: _) _ _ =>
          Some (VN_tier (span_id "pricing" n) (Some n) label [] VU_request (literal_string v))
      | _ =>
          prices ← read_prices (flattenBinary body B_add) [];
          Some (VN_tier (span_id "pricing" n) (Some n) label prices VU_token [])
      end
  | _ => None
  end.

(** ** Writing a document *)
Record patch := Patch { pt_node : node; pt_text : jstr }.

(** The stable sort by descending start. *)
Fixpoint insert_patch (x : patch) (l : list patch) : list patch :=
  match l with
  | [] => [x]
  | y :: l' => if (n_start (pt_node x) <? n_start (pt_node y))%nat
               then y :: insert_patch x l' else x :: l
  end.

Definition sort_patches (l : list patch) : list patch := foldr insert_patch [] l.

Definition apply_patch (origin : node) (result : jstr) (p : patch) : jstr :=
  let offset i := Z.of_nat i - Z.of_nat (n_start origin) in
  js_slice result 0 (offset (n_start (pt_node p)))
  ++ pt_text p
  ++ js_slice result (offset (n_end (pt_node p))) (Z.of_nat (length result)).

Definition patchSource (source : jstr) (origin : node) (patches : list patch) : jstr :=
  fold_left (apply_patch origin) (sort_patches patches)
    (slice source (n_start origin) (n_end origin)).

Definition parseNonNegativeNumber (value : jstr) : option num :=
  match scan_number (trim value) with
  | Some (_, []) =>
      let number := to_number value in
      if is_finite number && n_leb n_zero number then Some number else None
  | _ => None
  end.

(** [value === literal.value], where [value] is a number or [null]. *)
Definition is_literal_value (value : option num) (v : literal) : bool :=
  match value, v with
  | Some x, L_num y _ => n_eqb x y
  | None, L_nil => true
  | _, _ => false
  end.

(** [a.origin === b] *)
Definition is_origin (a : option node) (b : node) : bool :=
  match a with Some a => same_node a b | None => false end.

Definition source_text (source : jstr) (n : node) : jstr := slice source (n_start n) (n_end n).

Section Writer.
Context `{Platform} (t : jstr -> jstr).

Definition valid_value (probe : visual_probe) (operator : binary_operator) (value : option num) : bool :=
  match value with
  | None => false
  | Some x =>
      match probe with
      | VP_time f =>
          let '(min, max) := TIME_DOMAINS f in
          is_integer x && n_leb (n_of_Z min) x
          && n_leb x (n_of_Z (max + if bool_decide (operator = B_lt) then 1 else 0))
      | _ => true
      end
  end.

(** Whether a changed time zone is rejected. *)
Definition bad_timezone (origin : option node) (timezone : jstr) : bool :=
  let originalProbe := match origin with Some (Bin _ l _ _ _) => Some l | _ => None end in
  let unchanged :=
    match originalProbe with
    | Some (Call _ (Lit (L_str zone) _ _ :: _) _ _) => bool_decide (timezone = zone)
    | _ => false
    end in
  negb unchanged &&
  match trim timezone with
  | [] => true
  | zone => match pf_intl zone with Some _ => false | None => true end
  end.

Definition comparison_probe_text (source : jstr) (oldProbe : node) (probe : visual_probe)
    (timezone probe_source : jstr) : jstr :=
  match oldProbe with
  | Var v _ _ =>
      if bool_decide (variable_text v = probe_text probe)
      then source_text source oldProbe else probe_source
  | Call f (Lit (L_str zone) _ _ :: _) _ _ =>
      if bool_decide (function_text f = probe_text probe) && bool_decide (zone = timezone)
      then source_text source oldProbe else probe_source
  | _ => probe_source
  end.

(** The comparison case of [writeVisualCondition]. *)
Definition write_comparison (source id : jstr) (origin : option node) (probe : visual_probe)
    (timezone : jstr) (operator : binary_operator) (value_text : jstr)
    (issues : list visual_issue) : jstr * list visual_issue :=
  let value := parseNonNegativeNumber value_text in
  let issues := if valid_value probe operator value then issues
                else issues ++ [VisualIssue id (t (js "Enter a valid condition value."))] in
  let isTime := match probe with VP_time _ => true | _ => false end in
  let issues := if isTime && bad_timezone origin timezone
                then issues ++ [VisualIssue id (t (js "Choose a valid IANA timezone."))]
                else issues in
  let probe_source := if isTime
                      then probe_text probe ++ js "(" ++ json_stringify timezone ++ js ")"
                      else probe_text probe in
  let fresh := js "(" ++ probe_source ++ js " " ++ binary_text operator ++ js " "
               ++ value_text ++ js ")" in
  match origin with
  | Some (Bin o l r _ _ as n) =>
      if bool_decide (o = operator) then
        let probeText := comparison_probe_text source l probe timezone probe_source in
        let valueText :=
          match r with
          | Lit v _ _ => if is_literal_value value v then source_text source r else value_text
          | _ => value_text
          end in
        (patchSource source n [Patch l probeText; Patch r valueText], issues)
      else (fresh, issues)
  | _ => (fresh, issues)
  end.

(** [children.map(...)] with the issues threaded through. *)
Fixpoint map_issues {A} (f : A -> list visual_issue -> jstr * list visual_issue)
    (l : list A) (issues : list visual_issue) : list jstr * list visual_issue :=
  match l with
  | [] => ([], issues)
  | x :: l =>
      let '(s, issues) := f x issues in
      let '(rest, issues) := map_issues f l issues in
      (s :: rest, issues)
  end.

(** The text of a group from those of its children. *)
Definition group_text (source : jstr) (operator : binary_operator) (origin : option node)
    (origins : list (option node)) (texts : list jstr) : jstr :=
  let fresh := js "(" ++ join (js " " ++ binary_text operator ++ js " ")
                 (map (fun c => js "(" ++ c ++ js ")") texts) ++ js ")" in
  match origin with
  | Some (Bin o _ _ _ _ as n) =>
      if bool_decide (o = operator) then
        let original := flattenBinary n operator in
        if Nat.eqb (length original) (length origins)
           && forallb (fun '(child, o) => is_origin o child) (combine original origins)
        then patchSource source n (zip_with Patch original texts)
        else fresh
      else fresh
  | _ => fresh
  end.

Definition group_issues (id : jstr) {A} (children : list A) (issues : list visual_issue) :=
  match children with
  | [] => issues ++ [VisualIssue id (t (js "Add at least one condition to this group."))]
  | _ => issues
  end.

Fixpoint writeVisualCondition (source : jstr) (n : visual_condition) (issues : list visual_issue)
  : jstr * list visual_issue :=
  match n with
  | VC_not id origin child =>
      let '(text, issues) := writeVisualCondition source child issues in
      match origin with
      | Some (Un _ a _ _ as n) =>
          if is_origin (vc_origin child) a then (patchSource source n [Patch a text], issues)
          else (js "!(" ++ text ++ js ")", issues)
      | _ => (js "!(" ++ text ++ js ")", issues)
      end
  | VC_all id origin children =>
      let '(texts, issues) :=
        map_issues (writeVisualCondition source) children (group_issues id children issues) in
      (group_text source B_and origin (map vc_origin children) texts, issues)
  | VC_any id origin children =>
      let '(texts, issues) :=
        map_issues (writeVisualCondition source) children (group_issues id children issues) in
      (group_text source B_or origin (map vc_origin children) texts, issues)
  | VC_comparison id origin probe timezone operator value =>
      write_comparison source id origin probe timezone operator value issues
  end.

Definition visualConditionExpression (n : visual_condition) (source : jstr) : option jstr :=
  let '(expression, issues) := writeVisualCondition source n [] in
  match issues with [] => Some expression | _ => None end.

Definition price_message : jstr := t (js "Enter a finite, non-negative price.").

Definition label_text (source : jstr) (label : node) (name : jstr) : jstr :=
  match label with
  | Lit (L_str s) _ _ => if bool_decide (s = name) then source_text source label
                         else json_stringify name
  | _ => json_stringify name
  end.

(** The text of a numeric literal that is kept when its value did not change. *)
Definition amount_text (source : jstr) (value : option num) (v : literal) (amount : node)
    (written : jstr) : jstr :=
  if is_literal_value value v then source_text source amount else written.

(** A tier with a fixed price per request. *)
Definition write_request_tier (source id : jstr) (origin : option node) (label fixedPrice : jstr)
    (issues : list visual_issue) : jstr * list visual_issue :=
  let value := parseNonNegativeNumber fixedPrice in
  let issues :=
    match value with
    | Some x => if is_finite (n_mul x n_million) then issues
                else issues ++ [VisualIssue (id ++ js ":fixed") price_message]
    | None => issues ++ [VisualIssue (id ++ js ":fixed") price_message]
    end in
  match origin with
  | Some (Call F_tier (label_node :: price :: _) _ _ as n) =>
      let priceText :=
        match price with
        | Call F_fixed (Lit v _ _ as amount :: _) _ _ =>
            patchSource source price [Patch amount (amount_text source value v amount fixedPrice)]
        | _ => js "fixed(" ++ fixedPrice ++ js ")"
        end in
      (patchSource source n [Patch label_node (label_text source label_node label);
                             Patch price priceText], issues)
  | _ => (js "tier(" ++ json_stringify label ++ js ", fixed(" ++ fixedPrice ++ js "))", issues)
  end.

(** One price of a token tier: its term and the patch of its amount. *)
Definition write_price (source id : jstr) (price : visual_price) (issues : list visual_issue)
  : (jstr * list patch) * list visual_issue :=
  let value := parseNonNegativeNumber (vp_value price) in
  let issues :=
    match value with
    | Some _ => issues
    | None => issues ++ [VisualIssue (id ++ js ":" ++ variable_text (vp_variable price)) price_message]
    end in
  match vp_origin price with
  | Some (Bin _ _ (Lit v _ _ as amount) _ _ as n) =>
      let p := Patch amount (amount_text source value v amount (vp_value price)) in
      ((patchSource source n [p], [p]), issues)
  | _ => ((variable_text (vp_variable price) ++ js " * " ++ vp_value price, []), issues)
  end.

Fixpoint write_prices (source id : jstr) (prices : list visual_price) (issues : list visual_issue)
  : (list jstr * list patch) * list visual_issue :=
  match prices with
  | [] => (([], []), issues)
  | p :: prices =>
      let '((term, ps), issues) := write_price source id p issues in
      let '((terms, patches), issues) := write_prices source id prices issues in
      ((term :: terms, ps ++ patches), issues)
  end.

Definition write_token_tier (source id : jstr) (origin : option node) (label : jstr)
    (prices : list visual_price) (issues : list visual_issue) : jstr * list visual_issue :=
  let issues := match prices with
                | [] => issues ++ [VisualIssue id (t (js "Include at least one price variable."))]
                | _ => issues
                end in
  let '((terms, valuePatches), issues) := write_prices source id prices issues in
  let sum := join (js " + ") terms in
  match origin with
  | Some (Call F_tier (label_node :: body :: _) _ _ as n) =>
      let labelPatch := Patch label_node (label_text source label_node label) in
      let original := flattenBinary body B_add in
      if Nat.eqb (length original) (length prices)
         && forallb (fun '(term, p) => is_origin (vp_origin p) term) (combine original prices)
      then (patchSource source n (labelPatch :: valuePatches), issues)
      else (patchSource source n [labelPatch; Patch body sum], issues)
  | _ => (js "tier(" ++ json_stringify label ++ js ", " ++ sum ++ js ")", issues)
  end.

Fixpoint writeVisualPricing (source : jstr) (n : visual_pricing) (issues : list visual_issue)
  : jstr * list visual_issue :=
  match n with
  | VN_branch id origin condition yes no =>
      let '(condition, issues) := writeVisualCondition source condition issues in
      let '(yes, issues) := writeVisualPricing source yes issues in
      let '(no, issues) := writeVisualPricing source no issues in
      match origin with
      | Some (Cond c y n _ _ as node) =>
          (patchSource source node [Patch c condition; Patch y yes; Patch n no], issues)
      | _ => (js "(" ++ condition ++ js ") ? (" ++ yes ++ js ") : (" ++ no ++ js ")", issues)
      end
  | VN_tier id origin label prices VU_request fixedPrice =>
      write_request_tier source id origin label fixedPrice issues
  | VN_tier id origin label prices VU_token _ =>
      write_token_tier source id origin label prices issues
  end.

(** The compilation cache is threaded through, as in [compileBillingExpression]. *)
Definition serializeVisualBillingDocument (document : visual_document) (c : cache)
  : visual_serialization * cache :=
  let source := vd_source document in
  let root := vd_root document in
  let '(body, issues) := writeVisualPricing source root [] in
  match issues with
  | _ :: _ => (Issues issues, c)
  | [] =>
      let '(original, c) := compileBillingExpression source c in
      match original with
      | Failed _ =>
          (Issues [VisualIssue (vn_id root)
             (t (js "This expression cannot be edited visually without losing information."))], c)
      | Ready original =>
          let ast := ce_ast original in
          let written := slice source 0 (n_start ast) ++ body
                         ++ slice source (n_end ast) (length source) in
          let '(check, c) := compileBillingExpression written c in
          match check with
          | Ready _ => (Serialized written, c)
          | Failed _ =>
              (Issues [VisualIssue (vn_id root) (t (js "Enter a valid condition value."))], c)
          end
      end
  end.

Definition parseVisualBillingDocument (source : jstr) (c : cache)
  : option visual_document * cache :=
  let '(compiled, c) := compileBillingExpression source c in
  match compiled with
  | Failed _ => (None, c)
  | Ready compiled =>
      match readVisualPricing (ce_ast compiled) with
      | None => (None, c)
      | Some root =>
          let document := VisualDocument source root in
          let '(r, c) := serializeVisualBillingDocument document c in
          match r with
          | Serialized _ => (Some document, c)
          | Issues _ => (None, c)
          end
      end
  end.
End Writer.
