(* ===== verification/VisualFacts.v ===== *)
(** * The visual editor keeps what was not edited

    Patching disjoint spans of a source is the concatenation of the kept pieces
    and the new texts; a document read off an expression is written back to
    the very same source; and changing one price changes one literal. *)
From Stdlib Require Import SpecFloat.
From stdpp Require Import strings.
From S2P Require Import Prelude JsString JsNumber JsNumberFacts JsValue Syntax SyntaxFacts.
From S2P Require Import Parser ParserFacts NumberText Compile CompileFacts Runtime.
From S2P Require Import Semantics Display DisplayFacts Visual.

#[local] Open Scope Z_scope.
#[local] Arguments n_eqb : simpl never.

(** ** Patching *)
Lemma slice_min {A} (l : list A) i j : slice l i (j `min` length l) = slice l i j.
Proof.
  unfold slice. destruct (Nat.le_gt_cases j (length l)) as [H|H]; [by rewrite Nat.min_l|].
  rewrite Nat.min_r by lia. rewrite !take_ge; rewrite ?length_drop; [done|lia|lia].
Qed.

Lemma js_slice_nat s (a b : nat) : (a <= length s)%nat ->
  js_slice s (Z.of_nat a) (Z.of_nat b) = slice s a b.
Proof.
  intros Ha. unfold js_slice. rewrite !(proj2 (Z.ltb_ge _ _)) by lia.
  rewrite <- !Nat2Z.inj_min, !Nat2Z.id, slice_min. by rewrite Nat.min_l.
Qed.

Lemma slice_app_l {A} (l r : list A) j : (j <= length l)%nat -> slice (l ++ r) 0 j = slice l 0 j.
Proof. intros H. unfold slice. rewrite !drop_0, !Nat.sub_0_r. by rewrite take_app_le. Qed.

Lemma slice_prefix {A} (l r : list A) j : length l = j -> slice (l ++ r) 0 j = l.
Proof. intros <-. rewrite slice_app_l by done. by apply slice_full. Qed.

Lemma slice_suffix {A} (l r : list A) i : length l = i -> slice (l ++ r) i (length (l ++ r)) = r.
Proof.
  intros <-. unfold slice. rewrite drop_app_length, length_app.
  replace (length l + length r - length l)%nat with (length r) by lia. by rewrite firstn_all.
Qed.

(** The pieces of [source] from [lo] to [hi] with the patched spans replaced. *)
Fixpoint pieces (source : jstr) (lo hi : nat) (ps : list patch) : jstr :=
  match ps with
  | [] => slice source lo hi
  | p :: ps => slice source lo (n_start (pt_node p)) ++ pt_text p
               ++ pieces source (n_end (pt_node p)) hi ps
  end.

Lemma chain_starts lo hi l c : chain lo hi l -> c ∈ l -> (lo <= n_start c < n_end c)%nat.
Proof.
  revert lo. induction l as [|x l IH]; intros lo H Hc; [by apply not_elem_of_nil in Hc|].
  simpl in H. destruct H as (H1 & H2 & H3).
  apply elem_of_cons in Hc as [->|Hc]; [lia|]. specialize (IH _ H3 Hc). lia.
Qed.

Lemma insert_patch_last x l : Forall (fun y => n_start (pt_node x) < n_start (pt_node y))%nat l ->
  insert_patch x l = l ++ [x].
Proof.
  induction 1 as [|y l Hy _ IH]; simpl; [done|]. by rewrite (proj2 (Nat.ltb_lt _ _) Hy), IH.
Qed.

Lemma sort_chain lo hi ps : chain lo hi (map pt_node ps) -> sort_patches ps = rev ps.
Proof.
  revert lo. induction ps as [|p ps IH]; intros lo H; [done|]. simpl in H. destruct H as (H1 & H2 & H3).
  change (sort_patches (p :: ps)) with (insert_patch p (sort_patches ps)). rewrite (IH _ H3).
  simpl. apply insert_patch_last. apply Forall_rev, Forall_elem. intros q Hq.
  apply (chain_starts _ _ _ (pt_node q)) in H3; [lia|]. apply list_elem_of_fmap. eauto.
Qed.

Lemma patch_step source origin lo hi p rest :
  let os := n_start origin in
  (os <= lo <= n_start (pt_node p))%nat -> (n_start (pt_node p) < n_end (pt_node p))%nat ->
  (n_end (pt_node p) <= hi <= length source)%nat ->
  apply_patch origin (slice source os (n_end (pt_node p)) ++ rest) p
  = slice source os lo ++ slice source lo (n_start (pt_node p)) ++ pt_text p ++ rest.
Proof.
  intros os H1 H2 H3. unfold apply_patch. set (s := n_start (pt_node p)) in *. set (e := n_end (pt_node p)) in *.
  assert (length (slice source os e) = (e - os)%nat) as Hl by (rewrite length_slice; lia).
  rewrite <- !Nat2Z.inj_sub by lia. change 0 with (Z.of_nat 0).
  rewrite !js_slice_nat by (rewrite length_app; lia). fold os.
  rewrite (slice_app_l _ _ (s - os)%nat) by lia. rewrite slice_slice by lia.
  rewrite (slice_suffix _ _ (e - os)%nat Hl).
  replace (os + 0)%nat with os by lia. replace (os + (s - os))%nat with s by lia.
  rewrite <- (slice_app_adj source os lo s) by lia. by rewrite <- app_assoc.
Qed.

Lemma patch_pieces source origin ps :
  chain (n_start origin) (n_end origin) (map pt_node ps) -> (n_end origin <= length source)%nat ->
  patchSource source origin ps = pieces source (n_start origin) (n_end origin) ps.
Proof.
  intros H Hl. unfold patchSource. rewrite (sort_chain _ _ _ H), <- fold_left_rev_right, rev_involutive.
  set (os := n_start origin) in *. set (oe := n_end origin) in *.
  enough (forall lo, (os <= lo <= oe)%nat -> chain lo oe (map pt_node ps) ->
    foldr (fun p r => apply_patch origin r p) (slice source os oe) ps
    = slice source os lo ++ pieces source lo oe ps) as Hg.
  { destruct (Nat.le_gt_cases os oe) as [Ho|Ho].
    - etransitivity; [apply (Hg os); [lia|done]|]. by rewrite slice_nil by lia.
    - destruct ps as [|p ps]; [simpl; by rewrite slice_nil by lia|].
      pose proof (chain_starts _ _ _ (pt_node p) H). pose proof (chain_bounds _ _ _ (pt_node p) H).
      exfalso. assert (pt_node p ∈ map pt_node (p :: ps)) by (simpl; apply elem_of_cons; by left). naive_solver lia. }
  clear H. induction ps as [|p ps IH]; intros lo Hlo Hc; simpl.
  - by rewrite slice_app_adj by lia.
  - destruct (chain_bounds _ _ _ (pt_node p) Hc) as [_ He]; [simpl; apply elem_of_cons; by left|].
    simpl in Hc. destruct Hc as (H1 & H2 & H3).
    rewrite (IH (n_end (pt_node p))) by (lia || (eapply chain_weaken; [| |exact H3]; lia)).
    rewrite (patch_step source origin lo oe) by (fold os; lia). by fold os.
Qed.

(** ** Texts that are kept, and one that is not *)
Section Kept.
Context (source : jstr).

Definition kept (p : patch) : Prop := pt_text p = source_text source (pt_node p).

Lemma pieces_kept lo hi ps : chain lo hi (map pt_node ps) -> (lo <= hi)%nat -> Forall kept ps ->
  pieces source lo hi ps = slice source lo hi.
Proof.
  intros H Hlo Hk. revert lo H Hlo. induction Hk as [|p ps Hp _ IH]; intros lo H Hlo; [done|].
  destruct (chain_bounds _ _ _ (pt_node p) H) as [_ He]; [simpl; apply elem_of_cons; by left|].
  simpl in H. destruct H as (H1 & H2 & H3). simpl. rewrite Hp.
  rewrite IH by (lia || (eapply chain_weaken; [| |exact H3]; lia)).
  unfold source_text. by rewrite !slice_app_adj by lia.
Qed.

(** [n]'s text with the span from [s] to [e] replaced by [v]. *)
Definition replaced (s e : nat) (v : jstr) (lo hi : nat) : jstr :=
  slice source lo s ++ v ++ slice source e hi.

Lemma pieces_replaced s e v lo hi ps1 p ps2 :
  chain lo hi (map pt_node (ps1 ++ p :: ps2)) -> (lo <= hi)%nat -> Forall kept ps1 -> Forall kept ps2 ->
  (n_start (pt_node p) <= s)%nat -> (e <= n_end (pt_node p))%nat ->
  pt_text p = replaced s e v (n_start (pt_node p)) (n_end (pt_node p)) ->
  pieces source lo hi (ps1 ++ p :: ps2) = replaced s e v lo hi.
Proof.
  intros H Hlo Hk1 Hk2 Hs He Ht. revert lo H Hlo.
  induction Hk1 as [|q ps1 Hq _ IH]; intros lo H Hlo.
  - destruct (chain_bounds _ _ _ (pt_node p) H) as [_ Hh]; [simpl; apply elem_of_cons; by left|].
    simpl in H. destruct H as (H1 & H2 & H3). simpl. rewrite Ht.
    rewrite pieces_kept by (done || lia || (eapply chain_weaken; [| |exact H3]; lia)).
    unfold replaced. rewrite <- !app_assoc, (app_assoc (slice source lo _)).
    by rewrite !slice_app_adj by lia.
  - destruct (chain_bounds _ _ _ (pt_node q) H) as [_ Hh]; [simpl; apply elem_of_cons; by left|].
    simpl in H. destruct H as (H1 & H2 & H3). simpl. rewrite Hq.
    assert (n_end (pt_node q) <= s)%nat as Hqs.
    { destruct (chain_starts _ _ _ (pt_node p) H3); [|lia].
      rewrite map_app. apply elem_of_app. right. simpl. apply elem_of_cons. by left. }
    rewrite IH by (lia || (eapply chain_weaken; [| |exact H3]; lia)).
    unfold replaced, source_text. rewrite !app_assoc. by rewrite !slice_app_adj by lia.
Qed.

Lemma patch_kept origin ps :
  chain (n_start origin) (n_end origin) (map pt_node ps) -> (n_start origin <= n_end origin <= length source)%nat ->
  Forall kept ps -> patchSource source origin ps = source_text source origin.
Proof. intros H Hl Hk. rewrite patch_pieces by (done || lia). apply pieces_kept; [done|lia|done]. Qed.
End Kept.

(** ** Reading groups *)
Lemma mapM_app_option {A B} (f : A -> option B) l r :
  mapM f (l ++ r) = (a ← mapM f l; b ← mapM f r; Some (a ++ b)).
Proof.
  induction l as [|x l IH]; simpl; [by destruct (mapM f r)|].
  destruct (f x); simpl; [|done]. rewrite IH. destruct (mapM f l); simpl; [|done].
  by destruct (mapM f r).
Qed.

(** [flattenBinary(node, operator).map(readVisualCondition)], where any [null]
    gives [null]. *)
Definition read_all (o : binary_operator) (n : node) : option (list visual_condition) :=
  mapM readVisualCondition (flattenBinary n o).

Lemma read_parts_all o m :
  (fix parts m : option (list visual_condition) :=
    match m with
    | Bin o' l r _ _ =>
        if bool_decide (o' = o)
        then a ← parts l; b ← parts r; Some (a ++ b)
        else c ← readVisualCondition m; Some [c]
    | _ => c ← readVisualCondition m; Some [c]
    end) m = read_all o m.
Proof.
  unfold read_all. induction m as [| | | |o' l r s e IHl IHr|] using node_rect_strong; try done.
  cbn [flattenBinary]. case_bool_decide; [|done]. by rewrite IHl, IHr, mapM_app_option.
Qed.

Lemma read_group o l r s e : o = B_and \/ o = B_or -> let n := Bin o l r s e in
  readVisualCondition n = (children ← read_all o n;
    Some (match o with B_and => VC_all | _ => VC_any end (span_id "condition" n) (Some n) children)).
Proof.
  intros Ho n. assert (read_all o n = (a ← read_all o l; b ← read_all o r; Some (a ++ b))) as ->.
  { unfold read_all, n. by rewrite flatten_bin, mapM_app_option. }
  destruct Ho as [-> | ->]; simpl; rewrite !read_parts_all;
    destruct (read_all _ l); [destruct (read_all _ r)| |destruct (read_all _ r)|]; done.
Qed.

(** ** Numbers *)
Lemma literal_number x i : number_ok x i ->
  parseNonNegativeNumber (num_to_string x) = Some x /\ n_eqb x x = true.
Proof.
  intros (Hf & _ & d & ->). pose proof (dl_value_valid d) as (Hv & Hs & _).
  unfold parseNonNegativeNumber. destruct (dl_value d) as [s|s| |s m e]; [by destruct s|done|done|].
  simpl in Hs. subst s. apply bounded_canonical in Hv. simpl num_to_string.
  destruct (prints_positive m e Hv) as (d' & Hsc & Hd & _).
  pose proof (scan_number_chars _ _ _ Hsc) as Hch. pose proof (scan_number_text _ _ _ Hsc) as Ht.
  rewrite app_nil_r in Ht. rewrite <- Ht in Hch. rewrite trim_id by by apply num_chars_outer.
  change ([] ++ positive_to_string m e) with (positive_to_string m e).
  rewrite Hsc, (to_number_literal _ d' Hsc), Hd. split; [done|].
  unfold n_eqb, SFeqb. simpl. by rewrite Z.compare_refl, Pos.compare_cont_refl.
Qed.

(** ** Spans *)
Lemma chain_app lo mid hi l1 l2 : chain lo mid l1 -> chain (S mid) hi l2 -> chain lo hi (l1 ++ l2).
Proof.
  revert lo. induction l1 as [|c l1 IH]; intros lo H1 H2; simpl in *.
  - eapply chain_weaken; [| |exact H2]; lia.
  - destruct H1 as (Ha & Hb & Hc). split_and!; [done|done|by apply IH].
Qed.

Lemma chain_one lo hi n : (lo <= n_start n < n_end n)%nat -> (n_end n <= hi)%nat -> chain lo hi [n].
Proof. intros. simpl. lia. Qed.

Lemma wf_children n c : wf n -> c ∈ children n -> wf c.
Proof. intros Hw Hc. apply wf_unfold in Hw as [_ H]. rewrite Forall_elem in H. by apply H. Qed.

Lemma wf_chain n : wf n -> chain (n_start n) (n_end n) (children n).
Proof. intros Hw. apply wf_unfold in Hw as [[_ H _ _] _]. done. Qed.

Lemma flatten_chain o n : wf n -> chain (n_start n) (n_end n) (flattenBinary n o).
Proof.
  induction n as [n Hn|l r s e IHl IHr] using (flatten_ind o); intros Hw.
  - rewrite Hn. apply chain_one; [pose proof (wf_span _ Hw)|]; lia.
  - rewrite flatten_bin. pose proof (wf_chain _ Hw) as (H1 & H2 & H3 & H4 & H5).
    pose proof (wf_children _ l Hw ltac:(simpl; set_solver)) as Hl.
    pose proof (wf_children _ r Hw ltac:(simpl; set_solver)) as Hr.
    apply (chain_app _ (n_end l)).
    + eapply chain_weaken; [| |exact (IHl Hl)]; [done|lia].
    + eapply chain_weaken; [| |exact (IHr Hr)]; [done|]. simpl in H5. simpl. lia.
Qed.

Lemma node_ind_subterms (Q : node -> Prop) :
  (forall n, (forall c m, c ∈ children n -> m ∈ postorder c -> Q m) -> Q n) -> forall n, Q n.
Proof.
  intros Hstep n. enough (forall m, m ∈ postorder n -> Q m) as H by (apply H, postorder_self).
  induction n as [n IH] using node_ind_children. intros m Hm.
  apply elem_of_postorder_children in Hm as [->|(c & Hc & Hm)].
  - apply Hstep. intros c k Hc Hk. rewrite Forall_elem in IH. by apply (IH c).
  - rewrite Forall_elem in IH. by apply (IH c).
Qed.

Lemma same_node_refl n : same_node n n = true.
Proof. unfold same_node. by rewrite !Nat.eqb_refl. Qed.

(** ** An unedited condition is written as its source text *)
Lemma read_origin n c : readVisualCondition n = Some c -> vc_origin c = Some n.
Proof.
  assert (forall m, read_comparison m = Some c -> vc_origin c = Some m) as Hcmp.
  { intros m. unfold read_comparison. intros H. rinv; try done. by apply bind_Some in H as ([p z] & _ & [= <-]). }
  destruct n as [v s e|v s e|f args s e|o a s e|o l r s e|c' y no s e]; try apply Hcmp.
  - destruct o; try apply Hcmp. simpl. intros H. by apply bind_Some in H as (? & _ & [= <-]).
  - destruct o; try apply Hcmp; rewrite read_group by auto; intros H;
      by apply bind_Some in H as (? & _ & [= <-]).
Qed.

Lemma mapM_Forall2 {A B} (f : A -> option B) l k : mapM f l = Some k -> Forall2 (fun x y => f x = Some y) l k.
Proof. intros E. by apply mapM_Some in E. Qed.

Lemma Forall2_impl_mem {A B} (P Q : A -> B -> Prop) l k :
  Forall2 P l k -> (forall x y, x ∈ l -> P x y -> Q x y) -> Forall2 Q l k.
Proof.
  induction 1 as [|x y l k Hp _ IH]; intros Hi; constructor; [apply Hi; [set_solver|done]|].
  apply IH. intros. apply Hi; set_solver.
Qed.

Section Lossless.
Context `{Platform} (t : jstr -> jstr) (source : jstr).

Definition writes (c : visual_condition) (n : node) : Prop :=
  forall issues, fst (writeVisualCondition t source c issues) = source_text source n.

Lemma map_issues_texts cs ns issues : Forall2 writes cs ns ->
  fst (map_issues (writeVisualCondition t source) cs issues) = map (source_text source) ns.
Proof.
  intros Hf. revert issues. induction Hf as [|c n cs ns Hc _ IH]; intros issues; simpl; [done|].
  specialize (Hc issues). destruct (writeVisualCondition t source c issues) as [s is1].
  specialize (IH is1). destruct (map_issues _ cs is1). simpl in *. by rewrite Hc, IH.
Qed.

Lemma kept_zip ns : map pt_node (zip_with Patch ns (map (source_text source) ns)) = ns /\
  Forall (kept source) (zip_with Patch ns (map (source_text source) ns)).
Proof. induction ns as [|n ns [IH1 IH2]]; simpl; [done|]. rewrite IH1. by split; [|constructor]. Qed.

Lemma group_kept o l r s e cs : let n := Bin o l r s e in
  wf n -> (n_end n <= length source)%nat -> map vc_origin cs = map Some (flattenBinary n o) ->
  group_text source o (Some n) (map vc_origin cs) (map (source_text source) (flattenBinary n o))
  = source_text source n.
Proof.
  intros n Hw Hl Ho. unfold group_text. cbv iota zeta. unfold n at 1. cbv iota.
  rewrite (bool_decide_eq_true_2 (o = o)) by done.
  rewrite Ho, length_map, Nat.eqb_refl.
  assert (forallb (fun '(child, o) => is_origin o child)
    (combine (flattenBinary n o) (map Some (flattenBinary n o))) = true) as ->.
  { clear. induction (flattenBinary n o) as [|m ms IH]; simpl; [done|]. by rewrite same_node_refl. }
  simpl andb. cbv iota. destruct (kept_zip (flattenBinary n o)) as [H1 H2].
  pose proof (wf_span _ Hw). apply patch_kept; [rewrite H1; by apply flatten_chain|lia|done].
Qed.

Lemma group_writes o l r s e cs : o = B_and \/ o = B_or -> let n := Bin o l r s e in
  wf n -> (n_end n <= length source)%nat -> read_all o n = Some cs ->
  (forall m cm, m ∈ flattenBinary n o -> readVisualCondition m = Some cm -> writes cm m) ->
  writes (match o with B_and => VC_all | _ => VC_any end (span_id "condition" n) (Some n) cs) n.
Proof using Type.
  intros Ho' n Hw Hl Hcs Hm issues. apply mapM_Forall2 in Hcs.
  assert (Forall2 writes cs (flattenBinary n o)) as Hws.
  { apply Forall2_flip. eapply Forall2_impl_mem; [exact Hcs|]. intros m cm Hin Hr. by apply Hm. }
  assert (map vc_origin cs = map Some (flattenBinary n o)) as Ho.
  { clear -Hcs. induction Hcs as [|m c ms cs Hc _ IH]; simpl; [done|]. by rewrite IH, (read_origin _ _ Hc). }
  pose proof (group_kept o l r s e cs Hw Hl Ho) as Hg. fold n in Hg.
  assert (forall is1, fst (let '(texts, issues) := map_issues (writeVisualCondition t source) cs is1 in
    (group_text source o (Some n) (map vc_origin cs) texts, issues)) = source_text source n) as Hdone.
  { intros is1. pose proof (map_issues_texts cs _ is1 Hws) as Ht.
    destruct (map_issues _ cs is1) as [texts is2]. simpl in *. by subst. }
  destruct Ho' as [-> | ->]; apply Hdone.
Qed.

Lemma comparison_writes n c : wf n -> (n_end n <= length source)%nat ->
  read_comparison n = Some c -> writes c n.
Proof using Type.
  intros Hw Hl Hr issues. unfold read_comparison in Hr.
  destruct n as [| | | |o l r s e|]; try done. destruct r as [v s' e'| | | | |]; try done.
  destruct v as [x i| | |]; try done. destruct (COMPARISONS o) eqn:Eo; [|done].
  apply bind_Some in Hr as ([probe zone] & Hp & [= <-]). cbn [writeVisualCondition].
  set (n := Bin o l (Lit (L_num x i) s' e') s e) in *. unfold write_comparison. cbv zeta.
  unfold n at 1. cbv iota. rewrite (bool_decide_eq_true_2 (o = o)) by done. simpl fst.
  assert (wf (Lit (L_num x i) s' e')) as Hlit by (apply (wf_children n); [done|simpl; set_solver]).
  apply wf_unfold in Hlit as [[_ _ _ Hnum] _]. destruct (literal_number x i Hnum) as [-> Heq].
  simpl is_literal_value. rewrite Heq. pose proof (wf_span _ Hw).
  apply patch_kept; [by apply (wf_chain n)|lia|].
  constructor; [|by repeat constructor]. unfold kept. simpl pt_text. simpl pt_node.
  unfold read_probe in Hp. destruct l as [|v' s1 e1|f args s1 e1| | |]; try done.
  - by destruct v'; simplify_eq/=.
  - destruct f; try done. destruct args as [|[[| | |]| | | | |] args]; try done. injection Hp as <- <-.
    simpl. by rewrite !bool_decide_eq_true_2.
Qed.

Lemma condition_writes n : wf n -> (n_end n <= length source)%nat -> forall c,
  readVisualCondition n = Some c -> writes c n.
Proof using Type.
  induction n as [n IH] using node_ind_subterms. intros Hw Hl c Hr.
  assert (forall ch m cm, ch ∈ children n -> m ∈ postorder ch -> readVisualCondition m = Some cm ->
    writes cm m) as IH'.
  { intros ch m cm Hch Hm. assert (m ∈ postorder n) as Hmn by (apply elem_of_postorder_children; eauto).
    apply (IH ch m Hch Hm); [by apply (wf_subterm n)|]. pose proof (wf_within n m Hw Hmn). lia. }
  destruct n as [v s e|v s e|f args s e|o a s e|o l r s e|c' y no s e];
    try by apply comparison_writes.
  - destruct o; try by apply comparison_writes. simpl in Hr. apply bind_Some in Hr as (child & Hc & [= <-]).
    intros issues. cbn [writeVisualCondition].
    pose proof (IH' a a child ltac:(simpl; set_solver) (postorder_self a) Hc issues) as Ht.
    destruct (writeVisualCondition t source child issues) as [text is1]. simpl in Ht. subst text.
    rewrite (read_origin _ _ Hc). simpl is_origin. rewrite same_node_refl. simpl fst.
    pose proof (wf_span _ Hw). apply patch_kept; [by apply (wf_chain _ Hw)|lia|by repeat constructor].
  - destruct o; try by apply comparison_writes. all: rewrite read_group in Hr by auto.
    all: apply bind_Some in Hr as (cs & Hcs & [= <-]).
    all: match goal with Hcs : read_all ?o _ = _ |- _ => apply (group_writes o l r s e cs) end;
      [by auto|done|done|done|]; intros m cm Hm; rewrite flatten_bin in Hm.
    all: apply elem_of_app in Hm as [Hm|Hm]; apply flatten_subterms in Hm;
      [apply (IH' l)|apply (IH' r)]; simpl; set_solver.
Qed.

(** *** Token tiers *)

(** [p] is a price read off [term], with any value. *)
Inductive price_of : node -> visual_price -> Prop :=
| PriceOf x y i value s1 e1 s2 e2 s e :
    let term := Bin B_mul (Var x s1 e1) (Lit (L_num y i) s2 e2) s e in
    price_of term (VisualPrice x value (Some term)).

(** The value is the one of the source. *)
Definition unedited (term : node) (p : visual_price) : Prop :=
  match term with
  | Bin _ _ (Lit (L_num y _) _ _) _ _ => vp_value p = num_to_string y
  | _ => False
  end.

Lemma read_prices_spec terms acc ps : read_prices terms acc = Some ps -> exists ps',
  ps = acc ++ ps' /\ Forall2 (fun term p => price_of term p /\ unedited term p) terms ps'.
Proof.
  revert acc. induction terms as [|term terms IH]; intros acc E.
  { injection E as <-. exists []. by rewrite app_nil_r. }
  cbn [read_prices] in E. destruct term as [| | | |o l r s e|]; try done. destruct o; try done.
  destruct l as [|x s1 e1| | | |]; try done. destruct r as [[y i| | |] s2 e2| | | | |]; try done.
  destruct (_ || _); [done|]. destruct (existsb _ acc); [done|].
  apply IH in E as (ps' & -> & Hps). eexists (_ :: ps'). rewrite <- app_assoc. split; [done|].
  constructor; [|done]. split; [constructor|done].
Qed.

Definition price_patch (p : visual_price) : patch :=
  match vp_origin p with
  | Some (Bin _ _ (Lit v _ _ as amount) _ _) =>
      Patch amount (amount_text source (parseNonNegativeNumber (vp_value p)) v amount (vp_value p))
  | _ => Patch (Lit L_nil 0 0) []
  end.

Lemma write_prices_patches id terms ps issues : Forall2 price_of terms ps ->
  snd (fst (write_prices t source id ps issues)) = map price_patch ps.
Proof.
  intros Hf. revert issues. induction Hf as [|term p terms ps Hp _ IH]; intros issues; [done|].
  cbn [write_prices]. destruct Hp as [x y i value s1 e1 s2 e2 s e term].
  unfold write_price. simpl vp_origin. subst term. cbv iota zeta beta.
  match goal with |- context [write_prices t source id ps ?q] => specialize (IH q);
    destruct (write_prices t source id ps q) as [[ts qs] is2] end.
  simpl in *. by rewrite IH.
Qed.

Lemma origins_match terms ps : Forall2 price_of terms ps ->
  length terms = length ps /\
  forallb (fun '(term, p) => is_origin (vp_origin p) term) (combine terms ps) = true.
Proof.
  induction 1 as [|term p terms ps Hp _ [IH1 IH2]]; [done|]. simpl. rewrite IH2, IH1. split; [done|].
  destruct Hp. simpl. by rewrite same_node_refl.
Qed.

Lemma token_tier_patches id label body s e name ps issues :
  let n := Call F_tier [label; body] s e in
  Forall2 price_of (flattenBinary body B_add) ps ->
  fst (write_token_tier t source id (Some n) name ps issues)
  = patchSource source n (Patch label (label_text source label name) :: map price_patch ps).
Proof.
  intros n Hf. unfold write_token_tier. cbv zeta.
  match goal with |- context [write_prices t source id ps ?q] =>
    pose proof (write_prices_patches id _ ps q Hf) as Hq;
    destruct (write_prices t source id ps q) as [[ts qs] is2] end.
  simpl in Hq. subst qs. unfold n at 1. cbv iota beta.
  destruct (origins_match _ _ Hf) as [H1 H2]. by rewrite H1, Nat.eqb_refl, H2.
Qed.

Lemma chain_inner lo hi outer inner :
  Forall2 (fun a b => (n_start a <= n_start b < n_end b)%nat /\ (n_end b <= n_end a)%nat) outer inner ->
  chain lo hi outer -> chain lo hi inner.
Proof.
  intros Hf. revert lo. induction Hf as [|a b outer inner Hab _ IH]; intros lo; simpl; [done|].
  intros (H1 & H2 & H3). split_and!; [lia|lia|]. apply IH. eapply chain_weaken; [| |exact H3]; lia.
Qed.

Lemma tier_spans label body s e ps text : let n := Call F_tier [label; body] s e in
  wf n -> Forall2 price_of (flattenBinary body B_add) ps ->
  chain s e (map pt_node (Patch label text :: map price_patch ps)).
Proof.
  intros n Hw Hf. pose proof (wf_chain _ Hw) as (H1 & H2 & H3 & H4 & H5).
  pose proof (wf_children _ body Hw ltac:(simpl; set_solver)) as Hb. simpl in *.
  split_and!; [done|done|]. eapply (chain_weaken (n_start body) _ (n_end body)); [done|lia|].
  eapply chain_inner; [|by apply (flatten_chain B_add)].
  assert (Forall wf (flattenBinary body B_add)) as Hws.
  { apply Forall_elem. intros m Hm. eapply wf_subterm; [exact Hb|]. by eapply flatten_subterms. }
  clear -Hf Hws. induction Hf as [|term p terms ps Hp _ IH]; simpl; [constructor|].
  apply Forall_cons_iff in Hws as [Hw Hws]. constructor; [|by apply IH].
  destruct Hp. subst term.
  destruct (wf_within _ (Lit (L_num y i) s2 e2) Hw) as (? & ? & ?); [apply postorder_child; simpl; set_solver|].
  simpl in *. lia.
Qed.

Lemma price_kept term p : wf term -> price_of term p -> unedited term p -> kept source (price_patch p).
Proof.
  intros Hw Hp Hu. destruct Hp. subst term. simpl in Hu. subst value.
  assert (wf (Lit (L_num y i) s2 e2)) as Hl by (eapply wf_children; [exact Hw|simpl; set_solver]).
  apply wf_unfold in Hl as [[_ _ _ Hnum] _]. destruct (literal_number y i Hnum) as [Hv Heq].
  unfold price_patch, kept. cbn [vp_origin vp_value pt_text pt_node]. unfold amount_text.
  rewrite Hv. cbn [is_literal_value]. by rewrite Heq.
Qed.

Lemma label_kept s s' e' : kept source (Patch (Lit (L_str s) s' e') (label_text source (Lit (L_str s) s' e') s)).
Proof. unfold kept. simpl. by rewrite bool_decide_eq_true_2. Qed.

(** *** Whole documents *)
Lemma request_writes id name s' e' v sv ev s2 e2 s e issues :
  let n := Call F_tier [Lit (L_str name) s' e'; Call F_fixed [Lit v sv ev] s2 e2] s e in
  wf n -> (n_end n <= length source)%nat -> (exists ty, has_type n ty) ->
  fst (write_request_tier t source id (Some n) name (literal_string v) issues) = source_text source n.
Proof.
  intros n Hw Hl [ty Hty].
  set (price := Call F_fixed [Lit v sv ev] s2 e2) in *.
  assert (wf price) as Hwp by (apply (wf_children n); [done|simpl; set_solver]).
  assert (wf (Lit v sv ev)) as Hwv by (apply (wf_children price); [done|simpl; set_solver]).
  assert (exists y i, v = L_num y i) as (y & i & ->).
  { inversion Hty; subst; [|done]. match goal with Hb : has_type price _ |- _ => inversion Hb; subst end; [naive_solver|].
    match goal with Ha : Forall _ [Lit v sv ev] |- _ => apply Forall_cons_iff in Ha as [(tv & Htv & Hacc) _] end.
    inversion Htv; subst. destruct v; [eauto|by destruct Hacc..]. }
  apply wf_unfold in Hwv as [[_ _ _ Hnum] _]. destruct (literal_number y i Hnum) as [Hv Heq].
  unfold write_request_tier, amount_text. simpl literal_string. rewrite Hv. cbv zeta. unfold n at 1. cbv iota beta.
  unfold price at 2. cbv iota beta. simpl is_literal_value. rewrite Heq. simpl fst.
  pose proof (wf_span _ Hw). pose proof (wf_span _ Hwp).
  destruct (wf_within n price Hw) as (? & ? & ?); [apply postorder_child; simpl; set_solver|].
  apply patch_kept; [by apply (wf_chain n)|lia|].
  constructor; [apply label_kept|]. constructor; [|constructor]. unfold kept. simpl pt_text. simpl pt_node.
  apply patch_kept; [by apply (wf_chain price)|lia|]. by repeat constructor.
Qed.

(** A tier, a branch, or nothing. *)
Lemma read_pricing_inv n d : readVisualPricing n = Some d ->
  (exists c y no s e vc vy vn, n = Cond c y no s e /\ readVisualCondition c = Some vc /\
     readVisualPricing y = Some vy /\ readVisualPricing no = Some vn /\
     d = VN_branch (span_id "pricing" n) (Some n) vc vy vn) \/
  (exists name s' e' v sv ev rest s2 e2 rest' s e,
     n = Call F_tier (Lit (L_str name) s' e' :: Call F_fixed (Lit v sv ev :: rest) s2 e2 :: rest') s e /\
     d = VN_tier (span_id "pricing" n) (Some n) name [] VU_request (literal_string v)) \/
  (exists name s' e' body rest' s e ps,
     n = Call F_tier (Lit (L_str name) s' e' :: body :: rest') s e /\
     read_prices (flattenBinary body B_add) [] = Some ps /\
     d = VN_tier (span_id "pricing" n) (Some n) name ps VU_token []).
Proof.
  intros E. destruct n as [|? ? ?|f args s e| | |c y no s e]; try done.
  - right. cbn [readVisualPricing] in E. destruct f; try done.
    destruct args as [|label [|body rest']]; [done|by destruct label as [[]| | | | |]|].
    destruct label as [[|name| |] s' e'| | | | |]; try done.
    assert ((exists v sv ev rest s2 e2, body = Call F_fixed (Lit v sv ev :: rest) s2 e2) \/
      (prices ← read_prices (flattenBinary body B_add) [];
       Some (VN_tier (span_id "pricing" (Call F_tier (Lit (L_str name) s' e' :: body :: rest') s e))
         (Some (Call F_tier (Lit (L_str name) s' e' :: body :: rest') s e)) name prices VU_token [])) = Some d)
      as [(v & sv & ev & rest & s2 & e2 & ->)|E'].
    { destruct body as [| |f' args' s2 e2| | |]; try (by right). destruct f'; try (by right).
      destruct args' as [|[v sv ev| | | | |] rest]; try (by right). left. by eexists _, _, _, _, _, _. }
    + left. injection E as <-. by eexists _, _, _, _, _, _, _, _, _, _, _, _.
    + right. apply bind_Some in E' as (ps & Hps & [= <-]). by eexists _, _, _, _, _, _, _, _.
  - left. cbn [readVisualPricing] in E. destruct (readVisualCondition c) as [vc|] eqn:Ec; [|done].
    destruct (readVisualPricing y) as [vy|] eqn:Ey; [|done].
    destruct (readVisualPricing no) as [vn|] eqn:En; [|done]. injection E as <-.
    by eexists _, _, _, _, _, _, _, _.
Qed.

Lemma tier_args n f args s e : wf n -> n = Call f args s e -> length args = arity f.
Proof. intros Hw ->. by apply wf_unfold in Hw as [[_ _ _ H1] _]. Qed.

(** The edit of one price: the entry read off [target] gets the text [v]. *)
Definition edit_entry (target : node) (v : jstr) (p : visual_price) : visual_price :=
  if is_origin (vp_origin p) target then VisualPrice (vp_variable p) v (vp_origin p) else p.

End Lossless.

Fixpoint edit_price (target : node) (v : jstr) (d : visual_pricing) : visual_pricing :=
  match d with
  | VN_tier id origin label prices unit fixed =>
      VN_tier id origin label (map (edit_entry target v) prices) unit fixed
  | VN_branch id origin condition yes no =>
      VN_branch id origin condition (edit_price target v yes) (edit_price target v no)
  end.

Fixpoint has_price (target : node) (d : visual_pricing) : bool :=
  match d with
  | VN_tier _ _ _ prices _ _ => existsb (fun p => is_origin (vp_origin p) target) prices
  | VN_branch _ _ _ yes no => has_price target yes || has_price target no
  end.

Section Edit.
Context `{Platform} (t : jstr -> jstr) (source : jstr).

(** What reading a token tier gives: its terms are well formed and its
    prices keep the text of their amounts. *)
Lemma token_tier_read name s' e' body s e ps :
  wf (Call F_tier [Lit (L_str name) s' e'; body] s e) ->
  read_prices (flattenBinary body B_add) [] = Some ps ->
  Forall2 (fun term p => price_of term p /\ unedited term p) (flattenBinary body B_add) ps /\
  Forall2 price_of (flattenBinary body B_add) ps /\ Forall wf (flattenBinary body B_add).
Proof.
  intros Hw Hps. apply read_prices_spec in Hps as (ps' & -> & Hps). split; [done|]. split.
  - apply (Forall2_impl_mem _ _ _ _ Hps). by intros ? ? _ [? _].
  - apply Forall_elem. intros m Hm. apply flatten_subterms in Hm. eapply wf_subterm; [|exact Hm].
    eapply wf_children; [exact Hw|]. simpl. set_solver.
Qed.

Lemma prices_kept terms ps : Forall2 (fun term p => price_of term p /\ unedited term p) terms ps ->
  Forall wf terms -> Forall (kept source) (map (price_patch source) ps).
Proof.
  induction 1 as [|term p terms ps [Hp Hu] _ IH]; simpl; intros Hws; [constructor|].
  apply Forall_cons_iff in Hws as [Hw Hws]. constructor; [by eapply price_kept|by apply IH].
Qed.

Lemma pricing_writes n : wf n -> (n_end n <= length source)%nat -> (exists ty, has_type n ty) ->
  forall d issues, readVisualPricing n = Some d ->
  fst (writeVisualPricing t source d issues) = source_text source n.
Proof.
  induction n as [n IH] using node_ind_children. intros Hw Hl Hty d issues Hr.
  pose proof (wf_span _ Hw) as Hspan.
  apply read_pricing_inv in Hr as [(c & y & no & s & e & vc & vy & vn & -> & Hc & Hy & Hn & ->)|
    [(name & s' & e' & v & sv & ev & rest & s2 & e2 & rest' & s & e & -> & ->)|
     (name & s' & e' & body & rest' & s & e & ps & -> & Hps & ->)]].
  - set (n := Cond c y no s e) in *. cbn [writeVisualPricing].
    destruct Hty as [ty Hty]. apply has_type_children in Hty. rewrite Forall_elem in Hty, IH.
    assert (forall ch, ch ∈ children n -> wf ch /\ (n_end ch <= length source)%nat) as Hch.
    { intros ch Hin. split; [by apply (wf_children n)|].
      destruct (wf_within n ch Hw) as (? & ? & ?); [by apply postorder_child|lia]. }
    assert (c ∈ children n /\ y ∈ children n /\ no ∈ children n) as (Hic & Hiy & Hin)
      by (simpl; set_solver).
    destruct (Hch c Hic) as [Hwc Hlc]. destruct (Hch y Hiy) as [Hwy Hly]. destruct (Hch no Hin) as [Hwn Hln].
    pose proof (condition_writes t source c Hwc Hlc vc Hc issues) as H1.
    destruct (writeVisualCondition t source vc issues) as [tc is1].
    pose proof (IH y Hiy Hwy Hly (Hty y Hiy) vy is1 Hy) as H2.
    destruct (writeVisualPricing t source vy is1) as [ty' is2].
    pose proof (IH no Hin Hwn Hln (Hty no Hin) vn is2 Hn) as H3.
    destruct (writeVisualPricing t source vn is2) as [tn is3]. simpl in H1, H2, H3. subst.
    unfold n at 1. cbv iota beta. simpl fst.
    apply patch_kept; [by apply (wf_chain n)|lia|by repeat constructor].
  - pose proof (tier_args _ _ _ _ _ Hw eq_refl) as Ha. destruct rest'; [|done].
    pose proof (wf_children _ (Call F_fixed (Lit v sv ev :: rest) s2 e2) Hw ltac:(simpl; set_solver)) as Hwp.
    pose proof (tier_args _ _ _ _ _ Hwp eq_refl) as Ha'. destruct rest; [|done].
    by apply request_writes.
  - pose proof (tier_args _ _ _ _ _ Hw eq_refl) as Ha. destruct rest'; [|done].
    destruct (token_tier_read _ _ _ _ _ _ _ Hw Hps) as (Hall & Hpo & Hws).
    cbn [writeVisualPricing]. rewrite token_tier_patches by done.
    apply patch_kept; [by apply (tier_spans t source (Lit (L_str name) s' e') body s e ps)|lia|]. constructor; [apply label_kept|by eapply prices_kept].
Qed.

(** The source as rewritten by an edit of the literal of one price. *)
Section OnePrice.
Context (x : token_variable) (y : num) (i : bool) (s1 e1 s e ts te : nat) (v : jstr) (z : num).
Definition priced_term : node := Bin B_mul (Var x s1 e1) (Lit (L_num y i) s e) ts te.
Context (Hv : parseNonNegativeNumber v = Some z) (Hz : n_eqb z y = false).

Lemma unedited_rest lo hi terms ps : chain lo hi terms -> (ts < lo)%nat ->
  Forall2 (fun term p => price_of term p /\ unedited term p) terms ps ->
  map (edit_entry priced_term v) ps = ps /\ existsb (fun p => is_origin (vp_origin p) priced_term) ps = false.
Proof using Type.
  intros Hc Hlo Hf. revert lo Hc Hlo. induction Hf as [|term p terms ps [Hp _] _ IH]; intros lo Hc Hlo; [done|].
  simpl in Hc. destruct Hc as (H1 & H2 & H3).
  destruct (IH _ H3 ltac:(lia)) as [IH1 IH2]. simpl. rewrite IH1, IH2.
  assert (is_origin (vp_origin p) priced_term = false) as Ho.
  { destruct Hp. subst term. simpl in *. unfold same_node. simpl. by rewrite (proj2 (Nat.eqb_neq _ _)) by lia. }
  unfold edit_entry. by rewrite Ho.
Qed.

Lemma edit_split lo hi terms ps : chain lo hi terms -> Forall wf terms ->
  (forall m, m ∈ terms -> same_node m priced_term = true -> m = priced_term) ->
  Forall2 (fun term p => price_of term p /\ unedited term p) terms ps ->
  if existsb (fun p => is_origin (vp_origin p) priced_term) ps
  then exists l1 p l2, map (edit_entry priced_term v) ps = l1 ++ p :: l2 /\
         Forall (kept source) (map (price_patch source) l1) /\
         Forall (kept source) (map (price_patch source) l2) /\
         price_patch source p = Patch (Lit (L_num y i) s e) v
  else map (edit_entry priced_term v) ps = ps.
Proof using t Hv Hz.
  intros Hc Hw Hsame Hf. revert lo Hc Hw Hsame.
  induction Hf as [|term p terms ps [Hp Hu] Hf IH]; intros lo Hc Hw Hsame; [done|].
  simpl in Hc. destruct Hc as (H1 & H2 & H3). apply Forall_cons_iff in Hw as [Hwt Hw].
  assert (vp_origin p = Some term) as Ho by by destruct Hp.
  cbn [existsb map]. rewrite Ho. cbn [is_origin]. destruct (same_node term priced_term) eqn:Es.
  - pose proof (Hsame term ltac:(set_solver) Es) as ->.
    destruct (unedited_rest (S te) hi terms ps H3) as [Hrest _]; [simpl in H2; lia|done|].
    exists [], (edit_entry priced_term v p), ps. rewrite Hrest. split_and!; [done|constructor|by eapply prices_kept|].
    unfold edit_entry. rewrite Ho. cbn [is_origin]. rewrite same_node_refl.
    unfold price_patch, amount_text. cbn [vp_origin vp_value priced_term]. rewrite Hv. cbn [is_literal_value]. by rewrite Hz.
  - assert (edit_entry priced_term v p = p) as Hkeep by (unfold edit_entry; rewrite Ho; simpl; by rewrite Es).
    rewrite Hkeep. simpl orb. specialize (IH _ H3 Hw ltac:(intros; apply Hsame; set_solver)).
    destruct (existsb _ ps); [|by rewrite IH].
    destruct IH as (l1 & q & l2 & -> & Hl1 & Hl2 & Hq). exists (p :: l1), q, l2.
    split_and!; [done| |done|done]. constructor; [by eapply price_kept|done].
Qed.

Lemma price_number term p : wf term -> price_of term p -> unedited term p ->
  exists w, parseNonNegativeNumber (vp_value p) = Some w.
Proof.
  intros Hw Hp Hu. destruct Hp. subst term. simpl in Hu. subst value.
  assert (wf (Lit (L_num y0 i0) s2 e2)) as Hl by (eapply wf_children; [exact Hw|simpl; set_solver]).
  apply wf_unfold in Hl as [[_ _ _ Hnum] _]. destruct (literal_number y0 i0 Hnum) as [Hn _]. eauto.
Qed.

Lemma write_prices_issues id terms ps issues : Forall wf terms ->
  Forall2 (fun term p => price_of term p /\ unedited term p) terms ps ->
  snd (write_prices t source id (map (edit_entry priced_term v) ps) issues) = issues /\
  snd (write_prices t source id ps issues) = issues.
Proof.
  intros Hw Hf. revert issues Hw. induction Hf as [|term p terms ps [Hp Hu] _ IH]; intros issues Hw; [done|].
  apply Forall_cons_iff in Hw as [Hwt Hw]. destruct (price_number _ _ Hwt Hp Hu) as [w Hnum].
  assert (forall q, (exists w, parseNonNegativeNumber (vp_value q) = Some w) ->
    snd (write_price t source id q issues) = issues) as Hone.
  { intros q [w' Hq]. unfold write_price. rewrite Hq. by repeat case_match. }
  assert (exists w, parseNonNegativeNumber (vp_value (edit_entry priced_term v p)) = Some w) as Hedit.
  { unfold edit_entry. destruct (is_origin _ _); simpl; eauto. }
  destruct (IH issues Hw) as [IH1 IH2]. cbn [map write_prices].
  pose proof (Hone _ Hedit) as H1. pose proof (Hone p ltac:(eauto)) as H2.
  destruct (write_price t source id (edit_entry priced_term v p) issues) as [[? ?] ?].
  destruct (write_price t source id p issues) as [[? ?] ?]. simpl in H1, H2. subst.
  destruct (write_prices t source id (map _ ps) issues) as [[? ?] ?].
  destruct (write_prices t source id ps issues) as [[? ?] ?]. done.
Qed.

Definition only_target (n : node) : Prop := forall m, m ∈ postorder n -> same_node m priced_term = true -> m = priced_term.

Lemma has_price_in n d : readVisualPricing n = Some d -> wf n -> only_target n ->
  has_price priced_term d = true -> priced_term ∈ postorder n.
Proof.
  revert d. induction n as [n IH] using node_ind_children. intros d Hr Hw Ho Hh.
  apply read_pricing_inv in Hr as [(c & y' & no & s' & e' & vc & vy & vn & -> & Hc & Hy & Hn & ->)|
    [(name & s' & e' & v' & sv & ev & rest & s2 & e2 & rest' & s3 & e3 & -> & ->)|
     (name & s' & e' & body & rest' & s3 & e3 & ps & -> & Hps & ->)]]; [|done|].
  - rewrite Forall_elem in IH.
    assert (forall ch, ch ∈ children (Cond c y' no s' e') -> only_target ch) as Hch.
    { intros ch Hin m Hm. apply Ho. apply elem_of_postorder_children. eauto. }
    apply elem_of_postorder_children. right. simpl in Hh. apply orb_true_iff in Hh as [Hh|Hh].
    + exists y'. split; [simpl; set_solver|]. apply (IH y' ltac:(simpl; set_solver) vy); try done.
      * eapply wf_children; [exact Hw|simpl; set_solver].
      * apply Hch. simpl. set_solver.
    + exists no. split; [simpl; set_solver|]. apply (IH no ltac:(simpl; set_solver) vn); try done.
      * eapply wf_children; [exact Hw|simpl; set_solver].
      * apply Hch. simpl. set_solver.
  - apply read_prices_spec in Hps as (ps' & -> & Hps). simpl in Hh. apply existsb_exists in Hh as (p & Hp & Hori).
    apply list_elem_of_In in Hp. apply list_elem_of_lookup in Hp as [k Hk].
    destruct (Forall2_lookup_r _ _ _ _ _ Hps Hk) as (term & Hterm & Hpo & _).
    destruct Hpo. apply list_elem_of_lookup_2, flatten_subterms in Hterm.
    assert (term ∈ postorder (Call F_tier (Lit (L_str name) s' e' :: body :: rest') s3 e3)) as Hin.
    { apply elem_of_postorder_children. right. exists body. split; [simpl; set_solver|done]. }
    by rewrite <- (Ho term Hin Hori).
Qed.

Definition edited_text (n : node) (d : visual_pricing) : jstr :=
  if has_price priced_term d then replaced source s e v (n_start n) (n_end n) else source_text source n.

Lemma amount_within n : wf n -> priced_term ∈ postorder n ->
  (n_start n <= ts)%nat /\ (ts <= s < e)%nat /\ (e <= te <= n_end n)%nat.
Proof.
  intros Hw Hin. pose proof (wf_subterm _ _ Hw Hin) as Hwt.
  destruct (wf_within n priced_term Hw Hin) as (H1 & H2 & H3).
  destruct (wf_within priced_term (Lit (L_num y i) s e) Hwt) as (H4 & H5 & H6);
    [apply postorder_child; simpl; set_solver|]. simpl in *. lia.
Qed.

Lemma token_tier_edit id name s' e' body s3 e3 ps issues :
  let n := Call F_tier [Lit (L_str name) s' e'; body] s3 e3 in
  wf n -> (n_end n <= length source)%nat -> only_target n ->
  read_prices (flattenBinary body B_add) [] = Some ps ->
  fst (write_token_tier t source id (Some n) name (map (edit_entry priced_term v) ps) issues)
  = (if existsb (fun p => is_origin (vp_origin p) priced_term) ps
     then replaced source s e v (n_start n) (n_end n) else source_text source n).
Proof.
  intros n Hw Hl Ho Hps. destruct (token_tier_read _ _ _ _ _ _ _ Hw Hps) as (Hall & Hpo & Hws).
  assert (Forall2 price_of (flattenBinary body B_add) (map (edit_entry priced_term v) ps)) as Hpe.
  { clear -Hpo. induction Hpo as [|term p terms ps Hp _ IH]; simpl; constructor; [|done].
    unfold edit_entry. destruct (is_origin _ _); [|done]. destruct Hp. subst term. constructor. }
  pose proof (wf_span _ Hw) as Hspan.
  rewrite (token_tier_patches t source id (Lit (L_str name) s' e') body s3 e3) by done. fold n.
  pose proof (tier_spans t source (Lit (L_str name) s' e') body s3 e3 _
    (label_text source (Lit (L_str name) s' e') name) Hw Hpe) as Hch.
  pose proof (wf_children n body Hw ltac:(simpl; set_solver)) as Hwb.
  assert (forall m, m ∈ flattenBinary body B_add -> same_node m priced_term = true -> m = priced_term) as Hsame.
  { intros m Hm. apply Ho. apply elem_of_postorder_children. right. exists body.
    split; [simpl; set_solver|by eapply flatten_subterms]. }
  pose proof (edit_split _ _ _ ps (flatten_chain B_add body Hwb) Hws Hsame Hall) as Hsp.
  destruct (existsb _ ps) eqn:Eh.
  - destruct Hsp as (l1 & p & l2 & El & Hl1 & Hl2 & Hp). rewrite El in *.
    assert (priced_term ∈ postorder n) as Hin.
    { apply (has_price_in n (VN_tier (span_id "pricing" n) (Some n) name ps VU_token [])); [|done|done|done].
      clear -Hps Hpo. unfold n. cbn [readVisualPricing]. by destruct body; rewrite Hps. }
    destruct (amount_within n Hw Hin) as (Ha & Hb & Hc).
    rewrite patch_pieces by done. rewrite map_app in *. cbn [map] in *. rewrite Hp in *.
    apply (pieces_replaced source s e v _ _
      (Patch (Lit (L_str name) s' e') (label_text source (Lit (L_str name) s' e') name) :: map (price_patch source) l1));
      [done|lia| |done|done|done|].
    + constructor; [apply label_kept|done].
    + cbn [pt_text pt_node n_start n_end]. unfold replaced. by rewrite !slice_nil, app_nil_r by lia.
  - rewrite Hsp in *. apply patch_kept; [done|lia|]. constructor; [apply label_kept|by eapply prices_kept].
Qed.

Lemma token_tier_issues id origin name terms ps issues : Forall wf terms ->
  Forall2 (fun term p => price_of term p /\ unedited term p) terms ps ->
  snd (write_token_tier t source id origin name (map (edit_entry priced_term v) ps) issues)
  = snd (write_token_tier t source id origin name ps issues).
Proof.
  intros Hw Hf. unfold write_token_tier. cbv zeta.
  assert (match map (edit_entry priced_term v) ps with
    | [] => issues ++ [VisualIssue id (t (js "Include at least one price variable."))]
    | _ => issues end
    = match ps with
    | [] => issues ++ [VisualIssue id (t (js "Include at least one price variable."))]
    | _ => issues end) as -> by by destruct ps.
  match goal with |- context [write_prices t source id ps ?q] =>
    destruct (write_prices_issues id terms ps q Hw Hf) as [H1 H2];
    destruct (write_prices t source id (map _ ps) q) as [[? ?] ?];
    destruct (write_prices t source id ps q) as [[? ?] ?] end.
  simpl in H1, H2. subst. by repeat case_match.
Qed.

(** The text of a branch when one of its sides is edited. *)
Lemma branch_edit c y' no s' e' (by_ bn : bool) : let n := Cond c y' no s' e' in
  wf n -> (n_end n <= length source)%nat ->
  (by_ = true -> priced_term ∈ postorder y') -> (bn = true -> priced_term ∈ postorder no) ->
  let text (b : bool) m := if b then replaced source s e v (n_start m) (n_end m) else source_text source m in
  patchSource source n [Patch c (source_text source c); Patch y' (text by_ y'); Patch no (text bn no)]
  = text (by_ || bn) n.
Proof.
  intros n Hw Hl Hy Hn text. pose proof (wf_chain n Hw) as Hch. pose proof (wf_span _ Hw) as Hspan.
  pose proof (wf_children n y' Hw ltac:(simpl; set_solver)) as Hwy.
  pose proof (wf_children n no Hw ltac:(simpl; set_solver)) as Hwn.
  assert (kept source (Patch c (source_text source c))) as Kc by done.
  assert (kept source (Patch y' (source_text source y'))) as Ky by done.
  assert (kept source (Patch no (source_text source no))) as Kn by done.
  assert (forall m, wf m -> priced_term ∈ postorder m -> (n_start m <= s)%nat /\ (e <= n_end m)%nat) as Hin.
  { intros m Hwm Hm. destruct (amount_within m Hwm Hm) as (? & ? & ?). lia. }
  rewrite patch_pieces by done. unfold text. destruct by_, bn; simpl orb.
  - exfalso. destruct (amount_within _ Hwy (Hy eq_refl)) as (? & ? & ?).
    destruct (amount_within _ Hwn (Hn eq_refl)) as (? & ? & ?). simpl in Hch. lia.
  - destruct (Hin y' Hwy (Hy eq_refl)).
    by apply (pieces_replaced source s e v _ _ [Patch c (source_text source c)]);
      [|lia|repeat constructor|repeat constructor|..].
  - destruct (Hin no Hwn (Hn eq_refl)).
    by apply (pieces_replaced source s e v _ _ [Patch c (source_text source c); Patch y' (source_text source y')]);
      [|lia|repeat constructor|constructor|..].
  - apply pieces_kept; [done|lia|by repeat constructor].
Qed.

Lemma pricing_edit n : wf n -> (n_end n <= length source)%nat -> (exists ty, has_type n ty) ->
  only_target n -> forall d issues, readVisualPricing n = Some d ->
  fst (writeVisualPricing t source (edit_price priced_term v d) issues) = edited_text n d /\
  snd (writeVisualPricing t source (edit_price priced_term v d) issues)
  = snd (writeVisualPricing t source d issues).
Proof.
  induction n as [n IH] using node_ind_children. intros Hw Hl Hty Ho d issues Hr.
  pose proof Hr as Hr0.
  apply read_pricing_inv in Hr as [(c & y' & no & s' & e' & vc & vy & vn & -> & Hc & Hy & Hn & ->)|
    [(name & s' & e' & v' & sv & ev & rest & s2 & e2 & rest' & s3 & e3 & -> & ->)|
     (name & s' & e' & body & rest' & s3 & e3 & ps & -> & Hps & ->)]].
  - set (n := Cond c y' no s' e') in *. cbn [edit_price writeVisualPricing].
    destruct Hty as [ty Hty]. apply has_type_children in Hty. rewrite Forall_elem in Hty, IH.
    assert (forall ch, ch ∈ children n -> wf ch /\ (n_end ch <= length source)%nat /\ only_target ch) as Hch.
    { intros ch Hin. split_and!; [by apply (wf_children n)| |].
      - destruct (wf_within n ch Hw) as (? & ? & ?); [by apply postorder_child|lia].
      - intros m Hm. apply Ho. apply elem_of_postorder_children. eauto. }
    assert (c ∈ children n /\ y' ∈ children n /\ no ∈ children n) as (Hic & Hiy & Hin)
      by (simpl; set_solver).
    destruct (Hch c Hic) as (Hwc & Hlc & _). destruct (Hch y' Hiy) as (Hwy & Hly & Hoy).
    destruct (Hch no Hin) as (Hwn & Hln & Hon).
    pose proof (condition_writes t source c Hwc Hlc vc Hc issues) as H1.
    destruct (writeVisualCondition t source vc issues) as [tc is1].
    destruct (IH y' Hiy Hwy Hly (Hty y' Hiy) Hoy vy is1 Hy) as [H2 H2'].
    destruct (writeVisualPricing t source (edit_price priced_term v vy) is1) as [ty' is2].
    destruct (writeVisualPricing t source vy is1) as [ty0 is2'].
    simpl in H2'. subst is2'. destruct (IH no Hin Hwn Hln (Hty no Hin) Hon vn is2 Hn) as [H3 H3'].
    destruct (writeVisualPricing t source (edit_price priced_term v vn) is2) as [tn is3].
    destruct (writeVisualPricing t source vn is2) as [tn0 is3']. simpl in H1, H2, H3, H3'. subst.
    unfold n at 1 3. cbv iota beta. split; [|done]. simpl fst.
    apply branch_edit; [done|done| |]; intros Hh; by eapply has_price_in.
  - pose proof (pricing_writes _ Hw Hl Hty _ issues Hr0) as Hk.
    unfold edited_text. cbn [edit_price has_price existsb map]. split; [exact Hk|done].
  - pose proof (tier_args _ _ _ _ _ Hw eq_refl) as Ha. destruct rest'; [|done].
    destruct (token_tier_read _ _ _ _ _ _ _ Hw Hps) as (Hall & _ & Hws).
    cbn [edit_price writeVisualPricing]. split; [by apply token_tier_edit|by eapply token_tier_issues].
Qed.
End OnePrice.
End Edit.

(** ** Documents *)
Lemma parse_document `{Platform} t source c doc c1 : cache_ok c ->
  parseVisualBillingDocument t source c = (Some doc, c1) -> exists compiled root,
  compile source = Ready compiled /\ doc = VisualDocument source root /\
  readVisualPricing (ce_ast compiled) = Some root /\
  snd (writeVisualPricing t source root []) = [] /\ cache_ok c1.
Proof.
  intros Hc E. unfold parseVisualBillingDocument in E.
  destruct (compile_cached source c Hc) as [H1 H2].
  destruct (compileBillingExpression source c) as [r c']. simpl in H1, H2.
  destruct r as [compiled|]; [|done]. destruct (readVisualPricing (ce_ast compiled)) as [root|] eqn:Er; [|done].
  unfold serializeVisualBillingDocument in E. simpl in E.
  destruct (writeVisualPricing t source root []) as [body issues] eqn:Ew. destruct issues; [|done].
  destruct (compile_cached source c' H2) as [H3 H4].
  destruct (compileBillingExpression source c') as [r' c'']. simpl in H3, H4.
  rewrite <- H1 in H3. subst r'. cbv iota beta in E.
  match type of E with context [compileBillingExpression ?w c''] =>
    destruct (compile_cached w c'' H4) as [H5 H6]; destruct (compileBillingExpression w c'') as [r2 c2] end.
  simpl in H5, H6. destruct r2; [|done]. injection E as <- <-.
  exists compiled, root. split_and!; try done. by rewrite Ew.
Qed.

Lemma serialize_body `{Platform} t source root c compiled body : cache_ok c ->
  compile source = Ready compiled -> writeVisualPricing t source root [] = (body, []) ->
  let written := slice source 0 (n_start (ce_ast compiled)) ++ body
                 ++ slice source (n_end (ce_ast compiled)) (length source) in
  exists c2, serializeVisualBillingDocument t (VisualDocument source root) c
    = (match compile written with
       | Ready _ => Serialized written
       | Failed _ => Issues [VisualIssue (vn_id root) (t (js "Enter a valid condition value."))]
       end, c2).
Proof.
  intros Hc Hr Hw written. unfold serializeVisualBillingDocument. cbn [vd_source vd_root]. rewrite Hw.
  destruct (compile_cached source c Hc) as [H1 H2].
  destruct (compileBillingExpression source c) as [r c']. simpl in H1, H2. rewrite Hr in H1. subst r. cbv iota beta.
  fold written. destruct (compile_cached written c' H2) as [H3 _].
  destruct (compileBillingExpression written c') as [r2 c2]. simpl in H3. subst r2.
  exists c2. by destruct (compile written).
Qed.

Lemma ready_span source compiled : compile source = Ready compiled ->
  wf (ce_ast compiled) /\ (n_end (ce_ast compiled) <= length source)%nat /\
  (exists ty, has_type (ce_ast compiled) ty).
Proof.
  intros Hr. apply compile_ready in Hr as [_ Hp _ Hty _ _ _ _].
  pose proof (parse_spec source) as Hs. rewrite Hp in Hs. by destruct Hs.
Qed.

Lemma slice_around {A} (l : list A) i j m : (i <= j <= length l)%nat ->
  m = slice l i j -> slice l 0 i ++ m ++ slice l j (length l) = l.
Proof. intros H ->. rewrite app_assoc, !slice_app_adj by lia. by apply slice_full. Qed.

(** C24: Opening an expression in the visual editor and saving it without a
    change gives back the source text, character for character: every
    condition, label, number and space is taken from the source spans, and
    re-reading the printed numbers shows them unchanged. *)
Theorem visual_document_lossless `{Platform} t source c doc c1 : cache_ok c ->
  parseVisualBillingDocument t source c = (Some doc, c1) ->
  exists c2, serializeVisualBillingDocument t doc c1 = (Serialized source, c2).
Proof.
  intros Hc E. destruct (parse_document t source c doc c1 Hc E) as (compiled & root & Hr & -> & Hroot & Hi & Hc1).
  destruct (ready_span _ _ Hr) as (Hw & Hl & Hty). pose proof (wf_span _ Hw).
  pose proof (pricing_writes t source _ Hw Hl Hty root [] Hroot) as Hbody.
  destruct (writeVisualPricing t source root []) as [body issues] eqn:Ew. simpl in Hbody, Hi. subst issues.
  destruct (serialize_body t source root c1 compiled body Hc1 Hr Ew) as [c2 Hs].
  rewrite (slice_around source _ _ body) in Hs by (done || lia). rewrite Hr in Hs. by exists c2.
Qed.

(** C25: Changing one token price in the visual editor changes one literal of the
    source: if [target] is the priced term of some tier and the new text [v]
    denotes another number, the written source is the old one with the literal's
    span replaced by [v], and it is accepted exactly when it compiles. *)
Theorem visual_price_edit `{Platform} t source c doc c1 compiled x y i s1 e1 s e ts te v z :
  let target := Bin B_mul (Var x s1 e1) (Lit (L_num y i) s e) ts te in
  let written := slice source 0 s ++ v ++ slice source e (length source) in
  cache_ok c -> parseVisualBillingDocument t source c = (Some doc, c1) ->
  compile source = Ready compiled -> target ∈ postorder (ce_ast compiled) ->
  has_price target (vd_root doc) = true ->
  parseNonNegativeNumber v = Some z -> n_eqb z y = false ->
  exists c2, serializeVisualBillingDocument t
      (VisualDocument source (edit_price target v (vd_root doc))) c1
    = (match compile written with
       | Ready _ => Serialized written
       | Failed _ => Issues [VisualIssue (vn_id (vd_root doc)) (t (js "Enter a valid condition value."))]
       end, c2).
Proof.
  intros target written Hc E Hr Ht Hh Hv Hz.
  destruct (parse_document t source c doc c1 Hc E) as (compiled' & root & Hr' & -> & Hroot & Hi & Hc1).
  rewrite Hr in Hr'. injection Hr' as <-. cbn [vd_root] in *.
  destruct (ready_span _ _ Hr) as (Hw & Hl & Hty). pose proof (wf_span _ Hw).
  assert (only_target x y i s1 e1 s e ts te (ce_ast compiled)) as Ho.
  { intros m Hm Hs. by apply (same_node_eq _ m _ Hw Hm Ht). }
  destruct (pricing_edit t source x y i s1 e1 s e ts te v z Hv Hz _ Hw Hl Hty Ho root [] Hroot) as [Hb Hs].
  rewrite Hi in Hs. change (priced_term x y i s1 e1 s e ts te) with target in Hb, Hs.
  destruct (writeVisualPricing t source (edit_price target v root) []) as [body issues] eqn:Ew.
  simpl in Hb, Hs. subst issues.
  destruct (serialize_body t source _ c1 compiled body Hc1 Hr Ew) as [c2 Hser]. exists c2.
  assert (slice source 0 (n_start (ce_ast compiled)) ++ body
    ++ slice source (n_end (ce_ast compiled)) (length source) = written) as Hwr.
  { edestruct (amount_within t) as (? & ? & ?); [exact Hv|exact Hz|exact Hw|exact Ht|].
    unfold edited_text in Hb. change (priced_term x y i s1 e1 s e ts te) with target in Hb. rewrite Hh in Hb. rewrite Hb. unfold replaced, written.
    rewrite !app_assoc, slice_app_adj, <- !app_assoc, slice_app_adj by lia. done. }
  rewrite Hwr in Hser. rewrite Hser. assert (vn_id (edit_price target v root) = vn_id root) as -> by by destruct root.
  done.
Qed.

(** A two-tier price that depends on the hour, with irregular spacing. *)
Definition day_night_source : jstr :=
  js "hour('UTC')  >=8 && p < 1e3 ? tier('day', p*2.50 + c * .5) : tier('night',fixed(0.10))".

Definition parsed_day_night `{Platform} : option visual_document * cache :=
  parseVisualBillingDocument (fun m => m) day_night_source [].

Lemma visual_document_lossless_witness : exists doc c1,
  @parsed_day_night plain_platform = (Some doc, c1) /\
  exists c2, @serializeVisualBillingDocument plain_platform (fun m => m) doc c1
    = (Serialized day_night_source, c2).
Proof.
  destruct (@parsed_day_night plain_platform) as [[doc|] c1] eqn:E; [|vm_compute in E; discriminate E].
  exists doc, c1. split; [reflexivity|].
  exact (@visual_document_lossless plain_platform (fun m => m) day_night_source [] doc c1 cache_ok_nil E).
Defined.

(** The term [p*2.50] of the day tier. *)
Definition day_price : node :=
  Bin B_mul (Var V_p 42 43) (Lit (L_num (S754_finite false 5629499534213120 (-51)) false) 44 48) 42 48.

Lemma visual_price_edit_witness : exists doc c1,
  @parsed_day_night plain_platform = (Some doc, c1) /\
  exists c2, @serializeVisualBillingDocument plain_platform (fun m => m)
      (VisualDocument day_night_source (edit_price day_price (js "3") (vd_root doc))) c1
    = (Serialized (js "hour('UTC')  >=8 && p < 1e3 ? tier('day', p*3 + c * .5) : tier('night',fixed(0.10))"), c2).
Proof.
  destruct (@parsed_day_night plain_platform) as [[doc|] c1] eqn:E; [|vm_compute in E; discriminate E].
  exists doc, c1. split; [reflexivity|].
  destruct (compile day_night_source) as [compiled|] eqn:Hr; [|vm_compute in Hr; discriminate Hr].
  assert (day_price ∈ postorder (ce_ast compiled)) as Ht.
  { apply list_elem_of_In. vm_compute in Hr. injection Hr as <-. vm_compute. intuition. }
  assert (has_price day_price (vd_root doc) = true) as Hh.
  { vm_compute in E. injection E as <- _. vm_compute. reflexivity. }
  destruct (@visual_price_edit plain_platform (fun m => m) day_night_source [] doc c1 compiled
    V_p (S754_finite false 5629499534213120 (-51)) false 42 43 44 48 42 48 (js "3") (n_of_Z 3)
    cache_ok_nil E Hr Ht Hh ltac:(vm_compute; reflexivity) ltac:(vm_compute; reflexivity)) as [c2 H].
  exists c2. etransitivity; [exact H|]. vm_compute. reflexivity.
Defined.
