(* ===== verification/RequestRules.v ===== *)
(** * Request rules

    Models the request-rule half of [billing-expr.ts]: the multipliers that
    depend on headers, body parameters and the time, how the editor builds their
    expression, how it reads one back, and how an expression is split into its
    price and its rules.  The regular expressions of the code are deterministic
    scanners here; [JSON.parse] may throw, so the readers are computations that
    may throw. *)
From Stdlib Require Import SpecFloat.
From stdpp Require Import strings.
From S2P Require Import Prelude JsString JsNumber JsValue JsJson Syntax Compile Structure.

#[local] Open Scope Z_scope.

(** ** Conditions and groups *)
Definition SOURCE_TIME : jstr := js "time".
Definition SOURCE_HEADER : jstr := js "header".

Definition MATCH_EQ : jstr := js "eq".
Definition MATCH_CONTAINS : jstr := js "contains".
Definition MATCH_GT : jstr := js "gt".
Definition MATCH_GTE : jstr := js "gte".
Definition MATCH_LT : jstr := js "lt".
Definition MATCH_LTE : jstr := js "lte".
Definition MATCH_EXISTS : jstr := js "exists".
Definition MATCH_RANGE : jstr := js "range".

Inductive rule_source := Src_param | Src_header.

Record time_cond := TimeCond {
  tq_timeFunc : time_function;
  tq_timezone : jstr;
  tq_mode : jstr;
  tq_value : jstr;
  tq_rangeStart : jstr;
  tq_rangeEnd : jstr;
}.

Record param_cond := ParamCond {
  pq_source : rule_source;
  pq_path : jstr;
  pq_mode : jstr;
  pq_value : jstr;
}.

Inductive request_condition :=
| RC_time (c : time_cond)
| RC_param (c : param_cond).

Record rule_group := RuleGroup {
  rg_conditions : list request_condition;
  rg_multiplier : jstr;
  rg_conditionText : option jstr;
  rg_matched : option bool;
}.

#[global] Instance rule_source_eq_dec : EqDecision rule_source.
Proof. solve_decision. Defined.
#[global] Instance time_cond_eq_dec : EqDecision time_cond.
Proof. solve_decision. Defined.
#[global] Instance param_cond_eq_dec : EqDecision param_cond.
Proof. solve_decision. Defined.
#[global] Instance request_condition_eq_dec : EqDecision request_condition.
Proof. solve_decision. Defined.

Definition source_text (s : rule_source) : jstr :=
  match s with Src_param => js "param" | Src_header => js "header" end.

(** ** Scanners for the regular expressions *)

(** [/^-?(?:\d+\.?\d*|\.\d+)(?:[eE][+-]?\d+)?$/] *)
Definition numeric_literal (s : jstr) : bool :=
  let s := match s with c :: s1 => if c =? 45 then s1 else s | [] => s end in
  match scan_number s with Some (_, []) => true | _ => false end.

(** The class [[\d.eE+-]]. *)
Definition number_class (c : Z) : bool :=
  is_digit c || (c =? 46) || (c =? 101) || (c =? 69) || (c =? 43) || (c =? 45).

Definition strip (p s : jstr) : option jstr :=
  if starts_with p s then Some (drop (length p) s) else None.

(** One or more characters of a class. *)
Definition scan_class (f : Z -> bool) (s : jstr) : option (jstr * jstr) :=
  match span_while f s with
  | ([], _) => None
  | p => Some p
  end.

(** [name(Q path Q)], where [Q] is the double quote and the path has none. *)
Definition scan_argument (name s : jstr) : option (jstr * jstr) :=
  s ← strip (name ++ [40; 34]) s;
  '(path, s) ← scan_class (fun c => negb (c =? 34)) s;
  s ← strip [34; 41] s;
  Some (path, s).

(** A time function applied to a quoted zone. *)
Definition scan_time_probe (s : jstr) : option (time_function * jstr * jstr) :=
  (fix try l :=
     match l with
     | [] => None
     | f :: l =>
         match scan_argument (time_text f) s with
         | Some (zone, s) => Some (f, zone, s)
         | None => try l
         end
     end) TIME_FUNCTIONS.

Definition scan_number_class (s : jstr) : option (jstr * jstr) := scan_class number_class s.

(** [fn(zone) >= a (?:&&|\|\|) fn(zone) < b], with the rest of the text. *)
Definition scan_time_range (s : jstr) : option (time_function * jstr * jstr * jstr * jstr) :=
  '(f, zone, s) ← scan_time_probe s;
  s ← strip (js " >= ") s;
  '(a, s) ← scan_number_class s;
  s ← match strip (js " && ") s with Some s => Some s | None => strip (js " || ") s end;
  s ← strip (time_text f ++ [40; 34] ++ zone ++ [34; 41] ++ js " < ") s;
  '(b, s) ← scan_number_class s;
  Some (f, zone, a, b, s).

(** [fn(zone) (==|>=|<) v] *)
Definition scan_time_scalar (s : jstr) : option (time_function * jstr * jstr * jstr) :=
  '(f, zone, s) ← scan_time_probe s;
  '(mode, s) ← match strip (js " == ") s with
               | Some s => Some (MATCH_EQ, s)
               | None =>
                   match strip (js " >= ") s with
                   | Some s => Some (MATCH_GTE, s)
                   | None => (fun s => (MATCH_LT, s)) <$> strip (js " < ") s
                   end
               end;
  '(v, s) ← scan_number_class s;
  match s with [] => Some (f, zone, mode, v) | _ => None end.

(** [.] does not match the line terminators. *)
Definition line_terminator (c : Z) : bool :=
  (c =? 10) || (c =? 13) || (c =? 8232) || (c =? 8233).

(** Characters other than quote and backslash, or a backslash and a character,
    up to and including the closing quote; and the rest. *)
Fixpoint scan_quoted (s : jstr) : option (jstr * jstr) :=
  match s with
  | [] => None
  | c :: s1 =>
      if c =? 34 then Some ([c], s1)
      else if c =? 92 then
        match s1 with
        | x :: s2 => if line_terminator x then None
                     else '(t, rest) ← scan_quoted s2; Some (c :: x :: t, rest)
        | [] => None
        end
      else '(t, rest) ← scan_quoted s1; Some (c :: t, rest)
  end.

Definition scan_string_literal (s : jstr) : option (jstr * jstr) :=
  s ← strip [34] s; '(t, rest) ← scan_quoted s; Some (34 :: t, rest).

(** ** Reading conditions *)
Definition TIME_FUNC_RANGES (f : time_function) : Z * Z :=
  match f with
  | T_hour => (0, 23)
  | T_minute => (0, 59)
  | T_weekday => (0, 6)
  | T_month => (1, 12)
  | T_day => (1, 31)
  end.

Definition isTimeValueInRange (timeFunc : time_function) (text : jstr) : bool :=
  if negb (numeric_literal text) then false else
  let value := to_number text in
  if negb (is_integer value) then false else
  let '(min, max) := TIME_FUNC_RANGES timeFunc in
  n_leb (n_of_Z min) value && n_leb value (n_of_Z max).

Definition match_time_range (expr : jstr) : option (time_function * jstr * jstr * jstr) :=
  match scan_time_range expr with
  | Some (f, zone, a, b, []) => Some (f, zone, a, b)
  | _ =>
      s ← strip (js "(") expr;
      match scan_time_range s with
      | Some (f, zone, a, b, rest) =>
          if bool_decide (rest = js ")") then Some (f, zone, a, b) else None
      | None => None
      end
  end.

Definition tryParseTimeCondition (expr : jstr) : option time_cond :=
  match match_time_range expr with
  | Some (f, zone, a, b) =>
      if isTimeValueInRange f a && isTimeValueInRange f b
      then Some (TimeCond f zone MATCH_RANGE [] a b) else None
  | None =>
      match scan_time_scalar expr with
      | Some (f, zone, mode, v) =>
          if isTimeValueInRange f v then Some (TimeCond f zone mode v [] []) else None
      | None => None
      end
  end.

(** [JSON.parse(text) as string] for the text of a string literal: throws when
    an escape is not one of JSON's. *)
Definition parse_json_string (text : jstr) : outcome jstr :=
  match json_parse text with
  | Some v => Ok (js_to_string v)
  | None => Err (OtherError (js "SyntaxError"))
  end.

(** The value a literal denotes; [None] when it is [null] or not JSON. *)
Definition parseExprLiteral (raw : jstr) : option jsval :=
  let text := trim raw in
  if bool_decide (text = js "true") || bool_decide (text = js "false") then Some (J_str text)
  else if numeric_literal text then Some (J_str text)
  else match json_parse text with
       | Some J_null | None => None
       | Some v => Some v
       end.

Definition match_exists (expr : jstr) : option param_cond :=
  match scan_argument (js "header") expr with
  | Some (path, rest) =>
      if bool_decide (rest = js " != " ++ [34; 34])
      then Some (ParamCond Src_header path MATCH_EXISTS []) else None
  | None =>
      match scan_argument (js "param") expr with
      | Some (path, rest) =>
          if bool_decide (rest = js " != nil")
          then Some (ParamCond Src_param path MATCH_EXISTS []) else None
      | None => None
      end
  end.

(** [has(source(path), literal)]: the path and the literal's text. *)
Definition match_has (source : rule_source) (expr : jstr) : option (jstr * jstr) :=
  s ← strip (js "has(") expr;
  '(path, s) ← scan_argument (source_text source) s;
  s ← strip (js ", ") s;
  '(text, s) ← scan_string_literal s;
  if bool_decide (s = js ")") then Some (path, text) else None.

(** [param(path) != nil && ...]: the path and what follows. *)
Definition match_present (expr : jstr) : option (jstr * jstr) :=
  '(path, s) ← scan_argument (js "param") expr;
  s ← strip (js " != nil && ") s;
  Some (path, s).

(** [param(path) (>|>=|<|<=) number] *)
Definition match_compare (expr : jstr) : option (jstr * jstr * jstr) :=
  '(path, s) ← scan_argument (js "param") expr;
  '(mode, s) ← match strip (js " > ") s with
               | Some s => Some (MATCH_GT, s)
               | None =>
                   match strip (js " >= ") s with
                   | Some s => Some (MATCH_GTE, s)
                   | None =>
                       match strip (js " < ") s with
                       | Some s => Some (MATCH_LT, s)
                       | None => (fun s => (MATCH_LTE, s)) <$> strip (js " <= ") s
                       end
                   end
               end;
  '(v, s) ← scan_number_class s;
  match s with [] => Some (path, mode, v) | _ => None end.

(** [(param|header)(path) == (.+)] *)
Definition match_equal (expr : jstr) : option (rule_source * jstr * jstr) :=
  '(source, path, s) ←
    match scan_argument (js "param") expr with
    | Some (path, s) => Some (Src_param, path, s)
    | None => (fun '(path, s) => (Src_header, path, s)) <$> scan_argument (js "header") expr
    end;
  s ← strip (js " == ") s;
  match s with
  | [] => None
  | _ => if forallb (fun c => negb (line_terminator c)) s then Some (source, path, s) else None
  end.

Definition parse_equal (expr : jstr) : option param_cond :=
  match match_equal expr with
  | Some (source, path, text) =>
      (fun v => ParamCond source path MATCH_EQ (js_to_string v)) <$> parseExprLiteral text
  | None => None
  end.

(** The two forms that start with [param(path) != nil && ], for one path. *)
Definition match_present_has (expr : jstr) : option (jstr * jstr) :=
  '(p, s) ← match_present expr;
  '(path, text) ← match_has Src_param s;
  if bool_decide (p = path) then Some (path, text) else None.

Definition match_present_compare (expr : jstr) : option param_cond :=
  '(p, s) ← match_present expr;
  '(path, mode, v) ← match_compare s;
  if bool_decide (p = path) then Some (ParamCond Src_param path mode v) else None.

Definition tryParseRequestCondition (expr : jstr) : outcome (option request_condition) :=
  match tryParseTimeCondition expr with
  | Some tc => Ok (Some (RC_time tc))
  | None =>
      match match_exists expr with
      | Some c => Ok (Some (RC_param c))
      | None =>
          match match_has Src_header expr with
          | Some (path, text) =>
              let* value := parse_json_string text in
              Ok (Some (RC_param (ParamCond Src_header path MATCH_CONTAINS value)))
          | None =>
              match match_present_has expr with
              | Some (path, text) =>
                  let* value := parse_json_string text in
                  Ok (Some (RC_param (ParamCond Src_param path MATCH_CONTAINS value)))
              | None =>
                  match match_present_compare expr with
                  | Some c => Ok (Some (RC_param c))
                  | None => Ok (RC_param <$> parse_equal expr)
                  end
              end
          end
      end
  end.

Definition tryParseTimeRangePair (lower upper : jstr) : option request_condition :=
  match tryParseTimeCondition lower, tryParseTimeCondition upper with
  | Some ta, Some tb =>
      if bool_decide (tq_timeFunc ta = tq_timeFunc tb)
         && bool_decide (tq_timezone ta = tq_timezone tb)
         && bool_decide (tq_mode ta = MATCH_GTE) && bool_decide (tq_mode tb = MATCH_LT)
      then Some (RC_time (TimeCond (tq_timeFunc ta) (tq_timezone ta) MATCH_RANGE []
                            (tq_value ta) (tq_value tb)))
      else None
  | _, _ => None
  end.

(** The loop over the parts of a conjunction: adjacent bounds of one field form
    a range. *)
Fixpoint parse_parts (parts : list jstr) : outcome (option (list request_condition)) :=
  match parts with
  | [] => Ok (Some [])
  | part :: rest =>
      let alone :=
        let* c := tryParseRequestCondition (trim part) in
        match c with
        | None => Ok None
        | Some c => let* cs := parse_parts rest in Ok (cons c <$> cs)
        end in
      match rest with
      | next :: rest' =>
          let merged := if nonempty (trim next)
                        then tryParseTimeRangePair (trim part) (trim next) else None in
          match merged with
          | Some m => let* cs := parse_parts rest' in Ok (cons m <$> cs)
          | None => alone
          end
      | [] => alone
      end
  end.

Definition splitTopLevelMultiply (expr : jstr) : list jstr := splitExpressionAtTopLevel expr (js "*").
Definition splitTopLevelAnd (expr : jstr) : list jstr := splitExpressionAtTopLevel expr (js "&&").

Definition tryParseRequestConditions (conditionStr : jstr)
  : outcome (option (list request_condition)) :=
  match tryParseTimeCondition (trim conditionStr) with
  | Some whole => Ok (Some [RC_time whole])
  | None =>
      let* conditions := parse_parts (splitTopLevelAnd conditionStr) in
      match conditions with
      | Some [] | None => Ok None
      | _ => Ok conditions
      end
  end.

(** [/^\((.+) \? ([\d.eE+-]+) : 1\)$/s], read from the end: the multiplier has
    no space, so that the match is unique. *)
Definition match_factor (part : jstr) : option (jstr * jstr) :=
  r ← strip (rev (js " : 1)")) (rev part);
  '(m, r) ← scan_number_class r;
  r ← strip (rev (js " ? ")) r;
  s ← strip (js "(") (rev r);
  match s with [] => None | _ => Some (s, rev m) end.

Definition tryParseRuleGroupFactor (part : jstr) : outcome (option rule_group) :=
  match match_factor part with
  | None => Ok None
  | Some (condition, multiplier) =>
      let* conditions := tryParseRequestConditions condition in
      Ok ((fun cs => RuleGroup cs multiplier None None) <$> conditions)
  end.

Record rule_trace_entry := RuleTraceEntry {
  rte_cond : jstr;
  rte_multiplier : num;
  rte_matched : bool;
}.

Definition group_from_trace (rule : rule_trace_entry) : outcome rule_group :=
  let conditionText := trim (rte_cond rule) in
  let* conditions := tryParseRequestConditions conditionText in
  Ok (RuleGroup (default [] conditions) (num_to_string (rte_multiplier rule))
        (Some conditionText) (Some (rte_matched rule))).

Definition requestRuleGroupsFromTrace (requestRules : list rule_trace_entry)
  : outcome (list rule_group) :=
  rseq (map group_from_trace requestRules).

Fixpoint parse_factors (parts : list jstr) : outcome (option (list rule_group)) :=
  match parts with
  | [] => Ok (Some [])
  | part :: parts =>
      let* group := tryParseRuleGroupFactor part in
      match group with
      | None => Ok None
      | Some group => let* groups := parse_factors parts in Ok (cons group <$> groups)
      end
  end.

Definition tryParseRequestRuleExpr (expr : jstr) : outcome (option (list rule_group)) :=
  match trim expr with
  | [] => Ok (Some [])
  | trimmed => parse_factors (splitTopLevelMultiply trimmed)
  end.

(** ** Splitting an expression into its price and its rules

    [compile] stands for [compileBillingExpression], whose cache does not
    change results. *)
Definition unwrapOuterParens (expr : jstr) : jstr := unwrapExpressionParens expr.

Definition is_rule_part (part : jstr) : outcome bool :=
  let* parsed := tryParseRequestRuleExpr part in
  let traced :=
    match compile part with
    | Ready compiled => existsb (fun rule => same_node (rl_node rule) (ce_ast compiled)) (ce_rules compiled)
    | Failed _ => false
    end in
  Ok (match parsed with Some (_ :: _) => true | _ => traced end).

Record split_expr := SplitExpr { se_billingExpr : jstr; se_requestRuleExpr : jstr }.

Definition splitBillingExprAndRequestRules (expr : jstr) : outcome split_expr :=
  let trimmed := trim expr in
  match trimmed with
  | [] => Ok (SplitExpr [] [])
  | _ =>
      let parts := splitTopLevelMultiply trimmed in
      if (length parts <=? 1)%nat then Ok (SplitExpr trimmed []) else
      let* marks := rseq (map is_rule_part parts) in
      let ruleParts := map snd (List.filter (fun p => fst p) (zip marks parts)) in
      let baseParts := map snd (List.filter (fun p => negb (fst p)) (zip marks parts)) in
      let quantityParts :=
        List.filter (fun part => bool_decide (unwrapOuterParens part = js "image_count")) baseParts in
      if (length ruleParts =? 0)%nat || negb (length baseParts - length quantityParts =? 1)%nat
      then Ok (SplitExpr trimmed [])
      else Ok (SplitExpr (join (js " * ") (map unwrapOuterParens baseParts))
                         (join (js " * ") ruleParts))
  end.

Definition combineBillingExpr (baseExpr requestRuleExpr : jstr) : jstr :=
  let base := trim baseExpr in
  let rules := trim requestRuleExpr in
  match base, rules with
  | [], _ => []
  | _, [] => base
  | _, _ => js "(" ++ base ++ js ") * " ++ rules
  end.

(** ** The editor's constructors and options *)
Definition createEmptyCondition : param_cond := ParamCond Src_param [] MATCH_EQ [].

Definition createEmptyTimeCondition : time_cond :=
  TimeCond T_hour (js "Asia/Shanghai") MATCH_GTE [] [] [].

Definition createEmptyRuleGroup : rule_group :=
  RuleGroup [RC_param createEmptyCondition] [] None None.

Definition createEmptyTimeRuleGroup : rule_group :=
  RuleGroup [RC_time createEmptyTimeCondition] [] None None.

(** The options of a source: the value and the label of each. *)
Definition getRequestRuleMatchOptions (source : jstr) : list (jstr * jstr) :=
  if bool_decide (source = SOURCE_TIME) then
    [(MATCH_EQ, js "Equals"); (MATCH_GTE, js "Greater than or equal");
     (MATCH_LT, js "Less than"); (MATCH_RANGE, js "Overnight range")]
  else
    let base := [(MATCH_EQ, js "Equals"); (MATCH_CONTAINS, js "Contains");
                 (MATCH_EXISTS, js "Exists")] in
    if bool_decide (source = SOURCE_HEADER) then base
    else base ++ [(MATCH_GT, js "Greater than"); (MATCH_GTE, js "Greater than or equal");
                  (MATCH_LT, js "Less than"); (MATCH_LTE, js "Less than or equal")].

(** A condition any of whose properties may be missing. *)
Record partial_condition := PartialCondition {
  pc_source : option jstr;
  pc_timeFunc : option jstr;
  pc_timezone : option jstr;
  pc_path : option jstr;
  pc_mode : option jstr;
  pc_value : option jstr;
  pc_rangeStart : option jstr;
  pc_rangeEnd : option jstr;
}.

Definition isTimeFunc (value : option jstr) : option time_function :=
  v ← value; List.find (fun f => bool_decide (time_text f = v)) TIME_FUNCTIONS.

(** [mode], when it is one of the options of the source, else the fallback. *)
Definition normal_mode (source : jstr) (mode : option jstr) (fallback : jstr) : jstr :=
  match mode with
  | Some m => if existsb (fun o => bool_decide (fst o = m)) (getRequestRuleMatchOptions source)
              then m else fallback
  | None => fallback
  end.

(** [value || fallback] *)
Definition or_else (value : option jstr) (fallback : jstr) : jstr :=
  match value with Some ((_ :: _) as v) => v | _ => fallback end.

Definition normalizeCondition (cond : option partial_condition) : request_condition :=
  let get (f : partial_condition -> option jstr) :=
    match cond with Some c => f c | None => None end in
  if bool_decide (get pc_source = Some (js "time")) then
    RC_time (TimeCond (default T_hour (isTimeFunc (get pc_timeFunc)))
      (or_else (get pc_timezone) (js "Asia/Shanghai"))
      (normal_mode SOURCE_TIME (get pc_mode) MATCH_GTE)
      (default [] (get pc_value)) (default [] (get pc_rangeStart)) (default [] (get pc_rangeEnd)))
  else
    let source := if bool_decide (get pc_source = Some (js "header")) then Src_header else Src_param in
    RC_param (ParamCond source (or_else (get pc_path) [])
      (normal_mode (source_text source) (get pc_mode) MATCH_EQ) (default [] (get pc_value))).

(** ** Building expressions *)
Definition buildExprLiteral (mode value : jstr) : jstr :=
  let text := trim value in
  if bool_decide (mode = MATCH_CONTAINS) then json_stringify text
  else if bool_decide (text = js "true") || bool_decide (text = js "false") then text
  else if numeric_literal text then text
  else json_stringify text.

Definition partial_time (c : time_cond) : partial_condition :=
  PartialCondition (Some (js "time")) (Some (time_text (tq_timeFunc c))) (Some (tq_timezone c))
    None (Some (tq_mode c)) (Some (tq_value c)) (Some (tq_rangeStart c)) (Some (tq_rangeEnd c)).

Definition partial_param (c : param_cond) : partial_condition :=
  PartialCondition (Some (source_text (pq_source c))) None None (Some (pq_path c))
    (Some (pq_mode c)) (Some (pq_value c)) None None.

Definition build_normal_time (c : time_cond) : jstr :=
  let fn := time_text (tq_timeFunc c) ++ js "(" ++ json_stringify (tq_timezone c) ++ js ")" in
  if bool_decide (tq_mode c = MATCH_RANGE) then
    let s := trim (tq_rangeStart c) in
    let e := trim (tq_rangeEnd c) in
    if negb (isTimeValueInRange (tq_timeFunc c) s) || negb (isTimeValueInRange (tq_timeFunc c) e)
    then []
    else
      let operator := if n_ltb (to_number e) (to_number s) then js " || " else js " && " in
      fn ++ js " >= " ++ s ++ operator ++ fn ++ js " < " ++ e
  else
    let v := trim (tq_value c) in
    if negb (isTimeValueInRange (tq_timeFunc c) v) then []
    else
      let op := if bool_decide (tq_mode c = MATCH_GTE) then js " >= "
                else if bool_decide (tq_mode c = MATCH_LT) then js " < " else js " == " in
      fn ++ op ++ v.

Definition buildTimeConditionExpr (cond : time_cond) : jstr :=
  match normalizeCondition (Some (partial_time cond)) with
  | RC_time c => build_normal_time c
  | RC_param _ => []
  end.

Definition compare_text (mode : jstr) : option jstr :=
  if bool_decide (mode = MATCH_GT) then Some (js " > ")
  else if bool_decide (mode = MATCH_GTE) then Some (js " >= ")
  else if bool_decide (mode = MATCH_LT) then Some (js " < ")
  else if bool_decide (mode = MATCH_LTE) then Some (js " <= ")
  else None.

Definition build_normal_param (c : param_cond) : jstr :=
  match trim (pq_path c) with
  | [] => []
  | path =>
      let sourceExpr := source_text (pq_source c) ++ js "(" ++ json_stringify path ++ js ")" in
      let literal := buildExprLiteral (pq_mode c) (pq_value c) in
      let contains := js "has(" ++ sourceExpr ++ js ", " ++ literal ++ js ")" in
      if bool_decide (pq_mode c = MATCH_EXISTS) then
        match pq_source c with
        | Src_header => sourceExpr ++ js " != " ++ [34; 34]
        | Src_param => sourceExpr ++ js " != nil"
        end
      else if bool_decide (pq_mode c = MATCH_CONTAINS) then
        match pq_source c with
        | Src_header => contains
        | Src_param => sourceExpr ++ js " != nil && " ++ contains
        end
      else
        match compare_text (pq_mode c) with
        | Some op =>
            let numText := trim (pq_value c) in
            if negb (numeric_literal numText) then []
            else sourceExpr ++ js " != nil && " ++ sourceExpr ++ op ++ numText
        | None => sourceExpr ++ js " == " ++ literal
        end
  end.

Definition buildRequestConditionExpr (cond : request_condition) : jstr :=
  match cond with
  | RC_time c => buildTimeConditionExpr c
  | RC_param c =>
      match normalizeCondition (Some (partial_param c)) with
      | RC_param c => build_normal_param c
      | RC_time _ => []
      end
  end.

Definition wrap_disjunction (e : jstr) : jstr :=
  if includes (js " || ") e then js "(" ++ e ++ js ")" else e.

Definition buildRuleGroupFactor (group : rule_group) : jstr :=
  let multiplier := trim (rg_multiplier group) in
  if negb (numeric_literal multiplier) then [] else
  match List.filter nonempty (map buildRequestConditionExpr (rg_conditions group)) with
  | [] => []
  | condExprs =>
      let combined := match condExprs with
                      | [e] => e
                      | _ => join (js " && ") (map wrap_disjunction condExprs)
                      end in
      js "(" ++ combined ++ js " ? " ++ multiplier ++ js " : 1)"
  end.

Definition buildRequestRuleExpr (groups : list rule_group) : jstr :=
  join (js " * ") (List.filter nonempty (map buildRuleGroupFactor groups)).
