(* ===== verification/RuleText.v ===== *)
(** * The texts request rules are made of

    Lemmas on the scanners of [RequestRules] and on the top-level splitter of
    [Structure], for text assembled from names, quoted strings, numbers and
    brackets: a scanner returns the piece that was put in, and the splitter
    finds exactly the operators that were put between the pieces. *)
From Stdlib Require Import SpecFloat.
From stdpp Require Import strings.
From S2P Require Import Prelude JsString JsNumber JsValue JsJson Syntax ParserFacts NumberText.
From S2P Require Import Structure RequestRules.

#[local] Open Scope Z_scope.

(** ** Scanners *)
Lemma strip_app p s : strip p (p ++ s) = Some s.
Proof. unfold strip. by rewrite starts_with_app, drop_app_length. Qed.

Lemma strip_some p s r : strip p s = Some r -> s = p ++ r.
Proof.
  unfold strip. destruct (starts_with p s) eqn:E; [|done]. intros [= <-].
  apply starts_with_spec in E as [t ->]. by rewrite drop_app_length.
Qed.

Lemma scan_class_stop f a c b : Forall (fun c => f c = true) a -> a <> [] -> f c = false ->
  scan_class f (a ++ c :: b) = Some (a, c :: b).
Proof. intros Ha Hn Hc. unfold scan_class. rewrite span_while_stop by done. by destruct a. Qed.

Lemma scan_class_end f a : Forall (fun c => f c = true) a -> a <> [] -> scan_class f a = Some (a, []).
Proof. intros Ha Hn. unfold scan_class. rewrite span_while_end by done. by destruct a. Qed.

(** Text without quotes, backslashes, controls and surrogates is its own JSON
    body. *)
Definition plain_char (c : Z) : bool :=
  (32 <=? c) && negb (c =? 34) && negb (c =? 92) && negb (high_surrogate c) && negb (low_surrogate c).

Notation plain s := (Forall (fun c => plain_char c = true) s).

Lemma plain_stringify s : plain s -> json_stringify s = 34 :: s ++ [34].
Proof.
  intros H. unfold json_stringify. do 2 f_equal. induction H as [|c s Hc _ IH]; [done|].
  unfold plain_char in Hc. bsplit. cbn [json_body].
  match goal with H : high_surrogate c = false |- _ => rewrite H end.
  match goal with H : low_surrogate c = false |- _ => rewrite H end.
  unfold json_char. rewrite (proj2 (Z.eqb_neq c 34)), (proj2 (Z.eqb_neq c 92)) by done. simpl orb.
  rewrite !(proj2 (Z.eqb_neq c _)) by lia. rewrite (proj2 (Z.ltb_ge c 32)) by done. by rewrite IH.
Qed.

Lemma plain_no_quote s : plain s -> Forall (fun c => negb (c =? 34) = true) s.
Proof. apply Forall_impl. unfold plain_char. intros c H. bsplit. apply negb_true_iff. by apply Z.eqb_neq. Qed.

Lemma scan_argument_app name path rest : plain path -> path <> [] ->
  scan_argument name (name ++ [40; 34] ++ path ++ [34; 41] ++ rest) = Some (path, rest).
Proof.
  intros Hp Hne. unfold scan_argument. rewrite app_assoc, strip_app. cbn [mbind option_bind].
  change ([34; 41] ++ rest) with (34 :: 41 :: rest).
  rewrite scan_class_stop by (done || by apply plain_no_quote). cbn [mbind option_bind].
  change (34 :: 41 :: rest) with ([34; 41] ++ rest). by rewrite strip_app.
Qed.

Definition probe (f : time_function) (zone : jstr) : jstr :=
  time_text f ++ [40; 34] ++ zone ++ [34; 41].

Lemma scan_time_probe_app f zone rest : plain zone -> zone <> [] ->
  scan_time_probe (probe f zone ++ rest) = Some (f, zone, rest).
Proof.
  intros Hp Hne. pose proof (scan_argument_app (time_text f) zone rest Hp Hne) as H.
  unfold probe. rewrite <- !app_assoc. destruct f; cbv [scan_time_probe TIME_FUNCTIONS]; rewrite H || idtac;
    try done; cbn [time_text] in *.
  all: repeat match goal with |- context [scan_argument ?n ?s] =>
    first [rewrite H | replace (scan_argument n s) with (@None (jstr * jstr)) by reflexivity] end; done.
Qed.

Notation numeric s := (Forall (fun c => number_class c = true) s).

Lemma num_char_class c : num_char c = number_class c.
Proof. unfold num_char, number_class, is_exp_mark, is_sign. by rewrite <- !orb_assoc. Qed.

Lemma numeric_literal_chars s : numeric_literal s = true -> numeric s /\ s <> [].
Proof.
  unfold numeric_literal. intros H.
  assert (forall t, match scan_number t with Some (_, []) => true | _ => false end = true ->
    numeric t /\ t <> []) as Hs.
  { intros t Ht. destruct (scan_number t) as [[d [|]]|] eqn:E; try done.
    pose proof (scan_number_chars _ _ _ E) as Hc. pose proof (scan_number_text _ _ _ E) as Et.
    pose proof (scan_number_nonempty _ _ _ E). rewrite app_nil_r in Et. rewrite <- Et in *.
    split; [|done]. revert Hc. apply Forall_impl. intros c. by rewrite num_char_class. }
  destruct s as [|c s]; [done|]. destruct (Z.eqb_spec c 45) as [->|Hc]; [|by apply Hs].
  apply Hs in H as [H _]. split; [|done]. by constructor.
Qed.

Lemma numeric_outer s : numeric s -> no_outer_space s = true.
Proof.
  intros H. apply num_chars_outer. revert H. apply Forall_impl. intros c. by rewrite num_char_class.
Qed.

(** ** The splitter *)

(** The run of the splitter over [s] from a depth and a quote state, when no
    character at depth 0 satisfies [bad] and the depth stays non-negative. *)
Fixpoint quiet (bad : Z -> bool) (s : jstr) (d : Z) (q : quote_state) : option (Z * quote_state) :=
  match s with
  | [] => Some (d, q)
  | c :: s1 =>
      match q with
      | Q_escaped quote => quiet bad s1 d (Q_in quote)
      | Q_in quote => quiet bad s1 d (quoted_step quote c)
      | Q_none =>
          if is_quote c then quiet bad s1 d (Q_in c)
          else
            let d := bracket_depth c d in
            if (d <? 0) || ((d =? 0) && bad c) then None else quiet bad s1 d Q_none
      end
  end.

Lemma quiet_app bad s1 s2 d q :
  quiet bad (s1 ++ s2) d q = ('(d, q) ← quiet bad s1 d q; quiet bad s2 d q).
Proof.
  revert d q. induction s1 as [|c s1 IH]; intros d q; [done|].
  cbn [app quiet]. destruct q; [|apply IH|apply IH]. destruct (is_quote c); [apply IH|].
  destruct ((bracket_depth c d <? 0) || _); [done|apply IH].
Qed.

Lemma bracket_shift c d : bracket_depth c (d + 1) = bracket_depth c d + 1.
Proof. unfold bracket_depth. destruct (is_open c), (is_close c); lia. Qed.

(** Inside one more pair of brackets nothing is at depth 0. *)
Lemma quiet_inside bad bad' s d q d' q' : quiet bad s d q = Some (d', q') ->
  quiet bad' s (d + 1) q = Some (d' + 1, q').
Proof.
  revert d q. induction s as [|c s IH]; intros d q; cbn [quiet]; [by intros [= <- <-]|].
  destruct q; [|apply IH|apply IH]. destruct (is_quote c); [apply IH|].
  rewrite bracket_shift. destruct (Z.ltb_spec (bracket_depth c d) 0) as [|H]; [done|].
  rewrite (proj2 (Z.ltb_ge (bracket_depth c d + 1) 0)), (proj2 (Z.eqb_neq (bracket_depth c d + 1) 0)) by lia. cbn [orb andb].
  destruct (_ && _); [done|]. apply IH.
Qed.

Definition ordinary (bad : Z -> bool) (c : Z) : bool :=
  negb (is_quote c) && negb (is_open c) && negb (is_close c) && negb (bad c).

Lemma quiet_ordinary bad s d : 0 <= d -> Forall (fun c => ordinary bad c = true) s ->
  quiet bad s d Q_none = Some (d, Q_none).
Proof.
  intros Hd. induction 1 as [|c s Hc _ IH]; cbn [quiet]; [done|]. unfold ordinary in Hc. bsplit.
  match goal with H : is_quote c = false |- _ => rewrite H end.
  unfold bracket_depth. do 2 match goal with H : is_open c = false |- _ => rewrite H | H : is_close c = false |- _ => rewrite H end.
  match goal with H : bad c = false |- _ => rewrite H end. rewrite andb_false_r, orb_false_r.
  by rewrite (proj2 (Z.ltb_ge _ _)).
Qed.

Lemma quiet_in_char bad c s d : c <> 34 -> c <> 92 ->
  quiet bad (c :: s) d (Q_in 34) = quiet bad s d (Q_in 34).
Proof.
  intros H1 H2. cbn [quiet]. unfold quoted_step. by rewrite (proj2 (Z.eqb_neq c 92)), (proj2 (Z.eqb_neq c 34)).
Qed.

Lemma hex_char_other d : 0 <= d < 16 -> hex_char d <> 34 /\ hex_char d <> 92.
Proof. unfold hex_char. destruct (Z.ltb_spec d 10); lia. Qed.

Lemma quiet_escape bad c s d : quiet bad (unicode_escape c ++ s) d (Q_in 34) = quiet bad s d (Q_in 34).
Proof.
  unfold unicode_escape. cbn [app]. cbn [quiet]. change (quoted_step 34 92) with (Q_escaped 34). cbv iota.
  repeat match goal with |- context [hex_char (?x mod 16)] =>
    destruct (hex_char_other (x mod 16) (Z.mod_pos_bound x 16 ltac:(lia)));
    generalize dependent (hex_char (x mod 16)); intros end.
  unfold quoted_step. by repeat (rewrite (proj2 (Z.eqb_neq _ 92)), (proj2 (Z.eqb_neq _ 34)) by done; cbv iota).
Qed.

Lemma quiet_json_char bad c s d : quiet bad (json_char c ++ s) d (Q_in 34) = quiet bad s d (Q_in 34).
Proof.
  unfold json_char. destruct ((c =? 34) || (c =? 92)) eqn:E1; [done|]. bsplit.
  repeat match goal with |- context [if c =? ?k then _ else _] => destruct (c =? k); [done|] end.
  destruct (c <? 32); [apply quiet_escape|]. by apply quiet_in_char.
Qed.

Lemma quiet_body bad s r d : quiet bad (json_body s ++ r) d (Q_in 34) = quiet bad r d (Q_in 34).
Proof.
  apply (json_body_ind (fun s b => quiet bad (b ++ r) d (Q_in 34) = quiet bad r d (Q_in 34))); clear s.
  - done.
  - intros c e s Hc He IH. unfold high_surrogate, low_surrogate in *. bsplit.
    cbn [app]. by rewrite !quiet_in_char by lia.
  - intros c s _ IH. by rewrite <- app_assoc, quiet_escape.
  - intros c s _ IH. by rewrite <- app_assoc, quiet_json_char.
Qed.

(** A JSON string is passed over. *)
Lemma quiet_string bad s d : quiet bad (json_stringify s) d Q_none = Some (d, Q_none).
Proof.
  unfold json_stringify. cbn [quiet]. change (is_quote 34) with true. cbv iota. by rewrite quiet_body.
Qed.

(** What the splitter must not meet at the top level. *)
Definition splits (h c : Z) : bool := (c =? 63) || (c =? h).

Lemma split_quiet h op s r part d q d' q' : quiet (splits h) s d q = Some (d', q') ->
  split_loop (h :: op) (s ++ r) 0 part d q = split_loop (h :: op) r 0 (part ++ s) d' q'.
Proof.
  revert d q part. induction s as [|c s IH]; intros d q part; cbn [quiet app].
  { intros [= <- <-]. by rewrite app_nil_r. }
  intros H. replace (part ++ c :: s) with ((part ++ [c]) ++ s) by by rewrite <- app_assoc.
  cbn [split_loop]. destruct q; [|by apply IH|by apply IH]. destruct (is_quote c); [by apply IH|].
  destruct ((bracket_depth c d <? 0) || _) eqn:E; [done|]. bsplit.
  destruct (Z.eqb_spec (bracket_depth c d) 0) as [Ed|Ed]; simpl negb; cbv iota; [|by apply IH].
  simpl andb in *. unfold splits in *. bsplit.
  rewrite (proj2 (Z.eqb_neq c 63)) by done. simpl starts_with.
  rewrite (proj2 (Z.eqb_neq h c)) by done. simpl andb. cbv iota. by apply IH.
Qed.

Lemma trim_spaces a b s : Forall (fun c => is_space c = true) a -> Forall (fun c => is_space c = true) b ->
  no_outer_space s = true -> s <> [] -> trim (a ++ s ++ b) = s.
Proof.
  intros Ha Hb Hs Hne. unfold no_outer_space in Hs. bsplit.
  assert (forall p t, Forall (fun c => is_space c = true) p -> match t with [] => true | c :: _ => negb (is_space c) end = true ->
    drop_while is_space (p ++ t) = t) as Hd.
  { intros p t Hp Ht. induction Hp as [|c p Hc _ IH]; simpl; [by apply drop_while_id|by rewrite Hc]. }
  unfold trim, trim_end, trim_start. rewrite Hd; [|done|by destruct s].
  rewrite rev_app_distr, Hd; [apply rev_involutive|by apply Forall_rev|].
  destruct (rev s) eqn:E; [|done]. by apply (f_equal (@rev Z)) in E; rewrite rev_involutive in E.
Qed.

(** A text the splitter leaves whole. *)
Record piece (h : Z) (t : jstr) : Prop := {
  pc_quiet : quiet (splits h) t 0 Q_none = Some (0, Q_none);
  pc_outer : no_outer_space t = true;
  pc_nonempty : t <> [];
}.

Definition spaced (op : jstr) : jstr := 32 :: op ++ [32].

(** A character that can head a separator. *)
Record separator (h : Z) : Prop := {
  sp_quote : is_quote h = false;
  sp_depth : bracket_depth h 0 = 0;
  sp_other : h <> 63 /\ h <> 32;
}.

Lemma split_space h op r part : separator h ->
  split_loop (h :: op) (32 :: r) 0 part 0 Q_none = split_loop (h :: op) r 0 (part ++ [32]) 0 Q_none.
Proof.
  intros [_ _ [_ H]]. apply (split_quiet h op [32] r part 0 Q_none 0 Q_none). cbn [quiet].
  change (is_quote 32) with false. change (bracket_depth 32 0) with 0. unfold splits.
  change (32 =? 63) with false. by rewrite (proj2 (Z.eqb_neq 32 h)) by done.
Qed.

Lemma split_operator h op r part : separator h ->
  split_loop (h :: op) ((h :: op) ++ r) 0 part 0 Q_none
  = cons (trim part) <$> split_loop (h :: op) r 0 [] 0 Q_none.
Proof.
  intros [H1 H2 [H3 _]]. cbn [app split_loop]. rewrite H1, H2. change (negb (0 =? 0)) with false. cbv iota.
  rewrite (proj2 (Z.eqb_neq h 63)) by done.
  change (h :: op ++ r) with ((h :: op) ++ r). rewrite starts_with_app. cbv iota. f_equal.
  cbn [length]. rewrite Nat.sub_succ, Nat.sub_0_r, split_skip. by rewrite drop_app_length.
Qed.

Lemma split_joined h op ts lead : lead = [] \/ lead = [32] -> ts <> [] -> Forall (piece h) ts ->
  separator h -> split_loop (h :: op) (join (spaced (h :: op)) ts) 0 lead 0 Q_none = Some ts.
Proof.
  intros Hlead Hne Hts Hh. revert lead Hlead. induction Hts as [|t ts [H1 H2 H3] Hts IH]; intros lead Hlead; [done|].
  assert (Forall (fun c => is_space c = true) lead) as Hl by (destruct Hlead as [-> | ->]; repeat constructor).
  destruct ts as [|t' ts].
  - cbn [join]. rewrite <- (app_nil_r t) at 1. rewrite (split_quiet h op t [] lead 0 Q_none 0 Q_none H1).
    cbn [split_loop]. rewrite <- (app_nil_r t) at 1. by rewrite trim_spaces.
  - change (join (spaced (h :: op)) (t :: t' :: ts)) with (t ++ spaced (h :: op) ++ join (spaced (h :: op)) (t' :: ts)).
    rewrite (split_quiet h op t _ lead 0 Q_none 0 Q_none H1).
    set (rest := join (spaced (h :: op)) (t' :: ts)) in *.
    change (spaced (h :: op) ++ rest) with (32 :: ((h :: op) ++ [32]) ++ rest).
    rewrite split_space, <- app_assoc, split_operator by done.
    rewrite <- app_assoc, trim_spaces by (done || by repeat constructor).
    change ([32] ++ rest) with (32 :: rest). rewrite split_space by done. cbn [app].
    by rewrite (IH ltac:(done) [32] ltac:(by right)).
Qed.

(** Joined pieces are split into the pieces. *)
Lemma split_pieces h op ts : ts <> [] -> Forall (piece h) ts -> separator h ->
  splitExpressionAtTopLevel (join (spaced (h :: op)) ts) (h :: op) = ts.
Proof.
  intros Hne Hts Hh. unfold splitExpressionAtTopLevel.
  rewrite (split_joined h op ts [] (or_introl eq_refl) Hne Hts Hh).
  clear Hne. induction Hts as [|t ts [_ _ Ht] _ IH]; simpl; [done|]. rewrite IH. by destruct t.
Qed.
