(* ===== verification/RuleFacts.v ===== *)
(** * Request rules read back as they were built

    The editor's well-formed rule groups survive [buildRequestRuleExpr]
    followed by [tryParseRequestRuleExpr]; an expression combined from a price
    and rules is split into the same two; and the forms that do not survive. *)
From Stdlib Require Import SpecFloat.
From stdpp Require Import strings.
From S2P Require Import Prelude JsString JsNumber JsValue JsJson Syntax ParserFacts NumberText.
From S2P Require Import Compile Structure RequestRules RuleText.

#[local] Open Scope Z_scope.

(** ** Well-formed conditions *)
Definition plainb (s : jstr) : bool := nonempty s && forallb plain_char s.

Definition same_text (a b : jstr) : bool := bool_decide (a = b).

Definition wf_time (c : time_cond) : bool :=
  let inside := isTimeValueInRange (tq_timeFunc c) in
  plainb (tq_timezone c) &&
  (if same_text (tq_mode c) MATCH_RANGE
   then same_text (tq_value c) [] && inside (tq_rangeStart c) && inside (tq_rangeEnd c)
   else (same_text (tq_mode c) MATCH_EQ || same_text (tq_mode c) MATCH_GTE
         || same_text (tq_mode c) MATCH_LT)
        && inside (tq_value c) && same_text (tq_rangeStart c) [] && same_text (tq_rangeEnd c) []).

(** The forms of parameter and header conditions the reader knows. *)
Definition wf_param (c : param_cond) : bool :=
  plainb (pq_path c) && no_outer_space (pq_path c) && no_outer_space (pq_value c)
  && forallb (fun u => (0 <=? u) && (u <? 65536)) (pq_value c)
  && (same_text (pq_mode c) MATCH_EXISTS && same_text (pq_value c) []
      || same_text (pq_mode c) MATCH_CONTAINS && bool_decide (pq_source c = Src_header)
      || same_text (pq_mode c) MATCH_EQ
         && forallb (fun u => negb (u =? 8232) && negb (u =? 8233)) (pq_value c)).

Definition wf_condition (c : request_condition) : bool :=
  match c with RC_time c => wf_time c | RC_param c => wf_param c end.

(** ** The text of a condition *)
Definition overnight (c : request_condition) : bool :=
  match c with
  | RC_time c => same_text (tq_mode c) MATCH_RANGE
                 && n_ltb (to_number (tq_rangeEnd c)) (to_number (tq_rangeStart c))
  | RC_param _ => false
  end.

Definition time_probe (c : time_cond) : jstr := probe (tq_timeFunc c) (tq_timezone c).

Definition scalar_op (mode : jstr) : jstr :=
  if same_text mode MATCH_GTE then js " >= " else if same_text mode MATCH_LT then js " < " else js " == ".

Definition time_expr (c : time_cond) : jstr :=
  if same_text (tq_mode c) MATCH_RANGE then
    time_probe c ++ js " >= " ++ tq_rangeStart c
    ++ (if overnight (RC_time c) then js " || " else js " && ")
    ++ time_probe c ++ js " < " ++ tq_rangeEnd c
  else time_probe c ++ scalar_op (tq_mode c) ++ tq_value c.

Definition source_call (c : param_cond) : jstr :=
  source_text (pq_source c) ++ [40; 34] ++ pq_path c ++ [34; 41].

Definition param_expr (c : param_cond) : jstr :=
  if same_text (pq_mode c) MATCH_EXISTS then
    source_call c ++ js " != " ++ match pq_source c with Src_header => [34; 34] | Src_param => js "nil" end
  else if same_text (pq_mode c) MATCH_CONTAINS then
    js "has(" ++ source_call c ++ js ", " ++ json_stringify (pq_value c) ++ js ")"
  else source_call c ++ js " == " ++ buildExprLiteral MATCH_EQ (pq_value c).

Definition cond_expr (c : request_condition) : jstr :=
  match c with RC_time c => time_expr c | RC_param c => param_expr c end.

(** ** The pieces of a conjunction *)
Definition parts (c : request_condition) : list jstr :=
  match c with
  | RC_param _ => [cond_expr c]
  | RC_time tc =>
      if same_text (tq_mode tc) MATCH_RANGE then
        if overnight c then [js "(" ++ cond_expr c ++ js ")"]
        else [time_probe tc ++ js " >= " ++ tq_rangeStart tc; time_probe tc ++ js " < " ++ tq_rangeEnd tc]
      else [cond_expr c]
  end.

Notation and_sep := (js " && ").
Notation times_sep := (js " * ").

Lemma plainb_spec s : plainb s = true -> plain s /\ s <> [].
Proof.
  unfold plainb. intros H. bsplit. split; [|by destruct s].
  apply Forall_elem. intros c Hc. apply list_elem_of_In in Hc.
  match goal with H : forallb _ _ = true |- _ => rewrite forallb_forall in H; by apply H end.
Qed.

Lemma in_range_text f v : isTimeValueInRange f v = true -> numeric v /\ v <> [] /\ trim v = v.
Proof.
  unfold isTimeValueInRange. destruct (numeric_literal v) eqn:E; [|done]. intros _.
  apply numeric_literal_chars in E as [H1 H2]. split_and!; [done|done|]. by apply trim_id, numeric_outer.
Qed.

Lemma probe_json f zone : plain zone ->
  time_text f ++ js "(" ++ json_stringify zone ++ js ")" = probe f zone.
Proof. intros H. rewrite plain_stringify by done. unfold probe. by rewrite <- app_comm_cons, <- app_assoc. Qed.

Lemma isTimeFunc_text f : isTimeFunc (Some (time_text f)) = Some f.
Proof. by destruct f. Qed.

Lemma wf_time_inv c : wf_time c = true ->
  let inside := isTimeValueInRange (tq_timeFunc c) in
  plain (tq_timezone c) /\ tq_timezone c <> [] /\
  ((tq_mode c = MATCH_RANGE /\ tq_value c = [] /\ inside (tq_rangeStart c) = true /\ inside (tq_rangeEnd c) = true) \/
   ((tq_mode c = MATCH_EQ \/ tq_mode c = MATCH_GTE \/ tq_mode c = MATCH_LT) /\
    inside (tq_value c) = true /\ tq_rangeStart c = [] /\ tq_rangeEnd c = [])).
Proof.
  unfold wf_time, same_text. intros H. apply andb_true_split in H as [Hz H].
  apply plainb_spec in Hz as [Hz Hzn]. cbv zeta. split_and!; [done|done|].
  case_bool_decide; bsplit; [left; by split_and!|right].
  split_and!; try done. repeat match goal with H : _ || _ = true |- _ => apply orb_true_iff in H as [H|H] end; bsplit; tauto.
Qed.

Lemma normalize_time c : wf_time c = true -> normalizeCondition (Some (partial_time c)) = RC_time c.
Proof.
  intros H. apply wf_time_inv in H as (_ & Hzn & Hm). unfold normalizeCondition, partial_time.
  cbn -[bool_decide default isTimeFunc or_else normal_mode]. rewrite bool_decide_eq_true_2 by done.
  rewrite isTimeFunc_text. cbn [default].
  assert (or_else (Some (tq_timezone c)) (js "Asia/Shanghai") = tq_timezone c) as ->
    by (unfold or_else; by destruct (tq_timezone c)).
  assert (normal_mode SOURCE_TIME (Some (tq_mode c)) MATCH_GTE = tq_mode c) as ->.
  { destruct Hm as [(-> & _)|([-> |[-> | ->]] & _)]; reflexivity. }
  by destruct c.
Qed.

Lemma build_time_expr c : wf_time c = true -> buildTimeConditionExpr c = time_expr c.
Proof.
  intros H. unfold buildTimeConditionExpr. rewrite normalize_time by done.
  apply wf_time_inv in H as (Hz & _ & Hm). unfold build_normal_time, time_expr, overnight, time_probe, same_text.
  rewrite probe_json by done. destruct Hm as [(Em & _ & Hs & He)|(Em & Hv & _)].
  - rewrite (bool_decide_eq_true_2 _ Em).
    rewrite (proj2 (proj2 (in_range_text _ _ Hs))), (proj2 (proj2 (in_range_text _ _ He))), Hs, He. simpl orb.
    cbv iota. simpl andb. by destruct (n_ltb _ _).
  - assert (tq_mode c <> MATCH_RANGE) as Hr by (destruct Em as [-> |[-> | ->]]; discriminate).
    rewrite (bool_decide_eq_false_2 _ Hr). by rewrite (proj2 (proj2 (in_range_text _ _ Hv))), Hv.
Qed.

Lemma wf_param_inv c : wf_param c = true ->
  plain (pq_path c) /\ pq_path c <> [] /\ trim (pq_path c) = pq_path c /\ trim (pq_value c) = pq_value c /\
  code_units (pq_value c) /\
  ((pq_mode c = MATCH_EXISTS /\ pq_value c = []) \/
   (pq_mode c = MATCH_CONTAINS /\ pq_source c = Src_header) \/
   (pq_mode c = MATCH_EQ /\ forallb (fun u => negb (u =? 8232) && negb (u =? 8233)) (pq_value c) = true)).
Proof.
  unfold wf_param, same_text. intros H. apply andb_true_split in H as [H Hm].
  bsplit. match goal with H : plainb _ = true |- _ => apply plainb_spec in H as [Hp Hpn] end.
  split_and!; [done|done|by apply trim_id|by apply trim_id| |].
  - apply Forall_elem. intros u Hu. apply list_elem_of_In in Hu.
    match goal with H : forallb _ _ = true |- _ => rewrite forallb_forall in H; apply H in Hu end. bsplit. lia.
  - repeat match goal with H : _ || _ = true |- _ => apply orb_true_iff in H as [H|H] end; bsplit; tauto.
Qed.

Lemma normalize_param c : wf_param c = true -> normalizeCondition (Some (partial_param c)) = RC_param c.
Proof.
  intros H. apply wf_param_inv in H as (_ & Hpn & _ & _ & _ & Hm). unfold normalizeCondition, partial_param.
  cbn -[bool_decide default isTimeFunc or_else normal_mode source_text].
  rewrite bool_decide_eq_false_2 by (by destruct (pq_source c)).
  assert ((if bool_decide (Some (source_text (pq_source c)) = Some (js "header")) then Src_header else Src_param)
    = pq_source c) as -> by (by destruct (pq_source c)).
  assert (or_else (Some (pq_path c)) [] = pq_path c) as -> by (unfold or_else; by destruct (pq_path c)).
  assert (normal_mode (source_text (pq_source c)) (Some (pq_mode c)) MATCH_EQ = pq_mode c) as ->.
  { destruct Hm as [(-> & _)|[(-> & ->)|(-> & _)]]; by destruct (pq_source c). }
  by destruct c.
Qed.

Lemma build_param_expr c : wf_param c = true -> buildRequestConditionExpr (RC_param c) = param_expr c.
Proof.
  intros H. cbn [buildRequestConditionExpr]. rewrite normalize_param by done.
  apply wf_param_inv in H as (Hp & Hpn & Htp & Htv & _ & Hm).
  unfold build_normal_param, param_expr, source_call, same_text. rewrite Htp.
  destruct (pq_path c) as [|p0 path] eqn:Ep; [done|]. rewrite <- Ep in *. cbv zeta.
  assert (source_text (pq_source c) ++ js "(" ++ json_stringify (pq_path c) ++ js ")"
    = source_text (pq_source c) ++ [40; 34] ++ pq_path c ++ [34; 41]) as ->.
  { rewrite plain_stringify by done. f_equal. by rewrite <- app_comm_cons, <- app_assoc. }
  destruct Hm as [(-> & _)|[(-> & ->)|(-> & _)]].
  - rewrite bool_decide_eq_true_2 by done. by destruct (pq_source c).
  - rewrite bool_decide_eq_false_2, bool_decide_eq_true_2 by done.
    unfold buildExprLiteral. by rewrite Htv.
  - done.
Qed.

Lemma build_cond_expr c : wf_condition c = true -> buildRequestConditionExpr c = cond_expr c.
Proof. destruct c as [c|c]; [apply build_time_expr|apply build_param_expr]. Qed.

(** ** The pieces pass the splitter *)
Notation still s := (quiet (splits 38) s 0 Q_none = Some (0, Q_none)).

Lemma still_app a b : still a -> still b -> still (a ++ b).
Proof. intros Ha Hb. rewrite quiet_app, Ha. exact Hb. Qed.

Lemma still_words s : forallb (ordinary (splits 38)) s = true -> still s.
Proof.
  intros H. apply quiet_ordinary; [done|]. apply Forall_elem. intros c Hc. apply list_elem_of_In in Hc.
  rewrite forallb_forall in H. by apply H.
Qed.

Lemma still_string s : still (json_stringify s).
Proof. apply quiet_string. Qed.

Lemma still_numeric s : numeric s -> still s.
Proof.
  intros H. apply quiet_ordinary; [done|]. revert H. apply Forall_impl. intros c H.
  unfold number_class, is_digit in H. unfold ordinary, is_quote, is_open, is_close, splits.
  repeat (rewrite ?orb_true_iff, ?andb_true_iff in H). rewrite !andb_true_iff, !negb_true_iff, !orb_false_iff. lia.
Qed.

Lemma still_paren s : still s -> still (js "(" ++ s ++ js ")").
Proof.
  intros H. rewrite !quiet_app. change (quiet (splits 38) (js "(") 0 Q_none) with (Some (1, Q_none)).
  cbn [mbind option_bind]. pose proof (quiet_inside _ (splits 38) _ _ _ _ _ H) as H'.
  change (0 + 1) with 1 in H'. by rewrite quiet_app, H'.
Qed.

Lemma still_probe f zone : plain zone -> still (probe f zone).
Proof.
  intros Hz. rewrite <- probe_json by done. apply still_app; [destruct f; by apply still_words|].
  apply still_paren, still_string.
Qed.

Lemma still_call c : plain (pq_path c) -> still (source_call c).
Proof.
  intros Hp. unfold source_call.
  replace ([40; 34] ++ pq_path c ++ [34; 41]) with (js "(" ++ json_stringify (pq_path c) ++ js ")")
    by (rewrite plain_stringify by done; by rewrite <- app_comm_cons, <- app_assoc).
  apply still_app; [by destruct (pq_source c); apply still_words|apply still_paren, still_string].
Qed.

Lemma still_literal mode v : still (buildExprLiteral mode v).
Proof.
  unfold buildExprLiteral. destruct (bool_decide (mode = MATCH_CONTAINS)); [apply still_string|].
  destruct (_ || _) eqn:E; [apply orb_true_iff in E as [E|E]; bsplit; rewrite E; by apply still_words|].
  destruct (numeric_literal (trim v)) eqn:En; [|apply still_string].
  apply still_numeric. by apply numeric_literal_chars in En as [? _].
Qed.

(** Text between a first and a last character that are not spaces. *)
Lemma outer_app a m b : a <> [] -> b <> [] -> no_outer_space a = true -> no_outer_space b = true ->
  no_outer_space (a ++ m ++ b) = true.
Proof.
  intros Ha Hb H1 H2. unfold no_outer_space in *. bsplit. apply andb_true_iff. split; [by destruct a|].
  rewrite !rev_app_distr. destruct (rev b) eqn:E; [|done].
  apply (f_equal (@rev Z)) in E. by rewrite rev_involutive in E.
Qed.

Lemma outer_probe f zone : no_outer_space (probe f zone) = true /\ probe f zone <> [].
Proof.
  unfold probe. split; [|by destruct f]. rewrite app_assoc.
  replace ((time_text f ++ [40; 34]) ++ zone ++ [34; 41]) with (time_text f ++ ([40; 34] ++ zone ++ [34]) ++ [41])
    by (by rewrite <- !app_assoc).
  apply outer_app; [by destruct f|done|by destruct f|done].
Qed.

Lemma still_compare f zone op v : plain zone -> forallb (ordinary (splits 38)) op = true -> numeric v -> v <> [] ->
  piece 38 (probe f zone ++ op ++ v).
Proof.
  intros Hz Hop Hv Hn. destruct (outer_probe f zone) as [H1 H2]. constructor.
  - apply still_app; [by apply still_probe|]. apply still_app; [by apply still_words|by apply still_numeric].
  - apply outer_app; [done|done|done|by apply numeric_outer].
  - by destruct (probe f zone).
Qed.

Lemma outer_call c : no_outer_space (source_call c) = true /\ source_call c <> [].
Proof.
  unfold source_call. split; [|by destruct (pq_source c)].
  replace (source_text (pq_source c) ++ [40; 34] ++ pq_path c ++ [34; 41])
    with (source_text (pq_source c) ++ ([40; 34] ++ pq_path c ++ [34]) ++ [41]) by (by rewrite <- !app_assoc).
  apply outer_app; [by destruct (pq_source c)|done|by destruct (pq_source c)|done].
Qed.

Lemma outer_string s : no_outer_space (json_stringify s) = true /\ json_stringify s <> [].
Proof.
  split; [|done]. unfold json_stringify. change (34 :: json_body s ++ [34]) with ([34] ++ json_body s ++ [34]).
  by apply outer_app.
Qed.

Lemma outer_literal mode v : no_outer_space (buildExprLiteral mode v) = true /\ buildExprLiteral mode v <> [].
Proof.
  unfold buildExprLiteral. destruct (bool_decide (mode = MATCH_CONTAINS)); [apply outer_string|].
  destruct (_ || _) eqn:E; [apply orb_true_iff in E as [E|E]; bsplit; by rewrite E|].
  destruct (numeric_literal (trim v)) eqn:En; [|apply outer_string].
  apply numeric_literal_chars in En as [? ?]. split; [by apply numeric_outer|done].
Qed.

Lemma param_piece c : wf_param c = true -> piece 38 (param_expr c).
Proof.
  intros H. apply wf_param_inv in H as (Hp & _ & _ & _ & _ & Hm).
  destruct (outer_call c) as [Ho Hn]. pose proof (still_call c Hp) as Hs. unfold param_expr, same_text.
  destruct Hm as [(-> & _)|[(-> & _)|(-> & _)]].
  - rewrite bool_decide_eq_true_2 by done. constructor; [| |by destruct (source_call c)].
    + apply still_app; [done|]. apply still_app; [by apply still_words|].
      destruct (pq_source c); [by apply still_words|exact (still_string [])].
    + destruct (pq_source c); by apply outer_app.
  - rewrite bool_decide_eq_false_2, bool_decide_eq_true_2 by done.
    assert (js "has(" = js "has" ++ js "(") as -> by done. rewrite <- app_assoc.
    replace (js "(" ++ source_call c ++ js ", " ++ json_stringify (pq_value c) ++ js ")")
      with (js "(" ++ (source_call c ++ js ", " ++ json_stringify (pq_value c)) ++ js ")") by (by rewrite <- !app_assoc).
    constructor; [| |done].
    + apply still_app; [by apply still_words|]. apply still_paren. apply still_app; [done|].
      apply still_app; [by apply still_words|apply still_string].
    + rewrite app_assoc. by apply outer_app.
  - rewrite !bool_decide_eq_false_2 by done. destruct (outer_literal MATCH_EQ (pq_value c)) as [? ?].
    constructor; [|by apply outer_app|by destruct (source_call c)].
    apply still_app; [done|]. apply still_app; [by apply still_words|apply still_literal].
Qed.

Lemma parts_pieces c : wf_condition c = true -> Forall (piece 38) (parts c).
Proof.
  destruct c as [c|c]; intros H; [|by apply Forall_cons; [apply param_piece|apply Forall_nil]].
  cbn [wf_condition] in H. pose proof (wf_time_inv c H) as (Hz & _ & Hm). cbn [parts cond_expr]. unfold time_expr, time_probe, same_text.
  destruct Hm as [(Em & _ & Hs & He)|(Em & Hv & _)].
  - rewrite (bool_decide_eq_true_2 _ Em).
    destruct (in_range_text _ _ Hs) as (Hs1 & Hs2 & _). destruct (in_range_text _ _ He) as (He1 & He2 & _).
    assert (piece 38 (probe (tq_timeFunc c) (tq_timezone c) ++ js " >= " ++ tq_rangeStart c)) as P1 by by apply still_compare.
    assert (piece 38 (probe (tq_timeFunc c) (tq_timezone c) ++ js " < " ++ tq_rangeEnd c)) as P2 by by apply still_compare.
    destruct (overnight (RC_time c)); [|by apply Forall_cons, Forall_cons, Forall_nil].
    apply Forall_cons; [|by apply Forall_nil].
    destruct P1 as [Q1 _ _], P2 as [Q2 _ _]. constructor; [|by apply outer_app|done].
    apply still_paren. set (u := probe (tq_timeFunc c) (tq_timezone c)) in *.
    replace (u ++ js " >= " ++ tq_rangeStart c ++ js " || " ++ u ++ js " < " ++ tq_rangeEnd c)
      with ((u ++ js " >= " ++ tq_rangeStart c) ++ js " || " ++ (u ++ js " < " ++ tq_rangeEnd c))
      by (by rewrite <- !app_assoc).
    apply still_app; [exact Q1|]. apply still_app; [by apply still_words|exact Q2].
  - assert (tq_mode c <> MATCH_RANGE) as Hr by (destruct Em as [-> |[-> | ->]]; discriminate).
    rewrite (bool_decide_eq_false_2 _ Hr). destruct (in_range_text _ _ Hv) as (Hv1 & Hv2 & _).
    apply Forall_cons; [|by apply Forall_nil]. apply still_compare; [done| |done|done].
    by destruct Em as [-> |[-> | ->]].
Qed.

(** ** Reading time conditions *)
Definition stops (r : jstr) : Prop := match r with [] => True | c :: _ => number_class c = false end.

Lemma scan_number_stop v r : numeric v -> v <> [] -> stops r -> scan_number_class (v ++ r) = Some (v, r).
Proof.
  intros Hv Hn Hr. unfold scan_number_class. destruct r as [|c r]; [rewrite app_nil_r; by apply scan_class_end|].
  by apply scan_class_stop.
Qed.

Lemma strip_paren_probe f zone r : strip (js "(") (probe f zone ++ r) = None.
Proof. by destruct f. Qed.

(** The operator of a scalar comparison and what follows it. *)
Definition scan_scalar_op (s : jstr) : option (jstr * jstr) :=
  match strip (js " == ") s with
  | Some s => Some (MATCH_EQ, s)
  | None =>
      match strip (js " >= ") s with
      | Some s => Some (MATCH_GTE, s)
      | None => (fun s => (MATCH_LT, s)) <$> strip (js " < ") s
      end
  end.

Lemma scan_scalar_op_app mode s : mode = MATCH_EQ \/ mode = MATCH_GTE \/ mode = MATCH_LT ->
  scan_scalar_op (scalar_op mode ++ s) = Some (mode, s).
Proof. intros [-> |[-> | ->]]; reflexivity. Qed.

Section Range.
Context (f : time_function) (zone : jstr) (Hz : plain zone) (Hzn : zone <> []).

Lemma scan_range a b sep r : (sep = js " && " \/ sep = js " || ") -> numeric a -> a <> [] ->
  numeric b -> b <> [] -> stops r ->
  scan_time_range (probe f zone ++ js " >= " ++ a ++ sep ++ probe f zone ++ js " < " ++ b ++ r)
  = Some (f, zone, a, b, r).
Proof using Hz Hzn.
  intros Hsep Ha Han Hb Hbn Hr. unfold scan_time_range. rewrite scan_time_probe_app by done.
  cbn [mbind option_bind]. rewrite strip_app. cbn [mbind option_bind].
  rewrite scan_number_stop by (done || by destruct Hsep as [-> | ->]). cbn [mbind option_bind].
  assert (forall s, match strip (js " && ") (sep ++ s) with Some s => Some s | None => strip (js " || ") (sep ++ s) end = Some s) as ->.
  { intros s. destruct Hsep as [-> | ->]; [by rewrite strip_app|]. rewrite strip_app. done. }
  cbn [mbind option_bind].
  replace (probe f zone ++ js " < " ++ b ++ r)
    with ((time_text f ++ [40; 34] ++ zone ++ [34; 41] ++ js " < ") ++ b ++ r)
    by (unfold probe; by rewrite <- !app_assoc).
  rewrite strip_app. cbn [mbind option_bind]. by rewrite scan_number_stop.
Qed.

Lemma scan_range_scalar op v r : op = js " == " \/ op = js " >= " \/ op = js " < " -> numeric v -> v <> [] ->
  (op = js " >= " -> forall s, strip (js " && ") r <> Some (probe f zone ++ js " < " ++ s)) ->
  (forall s, strip (js " || ") r <> Some s) -> stops r ->
  scan_time_range (probe f zone ++ op ++ v ++ r) = None.
Proof using Hz Hzn.
  intros Hop Hv Hvn H1 H2 Hr. unfold scan_time_range. rewrite scan_time_probe_app by done. cbn [mbind option_bind].
  destruct Hop as [-> |[-> | ->]]; [done| |done].
  rewrite strip_app. cbn [mbind option_bind]. rewrite scan_number_stop by done. cbn [mbind option_bind].
  destruct (strip (js " && ") r) as [s|] eqn:E; [|destruct (strip (js " || ") r) as [s|] eqn:E2; [by destruct (H2 s)|done]].
  cbn [mbind option_bind].
  destruct (strip (time_text f ++ [40; 34] ++ zone ++ [34; 41] ++ js " < ") s) as [s'|] eqn:E'; [|done].
  apply strip_some in E' as ->. destruct (H1 eq_refl s'). f_equal. unfold probe. by rewrite <- !app_assoc.
Qed.

Lemma scan_scalar mode v : mode = MATCH_EQ \/ mode = MATCH_GTE \/ mode = MATCH_LT -> numeric v -> v <> [] ->
  scan_time_scalar (probe f zone ++ scalar_op mode ++ v) = Some (f, zone, mode, v).
Proof using Hz Hzn.
  intros Hm Hv Hvn. unfold scan_time_scalar. rewrite scan_time_probe_app by done. cbn [mbind option_bind].
  fold (scan_scalar_op (scalar_op mode ++ v)). rewrite scan_scalar_op_app by done. cbn [mbind option_bind].
  assert (scan_number_class v = Some (v, [])) as -> by by apply scan_class_end. done.
Qed.

Lemma scan_scalar_more mode v r : mode = MATCH_EQ \/ mode = MATCH_GTE \/ mode = MATCH_LT -> numeric v -> v <> [] ->
  stops r -> r <> [] -> scan_time_scalar (probe f zone ++ scalar_op mode ++ v ++ r) = None.
Proof using Hz Hzn.
  intros Hm Hv Hvn Hc Hr. unfold scan_time_scalar. rewrite scan_time_probe_app by done. cbn [mbind option_bind].
  fold (scan_scalar_op (scalar_op mode ++ v ++ r)). rewrite scan_scalar_op_app by done. cbn [mbind option_bind].
  rewrite scan_number_stop by done. by destruct r.
Qed.
End Range.

Definition scalar (f : time_function) (zone mode v : jstr) : time_cond := TimeCond f zone mode v [] [].

Lemma scalar_op_cases mode : mode = MATCH_EQ \/ mode = MATCH_GTE \/ mode = MATCH_LT ->
  scalar_op mode = js " == " \/ scalar_op mode = js " >= " \/ scalar_op mode = js " < ".
Proof. intros [-> |[-> | ->]]; [by left|right; by left|right; by right]. Qed.

Lemma parse_scalar f zone mode v : plain zone -> zone <> [] ->
  mode = MATCH_EQ \/ mode = MATCH_GTE \/ mode = MATCH_LT -> isTimeValueInRange f v = true ->
  tryParseTimeCondition (probe f zone ++ scalar_op mode ++ v) = Some (scalar f zone mode v).
Proof.
  intros Hz Hzn Hm Hv. destruct (in_range_text f v Hv) as (H1 & H2 & _).
  unfold tryParseTimeCondition, match_time_range.
  rewrite <- (app_nil_r v) at 1. rewrite (scan_range_scalar f zone Hz Hzn) by (done || by apply scalar_op_cases).
  rewrite strip_paren_probe. cbn [mbind option_bind]. by rewrite scan_scalar, Hv.
Qed.

Lemma parse_range c : wf_time c = true -> tq_mode c = MATCH_RANGE ->
  tryParseTimeCondition (time_expr c) = Some c /\
  tryParseTimeCondition (js "(" ++ time_expr c ++ js ")") = Some c.
Proof.
  intros H Em. apply wf_time_inv in H as (Hz & Hzn & [(_ & Ev & Hs & He)|([E|[E|E]] & _)]); [|by rewrite Em in E..].
  destruct (in_range_text _ _ Hs) as (Hs1 & Hs2 & _). destruct (in_range_text _ _ He) as (He1 & He2 & _).
  unfold time_expr, same_text, time_probe. rewrite (bool_decide_eq_true_2 _ Em).
  assert (forall r, stops r -> scan_time_range ((probe (tq_timeFunc c) (tq_timezone c) ++ js " >= " ++ tq_rangeStart c
     ++ (if overnight (RC_time c) then js " || " else js " && ")
     ++ probe (tq_timeFunc c) (tq_timezone c) ++ js " < " ++ tq_rangeEnd c) ++ r)
    = Some (tq_timeFunc c, tq_timezone c, tq_rangeStart c, tq_rangeEnd c, r)) as Hscan.
  { intros r Hr. rewrite <- !app_assoc. apply scan_range; try done. destruct (overnight _); auto. }
  assert (c = TimeCond (tq_timeFunc c) (tq_timezone c) MATCH_RANGE [] (tq_rangeStart c) (tq_rangeEnd c)) as Ec
    by (destruct c; simpl in *; by subst).
  unfold tryParseTimeCondition, match_time_range. split.
  - specialize (Hscan [] I). rewrite app_nil_r in Hscan. rewrite Hscan, Hs, He. simpl. by rewrite <- Ec.
  - assert (forall t, scan_time_range (js "(" ++ t) = None) as -> by done.
    rewrite strip_app. cbn [mbind option_bind]. rewrite (Hscan (js ")") eq_refl).
    rewrite bool_decide_eq_true_2, Hs, He by done. simpl. by rewrite <- Ec.
Qed.

(** ** Reading parameter and header conditions *)
Lemma scan_quoted_plain c s : c <> 34 -> c <> 92 ->
  scan_quoted (c :: s) = ('(t, r) ← scan_quoted s; Some (c :: t, r)).
Proof. intros H1 H2. cbn [scan_quoted]. by rewrite (proj2 (Z.eqb_neq c 34)), (proj2 (Z.eqb_neq c 92)). Qed.

Lemma scan_quoted_escape c s :
  scan_quoted (unicode_escape c ++ s) = ('(t, r) ← scan_quoted s; Some (unicode_escape c ++ t, r)).
Proof.
  unfold unicode_escape. cbn [app]. cbn [scan_quoted]. change (92 =? 34) with false. change (92 =? 92) with true.
  change (line_terminator 117) with false. cbv iota.
  repeat match goal with |- context [hex_char (?x mod 16)] =>
    destruct (hex_char_other (x mod 16) (Z.mod_pos_bound x 16 ltac:(lia)));
    generalize dependent (hex_char (x mod 16)); intros end.
  repeat (rewrite (proj2 (Z.eqb_neq _ 34)), (proj2 (Z.eqb_neq _ 92)) by done; cbv iota).
  by destruct (scan_quoted s) as [[t r]|].
Qed.

Lemma scan_quoted_char c s :
  scan_quoted (json_char c ++ s) = ('(t, r) ← scan_quoted s; Some (json_char c ++ t, r)).
Proof.
  unfold json_char. destruct ((c =? 34) || (c =? 92)) eqn:E1.
  { apply orb_true_iff in E1 as [E|E]; bsplit; subst c; reflexivity. }
  bsplit. repeat match goal with |- context [if c =? ?k then _ else _] => destruct (c =? k); [reflexivity|] end.
  destruct (c <? 32); [apply scan_quoted_escape|]. by apply scan_quoted_plain.
Qed.

Lemma scan_quoted_body s r : scan_quoted (json_body s ++ 34 :: r) = Some (json_body s ++ [34], r).
Proof.
  apply (json_body_ind (fun s b => scan_quoted (b ++ 34 :: r) = Some (b ++ [34], r))); clear s.
  - done.
  - intros c e s Hc He IH. unfold high_surrogate, low_surrogate in *. bsplit. cbn [app].
    by rewrite !scan_quoted_plain, IH by lia.
  - intros c s _ IH. by rewrite <- app_assoc, scan_quoted_escape, IH, <- app_assoc.
  - intros c s _ IH. by rewrite <- app_assoc, scan_quoted_char, IH, <- app_assoc.
Qed.

Lemma scan_string_json v r : scan_string_literal (json_stringify v ++ r) = Some (json_stringify v, r).
Proof.
  unfold scan_string_literal, json_stringify. rewrite <- app_comm_cons, <- app_assoc.
  change (34 :: json_body v ++ [34] ++ r) with ([34] ++ json_body v ++ 34 :: r). rewrite strip_app.
  cbn [mbind option_bind]. by rewrite scan_quoted_body.
Qed.

Definition no_lines (s : jstr) : bool := forallb (fun c => negb (line_terminator c)) s.

Lemma no_lines_app a b : no_lines (a ++ b) = no_lines a && no_lines b.
Proof. apply forallb_app. Qed.

Lemma no_lines_escape c : no_lines (unicode_escape c) = true.
Proof.
  unfold no_lines, unicode_escape. cbn [forallb]. change (line_terminator 92) with false. change (line_terminator 117) with false.
  assert (forall x, line_terminator (hex_char (x mod 16)) = false) as H.
  { intros x. pose proof (Z.mod_pos_bound x 16 ltac:(lia)). unfold line_terminator, hex_char.
    destruct (Z.ltb_spec (x mod 16) 10); repeat (apply orb_false_iff; split); lia. }
  by rewrite !H.
Qed.

Lemma no_lines_body v : forallb (fun u => negb (u =? 8232) && negb (u =? 8233)) v = true -> no_lines (json_body v) = true.
Proof.
  apply (json_body_ind (fun v b => forallb (fun u => negb (u =? 8232) && negb (u =? 8233)) v = true -> no_lines b = true)); clear v.
  - done.
  - intros c e s Hc He IH H. cbn [forallb] in H. unfold high_surrogate, low_surrogate in *. bsplit.
    cbn [no_lines forallb]. fold (no_lines (json_body s)). rewrite IH by done. unfold line_terminator.
    rewrite !andb_true_iff, !negb_true_iff, !orb_false_iff. lia.
  - intros c s _ IH H. cbn [forallb] in H. apply andb_true_split in H as [_ H]. by rewrite no_lines_app, no_lines_escape, IH.
  - intros c s _ IH H. cbn [forallb] in H. apply andb_true_split in H as [Hc H]. rewrite no_lines_app, IH by done.
    rewrite andb_true_r. bsplit. unfold json_char.
    destruct ((c =? 34) || (c =? 92)) eqn:E1; [apply orb_true_iff in E1 as [E|E]; bsplit; by subst c|].
    repeat match goal with |- context [if c =? ?k then _ else _] => destruct (Z.eqb_spec c k); [reflexivity|] end.
    destruct (c <? 32); [apply no_lines_escape|]. cbn. unfold line_terminator.
    rewrite andb_true_r, negb_true_iff, !orb_false_iff. lia.
Qed.

Lemma numeric_no_lines s : numeric s -> no_lines s = true.
Proof.
  intros H. apply forallb_forall. intros c Hc. apply list_elem_of_In in Hc. rewrite Forall_elem in H. apply H in Hc.
  unfold number_class, is_digit, line_terminator in *. repeat (rewrite ?orb_true_iff, ?andb_true_iff in Hc).
  rewrite negb_true_iff, !orb_false_iff. lia.
Qed.

(** A literal of an equality reads back as its text. *)
Lemma literal_reads v : trim v = v -> code_units v ->
  forallb (fun u => negb (u =? 8232) && negb (u =? 8233)) v = true ->
  parseExprLiteral (buildExprLiteral MATCH_EQ v) = Some (J_str v) /\
  no_lines (buildExprLiteral MATCH_EQ v) = true.
Proof.
  intros Ht Hu Hl. unfold buildExprLiteral. rewrite Ht, bool_decide_eq_false_2 by done.
  destruct (bool_decide (v = js "true") || bool_decide (v = js "false")) eqn:E.
  { unfold parseExprLiteral. rewrite Ht, E. split; [done|]. apply orb_true_iff in E as [E|E]; bsplit; by subst v. }
  destruct (numeric_literal v) eqn:En.
  { unfold parseExprLiteral. rewrite Ht, E, En. split; [done|]. apply numeric_no_lines.
    by apply numeric_literal_chars in En as [? _]. }
  split.
  - unfold parseExprLiteral. rewrite trim_id by by apply outer_string.
    assert (bool_decide (json_stringify v = js "true") || bool_decide (json_stringify v = js "false") = false) as ->
      by (by rewrite !bool_decide_eq_false_2).
    assert (numeric_literal (json_stringify v) = false) as -> by done. by rewrite json_roundtrip.
  - unfold json_stringify. change (34 :: json_body v ++ [34]) with ([34] ++ json_body v ++ [34]).
    by rewrite !no_lines_app, no_lines_body.
Qed.

Lemma not_time s : scan_time_probe s = None -> strip (js "(") s = None -> tryParseTimeCondition s = None.
Proof.
  intros H1 H2. unfold tryParseTimeCondition, match_time_range, scan_time_range, scan_time_scalar.
  by rewrite !H1, H2.
Qed.

Lemma param_not_time c r : wf_param c = true -> tryParseTimeCondition (param_expr c ++ r) = None.
Proof.
  intros H. apply wf_param_inv in H as (_ & _ & _ & _ & _ & Hm). unfold param_expr, source_call, same_text.
  destruct Hm as [(-> & _)|[(-> & ->)|(-> & _)]].
  - rewrite bool_decide_eq_true_2 by done. destruct (pq_source c); by apply not_time.
  - rewrite bool_decide_eq_false_2, bool_decide_eq_true_2 by done. by apply not_time.
  - rewrite !bool_decide_eq_false_2 by done. destruct (pq_source c); by apply not_time.
Qed.

Lemma scan_source_call c r : plain (pq_path c) -> pq_path c <> [] ->
  scan_argument (source_text (pq_source c)) (source_call c ++ r) = Some (pq_path c, r).
Proof. intros Hp Hn. unfold source_call. rewrite <- !app_assoc. by apply scan_argument_app. Qed.

Lemma header_not_param c r : pq_source c = Src_header -> scan_argument (js "param") (source_call c ++ r) = None.
Proof. intros E. unfold source_call. by rewrite E. Qed.

Lemma param_not_header c r : pq_source c = Src_param -> scan_argument (js "header") (source_call c ++ r) = None.
Proof. intros E. unfold source_call. by rewrite E. Qed.

Lemma call_not_has c r : strip (js "has(") (source_call c ++ r) = None.
Proof. unfold source_call. by destruct (pq_source c). Qed.

Lemma parse_exists c : wf_param c = true -> pq_mode c = MATCH_EXISTS ->
  tryParseRequestCondition (param_expr c) = Ok (Some (RC_param c)).
Proof.
  intros H Em. unfold tryParseRequestCondition. rewrite <- (app_nil_r (param_expr c)), param_not_time, app_nil_r by done.
  apply wf_param_inv in H as (Hp & Hn & _ & _ & _ & [(_ & Ev)|[(E & _)|(E & _)]]); [|by rewrite Em in E..].
  unfold param_expr, same_text. rewrite (bool_decide_eq_true_2 _ Em). unfold match_exists.
  assert (c = ParamCond (pq_source c) (pq_path c) MATCH_EXISTS []) as Ec by (destruct c; simpl in *; by subst).
  destruct (pq_source c) eqn:Es.
  - rewrite param_not_header by done. change (js "param") with (source_text Src_param). rewrite <- Es, scan_source_call by done.
    rewrite bool_decide_eq_true_2 by done. rewrite Es. by rewrite <- Ec.
  - change (js "header") with (source_text Src_header). rewrite <- Es, scan_source_call by done.
    rewrite bool_decide_eq_true_2 by done. rewrite Es. by rewrite <- Ec.
Qed.

Lemma parse_contains c : wf_param c = true -> pq_mode c = MATCH_CONTAINS ->
  tryParseRequestCondition (param_expr c) = Ok (Some (RC_param c)).
Proof.
  intros H Em. unfold tryParseRequestCondition. rewrite <- (app_nil_r (param_expr c)), param_not_time, app_nil_r by done.
  apply wf_param_inv in H as (Hp & Hn & _ & _ & Hu & [(E & _)|[(_ & Es)|(E & _)]]); [by rewrite Em in E| |by rewrite Em in E].
  unfold param_expr, same_text. rewrite Em, bool_decide_eq_false_2, bool_decide_eq_true_2 by done.
  assert (c = ParamCond Src_header (pq_path c) MATCH_CONTAINS (pq_value c)) as Ec by (destruct c; simpl in *; by subst).
  assert (forall s, match_exists (js "has(" ++ s) = None) as -> by done.
  unfold match_has. rewrite strip_app. cbn [mbind option_bind]. rewrite <- Es at 1. rewrite scan_source_call by done.
  cbn [mbind option_bind]. rewrite strip_app. cbn [mbind option_bind]. rewrite scan_string_json.
  cbn [mbind option_bind]. rewrite bool_decide_eq_true_2 by done. unfold parse_json_string.
  rewrite json_roundtrip by done. cbn [js_to_string rbind]. by rewrite <- Ec.
Qed.

Lemma parse_equals c : wf_param c = true -> pq_mode c = MATCH_EQ ->
  tryParseRequestCondition (param_expr c) = Ok (Some (RC_param c)).
Proof.
  intros H Em. unfold tryParseRequestCondition. rewrite <- (app_nil_r (param_expr c)), param_not_time, app_nil_r by done.
  apply wf_param_inv in H as (Hp & Hn & _ & Htv & Hu & [(E & _)|[(E & _)|(_ & Hl)]]); [by rewrite Em in E..|].
  unfold param_expr, same_text. rewrite Em, !bool_decide_eq_false_2 by done.
  assert (c = ParamCond (pq_source c) (pq_path c) MATCH_EQ (pq_value c)) as Ec by (destruct c; simpl in *; by subst).
  destruct (literal_reads _ Htv Hu Hl) as [Hlit Hlines]. destruct (outer_literal MATCH_EQ (pq_value c)) as [_ Hne].
  set (lit := buildExprLiteral MATCH_EQ (pq_value c)) in *. clearbody lit.
  assert (match_exists (source_call c ++ js " == " ++ lit) = None) as ->.
  { unfold match_exists. destruct (pq_source c) eqn:Es.
    - rewrite param_not_header by done. change (js "param") with (source_text Src_param). by rewrite <- Es, scan_source_call.
    - change (js "header") with (source_text Src_header). by rewrite <- Es, scan_source_call. }
  assert (match_has Src_header (source_call c ++ js " == " ++ lit) = None) as -> by (unfold match_has; by rewrite call_not_has).
  assert (match_present (source_call c ++ js " == " ++ lit) = None) as Hpres.
  { unfold match_present. destruct (pq_source c) eqn:Es; [|by rewrite header_not_param].
    change (js "param") with (source_text Src_param). by rewrite <- Es, scan_source_call. }
  unfold match_present_has, match_present_compare. rewrite Hpres. cbn [mbind option_bind].
  unfold parse_equal, match_equal.
  assert (match scan_argument (js "param") (source_call c ++ js " == " ++ lit) with
    | Some (path, s) => Some (Src_param, path, s)
    | None => (fun '(path, s) => (Src_header, path, s)) <$> scan_argument (js "header") (source_call c ++ js " == " ++ lit)
    end = Some (pq_source c, pq_path c, js " == " ++ lit)) as ->.
  { destruct (pq_source c) eqn:Es.
    - change (js "param") with (source_text Src_param). by rewrite <- Es, scan_source_call.
    - rewrite header_not_param by done. change (js "header") with (source_text Src_header). by rewrite <- Es, scan_source_call. }
  cbn [mbind option_bind]. rewrite strip_app. cbn [mbind option_bind].
  destruct lit as [|l0 lit]; [done|]. fold (no_lines (l0 :: lit)). rewrite Hlines, Hlit. cbn. by rewrite <- Ec.
Qed.

Lemma parse_param c : wf_param c = true -> tryParseRequestCondition (param_expr c) = Ok (Some (RC_param c)).
Proof.
  intros H. pose proof (wf_param_inv c H) as (_ & _ & _ & _ & _ & [(E & _)|[(E & _)|(E & _)]]);
    [by apply parse_exists|by apply parse_contains|by apply parse_equals].
Qed.

(** ** Conjunctions *)

(** Two adjacent conditions the reader takes for one range. *)
Definition merges (a b : request_condition) : bool :=
  match a, b with
  | RC_time a, RC_time b =>
      bool_decide (tq_timeFunc a = tq_timeFunc b) && same_text (tq_timezone a) (tq_timezone b)
      && same_text (tq_mode a) MATCH_GTE && same_text (tq_mode b) MATCH_LT
  | _, _ => false
  end.

Fixpoint apart (cs : list request_condition) : bool :=
  match cs with
  | a :: ((b :: _) as rest) => negb (merges a b) && apart rest
  | _ => true
  end.

(** A group whose text has one reading. *)
Definition wf_group (g : rule_group) : bool :=
  forallb wf_condition (rg_conditions g) && numeric_literal (rg_multiplier g)
  && match rg_conditions g with
     | [] => false
     | [_] => true
     | cs => forallb (fun c => implb (includes (js " || ") (cond_expr c)) (overnight c)) cs && apart cs
     end
  && match rg_conditionText g with None => true | Some _ => false end
  && match rg_matched g with None => true | Some _ => false end.

Lemma parts_nonempty c : exists p ps, parts c = p :: ps.
Proof.
  destruct c as [c|c]; cbn [parts]; [|by eauto]. destruct (same_text _ _); [|by eauto].
  destruct (overnight _); by eauto.
Qed.

Lemma join_cons sep p ps : ps <> [] -> join sep (p :: ps) = p ++ sep ++ join sep ps.
Proof. by destruct ps. Qed.

Lemma join_app sep a b : a <> [] -> b <> [] -> join sep (a ++ b) = join sep a ++ sep ++ join sep b.
Proof.
  intros Ha Hb. induction a as [|p a IH]; [done|]. destruct a as [|p' a].
  - cbn [app]. by rewrite join_cons.
  - specialize (IH ltac:(done)). rewrite <- app_comm_cons, (join_cons sep p (p' :: a)) by done.
    rewrite join_cons, IH by done. by rewrite <- !app_assoc.
Qed.

Lemma join_concat {A} sep (f : A -> list jstr) cs : (forall c, f c <> []) ->
  join sep (concat (map f cs)) = join sep (map (fun c => join sep (f c)) cs).
Proof.
  intros Hf. induction cs as [|c cs IH]; [done|]. cbn [map concat]. destruct cs as [|c' cs]; [simpl; by rewrite app_nil_r|].
  assert (concat (map f (c' :: cs)) <> []) as Hne by (cbn [map concat]; specialize (Hf c'); by destruct (f c')).
  rewrite join_app, IH by done. by rewrite join_cons.
Qed.

Lemma overnight_range tc : overnight (RC_time tc) = true -> tq_mode tc = MATCH_RANGE.
Proof. unfold overnight, same_text. intros H. by bsplit. Qed.

Lemma includes_infix sub a b : includes sub (a ++ sub ++ b) = true.
Proof.
  induction a as [|c a IH]; cbn [app]; [|cbn [includes]; by rewrite IH, orb_true_r].
  destruct (sub ++ b) eqn:E; cbn [includes]; rewrite <- E; by rewrite starts_with_app.
Qed.

(** The text of a condition inside a conjunction is that of its pieces. *)
Lemma wrapped_parts c : implb (includes (js " || ") (cond_expr c)) (overnight c) = true ->
  wrap_disjunction (cond_expr c) = join and_sep (parts c).
Proof.
  intros E. unfold wrap_disjunction.
  assert (includes (js " || ") (cond_expr c) = overnight c) as ->.
  { destruct (overnight c) eqn:Eo; [|by destruct (includes _ _)]. destruct c as [c|c]; [|done].
    cbn [cond_expr]. unfold time_expr, same_text.
    rewrite (bool_decide_eq_true_2 _ (overnight_range c Eo)), Eo.
    rewrite !(app_assoc _ _ (js " || " ++ _)). apply includes_infix. }
  destruct c as [c|c]; [|done]. cbn [parts]. destruct (overnight (RC_time c)) eqn:Eo.
  - unfold same_text. by rewrite (bool_decide_eq_true_2 _ (overnight_range c Eo)).
  - cbn [cond_expr]. unfold time_expr. rewrite Eo. destruct (same_text (tq_mode c) MATCH_RANGE); [|done].
    cbn [join]. by rewrite <- !app_assoc.
Qed.

Lemma param_no_probe c r : wf_param c = true -> scan_time_probe (param_expr c ++ r) = None.
Proof.
  intros H. apply wf_param_inv in H as (_ & _ & _ & _ & _ & Hm). unfold param_expr, source_call, same_text.
  destruct Hm as [(-> & _)|[(-> & ->)|(-> & _)]]; [by destruct (pq_source c)|done|by destruct (pq_source c)].
Qed.

(** What the pieces of a condition start with: a probe and an operator, when
    they start with a probe. *)
Lemma head_probe c r f zone s : wf_condition c = true ->
  scan_time_probe (join and_sep (parts c) ++ r) = Some (f, zone, js " < " ++ s) ->
  exists tc, c = RC_time tc /\ tq_timeFunc tc = f /\ tq_timezone tc = zone /\ tq_mode tc = MATCH_LT.
Proof.
  destruct c as [c|c]; intros H; [|cbn [parts join cond_expr]; by rewrite param_no_probe].
  cbn [wf_condition] in H. apply wf_time_inv in H as (Hz & Hzn & Hm). cbn [parts cond_expr]. unfold time_expr, same_text, time_probe.
  destruct Hm as [(Em & _)|(Em & _)].
  - rewrite (bool_decide_eq_true_2 _ Em). destruct (overnight (RC_time c)); [done|].
    cbn [join]. rewrite <- !app_assoc, scan_time_probe_app by done. done.
  - assert (tq_mode c <> MATCH_RANGE) as Hr by (destruct Em as [-> |[-> | ->]]; discriminate).
    rewrite (bool_decide_eq_false_2 _ Hr). cbn [join]. rewrite <- !app_assoc, scan_time_probe_app by done.
    intros [= <- <- E]. exists c. destruct Em as [Em|[Em|Em]]; [by rewrite Em in E..|done].
Qed.

(** A conjunction that goes on after its first condition is not one time
    condition. *)
Lemma conjunction_not_time c r : wf_condition c = true ->
  (forall tc s, c = RC_time tc -> tq_mode tc = MATCH_GTE -> r <> time_probe tc ++ js " < " ++ s) ->
  tryParseTimeCondition (join and_sep (parts c) ++ and_sep ++ r) = None.
Proof.
  intros H Hr. destruct c as [c|c]; [|by apply param_not_time]. cbn [wf_condition] in H.
  pose proof (wf_time_inv c H) as (Hz & Hzn & Hm). specialize (Hr c). cbn [parts cond_expr].
  unfold time_expr, same_text, time_probe in *. destruct Hm as [(Em & _ & Hs & He)|(Em & Hv & _)].
  - rewrite (bool_decide_eq_true_2 _ Em).
    destruct (in_range_text _ _ Hs) as (Hs1 & Hs2 & _). destruct (in_range_text _ _ He) as (He1 & He2 & _).
    unfold tryParseTimeCondition, match_time_range. destruct (overnight (RC_time c)); cbn [join].
    + rewrite <- (app_assoc (js "(")). assert (forall t, scan_time_range (js "(" ++ t) = None) as -> by done.
      rewrite strip_app. cbn [mbind option_bind]. rewrite <- !app_assoc.
      by rewrite (scan_range _ _ Hz Hzn) by (auto || done).
    + rewrite <- !app_assoc. rewrite (scan_range _ _ Hz Hzn) by (auto || done). rewrite strip_paren_probe.
      cbn [mbind option_bind]. change (js " >= ") with (scalar_op MATCH_GTE).
      by rewrite (scan_scalar_more _ _ Hz Hzn MATCH_GTE) by (auto || done).
  - assert (tq_mode c <> MATCH_RANGE) as Hrange by (destruct Em as [-> |[-> | ->]]; discriminate).
    rewrite (bool_decide_eq_false_2 _ Hrange). destruct (in_range_text _ _ Hv) as (Hv1 & Hv2 & _). cbn [join].
    unfold tryParseTimeCondition, match_time_range. rewrite <- !app_assoc.
    rewrite (scan_range_scalar _ _ Hz Hzn); [|by apply scalar_op_cases|done|done| |done|done].
    + rewrite strip_paren_probe. cbn [mbind option_bind]. by rewrite (scan_scalar_more _ _ Hz Hzn).
    + intros Eop s. rewrite strip_app. intros [= E]. apply (Hr s); [done| |done].
      destruct Em as [Em|[Em|Em]]; [by rewrite Em in Eop|done|by rewrite Em in Eop].
Qed.
