(* ===== verification/RuleRoundtrip.v ===== *)
(** * Rule groups survive building and reading

    From the readings of single conditions ([RuleFacts]): a conjunction is read
    as the conditions it was built from, a factor as its group, a product as
    its groups. *)
From Stdlib Require Import SpecFloat.
From stdpp Require Import strings.
From S2P Require Import Prelude JsString JsNumber JsValue JsJson Syntax ParserFacts NumberText.
From S2P Require Import Compile Structure RequestRules RuleText RuleFacts.

#[local] Open Scope Z_scope.

(** ** Reading the pieces of a condition *)

(** A condition that is one piece, or a range within the day, which is two. *)
Inductive reading (c : request_condition) : list jstr -> Prop :=
| One p : tryParseRequestCondition p = Ok (Some c) ->
    tryParseTimeCondition p = match c with RC_time tc => Some tc | RC_param _ => None end ->
    reading c [p]
| Two lo hi f zone s e : c = RC_time (TimeCond f zone MATCH_RANGE [] s e) ->
    tryParseTimeCondition lo = Some (scalar f zone MATCH_GTE s) ->
    tryParseTimeCondition hi = Some (scalar f zone MATCH_LT e) ->
    reading c [lo; hi].

Lemma time_is_request p tc : tryParseTimeCondition p = Some tc -> tryParseRequestCondition p = Ok (Some (RC_time tc)).
Proof. intros H. unfold tryParseRequestCondition. by rewrite H. Qed.

Lemma parts_read c : wf_condition c = true -> reading c (parts c).
Proof.
  destruct c as [c|c]; intros H; cbn [wf_condition] in H.
  - pose proof (wf_time_inv c H) as (Hz & Hzn & Hm). cbn [parts cond_expr].
    destruct Hm as [(Em & Ev & Hs & He)|(Em & Hv & Es & Ee)]; unfold same_text.
    + rewrite (bool_decide_eq_true_2 _ Em). destruct (overnight (RC_time c)).
      * destruct (parse_range c H Em) as [_ Hp]. apply One; [by apply time_is_request|done].
      * eapply Two; [|by apply (parse_scalar _ _ MATCH_GTE); auto|by apply (parse_scalar _ _ MATCH_LT); auto].
        destruct c; simpl in *; by subst.
    + assert (tq_mode c <> MATCH_RANGE) as Hr by (destruct Em as [-> |[-> | ->]]; discriminate).
      rewrite (bool_decide_eq_false_2 _ Hr).
      assert (tryParseTimeCondition (time_expr c) = Some c) as Hp.
      { unfold time_expr, same_text, time_probe. rewrite (bool_decide_eq_false_2 _ Hr), parse_scalar by done.
        unfold scalar. destruct c; simpl in *; by subst. }
      apply One; [by apply time_is_request|done].
  - apply One; [by apply parse_param|]. cbn [cond_expr]. rewrite <- (app_nil_r (param_expr c)). by apply param_not_time.
Qed.

(** The first piece of a condition does not close a range of the one before,
    unless the two conditions merge. *)
Lemma pair_apart a pa c p ps : reading a [pa] -> reading c (p :: ps) -> merges a c = false ->
  tryParseTimeRangePair pa p = None.
Proof.
  intros Ha Hc Hm. unfold tryParseTimeRangePair. inversion Ha as [? _ Hpa|]; subst. rewrite Hpa.
  destruct a as [a|]; [|done]. inversion Hc as [? _ Hp|? ? f zone s e -> Hlo _]; subst.
  - rewrite Hp. destruct c as [c|]; [|done]. cbn [merges] in Hm. unfold same_text in Hm. by rewrite Hm.
  - rewrite Hlo. cbn [scalar tq_mode]. rewrite (bool_decide_eq_false_2 (MATCH_GTE = MATCH_LT)) by done.
    by rewrite andb_false_r.
Qed.

Lemma pair_within lo hi f zone s e :
  tryParseTimeCondition lo = Some (scalar f zone MATCH_GTE s) ->
  tryParseTimeCondition hi = Some (scalar f zone MATCH_LT e) ->
  tryParseTimeRangePair lo hi = Some (RC_time (TimeCond f zone MATCH_RANGE [] s e)).
Proof. intros H1 H2. unfold tryParseTimeRangePair. rewrite H1, H2. cbn. by rewrite !bool_decide_eq_true_2. Qed.

Lemma piece_trim h p : piece h p -> trim p = p /\ nonempty p = true.
Proof. intros [_ H1 H2]. split; [by apply trim_id|by destruct p]. Qed.

(** ** Reading a conjunction *)
Lemma parse_parts_app cs : forallb wf_condition cs = true -> apart cs = true ->
  parse_parts (concat (map parts cs)) = Ok (Some cs).
Proof.
  induction cs as [|c cs IH]; [done|]. intros Hwf Hap. cbn [forallb] in Hwf. apply andb_true_split in Hwf as [Hc Hcs].
  assert (apart cs = true) as Hap' by (cbn [apart] in Hap; destruct cs; [done|by apply andb_true_split in Hap as [_ ?]]).
  specialize (IH Hcs Hap'). cbn [map concat]. pose proof (parts_pieces c Hc) as Hp.
  pose proof (parts_read c Hc) as Hread. destruct Hread as [p Hq Ht|lo hi f zone s e Ec Hlo Hhi].
  - apply Forall_cons_iff in Hp as [Hp _]. apply piece_trim in Hp as [Htp _]. cbn [app parse_parts].
    rewrite Htp, Hq, IH. cbn [rbind]. destruct (concat (map parts cs)) as [|q qs] eqn:Eq; [done|].
    destruct cs as [|c2 cs]; [done|]. cbn [map concat] in Eq. cbn [forallb] in Hcs. apply andb_true_split in Hcs as [Hc2 _].
    cbn [apart] in Hap. apply andb_true_split in Hap as [Hap _]. apply negb_true_iff in Hap.
    pose proof (parts_pieces c2 Hc2) as Hp2. pose proof (parts_read c2 Hc2) as Hread2.
    destruct (parts_nonempty c2) as (p2 & ps2 & E2). rewrite E2 in *. injection Eq as -> _.
    apply Forall_cons_iff in Hp2 as [Hp2 _]. apply piece_trim in Hp2 as [-> ->].
    by rewrite (pair_apart c p c2 q ps2 (One c p Hq Ht) Hread2 Hap).
  - apply Forall_cons_iff in Hp as [Hp1 Hp2]. apply Forall_cons_iff in Hp2 as [Hp2 _].
    apply piece_trim in Hp1 as [T1 _]. apply piece_trim in Hp2 as [T2 N2]. cbn [app parse_parts].
    rewrite T1, T2, N2, (pair_within _ _ _ _ _ _ Hlo Hhi), IH, Ec. done.
Qed.

Lemma all_pieces cs : forallb wf_condition cs = true -> Forall (piece 38) (concat (map parts cs)).
Proof.
  induction cs as [|c cs IH]; [intros; apply Forall_nil; done|]. cbn [forallb map concat]. intros H.
  apply andb_true_split in H as [Hc Hcs]. apply Forall_app. split; [by apply parts_pieces|by apply IH].
Qed.

Lemma join_pieces h sep ts : ts <> [] -> Forall (piece h) ts -> no_outer_space (join sep ts) = true /\ join sep ts <> [].
Proof.
  intros Hne Hts. induction Hts as [|t ts [_ H1 H2] Hts IH]; [done|]. destruct ts as [|t' ts]; [by split|].
  destruct (IH ltac:(done)) as [H3 H4]. rewrite join_cons by done. split; [by apply outer_app|by destruct t].
Qed.

(** The text of the condition of a group. *)
Definition combined (cs : list request_condition) : jstr :=
  match cs with [c] => cond_expr c | _ => join and_sep (concat (map parts cs)) end.

Lemma single_reads c : wf_condition c = true -> tryParseRequestConditions (cond_expr c) = Ok (Some [c]).
Proof.
  intros H. destruct c as [c|c]; cbn [wf_condition cond_expr] in *.
  - assert (tryParseTimeCondition (time_expr c) = Some c /\ trim (time_expr c) = time_expr c) as [Hp Ht].
    { pose proof (wf_time_inv c H) as (Hz & Hzn & [(Em & _ & Hs & He)|(Em & Hv & Es & Ee)]).
      - split; [by apply parse_range|]. destruct (in_range_text _ _ He) as (He1 & He2 & _).
        destruct (outer_probe (tq_timeFunc c) (tq_timezone c)) as [Ho Hn].
        unfold time_expr, same_text, time_probe. rewrite (bool_decide_eq_true_2 _ Em). apply trim_id.
        set (u := probe _ _) in *. set (w := if overnight _ then _ else _).
        replace (u ++ js " >= " ++ tq_rangeStart c ++ w ++ u ++ js " < " ++ tq_rangeEnd c)
          with (u ++ (js " >= " ++ tq_rangeStart c ++ w ++ u ++ js " < ") ++ tq_rangeEnd c) by (by rewrite <- !app_assoc).
        apply outer_app; [done|done|done|by apply numeric_outer].
      - pose proof (parts_read (RC_time c) H) as Hr. pose proof (parts_pieces (RC_time c) H) as Hp. cbn [parts cond_expr] in *.
        assert (same_text (tq_mode c) MATCH_RANGE = false) as E
          by (unfold same_text; apply bool_decide_eq_false_2; destruct Em as [-> |[-> | ->]]; discriminate).
        rewrite E in *. inversion Hr; subst. apply Forall_cons_iff in Hp as [Hp _]. by apply piece_trim in Hp as [? _]. }
    unfold tryParseRequestConditions. by rewrite Ht, Hp.
  - assert (piece 38 (param_expr c)) as Hp by by apply param_piece. destruct (piece_trim _ _ Hp) as [Ht _].
    unfold tryParseRequestConditions. rewrite Ht, <- (app_nil_r (param_expr c)), param_not_time, app_nil_r by done.
    unfold splitTopLevelAnd. change (js "&&") with (38 :: [38]).
    change (param_expr c) with (join (spaced (38 :: [38])) (concat (map parts [RC_param c]))).
    rewrite split_pieces; [|done|by apply Forall_cons; [|apply Forall_nil]|by constructor].
    rewrite parse_parts_app by (cbn [forallb wf_condition]; by rewrite ?H). done.
Qed.

Lemma several_read c1 c2 cs : forallb wf_condition (c1 :: c2 :: cs) = true -> apart (c1 :: c2 :: cs) = true ->
  tryParseRequestConditions (combined (c1 :: c2 :: cs)) = Ok (Some (c1 :: c2 :: cs)).
Proof.
  intros Hwf Hap. pose proof (all_pieces _ Hwf) as Hps. cbn [combined].
  assert (concat (map parts (c1 :: c2 :: cs)) <> []) as Hne
    by (cbn [map concat]; by destruct (parts_nonempty c1) as (? & ? & ->)).
  unfold tryParseRequestConditions. rewrite (trim_id (join _ _)) by by apply (join_pieces 38).
  assert (tryParseTimeCondition (join and_sep (concat (map parts (c1 :: c2 :: cs)))) = None) as ->.
  { cbn [forallb] in Hwf. apply andb_true_split in Hwf as [H1 Hwf]. apply andb_true_split in Hwf as [H2 _].
    cbn [apart] in Hap. apply andb_true_split in Hap as [Hap _]. apply negb_true_iff in Hap.
    cbn [map concat]. destruct (parts_nonempty c2) as (p2 & ps2 & E2).
    rewrite join_app; [|by destruct (parts_nonempty c1) as (? & ? & ->)|by rewrite E2].
    apply conjunction_not_time; [done|]. intros tc s -> Em Er.
    assert (exists r, join and_sep (parts c2 ++ concat (map parts cs)) = join and_sep (parts c2) ++ r) as [r Ej].
    { destruct (concat (map parts cs)) eqn:Ec; [exists []; by rewrite !app_nil_r|].
      rewrite join_app by (rewrite ?E2; done). by eauto. }
    pose proof (wf_time_inv tc H1) as (Hz & Hzn & _).
    destruct (head_probe c2 r (tq_timeFunc tc) (tq_timezone tc) s H2) as (tc2 & -> & Ef & Ez & Em2).
    { rewrite <- Ej, Er. by apply scan_time_probe_app. }
    revert Hap. cbn [merges]. unfold same_text. by rewrite !bool_decide_eq_true_2. }
  unfold splitTopLevelAnd. change and_sep with (spaced (38 :: [38])). change (js "&&") with (38 :: [38]).
  rewrite split_pieces; [|done|done|by constructor]. by rewrite parse_parts_app.
Qed.

(** ** Factors *)
Definition factor_text (t m : jstr) : jstr := js "(" ++ t ++ js " ? " ++ m ++ js " : 1)".

Lemma cond_expr_nonempty c : cond_expr c <> [].
Proof.
  destruct c as [c|c]; cbn [cond_expr].
  - unfold time_expr, time_probe, probe. destruct (same_text _ _), (tq_timeFunc c); discriminate.
  - unfold param_expr, source_call. destruct (same_text _ _), (pq_source c); [discriminate..| |];
      destruct (same_text _ _); discriminate.
Qed.

Lemma map_wf {A} (f g : request_condition -> A) P cs :
  forallb P cs = true -> (forall c, P c = true -> f c = g c) -> map f cs = map g cs.
Proof.
  intros H Hfg. induction cs as [|c cs IH]; [done|]. cbn [forallb map] in *. apply andb_true_split in H as [Hc Hcs].
  by rewrite Hfg, IH.
Qed.

Lemma built_conditions cs : forallb wf_condition cs = true ->
  List.filter nonempty (map buildRequestConditionExpr cs) = map cond_expr cs.
Proof.
  intros H. rewrite (map_wf _ cond_expr _ _ H build_cond_expr). clear H. induction cs as [|c cs IH]; [done|].
  cbn [map List.filter]. rewrite IH. pose proof (cond_expr_nonempty c). by destruct (cond_expr c).
Qed.

Lemma wf_group_inv g : wf_group g = true -> exists c cs m, g = RuleGroup (c :: cs) m None None /\
  forallb wf_condition (c :: cs) = true /\ numeric_literal m = true /\
  (cs = [] \/ forallb (fun c => implb (includes (js " || ") (cond_expr c)) (overnight c)) (c :: cs) = true /\
              apart (c :: cs) = true).
Proof.
  unfold wf_group. destruct g as [[|c cs] m t b]; cbn [rg_conditions rg_multiplier rg_conditionText rg_matched];
    intros H; repeat match goal with H : _ && _ = true |- _ => apply andb_true_split in H as [H ?] end; [done|].
  exists c, cs, m. destruct t, b; try done. split_and!; [done|done|done|].
  destruct cs as [|c2 cs]; [by left|right].
  by match goal with H : _ && _ = true |- _ => apply andb_true_split in H as [? ?] end.
Qed.

Lemma built_factor c cs m : forallb wf_condition (c :: cs) = true -> numeric_literal m = true ->
  cs = [] \/ forallb (fun c => implb (includes (js " || ") (cond_expr c)) (overnight c)) (c :: cs) = true ->
  buildRuleGroupFactor (RuleGroup (c :: cs) m None None) = factor_text (combined (c :: cs)) m.
Proof.
  intros Hwf Hm Hor. unfold buildRuleGroupFactor. cbn [rg_multiplier rg_conditions].
  assert (trim m = m) as -> by (apply numeric_literal_chars in Hm as [? _]; by apply trim_id, numeric_outer).
  rewrite Hm, built_conditions by done. cbn [negb]. unfold factor_text.
  destruct cs as [|c2 cs]; [done|]. destruct Hor as [?|Hor]; [done|].
  assert (combined (c :: c2 :: cs) = join and_sep (map wrap_disjunction (map cond_expr (c :: c2 :: cs)))) as ->; [|done].
  cbn [combined]. rewrite join_concat by (intros x; by destruct (parts_nonempty x) as (? & ? & ->)).
  f_equal. rewrite List.map_map. symmetry. by apply (map_wf _ _ _ _ Hor wrapped_parts).
Qed.

Lemma strip_rev p s : strip (rev p) (rev (s ++ p)) = Some (rev s).
Proof. rewrite rev_app_distr. apply strip_app. Qed.

Lemma match_factor_text t m : numeric m -> m <> [] -> t <> [] -> match_factor (factor_text t m) = Some (t, m).
Proof.
  intros Hm Hmn Hc. unfold match_factor, factor_text.
  replace (js "(" ++ t ++ js " ? " ++ m ++ js " : 1)")
    with (((js "(" ++ t) ++ js " ? " ++ m) ++ js " : 1)") by (by rewrite <- !app_assoc).
  rewrite strip_rev. cbn [mbind option_bind]. rewrite !rev_app_distr, <- (app_assoc (rev m)).
  assert (forall r, scan_number_class (rev m ++ rev (js " ? ") ++ r) = Some (rev m, rev (js " ? ") ++ r)) as ->.
  { intros r. apply scan_number_stop; [by apply Forall_rev| |done]. intros E. apply Hmn.
    by rewrite <- (rev_involutive m), E. }
  cbn [mbind option_bind]. rewrite strip_app. cbn [mbind option_bind]. rewrite (rev_app_distr (rev t)), !rev_involutive, strip_app.
  cbn [mbind option_bind]. by destruct t.
Qed.

(** ** The product of the factors *)
Notation calm s := (quiet (fun _ => false) s 0 Q_none = Some (0, Q_none)).

Lemma calm_app a b : calm a -> calm b -> calm (a ++ b).
Proof. intros Ha Hb. rewrite quiet_app, Ha. exact Hb. Qed.

Lemma quiet_calm bad s d q d' q' : quiet bad s d q = Some (d', q') -> quiet (fun _ => false) s d q = Some (d', q').
Proof.
  revert d q. induction s as [|c s IH]; intros d q; cbn [quiet]; [done|].
  destruct q; [|apply IH|apply IH]. destruct (is_quote c); [apply IH|]. rewrite andb_false_r, orb_false_r.
  destruct (bracket_depth c d <? 0); [done|]. destruct (_ && _); [done|apply IH].
Qed.

Lemma calm_join h sep ts : calm sep -> Forall (piece h) ts -> calm (join sep ts).
Proof.
  intros Hsep Hts. induction Hts as [|t ts [H _ _] Hts IH]; [done|]. apply quiet_calm in H.
  destruct ts as [|t' ts]; [done|]. rewrite join_cons by done. by apply calm_app, calm_app.
Qed.

Lemma calm_cond c : wf_condition c = true -> calm (cond_expr c).
Proof.
  intros H. pose proof (parts_pieces c H) as Hp.
  destruct (overnight c) eqn:Eo.
  - destruct c as [c|c]; [|done]. cbn [wf_condition cond_expr] in *.
    pose proof (overnight_range c Eo) as Em. apply wf_time_inv in H as (Hz & _ & [(_ & _ & Hs & He)|([E|[E|E]] & _)]); [|by rewrite Em in E..].
    destruct (in_range_text _ _ Hs) as (Hs1 & Hs2 & _). destruct (in_range_text _ _ He) as (He1 & He2 & _).
    unfold time_expr, same_text, time_probe. rewrite (bool_decide_eq_true_2 _ Em), Eo.
    set (u := probe (tq_timeFunc c) (tq_timezone c)).
    replace (u ++ js " >= " ++ tq_rangeStart c ++ js " || " ++ u ++ js " < " ++ tq_rangeEnd c)
      with (join (js " || ") [u ++ js " >= " ++ tq_rangeStart c; u ++ js " < " ++ tq_rangeEnd c])
      by (cbn [join]; by rewrite <- !app_assoc).
    apply (calm_join 38); [done|]. apply Forall_cons; [by apply still_compare|]. apply Forall_cons; [by apply still_compare|].
    by apply Forall_nil.
  - replace (cond_expr c) with (join and_sep (parts c)); [by apply (calm_join 38)|].
    destruct c as [c|c]; [|done]. cbn [parts cond_expr]. unfold time_expr. rewrite Eo.
    destruct (same_text _ _); [|done]. cbn [join]. by rewrite <- !app_assoc.
Qed.

Lemma calm_combined cs : forallb wf_condition cs = true -> calm (combined cs).
Proof.
  intros H. assert (calm (join and_sep (concat (map parts cs)))) as Hj by (apply (calm_join 38); [done|by apply all_pieces]).
  destruct cs as [|c [|c2 cs]]; [done| |done]. cbn [forallb] in H. apply andb_true_split in H as [H _]. by apply calm_cond.
Qed.

Lemma factor_piece t m : calm t -> numeric m -> piece 42 (factor_text t m).
Proof.
  intros Ht Hm. unfold factor_text. constructor; [| |done].
  - assert (calm (t ++ js " ? " ++ m ++ js " : 1")) as Hin.
    { apply calm_app; [done|]. apply calm_app; [done|]. apply calm_app; [|done].
      by apply quiet_calm with (bad := splits 38), still_numeric. }
    apply (quiet_inside _ (splits 42)) in Hin. change (0 + 1) with 1 in Hin.
    replace (js "(" ++ t ++ js " ? " ++ m ++ js " : 1)")
      with (js "(" ++ (t ++ js " ? " ++ m ++ js " : 1") ++ js ")") by (by rewrite <- !app_assoc).
    rewrite quiet_app. change (quiet (splits 42) (js "(") 0 Q_none) with (Some (1, Q_none)). cbn [mbind option_bind].
    by rewrite quiet_app, Hin.
  - replace (js "(" ++ t ++ js " ? " ++ m ++ js " : 1)")
      with (js "(" ++ (t ++ js " ? " ++ m ++ js " : 1") ++ js ")") by (by rewrite <- !app_assoc).
    by apply outer_app.
Qed.

(** A well-formed group has a text that is one piece and reads as the group. *)
Lemma group_factor g : wf_group g = true ->
  piece 42 (buildRuleGroupFactor g) /\ tryParseRuleGroupFactor (buildRuleGroupFactor g) = Ok (Some g).
Proof.
  intros H. apply wf_group_inv in H as (c & cs & m & -> & Hwf & Hm & Hor).
  rewrite built_factor by (done || by destruct Hor as [?|[? _]]; [left|right]).
  apply numeric_literal_chars in Hm as [Hm Hmn]. split; [by apply factor_piece; [apply calm_combined|]|].
  assert (tryParseRequestConditions (combined (c :: cs)) = Ok (Some (c :: cs))) as Hread.
  { destruct cs as [|c2 cs]; [|by destruct Hor as [?|[_ ?]]; [|apply several_read]].
    cbn [combined]. cbn [forallb] in Hwf. apply andb_true_split in Hwf as [Hc _]. by apply single_reads. }
  unfold tryParseRuleGroupFactor. rewrite match_factor_text; [by rewrite Hread|done|done|].
  destruct cs as [|c2 cs]; [apply cond_expr_nonempty|]. cbn [combined].
  apply (join_pieces 38); [|by apply all_pieces]. cbn [map concat]. by destruct (parts_nonempty c) as (? & ? & ->).
Qed.

Lemma built_product gs : Forall (fun g => wf_group g = true) gs ->
  Forall (piece 42) (map buildRuleGroupFactor gs) /\
  buildRequestRuleExpr gs = join times_sep (map buildRuleGroupFactor gs) /\
  parse_factors (map buildRuleGroupFactor gs) = Ok (Some gs).
Proof.
  intros H. assert (Forall (piece 42) (map buildRuleGroupFactor gs) /\
    List.filter nonempty (map buildRuleGroupFactor gs) = map buildRuleGroupFactor gs /\
    parse_factors (map buildRuleGroupFactor gs) = Ok (Some gs)) as (H1 & H2 & H3).
  { induction H as [|g gs Hg _ (IH1 & IH2 & IH3)]; [split_and!; [by apply Forall_nil|done|done]|].
    destruct (group_factor g Hg) as [Hp Hr]. cbn [map List.filter parse_factors]. rewrite IH2, Hr, IH3.
    split_and!; [by apply Forall_cons|by rewrite (proj2 (piece_trim _ _ Hp))|done]. }
  split_and!; [done| |done]. unfold buildRequestRuleExpr. by rewrite H2.
Qed.

Lemma rules_read gs : Forall (fun g => wf_group g = true) gs ->
  tryParseRequestRuleExpr (buildRequestRuleExpr gs) = Ok (Some gs).
Proof.
  intros H. destruct (built_product gs H) as (H1 & -> & H3). destruct gs as [|g gs]; [done|].
  destruct (join_pieces 42 times_sep (map buildRuleGroupFactor (g :: gs))) as [Ho Hn]; [done|done|].
  unfold tryParseRequestRuleExpr. rewrite trim_id by done.
  destruct (join times_sep _) as [|x xs] eqn:E; [done|]. rewrite <- E. unfold splitTopLevelMultiply.
  change times_sep with (spaced (42 :: [])). change (js "*") with (42 :: []).
  by rewrite split_pieces by (done || by constructor).
Qed.

(** C26: rule groups whose text has one reading are read back from the
    expression the editor builds for them, in order and unchanged: conditions
    on time, header and body values, the ranges of a day and across midnight,
    and the multipliers.  Such groups have conditions with values in range and
    paths without escapes, no two neighbouring bounds that form a range, and no
    stray disjunction in a value. *)
Theorem request_rules_roundtrip gs : Forall (fun g => wf_group g = true) gs ->
  tryParseRequestRuleExpr (buildRequestRuleExpr gs) = Ok (Some gs).
Proof. apply rules_read. Qed.

Definition shanghai : jstr := js "Asia/Shanghai".

Definition sample_groups : list rule_group :=
  [RuleGroup [RC_time (TimeCond T_hour shanghai MATCH_RANGE [] (js "21") (js "6"));
              RC_time (TimeCond T_weekday shanghai MATCH_RANGE [] (js "1") (js "6"));
              RC_param (ParamCond Src_header (js "x-tier") MATCH_CONTAINS (js "pro"))] (js "0.5") None None;
   RuleGroup [RC_param (ParamCond Src_param (js "service_tier") MATCH_EQ (js "priority"))] (js "2") None None;
   RuleGroup [RC_time (TimeCond T_month shanghai MATCH_GTE (js "11") [] []);
              RC_param (ParamCond Src_param (js "stream") MATCH_EXISTS [])] (js "1.25") None None].

Lemma request_rules_roundtrip_witness :
  Forall (fun g => wf_group g = true) sample_groups /\
  tryParseRequestRuleExpr (buildRequestRuleExpr sample_groups) = Ok (Some sample_groups).
Proof.
  assert (Forall (fun g => wf_group g = true) sample_groups) as H
    by (repeat (apply Forall_cons; [vm_compute; reflexivity|]); apply Forall_nil; exact I).
  split; [exact H|exact (request_rules_roundtrip sample_groups H)].
Defined.
