(* ===== verification/RuleSplit.v ===== *)
(** * Prices and rules are told apart

    [splitBillingExprAndRequestRules] undoes [combineBillingExpr]; and the
    conditions the reader cannot return: a guarded [contains] or comparison of
    a body parameter is split at its own [&&]. *)
From Stdlib Require Import SpecFloat.
From stdpp Require Import strings.
From S2P Require Import Prelude JsString JsNumber JsValue JsJson Syntax Parser SyntaxFacts ParserFacts NumberText.
From S2P Require Import Compile CompileFacts Semantics Structure RequestRules RuleText RuleFacts RuleRoundtrip.

#[local] Open Scope Z_scope.

(** ** Splitting what was combined *)

(** The parentheses of a text outside its literals match. *)
Fixpoint balanced (s : jstr) (d : Z) (q : quote_state) : bool :=
  match s with
  | [] => (d =? 0) && match q with Q_none => true | _ => false end
  | c :: s1 =>
      match q with
      | Q_escaped quote => balanced s1 d (Q_in quote)
      | Q_in quote => balanced s1 d (quoted_step quote c)
      | Q_none =>
          if is_quote c then balanced s1 d (Q_in c)
          else if c =? 40 then balanced s1 (d + 1) Q_none
          else if c =? 41 then (0 <? d) && balanced s1 (d - 1) Q_none
          else balanced s1 d Q_none
      end
  end.

(** A conditional between two numbers. *)
Definition between_numbers (n : node) : bool :=
  match n with Cond _ (Lit (L_num _ _) _ _) (Lit (L_num _ _) _ _) _ _ => true | _ => false end.

(** A price expression: its brackets, parentheses and literals are closed, no
    white space and no pair of parentheses is around it, it is not the bare
    quantity, and it is not a multiplier, that is neither a text that ends in
    [: 1] nor one that parses as a conditional between two numbers. *)
Record base_price (base : jstr) : Prop := {
  bp_closed : quiet (fun _ => false) base 0 Q_none = Some (0, Q_none);
  bp_balanced : balanced base 0 Q_none = true;
  bp_outer : no_outer_space base = true;
  bp_nonempty : base <> [];
  bp_bare : forall a, base = js "(" ++ a ++ js ")" -> balanced a 0 Q_none = false;
  bp_quantity : base <> js "image_count";
  bp_text : ends_with (js " : 1") base = false;
  bp_tree : forall n, parse (js "(" ++ base ++ js ")") = Ok n -> between_numbers n = false;
}.

Lemma closes_balanced a d q : 0 <= d -> balanced a d q = closes_at_end (a ++ [41]) (d + 1) q.
Proof.
  revert d q. induction a as [|c a IH]; intros d q Hd; cbn [app].
  - cbn [balanced]. destruct q as [|quote|quote]; [|by rewrite andb_false_r|by rewrite andb_false_r].
    cbn [closes_at_end]. change (is_quote 41) with false. change (41 =? 40) with false. change (41 =? 41) with true. cbv beta iota zeta.
    replace (d + 1 - 1) with d by lia. rewrite andb_true_r. by destruct (d =? 0).
  - cbn [balanced closes_at_end]. destruct q as [|quote|quote]; [|by apply IH..]. destruct (is_quote c); [by apply IH|].
    assert (exists x y, a ++ [41] = x :: y) as (x & y & E) by (destruct a; by eexists _, _). rewrite E. cbv zeta.
    destruct (Z.eqb_spec c 40) as [->|Hc].
    + change (40 =? 41) with false. cbv iota. rewrite (proj2 (Z.eqb_neq (d + 1 + 1) 0)) by lia. rewrite <- E. apply IH. lia.
    + destruct (Z.eqb_spec c 41) as [->|Hc'].
      * replace (d + 1 - 1) with d by lia. destruct (Z.eqb_spec d 0) as [->|Hd0]; [done|].
        rewrite (proj2 (Z.ltb_lt 0 d)) by lia. cbn [andb]. rewrite <- E, IH by lia. f_equal. lia.
      * rewrite (proj2 (Z.eqb_neq (d + 1) 0)) by lia. rewrite <- E. by apply IH.
Qed.

Lemma paren_closes a : closes_at_end (js "(" ++ a ++ js ")") 0 Q_none = balanced a 0 Q_none.
Proof.
  rewrite closes_balanced by done. change (js "(" ++ a ++ js ")") with (40 :: (a ++ [41])). cbn [closes_at_end].
  change (is_quote 40) with false. change (40 =? 40) with true. change (40 =? 41) with false. cbv beta iota zeta.
  by rewrite (proj2 (Z.eqb_neq (0 + 1) 0)).
Qed.

Lemma base_unwraps base : base_price base -> unwrapOuterParens (js "(" ++ base ++ js ")") = base.
Proof.
  intros [_ Hb Ho Hn Hbare _ _ _]. unfold unwrapOuterParens, unwrapExpressionParens. rewrite trim_id by (by apply outer_app).
  assert (is_wrapped base = false) as Hw.
  { destruct (is_wrapped base) eqn:E; [|done]. pose proof (is_wrapped_inner base E) as Ei. apply Hbare in Ei as Hi.
    unfold is_wrapped in E. rewrite Ei, paren_closes in E. by rewrite Hi, andb_false_r in E. }
  assert (inner (js "(" ++ base ++ js ")") = base) as Hi.
  { unfold inner, slice. change (js "(" ++ base ++ js ")") with (40 :: (base ++ [41])). cbn [length drop]. rewrite length_app. cbn [length].
    replace (S (length base + 1) - 1 - 1)%nat with (length base) by lia. rewrite drop_0. apply take_app_length. }
  assert (is_wrapped (js "(" ++ base ++ js ")") = true) as Hw'.
  { unfold is_wrapped. rewrite paren_closes, Hb, andb_true_r. unfold ends_with. rewrite !rev_app_distr. done. }
  cbn [unwrap_loop]. rewrite Hw', Hi, trim_id by done. destruct (length (js "(" ++ base ++ js ")")); cbn [unwrap_loop]; [done|by rewrite Hw].
Qed.

Lemma paren_piece base : quiet (fun _ => false) base 0 Q_none = Some (0, Q_none) ->
  piece 42 (js "(" ++ base ++ js ")").
Proof.
  intros H. constructor; [|by apply outer_app|done].
  apply (quiet_inside _ (splits 42)) in H. change (0 + 1) with 1 in H.
  rewrite quiet_app. change (quiet (splits 42) (js "(") 0 Q_none) with (Some (1, Q_none)). cbn [mbind option_bind].
  by rewrite quiet_app, H.
Qed.

Lemma starts_ahead (p x : jstr) c r : c ∉ p -> starts_with p (x ++ c :: r) = true -> starts_with p x = true.
Proof.
  revert x. induction p as [|a p IH]; intros [|b x] Hc; cbn [starts_with app]; try done; apply not_elem_of_cons in Hc as [Hne Hc].
  - destruct (Z.eqb_spec a c); [by subst|done].
  - destruct (a =? b); [|done]. by apply IH.
Qed.

Lemma base_no_factor base : ends_with (js " : 1") base = false -> match_factor (js "(" ++ base ++ js ")") = None.
Proof.
  intros Hb. unfold match_factor, strip. destruct (starts_with (rev (js " : 1)")) _) eqn:E; [|done]. exfalso.
  rewrite !rev_app_distr in E. change (rev (js " : 1)")) with (41 :: rev (js " : 1")) in E. change (rev (js ")")) with [41] in E.
  change (([41] ++ rev base) ++ rev (js "(")) with (41 :: (rev base ++ 40 :: [])) in E. cbn [starts_with] in E.
  change (41 =? 41) with true in E. cbn [andb] in E. apply starts_ahead in E; [|by compute_done]. unfold ends_with in Hb. congruence.
Qed.

Lemma base_no_rule base : base_price base -> is_rule_part (js "(" ++ base ++ js ")") = Ok false.
Proof.
  intros Hb. pose proof (paren_piece base (bp_closed _ Hb)) as Hp. unfold is_rule_part.
  assert (tryParseRequestRuleExpr (js "(" ++ base ++ js ")") = Ok None) as ->.
  { unfold tryParseRequestRuleExpr. rewrite (proj1 (piece_trim _ _ Hp)). destruct (js "(" ++ base ++ js ")") as [|x xs] eqn:E; [done|]. rewrite <- E in *.
    unfold splitTopLevelMultiply. change (js "*") with (42 :: []).
    change (js "(" ++ base ++ js ")") with (join (spaced (42 :: [])) [js "(" ++ base ++ js ")"]) at 1.
    rewrite split_pieces by (done || (by constructor) || by apply Forall_cons; [|apply Forall_nil]). cbn [parse_factors].
    unfold tryParseRuleGroupFactor. by rewrite base_no_factor by (apply Hb). }
  cbn [rbind]. destruct (compile _) as [c|f] eqn:E; [|done]. apply compile_ready in E. f_equal. apply not_true_is_false. intros Ex.
  apply existsb_exists in Ex as (r & Hin & Hsame). pose proof (compiled_rules_ok _ _ E) as Hall.
  rewrite List.Forall_forall in Hall. destruct (Hall r Hin) as [Hnode Hshape _].
  pose proof (parse_wf _ _ (co_parse _ _ E)) as Hw.
  assert (ce_ast c ∈ postorder (ce_ast c)) as Hroot by (rewrite postorder_eq; apply elem_of_app; right; by left).
  apply (proj2 (same_node_eq (ce_ast c) _ _ Hw Hnode Hroot)) in Hsame.
  pose proof (bp_tree _ Hb _ (co_parse _ _ E)) as Ht. destruct Hshape as (? & ? & ? & ? & ? & ? & ? & ? & Hshape). by rewrite <- Hsame, Hshape in Ht.
Qed.

Lemma factor_is_rule g : wf_group g = true -> is_rule_part (buildRuleGroupFactor g) = Ok true.
Proof.
  intros H. assert (Forall (fun g => wf_group g = true) [g]) as Hg by by apply Forall_cons; [|apply Forall_nil].
  pose proof (rules_read [g] Hg) as Hr. destruct (built_product [g] Hg) as (_ & E & _).
  rewrite E in Hr. cbn [map join] in Hr. unfold is_rule_part. by rewrite Hr.
Qed.

Lemma factors_are_rules gs : Forall (fun g => wf_group g = true) gs ->
  rseq (map is_rule_part (map buildRuleGroupFactor gs)) = Ok (map (fun _ => true) gs).
Proof.
  induction 1 as [|g gs Hg _ IH]; [done|]. cbn [map rseq]. by rewrite factor_is_rule, IH.
Qed.

Lemma zip_marked {A} (gs : list A) (f : A -> jstr) :
  List.filter (fun p => fst p) (zip (map (fun _ => true) gs) (map f gs)) = zip (map (fun _ => true) gs) (map f gs) /\
  List.filter (fun p => negb (fst p)) (zip (map (fun _ => true) gs) (map f gs)) = [] /\
  map snd (zip (map (fun _ => true) gs) (map f gs)) = map f gs.
Proof. induction gs as [|g gs (IH1 & IH2 & IH3)]; [done|]. cbn. by rewrite IH1, IH2, IH3. Qed.

Lemma split_combined base gs : base_price base -> Forall (fun g => wf_group g = true) gs -> gs <> [] ->
  splitBillingExprAndRequestRules (combineBillingExpr base (buildRequestRuleExpr gs))
  = Ok (SplitExpr base (buildRequestRuleExpr gs)).
Proof.
  intros Hbase Hgs Hne. pose proof (base_unwraps base Hbase) as Hu. pose proof (base_no_rule base Hbase) as Hr.
  destruct Hbase as [Hc _ Ho Hn _ Hq _ _]. destruct (built_product gs Hgs) as (Hps & Hb & _).
  assert (map buildRuleGroupFactor gs <> []) as Hne' by by destruct gs.
  destruct (join_pieces 42 times_sep _ Hne' Hps) as [Ho2 Hn2]. rewrite Hb.
  assert (combineBillingExpr base (join times_sep (map buildRuleGroupFactor gs))
    = join times_sep ((js "(" ++ base ++ js ")") :: map buildRuleGroupFactor gs)) as ->.
  { unfold combineBillingExpr. rewrite !trim_id by done. rewrite join_cons by done.
    destruct base; [done|]. destruct (join times_sep _); [done|]. by rewrite <- !app_assoc. }
  assert (Forall (piece 42) ((js "(" ++ base ++ js ")") :: map buildRuleGroupFactor gs)) as Hall
    by (apply Forall_cons; [by apply paren_piece|done]).
  destruct (join_pieces 42 times_sep ((js "(" ++ base ++ js ")") :: map buildRuleGroupFactor gs)) as [Ho3 Hn3]; [done|done|].
  unfold splitBillingExprAndRequestRules. rewrite (trim_id (join _ _)) by done.
  destruct (join times_sep (_ :: _)) as [|x xs] eqn:E; [done|]. rewrite <- E. unfold splitTopLevelMultiply.
  change times_sep with (spaced (42 :: [])). change (js "*") with (42 :: []).
  rewrite split_pieces by (done || by constructor). clear x xs E Ho3 Hn3.
  assert ((length ((js "(" ++ base ++ js ")") :: map buildRuleGroupFactor gs) <=? 1)%nat = false) as ->
    by (destruct gs; done).
  change (map is_rule_part (?x :: ?l)) with (is_rule_part x :: map is_rule_part l). cbn [rseq].
  rewrite Hr, factors_are_rules by done. cbn [rbind zip zip_with List.filter fst negb].
  destruct (zip_marked gs buildRuleGroupFactor) as (-> & -> & ->). cbn [map snd].
  cbn [List.filter]. rewrite Hu, bool_decide_eq_false_2 by done.
  destruct gs as [|g gs]; [done|]. by cbn [length map Nat.eqb orb Nat.sub negb join].
Qed.

(** ** Expressions that are kept whole *)

(** A conditional at the top level, or no product there. *)
Definition unproduct (e : jstr) : Prop :=
  (exists p r, e = p ++ 63 :: r /\ quiet (fun _ => false) p 0 Q_none = Some (0, Q_none)) \/
  quiet (Z.eqb 42) e 0 Q_none <> None.

Lemma loop_conditional p r part d q : quiet (fun _ => false) p d q = Some (0, Q_none) ->
  split_loop (js "*") (p ++ 63 :: r) 0 part d q = None.
Proof.
  revert part d q. induction p as [|c p IH]; intros part d q E; cbn [app].
  - injection E as -> ->. done.
  - cbn [quiet split_loop] in *. destruct q; [|by apply IH..]. destruct (is_quote c); [by apply IH|]. cbv zeta in *.
    rewrite andb_false_r, orb_false_r in E. destruct (bracket_depth c d <? 0); [done|].
    destruct (negb _); [by apply IH|]. destruct (c =? 63); [done|]. destruct (starts_with _ _); [|by apply IH].
    change (length (js "*") - 1)%nat with 0%nat. by rewrite IH.
Qed.

Lemma loop_unsplit s part d q : quiet (Z.eqb 42) s d q <> None ->
  split_loop (js "*") s 0 part d q = None \/ split_loop (js "*") s 0 part d q = Some [trim (part ++ s)].
Proof.
  revert part d q. induction s as [|c s IH]; intros part d q E; [right; by rewrite app_nil_r|].
  assert (forall d' q', quiet (Z.eqb 42) s d' q' <> None ->
    split_loop (js "*") s 0 (part ++ [c]) d' q' = None \/ split_loop (js "*") s 0 (part ++ [c]) d' q' = Some [trim (part ++ c :: s)]) as Hgo.
  { intros d' q' H. destruct (IH (part ++ [c]) d' q' H) as [-> | ->]; [by left|right]. by rewrite <- app_assoc. }
  cbn [quiet split_loop] in *. destruct q; [|by apply Hgo..]. destruct (is_quote c); [by apply Hgo|]. cbv zeta in *.
  destruct ((bracket_depth c d <? 0) || _) eqn:Eb; [done|]. apply orb_false_iff in Eb as [_ Eb].
  destruct (negb (bracket_depth c d =? 0)) eqn:Ed; [by apply Hgo|]. apply negb_false_iff in Ed. rewrite Ed in Eb. cbn [andb] in Eb.
  destruct (c =? 63); [by left|]. change (js "*") with [42] in *. cbn [starts_with]. rewrite Eb. cbn [andb]. by apply Hgo.
Qed.

Lemma split_whole e : no_outer_space e = true -> unproduct e -> splitBillingExprAndRequestRules e = Ok (SplitExpr e []).
Proof.
  intros Ho Hu. unfold splitBillingExprAndRequestRules. rewrite trim_id by done.
  assert ((length (splitTopLevelMultiply e) <=? 1)%nat = true) as Hl.
  { unfold splitTopLevelMultiply, splitExpressionAtTopLevel. destruct Hu as [(p & r & -> & Hp)|Hq].
    - by rewrite loop_conditional.
    - destruct (loop_unsplit e [] 0 Q_none Hq) as [-> | ->]; [done|]. cbn [List.filter]. by destruct (nonempty _). }
  rewrite Hl. by destruct e.
Qed.

(** An expression as the editor writes it: a price with the text of its rules, or
    one that is not a product. *)
Definition editor_written (e : jstr) : Prop :=
  (exists base gs, base_price base /\ Forall (fun g => wf_group g = true) gs /\ gs <> [] /\
     e = combineBillingExpr base (buildRequestRuleExpr gs)) \/
  (no_outer_space e = true /\ unproduct e).

Lemma written_recombines e s : editor_written e -> splitBillingExprAndRequestRules e = Ok s ->
  combineBillingExpr (se_billingExpr s) (se_requestRuleExpr s) = e.
Proof.
  intros [(base & gs & Hb & Hg & Hn & ->)|[Ho Hu]].
  - rewrite split_combined by done. by intros [= <-].
  - rewrite split_whole by done. intros [= <-]. unfold combineBillingExpr. cbn [se_billingExpr se_requestRuleExpr].
    rewrite trim_id by done. by destruct e.
Qed.

Definition sample_base : jstr := js "tier(" ++ [34] ++ js "base" ++ [34] ++ js ", p * 3 + c * 15)".

Lemma sample_base_price : base_price sample_base.
Proof.
  constructor; [vm_compute; reflexivity..|discriminate|intros a E; discriminate E|discriminate|vm_compute; reflexivity|].
  intros n E. destruct (parse _) as [m|] eqn:Em in E; [|done]. injection E as <-.
  assert (match parse (js "(" ++ sample_base ++ js ")") with Ok n => between_numbers n | Err _ => false end = false) as Hb by (vm_compute; reflexivity).
  by rewrite Em in Hb.
Qed.

(** A base in parentheses comes back without them. *)
Example enclosed_base_bare :
  splitBillingExprAndRequestRules (combineBillingExpr (js "(p * 2)") (buildRequestRuleExpr sample_groups))
  = Ok (SplitExpr (js "p * 2") (buildRequestRuleExpr sample_groups)).
Proof. vm_compute. reflexivity. Qed.

(** C27: an expression combined from a price and the text of one or more
    well-formed rule groups is split into exactly that price and that text, when
    the price has closed brackets, parentheses and literals, no white space or
    pair of parentheses around it (those would be taken off), is not the bare
    [image_count], does not end in [: 1] and does not parse, in parentheses, as a
    conditional between two numbers; and combining the two parts again gives the
    expression. *)
Theorem split_combine base gs : base_price base -> Forall (fun g => wf_group g = true) gs -> gs <> [] ->
  let e := combineBillingExpr base (buildRequestRuleExpr gs) in
  exists s, splitBillingExprAndRequestRules e = Ok s /\ se_billingExpr s = base /\ se_requestRuleExpr s = buildRequestRuleExpr gs /\
    combineBillingExpr (se_billingExpr s) (se_requestRuleExpr s) = e.
Proof. intros Hb Hg Hne e. eexists. split; [by apply split_combined|done]. Qed.

Lemma split_combine_witness :
  let e := combineBillingExpr sample_base (buildRequestRuleExpr sample_groups) in
  exists s, splitBillingExprAndRequestRules e = Ok s /\ se_billingExpr s = sample_base /\
    se_requestRuleExpr s = buildRequestRuleExpr sample_groups /\ combineBillingExpr (se_billingExpr s) (se_requestRuleExpr s) = e.
Proof.
  assert (Forall (fun g => wf_group g = true) sample_groups) as H
    by (repeat (apply Forall_cons; [vm_compute; reflexivity|]); apply Forall_nil; exact I).
  apply (split_combine sample_base sample_groups sample_base_price H). discriminate.
Defined.

(** ** Conditions the reader cannot return *)

(** A body condition the editor writes with a guard: [param(path) != nil &&]
    and then a membership test or a comparison with a number. *)
Definition guarded (c : param_cond) : bool :=
  bool_decide (pq_source c = Src_param) && plainb (pq_path c) && no_outer_space (pq_path c)
  && (same_text (pq_mode c) MATCH_CONTAINS
      || match compare_text (pq_mode c) with Some _ => numeric_literal (trim (pq_value c)) | None => false end).

(** What follows the guard. *)
Definition guarded_tail (c : param_cond) : jstr :=
  match compare_text (pq_mode c) with
  | Some op => source_call c ++ op ++ trim (pq_value c)
  | None => js "has(" ++ source_call c ++ js ", " ++ json_stringify (trim (pq_value c)) ++ js ")"
  end.

Lemma compare_text_cases mode op : compare_text mode = Some op ->
  (mode = MATCH_GT /\ op = js " > ") \/ (mode = MATCH_GTE /\ op = js " >= ") \/
  (mode = MATCH_LT /\ op = js " < ") \/ (mode = MATCH_LTE /\ op = js " <= ").
Proof. unfold compare_text. repeat case_bool_decide; intros [= <-]; auto. Qed.

Lemma guarded_inv c : guarded c = true ->
  pq_source c = Src_param /\ plain (pq_path c) /\ pq_path c <> [] /\ trim (pq_path c) = pq_path c /\
  (pq_mode c = MATCH_CONTAINS \/ exists op, compare_text (pq_mode c) = Some op /\ numeric_literal (trim (pq_value c)) = true).
Proof.
  unfold guarded, same_text. intros H. apply andb_true_split in H as [H Hm]. bsplit.
  match goal with H : plainb _ = true |- _ => apply plainb_spec in H as [Hp Hpn] end.
  split_and!; [done|done|done|by apply trim_id|]. apply orb_true_iff in Hm as [Hm|Hm]; [bsplit; by left|right].
  destruct (compare_text (pq_mode c)); [by eauto|done].
Qed.

Lemma guarded_text c : guarded c = true ->
  buildRequestConditionExpr (RC_param c) = (source_call c ++ js " != nil") ++ and_sep ++ guarded_tail c.
Proof.
  intros H. apply guarded_inv in H as (Es & Hp & Hpn & Htp & Hm). cbn [buildRequestConditionExpr].
  assert (normalizeCondition (Some (partial_param c)) = RC_param c) as ->.
  { unfold normalizeCondition, partial_param. rewrite Es. cbn -[bool_decide default isTimeFunc or_else normal_mode source_text].
    rewrite !bool_decide_eq_false_2 by done.
    assert (or_else (Some (pq_path c)) [] = pq_path c) as -> by (unfold or_else; by destruct (pq_path c)).
    assert (normal_mode (source_text Src_param) (Some (pq_mode c)) MATCH_EQ = pq_mode c) as ->.
    { destruct Hm as [-> |(op & E & _)]; [done|].
      by apply compare_text_cases in E as [(-> & _)|[(-> & _)|[(-> & _)|(-> & _)]]]. }
    destruct c; simpl in *; by subst. }
  unfold build_normal_param, guarded_tail, source_call. rewrite Htp, Es.
  destruct (pq_path c) as [|p0 path] eqn:Ep; [done|]. rewrite <- Ep in *. cbv zeta.
  assert (source_text Src_param ++ js "(" ++ json_stringify (pq_path c) ++ js ")"
    = source_text Src_param ++ [40; 34] ++ pq_path c ++ [34; 41]) as ->.
  { rewrite plain_stringify by done. f_equal. by rewrite <- app_comm_cons, <- app_assoc. }
  set (call := source_text Src_param ++ [40; 34] ++ pq_path c ++ [34; 41]).
  destruct Hm as [-> |(op & E & Hv)].
  - rewrite bool_decide_eq_false_2, bool_decide_eq_true_2 by done. unfold buildExprLiteral.
    rewrite bool_decide_eq_true_2 by done. cbn [compare_text]. rewrite <- app_assoc. done.
  - rewrite E, Hv. apply compare_text_cases in E as [(-> & ->)|[(-> & ->)|[(-> & ->)|(-> & ->)]]];
      rewrite !bool_decide_eq_false_2 by done; by rewrite <- app_assoc.
Qed.

Lemma tail_piece c : guarded c = true -> piece 38 (guarded_tail c).
Proof.
  intros H. apply guarded_inv in H as (Es & Hp & Hpn & _ & Hm).
  pose proof (still_call c Hp) as Hs. destruct (outer_call c) as [Ho Hn]. unfold guarded_tail.
  destruct (compare_text (pq_mode c)) as [op|] eqn:E.
  - destruct Hm as [Em|(op' & _ & Hv)]; [by rewrite Em in E|]. apply numeric_literal_chars in Hv as [Hv1 Hv2].
    constructor; [|by apply outer_app; [..|apply numeric_outer]|by destruct (source_call c)].
    apply still_app; [done|]. apply still_app; [|by apply still_numeric].
    by apply compare_text_cases in E as [(_ & ->)|[(_ & ->)|[(_ & ->)|(_ & ->)]]].
  - change (js "has(") with (js "has" ++ js "("). rewrite <- (app_assoc (js "has")).
    replace (js "(" ++ source_call c ++ js ", " ++ json_stringify (trim (pq_value c)) ++ js ")")
      with (js "(" ++ (source_call c ++ js ", " ++ json_stringify (trim (pq_value c))) ++ js ")") by (by rewrite <- !app_assoc).
    constructor; [| |done].
    + apply still_app; [by apply still_words|]. apply still_paren. apply still_app; [done|].
      apply still_app; [by apply still_words|apply still_string].
    + rewrite app_assoc. by apply outer_app.
Qed.

(** Without its guard the rest is no condition. *)
Lemma tail_unread c : guarded c = true ->
  tryParseTimeCondition (guarded_tail c) = None /\ tryParseRequestCondition (guarded_tail c) = Ok None.
Proof.
  intros H. apply guarded_inv in H as (Es & Hp & Hpn & _ & _).
  assert (forall r, scan_time_probe (source_call c ++ r) = None /\ strip (js "(") (source_call c ++ r) = None) as Hcall
    by (intros r; unfold source_call; by rewrite Es).
  assert (tryParseTimeCondition (guarded_tail c) = None) as Ht.
  { unfold guarded_tail. destruct (compare_text _) as [op|]; [|by apply not_time].
    destruct (Hcall (op ++ trim (pq_value c))) as [? ?]. by apply not_time. }
  split; [done|]. unfold tryParseRequestCondition. rewrite Ht. unfold guarded_tail.
  destruct (compare_text (pq_mode c)) as [op|] eqn:E.
  - assert (forall r, scan_argument (js "param") (source_call c ++ r) = Some (pq_path c, r)) as Hscan
      by (intros r; change (js "param") with (source_text Src_param); rewrite <- Es; by apply scan_source_call).
    assert (match_has Src_header (source_call c ++ op ++ trim (pq_value c)) = None) as Hhas
      by (unfold match_has; by rewrite call_not_has).
    unfold match_exists, match_present_has, match_present_compare, match_present, parse_equal, match_equal.
    rewrite Hhas, param_not_header, Hscan by done. cbn [mbind option_bind].
    apply compare_text_cases in E as [(_ & ->)|[(_ & ->)|[(_ & ->)|(_ & ->)]]]; rewrite bool_decide_eq_false_2 by done; done.
  - assert (forall r, match_has Src_header (js "has(" ++ source_call c ++ r) = None) as ->; [|done].
    intros r. unfold match_has. rewrite strip_app. cbn [mbind option_bind source_text]. by rewrite param_not_header.
Qed.

(** The guard alone is a condition of its own. *)
Definition guard (c : param_cond) : param_cond := ParamCond Src_param (pq_path c) MATCH_EXISTS [].

Lemma guard_wf c : guarded c = true -> wf_param (guard c) = true.
Proof.
  unfold guarded. intros H. bsplit. unfold wf_param, guard. cbn [pq_path pq_value pq_mode pq_source].
  repeat match goal with H : _ = true |- _ => rewrite H end. done.
Qed.

Definition guarded_parts (c : param_cond) : list jstr := [param_expr (guard c); guarded_tail c].

Lemma guarded_pieces c : guarded c = true -> Forall (piece 38) (guarded_parts c).
Proof.
  intros H. apply Forall_cons; [by apply param_piece, guard_wf|]. apply Forall_cons; [by apply tail_piece|by apply Forall_nil].
Qed.

Lemma guarded_join c : guarded c = true ->
  buildRequestConditionExpr (RC_param c) = join and_sep (guarded_parts c).
Proof.
  intros H. rewrite guarded_text by done. apply guarded_inv in H as (Es & _).
  unfold guarded_parts, guard, param_expr, source_call. by rewrite Es.
Qed.

Lemma guarded_unread c : guarded c = true -> tryParseRequestConditions (join and_sep (guarded_parts c)) = Ok None.
Proof.
  intros H. pose proof (guarded_pieces c H) as Hps. destruct (tail_unread c H) as [Ht Hr].
  unfold tryParseRequestConditions. rewrite trim_id by by apply (join_pieces 38).
  cbn [guarded_parts join]. rewrite param_not_time by by apply guard_wf.
  unfold splitTopLevelAnd. change (js "&&") with (38 :: [38]).
  change (param_expr (guard c) ++ and_sep ++ guarded_tail c) with (join (spaced (38 :: [38])) (guarded_parts c)).
  rewrite split_pieces by (done || by constructor). cbn [guarded_parts parse_parts].
  rewrite (proj1 (piece_trim _ _ (param_piece _ (guard_wf c H)))).
  destruct (piece_trim _ _ (tail_piece c H)) as [-> ->].
  unfold tryParseTimeRangePair. rewrite Ht, parse_param, Hr by by apply guard_wf. by destruct (tryParseTimeCondition _).
Qed.

(** a rule on a body parameter that the editor can write but not read: for
    every guarded condition, whatever its path, value and multiplier, the text
    the editor builds is not empty and reading it back gives nothing, since the
    conjunction is split at the guard before the pattern for the pair is
    tried. *)
Theorem guarded_rule_unreadable c m : guarded c = true -> numeric_literal m = true ->
  buildRequestRuleExpr [RuleGroup [RC_param c] m None None] <> [] /\
  tryParseRequestRuleExpr (buildRequestRuleExpr [RuleGroup [RC_param c] m None None]) = Ok None.
Proof.
  intros H Hm. pose proof (guarded_join c H) as Htext. pose proof (guarded_pieces c H) as Hps.
  pose proof (numeric_literal_chars m Hm) as [Hmc Hmn]. set (text := join and_sep (guarded_parts c)) in *.
  assert (text <> []) as Hne by by apply (join_pieces 38).
  assert (buildRequestRuleExpr [RuleGroup [RC_param c] m None None] = factor_text text m) as ->.
  { unfold buildRequestRuleExpr, buildRuleGroupFactor. cbn [map rg_multiplier rg_conditions].
    rewrite (trim_id m) by by apply numeric_outer. rewrite Hm, Htext. cbn [negb List.filter]. by destruct text. }
  split; [done|]. assert (piece 42 (factor_text text m)) as Hf by (apply factor_piece; [by apply (calm_join 38)|done]).
  unfold tryParseRequestRuleExpr. rewrite (proj1 (piece_trim _ _ Hf)).
  destruct (factor_text text m) as [|x xs] eqn:E; [done|]. rewrite <- E in *. unfold splitTopLevelMultiply.
  change (js "*") with (42 :: []). change (factor_text text m) with (join (spaced (42 :: [])) [factor_text text m]) at 1.
  rewrite split_pieces by (done || (by constructor) || by apply Forall_cons; [|apply Forall_nil]). cbn [parse_factors].
  unfold tryParseRuleGroupFactor. rewrite match_factor_text by done. unfold text. by rewrite guarded_unread.
Qed.

Lemma guarded_rule_unreadable_witness :
  let c := ParamCond Src_param (js "max_tokens") MATCH_GTE (js "4096") in
  guarded c = true /\
  tryParseRequestRuleExpr (buildRequestRuleExpr [RuleGroup [RC_param c] (js "2") None None]) = Ok None.
Proof.
  split; [vm_compute; reflexivity|].
  apply (guarded_rule_unreadable (ParamCond Src_param (js "max_tokens") MATCH_GTE (js "4096")) (js "2"));
    vm_compute; reflexivity.
Defined.
