(* ===== verification/TierSummary.v ===== *)
(** * Tier tables for the pricing pages

    Models the first half of [billing-expr.ts]: the registry of billing
    variables, the rows shown for the tiers of an expression, and the
    normalisation of tier labels.  The theorem says that a row shows every price
    of its tier under the field the registry gives the variable. *)
From Stdlib Require Import SpecFloat.
From stdpp Require Import strings.
From S2P Require Import Prelude JsString JsNumber JsValue Syntax SyntaxFacts Compile Runtime Display TaskTiers.
From S2P Require Import Structure RequestRules Semantics DisplayFacts.

#[local] Open Scope Z_scope.

(** ** The registry *)
Inductive billing_side := Side_input | Side_output | Side_condition.

Record billing_var := BillingVar {
  bv_key : token_variable;
  bv_field : option jstr;
  bv_tierField : option jstr;
  bv_label : jstr;
  bv_shortLabel : jstr;
  bv_side : billing_side;
  bv_isBase : bool;
  bv_isConditionOnly : bool;
  bv_group : option jstr;
}.

(** A variable with a price: its fields, labels, side and group. *)
Definition priced_var (key : token_variable) (field tierField label shortLabel : string)
    (side : billing_side) (base : bool) (group : option jstr) : billing_var :=
  BillingVar key (Some (js field)) (Some (js tierField)) (js label) (js shortLabel) side base false group.

Definition BILLING_VARS : list billing_var :=
  [priced_var V_p "inputPrice" "input_unit_cost" "Input price" "Input" Side_input true None;
   priced_var V_c "outputPrice" "output_unit_cost" "Completion price" "Output" Side_output true None;
   BillingVar V_len None None (js "Input length") (js "Length") Side_condition false true None;
   priced_var V_cr "cacheReadPrice" "cache_read_unit_cost" "Cache read price" "Cache Read"
     Side_input false (Some (js "cache"));
   priced_var V_cc "cacheCreatePrice" "cache_create_unit_cost" "Cache create price" "Cache Write"
     Side_input false (Some (js "cache"));
   priced_var V_img_cr "imageCachePrice" "image_cache_unit_cost" "Image cache input price" "Image Cache"
     Side_input false (Some (js "cache"));
   priced_var V_cc1h "cacheCreate1hPrice" "cache_create_1h_unit_cost" "Cache create (1h) price"
     "Cache Write (1h)" Side_input false (Some (js "cache"));
   priced_var V_img "imagePrice" "image_unit_cost" "Image input price" "Image In"
     Side_input false (Some (js "media"));
   priced_var V_img_o "imageOutputPrice" "image_output_unit_cost" "Image output price" "Image Out"
     Side_output false (Some (js "media"));
   priced_var V_ai "audioInputPrice" "audio_input_unit_cost" "Audio input price" "Audio In"
     Side_input false (Some (js "media"));
   priced_var V_ao "audioOutputPrice" "audio_output_unit_cost" "Audio output price" "Audio Out"
     Side_output false (Some (js "media"))].

Definition BILLING_PRICING_VARS : list billing_var :=
  List.filter (fun v => negb (bv_isConditionOnly v)) BILLING_VARS.

Definition BILLING_CONDITION_VARS : list token_variable :=
  map bv_key (List.filter (fun v => bv_isBase v || bv_isConditionOnly v) BILLING_VARS).

(** [BILLING_VAR_KEY_TO_FIELD[key]], a property name: a missing entry reads as
    the name [undefined]. *)
Definition BILLING_VAR_KEY_TO_FIELD (key : token_variable) : jstr :=
  match List.find (fun v => bool_decide (bv_key v = key)) BILLING_PRICING_VARS with
  | Some v => default (js "undefined") (bv_field v)
  | None => js "undefined"
  end.

Definition BILLING_EXTRA_VARS : list billing_var :=
  List.filter (fun v => negb (bv_isBase v) && negb (bv_isConditionOnly v)) BILLING_VARS.

Definition BILLING_CACHE_VAR_MAP : list (jstr * token_variable) :=
  map (fun v => (default (js "undefined") (bv_tierField v), bv_key v)) BILLING_EXTRA_VARS.

(** ** Rows *)

(** [ParsedTier]; the price fields are the object's further properties. *)
Record parsed_tier := ParsedTier {
  row_label : jstr;
  row_imageCount : bool;
  row_conditions : list token_condition;
  row_unit : option billing_unit;
  row_fixed : option num;
  row_conditionText : option jstr;
  row_fields : list (jstr * num);
}.

(** [Object.fromEntries] *)
Definition from_entries {A} (l : list (jstr * A)) : list (jstr * A) :=
  fold_left (fun o p => obj_set (fst p) (snd p) o) l [].

Definition mapTokenTier (tier : token_tier) : parsed_tier :=
  let request := match tt_billingUnit tier with Some Unit_request => true | _ => false end in
  ParsedTier (tt_label tier) (tt_imageCount tier) (tt_conditions tier)
    (if request then tt_billingUnit tier else None)
    (if request then tt_fixedPrice tier else None)
    (match tt_conditionText tier with Some ((_ :: _) as text) => Some text | _ => None end)
    (from_entries (map (fun p => (BILLING_VAR_KEY_TO_FIELD (fst p), snd p)) (tt_prices tier))).

Section WithPlatform.
Context `{Platform}.

Definition parseTiersFromExpr (exprStr : jstr) : outcome (list parsed_tier) :=
  match exprStr with
  | [] => Ok []
  | _ =>
      match compile exprStr with
      | Failed _ => Ok []
      | Ready compiled =>
          match readTokenTierChain (ce_ast compiled) with
          | Some canonical => Ok (map mapTokenTier canonical)
          | None =>
              let* pricing := readTimeTokenPricing exprStr None in
              Ok (match pricing with
                  | Some (tiers, _) => map (fun t => mapTokenTier (ti_tier t)) tiers
                  | None => []
                  end)
          end
      end
  end.

Definition getCurrentTimePricingTiers (exprStr : jstr) (now : date) : outcome (option (list parsed_tier)) :=
  let* pricing := readTimeTokenPricing exprStr (Some now) in
  Ok ((fun '(_, current) => map (fun t => mapTokenTier (ti_tier t)) current) <$> pricing).

(** A comparison sign written in any of the accepted ways, and what follows. *)
Definition comparison_sign (ascii single wide : Z) (s : jstr) : option jstr :=
  match s with
  | c :: r =>
      if c =? single then Some r
      else if (c =? ascii) || (c =? wide) then
        match r with
        | e :: r' => if (e =? 61) || (e =? 65309) then Some r' else Some r
        | [] => Some r
        end
      else None
  | [] => None
  end.

(** [replaceAll] of such signs by the plain one. *)
Fixpoint replace_signs (fuel : nat) (ascii single wide : Z) (s : jstr) : jstr :=
  match fuel with
  | O => s
  | S fuel =>
      match comparison_sign ascii single wide s, s with
      | Some r, _ => ascii :: replace_signs fuel ascii single wide r
      | None, c :: r => c :: replace_signs fuel ascii single wide r
      | None, [] => []
      end
  end.

Definition plain_signs (ascii single wide : Z) (s : jstr) : jstr :=
  replace_signs (length s) ascii single wide s.

Definition normalizeTierLabel (label : option jstr) : jstr :=
  match label with
  | None | Some [] => []
  | Some label =>
      pf_toLowerCase (List.filter (fun c => negb (is_space c))
        (plain_signs 62 8805 65310 (plain_signs 60 8804 65308 label)))
  end.
End WithPlatform.

Definition parseTaskTiersFromExpr (exprStr : jstr) (schema : option usage_schema)
    (includeBooleanConditions : bool) : outcome (list task_tier) :=
  match exprStr, schema with
  | [], _ | _, None | _, Some [] => Ok []
  | _, Some schema =>
      let* parts := splitBillingExprAndRequestRules exprStr in
      match compile (se_billingExpr parts) with
      | Failed _ => Ok []
      | Ready compiled =>
          Ok (default [] (readTaskTierChain (ce_ast compiled) schema includeBooleanConditions))
      end
  end.

(** ** Rows show the prices of their tiers *)
Definition is_priced (v : token_variable) : bool :=
  match v with V_len | V_image_count => false | _ => true end.

Lemma field_inj v w : is_priced v = true -> is_priced w = true ->
  BILLING_VAR_KEY_TO_FIELD v = BILLING_VAR_KEY_TO_FIELD w -> v = w.
Proof. by destruct v, w. Qed.

Lemma from_entries_get {A} key (l : list (jstr * A)) : NoDup l.*1 ->
  obj_get key (from_entries l) = obj_get key l.
Proof.
  unfold from_entries. intros H.
  assert (forall o, obj_get key (fold_left (fun o p => obj_set (fst p) (snd p) o) l o)
    = match obj_get key l with Some x => Some x | None => obj_get key o end) as Hf.
  { induction l as [|[k x] l IH]; intros o; [done|]. cbn [fold_left fst snd]. cbn [fmap list_fmap] in H.
    apply list.NoDup_cons in H as [Hk H]. rewrite IH, obj_get_set, obj_get_cons by done.
    destruct (bool_decide_reflect (k = key)) as [->|]; [|done].
    assert (obj_get key l = None) as ->; [|done]. clear -Hk. induction l as [|[k' x'] l IH]; [done|].
    cbn in Hk. apply not_elem_of_cons in Hk as [Hne Hk]. rewrite obj_get_cons, bool_decide_eq_false_2 by done. by apply IH. }
  rewrite Hf. by destruct (obj_get key l).
Qed.

(** The price of a variable in a tier. *)
Definition tier_price (v : token_variable) (t : token_tier) : option num :=
  snd <$> List.find (fun p => bool_decide (fst p = v)) (tt_prices t).

(** The prices of a tier are of distinct priced variables. *)
Definition regular (t : token_tier) : Prop :=
  NoDup (tt_prices t).*1 /\ Forall (fun v => is_priced v = true) (tt_prices t).*1.

Lemma renamed_nodup (l : list (token_variable * num)) : NoDup l.*1 -> Forall (fun v => is_priced v = true) l.*1 ->
  NoDup (map (fun p => (BILLING_VAR_KEY_TO_FIELD (fst p), snd p)) l).*1.
Proof.
  intros H Hp. induction l as [|[v x] l IH]; [apply NoDup_nil_2|]. cbn in *.
  apply list.NoDup_cons in H as [Hv H]. apply Forall_cons_iff in Hp as [Hpv Hp]. apply list.NoDup_cons. split; [|by apply IH].
  intros Hin. apply list_elem_of_fmap in Hin as ([f y] & E & Hin). apply list_elem_of_fmap in Hin as ([w z] & Ew & Hin).
  injection Ew as -> ->. cbn in E. apply Hv. assert (w ∈ l.*1) as Hw by (apply list_elem_of_fmap; by exists (w, z)).
  rewrite Forall_elem in Hp. by rewrite (field_inj v w Hpv (Hp w Hw) E).
Qed.

Lemma renamed_get v (l : list (token_variable * num)) : is_priced v = true -> Forall (fun v => is_priced v = true) l.*1 ->
  obj_get (BILLING_VAR_KEY_TO_FIELD v) (map (fun p => (BILLING_VAR_KEY_TO_FIELD (fst p), snd p)) l)
  = snd <$> List.find (fun p => bool_decide (fst p = v)) l.
Proof.
  intros Hv. induction l as [|[w x] l IH]; intros Hp; [done|]. cbn [fmap list_fmap fst] in Hp. apply Forall_cons_iff in Hp as [Hw Hp].
  cbn [map fst snd List.find]. rewrite obj_get_cons. destruct (bool_decide_reflect (w = v)) as [->|Hne].
  - by rewrite bool_decide_eq_true_2.
  - rewrite bool_decide_eq_false_2 by (intros E; by apply Hne, field_inj). by apply IH.
Qed.

Lemma priced_variable_priced n v : priced_variable n = Some v -> is_priced v = true.
Proof.
  unfold priced_variable. intros H. repeat case_match; simplify_eq; done.
Qed.

Lemma price_terms_regular terms prices out : price_terms terms prices = Some out ->
  NoDup prices.*1 -> Forall (fun v => is_priced v = true) prices.*1 ->
  NoDup out.*1 /\ Forall (fun v => is_priced v = true) out.*1.
Proof.
  revert prices. induction terms as [|t terms IH]; intros prices; cbn [price_terms]; [by intros [= <-]|].
  destruct (price_term t) as [[v x]|] eqn:E; [|done]. destruct (bool_decide_reflect (v ∈ prices.*1)) as [|Hv]; [done|].
  intros H Hn Hp. apply (IH _ H).
  - rewrite fmap_app. apply list.NoDup_app. split_and!; [done| |apply NoDup_singleton].
    intros w Hw Hin. cbn in Hin. apply list_elem_of_singleton in Hin as ->. done.
  - rewrite fmap_app. apply Forall_app. split; [done|]. apply Forall_cons; [|by apply Forall_nil]. cbn.
    unfold price_term in E. repeat case_match; simplify_eq; try done;
      match goal with H : _ <$> priced_variable _ = Some _ |- _ => apply fmap_Some in H as (? & ? & ?) end;
      simplify_eq; by eapply priced_variable_priced.
Qed.

Lemma token_tier_regular n cs t : tokenTier n cs = Some t -> regular t.
Proof.
  unfold tokenTier, regular. intros H. repeat case_match; simplify_eq; cbn [tt_prices];
    try (split; [apply NoDup_nil_2|by apply Forall_nil]);
    match goal with H : price_terms _ _ = Some _ |- _ => by apply (price_terms_regular _ _ _ H); [apply NoDup_nil_2|apply Forall_nil] end.
Qed.

(** A tier that differs from one read off a subterm only in its text, its
    conditions and its image count. *)
Definition from_leaf (n : node) (t : token_tier) : Prop :=
  exists m cs t0, m ∈ postorder n /\ tokenTier m cs = Some t0 /\
    tt_prices t = tt_prices t0 /\ tt_billingUnit t = tt_billingUnit t0 /\ tt_fixedPrice t = tt_fixedPrice t0.

Lemma leaf_self n cs t : tokenTier n cs = Some t -> from_leaf n t.
Proof. intros H. exists n, cs, t. split_and!; [apply postorder_self|done..]. Qed.

Lemma leaf_child n c t : c ∈ children n -> from_leaf c t -> from_leaf n t.
Proof.
  intros Hc (m & cs & t0 & Hm & Ht). exists m, cs, t0. split; [|done].
  eapply postorder_trans; [by apply postorder_child|exact Hm].
Qed.

Lemma leaves_child n c tiers : c ∈ children n -> Forall (from_leaf c) tiers -> Forall (from_leaf n) tiers.
Proof. intros Hc. apply Forall_impl. intros t. by apply leaf_child. Qed.

Lemma tier_chain_leaves n tiers : tier_chain n = Some tiers -> Forall (from_leaf n) tiers.
Proof.
  revert tiers. induction n; intros tiers; cbn [tier_chain]; intros H;
    try (apply fmap_Some in H as (t & Ht & ->); apply Forall_cons; [by eapply leaf_self|by apply Forall_nil]).
  destruct (tokenConditions _); [|done]. destruct (tokenTier _ _) eqn:Et; [|done].
  apply fmap_Some in H as (ts & Hts & ->). apply Forall_cons.
  - eapply leaf_child; [|by eapply leaf_self]. cbn. set_solver.
  - eapply leaves_child; [|by eauto]. cbn. set_solver.
Qed.

Lemma image_leaves n tiers : Forall (from_leaf n) tiers -> Forall (from_leaf n) (map with_image_count tiers).
Proof. induction 1 as [|t ts Ht _ IH]; [by apply Forall_nil|apply Forall_cons; [exact Ht|exact IH]]. Qed.

Lemma audio_leaves n tiers : audio_tiers n = Some tiers -> Forall (from_leaf n) tiers.
Proof.
  unfold audio_tiers. intros H. repeat case_match; simplify_eq.
  repeat (apply Forall_cons; [match goal with Ht : tokenTier ?m _ = Some ?t |- from_leaf _ (with_condition_text _ ?t) =>
    eapply (leaf_child _ m); [cbn; set_solver|]; exact (leaf_self _ _ _ Ht) end|]). by apply Forall_nil.
Qed.

Lemma chain_leaves n tiers : readTokenTierChain n = Some tiers -> Forall (from_leaf n) tiers.
Proof.
  revert tiers. induction n; intros tiers; cbn [readTokenTierChain]; destruct (audio_tiers _) eqn:Ea;
    try (intros [= <-]; by apply audio_leaves); try (by apply tier_chain_leaves).
  destruct o; try (by apply tier_chain_leaves).
  destruct (is_image_count n1); [|destruct (is_image_count n2); [|by apply tier_chain_leaves]];
    intros H; apply fmap_Some in H as (ts & Hts & ->); apply image_leaves.
  - eapply (leaves_child _ n2); [cbn; set_solver|by eauto].
  - eapply (leaves_child _ n1); [cbn; set_solver|by eauto].
Qed.

Lemma chain_regular n tiers : readTokenTierChain n = Some tiers -> Forall regular tiers.
Proof.
  intros H. apply chain_leaves in H. revert H. apply Forall_impl. intros t (m & cs & t0 & _ & Ht & E & _).
  unfold regular. rewrite E. by eapply token_tier_regular.
Qed.

(** A row shows a tier: its label, conditions and fixed price, and for every
    variable that can be priced exactly the tier's price for it. *)
Record shows (t : token_tier) (row : parsed_tier) : Prop := {
  sh_label : row_label row = tt_label t;
  sh_conditions : row_conditions row = tt_conditions t;
  sh_image : row_imageCount row = tt_imageCount t;
  sh_fixed : tt_billingUnit t = Some Unit_request -> row_unit row = Some Unit_request /\ row_fixed row = tt_fixedPrice t;
  sh_price : forall v, is_priced v = true -> obj_get (BILLING_VAR_KEY_TO_FIELD v) (row_fields row) = tier_price v t;
}.

Lemma map_tier_shows t : regular t -> shows t (mapTokenTier t).
Proof.
  intros [Hn Hp]. constructor; try done.
  - intros E. unfold mapTokenTier. by rewrite E.
  - intros v Hv. cbn [mapTokenTier row_fields]. rewrite from_entries_get by by apply renamed_nodup. by apply renamed_get.
Qed.

(** the tier table of a page shows the tiers that are charged: for an
    expression the reader recognises as a chain of token tiers, the table has
    one row per tier, in order, and each row holds the label, the conditions,
    the fixed price and, under the field the registry gives each variable,
    exactly the price the tier has for that variable. *)
Theorem tier_table_faithful `{Platform} source c tiers : source <> [] ->
  compile source = Ready c -> readTokenTierChain (ce_ast c) = Some tiers ->
  exists rows, parseTiersFromExpr source = Ok rows /\ Forall2 shows tiers rows.
Proof.
  intros Hs Hc Ht. exists (map mapTokenTier tiers). split.
  - unfold parseTiersFromExpr. rewrite Hc, Ht. by destruct source.
  - apply chain_regular in Ht. induction Ht; constructor; [by apply map_tier_shows|done].
Qed.

Lemma tier_table_faithful_witness :
  exists rows, @parseTiersFromExpr plain_platform tiered_source = Ok rows /\ Forall2 shows tiered_tiers rows.
Proof.
  apply (@tier_table_faithful plain_platform tiered_source tiered_compiled tiered_tiers);
    [discriminate|vm_compute; reflexivity|vm_compute; reflexivity].
Defined.
