(* ===== verification/TaskConfig.v ===== *)
(** * The task price editor

    Models [task-expr.ts]: the tiers and the matrix the editor keeps for a task
    expression, the expression it writes for them, how it reads them back, and
    the preview of a price.  The collation behind [localeCompare] is the class
    [Collation].  The prices of a row or tier are its own properties; a number
    field named like a method every object inherits is outside the model. *)
From Stdlib Require Import SpecFloat.
From stdpp Require Import strings.
From S2P Require Import Prelude JsString JsNumber JsValue Syntax Compile Runtime Display TaskTiers.
From S2P Require Import Structure RequestRules TierSummary.

#[local] Open Scope Z_scope.

(** ** Sorting by name *)
Class Collation := {
  localeCompare : jstr -> jstr -> Z;  (* String.prototype.localeCompare *)
}.

Section WithCollation.
Context `{Collation}.

(** [entries.sort(([left], [right]) => left.localeCompare(right))]: stable. *)
Fixpoint insert_entry {A} (x : jstr * A) (l : list (jstr * A)) : list (jstr * A) :=
  match l with
  | [] => [x]
  | y :: l' => if localeCompare (fst x) (fst y) <=? 0 then x :: l else y :: insert_entry x l'
  end.

Definition sort_by_name {A} (l : list (jstr * A)) : list (jstr * A) := foldr insert_entry [] l.

(** ** Data *)
Record visual_tier := VisualTier {
  vr_label : jstr;
  vr_conditions : list task_condition;
  vr_constant : num;
  vr_unitPrices : list (jstr * num);
}.

Record matrix_row := MatrixRow {
  mr_combination : list (jstr * jstr);
  mr_constant : num;
  mr_unitPrices : list (jstr * num);
}.

Definition TASK_TOKEN_PRICE_SCALE : num := n_million.

Definition is_number_field (entry : jstr * usage_field) : bool :=
  match uf_type (snd entry), uf_unit (snd entry) with
  | Some Field_number, Some _ => true
  | _, _ => false
  end.

Definition is_enum_field (entry : jstr * usage_field) : bool :=
  match uf_enum (snd entry) with Some (_ :: _) => true | _ => false end.

Definition getTaskNumberFields (schema : option usage_schema) : list (jstr * usage_field) :=
  match schema with
  | None => []
  | Some schema => sort_by_name (List.filter is_number_field schema)
  end.

Definition getTaskEnumFields (schema : option usage_schema) : list (jstr * usage_field) :=
  match schema with
  | None => []
  | Some schema => sort_by_name (List.filter is_enum_field schema)
  end.

(** One round of the loop: every combination extended by every value. *)
Definition extend_combinations (combinations : list (list (jstr * jstr))) (entry : jstr * usage_field)
  : list (list (jstr * jstr)) :=
  mjoin (map (fun combination =>
    map (fun value => obj_set (fst entry) value combination) (default [] (uf_enum (snd entry))))
    combinations).

Definition getTaskEnumCombinations (schema : option usage_schema) : list (list (jstr * jstr)) :=
  fold_left extend_combinations (getTaskEnumFields schema) [[]].

Definition zero_prices (schema : usage_schema) : list (jstr * num) :=
  from_entries (map (fun f => (fst f, n_zero)) (getTaskNumberFields (Some schema))).

Definition createDefaultTaskVisualConfig (schema : usage_schema) : list visual_tier :=
  [VisualTier (js "base") [] n_zero (zero_prices schema)].

Definition createDefaultTaskMatrixConfig (schema : usage_schema) : list matrix_row :=
  map (fun combination => MatrixRow combination n_zero (zero_prices schema))
    (getTaskEnumCombinations (Some schema)).

Definition taskMatrixRowLabel (combination : list (jstr * jstr)) : jstr :=
  match map snd (sort_by_name combination) with
  | [] => js "base"
  | values => join [183] values
  end.

(** [prices[field] ?? 0], for every number field. *)
Definition own_prices (fields : list (jstr * usage_field)) (prices : list (jstr * num)) : list (jstr * num) :=
  from_entries (map (fun f => (fst f, default n_zero (obj_get (fst f) prices))) fields).

(** [a === b] on numbers that may be missing *)
Definition same_price (a b : option num) : bool :=
  match a, b with
  | Some x, Some y => n_eqb x y
  | None, None => true
  | _, _ => false
  end.

Definition same_prices (fields : list (jstr * usage_field)) (firstRow row : matrix_row) : bool :=
  n_eqb (mr_constant row) (mr_constant firstRow)
  && forallb (fun f => same_price (obj_get (fst f) (mr_unitPrices row)) (obj_get (fst f) (mr_unitPrices firstRow))) fields.

Definition row_conditions_of (row : matrix_row) : list task_condition :=
  map (fun p => TaskCondition (fst p) (snd p)) (sort_by_name (mr_combination row)).

(** The tiers of the rows: the last one has no conditions. *)
Fixpoint matrix_tiers (fields : list (jstr * usage_field)) (rows : list matrix_row) : list visual_tier :=
  match rows with
  | [] => []
  | row :: rest =>
      VisualTier (taskMatrixRowLabel (mr_combination row))
        (match rest with [] => [] | _ => row_conditions_of row end)
        (mr_constant row) (own_prices fields (mr_unitPrices row)) :: matrix_tiers fields rest
  end.

Definition taskMatrixToTiers (rows : list matrix_row) (schema : usage_schema) : list visual_tier :=
  let numberFields := getTaskNumberFields (Some schema) in
  match numberFields, rows with
  | [], _ | _, [] => []
  | _, firstRow :: _ =>
      if forallb (same_prices numberFields firstRow) rows
      then [VisualTier (js "base") [] (mr_constant firstRow) (own_prices numberFields (mr_unitPrices firstRow))]
      else matrix_tiers numberFields rows
  end.

(** The conditions of a branch name distinct declared enum values. *)
Fixpoint valid_conditions (schema : usage_schema) (conditions : list task_condition) (fields : list jstr) : bool :=
  match conditions with
  | [] => true
  | c :: conditions =>
      negb (bool_decide (tk_field c ∈ fields))
      && match schema_get schema (tk_field c) with
         | Some (UsageFieldOf _ _ (Some values) _ _ _) => bool_decide (tk_value c ∈ values)
         | _ => false
         end
      && valid_conditions schema conditions (tk_field c :: fields)
  end.

Definition row_matches (combination : list (jstr * jstr)) (tier : task_tier) : bool :=
  forallb (fun c => bool_decide (obj_get (tk_field c) combination = Some (tk_value c))) (kt_conditions tier).

Definition row_of_tier (fields : list (jstr * usage_field)) (combination : list (jstr * jstr)) (tier : task_tier)
  : matrix_row :=
  MatrixRow combination (kt_constant tier) (own_prices fields (kt_unitPrices tier)).

(** The rows read off tiers: the body of [tryParseTaskMatrixConfig]. *)
Definition matrix_of_tiers (schema : usage_schema) (tiers : list task_tier) : option (list matrix_row) :=
  let numberFields := getTaskNumberFields (Some schema) in
  let combinations := getTaskEnumCombinations (Some schema) in
  match tiers with
  | [] => None
  | [TaskTier _ _ [] _ _ as tier] => Some (map (fun c => row_of_tier numberFields c tier) combinations)
  | _ =>
      match list.last tiers with
      | Some (TaskTier _ _ [] _ _) =>
          if forallb (fun t => valid_conditions schema (kt_conditions t) []) (removelast tiers)
          then mapM (fun c => row_of_tier numberFields c <$> List.find (row_matches c) tiers) combinations
          else None
      | _ => None
      end
  end.

Definition tryParseTaskMatrixConfig (expression : option jstr) (schema : usage_schema)
  : outcome (option (list matrix_row)) :=
  match expression with
  | None | Some [] => Ok None
  | Some expression =>
      let* tiers := parseTaskTiersFromExpr expression (Some schema) false in
      Ok (matrix_of_tiers schema tiers)
  end.

(** ** Normal form and text *)
Definition price_or_zero (x : num) : num := if is_finite x && n_leb n_zero x then x else n_zero.

Definition declared_value (schema : usage_schema) (c : task_condition) : bool :=
  match obj_get (tk_field c) (getTaskEnumFields (Some schema)) with
  | Some d => bool_decide (tk_value c ∈ default [] (uf_enum d))
  | None => false
  end.

Definition normal_label (label : jstr) (index : nat) : jstr :=
  match label with
  | _ :: _ => label
  | [] => match index with
          | O => js "base"
          | S _ => js "tier_" ++ dec_of_Z (Z.of_nat index + 1)
          end
  end.

Definition normal_tier (schema : usage_schema) (index : nat) (tier : visual_tier) : visual_tier :=
  VisualTier (normal_label (vr_label tier) index)
    (List.filter (declared_value schema) (vr_conditions tier))
    (price_or_zero (vr_constant tier))
    (from_entries (map (fun f => (fst f, price_or_zero (default S754_nan (obj_get (fst f) (vr_unitPrices tier)))))
       (getTaskNumberFields (Some schema)))).

Definition normalizeTaskVisualConfig (config : option (list visual_tier)) (schema : usage_schema)
  : list visual_tier :=
  match config with
  | None | Some [] => createDefaultTaskVisualConfig schema
  | Some tiers => imap (normal_tier schema) tiers
  end.

(** [u("field") * price], per million for tokens *)
Definition usage_term (field : jstr) (price : num) (token : bool) : jstr :=
  js "u(" ++ json_stringify field ++ js ") * " ++ num_to_string price
  ++ (if token then js " / 1000000" else []).

Definition is_token_field (d : usage_field) : bool := bool_decide (uf_unit d = Some Unit_tokens).

Definition generateTaskTierBody (tier : visual_tier) (numberFields : list (jstr * usage_field)) : jstr :=
  join (js " + ")
    ((if n_ltb n_zero (vr_constant tier) then [num_to_string (vr_constant tier)] else [])
     ++ map (fun f => usage_term (fst f) (default n_zero (obj_get (fst f) (vr_unitPrices tier)))
                        (is_token_field (snd f))) numberFields).

Definition generateTaskTierCall (tier : visual_tier) (numberFields : list (jstr * usage_field)) : jstr :=
  js "tier(" ++ json_stringify (vr_label tier) ++ js ", " ++ generateTaskTierBody tier numberFields ++ js ")".

Definition condition_expr (c : task_condition) : jstr :=
  js "u(" ++ json_stringify (tk_field c) ++ js ") == " ++ json_stringify (tk_value c).

Definition generateTaskCondition (conditions : list task_condition) : jstr :=
  join (js " && ") (map condition_expr conditions).

(** The parts of a chain; [None] when a tier before the last has no condition. *)
Fixpoint chain_parts (tiers : list visual_tier) (numberFields : list (jstr * usage_field)) : option (list jstr) :=
  match tiers with
  | [] => Some []
  | tier :: rest =>
      let call := generateTaskTierCall tier numberFields in
      match rest with
      | [] => Some [call]
      | _ =>
          match generateTaskCondition (vr_conditions tier) with
          | [] => None
          | condition => cons (condition ++ js " ? " ++ call) <$> chain_parts rest numberFields
          end
      end
  end.

Definition generateTaskExprFromConfig (config : option (list visual_tier)) (schema : usage_schema) : jstr :=
  let numberFields := getTaskNumberFields (Some schema) in
  match numberFields with
  | [] => []
  | _ =>
      match normalizeTaskVisualConfig config schema with
      | [tier] => generateTaskTierCall tier numberFields
      | tiers =>
          match chain_parts tiers numberFields with
          | Some parts => join (js " : ") parts
          | None => []
          end
      end
  end.

Definition visual_of_task (t : task_tier) : visual_tier :=
  VisualTier (kt_label t) (kt_conditions t) (kt_constant t) (kt_unitPrices t).

Definition tryParseTaskVisualConfig (expression : option jstr) (schema : usage_schema)
  : outcome (option (list visual_tier)) :=
  match expression with
  | None | Some [] => Ok None
  | Some expression =>
      let* tiers := parseTaskTiersFromExpr expression (Some schema) false in
      Ok (match tiers with
          | [] => None
          | _ => Some (normalizeTaskVisualConfig (Some (map visual_of_task tiers)) schema)
          end)
  end.

(** ** The preview of a price *)

(** A reported fact: a number or a string. *)
Inductive sample_value := SV_num (x : num) | SV_str (s : jstr).

Definition sample_number (v : option sample_value) : num :=
  match v with
  | Some (SV_num x) => x
  | Some (SV_str s) => to_number s
  | None => S754_nan
  end.

Definition sample_json (v : sample_value) : jsval :=
  match v with SV_num x => J_num x | SV_str s => J_str s end.

Definition sample_holds (sample : list (jstr * sample_value)) (c : task_condition) : bool :=
  match obj_get (tk_field c) sample with
  | Some (SV_str s) => bool_decide (s = tk_value c)
  | _ => false
  end.

(** The first tier but the last whose conditions hold, else the last. *)
Fixpoint preview_tier (tiers : list visual_tier) (sample : list (jstr * sample_value)) : option visual_tier :=
  match tiers with
  | [] => None
  | [fallback] => Some fallback
  | tier :: rest =>
      if forallb (sample_holds sample) (vr_conditions tier) then Some tier else preview_tier rest sample
  end.

(** One priced quantity of a preview. *)
Record usage_part := UsagePart {
  up_field : jstr;
  up_amount : num;
  up_quantity : num;
  up_unitPrice : num;
}.

Definition bad_amount (x : num) : bool := negb (is_finite x) || n_ltb x n_zero.

(** [schema?.[field]?.unit === 'token'] *)
Definition token_priced (schema : option usage_schema) (field : jstr) : bool :=
  match schema with
  | Some schema => match schema_get schema field with Some d => is_token_field d | None => false end
  | None => false
  end.

(** The loop over the prices of the tier; [None] when the preview fails. *)
Fixpoint usage_parts (schema : option usage_schema) (sample : list (jstr * sample_value))
    (prices : list (jstr * num)) : option (list usage_part) :=
  match prices with
  | [] => Some []
  | (field, unitPrice) :: prices =>
      if bad_amount unitPrice then None
      else if n_eqb unitPrice n_zero then usage_parts schema sample prices
      else
        let quantity := sample_number (obj_get field sample) in
        if bad_amount quantity then None
        else
          let amount := if token_priced schema field
                        then n_div (n_mul quantity unitPrice) TASK_TOKEN_PRICE_SCALE
                        else n_mul quantity unitPrice in
          if negb (is_finite amount) then None
          else cons (UsagePart field amount quantity unitPrice) <$> usage_parts schema sample prices
  end.

Record preview := Preview {
  pv_tier : visual_tier;
  pv_total : num;
  pv_constant : option num;
  pv_parts : list usage_part;
}.

Definition preview_source (schema : option usage_schema) (tier : visual_tier) (parts : list usage_part) : jstr :=
  js "tier(" ++ json_stringify (vr_label tier) ++ js ", "
  ++ join (js " + ")
       (num_to_string (vr_constant tier)
        :: map (fun p => usage_term (up_field p) (up_unitPrice p) (token_priced schema (up_field p))) parts)
  ++ js ")".

Definition preview_usage (sample : list (jstr * sample_value)) (parts : list usage_part) : list (jstr * jsval) :=
  map (fun p => (fst p, sample_json (snd p)))
    (fold_left (fun u p => obj_set (up_field p) (SV_num (up_quantity p)) u) parts sample).

Section WithPlatform.
Context `{Platform}.

Definition evaluateTaskVisualConfig (config : list visual_tier) (sample : list (jstr * sample_value))
    (schema : option usage_schema) : option preview :=
  match preview_tier config sample with
  | None => None
  | Some tier =>
      if bad_amount (vr_constant tier) then None
      else
        match usage_parts schema sample (vr_unitPrices tier) with
        | None => None
        | Some parts =>
            match evaluate_compiled (compile (preview_source schema tier parts))
                    (Context_ None None (Some (preview_usage sample parts)) None None) with
            | NotEvaluated _ => None
            | Evaluated s =>
                Some (Preview tier (es_cost s)
                        (if n_ltb n_zero (vr_constant tier) then Some (vr_constant tier) else None) parts)
            end
        end
  end.

Record usage_example := UsageExample { ex_label : jstr; ex_facts : list (jstr * sample_value) }.

Definition evaluateTaskUsageExamples (expression : option jstr) (schema : option usage_schema)
    (examples : option (list usage_example)) : outcome (list (jstr * num)) :=
  match expression, schema, examples with
  | None, _, _ | Some [], _, _ | _, None, _ | _, _, None | _, _, Some [] => Ok []
  | Some expression, Some schema, Some examples =>
      let* parts := splitBillingExprAndRequestRules expression in
      let* config := tryParseTaskVisualConfig (Some (se_billingExpr parts)) schema in
      Ok (match config with
          | None => []
          | Some config =>
              omap (fun ex => (fun r => (ex_label ex, pv_total r))
                              <$> evaluateTaskVisualConfig config (ex_facts ex) (Some schema)) examples
          end)
  end.
End WithPlatform.
End WithCollation.
