(* ===== verification/TaskConfigFacts.v ===== *)
(** * The task price editor: exact combinations, normal forms, matrices

    The combinations of a schema are exactly its assignments; normalising a
    configuration is idempotent and establishes the editor's invariant; a matrix
    turned into tiers and read back is the same matrix. *)
From Stdlib Require Import SpecFloat.
From stdpp Require Import strings.
From S2P Require Import Prelude JsString JsNumber JsValue Syntax Compile Runtime Display TaskTiers.
From S2P Require Import Structure RequestRules TierSummary TaskConfig.

#[local] Open Scope Z_scope.

(** ** Sorting *)
Lemma insert_entry_perm `{Collation} {A} (x : jstr * A) l : Permutation (x :: l) (insert_entry x l).
Proof.
  induction l as [|y l IH]; cbn [insert_entry]; [done|]. destruct (_ <=? 0); [done|].
  rewrite <- IH. constructor.
Qed.

Lemma sort_by_name_perm `{Collation} {A} (l : list (jstr * A)) : Permutation l (sort_by_name l).
Proof.
  induction l as [|x l IH]; [done|]. change (sort_by_name (x :: l)) with (insert_entry x (sort_by_name l)).
  rewrite <- insert_entry_perm. by constructor.
Qed.

Lemma filter_keys_nodup {A} (f : jstr * A -> bool) (l : list (jstr * A)) : NoDup l.*1 -> NoDup (List.filter f l).*1.
Proof.
  induction l as [|[k x] l IH]; cbn [fmap list_fmap List.filter fst]; [done|]. intros Hn.
  apply list.NoDup_cons in Hn as [Hk Hn]. destruct (f (k, x)); [|by apply IH]. cbn. apply list.NoDup_cons.
  split; [|by apply IH]. intros Hin. apply Hk. apply list_elem_of_fmap in Hin as ([k' y] & -> & Hin).
  apply list_elem_of_In, filter_In in Hin as [Hin _]. apply list_elem_of_fmap. exists (k', y). split; [done|].
  by apply list_elem_of_In.
Qed.

Lemma sorted_keys_nodup `{Collation} {A} (l : list (jstr * A)) : NoDup l.*1 -> NoDup (sort_by_name l).*1.
Proof. intros Hn. by rewrite <- (fmap_Permutation fst _ _ (sort_by_name_perm l)). Qed.

(** ** Objects built key by key *)
Definition build {A} (entries : list (jstr * A)) (o : list (jstr * A)) : list (jstr * A) :=
  fold_left (fun o p => obj_set (fst p) (snd p) o) entries o.

Lemma obj_get_none {A} key (l : list (jstr * A)) : key ∉ l.*1 -> obj_get key l = None.
Proof.
  induction l as [|[k x] l IH]; [done|]. intros Hk. cbn in Hk. apply not_elem_of_cons in Hk as [Hne Hk].
  rewrite obj_get_cons, bool_decide_eq_false_2 by done. by apply IH.
Qed.

Lemma obj_get_in {A} key (x : A) l : NoDup l.*1 -> (key, x) ∈ l -> obj_get key l = Some x.
Proof.
  induction l as [|[k y] l IH]; intros Hn Hin; [by apply not_elem_of_nil in Hin|]. cbn in Hn.
  apply list.NoDup_cons in Hn as [Hk Hn]. rewrite obj_get_cons. apply elem_of_cons in Hin as [[= -> ->]|Hin].
  - by rewrite bool_decide_eq_true_2.
  - rewrite bool_decide_eq_false_2; [by apply IH|]. intros ->. apply Hk. apply list_elem_of_fmap. by exists (key, x).
Qed.

Lemma obj_get_some {A} key (x : A) l : obj_get key l = Some x -> (key, x) ∈ l.
Proof.
  unfold obj_get. intros E. apply fmap_Some in E as ([k y] & E & ->). apply find_some in E as [Hin Hk]. bsplit.
  cbn in Hk. subst k. by apply list_elem_of_In.
Qed.

Lemma build_get {A} key (entries o : list (jstr * A)) : NoDup entries.*1 ->
  obj_get key (build entries o) = match obj_get key entries with Some x => Some x | None => obj_get key o end.
Proof.
  unfold build. revert o. induction entries as [|[k x] l IH]; intros o Hn; [done|]. cbn [fold_left fst snd].
  cbn in Hn. apply list.NoDup_cons in Hn as [Hk Hn]. rewrite IH, obj_get_set, obj_get_cons by done.
  destruct (bool_decide_reflect (k = key)) as [->|]; [|done]. by rewrite (obj_get_none key l).
Qed.

(** The keys of a written property do not matter to the others. *)
Lemma insert_without {A} key (x : A) o : key ∉ o.*1 ->
  List.filter (fun p => negb (bool_decide (fst p = key))) (obj_insert key x o) = o.
Proof.
  intros Hk. assert (forall l : list (jstr * A), key ∉ l.*1 -> List.filter (fun p => negb (bool_decide (fst p = key))) l = l) as Hid.
  { induction l as [|[k y] l IH]; [done|]. cbn. intros H. apply not_elem_of_cons in H as [Hne H].
    rewrite bool_decide_eq_false_2 by done. cbn. by rewrite IH. }
  induction o as [|[k y] o IH]; cbn [obj_insert].
  { cbn. by rewrite bool_decide_eq_true_2. }
  cbn in Hk. apply not_elem_of_cons in Hk as [Hne Hk].
  assert (List.filter (fun p => negb (bool_decide (fst p = key))) ((key, x) :: (k, y) :: o) = (k, y) :: o) as H1.
  { cbn [List.filter fst]. rewrite bool_decide_eq_true_2, bool_decide_eq_false_2 by done. cbn [negb]. by rewrite Hid. }
  assert (List.filter (fun p => negb (bool_decide (fst p = key))) ((k, y) :: obj_insert key x o) = (k, y) :: o) as H2.
  { cbn [List.filter fst]. rewrite bool_decide_eq_false_2 by done. cbn [negb]. by rewrite IH. }
  destruct (array_index_of key), (array_index_of k); try (destruct (_ <? _)); done.
Qed.

Lemma obj_set_inj {A} key (x y : A) o o' : key ∉ o.*1 -> key ∉ o'.*1 ->
  obj_set key x o = obj_set key y o' -> x = y /\ o = o'.
Proof.
  intros H1 H2 E. split.
  - apply (f_equal (obj_get key)) in E. rewrite !obj_get_set, bool_decide_eq_true_2 in E by done. by injection E.
  - unfold obj_set in E. rewrite !bool_decide_eq_false_2 in E by done.
    by rewrite <- (insert_without key x o H1), E, insert_without.
Qed.

(** ** Combinations *)
Lemma mjoin_cons {A} (x : list A) l : mjoin (x :: l) = x ++ mjoin l.
Proof. done. Qed.

Notation values_of d := (default [] (uf_enum d)).

Section Combinations.
Context `{Collation}.

(** A combination extends one of the given ones by a value for each field. *)
Lemma combinations_spec fields acc c : c ∈ fold_left extend_combinations fields acc <->
  exists c0 vs, c0 ∈ acc /\ Forall2 (fun f v => v ∈ values_of (snd f)) fields vs /\ c = build (zip fields.*1 vs) c0.
Proof.
  revert acc. induction fields as [|[k d] fields IH]; intros acc; cbn [fold_left].
  - split; [intros Hc; exists c, []; by split_and!|]. intros (c0 & vs & Hc & _ & ->). by destruct vs.
  - rewrite IH. unfold extend_combinations. split.
    + intros (c1 & vs & Hc1 & Hvs & ->). apply list_elem_of_join in Hc1 as (l & Hin & Hl).
      apply list_elem_of_In, in_map_iff in Hl as (c0 & <- & Hc0). apply list_elem_of_In in Hc0.
      apply list_elem_of_In, in_map_iff in Hin as (v & <- & Hv). apply list_elem_of_In in Hv. cbn in Hv |- *.
      exists c0, (v :: vs). split_and!; [done|by constructor|done].
    + intros (c0 & vs & Hc0 & Hvs & ->). inversion Hvs as [|? v ? vs' Hv Hvs']; subst. cbn in Hv.
      exists (obj_set k v c0), vs'. split_and!; [|done|done]. apply list_elem_of_join.
      exists (map (fun value => obj_set k value c0) (values_of d)). split.
      * apply list_elem_of_In, in_map_iff. exists v. split; [done|by apply list_elem_of_In].
      * apply list_elem_of_In, in_map_iff. exists c0. split; [done|by apply list_elem_of_In].
Qed.

Lemma combinations_length fields acc : length (fold_left extend_combinations fields acc)
  = (length acc * foldr (fun f n => length (values_of (snd f)) * n) 1 fields)%nat.
Proof.
  revert acc. induction fields as [|[k d] fields IH]; intros acc; cbn [fold_left foldr snd]; [lia|].
  rewrite IH. assert (length (extend_combinations acc (k, d)) = (length acc * length (values_of d))%nat) as ->; [|lia].
  unfold extend_combinations. cbn [fst snd]. induction acc as [|c acc IHa]; [done|].
  cbn [map]. rewrite mjoin_cons, length_app, length_map, IHa. cbn [length]. lia.
Qed.

Lemma obj_set_keys {A} k (x : A) o j : j ∈ (obj_set k x o).*1 -> j = k \/ j ∈ o.*1.
Proof.
  unfold obj_set. case_bool_decide as Hk.
  - intros Hj. right. revert Hj. clear Hk. induction o as [|[k' y] o IH]; cbn [obj_update]; [done|].
    case_bool_decide; cbn; rewrite !elem_of_cons; [done|]. intros [->|Hj]; [by left|right; by apply IH].
  - rewrite <- obj_insert_perm. cbn. by rewrite elem_of_cons.
Qed.

Lemma extend_nodup k d acc : NoDup acc -> NoDup (values_of d) -> Forall (fun c => k ∉ c.*1) acc ->
  NoDup (extend_combinations acc (k, d)).
Proof.
  intros Ha Hd Hk. unfold extend_combinations. cbn [fst snd].
  induction acc as [|c acc IH]; [apply NoDup_nil_2|]. cbn [map]. rewrite mjoin_cons.
  apply list.NoDup_cons in Ha as [Hc Ha]. apply Forall_cons_iff in Hk as [Hkc Hk].
  apply list.NoDup_app. split_and!; [| |by apply IH].
  - clear -Hd Hkc. induction (values_of d) as [|v vs IH]; cbn [map]; [apply NoDup_nil_2|].
    apply list.NoDup_cons in Hd as [Hv Hd]. apply list.NoDup_cons. split; [|by apply IH].
    intros Hin. apply list_elem_of_In, in_map_iff in Hin as (w & E & Hw). apply obj_set_inj in E as [-> _]; [|done|done].
    by apply Hv, list_elem_of_In.
  - intros c1 H1 H2. apply list_elem_of_In, in_map_iff in H1 as (v & <- & _).
    apply list_elem_of_join in H2 as (l & Hin & Hl). apply list_elem_of_In, in_map_iff in Hl as (c2 & <- & Hc2).
    apply list_elem_of_In, in_map_iff in Hin as (w & E & _). apply list_elem_of_In in Hc2.
    rewrite Forall_elem in Hk. apply obj_set_inj in E as [_ ->]; [done|by apply Hk|done].
Qed.

Lemma combinations_nodup fields acc : NoDup fields.*1 -> NoDup acc ->
  Forall (fun f => NoDup (values_of (snd f))) fields -> Forall (fun c => forall k, k ∈ fields.*1 -> k ∉ c.*1) acc ->
  NoDup (fold_left extend_combinations fields acc).
Proof.
  revert acc. induction fields as [|[k d] fields IH]; intros acc Hn Ha Hd Hk; cbn [fold_left]; [done|].
  cbn in Hn. apply list.NoDup_cons in Hn as [Hkn Hn]. apply Forall_cons_iff in Hd as [Hd1 Hd].
  apply IH; [done| |done|].
  - apply extend_nodup; [done|done|]. revert Hk. apply Forall_impl. intros c Hc. apply Hc. cbn. by left.
  - apply Forall_elem. intros c Hc. apply list_elem_of_join in Hc as (l & Hin & Hl).
    apply list_elem_of_In, in_map_iff in Hl as (c0 & <- & Hc0). apply list_elem_of_In in Hc0.
    apply list_elem_of_In, in_map_iff in Hin as (v & <- & _). intros j Hj Hin.
    apply obj_set_keys in Hin as [->|Hin]; [done|]. rewrite Forall_elem in Hk.
    apply (Hk c0 Hc0 j); [cbn; by right|done].
Qed.
End Combinations.

Lemma zip_keys {A B} (fields : list (jstr * A)) (vs : list B) (R : jstr * A -> B -> Prop) :
  Forall2 R fields vs -> (zip fields.*1 vs).*1 = fields.*1.
Proof. induction 1 as [|x v xs vs _ _ IH]; [done|]. cbn. by rewrite IH. Qed.

Lemma zip_values {A B} (fields : list (jstr * A)) (vs : list B) (R : jstr * A -> B -> Prop) k v :
  Forall2 R fields vs -> (k, v) ∈ zip fields.*1 vs -> exists d, (k, d) ∈ fields /\ R (k, d) v.
Proof.
  induction 1 as [|[k' d] v' xs vs HR _ IH]; cbn; [intros Hin; by apply not_elem_of_nil in Hin|].
  intros Hin. apply elem_of_cons in Hin as [[= -> ->]|Hin]; [exists d; split; [by left|done]|].
  destruct (IH Hin) as (d' & H1 & H2). exists d'. split; [by right|done].
Qed.

(** The value a combination gives each field determines it. *)
Lemma zip_determined {A} (fields : list (jstr * A)) (vs : list jstr) (R : jstr * A -> jstr -> Prop) (a : jstr -> jstr) :
  Forall2 R fields vs -> NoDup fields.*1 ->
  (forall k d, (k, d) ∈ fields -> obj_get k (zip fields.*1 vs) = Some (a k)) -> vs = map a fields.*1.
Proof.
  induction 1 as [|[k d] v xs vs _ _ IH]; [done|]. intros Hn Ha. cbn in Hn. apply list.NoDup_cons in Hn as [Hk Hn].
  cbn [fmap list_fmap map fst]. f_equal.
  - specialize (Ha k d ltac:(by left)). cbn [fmap list_fmap zip zip_with fst] in Ha.
    rewrite obj_get_cons, bool_decide_eq_true_2 in Ha by done. by injection Ha.
  - apply IH; [done|]. intros k' d' Hin. specialize (Ha k' d' ltac:(by right)). cbn [fmap list_fmap zip zip_with fst] in Ha.
    rewrite obj_get_cons, bool_decide_eq_false_2 in Ha; [done|]. intros <-. apply Hk, list_elem_of_fmap. by exists (k, d').
Qed.

Lemma product_perm (l l' : list (jstr * usage_field)) : Permutation l l' ->
  foldr (fun f n => length (values_of (snd f)) * n)%nat 1%nat l = foldr (fun f n => length (values_of (snd f)) * n)%nat 1%nat l'.
Proof. induction 1; cbn; lia. Qed.

(** The enum fields of a schema and their values. *)
Definition enum_fields (schema : usage_schema) : list (jstr * usage_field) := List.filter is_enum_field schema.

Section Exact.
Context `{Collation} (schema : usage_schema).
Hypothesis Hkeys : NoDup schema.*1.

Notation fields := (getTaskEnumFields (Some schema)).

Lemma fields_perm : Permutation (enum_fields schema) fields.
Proof. apply sort_by_name_perm. Qed.

Lemma fields_nodup : NoDup fields.*1.
Proof using Hkeys. by apply sorted_keys_nodup, filter_keys_nodup. Qed.

Lemma combination_get vs k : Forall2 (fun f v => v ∈ values_of (snd f)) fields vs ->
  obj_get k (build (zip fields.*1 vs) []) = obj_get k (zip fields.*1 vs).
Proof using Hkeys.
  intros Hvs. pose proof fields_nodup as Hn. rewrite build_get.
  - by destruct (obj_get _ (zip _ _)).
  - by rewrite (zip_keys _ _ _ Hvs).
Qed.

(** Values from a choice function. *)
Lemma chosen_values a : (forall k d, (k, d) ∈ enum_fields schema -> a k ∈ values_of d) ->
  Forall2 (fun f v => v ∈ values_of (snd f)) fields (map a fields.*1).
Proof.
  intros Ha. assert (forall k d, (k, d) ∈ fields -> a k ∈ values_of d) as Ha'
    by (intros k d Hin; apply Ha; by rewrite fields_perm).
  induction fields as [|[k d] l IH]; cbn; constructor.
  - apply Ha'. by left.
  - apply IH. intros k' d' Hin. apply Ha'. by right.
Qed.

Lemma chosen_get a k d : (forall k d, (k, d) ∈ enum_fields schema -> a k ∈ values_of d) -> (k, d) ∈ enum_fields schema ->
  obj_get k (build (zip fields.*1 (map a fields.*1)) []) = Some (a k).
Proof using Hkeys.
  intros Ha Hin. pose proof (chosen_values a Ha) as Hvs. rewrite combination_get by done.
  apply obj_get_in; [rewrite (zip_keys _ _ _ Hvs); apply fields_nodup|].
  rewrite fields_perm in Hin. clear -Hin. induction fields as [|[k' d'] l IH]; [by apply not_elem_of_nil in Hin|].
  apply elem_of_cons in Hin as [[= -> ->]|Hin]; cbn; [by left|right; by apply IH].
Qed.
End Exact.

(** the combinations the task editor enumerates are exactly the ways of
    choosing a value for every enum field of the schema: none is repeated, their
    number is the product of the numbers of values, a combination has only
    declared fields with declared values, and every choice is one combination
    and no other. *)
Theorem enum_combinations_exact `{Collation} schema : NoDup schema.*1 ->
  Forall (fun f => NoDup (values_of (snd f))) schema ->
  NoDup (getTaskEnumCombinations (Some schema)) /\
  length (getTaskEnumCombinations (Some schema))
    = foldr (fun f n => length (values_of (snd f)) * n)%nat 1%nat (enum_fields schema) /\
  (forall c k v, c ∈ getTaskEnumCombinations (Some schema) -> obj_get k c = Some v ->
     exists d, (k, d) ∈ enum_fields schema /\ v ∈ values_of d) /\
  (forall a : jstr -> jstr, (forall k d, (k, d) ∈ enum_fields schema -> a k ∈ values_of d) ->
     exists c, c ∈ getTaskEnumCombinations (Some schema) /\
       (forall k d, (k, d) ∈ enum_fields schema -> obj_get k c = Some (a k)) /\
       forall c', c' ∈ getTaskEnumCombinations (Some schema) ->
         (forall k d, (k, d) ∈ enum_fields schema -> obj_get k c' = Some (a k)) -> c' = c).
Proof.
  intros Hk Hd. pose proof (fields_perm schema) as Hp. pose proof (fields_nodup schema Hk) as Hn. split_and!.
  - apply combinations_nodup; [done|apply NoDup_singleton| |].
    + rewrite Forall_elem in Hd. apply Forall_elem. intros f Hf. rewrite <- Hp in Hf. apply Hd.
      by apply list_elem_of_In, filter_In in Hf as [Hf%list_elem_of_In _].
    + apply Forall_cons; [|by apply Forall_nil]. intros k _ Hin. by apply not_elem_of_nil in Hin.
  - unfold getTaskEnumCombinations. rewrite combinations_length, (product_perm _ _ Hp). cbn [length]. lia.
  - intros c k v Hc Hg. apply combinations_spec in Hc as (c0 & vs & Hc0 & Hvs & ->).
    apply list_elem_of_singleton in Hc0 as ->. rewrite combination_get in Hg by done.
    apply obj_get_some in Hg. destruct (zip_values _ _ _ _ _ Hvs Hg) as (d & H1 & H2). exists d. by rewrite Hp.
  - intros a Ha. pose proof (chosen_values schema a Ha) as Hvs. eexists. split_and!.
    + apply combinations_spec. eexists [], _. split_and!; [by left|exact Hvs|reflexivity].
    + intros k d Hin. by eapply chosen_get.
    + intros c' Hc' Hg. apply combinations_spec in Hc' as (c0 & vs & Hc0 & Hvs' & ->).
      apply list_elem_of_singleton in Hc0 as ->. do 2 f_equal. apply (zip_determined _ _ _ a Hvs' Hn).
      intros k d Hin. rewrite <- combination_get by done. apply (Hg k d). by rewrite Hp.
Qed.

(** The order by code units, a collation. *)
Definition code_unit_order : Collation :=
  {| localeCompare a b := if str_ltb a b then -1 else if str_ltb b a then 1 else 0 |}.

Definition clip_schema : usage_schema :=
  [(js "resolution", UsageField None None (Some [js "720p"; js "1080p"]));
   (js "seconds", UsageField (Some Field_number) (Some Unit_second) None);
   (js "mode", UsageField None None (Some [js "fast"; js "pro"; js "max"]));
   (js "tokens", UsageField (Some Field_number) (Some Unit_tokens) None)].

Lemma enum_combinations_exact_witness :
  NoDup (@getTaskEnumCombinations code_unit_order (Some clip_schema)) /\
  length (@getTaskEnumCombinations code_unit_order (Some clip_schema)) = 6%nat.
Proof.
  assert (NoDup clip_schema.*1) as H1 by (apply (bool_decide_unpack _); vm_compute; exact I).
  assert (Forall (fun f => NoDup (values_of (snd f))) clip_schema) as H2
    by (apply (bool_decide_unpack _); vm_compute; exact I).
  destruct (@enum_combinations_exact code_unit_order clip_schema H1 H2) as (Ha & Hb & _).
  split; [exact Ha|rewrite Hb; vm_compute; reflexivity].
Defined.

(** ** Normal configurations *)
Definition valid_price (x : num) : bool := is_finite x && n_leb n_zero x.

Lemma price_or_zero_ok x : valid_price (price_or_zero x) = true.
Proof. unfold price_or_zero, valid_price. by destruct (is_finite x && n_leb n_zero x) eqn:E. Qed.

Lemma price_or_zero_id x : valid_price x = true -> price_or_zero x = x.
Proof. unfold price_or_zero, valid_price. by intros ->. Qed.

(** What the editor relies on: a label, declared conditions, valid prices, and
    a price for exactly the number fields. *)
Record tier_normal `{Collation} (schema : usage_schema) (t : visual_tier) : Prop := {
  tn_label : vr_label t <> [];
  tn_conditions : Forall (fun c => declared_value schema c = true) (vr_conditions t);
  tn_constant : valid_price (vr_constant t) = true;
  tn_fields : forall k, is_Some (obj_get k (vr_unitPrices t)) <-> k ∈ (getTaskNumberFields (Some schema)).*1;
  tn_prices : forall k x, obj_get k (vr_unitPrices t) = Some x -> valid_price x = true;
}.

Lemma from_entries_build {A} (l : list (jstr * A)) : from_entries l = build l [].
Proof. done. Qed.

Section Normal.
Context `{Collation} (schema : usage_schema).
Hypothesis Hkeys : NoDup schema.*1.

Notation number_fields := (getTaskNumberFields (Some schema)).

Lemma number_fields_nodup : NoDup number_fields.*1.
Proof using Hkeys. by apply sorted_keys_nodup, filter_keys_nodup. Qed.

(** An object with one property per number field. *)
Definition priced {A} (g : jstr -> A) : list (jstr * A) := from_entries (map (fun f => (fst f, g (fst f))) number_fields).

Lemma priced_get {A} (g : jstr -> A) k :
  obj_get k (priced g) = if bool_decide (k ∈ number_fields.*1) then Some (g k) else None.
Proof using Hkeys.
  pose proof number_fields_nodup as Hn. unfold priced.
  assert ((map (fun f => (fst f, g (fst f))) number_fields).*1 = number_fields.*1) as Ek
    by (clear; induction number_fields as [|f l IH]; [done|]; cbn; by rewrite IH).
  rewrite from_entries_build, build_get by by rewrite Ek. case_bool_decide as Hk.
  - rewrite (obj_get_in k (g k)); [done|by rewrite Ek|]. apply list_elem_of_fmap in Hk as (f & -> & Hf).
    apply list_elem_of_In, in_map_iff. exists f. split; [done|by apply list_elem_of_In].
  - by rewrite obj_get_none by by rewrite Ek.
Qed.

Lemma priced_ext {A} (g h : jstr -> A) : (forall k, k ∈ number_fields.*1 -> g k = h k) -> priced g = priced h.
Proof.
  intros E. unfold priced. f_equal. apply map_ext_in. intros [k d] Hin. f_equal. apply E.
  apply list_elem_of_fmap. exists (k, d). split; [done|by apply list_elem_of_In].
Qed.

Lemma normal_tier_normal i t : tier_normal schema (normal_tier schema i t).
Proof using Hkeys.
  set (g k := price_or_zero (default S754_nan (obj_get k (vr_unitPrices t)))).
  assert (vr_unitPrices (normal_tier schema i t) = priced g) as Ep by done. constructor.
  - cbn. unfold normal_label. by destruct (vr_label t), i.
  - cbn. apply Forall_elem. intros c Hc. by apply list_elem_of_In, filter_In in Hc as [_ ?].
  - apply price_or_zero_ok.
  - intros k. rewrite Ep, priced_get. case_bool_decide; [by split; [|eauto]|]. split; [by intros [? ?]|done].
  - intros k x. rewrite Ep, priced_get. case_bool_decide; [intros [= <-]; apply price_or_zero_ok|done].
Qed.

Lemma normal_tier_id i t : tier_normal schema t -> vr_unitPrices t = priced (fun k => default n_zero (obj_get k (vr_unitPrices t))) ->
  normal_tier schema i t = t.
Proof using Hkeys.
  intros [H1 H2 H3 H4 H5] Ep. unfold normal_tier.
  fold (priced (fun k => price_or_zero (default S754_nan (obj_get k (vr_unitPrices t))))).
  rewrite price_or_zero_id by done. assert (normal_label (vr_label t) i = vr_label t) as -> by by destruct (vr_label t).
  assert (List.filter (declared_value schema) (vr_conditions t) = vr_conditions t) as ->.
  { clear -H2. induction H2 as [|c cs Hc _ IH]; [done|]. cbn. by rewrite Hc, IH. }
  rewrite (priced_ext _ (fun k => default n_zero (obj_get k (vr_unitPrices t)))), <- Ep; [by destruct t|].
  intros k Hk. apply H4 in Hk as [x Hx]. rewrite Hx. cbn. apply price_or_zero_id. by eapply H5.
Qed.

Lemma normal_tier_prices i t : vr_unitPrices (normal_tier schema i t)
  = priced (fun k => default n_zero (obj_get k (vr_unitPrices (normal_tier schema i t)))).
Proof using Hkeys.
  set (g k := price_or_zero (default S754_nan (obj_get k (vr_unitPrices t)))).
  change (vr_unitPrices (normal_tier schema i t)) with (priced g). apply priced_ext. intros k Hk.
  by rewrite priced_get, bool_decide_eq_true_2.
Qed.

Lemma default_tier_normal : normal_tier schema 0 (VisualTier (js "base") [] n_zero []) = VisualTier (js "base") [] n_zero (zero_prices schema).
Proof. unfold normal_tier, zero_prices. by cbn. Qed.

Lemma normalize_cases config : exists tiers, tiers <> [] /\
  normalizeTaskVisualConfig config schema = imap (normal_tier schema) tiers.
Proof.
  destruct config as [[|t ts]|]; [exists [VisualTier (js "base") [] n_zero []]|exists (t :: ts)|exists [VisualTier (js "base") [] n_zero []]];
    (split; [done|]); [..|]; try done.
Qed.
End Normal.

(** normalising a configuration of the task editor establishes its
    invariant and is idempotent: the result is not empty, every tier has a
    label, only conditions the schema declares, finite non-negative prices, and a
    price for exactly the number fields of the schema; normalising it again
    changes nothing. *)
Theorem normalize_config_invariant `{Collation} config schema : NoDup schema.*1 ->
  let normal := normalizeTaskVisualConfig config schema in
  normal <> [] /\ Forall (tier_normal schema) normal /\
  normalizeTaskVisualConfig (Some normal) schema = normal.
Proof.
  intros Hk normal. destruct (normalize_cases schema config) as (tiers & Hne & E). fold normal in E. rewrite E.
  assert (imap (normal_tier schema) tiers <> []) as Hne' by by destruct tiers. split_and!; [done| |].
  - apply Forall_elem. intros t Ht. apply elem_of_lookup_imap in Ht as (i & t0 & -> & _). by apply normal_tier_normal.
  - assert (normalizeTaskVisualConfig (Some (imap (normal_tier schema) tiers)) schema
      = imap (normal_tier schema) (imap (normal_tier schema) tiers)) as -> by (by destruct (imap _ tiers)).
    apply list_eq. intros i. rewrite !list_lookup_imap. destruct (tiers !! i); [|done]. cbn. f_equal.
    apply normal_tier_id; [done|by apply normal_tier_normal|by apply normal_tier_prices].
Qed.

Lemma normalize_config_invariant_witness :
  let config := Some [VisualTier [] [TaskCondition (js "mode") (js "pro"); TaskCondition (js "mode") (js "none")]
                        (n_neg n_one) [(js "seconds", n_of_Z 2)]] in
  let normal := @normalizeTaskVisualConfig code_unit_order config clip_schema in
  normal <> [] /\ @normalizeTaskVisualConfig code_unit_order (Some normal) clip_schema = normal.
Proof.
  intros config normal.
  assert (NoDup clip_schema.*1) as H1 by (apply (bool_decide_unpack _); vm_compute; exact I).
  destruct (@normalize_config_invariant code_unit_order config clip_schema H1) as (Ha & _ & Hb).
  split; [exact Ha|exact Hb].
Defined.
