(* ===== verification/TaskMatrixFacts.v ===== *)
(** * A price matrix survives being turned into tiers

    [taskMatrixToTiers] followed by the reading of [tryParseTaskMatrixConfig]
    is the identity on complete matrices. *)
From Stdlib Require Import SpecFloat.
From stdpp Require Import strings.
From S2P Require Import Prelude JsString JsNumber JsNumberFacts JsValue Syntax Compile Runtime Display TaskTiers.
From S2P Require Import Structure RequestRules TierSummary TaskConfig TaskConfigFacts.

#[local] Open Scope Z_scope.

(** A tier of the editor as the reader of expressions returns it. *)
Definition task_of_visual (t : visual_tier) : task_tier :=
  TaskTier None (vr_label t) (vr_conditions t) (vr_constant t) (vr_unitPrices t).

(** A price that numeric equality identifies: not NaN and not minus zero. *)
Definition plain_price (x : num) : bool :=
  match x with S754_zero s => negb s | S754_finite _ _ _ => true | _ => false end.

Lemma compare_finite_eq s m e m' e' : SFcompare (S754_finite s m e) (S754_finite s m' e') = Some Eq -> m = m' /\ e = e'.
Proof.
  cbn. change (Pos.compare_cont Eq m m') with (Pos.compare m m').
  destruct s, (Z.compare_spec e e') as [->|?|?]; try done; destruct (Pos.compare_spec m m') as [->|?|?]; done.
Qed.

Lemma plain_price_eq x y : plain_price x = true -> plain_price y = true -> n_eqb x y = true -> x = y.
Proof.
  unfold n_eqb, SFeqb. intros Hx Hy He.
  destruct x as [[]| | |s m e], y as [[]| | |s' m' e']; try done; [destruct s'; done..| |]; try (destruct s; done).
  assert (s = s') as <- by (by destruct s, s').
  destruct (SFcompare (S754_finite s m e) (S754_finite s m' e')) as [[]|] eqn:E; try done.
  by apply compare_finite_eq in E as [-> ->].
Qed.

Lemma plain_price_refl x : plain_price x = true -> n_eqb x x = true.
Proof. intros H. apply n_eqb_refl. by destruct x. Qed.

Section Matrix.
Context `{Collation} (schema : usage_schema).
Hypothesis Hkeys : NoDup schema.*1.

Notation number_fields := (getTaskNumberFields (Some schema)).
Notation combinations := (getTaskEnumCombinations (Some schema)).

(** A row with plain prices for exactly the number fields. *)
Record row_ok (r : matrix_row) : Prop := {
  ro_constant : plain_price (mr_constant r) = true;
  ro_prices : exists g, mr_unitPrices r = priced schema g /\ forall k, plain_price (g k) = true;
}.

Lemma own_prices_priced prices : own_prices number_fields prices = priced schema (fun k => default n_zero (obj_get k prices)).
Proof. done. Qed.

Lemma own_prices_id r : row_ok r -> own_prices number_fields (mr_unitPrices r) = mr_unitPrices r.
Proof using Hkeys.
  intros [_ (g & -> & _)]. rewrite own_prices_priced. apply priced_ext. intros k Hk.
  by rewrite priced_get, bool_decide_eq_true_2.
Qed.

Lemma own_prices_twice prices : own_prices number_fields (own_prices number_fields prices) = own_prices number_fields prices.
Proof using Hkeys.
  rewrite !own_prices_priced. apply priced_ext. intros k Hk. by rewrite priced_get, bool_decide_eq_true_2.
Qed.

Lemma same_prices_eq r0 r : row_ok r0 -> row_ok r -> same_prices number_fields r0 r = true ->
  mr_constant r = mr_constant r0 /\ mr_unitPrices r = mr_unitPrices r0.
Proof using Hkeys.
  intros [Hc0 (g0 & E0 & Hg0)] [Hc (g & E & Hg)]. unfold same_prices. rewrite E, E0. intros Hs.
  apply andb_true_split in Hs as [Hs Hp]. split; [by apply plain_price_eq|]. apply priced_ext. intros k Hk.
  rewrite forallb_forall in Hp. pose proof Hk as Hin. apply list_elem_of_fmap in Hin as (f & -> & Hf).
  specialize (Hp f (proj1 (list_elem_of_In _ _) Hf)). rewrite !priced_get, !bool_decide_eq_true_2 in Hp by done.
  by apply plain_price_eq.
Qed.

Lemma same_prices_refl r : row_ok r -> same_prices number_fields r r = true.
Proof using Hkeys.
  intros [Hc (g & E & Hg)]. unfold same_prices. rewrite plain_price_refl by done. cbn [andb].
  apply forallb_forall. intros f _. rewrite E, priced_get by done. case_bool_decide; [|done]. by apply plain_price_refl.
Qed.

(** ** Combinations as objects *)
Lemma build_nodup {A} (l o : list (jstr * A)) : NoDup o.*1 -> NoDup (build l o).*1.
Proof.
  unfold build. revert o. induction l as [|[k x] l IH]; intros o Ho; cbn [fold_left fst snd]; [done|]. apply IH.
  unfold obj_set. case_bool_decide as Hk.
  - assert ((obj_update k x o).*1 = o.*1) as ->; [|done]. clear. induction o as [|[k' y] o IH]; [done|]. cbn.
    case_bool_decide; cbn; by rewrite ?IH.
  - rewrite <- obj_insert_perm. cbn. by apply list.NoDup_cons.
Qed.

Lemma combination_nodup c : c ∈ combinations -> NoDup c.*1.
Proof.
  intros Hc. apply combinations_spec in Hc as (c0 & vs & Hc0 & _ & ->).
  apply list_elem_of_singleton in Hc0 as ->. apply build_nodup, NoDup_nil_2.
Qed.

Lemma combination_entries c k v : c ∈ combinations -> (k, v) ∈ c ->
  exists d, (k, d) ∈ enum_fields schema /\ v ∈ default [] (uf_enum d).
Proof using Hkeys.
  intros Hc Hin. pose proof (obj_get_in _ _ _ (combination_nodup c Hc) Hin) as Hg.
  apply combinations_spec in Hc as (c0 & vs & Hc0 & Hvs & ->). apply list_elem_of_singleton in Hc0 as ->.
  rewrite combination_get in Hg by done. apply obj_get_some in Hg.
  destruct (zip_values _ _ _ _ _ Hvs Hg) as (d & H1 & H2). exists d. by rewrite (fields_perm schema).
Qed.

(** A combination is determined by the entries of another it agrees with. *)
Lemma combination_agree c c' : c ∈ combinations -> c' ∈ combinations ->
  (forall k v, (k, v) ∈ c' -> obj_get k c = Some v) -> c = c'.
Proof using Hkeys.
  intros Hc Hc' Hg. apply combinations_spec in Hc as (c0 & vs & Hc0 & Hvs & ->).
  apply combinations_spec in Hc' as (c0' & vs' & Hc0' & Hvs' & ->).
  apply list_elem_of_singleton in Hc0 as ->. apply list_elem_of_singleton in Hc0' as ->. do 2 f_equal.
  set (a k := default [] (obj_get k (zip (getTaskEnumFields (Some schema)).*1 vs'))).
  assert (forall k d, (k, d) ∈ getTaskEnumFields (Some schema) ->
    obj_get k (zip (getTaskEnumFields (Some schema)).*1 vs') = Some (a k)) as Ha.
  { intros k d Hin. unfold a. destruct (obj_get k _) as [v|] eqn:E; [done|].
    pose proof (zip_keys _ _ _ Hvs') as Ek.
    assert (k ∈ (zip (getTaskEnumFields (Some schema)).*1 vs').*1) as Hk
      by (rewrite Ek; apply list_elem_of_fmap; by exists (k, d)).
    apply list_elem_of_fmap in Hk as ([k' v] & -> & Hk). pose proof (fields_nodup schema Hkeys) as Hn.
    cbn [fst] in E. rewrite (obj_get_in _ v) in E; [done| |exact Hk]. by rewrite Ek. }
  pose proof (fields_nodup schema Hkeys) as Hn.
  rewrite (zip_determined _ _ _ a Hvs' Hn Ha). apply (zip_determined _ _ _ a Hvs Hn). intros k d Hin.
  rewrite <- combination_get by done. apply Hg, obj_get_some. rewrite combination_get by done. by eapply Ha.
Qed.

(** ** Rows and their tiers *)
Lemma conditions_in (row : matrix_row) c : c ∈ row_conditions_of row <-> (tk_field c, tk_value c) ∈ mr_combination row.
Proof.
  unfold row_conditions_of. pose proof (sort_by_name_perm (mr_combination row)) as Hp. split.
  - intros Hin. apply list_elem_of_In, in_map_iff in Hin as ([k v] & <- & Hin). rewrite Hp. by apply list_elem_of_In.
  - intros Hin. rewrite Hp in Hin. apply list_elem_of_In, in_map_iff. exists (tk_field c, tk_value c).
    split; [by destruct c|by apply list_elem_of_In].
Qed.

Lemma row_matches_spec c row label constant prices : c ∈ combinations -> mr_combination row ∈ combinations ->
  row_matches c (TaskTier None label (row_conditions_of row) constant prices) = true <-> c = mr_combination row.
Proof using Hkeys.
  intros Hc Hr. unfold row_matches. cbn [kt_conditions]. rewrite forallb_forall. split.
  - intros Hall. apply combination_agree; [done|done|]. intros k v Hin.
    specialize (Hall (TaskCondition k v)). apply (bool_decide_unpack _). apply Is_true_true, Hall.
    apply list_elem_of_In. by apply conditions_in.
  - intros -> [k v] Hin. apply list_elem_of_In, conditions_in in Hin. apply bool_decide_eq_true_2.
    by apply obj_get_in; [apply combination_nodup|].
Qed.

Lemma valid_declared (l : list (jstr * jstr)) seen : NoDup l.*1 -> (forall k, k ∈ l.*1 -> k ∉ seen) ->
  (forall k v, (k, v) ∈ l -> exists d, (k, d) ∈ enum_fields schema /\ v ∈ default [] (uf_enum d)) ->
  valid_conditions schema (map (fun p => TaskCondition (fst p) (snd p)) l) seen = true.
Proof using Hkeys.
  revert seen. induction l as [|[k v] l IH]; intros seen Hn Hs Hd; [done|]. cbn in Hn. apply list.NoDup_cons in Hn as [Hk Hn].
  cbn [map valid_conditions fst snd tk_field tk_value].
  rewrite bool_decide_eq_false_2 by (apply Hs; cbn; by left). cbn [negb andb].
  destruct (Hd k v ltac:(by left)) as (d & Hin & Hv). unfold enum_fields in Hin.
  apply list_elem_of_In, filter_In in Hin as [Hin He]. apply list_elem_of_In in Hin.
  unfold schema_get. rewrite (obj_get_in k d schema) by done. unfold is_enum_field in He. cbn [snd] in He.
  destruct d as [ty u [vs|]]; [|done]. cbn in Hv. rewrite bool_decide_eq_true_2 by done. cbn [andb].
  apply IH; [done| |].
  - intros j Hj Hin'. apply elem_of_cons in Hin' as [->|Hin']; [done|]. apply (Hs j); [cbn; by right|done].
  - intros k' v' Hin'. apply Hd. by right.
Qed.

Lemma row_conditions_valid row : mr_combination row ∈ combinations ->
  valid_conditions schema (row_conditions_of row) [] = true.
Proof using Hkeys.
  intros Hr. apply valid_declared.
  - apply sorted_keys_nodup, (combination_nodup _ Hr).
  - intros k _ Hin. by apply not_elem_of_nil in Hin.
  - intros k v Hin. rewrite <- sort_by_name_perm in Hin. by eapply combination_entries.
Qed.

Notation tiers_of rows := (map task_of_visual (matrix_tiers number_fields rows)).

Lemma find_row rows r : Forall (fun r => mr_combination r ∈ combinations) rows -> NoDup (map mr_combination rows) ->
  Forall row_ok rows -> r ∈ rows ->
  exists t, List.find (row_matches (mr_combination r)) (tiers_of rows) = Some t /\
    row_of_tier number_fields (mr_combination r) t = r.
Proof using Hkeys.
  intros Hc Hn Hok Hr. assert (row_ok r) as Hrok by (rewrite Forall_elem in Hok; by apply Hok).
  assert (forall conds, row_of_tier number_fields (mr_combination r)
    (TaskTier None (taskMatrixRowLabel (mr_combination r)) conds (mr_constant r) (own_prices number_fields (mr_unitPrices r))) = r) as Hrow.
  { intros conds. unfold row_of_tier. cbn [kt_constant kt_unitPrices]. rewrite own_prices_twice, own_prices_id by done. by destruct r. }
  induction rows as [|r0 rest IH]; [by apply not_elem_of_nil in Hr|].
  apply Forall_cons_iff in Hc as [Hc0 Hc]. apply Forall_cons_iff in Hok as [_ Hok]. cbn in Hn. apply list.NoDup_cons in Hn as [Hn0 Hn].
  cbn [matrix_tiers map List.find]. unfold task_of_visual at 1 2. cbn [vr_label vr_conditions vr_constant vr_unitPrices].
  destruct rest as [|r1 rest].
  { apply list_elem_of_singleton in Hr as ->. eexists. split; [reflexivity|apply Hrow]. }
  apply elem_of_cons in Hr as [->|Hr].
  - rewrite (proj2 (row_matches_spec _ _ _ _ _ Hc0 Hc0) eq_refl). eexists. split; [reflexivity|apply Hrow].
  - assert (mr_combination r ∈ combinations) as Hrc by (rewrite Forall_elem in Hc; by apply Hc).
    destruct (row_matches _ _) eqn:E; [|by apply IH]. apply row_matches_spec in E; [|done|done]. destruct Hn0. rewrite <- E.
    apply list_elem_of_In, in_map. by apply list_elem_of_In.
Qed.

Lemma mapM_rows (f : list (jstr * jstr) -> option matrix_row) rows : (forall r, r ∈ rows -> f (mr_combination r) = Some r) ->
  mapM f (map mr_combination rows) = Some rows.
Proof.
  induction rows as [|r rows IH]; intros Hf; [done|]. cbn. rewrite Hf by by left. cbn. rewrite IH; [done|].
  intros r' Hr. apply Hf. by right.
Qed.

Lemma last_tier r rest : exists t, list.last (tiers_of (r :: rest)) = Some t /\ kt_conditions t = [].
Proof.
  revert r. induction rest as [|r1 rest IH]; intros r; [by eexists|]. destruct (IH r1) as (t & Hl & Ht). exists t. split; [|done].
  by rewrite <- Hl.
Qed.

Lemma tiers_valid rows : Forall (fun r => mr_combination r ∈ combinations) rows ->
  forallb (fun t => valid_conditions schema (kt_conditions t) []) (tiers_of rows) = true.
Proof using Hkeys.
  induction 1 as [|r rest Hr _ IH]; [done|]. cbn [matrix_tiers map forallb]. rewrite IH, andb_true_r. cbn.
  destruct rest; [done|]. by apply row_conditions_valid.
Qed.

Lemma forallb_removelast {A} (f : A -> bool) l : forallb f l = true -> forallb f (removelast l) = true.
Proof.
  induction l as [|x l IH]; [done|]. cbn [forallb]. intros Hl. apply andb_true_split in Hl as [Hx Hl].
  destruct l as [|y l]; [done|]. change (removelast (x :: y :: l)) with (x :: removelast (y :: l)). cbn [forallb].
  rewrite Hx. by apply IH.
Qed.

Lemma uneven_matrix r0 r1 rest : map mr_combination (r0 :: r1 :: rest) = combinations -> NoDup combinations ->
  Forall row_ok (r0 :: r1 :: rest) -> matrix_of_tiers schema (tiers_of (r0 :: r1 :: rest)) = Some (r0 :: r1 :: rest).
Proof using Hkeys.
  intros Em Hn Hok. assert (Forall (fun r => mr_combination r ∈ combinations) (r0 :: r1 :: rest)) as Hc.
  { rewrite <- Em. apply Forall_elem. intros r Hr. apply list_elem_of_In, in_map. by apply list_elem_of_In. }
  destruct (last_tier r0 (r1 :: rest)) as (t & Hl & Ht). pose proof (forallb_removelast _ _ (tiers_valid _ Hc)) as Hv.
  assert (mapM (fun c => row_of_tier number_fields c <$> List.find (row_matches c) (tiers_of (r0 :: r1 :: rest))) combinations
    = Some (r0 :: r1 :: rest)) as Hm.
  { rewrite <- Em at 1. apply mapM_rows. intros r Hr. rewrite <- Em in Hn.
    destruct (find_row _ r Hc Hn Hok Hr) as (t' & -> & Hrow). cbn [fmap option_fmap option_map]. by rewrite Hrow. }
  unfold matrix_of_tiers. revert Hl Hv Hm.
  assert (exists t0 t1 ts, tiers_of (r0 :: r1 :: rest) = t0 :: t1 :: ts) as (t0 & t1 & ts & ->) by (cbn; by eauto).
  intros Hl Hv Hm. rewrite Hl, Hv, Hm. destruct t0 as [? ? []], t as [? ? []]; done.
Qed.
End Matrix.

(** C30: a complete price matrix of the task editor survives being turned into
    tiers: for a matrix with one row per combination of the schema and a price
    per number field, reading the tiers the editor makes of it (one tier when
    all rows agree, else one per row with the last as the fallback) gives back
    the same rows. *)
Theorem matrix_roundtrip `{Collation} schema rows : NoDup schema.*1 ->
  Forall (fun f => NoDup (default [] (uf_enum (snd f)))) schema -> getTaskNumberFields (Some schema) <> [] ->
  map mr_combination rows = getTaskEnumCombinations (Some schema) -> rows <> [] -> Forall (row_ok schema) rows ->
  matrix_of_tiers schema (map task_of_visual (taskMatrixToTiers rows schema)) = Some rows.
Proof.
  intros Hk He Hf Em Hne Hok. unfold taskMatrixToTiers. destruct (getTaskNumberFields (Some schema)) as [|f0 fs] eqn:Ef; [done|].
  rewrite <- Ef. clear f0 fs Ef Hf. destruct rows as [|r0 rest]; [done|].
  pose proof Hok as Hok'. apply Forall_cons_iff in Hok' as [Hr0 _].
  destruct (forallb _ (r0 :: rest)) eqn:Eu.
  - cbn [map matrix_of_tiers task_of_visual vr_conditions]. f_equal. rewrite <- Em, List.map_map.
    rewrite <- (map_id (r0 :: rest)) at 2. apply map_ext_in. intros r Hr. rewrite forallb_forall in Eu.
    rewrite Forall_elem in Hok. assert (row_ok schema r) as Hrok by by apply Hok, list_elem_of_In.
    destruct (same_prices_eq schema Hk r0 r Hr0 Hrok (Eu r Hr)) as [E1 E2].
    unfold row_of_tier, task_of_visual. cbn [kt_constant kt_unitPrices vr_constant vr_unitPrices].
    rewrite own_prices_twice, own_prices_id, <- E1, <- E2 by done. by destruct r.
  - destruct rest as [|r1 rest].
    { cbn [forallb] in Eu. by rewrite same_prices_refl in Eu. }
    apply uneven_matrix; try done. apply combinations_nodup; [by apply fields_nodup|apply NoDup_singleton| |].
    + rewrite Forall_elem in He. apply Forall_elem. intros f Hin. rewrite <- fields_perm in Hin. apply He.
      by apply list_elem_of_In, filter_In in Hin as [Hin%list_elem_of_In _].
    + apply Forall_cons; [|by apply Forall_nil]. intros k _ Hin. by apply not_elem_of_nil in Hin.
Qed.

(** A matrix over [clip_schema] whose rows differ. *)
Definition clip_row (price : Z) (combination : list (jstr * jstr)) : matrix_row :=
  MatrixRow combination (n_of_Z price) (@priced code_unit_order clip_schema num (fun _ => n_of_Z (price + 1))).

Definition clip_matrix : list matrix_row :=
  zip_with clip_row [1; 2; 3; 4; 5; 6] (@getTaskEnumCombinations code_unit_order (Some clip_schema)).

Lemma matrix_roundtrip_witness :
  length clip_matrix = 6%nat /\
  @matrix_of_tiers code_unit_order clip_schema
    (map task_of_visual (@taskMatrixToTiers code_unit_order clip_matrix clip_schema)) = Some clip_matrix.
Proof.
  assert (NoDup clip_schema.*1) as H1 by (apply (bool_decide_unpack _); vm_compute; exact I).
  assert (Forall (fun f => NoDup (default [] (uf_enum (snd f)))) clip_schema) as H2
    by (apply (bool_decide_unpack _); vm_compute; exact I).
  assert (Forall (@row_ok code_unit_order clip_schema) clip_matrix) as H3.
  { change clip_matrix with (zip_with clip_row [1; 2; 3; 4; 5; 6] (@getTaskEnumCombinations code_unit_order (Some clip_schema))).
    vm_compute (@getTaskEnumCombinations _ _). cbn [zip_with].
    repeat (apply Forall_cons; [constructor; [vm_compute; reflexivity|eexists; split; [reflexivity|intros k; vm_compute; reflexivity]]|]).
    apply Forall_nil; exact I. }
  split; [vm_compute; reflexivity|].
  apply (@matrix_roundtrip code_unit_order clip_schema clip_matrix H1 H2);
    [vm_compute; discriminate|vm_compute; reflexivity|vm_compute; discriminate|exact H3].
Defined.
