(* ===== verification/PriceTable.v ===== *)
(** * The task price table of the marketplace

    Models [task-matrix-display.ts]: the matrix of a task expression as rows of
    a table, and the rows of its tiers, where the last row, which has no
    condition, is given one when exactly one combination of facts is left for
    it.  The theorem says that naming the last row is right: the row that holds
    is still the row charged, and the last row holds exactly when no other
    does. *)
From Stdlib Require Import SpecFloat.
From stdpp Require Import strings.
From S2P Require Import Prelude JsString JsNumber JsValue Syntax SyntaxFacts Compile Runtime TaskTiers TaskDisplay.
From S2P Require Import Semantics TaskFacts RequestRules TierSummary TaskConfig.

#[local] Open Scope Z_scope.

(** ** Rows of a matrix *)
Definition matrix_display_row `{Collation} (row : matrix_row) : task_tier :=
  TaskTier None (taskMatrixRowLabel (mr_combination row))
    (map (fun p => TaskCondition (fst p) (snd p)) (sort_by_name (mr_combination row)))
    (mr_constant row) (mr_unitPrices row).

Definition getTaskMatrixDisplayTiers `{Collation} (expression : option jstr) (schema : option usage_schema)
  : outcome (option (list task_tier)) :=
  match schema with
  | None => Ok None
  | Some schema =>
      match getTaskEnumFields (Some schema) with
      | [] => Ok None
      | _ =>
          let* matrix := tryParseTaskMatrixConfig expression schema in
          Ok (map matrix_display_row <$> matrix)
      end
  end.

(** ** Rows of tiers *)

(** [sort()] without a comparison: by code units, stable. *)
Fixpoint insert_by_units (x : jstr) (l : list jstr) : list jstr :=
  match l with
  | [] => [x]
  | y :: l' => if str_leb x y then x :: l else y :: insert_by_units x l'
  end.

Definition sort_strings (l : list jstr) : list jstr := foldr insert_by_units [] l.

(** [[...new Set(previous.flatMap(...))].sort()] *)
Definition condition_fields (previous : list task_tier) : list jstr :=
  sort_strings (fold_left (fun fields c => set_add (tk_field c) fields)
    (concat (map kt_conditions previous)) []).

(** The values a field can take. *)
Definition named_values (schema : usage_schema) (field : jstr) : option (list jstr) :=
  match schema_get schema field with
  | Some definition =>
      if bool_decide (uf_type definition = Some Field_boolean) then Some [js "false"; js "true"]
      else uf_enum definition
  | None => None
  end.

(** The loop over the fields; [None] where it returns the tiers as they are. *)
Fixpoint name_combinations (schema : usage_schema) (fields : list jstr) (combinations : list (list task_condition))
  : option (list (list task_condition)) :=
  match fields with
  | [] => Some combinations
  | field :: fields =>
      match named_values schema field with
      | None | Some [] => None
      | Some values =>
          if (256 <? length combinations * length values)%nat then None else
          name_combinations schema fields
            (concat (map (fun combination => map (fun value => combination ++ [TaskCondition field value]) values)
              combinations))
      end
  end.

(** [tier.conditions.every((condition) => combination.some(...))] *)
Definition covered_by (combination : list task_condition) (tier : task_tier) : bool :=
  forallb (fun c => existsb (fun v => bool_decide (tk_field v = tk_field c) && bool_decide (tk_value v = tk_value c))
    combination) (kt_conditions tier).

Definition with_conditions (tier : task_tier) (conditions : list task_condition) : task_tier :=
  TaskTier (kt_conditionText tier) (kt_label tier) conditions (kt_constant tier) (kt_unitPrices tier).

(** The part of [getTaskPricingDisplayTiers] after its early returns. *)
Definition name_fallback (schema : usage_schema) (tiers : list task_tier) (fallback : task_tier) : list task_tier :=
  let previous := removelast tiers in
  match name_combinations schema (condition_fields previous) [[]] with
  | None => tiers
  | Some combinations =>
      match List.filter (fun combination => negb (existsb (covered_by combination) previous)) combinations with
      | [remaining] => previous ++ [with_conditions fallback remaining]
      | _ => tiers
      end
  end.

Definition getTaskPricingDisplayTiers (expression : option jstr) (schema : option usage_schema)
  : outcome (list task_tier) :=
  let* tiers := parseTaskTiersFromExpr (default [] expression) schema true in
  match tiers, expression, schema with
  | [], Some ((_ :: _) as expression), Some schema =>
      let* parts := splitBillingExprAndRequestRules expression in
      let* rows := readConditionalTaskPricing (se_billingExpr parts) schema in
      Ok (default [] rows)
  | _, _, _ =>
      match schema, list.last tiers with
      | Some schema, Some fallback =>
          if (length tiers <? 2)%nat then Ok tiers else Ok (name_fallback schema tiers fallback)
      | _, _ => Ok tiers
      end
  end.

(** ** Naming the last row *)
Lemma elem_of_insert_by_units x y l : y ∈ insert_by_units x l <-> y = x \/ y ∈ l.
Proof.
  induction l as [|z l IH]; cbn; [set_solver|]. destruct (str_leb x z); [set_solver|].
  rewrite !elem_of_cons, IH. tauto.
Qed.

Lemma elem_of_sort_strings y l : y ∈ sort_strings l <-> y ∈ l.
Proof.
  induction l as [|x l IH]; [done|]. cbn [sort_strings foldr]. fold (sort_strings l).
  rewrite elem_of_insert_by_units, IH, elem_of_cons. done.
Qed.

Lemma elem_of_condition_fields field previous : field ∈ condition_fields previous <->
  exists t c, t ∈ previous /\ c ∈ kt_conditions t /\ field = tk_field c.
Proof.
  unfold condition_fields. rewrite elem_of_sort_strings.
  assert (forall l acc, field ∈ fold_left (fun fields c => set_add (tk_field c) fields) l acc <->
    field ∈ acc \/ exists c, c ∈ l /\ field = tk_field c) as Hfold.
  { induction l as [|c l IH]; intros acc; cbn [fold_left]; [set_solver|]. rewrite IH, elem_of_set_add. set_solver. }
  rewrite Hfold. split.
  - intros [Hin|(c & Hin & ->)]; [by apply not_elem_of_nil in Hin|].
    apply list_elem_of_In, in_concat in Hin as (l & Hl & Hc). apply in_map_iff in Hl as (t & <- & Ht).
    exists t, c. by rewrite !list_elem_of_In.
  - intros (t & c & Ht & Hc & ->). right. exists c. split; [|done]. apply list_elem_of_In, in_concat.
    exists (kt_conditions t). split; [apply in_map_iff; exists t; split; [done|]|]; by apply list_elem_of_In.
Qed.

(** The condition a usage satisfies on a field. *)
Definition fact_value (u : usage) (field : jstr) : jstr :=
  match own_property u field with
  | Some (J_str s) => s
  | Some (J_bool b) => bool_text b
  | _ => []
  end.

Definition reported (u : usage) (field : jstr) : Prop :=
  exists v, own_property u field = Some v /\ match v with J_str _ | J_bool _ => True | _ => False end.

Lemma fact_holds_value u c : reported u (tk_field c) -> fact_holds u c = bool_decide (fact_value u (tk_field c) = tk_value c).
Proof. intros (v & E & Hv). unfold fact_holds, fact_value. rewrite E. by destruct v. Qed.

Lemma named_value schema u field values : conforming schema u -> named_values schema field = Some values ->
  reported u field /\ fact_value u field ∈ values.
Proof.
  intros Hcf E. unfold named_values, schema_get in E. destruct (obj_get field schema) as [d|] eqn:Eg.
  - apply Hcf in Eg. destruct (uf_type d) as [[]|]; cbn in E.
    + destruct (Eg _ E) as (s & Hs & Eu). unfold reported, fact_value. rewrite Eu. split; [by eexists|done].
    + injection E as <-. destruct Eg as [b Eu]. unfold reported, fact_value. rewrite Eu. split; [by eexists|].
      destruct b; set_solver.
    + destruct (Eg _ E) as (s & Hs & Eu). unfold reported, fact_value. rewrite Eu. split; [by eexists|done].
  - by case_bool_decide.
Qed.

Definition facts_of (u : usage) (fields : list jstr) : list task_condition :=
  map (fun field => TaskCondition field (fact_value u field)) fields.

(** The combination a conforming usage reports is enumerated. *)
Lemma name_combinations_complete schema u fields : conforming schema u -> forall start combinations,
  name_combinations schema fields start = Some combinations ->
  Forall (reported u) fields /\
  (forall c, c ∈ start -> c ++ facts_of u fields ∈ combinations) /\
  (forall c, c ∈ combinations -> exists b e, b ∈ start /\ c = b ++ e /\ map tk_field e = fields).
Proof.
  intros Hcf. induction fields as [|field fields IH]; intros start combinations E; cbn [name_combinations] in E.
  { injection E as <-. split_and!; [by constructor| |]; intros c Hc; [by rewrite app_nil_r|].
    exists c, []. by rewrite app_nil_r. }
  destruct (named_values schema field) as [values|] eqn:Ev; [|done].
  destruct values as [|v0 vs]; [done|]. set (values := v0 :: vs) in *. destruct (256 <? _)%nat; [done|].
  destruct (named_value _ _ _ _ Hcf Ev) as [Hr Hin]. apply IH in E as (Hrs & Hc1 & Hc2). split_and!; [by constructor| |].
  - intros c Hc. cbn [facts_of map]. fold (facts_of u fields).
    change (c ++ TaskCondition field (fact_value u field) :: facts_of u fields)
      with (c ++ [TaskCondition field (fact_value u field)] ++ facts_of u fields). rewrite app_assoc. apply Hc1.
    apply list_elem_of_In, in_concat. eexists. split; [apply in_map_iff; exists c; split; [done|by apply list_elem_of_In]|].
    apply in_map_iff. exists (fact_value u field). split; [done|by apply list_elem_of_In].
  - intros c Hc. apply Hc2 in Hc as (b & e & Hb & -> & He). apply list_elem_of_In, in_concat in Hb as (l & Hl & Hb).
    apply in_map_iff in Hl as (b' & <- & Hb'). apply in_map_iff in Hb as (value & <- & _).
    exists b', (TaskCondition field value :: e). rewrite list_elem_of_In. split_and!; [done|by rewrite <- app_assoc|cbn; by rewrite He].
Qed.

Lemma fact_covers u fields c : reported u (tk_field c) -> tk_field c ∈ fields ->
  existsb (fun v => bool_decide (tk_field v = tk_field c) && bool_decide (tk_value v = tk_value c)) (facts_of u fields)
  = fact_holds u c.
Proof.
  intros Hr Hin. rewrite fact_holds_value by done. apply eq_true_iff_eq. rewrite existsb_exists, bool_decide_eq_true. split.
  - intros (v & Hv & Hb). apply in_map_iff in Hv as (f & <- & _). cbn in Hb. bsplit. by subst.
  - intros Ev. exists (TaskCondition (tk_field c) (fact_value u (tk_field c))). split.
    + apply in_map_iff. exists (tk_field c). split; [done|by apply list_elem_of_In].
    + cbn. by rewrite !bool_decide_eq_true_2.
Qed.

(** A tier covers the combination of a usage when it holds for the usage. *)
Lemma covered_holds u fields t : Forall (reported u) fields -> (forall c, c ∈ kt_conditions t -> tk_field c ∈ fields) ->
  covered_by (facts_of u fields) t = tier_holds u t.
Proof.
  intros Hr Hin. unfold covered_by, tier_holds. induction (kt_conditions t) as [|c cs IH]; [done|]. cbn [forallb].
  assert (tk_field c ∈ fields) as Hc by (apply Hin; by left). rewrite Forall_elem in Hr.
  rewrite fact_covers, IH; auto. intros c' Hc'. apply Hin. by right.
Qed.

(** A combination of the fields holds only if it is the one reported. *)
Lemma combination_holds u fields e : Forall (reported u) fields -> map tk_field e = fields ->
  forallb (fact_holds u) e = true <-> e = facts_of u fields.
Proof.
  revert fields. induction e as [|c e IH]; intros fields Hr <-; [done|]. cbn in Hr |- *. apply Forall_cons_iff in Hr as [Hc Hr].
  rewrite andb_true_iff, (IH _ Hr eq_refl), (fact_holds_value _ _ Hc), bool_decide_eq_true. destruct c as [f v]. cbn. split.
  - intros [E1 E2]. unfold facts_of in E2. congruence.
  - intros [= E1 E2]. split; [done|]. exact E2.
Qed.

Lemma chain_last n schema ib tiers all : task_chain n schema ib tiers = Some all ->
  exists previous fallback, all = previous ++ [fallback] /\ kt_conditions fallback = [].
Proof.
  assert (forall m cs t, taskTier m cs schema = Some t -> kt_conditions t = cs) as Ht.
  { intros m cs t E. destruct m as [| |[] [|[[|label| |] sl el| | | | |] [|body rest]] s e| | |]; try done.
    simpl in E. repeat case_match; by simplify_eq. }
  revert tiers. induction n as [| | | | |c y no s e _ _ IH] using node_rect_strong;
    intros tiers E; try (apply fmap_Some in E as (t & E & ->); exists tiers, t; split; [done|by eapply Ht]).
  simpl in E. destruct (taskConditions c schema ib) as [| |cs]; [done|by eapply IH|].
  destruct (existsb _ tiers); [by eapply IH|]. destruct (taskTier y cs schema) as [t|] eqn:Et; [|done].
  destruct cs; [|by eapply IH]. injection E as <-. exists tiers, t. split; [done|by eapply Ht].
Qed.

(** What the table shows of a tier besides its conditions. *)
Definition same_row (a b : task_tier) : Prop :=
  kt_label a = kt_label b /\ kt_constant a = kt_constant b /\ kt_unitPrices a = kt_unitPrices b.

Lemma find_previous {A} (f : A -> bool) l x : List.find f (l ++ [x]) =
  match List.find f l with Some y => Some y | None => if f x then Some x else None end.
Proof. induction l as [|y l IH]; cbn; [by destruct (f x)|]. by destruct (f y). Qed.

Lemma find_none_existsb {A} (f : A -> bool) l : existsb f l = false <-> List.find f l = None.
Proof. induction l as [|y l IH]; cbn; [done|]. by destruct (f y). Qed.

Lemma name_fallback_exact schema u previous fallback : conforming schema u -> kt_conditions fallback = [] ->
  exists last, name_fallback schema (previous ++ [fallback]) fallback = previous ++ [last] /\ same_row last fallback /\
    (kt_conditions last <> [] -> tier_holds u last = negb (existsb (tier_holds u) previous)) /\
    (kt_conditions last = [] -> tier_holds u last = true).
Proof.
  intros Hcf Hk. unfold name_fallback. rewrite removelast_last.
  assert (exists last, previous ++ [fallback] = previous ++ [last] /\ same_row last fallback /\
    (kt_conditions last <> [] -> tier_holds u last = negb (existsb (tier_holds u) previous)) /\
    (kt_conditions last = [] -> tier_holds u last = true)) as Hsame.
  { exists fallback. split_and!; [done|done|by rewrite Hk|]. intros _. unfold tier_holds. by rewrite Hk. }
  destruct (name_combinations schema _ [[]]) as [combinations|] eqn:En; [|done].
  destruct (name_combinations_complete _ u _ Hcf _ _ En) as (Hr & Hfacts & Hshape).
  destruct (List.filter _ combinations) as [|remaining [|? ?]] eqn:Ef; [done| |done].
  exists (with_conditions fallback remaining). split_and!; [done|done| |].
  all: set (fields := condition_fields previous) in *.
  - intros _. assert (existsb (tier_holds u) previous = existsb (covered_by (facts_of u fields)) previous) as ->.
    { apply eq_true_iff_eq. rewrite !existsb_exists. split; intros (t & Ht & E); exists t; (split; [done|]);
        rewrite <- E; [|symmetry]; apply covered_holds; try done; intros c Hc; apply elem_of_condition_fields;
        exists t, c; by rewrite list_elem_of_In. }
    assert (remaining ∈ List.filter (fun combination => negb (existsb (covered_by combination) previous)) combinations) as Hrem
      by (rewrite Ef; by left).
    apply list_elem_of_In, filter_In in Hrem as [Hrem Hnone]. apply list_elem_of_In, Hshape in Hrem as (b & e & Hb & -> & He).
    apply list_elem_of_singleton in Hb as ->. cbn [app] in *. unfold tier_holds, with_conditions. cbn [kt_conditions].
    apply eq_true_iff_eq. rewrite (combination_holds u fields e Hr He). split; [by intros <-|]. intros Hn.
    assert (facts_of u fields ∈ List.filter (fun combination => negb (existsb (covered_by combination) previous)) combinations) as Hin.
    { apply list_elem_of_In, filter_In. split; [|done]. apply list_elem_of_In. apply (Hfacts []). by left. }
    rewrite Ef in Hin. by apply list_elem_of_singleton in Hin as ->.
  - cbn. intros ->. done.
Qed.

Lemma same_row_cost schema u a b cost : same_row a b -> task_cost schema u b cost -> task_cost schema u a cost.
Proof. intros (_ & E1 & E2). unfold task_cost. by rewrite E1, E2. Qed.

(** The rows of an expression whose tiers can be read. *)
Lemma display_rows source parts c schema tiers rows : source <> [] -> schema <> [] ->
  splitBillingExprAndRequestRules source = Ok parts -> compile (se_billingExpr parts) = Ready c ->
  readTaskTierChain (ce_ast c) schema true = Some tiers -> getTaskPricingDisplayTiers (Some source) (Some schema) = Ok rows ->
  exists previous fallback, tiers = previous ++ [fallback] /\ kt_conditions fallback = [] /\
    (rows = tiers \/ rows = name_fallback schema tiers fallback).
Proof.
  intros Hs Hk Hp Hc Ht Hr. destruct (chain_last _ _ _ _ _ Ht) as (previous & fallback & -> & Hf).
  exists previous, fallback. split_and!; [done|done|].
  destruct source as [|z source]; [done|]. destruct schema as [|e schema]; [done|].
  unfold getTaskPricingDisplayTiers, parseTaskTiersFromExpr in Hr. cbn [default from_option id] in Hr.
  rewrite Hp in Hr. cbn [rbind] in Hr. rewrite Hc in Hr. cbn [rbind] in Hr. rewrite Ht in Hr. cbn [default from_option id] in Hr.
  destruct previous as [|t previous]; [left; by injection Hr|]. cbn [app] in Hr. rewrite last_cons, last_snoc in Hr.
  destruct (_ <? 2)%nat; injection Hr as <-; [by left|by right].
Qed.

(** C12: the task price table of the marketplace shows what a task is charged.
    Let the price part of an expression (what splitting off its request rules
    leaves) be a chain that [readTaskTierChain] reads, so that the table has one
    row per tier, and let it read only facts the schema declares.  For a report
    that conforms to the schema, the first row of the table whose conditions the
    report satisfies carries the label of the tier that evaluating the price part
    matches, and its constant and unit prices make up the cost; and when the last
    row was given conditions, it holds exactly when none of the rows before it
    does.  (For the tables of other expressions see [TaskDisplayFacts].) *)
Theorem display_rows_charged `{Platform} source parts c schema tiers rows cx u s :
  source <> [] -> schema <> [] -> splitBillingExprAndRequestRules source = Ok parts ->
  compile (se_billingExpr parts) = Ready c -> readTaskTierChain (ce_ast c) schema true = Some tiers ->
  getTaskPricingDisplayTiers (Some source) (Some schema) = Ok rows ->
  declared schema (ce_ast c) -> cx_usage cx = Some u -> conforming schema u -> evaluate_body c cx = Ok s ->
  exists t, List.find (tier_holds u) rows = Some t /\ es_matchedTier s = kt_label t /\ task_cost schema u t (es_cost s) /\
    forall row, list.last rows = Some row -> kt_conditions row <> [] ->
      tier_holds u row = negb (existsb (tier_holds u) (removelast rows)).
Proof.
  intros Hs Hk Hp Hc Ht Hr Hd Hu Hcf He.
  destruct (chain_charged _ _ _ _ _ _ _ _ Hc Ht Hd Hu Hcf He) as (t & Hfind & Hl & Hcost).
  destruct (display_rows _ _ _ _ _ _ Hs Hk Hp Hc Ht Hr) as (previous & fallback & -> & Hf & [->| ->]).
  - exists t. split_and!; [done|done|done|]. intros row. rewrite last_snoc. by intros [= <-] ?.
  - destruct (name_fallback_exact schema u previous fallback Hcf Hf) as (last & -> & Hsame & Hnamed & Hplain).
    rewrite find_previous in Hfind. rewrite find_previous, last_snoc, removelast_last.
    destruct (List.find (tier_holds u) previous) as [t'|] eqn:Ef.
    + exists t'. injection Hfind as <-. split_and!; [done|done|done|]. intros row [= <-]. by apply Hnamed.
    + assert (t = fallback) as -> by (destruct (tier_holds u fallback); by simplify_eq).
      assert (tier_holds u last = true) as ->.
      { destruct (kt_conditions last) eqn:E; [by apply Hplain|]. rewrite Hnamed by done. by rewrite (proj2 (find_none_existsb _ _) Ef). }
      exists last. split_and!; [done| |by eapply same_row_cost|].
      * destruct Hsame as [-> _]. done.
      * intros row [= <-]. by apply Hnamed.
Qed.

(** A table whose last row is named: the only quality left is [sd]. *)
Definition shown_rows : list task_tier :=
  Eval vm_compute in match getTaskPricingDisplayTiers (Some video_source) (Some video_schema) with Ok r => r | Err _ => [] end.
Definition shown_tiers : list task_tier :=
  Eval vm_compute in default [] (readTaskTierChain (ce_ast video_compiled) video_schema true).

Lemma display_rows_charged_witness :
  map kt_conditions shown_rows = [[TaskCondition (js "quality") (js "hd")]; [TaskCondition (js "quality") (js "sd")]] /\
  exists t, List.find (tier_holds video_usage) shown_rows = Some t /\ js "hd" = kt_label t /\
    task_cost video_schema video_usage t (es_cost video_success) /\
    forall row, list.last shown_rows = Some row -> kt_conditions row <> [] ->
      tier_holds video_usage row = negb (existsb (tier_holds video_usage) (removelast shown_rows)).
Proof.
  split; [vm_compute; reflexivity|].
  assert (compile video_source = Ready video_compiled) as H1 by (vm_compute; reflexivity).
  assert (splitBillingExprAndRequestRules video_source = Ok (SplitExpr video_source [])) as H2 by (vm_compute; reflexivity).
  assert (readTaskTierChain (ce_ast video_compiled) video_schema true = Some shown_tiers) as H3 by (vm_compute; reflexivity).
  assert (getTaskPricingDisplayTiers (Some video_source) (Some video_schema) = Ok shown_rows) as H4 by (vm_compute; reflexivity).
  assert (@evaluate_body plain_platform video_compiled video_context = Ok video_success) as H5 by (vm_compute; reflexivity).
  assert (declared video_schema (ce_ast video_compiled)) as H6 by (apply declaredb_ok; vm_compute; reflexivity).
  refine (@display_rows_charged plain_platform video_source (SplitExpr video_source []) video_compiled video_schema shown_tiers
    shown_rows video_context video_usage video_success _ _ H2 H1 H3 H4 H6 eq_refl video_conforming H5); done.
Defined.
