(* ===== verification/TierMatch.v ===== *)
(** * Which row of a price table was charged

    Models [breakdown-tier-match.ts], which marks the row of a price table that
    a settled request hit, and composes it with the tier tables and with
    evaluation: the row of the tier an evaluation charges is marked. *)
From Stdlib Require Import SpecFloat.
From stdpp Require Import strings.
From S2P Require Import Prelude JsString JsNumber JsNumberFacts JsValue Syntax SyntaxFacts ParserFacts Compile CompileFacts Runtime RuntimeFacts.
From S2P Require Import Semantics Display DisplayFacts TaskTiers TaskConfig TierSummary.

#[local] Open Scope Z_scope.

(** A row of a token table or of a task table; only the latter has
    [unitPrices]. *)
Inductive match_tier :=
| MT_token (row : parsed_tier)
| MT_task (row : task_tier).

Definition mt_label (t : match_tier) : jstr :=
  match t with MT_token r => row_label r | MT_task r => kt_label r end.

(** [String(fact) === value], for a fact that is an own property or missing. *)
Definition fact_string (v : option sample_value) : jstr :=
  match v with
  | Some (SV_num x) => num_to_string x
  | Some (SV_str s) => s
  | None => js "undefined"
  end.

Definition truthy_text (t : option jstr) : bool :=
  match t with Some (_ :: _) => true | _ => false end.

Section WithPlatform.
Context `{Platform}.

Definition tierMatchesNormalizedLabel (tier : match_tier) (normalized : jstr) : bool :=
  negb (bool_decide (normalized = [])) && bool_decide (normalizeTierLabel (Some (mt_label tier)) = normalized).

(** The billing unit and the fixed price of a token row agree with the
    settlement's. *)
Definition unit_agrees (tier : match_tier) (billingUnit : option billing_unit) (fixedPrice : option num) : bool :=
  match tier, billingUnit with
  | MT_token row, Some Unit_token => match row_unit row with Some Unit_request => false | _ => true end
  | MT_token row, Some Unit_request =>
      match row_unit row with
      | Some Unit_request =>
          match fixedPrice with
          | None => true
          | Some price => match row_fixed row with Some x => n_eqb x price | None => false end
          end
      | _ => false
      end
  | _, _ => true
  end.

Definition isBreakdownTierMatched (tier : match_tier) (tiers : list match_tier) (matchedTierLabel : option jstr)
    (usageFacts : option (list (jstr * sample_value))) (billingUnit : option billing_unit) (fixedPrice : option num)
  : bool :=
  if negb (unit_agrees tier billingUnit fixedPrice) then false else
  let normalized := normalizeTierLabel matchedTierLabel in
  let same t := tierMatchesNormalizedLabel t normalized in
  if same tier then
    match tier with
    | MT_task row =>
        if (1 <? length (List.filter same tiers))%nat then
          negb (truthy_text (kt_conditionText row))
          && match usageFacts with
             | None => false
             | Some facts =>
                 negb (length (kt_conditions row) =? 0)%nat
                 && forallb (fun c => bool_decide (fact_string (obj_get (tk_field c) facts) = tk_value c)) (kt_conditions row)
             end
        else true
    | MT_token _ => true
    end
  else if existsb same tiers then false
  else
    match usageFacts, tier with
    | None, _ => false
    | Some _, MT_token _ => false  (* its conditions are not on usage facts *)
    | Some facts, MT_task row =>
        negb (length (kt_conditions row) =? 0)%nat && negb (truthy_text (kt_conditionText row))
        && forallb (fun c => match obj_get (tk_field c) facts with
                             | None => false
                             | Some fact => bool_decide (fact_string (Some fact) = tk_value c)
                             end) (kt_conditions row)
    end.
End WithPlatform.

(** ** The charged row is the marked row *)

(** The fixed price of a tier read off a well-formed tree is a number. *)
Lemma leaf_fixed n t : wf n -> from_leaf n t ->
  match tt_fixedPrice t with
  | Some a => tt_billingUnit t = Some Unit_request /\ n_eqb a a = true
  | None => tt_billingUnit t = None
  end.
Proof.
  intros Hw (m & cs & t0 & Hm & Ht & _ & -> & ->). pose proof (wf_subterm _ _ Hw Hm) as Hwm. clear Hw Hm.
  unfold tokenTier in Ht. repeat case_match; simplify_eq; cbn in *; simplify_eq; try done.
  split; [done|]. apply wf_unfold in Hwm as [_ Hwm]. cbn [children] in Hwm.
  apply Forall_cons_iff in Hwm as [_ Hwm]. apply Forall_cons_iff in Hwm as [Hwm _].
  apply wf_unfold in Hwm as [_ Hwm]. cbn [children] in Hwm. apply Forall_cons_iff in Hwm as [Hwm _].
  apply wf_unfold in Hwm as [Hok _]. pose proof (nk_arity _ Hok) as Hnum. cbn in Hnum. by apply n_eqb_refl, Hnum.
Qed.

Section Marked.
Context `{Platform}.

(** The row of a tier agrees with what charging the tier records. *)
Lemma row_unit_agrees cx t label after cost n : wf n -> from_leaf n t ->
  charged cx t (Unit_token, None) label after cost ->
  unit_agrees (MT_token (mapTokenTier t)) (Some (fst after)) (snd after) = true.
Proof.
  intros Hw Hl [_ -> _]. pose proof (leaf_fixed n t Hw Hl) as Hf. unfold unit_agrees, mapTokenTier.
  destruct (tt_fixedPrice t) as [a|] eqn:E; cbn [fst snd row_unit row_fixed]; [|by rewrite Hf].
  destruct Hf as [-> Hf]. by cbn.
Qed.

Lemma label_marks row tiers label : normalizeTierLabel (Some label) <> [] -> row_label row = label ->
  forall unit price, unit_agrees (MT_token row) unit price = true ->
  isBreakdownTierMatched (MT_token row) tiers (Some label) None unit price = true.
Proof.
  intros Hn El unit price Hu. unfold isBreakdownTierMatched. rewrite Hu. cbn [negb].
  assert (tierMatchesNormalizedLabel (MT_token row) (normalizeTierLabel (Some label)) = true) as ->; [|done].
  unfold tierMatchesNormalizedLabel. cbn [mt_label]. rewrite El, bool_decide_eq_false_2, bool_decide_eq_true_2 by done. done.
Qed.

(** A marked token row has the label of the settlement, its unit and its
    fixed price. *)
Lemma marked_label row tiers label unit price :
  isBreakdownTierMatched (MT_token row) tiers (Some label) None unit price = true ->
  normalizeTierLabel (Some (row_label row)) = normalizeTierLabel (Some label) /\ unit_agrees (MT_token row) unit price = true.
Proof.
  unfold isBreakdownTierMatched. destruct (unit_agrees _ _ _) eqn:Eu; [|done]. cbn [negb].
  destruct (tierMatchesNormalizedLabel (MT_token row) _) eqn:E; [|by destruct (existsb _ _)].
  intros _. split; [|done]. unfold tierMatchesNormalizedLabel in E. by bsplit.
Qed.

Lemma unit_agrees_spec row unit price : (unit = Unit_request <-> is_Some price) ->
  unit_agrees (MT_token row) (Some unit) price = true ->
  default Unit_token (row_unit row) = unit /\ forall p, price = Some p -> exists x, row_fixed row = Some x /\ n_eqb x p = true.
Proof.
  intros Hp. unfold unit_agrees. destruct unit.
  - destruct price as [p|]; [discriminate (proj2 Hp (mk_is_Some _ _ eq_refl))|]. by destruct (row_unit row) as [[]|].
  - destruct (row_unit row) as [[]|]; try done. destruct price as [p|]; [|by destruct (proj1 Hp eq_refl) as [? [=]]].
    destruct (row_fixed row) as [x|]; [|done]. intros Hx. split; [done|]. intros p' [= <-]. eauto.
Qed.
End Marked.

(** C13: the price table marks the row that was charged: when an expression is a
    chain of token tiers and its evaluation succeeds, the row of the first tier
    that applies to the token counts is in the table and is marked by the
    label, the billing unit and the fixed price the evaluation recorded; and
    every marked row carries that label up to normalisation, has that billing unit
    and, when a fixed price was recorded, an equal fixed price. *)
Theorem charged_row_marked `{Platform} source c cx s tiers rows : source <> [] ->
  compile source = Ready c -> readTokenTierChain (ce_ast c) = Some tiers -> evaluate_body c cx = Ok s ->
  parseTiersFromExpr source = Ok rows -> normalizeTierLabel (Some (es_matchedTier s)) <> [] ->
  let marked row := isBreakdownTierMatched (MT_token row) (map MT_token rows) (Some (es_matchedTier s)) None
                      (Some (es_billingUnit s)) (es_fixedPrice s) in
  (exists t, List.find (applies cx) tiers = Some t /\ mapTokenTier t ∈ rows /\ marked (mapTokenTier t) = true) /\
  forall row, marked row = true ->
    normalizeTierLabel (Some (row_label row)) = normalizeTierLabel (Some (es_matchedTier s)) /\
    default Unit_token (row_unit row) = es_billingUnit s /\
    forall price, es_fixedPrice s = Some price -> exists x, row_fixed row = Some x /\ n_eqb x price = true.
Proof.
  intros Hne Hc Ht Hs Hr Hn marked. apply compile_ready in Hc as Hc'. pose proof (parse_wf _ _ (co_parse _ _ Hc')) as Hw.
  assert (rows = map mapTokenTier tiers) as ->.
  { unfold parseTiersFromExpr in Hr. rewrite Hc, Ht in Hr. destruct source; [done|]. by injection Hr. }
  pose proof (evaluate_body_ok _ _ _ Hs) as (ev_ & rt & rt' & i & Hnr & He & _ & _ & _ & Es).
  destruct (new_runtime_ok _ _ _ _ Hnr) as (_ & Ex & Hrt).
  destruct (token_chain_charges _ _ tiers _ _ _ _ Hw Ht He) as (t & Hf & x & _ & Hch). rewrite Ex in *.
  split; [|intros row Hm; apply marked_label in Hm as [Hlab Hag]; split; [done|]; apply unit_agrees_spec in Hag; [done|];
    rewrite Es; cbn [es_billingUnit es_fixedPrice]; pose proof (cg_unit _ _ _ _ _ _ Hch) as Hu; rewrite Hrt in Hu; by destruct (tt_fixedPrice t); injection Hu as -> ->].
  exists t. pose proof (chain_leaves _ _ Ht) as Hl. pose proof (find_some _ _ Hf) as [Hin _].
  split_and!; [done|apply list_elem_of_In, in_map; done|].
  rewrite Forall_elem in Hl. specialize (Hl t (proj2 (list_elem_of_In _ _) Hin)).
  apply label_marks; [done| |].
  - rewrite Es. cbn [es_matchedTier row_label mapTokenTier]. symmetry. by apply (cg_label _ _ _ _ _ _ Hch).
  - rewrite Es. rewrite Hrt in Hch. by apply (row_unit_agrees _ _ _ _ _ _ Hw Hl Hch).
Qed.

Lemma charged_row_marked_witness :
  let rows := map mapTokenTier tiered_tiers in
  (exists t, List.find (applies tiered_context) tiered_tiers = Some t /\ mapTokenTier t ∈ rows /\
     @isBreakdownTierMatched plain_platform (MT_token (mapTokenTier t)) (map MT_token rows) (Some (js "long")) None
       (Some Unit_token) None = true) /\
  forall row, @isBreakdownTierMatched plain_platform (MT_token row) (map MT_token rows) (Some (js "long")) None (Some Unit_token) None = true ->
    default Unit_token (row_unit row) = Unit_token.
Proof.
  intros rows.
  assert (compile tiered_source = Ready tiered_compiled) as H1 by (vm_compute; reflexivity).
  assert (readTokenTierChain (ce_ast tiered_compiled) = Some tiered_tiers) as H2 by (vm_compute; reflexivity).
  assert (@evaluate_body plain_platform tiered_compiled tiered_context = Ok tiered_success) as H3
    by (vm_compute; reflexivity).
  assert (@parseTiersFromExpr plain_platform tiered_source = Ok rows) as H4 by (vm_compute; reflexivity).
  assert (@normalizeTierLabel plain_platform (Some (es_matchedTier tiered_success)) <> []) as H5 by (vm_compute; discriminate).
  destruct (@charged_row_marked plain_platform tiered_source tiered_compiled tiered_context tiered_success tiered_tiers rows
    ltac:(discriminate) H1 H2 H3 H4 H5) as [Hm Hrow].
  split; [exact Hm|]. intros row Hr. exact (proj1 (proj2 (Hrow row Hr))).
Defined.
