(* ===== verification/Catalog.v ===== *)
(** * The model catalogue

    Models [filters.ts] and [model-helpers.ts], the selection, the order and the
    group ratios of the models on the pricing page, and the prices of
    [price.ts] up to their formatting, which is a parameter of the code that
    calls it.  Records keep the properties of [PricingModel] this code reads. *)
From Stdlib Require Import SpecFloat.
From stdpp Require Import strings.
From S2P Require Import Prelude JsString JsNumber JsNumberFacts JsValue Syntax Runtime TaskTiers TaskConfig.

#[local] Open Scope Z_scope.

(** [BillingPluginVariant] *)
Record plugin_variant := PluginVariant {
  pv_plugin_key : jstr;
  pv_billing_expr : jstr;
  pv_billing_mode : option jstr;
  pv_billing_usage_schema : usage_schema;
  pv_billing_usage_examples : option (list usage_example);
}.

(** A missing ratio is [undefined] or [null]. *)
Record pricing_model := PricingModel {
  pm_model_name : option jstr;
  pm_description : option jstr;
  pm_vendor_name : option jstr;
  pm_quota_type : num;
  pm_model_ratio : num;
  pm_completion_ratio : num;
  pm_model_price : option num;
  pm_cache_ratio : option num;
  pm_create_cache_ratio : option num;
  pm_image_ratio : option num;
  pm_audio_ratio : option num;
  pm_audio_completion_ratio : option num;
  pm_enable_groups : option (list jstr);
  pm_tags : option jstr;
  pm_supported_endpoint_types : option (list jstr);
  pm_group_ratio : option (list (jstr * num));
  pm_billing_usage_schema : option usage_schema;
  pm_billing_mode : option jstr;
  pm_billing_expr : option jstr;
  pm_billing_usage_examples : option (list usage_example);
  pm_billing_plugin_variants : option (list plugin_variant);
}.

Definition FILTER_ALL : jstr := js "all".
Definition EXCLUDED_GROUPS : list jstr := [[]; js "auto"].
Definition QUOTA_TOKEN : num := n_zero.
Definition QUOTA_REQUEST : num := n_one.

(** [Object.keys(model.billing_usage_schema ?? {}).length > 0] *)
Definition hasTaskUsageSchema (m : pricing_model) : bool :=
  match pm_billing_usage_schema m with Some (_ :: _) => true | _ => false end.

(** ** Filters *)
Section WithPlatform.
Context `{Platform} `{Collation}.

(** [text?.toLowerCase().includes(query)] *)
Definition text_includes (text : option jstr) (query : jstr) : bool :=
  match text with Some t => includes query (pf_toLowerCase t) | None => false end.

Definition search_hit (query : jstr) (m : pricing_model) : bool :=
  let lowerQuery := pf_toLowerCase query in
  text_includes (pm_model_name m) lowerQuery || text_includes (pm_description m) lowerQuery
  || text_includes (pm_tags m) lowerQuery || text_includes (pm_vendor_name m) lowerQuery.

Definition filterBySearch (models : list pricing_model) (query : jstr) : list pricing_model :=
  match query with [] => models | _ => List.filter (search_hit query) models end.

Definition filterByVendor (models : list pricing_model) (vendor : jstr) : list pricing_model :=
  if bool_decide (vendor = FILTER_ALL) then models
  else List.filter (fun m => bool_decide (pm_vendor_name m = Some vendor)) models.

Definition list_includes (l : option (list jstr)) (x : jstr) : bool :=
  match l with Some l => bool_decide (x ∈ l) | None => false end.

Definition filterByGroup (models : list pricing_model) (group : jstr) : list pricing_model :=
  if bool_decide (group = FILTER_ALL) then models
  else List.filter (fun m => list_includes (pm_enable_groups m) group) models.

Definition filterByQuotaType (models : list pricing_model) (quotaType : jstr) : list pricing_model :=
  if bool_decide (quotaType = js "all") then models
  else if bool_decide (quotaType = js "task") then List.filter hasTaskUsageSchema models
  else
    let targetType := if bool_decide (quotaType = js "token") then QUOTA_TOKEN else QUOTA_REQUEST in
    List.filter (fun m => n_eqb (pm_quota_type m) targetType && negb (hasTaskUsageSchema m)) models.

Definition filterByEndpointType (models : list pricing_model) (endpointType : jstr) : list pricing_model :=
  if bool_decide (endpointType = js "all") then models
  else List.filter (fun m => list_includes (pm_supported_endpoint_types m) endpointType) models.

(** The class [[,;|\s]]. *)
Definition is_separator (c : Z) : bool := (c =? 44) || (c =? 59) || (c =? 124) || is_space c.

(** [split(/[,;|\s]+/)]; a run of separators separates once. *)
Fixpoint split_tags (s part : jstr) (in_run : bool) : list jstr :=
  match s with
  | [] => [part]
  | c :: s =>
      if is_separator c then
        if in_run then split_tags s part true else part :: split_tags s [] true
      else split_tags s (part ++ [c]) false
  end.

Definition is_nonempty (s : jstr) : bool := match s with [] => false | _ => true end.

Definition parseTags (tagsString : option jstr) : list jstr :=
  match tagsString with
  | None | Some [] => []
  | Some tags => List.filter is_nonempty (map trim (split_tags tags [] false))
  end.

(** Sorting strings with [localeCompare]: stable. *)
Fixpoint insert_text (x : jstr) (l : list jstr) : list jstr :=
  match l with
  | [] => [x]
  | y :: l' => if localeCompare x y <=? 0 then x :: l else y :: insert_text x l'
  end.

Definition extractAllTags (models : list pricing_model) : list jstr :=
  let tagSet := fold_left (fun tags m =>
    fold_left (fun tags tag => set_add (pf_toLowerCase tag) tags) (parseTags (pm_tags m)) tags) models [] in
  foldr insert_text [] tagSet.

Definition has_tag (tag : jstr) (m : pricing_model) : bool :=
  match pm_tags m with
  | None | Some [] => false
  | Some tags => bool_decide (pf_toLowerCase tag ∈ map pf_toLowerCase (parseTags (Some tags)))
  end.

Definition filterByTag (models : list pricing_model) (tag : jstr) : list pricing_model :=
  if bool_decide (tag = FILTER_ALL) then models else List.filter (has_tag tag) models.

(** ** Order *)

(** [model_price || 0] *)
Definition price_or_nothing (x : option num) : num :=
  match x with
  | Some S754_nan | None => n_zero
  | Some x => if n_eqb x n_zero then n_zero else x
  end.

Definition getModelPrice (m : pricing_model) : num :=
  if n_eqb (pm_quota_type m) n_zero then pm_model_ratio m else price_or_nothing (pm_model_price m).

(** The comparison of an order: is its result positive? [Array.prototype.sort]
    takes a result that is not a number for zero. *)
Definition goes_after (sortBy : jstr) (a b : pricing_model) : bool :=
  if bool_decide (sortBy = js "name") then
    0 <? localeCompare (default [] (pm_model_name a)) (default [] (pm_model_name b))
  else if bool_decide (sortBy = js "price-low") then n_ltb n_zero (n_sub (getModelPrice a) (getModelPrice b))
  else if bool_decide (sortBy = js "price-high") then n_ltb n_zero (n_sub (getModelPrice b) (getModelPrice a))
  else false.

(** Stable insertion into a sorted list. *)
Fixpoint insert_model (after : pricing_model -> pricing_model -> bool) (x : pricing_model) (l : list pricing_model)
  : list pricing_model :=
  match l with
  | [] => [x]
  | y :: l' => if after x y then y :: insert_model after x l' else x :: l
  end.

Definition sortModels (models : list pricing_model) (sortBy : jstr) : list pricing_model :=
  foldr (insert_model (goes_after sortBy)) [] models.

Record catalog_filters := CatalogFilters {
  cf_search : jstr;
  cf_vendor : jstr;
  cf_group : jstr;
  cf_quotaType : jstr;
  cf_endpointType : jstr;
  cf_tag : jstr;
  cf_sortBy : jstr;
}.

Definition filterAndSortModels (models : list pricing_model) (filters : catalog_filters) : list pricing_model :=
  let result := filterBySearch models (cf_search filters) in
  let result := filterByVendor result (cf_vendor filters) in
  let result := filterByGroup result (cf_group filters) in
  let result := filterByQuotaType result (cf_quotaType filters) in
  let result := filterByEndpointType result (cf_endpointType filters) in
  let result := filterByTag result (cf_tag filters) in
  sortModels result (cf_sortBy filters).
End WithPlatform.

(** ** Group ratios *)
Definition getAvailableGroups (m : pricing_model) (usableGroup : list (jstr * jstr)) : list jstr :=
  let groups := default [] (pm_enable_groups m) in
  List.filter (fun g => bool_decide (g ∈ groups))
    (List.filter (fun g => negb (bool_decide (g ∈ EXCLUDED_GROUPS))) (map fst usableGroup)).

(** A finite ratio of a group; a name every object inherits is no number. *)
Definition finite_ratio (groupRatio : list (jstr * num)) (group : jstr) : option num :=
  match obj_get group groupRatio with
  | Some ratio => if is_finite ratio then Some ratio else None
  | None => None
  end.

Definition getConfiguredGroupRatio (groupRatio : list (jstr * num)) (group : jstr) : num :=
  default n_one (finite_ratio groupRatio group).

Definition infinity : num := S754_infinity false.

(** The loop for the smallest ratio. *)
Definition min_ratio_step (groupRatio : list (jstr * num)) (minRatio : num) (group : jstr) : num :=
  match finite_ratio groupRatio group with
  | Some ratio => if n_ltb ratio minRatio then ratio else minRatio
  | None => minRatio
  end.

Definition getDisplayGroupRatio (m : pricing_model) (selectedGroup : option jstr) : num :=
  let groups := default [] (pm_enable_groups m) in
  let groupRatio := default [] (pm_group_ratio m) in
  let best :=
    match groups with
    | [] => n_one
    | _ =>
        let minRatio := fold_left (min_ratio_step groupRatio) groups infinity in
        if n_eqb minRatio infinity then n_one else minRatio
    end in
  match selectedGroup with
  | Some ((_ :: _) as group) =>
      if negb (bool_decide (group = FILTER_ALL)) && bool_decide (group ∈ groups)
      then getConfiguredGroupRatio groupRatio group else best
  | _ => best
  end.

Definition isTokenBasedModel (m : pricing_model) : bool := n_eqb (pm_quota_type m) QUOTA_TOKEN.

(** ** Prices *)
Inductive price_type :=
| PT_input | PT_output | PT_cache | PT_create_cache | PT_image | PT_audio_input | PT_audio_output.

Definition hasRatio (value : option num) : option num :=
  match value with Some x => if is_finite x then Some x else None | None => None end.

Definition calculateTokenPrice (m : pricing_model) (type : price_type) (ratio : num) : num :=
  let base := n_mul (n_mul (pm_model_ratio m) (n_of_Z 2)) ratio in
  let scaled r := match hasRatio r with Some r => n_mul base r | None => S754_nan end in
  match type with
  | PT_input => base
  | PT_output => n_mul base (pm_completion_ratio m)
  | PT_cache => scaled (pm_cache_ratio m)
  | PT_create_cache => scaled (pm_create_cache_ratio m)
  | PT_image => scaled (pm_image_ratio m)
  | PT_audio_input => scaled (pm_audio_ratio m)
  | PT_audio_output =>
      match hasRatio (pm_audio_ratio m), hasRatio (pm_audio_completion_ratio m) with
      | Some a, Some c => n_mul (n_mul base a) c
      | _, _ => S754_nan
      end
  end.

Definition applyRechargeRate (price : num) (showWithRecharge : bool) (priceRate usdExchangeRate : num) : num :=
  if showWithRecharge then n_div (n_mul price priceRate) usdExchangeRate else price.

Inductive token_unit := Unit_M | Unit_K.

Definition TOKEN_UNIT_DIVISORS (u : token_unit) : num :=
  match u with Unit_M => n_one | Unit_K => n_of_Z 1000 end.

(** What formatting is asked for. *)
Record format_options := FormatOptions {
  fo_showSymbol : option bool;
  fo_digitsLarge : Z;
  fo_digitsSmall : Z;
  fo_abbreviate : bool;
}.

Section Formatting.
(** [formatBillingCurrencyFromUSD] of [lib/currency.ts] *)
Context (format : num -> format_options -> jstr).

Definition formatPrice (m : pricing_model) (type : price_type) (tokenUnit : token_unit) (showWithRecharge : bool)
    (priceRate usdExchangeRate : num) (selectedGroup : option jstr) (showCurrencySymbol : bool) : jstr :=
  if n_eqb (pm_quota_type m) QUOTA_REQUEST then js "-" else
  let priceInUSD := calculateTokenPrice m type (getDisplayGroupRatio m selectedGroup) in
  let priceInUSD := applyRechargeRate priceInUSD showWithRecharge priceRate usdExchangeRate in
  format (n_div priceInUSD (TOKEN_UNIT_DIVISORS tokenUnit)) (FormatOptions (Some showCurrencySymbol) 4 6 false).

Definition formatGroupPrice (m : pricing_model) (group : jstr) (type : price_type) (tokenUnit : token_unit)
    (showWithRecharge : bool) (priceRate usdExchangeRate : num) (groupRatio : list (jstr * num)) : jstr :=
  if n_eqb (pm_quota_type m) QUOTA_REQUEST then js "-" else
  let priceInUSD := calculateTokenPrice m type (getConfiguredGroupRatio groupRatio group) in
  let priceInUSD := applyRechargeRate priceInUSD showWithRecharge priceRate usdExchangeRate in
  format (n_div priceInUSD (TOKEN_UNIT_DIVISORS tokenUnit)) (FormatOptions None 4 6 false).

Definition formatFixedPrice (m : pricing_model) (group : jstr) (showWithRecharge : bool)
    (priceRate usdExchangeRate : num) (groupRatio : list (jstr * num)) : jstr :=
  if negb (n_eqb (pm_quota_type m) QUOTA_REQUEST) then js "-" else
  let priceInUSD := n_mul (price_or_nothing (pm_model_price m)) (getConfiguredGroupRatio groupRatio group) in
  format (applyRechargeRate priceInUSD showWithRecharge priceRate usdExchangeRate) (FormatOptions None 4 4 false).

Definition formatRequestPrice (m : pricing_model) (showWithRecharge : bool)
    (priceRate usdExchangeRate : num) (selectedGroup : option jstr) (showCurrencySymbol : bool) : jstr :=
  if negb (n_eqb (pm_quota_type m) QUOTA_REQUEST) then js "-" else
  let priceInUSD := n_mul (price_or_nothing (pm_model_price m)) (getDisplayGroupRatio m selectedGroup) in
  format (applyRechargeRate priceInUSD showWithRecharge priceRate usdExchangeRate) (FormatOptions (Some showCurrencySymbol) 4 4 false).
End Formatting.
