(* ===== verification/CatalogFacts.v ===== *)
(** * The catalogue shows exactly the selected models, in order

    The page shows the models that pass every filter, as a declarative predicate
    says, and no others, each as often as it is listed; the order is the requested
    one (prices are compared by the sign of a difference, which rounding keeps) and
    stable; without a group filter the ratio used is the smallest finite ratio of
    the model's groups. *)
From Stdlib Require Import SpecFloat Sorted.
From stdpp Require Import strings.
From S2P Require Import Prelude JsString JsNumber JsNumberFacts NumberText IntegerSums JsValue Syntax Runtime RuntimeFacts Semantics.
From S2P Require Import TaskTiers TaskConfig TaskConfigFacts Catalog.

#[local] Open Scope Z_scope.

(** ** Selection *)
Section Selection.
Context `{Platform} `{Collation}.

(** A model passes a filter that is not set to all. *)
Definition admits (f : catalog_filters) (m : pricing_model) : bool :=
  (bool_decide (cf_search f = []) || search_hit (cf_search f) m)
  && (bool_decide (cf_vendor f = FILTER_ALL) || bool_decide (pm_vendor_name m = Some (cf_vendor f)))
  && (bool_decide (cf_group f = FILTER_ALL) || list_includes (pm_enable_groups m) (cf_group f))
  && (bool_decide (cf_quotaType f = js "all")
      || (if bool_decide (cf_quotaType f = js "task") then hasTaskUsageSchema m
          else n_eqb (pm_quota_type m) (if bool_decide (cf_quotaType f = js "token") then QUOTA_TOKEN else QUOTA_REQUEST)
               && negb (hasTaskUsageSchema m)))
  && (bool_decide (cf_endpointType f = js "all") || list_includes (pm_supported_endpoint_types m) (cf_endpointType f))
  && (bool_decide (cf_tag f = FILTER_ALL) || has_tag (cf_tag f) m).

Lemma filter_true {A} (l : list A) : List.filter (fun _ => true) l = l.
Proof. induction l as [|x l IH]; [done|]. cbn. by rewrite IH. Qed.

Lemma filter_and {A} (f g : A -> bool) l : List.filter g (List.filter f l) = List.filter (fun x => f x && g x) l.
Proof. induction l as [|x l IH]; [done|]. cbn. destruct (f x); cbn; [|done]. destruct (g x); by rewrite IH. Qed.

(** A filter that is off keeps everything. *)
Lemma filter_unless {A} (P : Prop) `{Decision P} (f : A -> bool) l :
  (if bool_decide P then l else List.filter f l) = List.filter (fun x => bool_decide P || f x) l.
Proof. case_bool_decide; cbn; [by rewrite filter_true|done]. Qed.

Lemma selected models f :
  filterByTag (filterByEndpointType (filterByQuotaType (filterByGroup (filterByVendor
    (filterBySearch models (cf_search f)) (cf_vendor f)) (cf_group f)) (cf_quotaType f)) (cf_endpointType f)) (cf_tag f)
  = List.filter (admits f) models.
Proof.
  assert (filterBySearch models (cf_search f)
    = List.filter (fun m => bool_decide (cf_search f = []) || search_hit (cf_search f) m) models) as ->.
  { unfold filterBySearch. rewrite <- filter_unless. by destruct (cf_search f). }
  unfold filterByVendor, filterByGroup, filterByEndpointType, filterByTag. rewrite !filter_unless, !filter_and.
  assert (forall l, filterByQuotaType l (cf_quotaType f) = List.filter (fun m => bool_decide (cf_quotaType f = js "all")
      || (if bool_decide (cf_quotaType f = js "task") then hasTaskUsageSchema m
          else n_eqb (pm_quota_type m) (if bool_decide (cf_quotaType f = js "token") then QUOTA_TOKEN else QUOTA_REQUEST)
               && negb (hasTaskUsageSchema m))) l) as ->.
  { intros l. rewrite <- filter_unless. unfold filterByQuotaType. by destruct (bool_decide (cf_quotaType f = js "task")). }
  rewrite !filter_and. apply filter_ext. intros m. unfold admits. by rewrite !andb_assoc.
Qed.
End Selection.

(** ** Order *)
Section Order.
Context (after : pricing_model -> pricing_model -> bool).

Lemma insert_model_perm x l : Permutation (x :: l) (insert_model after x l).
Proof.
  induction l as [|y l IH]; cbn [insert_model]; [done|]. destruct (after x y); [|done]. rewrite <- IH. constructor.
Qed.

Lemma sorted_perm l : Permutation l (foldr (insert_model after) [] l).
Proof.
  induction l as [|x l IH]; [done|]. cbn [foldr]. rewrite <- insert_model_perm. by constructor.
Qed.

(** The comparison is a strict weak order on the listed models. *)
Record consistent (l : list pricing_model) : Prop := {
  cs_asym : forall a b, a ∈ l -> b ∈ l -> after a b = true -> after b a = false;
  cs_trans : forall a b c, a ∈ l -> b ∈ l -> c ∈ l -> after a b = false -> after b c = false -> after a c = false;
}.

Lemma insert_sorted_in all x l : consistent all -> x ∈ all -> Forall (fun y => y ∈ all) l ->
  StronglySorted (fun a b => after a b = false) l -> StronglySorted (fun a b => after a b = false) (insert_model after x l).
Proof.
  intros [Ha Ht] Hx Hl Hs. induction Hs as [|y l Hs IH Hy]; cbn [insert_model].
  - by repeat constructor.
  - apply Forall_cons_iff in Hl as [Hyl Hl]. destruct (after x y) eqn:E.
    + constructor; [by apply IH|]. apply Forall_elem. intros z Hz. rewrite <- insert_model_perm in Hz.
      apply elem_of_cons in Hz as [->|Hz]; [by apply Ha|]. rewrite Forall_elem in Hy. by apply Hy.
    + constructor; [by constructor|]. apply Forall_cons; [done|]. apply Forall_elem. intros z Hz.
      rewrite Forall_elem in Hy, Hl. by apply (Ht x y z); auto.
Qed.

Lemma sorted_in_order l : consistent l -> StronglySorted (fun a b => after a b = false) (foldr (insert_model after) [] l).
Proof.
  intros Hc. assert (forall l0, Forall (fun y => y ∈ l) l0 ->
    StronglySorted (fun a b => after a b = false) (foldr (insert_model after) [] l0)) as Hgen; [|by apply Hgen, Forall_elem].
  induction l0 as [|x l0 IH]; intros Hall; cbn [foldr]; [constructor|].
  apply Forall_cons_iff in Hall as [Hx Hall]. apply (insert_sorted_in l); [done|done| |by apply IH].
  apply Forall_elem. intros y Hy. rewrite <- sorted_perm in Hy. rewrite Forall_elem in Hall. by apply Hall.
Qed.
End Order.

(** ** Numbers in order *)

(** [a <= b] on numbers, as the negation of [b < a]. *)
Definition not_above (a b : num) : Prop := n_ltb b a = false.

(** The order of finite numbers, by sign, exponent and mantissa. *)
Definition rank_ltb (a b : num) : bool :=
  match a, b with
  | S754_finite true _ _, S754_finite false _ _ | S754_finite true _ _, S754_zero _ | S754_zero _, S754_finite false _ _ => true
  | S754_finite false m e, S754_finite false m' e' => (e <? e') || ((e =? e') && (Z.pos m <? Z.pos m'))
  | S754_finite true m e, S754_finite true m' e' => (e' <? e) || ((e' =? e) && (Z.pos m' <? Z.pos m))
  | _, _ => false
  end.

Lemma n_ltb_rank a b : is_finite a = true -> is_finite b = true -> n_ltb a b = rank_ltb a b.
Proof.
  destruct a as [[]| | |[] m e], b as [[]| | |[] m' e']; try done; intros _ _; unfold n_ltb, SFltb; cbn [SFcompare rank_ltb];
    change (Pos.compare_cont Eq m m') with (Pos.compare m m'); change (Pos.compare m m') with (Z.compare (Z.pos m) (Z.pos m'));
    destruct (Z.compare_spec e e'), (Z.compare_spec (Z.pos m) (Z.pos m')); cbn; symmetry;
    first [apply orb_true_iff; rewrite andb_true_iff, !Z.ltb_lt, Z.eqb_eq; lia
          |apply orb_false_iff; rewrite andb_false_iff, !Z.ltb_ge, Z.eqb_neq; lia].
Qed.

Lemma rank_trans a b c : is_finite b = true -> rank_ltb b a = false -> rank_ltb c b = false -> rank_ltb c a = false.
Proof.
  destruct a as [[]| | |[] m e], b as [[]| | |[] m' e'], c as [[]| | |[] m2 e2]; try done; intros _; cbn [rank_ltb];
    rewrite ?orb_false_iff, ?andb_false_iff, ?Z.ltb_ge, ?Z.eqb_neq; lia.
Qed.

Lemma not_above_trans a b c : is_finite a = true -> is_finite b = true -> is_finite c = true ->
  not_above a b -> not_above b c -> not_above a c.
Proof.
  intros Ha Hb Hc. unfold not_above. rewrite !n_ltb_rank by done. intros H1 H2. by apply (rank_trans a b c).
Qed.

Lemma above_flip a b : is_finite a = true -> is_finite b = true -> n_ltb a b = true -> not_above a b.
Proof.
  intros Ha Hb. unfold not_above. rewrite !n_ltb_rank by done.
  destruct a as [[]| | |[] m e], b as [[]| | |[] m' e']; try done; cbn [rank_ltb];
    rewrite orb_true_iff, orb_false_iff, andb_true_iff, andb_false_iff, !Z.ltb_lt, !Z.ltb_ge, !Z.eqb_eq, !Z.eqb_neq; lia.
Qed.

(** A number as JavaScript has them, and finite. *)
Definition finite_price (m : pricing_model) : bool := valid_binary 53 1024 (getModelPrice m) && is_finite (getModelPrice m).

(** The numbers with the larger exponent are the larger ones. *)
Lemma canonical_exponent m e m' e' : canonical m e -> canonical m' e' -> e < e' -> Zpos m < Zpos m' * 2 ^ (e' - e).
Proof.
  intros Hc Hc' He. assert (2 ^ 1 <= 2 ^ (e' - e)) as Hp by (apply Z.pow_le_mono_r; lia). unfold canonical in *. nia.
Qed.

(** A difference is positive exactly when the first number is the larger one. *)
Lemma sub_sign a b : valid_binary 53 1024 a = true -> is_finite a = true -> valid_binary 53 1024 b = true -> is_finite b = true ->
  n_ltb n_zero (n_sub a b) = n_ltb b a.
Proof.
  intros Va Fa Vb Fb. destruct a as [sa| | |sa ma ea], b as [sb| | |sb mb eb]; try done; try (by destruct sa, sb).
  cbn [valid_binary] in Va, Vb. apply bounded_canonical in Va, Vb. rewrite (n_ltb_rank (S754_finite sb mb eb)) by done.
  assert (-1074 <= ea /\ -1074 <= eb) as [Ha Hb] by (unfold canonical in *; lia).
  unfold n_sub. cbn [SFsub]. rewrite normalize_sign by lia. set (ez := Z.min ea eb).
  pose proof (align_value ma ea (- ez) ltac:(lia)) as Ea. pose proof (align_value mb eb (- ez) ltac:(lia)) as Eb.
  rewrite Z.opp_involutive in Ea, Eb. set (xa := Zpos (fst (shl_align ma ea ez))) in *. set (xb := Zpos (fst (shl_align mb eb ez))) in *.
  assert (0 < xa /\ 0 < xb) as [Pa Pb] by (unfold xa, xb; lia).
  assert ((ea < eb -> xa < xb) /\ (eb < ea -> xb < xa) /\ (ea = eb -> xa = Zpos ma /\ xb = Zpos mb)) as (L1 & L2 & L3).
  { split_and!; intros Hlt.
    - pose proof (canonical_exponent _ _ _ _ Va Vb Hlt). replace ez with ea in * by lia. replace (ea + - ea) with 0 in Ea by lia.
      replace (eb + - ea) with (eb - ea) in Eb by lia. lia.
    - pose proof (canonical_exponent _ _ _ _ Vb Va Hlt). replace ez with eb in * by lia. replace (eb + - eb) with 0 in Eb by lia.
      replace (ea + - eb) with (ea - eb) in Ea by lia. lia.
    - replace (ea + - ez) with 0 in Ea by lia. replace (eb + - ez) with 0 in Eb by lia. lia. }
  clearbody xa xb. clear Ea Eb. destruct sa, sb; cbn [cond_Zopp rank_ltb]; apply eq_true_iff_eq;
    rewrite ?orb_true_iff, ?andb_true_iff, ?Z.ltb_lt, ?Z.eqb_eq; (split; [intros H; try done|intros H; try done]);
    destruct (Z.lt_total ea eb) as [?|[?|?]]; lia.
Qed.

(** ** What is shown *)

(** A separator ends or begins a text. *)
Definition ends_apart (s : jstr) : Prop := s = [] \/ exists s' c, s = s' ++ [c] /\ is_separator c = true.
Definition starts_apart (s : jstr) : Prop := s = [] \/ exists c s', s = c :: s' /\ is_separator c = true.

(** A longest stretch without separators. *)
Definition is_word (w text : jstr) : Prop :=
  w <> [] /\ Forall (fun c => is_separator c = false) w /\
  exists before after, text = before ++ w ++ after /\ ends_apart before /\ starts_apart after.

Lemma word_whole part w : Forall (fun c => is_separator c = false) part -> is_word w part -> w = part.
Proof.
  intros Hp (Hn & Hw & before & after & -> & Hb & Ha). apply Forall_app in Hp as [Hpb Hp]. apply Forall_app in Hp as [_ Hpa].
  destruct Hb as [->|(s & c & -> & Hc)]; [|apply Forall_app in Hpb as [_ Hpb]; apply Forall_cons_iff in Hpb as [Hpb _]; congruence].
  destruct Ha as [->|(c & s & -> & Hc)]; [|apply Forall_cons_iff in Hpa as [Hpa _]; congruence]. by rewrite app_nil_r.
Qed.

Lemma apart_split (a b x y : jstr) c d : Forall (fun c => is_separator c = false) a -> Forall (fun c => is_separator c = false) x ->
  is_separator c = true -> is_separator d = true -> a ++ c :: b = x ++ d :: y -> a = x /\ c = d /\ b = y.
Proof.
  revert x. induction a as [|e a IH]; intros [|f x] Ha Hx Hc Hd E; cbn in E.
  - by injection E as -> ->.
  - injection E as -> _. apply Forall_cons_iff in Hx as [Hx _]. congruence.
  - injection E as -> _. apply Forall_cons_iff in Ha as [Ha _]. congruence.
  - injection E as -> E. apply Forall_cons_iff in Ha as [_ Ha]. apply Forall_cons_iff in Hx as [_ Hx].
    destruct (IH x Ha Hx Hc Hd E) as (-> & -> & ->). done.
Qed.

(** Where a text goes on after its first separator. *)
Lemma apart_prefix (part s before rest : jstr) c : Forall (fun c => is_separator c = false) part -> is_separator c = true ->
  ends_apart before -> before <> [] -> part ++ c :: s = before ++ rest -> exists b, s = b ++ rest /\ ends_apart b.
Proof.
  intros Hp Hc Hb Hn E. destruct Hb as [->|(b & d & -> & Hd)]; [done|]. clear Hn. revert b E.
  induction Hp as [|x part Hx _ IH]; intros b E; cbn [app] in E.
  - destruct b as [|y b]; cbn in E; injection E as -> ->; [exists []|exists (b ++ [d])]; (split; [done|]); [by left|right; by eauto].
  - destruct b as [|y b]; cbn in E; [injection E as -> _; congruence|]. injection E as -> E. by apply IH in E.
Qed.

Lemma word_next part c s w : Forall (fun c => is_separator c = false) part -> is_separator c = true ->
  is_word w (part ++ c :: s) <-> (w = part /\ part <> []) \/ is_word w s.
Proof.
  intros Hp Hc. split.
  - intros (Hn & Hw & before & after & E & Hb & Ha). destruct (decide (before = [])) as [->|Hne].
    + left. cbn [app] in E. destruct Ha as [->|(d & t & -> & Hd)].
      * exfalso. rewrite app_nil_r in E. rewrite <- E in Hw. apply Forall_app in Hw as [_ Hw]. apply Forall_cons_iff in Hw as [Hw _]. congruence.
      * apply apart_split in E as (-> & _ & _); done.
    + right. destruct (apart_prefix part s before (w ++ after) c Hp Hc Hb Hne E) as (b & -> & Hb'). split_and!; [done|done|]. by exists b, after.
  - intros [[-> Hn]|(Hn & Hw & before & after & -> & Hb & Ha)]; (split; [done|]; split; [done|]).
    + exists [], (c :: s). split_and!; [done|by left|right; by eauto].
    + exists (part ++ c :: before), after. split_and!; [by rewrite <- app_assoc| |done]. right.
      destruct Hb as [->|(b & d & -> & Hd)]; [by exists part, c|]. exists (part ++ c :: b), d. by rewrite <- app_assoc.
Qed.

Lemma split_words s part in_run w : Forall (fun c => is_separator c = false) part -> (in_run = true -> part = []) -> w <> [] ->
  w ∈ split_tags s part in_run <-> is_word w (part ++ s).
Proof.
  revert part in_run. induction s as [|c s IH]; intros part in_run Hp Hr Hn; cbn [split_tags].
  - rewrite app_nil_r, list_elem_of_singleton. split; [|by apply word_whole]. intros ->. split; [done|]. split; [done|].
    exists [], []. rewrite app_nil_r. split_and!; [done|by left|by left].
  - destruct (is_separator c) eqn:Hc.
    + rewrite word_next by done. destruct in_run.
      * rewrite (Hr eq_refl), IH by done. cbn [app]. naive_solver.
      * rewrite elem_of_cons, IH by done. cbn [app]. naive_solver.
    + rewrite IH; [by rewrite <- app_assoc| |done|done]. apply Forall_app_2; [done|by repeat constructor].
Qed.

Lemma word_trim w : Forall (fun c => is_separator c = false) w -> trim w = w.
Proof.
  intros Hw. assert (Forall (fun c => is_space c = false) w) as Hs.
  { revert Hw. apply Forall_impl. intros c Hc. unfold is_separator in Hc. by destruct (is_space c); rewrite ?orb_true_r in Hc. }
  apply trim_id. unfold no_outer_space. destruct w as [|c w]; [done|].
  assert (forall x l, rev (c :: w) = x :: l -> is_space x = false) as Hl.
  { intros x l E. rewrite List.Forall_forall in Hs. apply Hs. rewrite (in_rev (c :: w)), E. by left. }
  apply Forall_cons_iff in Hs as [Hc _]. rewrite Hc. destruct (rev (c :: w)) as [|x l] eqn:E; [done|]. by rewrite (Hl x l).
Qed.

Lemma split_tags_apart s part in_run : Forall (fun c => is_separator c = false) part ->
  Forall (fun w => Forall (fun c => is_separator c = false) w) (split_tags s part in_run).
Proof.
  revert part in_run. induction s as [|c s IH]; intros part in_run Hp; cbn [split_tags]; [by repeat constructor|].
  destruct (is_separator c) eqn:Hc; [destruct in_run; [by apply IH|constructor; [done|by apply IH]]|]. apply IH, Forall_app_2; [done|by repeat constructor].
Qed.

Lemma parse_tags_words tags w : w ∈ parseTags (Some tags) <-> is_word w tags.
Proof.
  assert (parseTags (Some tags) = List.filter is_nonempty (split_tags tags [] false)) as ->.
  { unfold parseTags. destruct tags as [|c tags]; [done|]. f_equal. pose proof (split_tags_apart (c :: tags) [] false ltac:(constructor)) as Hp.
    induction Hp as [|x l Hx _ IH]; [done|]. cbn [map]. by rewrite word_trim, IH. }
  rewrite list_elem_of_In, filter_In, <- list_elem_of_In. split.
  - intros [Hin Hn]. apply split_words in Hin; [done|constructor|done|by destruct w].
  - intros Hw. split; [|by destruct Hw as [Hn _]; destruct w]. apply (split_words tags [] false); [constructor|done|by destruct Hw|done].
Qed.

Section Shown.
Context `{Platform}.

(** The text contains the query, in lower case. *)
Definition mentions (query : jstr) (text : option jstr) : Prop :=
  exists t before after, text = Some t /\ pf_toLowerCase t = before ++ pf_toLowerCase query ++ after.

(** A model passes every filter: it mentions the query in its name, description,
    tags or vendor; it is of the vendor, the group, the endpoint type and the
    bucket (task models are a bucket of their own); and the tag is one of the
    words of its tags, in lower case. *)
Record admitted (f : catalog_filters) (m : pricing_model) : Prop := {
  ad_search : cf_search f = [] \/
    exists text, text ∈ [pm_model_name m; pm_description m; pm_tags m; pm_vendor_name m] /\ mentions (cf_search f) text;
  ad_vendor : cf_vendor f = js "all" \/ pm_vendor_name m = Some (cf_vendor f);
  ad_group : cf_group f = js "all" \/ exists groups, pm_enable_groups m = Some groups /\ cf_group f ∈ groups;
  ad_quota :
    let task := exists schema, pm_billing_usage_schema m = Some schema /\ schema <> [] in
    cf_quotaType f = js "all" \/ (cf_quotaType f = js "task" /\ task) \/
    (cf_quotaType f <> js "task" /\ ~ task /\ n_eqb (pm_quota_type m) (if decide (cf_quotaType f = js "token") then n_zero else n_one) = true);
  ad_endpoint : cf_endpointType f = js "all" \/ exists types, pm_supported_endpoint_types m = Some types /\ cf_endpointType f ∈ types;
  ad_tag : cf_tag f = js "all" \/
    exists tags word, pm_tags m = Some tags /\ is_word word tags /\ pf_toLowerCase word = pf_toLowerCase (cf_tag f);
}.

Lemma mentions_spec query text : text_includes text (pf_toLowerCase query) = true <-> mentions query text.
Proof.
  unfold text_includes, mentions. destruct text as [t|]; [|naive_solver]. rewrite includes_spec. naive_solver.
Qed.

Lemma search_spec query m : search_hit query m = true <->
  exists text, text ∈ [pm_model_name m; pm_description m; pm_tags m; pm_vendor_name m] /\ mentions query text.
Proof.
  unfold search_hit. rewrite !orb_true_iff, !mentions_spec. split; [intros [[[?|?]|?]|?]; eexists; (split; [|done]); set_solver|].
  intros (text & Hin & Hm). repeat (apply elem_of_cons in Hin as [->|Hin]; [tauto|]). by apply not_elem_of_nil in Hin.
Qed.

Lemma includes_option (l : option (list jstr)) x : list_includes l x = true <-> exists k, l = Some k /\ x ∈ k.
Proof. unfold list_includes. destruct l as [k|]; [rewrite bool_decide_eq_true; naive_solver|naive_solver]. Qed.

Lemma task_spec m : hasTaskUsageSchema m = true <-> exists schema, pm_billing_usage_schema m = Some schema /\ schema <> [].
Proof. unfold hasTaskUsageSchema. destruct (pm_billing_usage_schema m) as [[|x l]|]; naive_solver. Qed.

Lemma tag_spec tag m : has_tag tag m = true <->
  exists tags word, pm_tags m = Some tags /\ is_word word tags /\ pf_toLowerCase word = pf_toLowerCase tag.
Proof.
  unfold has_tag. destruct (pm_tags m) as [tags|]; [|naive_solver].
  assert (match tags with [] => false | _ => bool_decide (pf_toLowerCase tag ∈ map pf_toLowerCase (parseTags (Some tags))) end
    = bool_decide (pf_toLowerCase tag ∈ map pf_toLowerCase (parseTags (Some tags)))) as Et by (by destruct tags).
  transitivity (pf_toLowerCase tag ∈ map pf_toLowerCase (parseTags (Some tags))).
  { rewrite <- (bool_decide_eq_true (_ ∈ _)), <- Et. by destruct tags. }
  rewrite list_elem_of_fmap. setoid_rewrite parse_tags_words. naive_solver.
Qed.

Lemma admits_spec f m : admits f m = true <-> admitted f m.
Proof.
  unfold admits, FILTER_ALL. rewrite !andb_true_iff, !orb_true_iff, !bool_decide_eq_true, search_spec, !includes_option, tag_spec.
  assert ((if bool_decide (cf_quotaType f = js "task") then hasTaskUsageSchema m
     else n_eqb (pm_quota_type m) (if bool_decide (cf_quotaType f = js "token") then QUOTA_TOKEN else QUOTA_REQUEST) && negb (hasTaskUsageSchema m)) = true
    <-> (cf_quotaType f = js "task" /\ exists schema, pm_billing_usage_schema m = Some schema /\ schema <> []) \/
    (cf_quotaType f <> js "task" /\ ~ (exists schema, pm_billing_usage_schema m = Some schema /\ schema <> []) /\
     n_eqb (pm_quota_type m) (if decide (cf_quotaType f = js "token") then n_zero else n_one) = true)) as ->.
  { rewrite <- !task_spec. case_bool_decide as Ht; [naive_solver|].
    assert ((if bool_decide (cf_quotaType f = js "token") then QUOTA_TOKEN else QUOTA_REQUEST) = if decide (cf_quotaType f = js "token") then n_zero else n_one) as ->
      by (case_bool_decide; case_decide; done).
    rewrite andb_true_iff, negb_true_iff, <- not_true_iff_false. naive_solver. }
  split; [|by intros []]. intros [[[[[? ?] ?] ?] ?] ?]. by constructor.
Qed.

#[export] Instance admitted_dec f m : Decision (admitted f m).
Proof. destruct (admits f m) eqn:E; [left|right]; rewrite <- admits_spec; congruence. Defined.

Lemma admitted_filter f models : List.filter (admits f) models = filter (admitted f) models.
Proof.
  induction models as [|m models IH]; [done|]. cbn [List.filter]. rewrite filter_cons, IH. case_decide as Ha.
  - apply admits_spec in Ha. by rewrite Ha.
  - rewrite <- admits_spec, not_true_iff_false in Ha. by rewrite Ha.
Qed.
End Shown.

(** ** In which order *)

(** What the code relies on: the collation is a total preorder. *)
Class CollationLaws (C : Collation) : Prop := {
  cl_flip a b : 0 < localeCompare a b <-> localeCompare b a < 0;
  cl_trans a b c : localeCompare a b <= 0 -> localeCompare b c <= 0 -> localeCompare a c <= 0;
}.

Definition sort_name (m : pricing_model) : jstr := default [] (pm_model_name m).

(** A model may come before another one. *)
Definition may_precede `{Collation} (sortBy : jstr) (a b : pricing_model) : Prop :=
  (sortBy = js "name" -> localeCompare (sort_name a) (sort_name b) <= 0) /\
  (sortBy = js "price-low" -> n_ltb (getModelPrice b) (getModelPrice a) = false) /\
  (sortBy = js "price-high" -> n_ltb (getModelPrice a) (getModelPrice b) = false).

Section Sorted.
Context `{C : Collation} `{!CollationLaws C}.

Lemma goes_after_spec sortBy a b : finite_price a = true -> finite_price b = true ->
  goes_after sortBy a b = false <-> may_precede sortBy a b.
Proof using.
  unfold finite_price. intros Ha Hb. apply andb_true_split in Ha as [Va Fa]. apply andb_true_split in Hb as [Vb Fb].
  unfold goes_after, may_precede. rewrite !sub_sign by done.
  case_bool_decide as H1; [subst; rewrite Z.ltb_ge; split; [intros; split_and!; done|intros [H _]; by apply H]|].
  case_bool_decide as H2; [subst; split; [intros; split_and!; done|intros (_ & H & _); by apply H]|].
  case_bool_decide as H3; [subst; split; [intros; split_and!; done|intros (_ & _ & H); by apply H]|].
  split; [|done]. by intros _; split_and!.
Qed.

Lemma prices_consistent sortBy l : Forall (fun m => finite_price m = true) l -> consistent (goes_after sortBy) l.
Proof using CollationLaws0.
  intros Hl. rewrite Forall_elem in Hl.
  assert (forall m, m ∈ l -> is_finite (getModelPrice m) = true) as Hf.
  { intros m Hm. specialize (Hl m Hm). unfold finite_price in Hl. by bsplit. }
  split.
  - intros a b Ha Hb E. apply goes_after_spec; [auto..|]. unfold goes_after in E. pose proof (Hl a Ha) as Va. pose proof (Hl b Hb) as Vb.
    unfold finite_price in Va, Vb. apply andb_true_split in Va as [Va Fa]. apply andb_true_split in Vb as [Vb Fb]. rewrite !sub_sign in E by done.
    unfold may_precede, sort_name. split_and!; intros ->; cbn in E.
    + apply Z.ltb_lt, cl_flip in E. lia.
    + by apply above_flip.
    + by apply above_flip.
  - intros a b c Ha Hb Hc. rewrite !goes_after_spec by auto. intros (N1 & L1 & H1) (N2 & L2 & H2). split_and!; intros E.
    + eapply cl_trans; [by apply N1|by apply N2].
    + apply (not_above_trans _ (getModelPrice b)); auto; [by apply L1|by apply L2].
    + apply (not_above_trans _ (getModelPrice b)); auto; [by apply H2|by apply H1].
Qed.
End Sorted.

(** Models that are not told apart keep their order. *)
Lemma insert_stable (after : pricing_model -> pricing_model -> bool) (P : pricing_model -> bool) x l :
  (forall y, y ∈ l -> P x = true -> P y = true -> after x y = false) ->
  List.filter P (insert_model after x l) = List.filter P (x :: l).
Proof.
  induction l as [|y l IH]; intros H; [done|]. cbn [insert_model]. destruct (after x y) eqn:E; [|done].
  cbn [List.filter]. rewrite IH by (intros z Hz; apply H; by right). cbn [List.filter].
  destruct (P x) eqn:Ex, (P y) eqn:Ey; try done. by rewrite (H y) in E by (done || by left).
Qed.

Lemma sort_stable after (P : pricing_model -> bool) l :
  (forall a b, a ∈ l -> b ∈ l -> P a = true -> P b = true -> after a b = false) ->
  List.filter P (foldr (insert_model after) [] l) = List.filter P l.
Proof.
  induction l as [|x l IH]; intros H; [done|]. cbn [foldr]. rewrite insert_stable.
  - cbn [List.filter]. rewrite IH by (intros a b Ha Hb; apply H; by right). done.
  - intros y Hy. rewrite <- sorted_perm in Hy. apply H; [by left|by right].
Qed.

Lemma sorted_weaken {A} (R S : A -> A -> Prop) (l : list A) : (forall a b, a ∈ l -> b ∈ l -> R a b -> S a b) -> StronglySorted R l -> StronglySorted S l.
Proof.
  intros HRS Hs. induction Hs as [|x l Hs IH Hx]; constructor; [apply IH; intros a b Ha Hb; apply HRS; by right|].
  apply Forall_elem. intros y Hy. rewrite Forall_elem in Hx. apply HRS; [by left|by right|by apply Hx].
Qed.

(** C40: the catalogue page shows exactly the models that pass every filter, in the
    requested order.  The models shown are those listed that are [admitted], each
    as often as it is listed; by name each is not after a later one in the
    collation, from low to high prices none is followed by a cheaper one, from high
    to low none by a dearer one; models that the order does not tell apart, and all
    models when no order is requested, stay in the order in which they are listed.
    The prices are finite numbers, and the collation a total preorder. *)
Theorem catalog_exact `{Platform} `{C : Collation} `{!CollationLaws C} models f :
  Forall (fun m => finite_price m = true) models ->
  let shown := filterAndSortModels models f in
  Permutation shown (filter (admitted f) models) /\
  StronglySorted (may_precede (cf_sortBy f)) shown /\
  (forall tied : pricing_model -> bool,
     (forall a b, tied a = true -> tied b = true -> may_precede (cf_sortBy f) a b) ->
     List.filter tied shown = List.filter tied (filter (admitted f) models)) /\
  (cf_sortBy f ∉ [js "name"; js "price-low"; js "price-high"] -> shown = filter (admitted f) models).
Proof.
  intros Hm shown. set (kept := filter (admitted f) models).
  assert (shown = foldr (insert_model (goes_after (cf_sortBy f))) [] kept) as Es
    by (unfold shown, filterAndSortModels, sortModels; by rewrite selected, admitted_filter).
  assert (Forall (fun m => finite_price m = true) kept) as Hk.
  { rewrite Forall_elem in Hm |- *. intros m Hin. apply Hm. by apply list_elem_of_filter in Hin as [_ ?]. }
  clearbody shown kept. subst shown. pose proof Hk as Hk'. rewrite Forall_elem in Hk'. split_and!.
  - symmetry. apply sorted_perm.
  - eapply sorted_weaken; [|by apply sorted_in_order, prices_consistent]. intros a b Ha Hb E.
    rewrite <- sorted_perm in Ha, Hb. apply goes_after_spec; auto.
  - intros tied Ht. apply sort_stable. intros a b Ha Hb Ta Tb. apply goes_after_spec; auto.
  - intros Hno. assert (forall a b, goes_after (cf_sortBy f) a b = false) as Hg.
    { intros a b. unfold goes_after. rewrite !bool_decide_eq_false_2 by set_solver. done. }
    clear Hk Hk'. induction kept as [|x l IH]; [done|]. cbn [foldr]. rewrite IH. destruct l as [|y l]; [done|]. cbn [insert_model]. by rewrite Hg.
Qed.

(** ** The best ratio *)

(** The finite ratios of some groups. *)
Definition ratios_of (groupRatio : list (jstr * num)) (groups : list jstr) : list num := omap (finite_ratio groupRatio) groups.

Lemma finite_ratio_finite groupRatio group x : finite_ratio groupRatio group = Some x -> is_finite x = true.
Proof. unfold finite_ratio. intros H. repeat case_match; by simplify_eq. Qed.

(** The smallest of a number and the ratios still to come. *)
Lemma min_fold groupRatio groups r0 : is_finite r0 = true ->
  let r := fold_left (min_ratio_step groupRatio) groups r0 in
  is_finite r = true /\ (r = r0 \/ r ∈ ratios_of groupRatio groups) /\ not_above r r0 /\
  Forall (not_above r) (ratios_of groupRatio groups).
Proof.
  revert r0. induction groups as [|g groups IH]; intros r0 H0; cbn [fold_left].
  { split_and!; [done|by left| |by apply Forall_nil]. unfold not_above. rewrite n_ltb_rank by done.
    destruct r0 as [[]| | |[] m e]; try done; cbn [rank_ltb]; rewrite orb_false_iff, andb_false_iff, !Z.ltb_ge; lia. }
  assert (ratios_of groupRatio (g :: groups) = match finite_ratio groupRatio g with
    Some x => x :: ratios_of groupRatio groups | None => ratios_of groupRatio groups end) as -> by done.
  assert (min_ratio_step groupRatio r0 g = match finite_ratio groupRatio g with
    Some x => if n_ltb x r0 then x else r0 | None => r0 end) as -> by done.
  destruct (finite_ratio groupRatio g) as [x|] eqn:Ex; [|by apply IH].
  pose proof (finite_ratio_finite _ _ _ Ex) as Hx. destruct (n_ltb x r0) eqn:El.
  - destruct (IH x Hx) as (H1 & H2 & H3 & H4). split_and!; [done| | |by apply Forall_cons].
    + right. apply elem_of_cons. destruct H2 as [->|H2]; [by left|by right].
    + by apply (not_above_trans _ x); [..|apply above_flip].
  - destruct (IH r0 H0) as (H1 & H2 & H3 & H4). split_and!; [done| |done|].
    + destruct H2 as [->|H2]; [by left|right; apply elem_of_cons; by right].
    + apply Forall_cons; [|done]. by apply (not_above_trans _ r0).
Qed.

Lemma min_from_infinity groupRatio groups : let r := fold_left (min_ratio_step groupRatio) groups infinity in
  match ratios_of groupRatio groups with
  | [] => r = infinity
  | ratios => is_finite r = true /\ r ∈ ratios /\ Forall (not_above r) ratios
  end.
Proof.
  induction groups as [|g groups IH]; [done|]. cbn [fold_left].
  assert (ratios_of groupRatio (g :: groups) = match finite_ratio groupRatio g with
    Some x => x :: ratios_of groupRatio groups | None => ratios_of groupRatio groups end) as -> by done.
  assert (min_ratio_step groupRatio infinity g = match finite_ratio groupRatio g with
    Some x => x | None => infinity end) as ->.
  { unfold min_ratio_step. destruct (finite_ratio groupRatio g) as [x|] eqn:Ex; [|done].
    apply finite_ratio_finite in Ex. by destruct x as [[]| | |[] ? ?]. }
  destruct (finite_ratio groupRatio g) as [x|] eqn:Ex; [|done].
  destruct (min_fold groupRatio groups x (finite_ratio_finite _ _ _ Ex)) as (H1 & H2 & H3 & H4).
  split_and!; [done| |by apply Forall_cons]. apply elem_of_cons. destruct H2 as [->|H2]; [by left|by right].
Qed.

(** the ratio a summary price uses: for a group that is selected and
    enabled it is that group's finite ratio, or 1; otherwise it is the smallest
    finite ratio of the model's enabled groups, and 1 when none of them has
    one. *)
Theorem display_ratio_best m selected :
  let groups := default [] (pm_enable_groups m) in
  let groupRatio := default [] (pm_group_ratio m) in
  let r := getDisplayGroupRatio m selected in
  (forall g, selected = Some g -> g <> [] -> g <> FILTER_ALL -> g ∈ groups -> r = default n_one (finite_ratio groupRatio g)) /\
  ((forall g, selected = Some g -> g = [] \/ g = FILTER_ALL \/ g ∉ groups) ->
   match ratios_of groupRatio groups with
   | [] => r = n_one
   | ratios => r ∈ ratios /\ Forall (fun x => n_ltb x r = false) ratios
   end).
Proof.
  intros groups groupRatio r. split.
  - intros g -> Hg Hall Hin. unfold r, getDisplayGroupRatio. fold groups groupRatio. destruct g as [|c g]; [done|].
    by rewrite bool_decide_eq_false_2, bool_decide_eq_true_2.
  - intros Hsel. assert (r = match groups with [] => n_one | _ =>
      let minRatio := fold_left (min_ratio_step groupRatio) groups infinity in
      if n_eqb minRatio infinity then n_one else minRatio end) as ->.
    { unfold r, getDisplayGroupRatio. fold groups groupRatio. destruct selected as [[|c g]|]; [done| |done].
      destruct (Hsel _ eq_refl) as [?|[->|Hn]]; [done|done|]. by rewrite (bool_decide_eq_false_2 (_ ∈ groups)), andb_false_r. }
    pose proof (min_from_infinity groupRatio groups) as Hm. cbv zeta in *. destruct groups as [|g groups']; [done|].
    destruct (ratios_of groupRatio (g :: groups')) as [|x xs]; [by rewrite Hm|]. destruct Hm as (H1 & H2 & H3).
    assert (n_eqb (fold_left (min_ratio_step groupRatio) (g :: groups') infinity) infinity = false) as ->; [|by split].
    by destruct (fold_left _ _ _) as [[]| | |[] ? ?].
Qed.

(** ** Examples *)
Definition sample_model (name : string) (ratio : Z) (groups : list jstr) : pricing_model :=
  PricingModel (Some (js name)) None (Some (js "acme")) n_zero (n_of_Z ratio) n_one None None None None None None
    (Some groups) (Some (js "chat, vision")) None (Some [(js "vip", n_of_Z 2); (js "default", n_of_Z 3)]) None None None None None.

Definition sample_models : list pricing_model :=
  [sample_model "b" 7 [js "vip"]; sample_model "c" 5 [js "default"]; sample_model "a" 7 [js "vip"; js "default"]].

Definition sample_filters : catalog_filters :=
  CatalogFilters [] (js "all") (js "vip") (js "all") (js "all") (js "vision") (js "price-low").

Lemma str_ltb_asym a b : str_ltb a b = true -> str_ltb b a = false.
Proof.
  revert b. induction a as [|x a IH]; intros [|y b]; cbn [str_ltb]; try done. rewrite orb_true_iff, andb_true_iff, Z.ltb_lt, Z.eqb_eq.
  intros [H|[-> H]]; [rewrite (proj2 (Z.ltb_ge _ _)), (proj2 (Z.eqb_neq _ _)) by lia; done|]. rewrite Z.ltb_irrefl. by rewrite (IH b H), andb_false_r.
Qed.

Lemma str_ltb_false_trans a b c : str_ltb b a = false -> str_ltb c b = false -> str_ltb c a = false.
Proof.
  revert b c. induction a as [|x a IH]; intros [|y b] [|z c]; cbn [str_ltb]; try done.
  rewrite !orb_false_iff, !andb_false_iff, !Z.ltb_ge, !Z.eqb_neq. intros [H1 H2] [H3 H4]. split; [lia|].
  destruct (Z.eq_dec z x) as [->|]; [right|by left]. assert (x = y) as -> by lia. destruct H2, H4; try lia. eauto.
Qed.

#[local] Instance code_unit_laws : CollationLaws code_unit_order.
Proof.
  split; cbn.
  - intros a b. destruct (str_ltb a b) eqn:E1, (str_ltb b a) eqn:E2; try lia. by rewrite (str_ltb_asym a b E1) in E2.
  - assert (forall a b, (if str_ltb a b then -1 else if str_ltb b a then 1 else 0) <= 0 <-> str_ltb b a = false) as Hle.
    { intros a b. destruct (str_ltb a b) eqn:E1; [by rewrite (str_ltb_asym a b E1)|]. by destruct (str_ltb b a). }
    intros a b c. rewrite !Hle. apply str_ltb_false_trans.
Qed.

Lemma catalog_exact_witness :
  let shown := @filterAndSortModels plain_platform code_unit_order sample_models sample_filters in
  StronglySorted (@may_precede code_unit_order (js "price-low")) shown /\ map pm_model_name shown = [Some (js "b"); Some (js "a")].
Proof.
  intros shown. assert (Forall (fun m => finite_price m = true) sample_models) as Hf
    by (repeat (apply Forall_cons; [vm_compute; reflexivity|]); apply Forall_nil; exact I).
  destruct (@catalog_exact plain_platform code_unit_order code_unit_laws sample_models sample_filters Hf) as (_ & Hs & _).
  split; [exact Hs|vm_compute; reflexivity].
Defined.
