(* ===== verification/PluginPricing.v ===== *)
(** * Pricing of plugins

    Models [plugin-pricing.ts]: the keys of plugin expressions, whether an
    expression fits the usage schema of a plugin, the view of a model one
    provider prices, and the comparison of expression tables. *)
From Stdlib Require Import SpecFloat.
From stdpp Require Import strings.
From S2P Require Import Prelude JsString JsNumber JsValue Syntax SyntaxFacts Compile CompileFacts Runtime TaskTiers.
From S2P Require Import Semantics TaskFacts TaskConfig TaskConfigFacts Catalog.

#[local] Open Scope Z_scope.

(** ** Keys *)

(** [key.indexOf('::')], as the text before and the text after. *)
Fixpoint split_key (s : jstr) : option (jstr * jstr) :=
  match s with
  | [] => None
  | c :: s' =>
      if starts_with (js "::") s then Some ([], drop 2 s)
      else match split_key s' with
           | Some (plugin, model) => Some (c :: plugin, model)
           | None => None
           end
  end.

Definition plugin_char (c : Z) : bool := is_lower c || is_digit c || (c =? 95) || (c =? 45).

(** The pattern [^[a-z0-9][a-z0-9_-]{0,29}$]. *)
Definition plugin_name (s : jstr) : bool :=
  match s with
  | [] => false
  | c :: s => (is_lower c || is_digit c) && forallb plugin_char s && (length s <=? 29)%nat
  end.

Definition splitPluginBillingExprKey (key : jstr) : option (jstr * jstr) :=
  match split_key key with
  | None | Some ([], _) => None
  | Some (plugin, model) =>
      if negb (plugin_name plugin) || bool_decide (trim model = []) then None else Some (plugin, model)
  end.

(** ** Expressions and schemas *)

(** The visitor: a literal field of [u] is a property of the schema. *)
Definition compatible_step (schema : usage_schema) (n : node) (compatible : bool) : outcome bool :=
  match n with
  | Call F_u (Lit (L_str key) _ _ :: _) _ _ => Ok (if bool_decide (key ∈ schema.*1) then compatible else false)
  | _ => Ok compatible
  end.

(** [undefined] is [None]. *)
Definition taskExpressionCompatible (expression : jstr) (schema : usage_schema) : outcome (option bool) :=
  if bool_decide (trim expression = []) then Ok (Some false) else
  match compile expression with
  | Failed _ => Ok None
  | Ready compiled =>
      let* compatible := visitExpression (ce_ast compiled) (compatible_step schema)
        (negb (bool_decide (F_fixed ∈ ce_functions compiled))) in
      Ok (Some compatible)
  end.

(** ** Providers *)
Definition withPluginPricing (m : pricing_model) (variant : plugin_variant) : pricing_model :=
  {| pm_model_name := pm_model_name m;
     pm_description := pm_description m;
     pm_vendor_name := pm_vendor_name m;
     pm_quota_type := if bool_decide (pv_billing_mode variant = Some (js "ratio")) then pm_quota_type m else n_zero;
     pm_model_ratio := pm_model_ratio m;
     pm_completion_ratio := pm_completion_ratio m;
     pm_model_price := pm_model_price m;
     pm_cache_ratio := pm_cache_ratio m;
     pm_create_cache_ratio := pm_create_cache_ratio m;
     pm_image_ratio := pm_image_ratio m;
     pm_audio_ratio := pm_audio_ratio m;
     pm_audio_completion_ratio := pm_audio_completion_ratio m;
     pm_enable_groups := pm_enable_groups m;
     pm_tags := pm_tags m;
     pm_supported_endpoint_types := pm_supported_endpoint_types m;
     pm_group_ratio := pm_group_ratio m;
     pm_billing_usage_schema := Some (pv_billing_usage_schema variant);
     pm_billing_mode := Some (default (js "tiered_expr") (pv_billing_mode variant));
     pm_billing_expr := Some (pv_billing_expr variant);
     pm_billing_usage_examples := pv_billing_usage_examples variant;
     pm_billing_plugin_variants := None |}.

Definition pluginUsageSchema (model : option pricing_model) (pluginKey : option jstr) : option usage_schema :=
  let variants := default [] (model ≫= pm_billing_plugin_variants) in
  match List.find (fun v => bool_decide (Some (pv_plugin_key v) = pluginKey)) variants with
  | Some variant => Some (pv_billing_usage_schema variant)
  | None => model ≫= pm_billing_usage_schema
  end.

(** ** Tables of expressions *)
Definition pluginExpressionsEqual (left right : option (list (jstr * jstr))) : bool :=
  let left := default [] left in
  let right := default [] right in
  (length left =? length right)%nat
  && forallb (fun p => bool_decide (obj_get (fst p) right = Some (snd p))) left.

(** ** Facts *)

(** An expression is compatible when it has no fixed price and reads only
    declared facts, and the check never throws. *)
Lemma compatible_spec schema n start : fits 0 n ->
  exists b, visitExpression n (compatible_step schema) start = Ok b /\ (b = true <-> start = true /\ declared schema n).
Proof.
  intros Hf. rewrite visit_spec by done. unfold declared.
  assert (forall l start, exists b, rfold (compatible_step schema) l start = Ok b /\ (b = true <-> start = true /\
    forall field s e args s' e', Call F_u (Lit (L_str field) s e :: args) s' e' ∈ l -> field ∈ schema.*1)) as Hl; [|apply Hl].
  clear. induction l as [|m l IH]; intros start.
  { exists start. cbn. split; [done|]. split; [intros ->; split; [done|]|by intros [? _]]. intros *. by rewrite elem_of_nil. }
  assert (exists start', compatible_step schema m start = Ok start' /\ (start' = true <-> start = true /\
    forall field s e args s' e', m = Call F_u (Lit (L_str field) s e :: args) s' e' -> field ∈ schema.*1))
    as (start' & Em & Hm).
  { assert ((exists field s e args s' e', m = Call F_u (Lit (L_str field) s e :: args) s' e') \/
      compatible_step schema m start = Ok start /\
      forall field s e args s' e', m <> Call F_u (Lit (L_str field) s e :: args) s' e') as [(field & s & e & args & s' & e' & ->)|[E Hn]].
    { destruct m as [| |[] [|[[]| | | | |] ?]| | |]; try (right; done). left. by do 6 eexists. }
    - cbn. eexists. split; [done|]. case_bool_decide; split; try done.
      + intros ->. split; [done|]. by intros * [= <- _ _ _ _ _].
      + by intros [? _].
      + intros [_ Hx]. by destruct H; eapply Hx.
    - exists start. split; [done|]. split; [intros ->|by intros [? _]]. split; [done|]. intros * Heq. by apply Hn in Heq. }
  cbn. rewrite Em. cbn. destruct (IH start') as (b & Eb & Hb). exists b. split; [done|]. rewrite Hb, Hm. split.
  - intros [[H1 H2] H3]. split; [done|]. intros *. rewrite elem_of_cons. intros [Heq|Hin]; [by eapply H2|by eapply H3].
  - intros [H1 H2]. split_and!; [done| |]; intros * Hin; eapply H2; rewrite elem_of_cons; eauto.
Qed.

(** the compatibility check of plugin expressions is exact: it never throws;
    it is undecided exactly when a non-blank expression does not compile; and it
    accepts exactly the expressions that compile, have no fixed price and read,
    by a literal name, only facts the schema declares. *)
Theorem compatible_exact expression schema :
  (exists r, taskExpressionCompatible expression schema = Ok r) /\
  (taskExpressionCompatible expression schema = Ok None <->
    trim expression <> [] /\ exists f, compile expression = Failed f) /\
  (taskExpressionCompatible expression schema = Ok (Some true) <->
    trim expression <> [] /\ exists c, compile expression = Ready c /\ ~ uses_function F_fixed (ce_ast c) /\
      declared schema (ce_ast c)).
Proof.
  unfold taskExpressionCompatible. destruct (decide (trim expression = [])) as [Ht|Ht].
  { rewrite bool_decide_eq_true_2 by done. split_and!; [by eexists|naive_solver|naive_solver]. }
  rewrite bool_decide_eq_false_2 by done. destruct (compile expression) as [c|f] eqn:Ec; [|split_and!; [by eexists|naive_solver|naive_solver]].
  pose proof (compile_ready _ _ Ec) as Hc.
  destruct (compatible_spec schema (ce_ast c) (negb (bool_decide (F_fixed ∈ ce_functions c))) (co_fits _ _ Hc)) as (b & -> & Hb).
  cbn. split_and!; [by eexists|naive_solver|].
  assert (negb (bool_decide (F_fixed ∈ ce_functions c)) = true <-> F_fixed ∉ ce_functions c) as Hf
    by (case_bool_decide; naive_solver).
  rewrite Hf, (co_functions _ _ Hc) in Hb. split.
  - intros [= ->]. split; [done|]. exists c. tauto.
  - intros (_ & c' & [= <-] & H1 & H2). do 2 f_equal. apply Hb. done.
Qed.

Lemma split_key_some s plugin model : split_key s = Some (plugin, model) -> s = plugin ++ js "::" ++ model.
Proof.
  revert plugin. induction s as [|c s IH]; intros plugin; cbn [split_key]; [done|].
  destruct (starts_with (js "::") (c :: s)) eqn:E.
  - intros [= <- <-]. change (js "::") with [58; 58] in E |- *. cbn [starts_with] in E.
    destruct s as [|d s]; bsplit; [done|]. by subst.
  - destruct (split_key s) as [[p m]|]; [|done]. intros [= <- <-]. by rewrite (IH p eq_refl).
Qed.

Lemma split_key_plain plugin model : Forall (fun c => c <> 58) plugin -> split_key (plugin ++ js "::" ++ model) = Some (plugin, model).
Proof.
  induction 1 as [|c plugin Hc _ IH]; [done|]. cbn [app split_key]. rewrite IH.
  assert (starts_with (js "::") (c :: plugin ++ js "::" ++ model) = false) as ->; [|done].
  change (js "::") with [58; 58]. cbn [starts_with]. by rewrite (proj2 (Z.eqb_neq 58 c)).
Qed.

Lemma plugin_char_colon c : plugin_char c = true -> c <> 58.
Proof. by intros H ->. Qed.

Lemma plugin_name_colon s : plugin_name s = true -> s <> [] /\ Forall (fun c => c <> 58) s.
Proof.
  destruct s as [|c s]; cbn; [done|]. intros H. bsplit. split; [done|]. constructor.
  - apply plugin_char_colon. unfold plugin_char. match goal with H : (_ || _) = true |- _ => by rewrite H end.
  - apply Forall_elem. intros x Hx. apply plugin_char_colon. match goal with H : forallb _ _ = true |- _ =>
      rewrite forallb_forall in H; by apply H, list_elem_of_In end.
Qed.

(** keys of plugin expressions are read unambiguously: a key splits into a
    plugin and a model exactly when it is the plugin's name, two colons and a
    model that is not blank, so that no two pairs share a key and a model may
    itself contain colons. *)
Theorem plugin_key_exact key plugin model :
  splitPluginBillingExprKey key = Some (plugin, model) <->
  plugin_name plugin = true /\ trim model <> [] /\ key = plugin ++ js "::" ++ model.
Proof.
  unfold splitPluginBillingExprKey. split.
  - destruct (split_key key) as [[[|c p] m]|] eqn:E; [done| |done]. apply split_key_some in E as ->.
    destruct (plugin_name (c :: p)) eqn:En; [|done]. case_bool_decide; [done|]. by intros [= <- <-].
  - intros (Hn & Hm & ->). destruct (plugin_name_colon _ Hn) as [H1 H2]. rewrite split_key_plain by done.
    destruct plugin as [|c p]; [done|]. by rewrite Hn, bool_decide_eq_false_2.
Qed.

(** Two tables are equal when they map the same keys to the same expressions. *)
Lemma plugin_expressions_equal left right : NoDup left.*1 -> NoDup right.*1 ->
  pluginExpressionsEqual (Some left) (Some right) = true <-> forall key, obj_get key left = obj_get key right.
Proof.
  intros Hl Hr. unfold pluginExpressionsEqual. cbn [default from_option id]. rewrite andb_true_iff, Nat.eqb_eq, forallb_forall.
  assert (forall key x, obj_get key left = Some x <-> (key, x) ∈ left) as Gl by (split; [apply obj_get_some|by apply obj_get_in]).
  assert (forall key x, obj_get key right = Some x <-> (key, x) ∈ right) as Gr by (split; [apply obj_get_some|by apply obj_get_in]).
  assert ((forall p, In p left -> bool_decide (obj_get p.1 right = Some p.2) = true) <-> left ⊆ right) as ->.
  { split; intros H.
    - intros [k x] Hp. apply Gr. apply list_elem_of_In, H in Hp. by apply bool_decide_eq_true in Hp.
    - intros [k x] Hp. apply bool_decide_eq_true. apply Gr, H. by apply list_elem_of_In. }
  split.
  - intros [Hlen Hsub] key. apply option_eq. intros x. rewrite Gl, Gr. split; [apply Hsub|].
    assert (left ≡ₚ right) as ->; [|done]. apply submseteq_length_Permutation; [|lia].
    apply NoDup_submseteq; [by eapply NoDup_fmap_1|done].
  - intros H. assert (left ≡ₚ right) as Hp.
    { apply NoDup_Permutation; [by eapply NoDup_fmap_1|by eapply NoDup_fmap_1|]. intros [k x]. by rewrite <- Gl, <- Gr, H. }
    split; [by rewrite Hp|]. intros p. by rewrite Hp.
Qed.
