(* ===== verification/DynamicPrice.v ===== *)
(** * Summaries of dynamic prices

    Models [dynamic-price.ts] and [billing-mode.ts]: which models have dynamic
    prices, the prices of a tier as entries, the summary of a model over its
    tiers, the summary over the providers of a plugin model, and the example
    price of a card.  A tier is a row of a token table or of a task table, see
    [TierMatch].  The currency formatter is a parameter, as in [Catalog].  A
    provider has no providers of its own, so each recursion of the code is one
    step deep: the part for a model without providers comes first. *)
From Stdlib Require Import SpecFloat.
From stdpp Require Import strings.
From S2P Require Import Prelude JsString JsNumber JsValue Syntax Compile Runtime Display TaskTiers TaskDisplay Structure.
From S2P Require Import RequestRules TierSummary TaskConfig TierMatch PriceTable Catalog PluginPricing.

#[local] Open Scope Z_scope.

(** ** Entries *)
Record dynamic_options := DynamicOptions {
  do_tokenUnit : token_unit;
  do_showCurrencySymbol : option bool;
  do_showRechargePrice : option bool;
  do_priceRate : option num;
  do_usdExchangeRate : option num;
  do_groupRatioMultiplier : option num;
  do_usageSchema : option usage_schema;
  do_now : option date;
}.

Definition with_schema (o : dynamic_options) (schema : option usage_schema) : dynamic_options :=
  DynamicOptions (do_tokenUnit o) (do_showCurrencySymbol o) (do_showRechargePrice o) (do_priceRate o)
    (do_usdExchangeRate o) (do_groupRatioMultiplier o) schema (do_now o).

Inductive label_kind := Label_i18n | Label_schema.

(** The unit of chat tokens is that of task tokens, ['token']. *)
Inductive entry_unit := EU_usage (u : usage_unit) | EU_request | EU_image.

#[global] Instance entry_unit_eq_dec : EqDecision entry_unit.
Proof. solve_decision. Defined.

Definition unit_text (u : entry_unit) : jstr :=
  match u with
  | EU_usage Unit_second => js "second"
  | EU_usage Unit_count => js "count"
  | EU_usage Unit_tokens => js "token"
  | EU_usage Unit_credit => js "credit"
  | EU_request => js "request"
  | EU_image => js "image"
  end.

Record price_entry := PriceEntry {
  pe_key : jstr;
  pe_field : jstr;
  pe_label : jstr;
  pe_shortLabel : jstr;
  pe_labelKind : label_kind;
  pe_value : num;
  pe_formatted : jstr;
  pe_formattedRange : option jstr;
  pe_minValue : option num;
  pe_maxValue : option num;
  pe_unit : entry_unit;
  pe_unitLabel : option localized_text;
  pe_variable : option billing_var;
  pe_description : option localized_text;
}.

Definition getTaskUsageQuantityUnitLabelKey (unit : option usage_unit) : jstr :=
  match unit with
  | Some Unit_second => js "s"
  | Some Unit_tokens => js "token (unit)"
  | Some Unit_credit => js "credit"
  | _ => js "unit"
  end.

Definition getTaskUsagePriceUnitLabelKey (unit : option usage_unit) : jstr :=
  match unit with
  | Some Unit_second => js "second"
  | Some Unit_tokens => js "1M token"
  | Some Unit_credit => js "credit"
  | _ => js "unit"
  end.

Definition getDynamicPriceUnitLabelKey (entry : price_entry) : option jstr :=
  match pe_unit entry with
  | EU_usage Unit_second => Some (js "s")
  | EU_usage Unit_count => Some (js "unit")
  | EU_usage Unit_credit => Some (js "credit")
  | EU_usage Unit_tokens => match pe_variable entry with None => Some (js "1M token") | Some _ => None end
  | EU_request => Some (js "request")
  | EU_image => Some (js "image")
  end.

Definition PRIMARY_DYNAMIC_FIELDS : list jstr := [js "inputPrice"; js "outputPrice"].
Definition is_primary (field : jstr) : bool := bool_decide (field ∈ PRIMARY_DYNAMIC_FIELDS).

(** ** Kinds of models *)
Definition is_ratio (v : plugin_variant) : bool := bool_decide (pv_billing_mode v = Some (js "ratio")).
Definition has_expr (v : plugin_variant) : bool := is_nonempty (pv_billing_expr v).

(** [model.billing_plugin_variants], when it is a non-empty list. *)
Definition providers (m : pricing_model) : option (list plugin_variant) :=
  match pm_billing_plugin_variants m with Some ((_ :: _) as variants) => Some variants | _ => None end.

Definition expression_of (m : pricing_model) : jstr := default [] (pm_billing_expr m).
Definition is_tiered (m : pricing_model) : bool := bool_decide (pm_billing_mode m = Some (js "tiered_expr")).

Definition isDynamicPricingModel (m : pricing_model) : bool :=
  match providers m with
  | Some variants => existsb (fun v => negb (is_ratio v) && has_expr v) variants
  | None => is_tiered m && is_nonempty (expression_of m)
  end.

Definition isTaskUsagePricingModel (m : pricing_model) : bool := is_tiered m && hasTaskUsageSchema m.

Definition unconfigured_model (m : pricing_model) : bool :=
  negb (n_eqb (pm_quota_type m) n_one) && hasTaskUsageSchema m && negb (isDynamicPricingModel m).

Definition unconfigured_variant (m : pricing_model) (v : plugin_variant) : bool :=
  if is_ratio v then unconfigured_model (withPluginPricing m v) else negb (has_expr v).

Definition isUnconfiguredTaskUsageModel (m : pricing_model) : bool :=
  match providers m with
  | Some variants => forallb (unconfigured_variant m) variants
  | None => unconfigured_model m
  end.

Definition getBillingModeLabelKey (m : pricing_model) : jstr :=
  if hasTaskUsageSchema m then js "Task billing"
  else if isDynamicPricingModel m then js "Dynamic Pricing"
  else if isTokenBasedModel m then js "Token-based"
  else js "Per Request".

Definition getTaskPricingUnit `{Collation} (m : pricing_model) : option usage_unit :=
  match getTaskNumberFields (pm_billing_usage_schema m) with
  | (_, d) :: _ => uf_unit d
  | [] => None
  end.

Definition getDynamicDisplayGroupRatio (m : pricing_model) (selectedGroup : option jstr) : num :=
  getDisplayGroupRatio m selectedGroup.

(** ** Tiers and rules *)
Section WithPlatform.
Context `{Platform} `{Collation}.

Definition model_tiers (m : pricing_model) : outcome (list match_tier) :=
  if negb (isDynamicPricingModel m) then Ok [] else
  let* parts := splitBillingExprAndRequestRules (expression_of m) in
  if isTaskUsagePricingModel m then
    let* tiers := getTaskPricingDisplayTiers (Some (se_billingExpr parts)) (pm_billing_usage_schema m) in
    Ok (map MT_task tiers)
  else
    let* tiers := parseTiersFromExpr (se_billingExpr parts) in
    Ok (map MT_token tiers).

Definition getDynamicPricingTiers (m : pricing_model) : outcome (list match_tier) :=
  match providers m with
  | Some variants =>
      let* tiers := rseq (map (fun v => model_tiers (withPluginPricing m v)) variants) in
      Ok (concat tiers)
  | None => model_tiers m
  end.

Definition model_rules (m : pricing_model) : outcome bool :=
  if negb (isDynamicPricingModel m) then Ok false else
  let* parts := splitBillingExprAndRequestRules (expression_of m) in
  let* groups := tryParseRequestRuleExpr (se_requestRuleExpr parts) in
  match groups with
  | Some (_ :: _) => Ok true
  | _ =>
      Ok (match compile (expression_of m) with
          | Ready compiled => match ce_rules compiled with [] => false | _ => true end
          | Failed _ => false
          end)
  end.

(** [some] stops at the first provider with rules. *)
Fixpoint some_rules (models : list pricing_model) : outcome bool :=
  match models with
  | [] => Ok false
  | m :: models =>
      let* found := model_rules m in
      if found then Ok true else some_rules models
  end.

Definition hasDynamicRequestRules (m : pricing_model) : outcome bool :=
  match providers m with
  | Some variants => some_rules (map (withPluginPricing m) variants)
  | None => model_rules m
  end.

(** ** Formatting *)
Section Formatting.
(** [formatBillingCurrencyFromUSD] of [lib/currency.ts] *)
Context (format : num -> format_options -> jstr).

Definition show_price (priceUSD : num) (o : dynamic_options) : jstr :=
  format (applyRechargeRate priceUSD (default false (do_showRechargePrice o)) (default n_one (do_priceRate o))
            (default n_one (do_usdExchangeRate o)))
    (FormatOptions (Some (default true (do_showCurrencySymbol o))) 4 6 false).

Definition formatDynamicUnitPrice (valuePerMillionTokens : num) (o : dynamic_options) : jstr :=
  show_price (n_div (n_mul valuePerMillionTokens (default n_one (do_groupRatioMultiplier o)))
                (TOKEN_UNIT_DIVISORS (do_tokenUnit o))) o.

Definition formatTaskUsageUnitPrice (valuePerUnit : num) (o : dynamic_options) : jstr :=
  show_price (n_mul valuePerUnit (default n_one (do_groupRatioMultiplier o))) o.

Definition price_range (min max : num) (o : dynamic_options) : option jstr :=
  if n_eqb min max then None
  else Some (formatTaskUsageUnitPrice min o ++ js " " ++ [8211] ++ js " " ++ formatTaskUsageUnitPrice max o).

(** ** The entries of a tier *)
Definition fixed_entry (imageCount : bool) (price : num) (o : dynamic_options) : price_entry :=
  PriceEntry (js "fixed") (js "fixedPrice")
    (if imageCount then js "Price per image" else js "Price per request")
    (if imageCount then js "Per image" else js "Per-call")
    Label_i18n price (formatTaskUsageUnitPrice price o) None None None
    (if imageCount then EU_image else EU_request) None None None.

(** [Number(tier.unitPrices[field])], when it is a price. *)
Definition field_price (field : jstr) (tier : task_tier) : option num :=
  match obj_get field (kt_unitPrices tier) with
  | Some x => if is_finite x && n_leb n_zero x then Some x else None
  | None => None
  end.

Definition usage_entry (tier : task_tier) (o : dynamic_options) (entry : jstr * usage_field) : option price_entry :=
  let '(field, definition) := entry in
  match field_price field tier, uf_unit definition with
  | Some value, Some unit =>
      Some (PriceEntry field field field field Label_schema value (formatTaskUsageUnitPrice value o)
              None None None (EU_usage unit) (uf_unitLabel definition) None (uf_description definition))
  | _, _ => None
  end.

Definition constant_entry (constant : num) (o : dynamic_options) : price_entry :=
  PriceEntry (js "constant") (js "constant") (js "Additional charge") (js "Additional charge") Label_i18n
    constant (formatTaskUsageUnitPrice constant o) None None None EU_request None None None.

Definition task_entries (tier : task_tier) (schema : usage_schema) (o : dynamic_options) : list price_entry :=
  omap (usage_entry tier o) (getTaskNumberFields (Some schema))
  ++ (if n_ltb n_zero (kt_constant tier) then [constant_entry (kt_constant tier) o] else []).

(** A cache read that costs what the input costs is not shown, unless free. *)
Definition token_entry (row : parsed_tier) (o : dynamic_options) (v : billing_var) : option price_entry :=
  match bv_field v with
  | None | Some [] => None
  | Some field =>
      match obj_get field (row_fields row) with
      | None => None
      | Some value =>
          if negb (is_finite value) || n_ltb value n_zero then None else
          if bool_decide (bv_key v = V_cr) && negb (n_eqb value n_zero)
             && match obj_get (js "inputPrice") (row_fields row) with Some x => n_eqb value x | None => false end
          then None else
          let timed := bool_decide (bv_key v = V_cc)
                       && match obj_get (js "cacheCreate1hPrice") (row_fields row) with Some _ => true | None => false end in
          Some (PriceEntry (variable_text (bv_key v)) field
                  (if timed then js "Cache Creation (5m)" else bv_label v)
                  (if timed then js "Cache Write (5m)" else bv_shortLabel v)
                  Label_i18n value (formatDynamicUnitPrice value o) None None None
                  (EU_usage Unit_tokens) None (Some v) None)
      end
  end.

(** The stable sort that puts the input and output prices first. *)
Definition primary_first (entries : list price_entry) : list price_entry :=
  List.filter (fun e => is_primary (pe_field e)) entries ++ List.filter (fun e => negb (is_primary (pe_field e))) entries.

Definition getDynamicPriceEntries (tier : option match_tier) (o : dynamic_options) : list price_entry :=
  match tier with
  | None => []
  | Some (MT_task tier) =>
      match do_usageSchema o with Some schema => task_entries tier schema o | None => [] end
  | Some (MT_token row) =>
      match row_unit row, row_fixed row with
      | Some Unit_request, Some price => [fixed_entry (row_imageCount row) price o]
      | _, _ => primary_first (omap (token_entry row o) BILLING_PRICING_VARS)
      end
  end.

(** ** The summary of a model *)
Record dynamic_summary := DynamicSummary {
  ds_tiers : list match_tier;
  ds_tier : option match_tier;
  ds_tierCount : nat;
  ds_hasRequestRules : bool;
  ds_isSpecialExpression : bool;
  ds_rawExpression : jstr;
  ds_entries : list price_entry;
  ds_primaryEntries : list price_entry;
  ds_secondaryEntries : list price_entry;
  ds_isTaskUsage : bool;
  ds_isTimePricing : option bool;
  ds_isMixedBilling : option bool;
  ds_providerCount : option nat;
  ds_hasUnconfiguredProviders : option bool;
}.

Definition is_request_row (t : match_tier) : bool :=
  match t with MT_token row => match row_unit row with Some Unit_request => true | _ => false end | MT_task _ => false end.
Definition is_token_row (t : match_tier) : bool :=
  match t with MT_token row => match row_unit row with Some Unit_request => false | _ => true end | MT_task _ => false end.

(** The smallest and the largest price of a field over the tiers. *)
Definition range_step (field : jstr) (range : num * num) (t : match_tier) : num * num :=
  match t with
  | MT_task tier =>
      match field_price field tier with
      | Some value => (n_min (fst range) value, n_max (snd range) value)
      | None => range
      end
  | MT_token _ => range
  end.

Definition price_bounds (field : jstr) (tiers : list match_tier) : option (num * num) :=
  let range := fold_left (range_step field) tiers (S754_infinity false, S754_infinity true) in
  if is_finite (fst range) && is_finite (snd range) then Some range else None.

(** [priceRanges.get(entry.field)]; the map has the number fields as keys. *)
Definition range_of (schema : option usage_schema) (tiers : list match_tier) (field : jstr) : option (num * num) :=
  if bool_decide (field ∈ map fst (getTaskNumberFields schema)) then price_bounds field tiers else None.

Definition with_range (o : dynamic_options) (e : price_entry) (min max : num) : price_entry :=
  PriceEntry (pe_key e) (pe_field e) (pe_label e) (pe_shortLabel e) (pe_labelKind e) (pe_value e) (pe_formatted e)
    (price_range min max o) (Some min) (Some max) (pe_unit e) (pe_unitLabel e) (pe_variable e) (pe_description e).

Definition add_price_range (schema : option usage_schema) (tiers : list match_tier) (o : dynamic_options) (e : price_entry)
  : price_entry :=
  match range_of schema tiers (pe_field e) with
  | Some (min, max) => with_range o e min max
  | None => e
  end.

(** [entry.unit === 'request' || entry.unit === 'image'] *)
Definition per_call (e : price_entry) : bool :=
  match pe_unit e with EU_request | EU_image => true | EU_usage _ => false end.

Definition model_summary (m : pricing_model) (o : dynamic_options) : outcome (option dynamic_summary) :=
  if negb (isDynamicPricingModel m) then Ok None else
  let* tiers := model_tiers m in
  let isTaskUsage := isTaskUsagePricingModel m in
  let* parts := splitBillingExprAndRequestRules (expression_of m) in
  let* timeTiers :=
    if isTaskUsage then Ok None
    else getCurrentTimePricingTiers (se_billingExpr parts) (default pf_now (do_now o)) in
  let summaryTiers := match timeTiers with Some rows => map MT_token rows | None => tiers end in
  let tier := if isTaskUsage then list.last summaryTiers else head summaryTiers in
  let mixed :=
    if isTaskUsage then None
    else match List.find is_token_row summaryTiers, List.find is_request_row summaryTiers with
         | Some tokenTier, Some requestTier => Some (tokenTier, requestTier)
         | _, _ => None
         end in
  let entries :=
    match mixed with
    | Some (tokenTier, requestTier) =>
        getDynamicPriceEntries (Some tokenTier) o ++ getDynamicPriceEntries (Some requestTier) o
    | None => getDynamicPriceEntries tier (with_schema o (pm_billing_usage_schema m))
    end in
  let entries :=
    if isTaskUsage then map (add_price_range (pm_billing_usage_schema m) tiers o) entries else entries in
  let* rules := model_rules m in
  Ok (Some
    {| ds_tiers := tiers;
       ds_tier := tier;
       ds_tierCount := length tiers;
       ds_hasRequestRules := rules;
       ds_isSpecialExpression := is_nonempty (trim (expression_of m)) && (length tiers =? 0)%nat;
       ds_rawExpression := expression_of m;
       ds_entries := entries;
       ds_primaryEntries :=
         if isTaskUsage then List.filter (fun e => negb (per_call e)) entries
         else List.filter (fun e => per_call e || is_primary (pe_field e)) entries;
       ds_secondaryEntries :=
         if isTaskUsage then List.filter per_call entries
         else List.filter (fun e => negb (per_call e) && negb (is_primary (pe_field e))) entries;
       ds_isTaskUsage := isTaskUsage;
       ds_isTimePricing := Some (match timeTiers with Some _ => true | None => false end);
       ds_isMixedBilling := match mixed with Some _ => Some true | None => None end;
       ds_providerCount := None;
       ds_hasUnconfiguredProviders := None |}).

(** ** The summary over providers *)
Definition price_key (e : price_entry) : jstr := pe_field e ++ js ":" ++ unit_text (pe_unit e).

Record merged_range := MergedRange {
  mg_entry : price_entry;
  mg_min : num;
  mg_max : num;
}.

Definition with_key (e : price_entry) (key : jstr) : price_entry :=
  PriceEntry key (pe_field e) (pe_label e) (pe_shortLabel e) (pe_labelKind e) (pe_value e) (pe_formatted e)
    (pe_formattedRange e) (pe_minValue e) (pe_maxValue e) (pe_unit e) (pe_unitLabel e) (pe_variable e) (pe_description e).

Definition with_unitLabel (e : price_entry) (label : option localized_text) : price_entry :=
  PriceEntry (pe_key e) (pe_field e) (pe_label e) (pe_shortLabel e) (pe_labelKind e) (pe_value e) (pe_formatted e)
    (pe_formattedRange e) (pe_minValue e) (pe_maxValue e) (pe_unit e) label (pe_variable e) (pe_description e).

Definition no_label (label : option localized_text) : bool :=
  match label with
  | None | Some (LT_text []) | Some (LT_map []) => true
  | _ => false
  end.

(** One step of the loop that merges the entries of the providers. *)
Definition merge_entry (ranges : list (jstr * merged_range)) (e : price_entry) : list (jstr * merged_range) :=
  let key := price_key e in
  let range := obj_get key ranges in
  let merged := match range with Some r => mg_entry r | None => with_key e key end in
  let merged := if no_label (pe_unitLabel merged) then with_unitLabel merged (pe_unitLabel e) else merged in
  map_set key
    (MergedRange merged
       (n_min (match range with Some r => mg_min r | None => S754_infinity false end) (default (pe_value e) (pe_minValue e)))
       (n_max (match range with Some r => mg_max r | None => S754_infinity true end) (default (pe_value e) (pe_maxValue e))))
    ranges.

Definition merged_entry (o : dynamic_options) (r : merged_range) : price_entry :=
  let e := mg_entry r in
  PriceEntry (pe_key e) (pe_field e) (pe_label e) (pe_shortLabel e) (pe_labelKind e) (mg_min r)
    (formatTaskUsageUnitPrice (mg_min r) o) (price_range (mg_min r) (mg_max r) o) (Some (mg_min r)) (Some (mg_max r))
    (pe_unit e) (pe_unitLabel e) (pe_variable e) (pe_description e).

Definition merge_entries (o : dynamic_options) (providerEntries : list (list price_entry)) : list price_entry :=
  map (fun p => merged_entry o (snd p)) (fold_left merge_entry (concat providerEntries) []).

(** The price per request of a model some provider of which has a ratio. *)
Definition per_call_entries (m : pricing_model) (variants : list plugin_variant) (o : dynamic_options) : list price_entry :=
  match pm_model_price m with
  | Some price =>
      if n_eqb (pm_quota_type m) n_one && existsb is_ratio variants
      then [PriceEntry (js "modelPrice") (js "modelPrice") (js "Price per request") (js "Per-call") Label_i18n
              price (formatTaskUsageUnitPrice price o) None None None EU_request None None None]
      else []
  | None => []
  end.

Definition is_model_price (e : price_entry) : bool := bool_decide (pe_field e = js "modelPrice").

(** The stable sort that puts the providers' first prices first. *)
Definition keys_first (keys : list jstr) (entries : list price_entry) : list price_entry :=
  List.filter (fun e => bool_decide (pe_key e ∈ keys)) entries
  ++ List.filter (fun e => negb (bool_decide (pe_key e ∈ keys))) entries.

Definition provider_summary (m : pricing_model) (variants : list plugin_variant) (o : dynamic_options)
  : outcome dynamic_summary :=
  let* found := rseq (map (fun v => model_summary (withPluginPricing m v) o) variants) in
  let summaries := omap (fun s => s) found in
  let perCallEntries := per_call_entries m variants o in
  let entries := merge_entries o (map ds_entries summaries ++ [perCallEntries]) in
  let primaryKeys := concat (map (fun s => map price_key (take 1 (ds_primaryEntries s))) summaries) in
  let primary := List.filter (fun e => negb (per_call e) || is_model_price e) entries in
  let tiers := concat (map ds_tiers summaries) in
  Ok {| ds_tiers := tiers;
        ds_tier := head summaries ≫= ds_tier;
        ds_tierCount := length tiers;
        ds_hasRequestRules := existsb ds_hasRequestRules summaries;
        ds_isSpecialExpression :=
          (length perCallEntries =? 0)%nat && negb (length summaries =? 0)%nat
          && forallb ds_isSpecialExpression summaries;
        ds_rawExpression := match summaries with s :: _ => ds_rawExpression s | [] => [] end;
        ds_entries := entries;
        ds_primaryEntries := keys_first primaryKeys primary;
        ds_secondaryEntries := List.filter (fun e => per_call e && negb (is_model_price e)) entries;
        ds_isTaskUsage := true;
        ds_isTimePricing := None;
        ds_isMixedBilling := None;
        ds_providerCount := if (2 <=? length variants)%nat then Some (length variants) else None;
        ds_hasUnconfiguredProviders := Some (existsb (unconfigured_variant m) variants) |}.

Definition getDynamicPricingSummary (m : pricing_model) (o : dynamic_options) : outcome (option dynamic_summary) :=
  match providers m with
  | Some variants => let* s := provider_summary m variants o in Ok (Some s)
  | None => model_summary m o
  end.

(** ** The example price of a card *)
Definition model_example (m : pricing_model) (o : dynamic_options) : outcome (option (jstr * jstr)) :=
  if negb (isTaskUsagePricingModel m) then Ok None else
  match pm_billing_usage_schema m, pm_billing_usage_examples m with
  | Some schema, Some (example :: _) =>
      let* parts := splitBillingExprAndRequestRules (expression_of m) in
      let* config := tryParseTaskVisualConfig (Some (se_billingExpr parts)) schema in
      Ok (match config with
          | None => None
          | Some config =>
              (fun r => (ex_label example, formatTaskUsageUnitPrice (pv_total r) o))
                <$> evaluateTaskVisualConfig config (ex_facts example) (Some schema)
          end)
  | _, _ => Ok None
  end.

Definition getCardExamplePrice (m : pricing_model) (o : dynamic_options) : outcome (option (jstr * jstr)) :=
  match providers m with
  | Some variants =>
      match List.find has_expr variants with
      | Some v => model_example (withPluginPricing m v) o
      | None => Ok None
      end
  | None => model_example m o
  end.
End Formatting.
End WithPlatform.
