(* ===== verification/DynamicPriceFacts.v ===== *)
(** * Price ranges are exact

    The ranges of [DynamicPrice]: over the tiers of a task model, and over the
    providers of a plugin model, the smallest and the largest value shown are
    the smallest and the largest of the prices they summarise. *)
From Stdlib Require Import SpecFloat.
From stdpp Require Import strings.
From S2P Require Import Prelude JsString JsNumber JsNumberFacts JsValue Syntax Compile Runtime Display TaskTiers TaskDisplay.
From S2P Require Import Structure Semantics RequestRules TierSummary TaskConfig TaskConfigFacts TierMatch PriceTable Catalog.
From S2P Require Import CatalogFacts PluginPricing DynamicPrice.

#[local] Open Scope Z_scope.

(** ** Bounds of finite prices *)

(** [m] is a smallest (largest) number of the list, up to the sign of zero. *)
Record least (m : num) (xs : list num) : Prop := {
  least_finite : is_finite m = true;
  least_below : forall x, x ∈ xs -> not_above m x;
  least_attained : exists x, x ∈ xs /\ n_eqb m x = true;
}.

Record greatest (m : num) (xs : list num) : Prop := {
  greatest_finite : is_finite m = true;
  greatest_above : forall x, x ∈ xs -> not_above x m;
  greatest_attained : exists x, x ∈ xs /\ n_eqb m x = true;
}.

Lemma not_above_refl x : not_above x x.
Proof.
  unfold not_above. destruct (is_finite x) eqn:E; [|by destruct x as [[]|[]| |[]]].
  rewrite n_ltb_rank by done. destruct x as [[]| | |[] m e]; try done; cbn; rewrite !Z.ltb_irrefl, andb_false_r; done.
Qed.

Lemma n_min_cases a b : is_finite a = true -> is_finite b = true ->
  is_finite (n_min a b) = true /\ not_above (n_min a b) a /\ not_above (n_min a b) b /\
  (n_eqb (n_min a b) b = true \/ n_min a b = a).
Proof.
  intros Ha Hb. assert ((exists s s', a = S754_zero s /\ b = S754_zero s') \/
    n_min a b = (if n_ltb b a then b else a)) as [(s & s' & -> & ->)| ->].
  { destruct a as [| | |], b as [| | |]; try done; by eauto. }
  - cbn. split_and!; [done|by destruct s|by destruct s|by left; destruct s].
  - destruct (n_ltb b a) eqn:E; split_and!; try done.
    + by apply above_flip.
    + apply not_above_refl.
    + left. by apply n_eqb_refl.
    + apply not_above_refl.
    + by right.
Qed.

Lemma n_max_cases a b : is_finite a = true -> is_finite b = true ->
  is_finite (n_max a b) = true /\ not_above a (n_max a b) /\ not_above b (n_max a b) /\
  (n_eqb (n_max a b) b = true \/ n_max a b = a).
Proof.
  intros Ha Hb. assert ((exists s s', a = S754_zero s /\ b = S754_zero s') \/
    n_max a b = (if n_ltb a b then b else a)) as [(s & s' & -> & ->)| ->].
  { destruct a as [| | |], b as [| | |]; try done; by eauto. }
  - cbn. split_and!; [done|by destruct s|by destruct s|by left; destruct s].
  - destruct (n_ltb a b) eqn:E; split_and!; try done.
    + by apply above_flip.
    + apply not_above_refl.
    + left. by apply n_eqb_refl.
    + apply not_above_refl.
    + by right.
Qed.

(** The running smallest and largest: the start is the infinite one. *)
Definition low_so_far (m : num) (xs : list num) : Prop :=
  match xs with [] => m = S754_infinity false | _ => least m xs end.
Definition high_so_far (m : num) (xs : list num) : Prop :=
  match xs with [] => m = S754_infinity true | _ => greatest m xs end.

Lemma least_one x : is_finite x = true -> least x [x].
Proof.
  intros Hx. split; [done| |exists x; split; [by left|by apply n_eqb_refl]].
  intros y Hy. apply list_elem_of_singleton in Hy as ->. apply not_above_refl.
Qed.

Lemma greatest_one x : is_finite x = true -> greatest x [x].
Proof.
  intros Hx. split; [done| |exists x; split; [by left|by apply n_eqb_refl]].
  intros y Hy. apply list_elem_of_singleton in Hy as ->. apply not_above_refl.
Qed.

Lemma low_step m xs x : Forall (fun y => is_finite y = true) xs -> is_finite x = true -> low_so_far m xs ->
  low_so_far (n_min m x) (xs ++ [x]).
Proof.
  intros Hxs Hx. destruct xs as [|y xs]; cbn [low_so_far app].
  - intros ->. assert (n_min (S754_infinity false) x = x) as -> by (by destruct x as [[]| | |[]]). by apply least_one.
  - intros [Hm Hb (z & Hz & Ez)]. destruct (n_min_cases m x Hm Hx) as (H1 & H2 & H3 & H4).
    change (y :: xs ++ [x]) with ((y :: xs) ++ [x]). rewrite Forall_elem in Hxs. split; [done| |].
    + intros w. rewrite elem_of_app, list_elem_of_singleton. intros [Hw| ->]; [|done].
      eapply (not_above_trans _ m); try done; [by apply Hxs|by apply Hb].
    + destruct H4 as [H4|H4]; [exists x; split; [set_solver|done]|exists z; split; [set_solver|by rewrite H4]].
Qed.

Lemma high_step m xs x : Forall (fun y => is_finite y = true) xs -> is_finite x = true -> high_so_far m xs ->
  high_so_far (n_max m x) (xs ++ [x]).
Proof.
  intros Hxs Hx. destruct xs as [|y xs]; cbn [high_so_far app].
  - intros ->. assert (n_max (S754_infinity true) x = x) as -> by (by destruct x as [[]| | |[]]). by apply greatest_one.
  - intros [Hm Hb (z & Hz & Ez)]. destruct (n_max_cases m x Hm Hx) as (H1 & H2 & H3 & H4).
    change (y :: xs ++ [x]) with ((y :: xs) ++ [x]). rewrite Forall_elem in Hxs. split; [done| |].
    + intros w. rewrite elem_of_app, list_elem_of_singleton. intros [Hw| ->]; [|done].
      eapply (not_above_trans _ m); try done; [by apply Hxs|by apply Hb].
    + destruct H4 as [H4|H4]; [exists x; split; [set_solver|done]|exists z; split; [set_solver|by rewrite H4]].
Qed.

(** ** Over the tiers of a model *)

(** The prices of a field in a list of tiers. *)
Definition tier_prices (field : jstr) (tiers : list match_tier) : list num :=
  omap (fun t => match t with MT_task tier => field_price field tier | MT_token _ => None end) tiers.

Lemma field_price_finite field tier x : field_price field tier = Some x -> is_finite x = true.
Proof.
  unfold field_price. destruct (obj_get _ _) as [y|]; [|done]. destruct (is_finite y && _) eqn:E; [|done].
  intros [= <-]. by apply andb_true_iff in E as [-> _].
Qed.

Lemma tier_prices_finite field tiers : Forall (fun x => is_finite x = true) (tier_prices field tiers).
Proof.
  apply Forall_elem. intros x Hx. apply list_elem_of_omap in Hx as ([row|tier] & _ & E); [done|]. by eapply field_price_finite.
Qed.

Lemma range_fold field tiers : let r := fold_left (range_step field) tiers (S754_infinity false, S754_infinity true) in
  low_so_far (fst r) (tier_prices field tiers) /\ high_so_far (snd r) (tier_prices field tiers).
Proof.
  cbv zeta. induction tiers as [|t tiers IH] using rev_ind; [done|]. rewrite fold_left_app. cbn [fold_left].
  unfold tier_prices. rewrite omap_app. fold (tier_prices field tiers).
  destruct (fold_left _ tiers _) as [lo hi]. cbn [fst snd] in IH. destruct IH as [Hl Hh]. pose proof (tier_prices_finite field tiers).
  destruct t as [row|tier]; cbn [range_step omap list_omap]; [by rewrite app_nil_r|].
  destruct (field_price field tier) as [x|] eqn:Ex; [|by rewrite app_nil_r]. apply field_price_finite in Ex.
  split; [by apply low_step|by apply high_step].
Qed.

Lemma price_bounds_exact field tiers : tier_prices field tiers <> [] ->
  exists lo hi, price_bounds field tiers = Some (lo, hi) /\ least lo (tier_prices field tiers) /\ greatest hi (tier_prices field tiers).
Proof.
  intros Hne. destruct (range_fold field tiers) as [Hl Hh]. unfold price_bounds. destruct (fold_left _ _ _) as [lo hi].
  cbn [fst snd] in *. exists lo, hi. destruct (tier_prices field tiers); [done|]. cbn [low_so_far high_so_far] in *.
  by rewrite (least_finite _ _ Hl), (greatest_finite _ _ Hh).
Qed.

(** What a range says of the prices it summarises. *)
Definition exact_range (format : num -> format_options -> jstr) (o : dynamic_options) (e : price_entry) (lows highs : list num) : Prop :=
  exists lo hi, pe_minValue e = Some lo /\ pe_maxValue e = Some hi /\ least lo lows /\ greatest hi highs /\
    pe_formattedRange e = price_range format lo hi o.

Definition is_usage (e : price_entry) : bool := negb (per_call e).

Section WithPlatform.
Context `{Platform} `{Collation} (format : num -> format_options -> jstr).

Lemma usage_entry_inv tier schema o e : e ∈ task_entries format tier schema o -> is_usage e = true ->
  pe_field e ∈ map fst (getTaskNumberFields (Some schema)) /\ field_price (pe_field e) tier = Some (pe_value e).
Proof.
  unfold task_entries. rewrite elem_of_app. intros [Hin|Hin].
  - apply list_elem_of_omap in Hin as ([field d] & Hd & E). cbn in E. destruct (field_price field tier) as [x|] eqn:Ex; [|done].
    destruct (uf_unit d); [|done]. injection E as <-. intros _. cbn. split; [|done].
    apply list_elem_of_In, in_map_iff. exists (field, d). split; [done|by apply list_elem_of_In].
  - destruct (n_ltb _ _); [|by apply elem_of_nil in Hin]. by apply list_elem_of_singleton in Hin as ->.
Qed.

(** The summary of a task model, when there is one. *)
Lemma task_summary_entries m o s : isTaskUsagePricingModel m = true -> model_summary format m o = Ok (Some s) ->
  exists schema, pm_billing_usage_schema m = Some schema /\
    ds_entries s = map (add_price_range format (Some schema) (ds_tiers s) o)
      (getDynamicPriceEntries format (list.last (ds_tiers s)) (with_schema o (Some schema))) /\
    ds_primaryEntries s = List.filter is_usage (ds_entries s) /\
    ds_secondaryEntries s = List.filter per_call (ds_entries s) /\
    Forall (fun t => match t with MT_task _ => True | MT_token _ => False end) (ds_tiers s).
Proof.
  intros Ht E. unfold model_summary in E. destruct (isDynamicPricingModel m) eqn:Hd; [|done]. cbn [negb] in E.
  rewrite Ht in E. apply rbind_ok in E as (tiers & Et & E). apply rbind_ok in E as (parts & _ & E). cbn [rbind] in E.
  apply rbind_ok in E as (rules & _ & [= <-]). cbn [ds_tiers ds_entries ds_primaryEntries ds_secondaryEntries].
  assert (exists schema, pm_billing_usage_schema m = Some schema) as [schema Hs].
  { unfold isTaskUsagePricingModel, hasTaskUsageSchema in Ht. destruct (pm_billing_usage_schema m); [by eexists|by rewrite andb_false_r in Ht]. }
  exists schema. rewrite Hs. split_and!; try done.
  unfold model_tiers in Et. rewrite Hd, Ht in Et. cbn [negb] in Et.
  apply rbind_ok in Et as (parts' & _ & Et). apply rbind_ok in Et as (rows & _ & [= <-]).
  apply Forall_elem. intros t Hin. apply list_elem_of_In, in_map_iff in Hin as (x & <- & _). done.
Qed.
End WithPlatform.

(** the price ranges of a task model are exact: in the summary of a task
    model without providers, every usage price is the price of its field in the
    last tier, and carries as minimum and maximum the smallest and the largest
    price of that field over all tiers, each attained, with a range text exactly
    when they differ; the usage prices are the primary entries and the charges
    per request the secondary ones. *)
Theorem task_ranges_exact `{Platform} `{Collation} format m o s :
  providers m = None -> isTaskUsagePricingModel m = true -> getDynamicPricingSummary format m o = Ok (Some s) ->
  (forall e, e ∈ ds_entries s -> is_usage e = true ->
    (exists tier, list.last (ds_tiers s) = Some (MT_task tier) /\ field_price (pe_field e) tier = Some (pe_value e)) /\
    exact_range format o e (tier_prices (pe_field e) (ds_tiers s)) (tier_prices (pe_field e) (ds_tiers s))) /\
  ds_primaryEntries s = List.filter is_usage (ds_entries s) /\ ds_secondaryEntries s = List.filter per_call (ds_entries s).
Proof.
  intros Hp Ht E. unfold getDynamicPricingSummary in E. rewrite Hp in E.
  destruct (task_summary_entries format m o s Ht E) as (schema & _ & He & H1 & H2 & Htask). split; [|done].
  intros e Hin Hu. rewrite He in Hin. apply list_elem_of_In, in_map_iff in Hin as (e0 & <- & Hin). apply list_elem_of_In in Hin.
  assert (pe_field (add_price_range format (Some schema) (ds_tiers s) o e0) = pe_field e0 /\
    pe_value (add_price_range format (Some schema) (ds_tiers s) o e0) = pe_value e0 /\
    is_usage (add_price_range format (Some schema) (ds_tiers s) o e0) = is_usage e0) as (-> & -> & Hu0)
    by (unfold add_price_range; destruct (range_of _ _ _) as [[lo hi]|]; done).
  rewrite Hu0 in Hu. destruct (list.last (ds_tiers s)) as [t|] eqn:El; [|by apply elem_of_nil in Hin].
  apply last_Some_elem_of in El as Ht'. rewrite Forall_elem in Htask. specialize (Htask _ Ht').
  destruct t as [|tier]; [done|]. cbn in Hin. destruct (usage_entry_inv _ _ _ _ _ Hin Hu) as [Hf Hv].
  split; [by exists tier|].
  assert (tier_prices (pe_field e0) (ds_tiers s) <> []) as Hne.
  { intros Hnil. assert (pe_value e0 ∈ tier_prices (pe_field e0) (ds_tiers s)) as Hx
      by (apply list_elem_of_omap; by exists (MT_task tier)). rewrite Hnil in Hx. by apply elem_of_nil in Hx. }
  destruct (price_bounds_exact _ _ Hne) as (lo & hi & Er & Hl & Hh). exists lo, hi.
  unfold add_price_range, range_of. rewrite bool_decide_eq_true_2 by done. by rewrite Er.
Qed.

(** ** Over the providers of a model *)
Lemma obj_get_map_set {A} key k (v : A) m : obj_get key (map_set k v m) = if bool_decide (k = key) then Some v else obj_get key m.
Proof.
  induction m as [|[k' w] m IH]; cbn [map_set].
  - by rewrite obj_get_cons.
  - destruct (bool_decide_reflect (k' = k)) as [->|Hne]; rewrite !obj_get_cons; [by case_bool_decide|].
    rewrite IH. do 2 case_bool_decide; congruence.
Qed.

Lemma map_set_keys {A} key (v : A) m x : x ∈ (map_set key v m).*1 <-> x = key \/ x ∈ m.*1.
Proof.
  induction m as [|[k w] m IH]; cbn [map_set fmap list_fmap]; [set_solver|].
  destruct (bool_decide_reflect (k = key)) as [->|Hne]; cbn; rewrite !elem_of_cons; [tauto|]. rewrite IH. tauto.
Qed.

Lemma map_set_nodup {A} key (v : A) m : NoDup m.*1 -> NoDup (map_set key v m).*1.
Proof.
  induction m as [|[k w] m IH]; cbn [map_set].
  - intros _. cbn. apply list.NoDup_cons. split; [set_solver|constructor].
  - cbn. rewrite list.NoDup_cons. intros [Hk Hm]. destruct (bool_decide_reflect (k = key)) as [->|Hne]; cbn; rewrite list.NoDup_cons; [done|].
    split; [|by apply IH]. rewrite map_set_keys. naive_solver.
Qed.

(** The key of a range determines the field and the unit. *)
Lemma split_colon (u u' f f' : jstr) : Forall (fun c => c <> 58) u -> Forall (fun c => c <> 58) u' ->
  u ++ 58 :: f = u' ++ 58 :: f' -> u = u' /\ f = f'.
Proof.
  intros Hu. revert u'. induction Hu as [|c u Hc _ IH]; intros u' Hu' E; destruct Hu' as [|c' u' Hc' Hu']; cbn in E; simplify_eq; [done|].
  by destruct (IH u' Hu') as [-> ->].
Qed.

Lemma unit_text_colon u : Forall (fun c => c <> 58) (unit_text u).
Proof. by destruct u as [[]| |]; repeat constructor. Qed.

Lemma unit_text_inj u u' : unit_text u = unit_text u' -> u = u'.
Proof. by destruct u as [[]| |], u' as [[]| |]. Qed.

Lemma price_key_inj e e' : price_key e = price_key e' <-> pe_field e = pe_field e' /\ pe_unit e = pe_unit e'.
Proof.
  unfold price_key. split; [|by intros [-> ->]]. intros E. apply (f_equal (@rev Z)) in E. rewrite !rev_app_distr in E.
  change (rev (js ":")) with [58] in E. rewrite <- !app_assoc in E. cbn [app] in E.
  apply split_colon in E as [E1 E2]; [|apply Forall_rev, unit_text_colon|apply Forall_rev, unit_text_colon].
  split; [by rewrite <- (rev_involutive (pe_field e)), E2, rev_involutive|].
  apply unit_text_inj. by rewrite <- (rev_involutive (unit_text (pe_unit e))), E1, rev_involutive.
Qed.

(** The prices an entry stands for, and the entries that share a key. *)
Definition low (e : price_entry) : num := default (pe_value e) (pe_minValue e).
Definition high (e : price_entry) : num := default (pe_value e) (pe_maxValue e).
Definition priced (e : price_entry) : Prop := is_finite (low e) = true /\ is_finite (high e) = true.
Definition group (key : jstr) (entries : list price_entry) : list price_entry :=
  List.filter (fun e => bool_decide (price_key e = key)) entries.

Record merged_of (key : jstr) (r : merged_range) (entries : list price_entry) : Prop := {
  mo_nonempty : entries <> [];
  mo_key : pe_key (mg_entry r) = key;
  mo_range_key : price_key (mg_entry r) = key;
  mo_low : low_so_far (mg_min r) (map low entries);
  mo_high : high_so_far (mg_max r) (map high entries);
}.

Definition merge_invariant (ranges : list (jstr * merged_range)) (entries : list price_entry) : Prop :=
  NoDup ranges.*1 /\
  forall key, match obj_get key ranges with
              | None => group key entries = []
              | Some r => merged_of key r (group key entries)
              end.

Lemma group_app key entries e : group key (entries ++ [e]) = group key entries ++ (if bool_decide (price_key e = key) then [e] else []).
Proof. unfold group. rewrite List.filter_app. cbn. by case_bool_decide. Qed.

Lemma group_finite key entries : Forall priced entries ->
  Forall (fun x => is_finite x = true) (map low (group key entries)) /\ Forall (fun x => is_finite x = true) (map high (group key entries)).
Proof.
  intros Hp. rewrite Forall_elem in Hp. split; apply Forall_elem; intros x Hx; apply list_elem_of_In, in_map_iff in Hx as (e & <- & He);
    apply filter_In in He as [He _]; apply Hp; by apply list_elem_of_In.
Qed.

Lemma merge_entry_invariant ranges entries e : Forall priced entries -> priced e -> merge_invariant ranges entries ->
  merge_invariant (merge_entry ranges e) (entries ++ [e]).
Proof.
  intros Hp [Hlow Hhigh] [Hnd Hinv]. split; [by apply map_set_nodup|]. intros key. unfold merge_entry.
  rewrite obj_get_map_set, group_app. specialize (Hinv key). destruct (bool_decide_reflect (price_key e = key)) as [<-|Hne];
    [|by rewrite app_nil_r].
  set (key := price_key e) in *. destruct (group_finite key entries Hp) as [Hfl Hfh].
  set (merged := match obj_get key ranges with Some r => mg_entry r | None => with_key e key end).
  assert (pe_key merged = key /\ price_key merged = key) as [Hk Hr].
  { unfold merged. destruct (obj_get key ranges) as [r|]; [by destruct Hinv|done]. }
  assert (forall b : bool, pe_key (if b then with_unitLabel merged (pe_unitLabel e) else merged) = key /\
    price_key (if b then with_unitLabel merged (pe_unitLabel e) else merged) = key) as Hlabel by (by intros []).
  split; cbn [mg_entry mg_min mg_max]; [by destruct (group key entries)|apply Hlabel|apply Hlabel| |];
    rewrite map_app; cbn [map]; [apply low_step|apply high_step]; try done;
    (destruct (obj_get key ranges) as [r|]; [by destruct Hinv|by rewrite Hinv]).
Qed.

Lemma merge_all entries : Forall priced entries -> merge_invariant (fold_left merge_entry entries []) entries.
Proof.
  induction entries as [|e entries IH] using rev_ind; intros Hp; [split; [constructor|done]|].
  apply Forall_app in Hp as [Hp He]. inversion_clear He. rewrite fold_left_app. by apply merge_entry_invariant; [|done|auto].
Qed.

(** The entries of a field and a unit. *)
Definition sharing (e : price_entry) (entries : list price_entry) : list price_entry :=
  List.filter (fun x => bool_decide (pe_field x = pe_field e) && bool_decide (pe_unit x = pe_unit e)) entries.

Lemma group_sharing e entries : group (price_key e) entries = sharing e entries.
Proof.
  unfold group, sharing. apply List.filter_ext. intros x. apply eq_true_iff_eq.
  rewrite andb_true_iff, !bool_decide_eq_true. apply price_key_inj.
Qed.

Lemma merge_entries_exact format o lists : Forall priced (concat lists) ->
  NoDup (map price_key (merge_entries format o lists)) /\
  (forall x, x ∈ concat lists -> exists e, e ∈ merge_entries format o lists /\ pe_field e = pe_field x /\ pe_unit e = pe_unit x) /\
  (forall e, e ∈ merge_entries format o lists -> pe_minValue e = Some (pe_value e) /\ sharing e (concat lists) <> [] /\
    exact_range format o e (map low (sharing e (concat lists))) (map high (sharing e (concat lists)))).
Proof.
  intros Hp. unfold merge_entries. destruct (merge_all _ Hp) as [Hnd Hinv]. set (ranges := fold_left merge_entry (concat lists) []) in *.
  assert (forall key r, (key, r) ∈ ranges -> merged_of key r (group key (concat lists))) as Hin.
  { intros key r Hr. specialize (Hinv key). by rewrite (obj_get_in key r ranges Hnd Hr) in Hinv. }
  split_and!.
  - rewrite map_map. rewrite (map_ext_in _ fst); [exact Hnd|]. intros [key r] Hr. cbn.
    apply list_elem_of_In in Hr. by apply (mo_range_key _ _ _ (Hin _ _ Hr)).
  - intros x Hx. specialize (Hinv (price_key x)). destruct (obj_get (price_key x) ranges) as [r|] eqn:E.
    + exists (merged_entry format o r). split; [|apply price_key_inj; by apply (mo_range_key _ _ _ Hinv)].
      apply list_elem_of_In, in_map_iff. exists (price_key x, r). split; [done|]. by apply list_elem_of_In, obj_get_some.
    + assert (x ∈ group (price_key x) (concat lists)) as Hg; [|rewrite Hinv in Hg; by apply elem_of_nil in Hg].
      apply list_elem_of_In, filter_In. split; [by apply list_elem_of_In|by apply bool_decide_eq_true].
  - intros e He. apply list_elem_of_In, in_map_iff in He as ([key r] & <- & Hr). apply list_elem_of_In in Hr.
    destruct (Hin _ _ Hr) as [Hne _ Hk Hl Hh]. cbn [snd].
    assert (sharing (merged_entry format o r) (concat lists) = group key (concat lists)) as ->
      by (rewrite <- group_sharing; by rewrite <- Hk). split_and!; [done|done|].
    exists (mg_min r), (mg_max r). destruct (group key (concat lists)); done.
Qed.

(** the summary over the providers of a plugin model is exact: among its
    entries there is one for each field and unit some provider, or the price per
    request, offers, and no other; its value and minimum are the smallest and its
    maximum the largest of the prices offered under that field and unit, each
    attained, and its range text says so; prices in different units are never
    merged. *)
Theorem provider_ranges_exact `{Platform} `{Collation} format m o variants found s :
  providers m = Some variants -> rseq (map (fun v => model_summary format (withPluginPricing m v) o) variants) = Ok found ->
  getDynamicPricingSummary format m o = Ok (Some s) ->
  let offered := concat (map ds_entries (omap (fun x => x) found)) ++ per_call_entries format m variants o in
  Forall priced offered ->
  NoDup (map (fun e => (pe_field e, pe_unit e)) (ds_entries s)) /\
  (forall x, x ∈ offered -> exists e, e ∈ ds_entries s /\ pe_field e = pe_field x /\ pe_unit e = pe_unit x) /\
  (forall e, e ∈ ds_entries s -> pe_minValue e = Some (pe_value e) /\ sharing e offered <> [] /\
    exact_range format o e (map low (sharing e offered)) (map high (sharing e offered))).
Proof.
  intros Hv Hf E offered Hp. unfold getDynamicPricingSummary in E. rewrite Hv in E.
  apply rbind_ok in E as (s' & E & [= ->]). unfold provider_summary in E. rewrite Hf in E. injection E as <-. cbn [ds_entries].
  set (lists := map ds_entries (omap (fun x => x) found) ++ [per_call_entries format m variants o]).
  assert (concat lists = offered) as Ec by (unfold lists, offered; rewrite concat_app; cbn [concat]; by rewrite app_nil_r).
  rewrite <- Ec in *. destruct (merge_entries_exact format o lists Hp) as (H1 & H2 & H3). split_and!; [|done|done].
  apply (NoDup_fmap_1 (fun p : jstr * entry_unit => fst p ++ js ":" ++ unit_text (snd p))).
  change (NoDup (map (fun p : jstr * entry_unit => fst p ++ js ":" ++ unit_text (snd p))
    (map (fun e => (pe_field e, pe_unit e)) (merge_entries format o lists)))). by rewrite map_map.
Qed.

(** ** Examples *)
Definition plain_format (x : num) (_ : format_options) : jstr := num_to_string x.
Definition plain_options : dynamic_options := DynamicOptions Unit_M None None None None None None None.

(** The video expression of [TaskFacts], as a model and as two providers. *)
Definition task_model (expr : jstr) (schema : usage_schema) : pricing_model :=
  PricingModel (Some (js "video")) None None n_one n_one n_one (Some (n_of_Z 7)) None None None None None
    (Some []) None None None (Some schema) (Some (js "tiered_expr")) (Some expr) None None.

Definition with_providers (m : pricing_model) (variants : list plugin_variant) : pricing_model :=
  PricingModel (pm_model_name m) None None n_one n_one n_one (pm_model_price m) None None None None None
    (Some []) None None None None None None None (Some variants).

Definition two_providers : list plugin_variant :=
  [PluginVariant (js "a") TaskFacts.video_source None TaskFacts.video_schema None;
   PluginVariant (js "b") (js "tier('flat', u('seconds') * 3)") None TaskFacts.video_schema None;
   PluginVariant (js "c") [] (Some (js "ratio")) TaskFacts.video_schema None].

Definition video_model : pricing_model := task_model TaskFacts.video_source TaskFacts.video_schema.
Definition plugin_model : pricing_model := with_providers video_model two_providers.

Definition summary_of (r : outcome (option dynamic_summary)) : dynamic_summary :=
  match r with
  | Ok (Some s) => s
  | _ => DynamicSummary [] None 0 false false [] [] [] [] false None None None None
  end.

Definition video_summary : dynamic_summary :=
  Eval vm_compute in summary_of (@getDynamicPricingSummary plain_platform code_unit_order plain_format video_model plain_options).

Lemma task_ranges_exact_witness :
  map (fun e => (pe_field e, pe_minValue e, pe_maxValue e)) (ds_entries video_summary)
    = [(js "seconds", Some (n_of_Z 1), Some (n_of_Z 2))] /\
  exists e, e ∈ ds_entries video_summary /\ is_usage e = true /\
    exact_range plain_format plain_options e (tier_prices (pe_field e) (ds_tiers video_summary))
      (tier_prices (pe_field e) (ds_tiers video_summary)).
Proof.
  split; [vm_compute; reflexivity|].
  assert (@getDynamicPricingSummary plain_platform code_unit_order plain_format video_model plain_options = Ok (Some video_summary)) as E
    by (vm_compute; reflexivity).
  destruct (@task_ranges_exact plain_platform code_unit_order plain_format video_model plain_options video_summary
    ltac:(vm_compute; reflexivity) ltac:(vm_compute; reflexivity) E) as [Hall _].
  destruct (ds_entries video_summary) as [|e es] eqn:He; [vm_compute in He; discriminate|].
  exists e. assert (is_usage e = true) as Hu by (vm_compute in He; injection He as <- _; vm_compute; reflexivity).
  split; [by left|]. split; [done|]. apply Hall; [by left|done].
Defined.

Definition provider_summaries : list (option dynamic_summary) :=
  Eval vm_compute in match rseq (map (fun v => @model_summary plain_platform code_unit_order plain_format (withPluginPricing plugin_model v) plain_options)
    two_providers) with Ok l => l | Err _ => [] end.
Definition plugin_summary : dynamic_summary :=
  Eval vm_compute in summary_of (@getDynamicPricingSummary plain_platform code_unit_order plain_format plugin_model plain_options).

Lemma provider_ranges_exact_witness :
  map (fun e => (pe_key e, pe_minValue e, pe_maxValue e)) (ds_entries plugin_summary)
    = [(js "seconds:second", Some (n_of_Z 1), Some (n_of_Z 3)); (js "modelPrice:request", Some (n_of_Z 7), Some (n_of_Z 7))] /\
  NoDup (map (fun e => (pe_field e, pe_unit e)) (ds_entries plugin_summary)).
Proof.
  split; [vm_compute; reflexivity|].
  apply (@provider_ranges_exact plain_platform code_unit_order plain_format plugin_model plain_options two_providers provider_summaries plugin_summary).
  - vm_compute; reflexivity.
  - vm_compute; reflexivity.
  - vm_compute; reflexivity.
  - apply Forall_elem. intros x Hx. apply list_elem_of_In in Hx. vm_compute in Hx.
    repeat (destruct Hx as [<-|Hx]; [split; vm_compute; reflexivity|]). done.
Defined.

(** A usage field may be called [constant], like the entry of the charge per
    request; the charge, here 5, then carries the range of the field's prices. *)
Definition clash_model : pricing_model :=
  task_model (js "tier('x', 5 + u('constant') * 2)")
    [(js "constant", UsageField (Some Field_number) (Some Unit_second) None)].

Lemma constant_field_clash :
  map (fun e => (pe_unit e, pe_value e, pe_minValue e, pe_maxValue e))
    (ds_entries (summary_of (@getDynamicPricingSummary plain_platform code_unit_order plain_format clash_model plain_options)))
  = [(EU_usage Unit_second, n_of_Z 2, Some (n_of_Z 2), Some (n_of_Z 2)); (EU_request, n_of_Z 5, Some (n_of_Z 2), Some (n_of_Z 2))].
Proof. vm_compute. reflexivity. Qed.
