(* ===== verification/TierEditor.v ===== *)
(** * The token tier editor

    Models [tier-expr.ts] except its reader [tryParseVisualConfig]: the tiers
    the editor keeps, their normal form, the expression it writes for them, and
    the local estimator.  A tier is an object whose properties named [..._cost]
    are numbers, kept as an association list. *)
From Stdlib Require Import SpecFloat.
From stdpp Require Import strings.
From S2P Require Import Prelude JsString JsNumber JsValue Syntax Compile Runtime Display Structure TierSummary Catalog.

#[local] Open Scope Z_scope.

Inductive cache_mode := CACHE_MODE_TIMED | CACHE_MODE_GENERIC.

(** [value: number | string] *)
Inductive condition_value := CV_num (x : num) | CV_str (s : jstr).

(** [TierConditionInput]; the variable is one of [p], [c], [len] and the
    operator one of the four of order. *)
Record condition_input := ConditionInput {
  ci_var : token_variable;
  ci_op : binary_operator;
  ci_value : condition_value;
}.

(** [Partial<VisualTier>] *)
Record editor_tier := EditorTier {
  et_billing_unit : option billing_unit;
  et_fixed_price : option jstr;
  et_label : option jstr;
  et_conditions : option (list condition_input);
  et_cache_mode : option cache_mode;
  et_costs : list (jstr * num);
}.

(** [Number(tier[field]) || 0] *)
Definition cost_of (field : jstr) (costs : list (jstr * num)) : num := price_or_nothing (obj_get field costs).

Definition getTierCacheMode (tier : option editor_tier) : cache_mode :=
  match tier ≫= et_cache_mode with
  | Some mode => mode
  | None =>
      match tier with
      | Some tier =>
          if n_ltb n_zero (default S754_nan (obj_get (js "cache_create_1h_unit_cost") (et_costs tier)))
          then CACHE_MODE_TIMED else CACHE_MODE_GENERIC
      | None => CACHE_MODE_GENERIC
      end
  end.

(** The costs [normalizeVisualTier] always sets. *)
Definition NORMAL_COSTS : list jstr :=
  [js "cache_read_unit_cost"; js "cache_create_unit_cost"; js "cache_create_1h_unit_cost"; js "image_unit_cost";
   js "image_output_unit_cost"; js "audio_input_unit_cost"; js "audio_output_unit_cost"].

(** A property set before the spread of the tier, which overrides it. *)
Definition default_cost (field : jstr) (costs : list (jstr * num)) : list (jstr * num) :=
  match obj_get field costs with Some _ => costs | None => obj_set field n_zero costs end.

Definition normalizeVisualTier (tier : editor_tier) : editor_tier :=
  let costs := default_cost (js "output_unit_cost") (default_cost (js "input_unit_cost") (et_costs tier)) in
  {| et_billing_unit := et_billing_unit tier;
     et_fixed_price := et_fixed_price tier;
     et_label := Some (default [] (et_label tier));
     et_conditions := Some (default [] (et_conditions tier));
     et_cache_mode := Some (getTierCacheMode (Some tier));
     et_costs := fold_left (fun o field => obj_set field (cost_of field (et_costs tier)) o) NORMAL_COSTS costs |}.

Definition createDefaultVisualConfig : list editor_tier :=
  [normalizeVisualTier (EditorTier None None (Some (js "base")) (Some []) (Some CACHE_MODE_GENERIC)
     [(js "input_unit_cost", n_zero); (js "output_unit_cost", n_zero)])].

Definition normalizeVisualConfig (config : option (list editor_tier)) : list editor_tier :=
  match config with
  | None | Some [] => createDefaultVisualConfig
  | Some tiers => map normalizeVisualTier tiers
  end.

(** ** The expression *)
Definition given_value (c : condition_input) : bool :=
  match ci_value c with CV_str [] => false | _ => true end.

Definition condition_value_text (v : condition_value) : jstr :=
  match v with CV_num x => num_to_string x | CV_str s => s end.

Definition condition_source (c : condition_input) : jstr :=
  variable_text (ci_var c) ++ js " " ++ binary_text (ci_op c) ++ js " " ++ condition_value_text (ci_value c).

Definition buildConditionStr (conditions : option (list condition_input)) : jstr :=
  join (js " && ") (map condition_source (List.filter given_value (default [] conditions))).

Definition cost_term (v : token_variable) (x : num) : jstr := variable_text v ++ js " * " ++ num_to_string x.

(** The terms after those of [p] and [c]: the costs that are not zero. *)
Definition extra_terms (costs : list (jstr * num)) : list jstr :=
  omap (fun cv => let x := cost_of (fst cv) costs in
                  if n_eqb x n_zero then None else Some (cost_term (snd cv) x)) BILLING_CACHE_VAR_MAP.

Definition buildTierBodyExpr (tier : editor_tier) : jstr :=
  match et_billing_unit tier with
  | Some Unit_request => js "fixed(" ++ default [] (et_fixed_price tier) ++ js ")"
  | _ =>
      join (js " + ")
        (cost_term V_p (cost_of (js "input_unit_cost") (et_costs tier))
         :: cost_term V_c (cost_of (js "output_unit_cost") (et_costs tier))
         :: extra_terms (et_costs tier))
  end.

(** [tier.label || fallback] *)
Definition label_or (fallback : jstr) (tier : editor_tier) : jstr :=
  match et_label tier with Some ((_ :: _) as label) => label | _ => fallback end.

Definition tier_source (label : jstr) (tier : editor_tier) : jstr :=
  js "tier(" ++ [34] ++ label ++ [34] ++ js ", " ++ buildTierBodyExpr tier ++ js ")".

(** The loop over several tiers; [i] counts from one. *)
Fixpoint tier_parts (i : Z) (tiers : list editor_tier) : list jstr :=
  match tiers with
  | [] => []
  | tier :: rest =>
      let body := tier_source (label_or (js "tier_" ++ dec_of_Z i) tier) tier in
      let cond := buildConditionStr (et_conditions tier) in
      (match rest, cond with
       | _ :: _, _ :: _ => cond ++ js " ? " ++ body
       | _, _ => body
       end) :: tier_parts (i + 1) rest
  end.

Definition zero_source : jstr := js "p * 0 + c * 0".

Definition generateExprFromVisualConfig (config : option (list editor_tier)) : jstr :=
  match config with
  | None | Some [] => zero_source
  | Some [tier] =>
      let body := tier_source (label_or (js "default") tier) tier in
      match buildConditionStr (et_conditions tier) with
      | [] => body
      | cond => cond ++ js " ? " ++ body ++ js " : " ++ zero_source
      end
  | Some tiers => join (js " : ") (tier_parts 1 tiers)
  end.

(** ** The estimator *)
Record extra_tokens := ExtraTokens {
  xt_cacheReadTokens : num;
  xt_cacheCreateTokens : num;
  xt_cacheCreate1hTokens : num;
  xt_imageTokens : num;
  xt_imageCacheTokens : num;
  xt_imageOutputTokens : num;
  xt_audioInputTokens : num;
  xt_audioOutputTokens : num;
}.

Definition ESTIMATOR_VARS : list (token_variable * (extra_tokens -> num)) :=
  [(V_cr, xt_cacheReadTokens); (V_cc, xt_cacheCreateTokens); (V_cc1h, xt_cacheCreate1hTokens); (V_img, xt_imageTokens);
   (V_img_cr, xt_imageCacheTokens); (V_img_o, xt_imageOutputTokens); (V_ai, xt_audioInputTokens); (V_ao, xt_audioOutputTokens)].

Definition buildEstimatorTokens (promptTokens completionTokens : num) (extra : extra_tokens)
  : list (token_variable * option num) :=
  let len := fold_left n_add
    [xt_cacheReadTokens extra; xt_imageCacheTokens extra; xt_imageTokens extra; xt_audioInputTokens extra;
     xt_cacheCreateTokens extra; xt_cacheCreate1hTokens extra] promptTokens in
  [(V_p, Some promptTokens); (V_c, Some completionTokens); (V_len, Some len)]
  ++ map (fun field => (fst field, Some (snd field extra))) ESTIMATOR_VARS.

(** [{...tokens, [v]: x}] *)
Fixpoint set_token (v : token_variable) (x : option num) (tokens : list (token_variable * option num))
  : list (token_variable * option num) :=
  match tokens with
  | [] => [(v, x)]
  | (w, y) :: rest => if bool_decide (w = v) then (w, x) :: rest else (w, y) :: set_token v x rest
  end.

Record eval_result := EvalResult {
  er_cost : num;
  er_matchedTier : jstr;
  er_error : option jstr;
  er_billingUnit : option billing_unit;
}.

Section WithPlatform.
Context `{Platform}.

Definition evalExprLocally (exprStr : jstr) (promptTokens completionTokens : num) (extra : extra_tokens)
    (cx : option context) : eval_result :=
  if bool_decide (trim exprStr = []) then EvalResult n_zero [] None None else
  let cx := default empty_context cx in
  let tokens := fold_left (fun tokens p => set_token (fst p) (snd p) tokens) (default [] (cx_tokens cx))
    (buildEstimatorTokens promptTokens completionTokens extra) in
  match evaluate_compiled (compile exprStr)
          (Context_ (Some tokens) (cx_request cx) (cx_usage cx) (cx_now cx) (cx_imageCount cx)) with
  | NotEvaluated f => EvalResult n_zero [] (Some (d_detail (f_diagnostic f))) None
  | Evaluated s =>
      EvalResult (es_cost s) (es_matchedTier s) None
        (match es_billingUnit s with Unit_request => Some Unit_request | _ => None end)
  end.
End WithPlatform.

Definition exprUsesExtraVars (exprStr : jstr) : bool :=
  match exprStr with
  | [] => false
  | _ =>
      match compile exprStr with
      | Failed _ => false
      | Ready compiled => existsb (fun field => bool_decide (fst field ∈ ce_variables compiled)) ESTIMATOR_VARS
      end
  end.
