(* ===== verification/TierText.v ===== *)
(** * The tokens and the trees of tier chains

    A tier chain as data, with the tokens it is written with and the tree it
    stands for; the grammar derives the tree from the tokens, and the readers of
    [Display] find the tiers in the tree, whatever its spans. *)
From Stdlib Require Import SpecFloat.
From stdpp Require Import strings.
From S2P Require Import Prelude JsString JsNumber JsNumberFacts Syntax Compile Runtime Display Parser Grammar GrammarFacts.

#[local] Open Scope Z_scope.

(** ** Chains as data; a number comes with the flag of its literal. *)
Record chain_condition := ChainCondition { ch_var : token_variable; ch_op : binary_operator; ch_value : num; ch_int : bool }.
Record chain_term := ChainTerm { cm_var : token_variable; cm_price : num; cm_int : bool }.
Inductive chain_body :=
| CB_fixed (x : num) (i : bool)
| CB_sum (t : chain_term) (ts : list chain_term).
Record chain_tier := ChainTier { cn_label : jstr; cn_body : chain_body }.

(** Guarded tiers and the last one. *)
Notation chain := (list (chain_condition * list chain_condition * chain_tier) * chain_tier)%type.

(** ** Tokens *)
Definition sym (s : string) : token := T_sym (js s).

Definition condition_tokens (c : chain_condition) : list token :=
  [T_name (variable_text (ch_var c)); T_sym (binary_text (ch_op c)); T_num (ch_value c) (ch_int c)].
Definition term_tokens (t : chain_term) : list token :=
  [T_name (variable_text (cm_var t)); sym "*"; T_num (cm_price t) (cm_int t)].
Definition more_tokens {A} (o : string) (tokens : A -> list token) (l : list A) : list token :=
  concat (map (fun x => sym o :: tokens x) l).

Definition body_tokens (b : chain_body) : list token :=
  match b with
  | CB_fixed x i => [T_name (js "fixed"); sym "("; T_num x i; sym ")"]
  | CB_sum t ts => term_tokens t ++ more_tokens "+" term_tokens ts
  end.
Definition tier_tokens (t : chain_tier) : list token :=
  [T_name (js "tier"); sym "("; T_str (cn_label t); sym ","] ++ body_tokens (cn_body t) ++ [sym ")"].
Definition guard_tokens (c : chain_condition) (cs : list chain_condition) : list token :=
  condition_tokens c ++ more_tokens "&&" condition_tokens cs.

Fixpoint guarded_tokens (l : list (chain_condition * list chain_condition * chain_tier)) (last : chain_tier) : list token :=
  match l with
  | [] => tier_tokens last
  | (c, cs, t) :: l => guard_tokens c cs ++ [sym "?"] ++ tier_tokens t ++ [sym ":"] ++ guarded_tokens l last
  end.

(** ** Trees *)
Definition condition_tree (c : chain_condition) : node := Bin (ch_op c) (Var (ch_var c) 0 0) (num_lit (ch_value c) (ch_int c)) 0 0.
Definition term_tree (t : chain_term) : node := Bin B_mul (Var (cm_var t) 0 0) (num_lit (cm_price t) (cm_int t)) 0 0.
Definition more_tree {A} (o : binary_operator) (tree : A -> node) (first : node) (l : list A) : node :=
  fold_left (fun acc x => Bin o acc (tree x) 0 0) l first.

Definition body_tree (b : chain_body) : node :=
  match b with
  | CB_fixed x i => Call F_fixed [num_lit x i] 0 0
  | CB_sum t ts => more_tree B_add term_tree (term_tree t) ts
  end.
Definition tier_tree (t : chain_tier) : node := Call F_tier [str_lit (cn_label t); body_tree (cn_body t)] 0 0.
Definition guard_tree (c : chain_condition) (cs : list chain_condition) : node := more_tree B_and condition_tree (condition_tree c) cs.

Fixpoint guarded_tree (l : list (chain_condition * list chain_condition * chain_tier)) (last : chain_tier) : node :=
  match l with
  | [] => tier_tree last
  | (c, cs, t) :: l => Cond (guard_tree c cs) (tier_tree t) (guarded_tree l last) 0 0
  end.

(** ** Derivations *)

(** What follows an expression: nothing, or a closing symbol. *)
Definition calm (r : list token) : Prop :=
  match r with [] => True | t :: _ => t = sym ")" \/ t = sym ":" \/ t = sym "," end.

Lemma calm_stops m r : calm r -> stops_at m r.
Proof. destruct r as [|t r]; [done|]. intros [->|[->| ->]]; exact I. Qed.

Lemma calm_starts s r : calm r -> s ∉ [js ")"; js ":"; js ","] -> ~ starts s r.
Proof. intros Hr Hs [r' ->]. destruct Hr as [[= ->]|[[= ->]|[= ->]]]; set_solver. Qed.

Lemma always_stops r : stops_at 7 r.
Proof. destruct r as [|[| |s|] r]; cbn [stops_at]; try done. destruct (binary_of_text s) as [o|]; [|done]. destruct o; cbn; lia. Qed.

Lemma number_derives m x i r : m <> 0 -> stops_at m r -> g_expression m (T_num x i :: r) (num_lit x i) r.
Proof. intros Hm Hs. eapply G_plain; [apply G_num|by apply G_stop|done]. Qed.

Lemma variable_derives v t r : t <> sym "(" -> g_primary (T_name (variable_text v) :: t :: r) (Var v 0 0) (t :: r).
Proof. intros Ht. apply G_var. intros [r' [= ->]]. done. Qed.

(** An operator applied to the variable read so far and a number. *)
Lemma applied_derives m v o x i r n e : m <= level o -> level o <> -1 -> stops_at (level o + 1) r ->
  g_operators m (Bin o (Var v 0 0) (num_lit x i) 0 0) r n e ->
  g_operators m (Var v 0 0) (T_sym (binary_text o) :: T_num x i :: r) n e.
Proof. intros Hm H1 Hs H. eapply G_operator; [done|apply number_derives; [lia|done]|done]. Qed.

Lemma term_derives t r : stops_at 6 r -> g_expression 6 (term_tokens t ++ r) (term_tree t) r.
Proof.
  intros Hs. eapply G_plain; [by apply variable_derives| |done].
  apply (applied_derives 6 (cm_var t) B_mul); [done|done|apply always_stops|by apply G_stop].
Qed.

(** The tail of a sum or of a conjunction. *)
Lemma more_derives {A} (o : binary_operator) (tokens : A -> list token) tree l first r :
  (forall x r, In x l -> stops_at (level o + 1) r -> g_expression (level o + 1) (tokens x ++ r) (tree x) r) ->
  stops_at 0 r -> stops_at (level o + 1) r ->
  g_operators 0 first (concat (map (fun x => T_sym (binary_text o) :: tokens x) l) ++ r) (more_tree o tree first l) r.
Proof.
  intros Hx H0 Ho. revert first Hx. induction l as [|x l IH]; intros first Hx; cbn [map concat app more_tree fold_left]; [by apply G_stop|].
  rewrite <- app_assoc. eapply G_operator; [destruct o; cbn; lia| |apply IH; intros y r' Hy; apply Hx; by right].
  apply Hx; [by left|]. destruct l as [|y l]; [done|]. cbn [map concat app stops_at]. rewrite binary_of_binary. lia.
Qed.

Lemma sum_derives t ts r : calm r -> g_expression 0 (body_tokens (CB_sum t ts) ++ r) (body_tree (CB_sum t ts)) r.
Proof.
  intros Hr. cbn [body_tokens body_tree]. rewrite <- app_assoc. eapply G_plain; [by apply variable_derives| |].
  - apply (applied_derives 0 (cm_var t) B_mul); [done|done|apply always_stops|].
    apply (more_derives B_add term_tokens); [intros; by apply term_derives|by apply calm_stops|by apply calm_stops].
  - intros _. apply calm_starts; [done|]. by compute_done.
Qed.

Lemma call_derives f args tokens r : g_arguments (tokens ++ sym ")" :: r) args (sym ")" :: r) -> length args = arity f ->
  g_primary ([T_name (function_text f); sym "("] ++ tokens ++ sym ")" :: r) (Call f args 0 0) r.
Proof. intros Ha Hl. by apply G_call. Qed.

(** A call at the top of an expression that something calm follows. *)
Lemma call_expression f args tokens r : calm r -> g_arguments (tokens ++ sym ")" :: r) args (sym ")" :: r) -> length args = arity f ->
  g_expression 0 ([T_name (function_text f); sym "("] ++ tokens ++ sym ")" :: r) (Call f args 0 0) r.
Proof.
  intros Hr Ha Hl. eapply G_plain; [by apply call_derives|by apply G_stop, calm_stops|].
  intros _. apply calm_starts; [done|by compute_done].
Qed.

Lemma body_derives b r : calm r -> g_expression 0 (body_tokens b ++ r) (body_tree b) r.
Proof.
  intros Hr. destruct b as [x i|t ts]; [|by apply sum_derives].
  apply (call_expression F_fixed [num_lit x i] [T_num x i]); [done| |done].
  apply G_last; [by intros [? ?]| |by intros [? ?]].
  eapply G_plain; [apply G_num|by apply G_stop|by intros _ [? ?]].
Qed.

Lemma body_tokens_start b r : ~ starts (js ")") (body_tokens b ++ r).
Proof. destruct b; by intros [? ?]. Qed.

Lemma tier_derives t r : calm r -> g_expression 0 (tier_tokens t ++ r) (tier_tree t) r.
Proof.
  intros Hr. unfold tier_tokens. rewrite <- !app_assoc. cbn [app].
  apply (call_expression F_tier [str_lit (cn_label t); body_tree (cn_body t)]
    ([T_str (cn_label t); sym ","] ++ body_tokens (cn_body t))); [done| |done].
  rewrite <- app_assoc. cbn [app]. eapply G_more; [by intros [? ?]| |].
  - eapply G_plain; [apply G_str|by apply G_stop|by intros _ [? ?]].
  - apply G_last; [apply body_tokens_start|apply body_derives; by left|by intros [? ?]].
Qed.

(** Conditions are comparisons of order. *)
Definition guards_ok (c : chain_condition) (cs : list chain_condition) : bool := forallb (fun c => is_order (ch_op c)) (c :: cs).

Lemma order_level o : is_order o = true -> level o = 4.
Proof. by destruct o. Qed.

Lemma condition_derives c r : is_order (ch_op c) = true -> stops_at 3 r -> g_expression 3 (condition_tokens c ++ r) (condition_tree c) r.
Proof.
  intros Hc Hr. eapply G_plain; [apply variable_derives; by destruct c as [? []]| |done].
  apply applied_derives; [rewrite order_level by done; lia|by rewrite order_level| |by apply G_stop].
  rewrite order_level by done. destruct r as [|[| |s|] r]; cbn [stops_at] in *; try done. destruct (binary_of_text s); [lia|done].
Qed.

Definition guarded_ok (l : list (chain_condition * list chain_condition * chain_tier)) : bool :=
  forallb (fun g => guards_ok (fst (fst g)) (snd (fst g))) l.

(** The tokens of a chain derive its tree. *)
Lemma chain_derives l last : guarded_ok l = true -> g_expression 0 (guarded_tokens l last) (guarded_tree l last) [].
Proof.
  induction l as [|[[c cs] t] l IH]; cbn [guarded_tokens guarded_tree guarded_ok forallb fst snd]; intros Hl.
  { rewrite <- (app_nil_r (tier_tokens last)). by apply tier_derives. }
  apply andb_true_split in Hl as [Hg Hl]. cbn [guards_ok forallb] in Hg. apply andb_true_split in Hg as [Hc Hcs].
  unfold guard_tokens. rewrite <- app_assoc. cbn [condition_tokens app]. eapply G_conditional.
  - apply variable_derives. by destruct c as [? []].
  - apply applied_derives; [by rewrite order_level|by rewrite order_level| |].
    + rewrite order_level by done. by destruct cs.
    + rewrite forallb_forall in Hcs. apply (more_derives B_and condition_tokens condition_tree); [|done|done].
      intros x r Hx. apply condition_derives. by apply Hcs.
  - apply tier_derives. by right; left.
  - by apply IH.
Qed.

(** ** Readers do not look at spans *)
Lemma flatten_erase n o : flattenBinary (erase n) o = map erase (flattenBinary n o).
Proof.
  induction n as [| | | |o' l r s e IHl IHr|] using node_rect_strong; try done.
  cbn [erase flattenBinary]. destruct (bool_decide (o' = o)); [|done]. by rewrite IHl, IHr, map_app.
Qed.

Lemma mapM_erase {A} (f : node -> option A) l : (forall n, f (erase n) = f n) -> mapM f (map erase l) = mapM f l.
Proof. intros Hf. induction l as [|n l IH]; cbn; [done|]. by rewrite Hf, IH. Qed.

Lemma condition_of_erase n : token_condition_of (erase n) = token_condition_of n.
Proof. by destruct n as [| | | |o [] [[]| | | | |] s e|]. Qed.

Lemma price_literal_erase n : nonnegativePriceLiteral (erase n) = nonnegativePriceLiteral n.
Proof. by destruct n as [[]| | |[] [[]| | | | |]| |]. Qed.

Lemma zero_literal_erase n : is_zero_literal (erase n) = is_zero_literal n.
Proof. by destruct n as [[]| | | | |]. Qed.

Lemma remainder_erase n : match erase n with Bin B_sub (Var V_len _ _) (Var V_ai _ _) _ _ => Some V_p | _ => None end
  = match n with Bin B_sub (Var V_len _ _) (Var V_ai _ _) _ _ => Some V_p | _ => None end.
Proof. by destruct n as [| | | |[] [|[]| | | |] [|[]| | | |] s e|]. Qed.

Lemma priced_variable_erase n : priced_variable (erase n) = priced_variable n.
Proof.
  destruct n as [| |[] [|a [|b [|]]]| | |]; try done. cbn [erase map priced_variable]. rewrite !zero_literal_erase.
  destruct (is_zero_literal a); [apply remainder_erase|]. destruct (is_zero_literal b); [apply remainder_erase|done].
Qed.

Lemma price_term_erase n : price_term (erase n) = price_term n.
Proof.
  destruct n as [| | | |[] l r s e|]; try done. cbn [erase price_term]. by rewrite !price_literal_erase, !priced_variable_erase.
Qed.

Lemma price_terms_erase l prices : price_terms (map erase l) prices = price_terms l prices.
Proof.
  revert prices. induction l as [|n l IH]; intros prices; cbn [map price_terms]; [done|]. rewrite price_term_erase.
  destruct (price_term n) as [[v x]|]; [|done]. by rewrite IH.
Qed.

Lemma token_tier_erase n cs : tokenTier (erase n) cs = tokenTier n cs.
Proof.
  destruct n as [| |[] [|a [|b rest]] s e| | |]; try done; [by destruct a as [[]| | | | |]|].
  assert (forall label, match erase b with
    | Call F_fixed (Lit (L_num x _) _ _ :: _) _ _ => Some (TokenTier None false (Some Unit_request) (Some x) label cs [])
    | _ => match price_terms (flattenBinary (erase b) B_add) [] with
           | Some (p :: prices) => Some (TokenTier None false None None label cs (p :: prices)) | _ => None end end =
    match b with
    | Call F_fixed (Lit (L_num x _) _ _ :: _) _ _ => Some (TokenTier None false (Some Unit_request) (Some x) label cs [])
    | _ => match price_terms (flattenBinary b B_add) [] with
           | Some (p :: prices) => Some (TokenTier None false None None label cs (p :: prices)) | _ => None end end) as Hb.
  { intros label. rewrite flatten_erase, price_terms_erase.
    destruct b as [| |[] [|[[]| | | | |] ?]| | |]; done. }
  destruct a as [[| | |]| | | | |]; try done. apply Hb.
Qed.

Lemma audio_probe_erase n : audio_probe (erase n) = audio_probe n.
Proof. by destruct n as [| | | |[] [|[]| | | |] [[]| | | | |] s e|]. Qed.

Lemma audio_tiers_erase n : audio_tiers (erase n) = audio_tiers n.
Proof.
  destruct n as [| | | | |[| | | |[] l r ? ?|] y no s e]; try done. cbn [erase audio_tiers].
  by rewrite !audio_probe_erase, !token_tier_erase.
Qed.

Lemma token_conditions_erase n : tokenConditions (erase n) = tokenConditions n.
Proof. unfold tokenConditions. rewrite flatten_erase. apply mapM_erase, condition_of_erase. Qed.

Lemma tier_chain_erase n : tier_chain (erase n) = tier_chain n.
Proof.
  induction n as [| | | | |c y no s e _ _ IH] using node_rect_strong;
    try (match goal with |- tier_chain (erase ?m) = _ => change (tier_chain (erase m)) with ((fun t => [t]) <$> tokenTier (erase m) []);
      change (tier_chain m) with ((fun t => [t]) <$> tokenTier m []); by rewrite token_tier_erase end).
  cbn [erase tier_chain]. rewrite token_conditions_erase. destruct (tokenConditions c); [|done].
  rewrite token_tier_erase, IH. done.
Qed.

Lemma read_chain_erase n : readTokenTierChain (erase n) = readTokenTierChain n.
Proof.
  induction n as [| | | |o l r s e IHl IHr|c y no s e IHc IHy IHno] using node_rect_strong;
    try (match goal with |- readTokenTierChain (erase ?m) = _ => exact (tier_chain_erase m) end).
  - destruct o; try (match goal with |- readTokenTierChain (erase ?m) = _ => exact (tier_chain_erase m) end). cbn [erase readTokenTierChain].
    change (audio_tiers (Bin B_mul (erase l) (erase r) 0 0)) with (@None (list token_tier)).
    change (audio_tiers (Bin B_mul l r s e)) with (@None (list token_tier)).
    assert (forall n, is_image_count (erase n) = is_image_count n) as Hi by (by intros []). rewrite !Hi, IHl, IHr.
    destruct (is_image_count l), (is_image_count r); try done; exact (tier_chain_erase (Bin B_mul l r s e)).
  - change (readTokenTierChain (erase (Cond c y no s e))) with
      (match audio_tiers (erase (Cond c y no s e)) with Some t => Some t | None => tier_chain (erase (Cond c y no s e)) end).
    by rewrite audio_tiers_erase, tier_chain_erase.
Qed.

(** ** The tiers of a tree *)
Definition condition_row (c : chain_condition) : token_condition := TokenCondition (ch_var c) (ch_op c) (ch_value c).
Definition tier_row (conditions : list token_condition) (t : chain_tier) : token_tier :=
  match cn_body t with
  | CB_fixed x _ => TokenTier None false (Some Unit_request) (Some x) (cn_label t) conditions []
  | CB_sum t0 ts => TokenTier None false None None (cn_label t) conditions (map (fun m => (cm_var m, cm_price m)) (t0 :: ts))
  end.
Definition chain_rows (l : list (chain_condition * list chain_condition * chain_tier)) (last : chain_tier) : list token_tier :=
  map (fun '(c, cs, t) => tier_row (map condition_row (c :: cs)) t) l ++ [tier_row [] last].

(** What the readers ask of a chain. *)
Definition condition_ok (c : chain_condition) : bool :=
  is_order (ch_op c) && is_tier_variable (ch_var c) && negb (n_ltb (ch_value c) n_zero).
Definition term_ok (t : chain_term) : bool :=
  n_leb n_zero (cm_price t) && match cm_var t with V_len | V_image_count => false | _ => true end.
Definition tier_ok (t : chain_tier) : bool :=
  match cn_body t with
  | CB_fixed _ _ => true
  | CB_sum t0 ts => forallb term_ok (t0 :: ts) && bool_decide (NoDup (map cm_var (t0 :: ts)))
  end.
Definition chain_ok (l : list (chain_condition * list chain_condition * chain_tier)) (last : chain_tier) : bool :=
  forallb (fun '(c, cs, t) => forallb condition_ok (c :: cs) && tier_ok t) l && tier_ok last.

Lemma flatten_more {A} o (tree : A -> node) first l : (forall x, In x l -> flattenBinary (tree x) o = [tree x]) ->
  flattenBinary (more_tree o tree first l) o = flattenBinary first o ++ map tree l.
Proof.
  intros Ht. revert first. induction l as [|x l IH]; intros first; cbn [more_tree fold_left map]; [by rewrite app_nil_r|].
  fold (more_tree o tree (Bin o first (tree x) 0 0) l). rewrite IH by (intros y Hy; apply Ht; by right). cbn [flattenBinary].
  rewrite bool_decide_eq_true_2, Ht, <- app_assoc; [done|by left|done].
Qed.

Lemma condition_flat c : condition_ok c = true -> flattenBinary (condition_tree c) B_and = [condition_tree c].
Proof. by destruct c as [v [] x i]. Qed.

Lemma conditions_read c cs : forallb condition_ok (c :: cs) = true ->
  tokenConditions (guard_tree c cs) = Some (map condition_row (c :: cs)).
Proof.
  intros H. pose proof H as Hall. rewrite forallb_forall in Hall. unfold tokenConditions, guard_tree.
  rewrite flatten_more by (intros x Hx; apply condition_flat, Hall; by right). rewrite condition_flat by (apply Hall; by left).
  change ([condition_tree c] ++ map condition_tree cs) with (map condition_tree (c :: cs)). clear Hall.
  induction (c :: cs) as [|x l IH]; [done|]. cbn [forallb] in H. apply andb_true_split in H as [Hx H].
  change (mapM token_condition_of (map condition_tree (x :: l)))
    with (token_condition_of (condition_tree x) ≫= fun y => mapM token_condition_of (map condition_tree l) ≫= fun k => Some (y :: k)).
  rewrite IH by done. unfold condition_ok in Hx. unfold token_condition_of, condition_tree, num_lit. rewrite Hx. done.
Qed.

Lemma terms_read ts prices : forallb term_ok ts = true -> NoDup (prices.*1 ++ map cm_var ts) ->
  price_terms (map term_tree ts) prices = Some (prices ++ map (fun m => (cm_var m, cm_price m)) ts).
Proof.
  revert prices. induction ts as [|t ts IH]; intros prices H Hn; cbn [map price_terms]; [by rewrite app_nil_r|].
  cbn [forallb] in H. apply andb_true_split in H as [Ht H]. unfold term_ok in Ht. apply andb_true_split in Ht as [Hp Hv].
  assert (price_term (term_tree t) = Some (cm_var t, cm_price t)) as ->.
  { unfold price_term, term_tree, num_lit, nonnegativePriceLiteral. rewrite Hp. cbn [priced_variable].
    by destruct t as [[] x i]. }
  cbn [map] in Hn. pose proof Hn as Hn'. apply list.NoDup_app in Hn' as (_ & Hd & _).
  rewrite bool_decide_eq_false_2 by (intros Hin; apply (Hd _ Hin); by left).
  rewrite IH; [by rewrite <- app_assoc|done|]. rewrite fmap_app, <- app_assoc. done.
Qed.

Lemma tier_read t conditions : tier_ok t = true -> tokenTier (tier_tree t) conditions = Some (tier_row conditions t).
Proof.
  unfold tier_ok, tier_tree, tier_row. destruct t as [label [x i|t0 ts]]; [done|]. cbn [cn_label cn_body]. intros H. bsplit.
  cbn [body_tree]. assert (flattenBinary (more_tree B_add term_tree (term_tree t0) ts) B_add = map term_tree (t0 :: ts)) as Hf
    by (by rewrite flatten_more).
  assert (exists l r, more_tree B_add term_tree (term_tree t0) ts = Bin B_add l r 0 0 \/ more_tree B_add term_tree (term_tree t0) ts = Bin B_mul l r 0 0)
    as (l & r & Hshape).
  { destruct ts as [|t1 ts _] using rev_ind; [do 2 eexists; by right|]. unfold more_tree. rewrite fold_left_app. do 2 eexists. by left. }
  assert (price_terms (flattenBinary (more_tree B_add term_tree (term_tree t0) ts) B_add) [] =
    Some (map (fun m => (cm_var m, cm_price m)) (t0 :: ts))) as Hp by (rewrite Hf; by apply (terms_read (t0 :: ts) [])).
  cbn [map] in Hp. destruct Hshape as [E|E]; rewrite E in *; cbn [tokenTier str_lit]; by rewrite Hp.
Qed.

Lemma guard_not_or c cs y no : forallb condition_ok (c :: cs) = true -> audio_tiers (Cond (guard_tree c cs) y no 0 0) = None.
Proof.
  intros H. assert (exists o l r, guard_tree c cs = Bin o l r 0 0 /\ o <> B_or) as (o & l & r & -> & Ho).
  { destruct cs as [|x cs _] using rev_ind.
    - cbn [forallb] in H. apply andb_true_split in H as [H _]. unfold condition_ok in H. do 3 eexists. split; [done|]. by destruct c as [v [] ? ?].
    - unfold guard_tree, more_tree. rewrite fold_left_app. by do 3 eexists. }
  by destruct o.
Qed.

(** The tiers the readers find in the tree of a chain. *)
Lemma chain_read l last : chain_ok l last = true -> readTokenTierChain (guarded_tree l last) = Some (chain_rows l last).
Proof.
  intros H. assert (tier_chain (guarded_tree l last) = Some (chain_rows l last)) as Hc.
  { unfold chain_ok in H. apply andb_true_split in H as [Hl Hlast]. induction l as [|[[c cs] t] l IH]; cbn [guarded_tree].
    - change (tier_chain (tier_tree last)) with ((fun t => [t]) <$> tokenTier (tier_tree last) []). by rewrite tier_read.
    - cbn [forallb] in Hl. apply andb_true_split in Hl as [Hg Hl]. apply andb_true_split in Hg as [Hcs Ht].
      cbn [tier_chain]. rewrite conditions_read, tier_read by done. by rewrite IH. }
  destruct l as [|[[c cs] t] l]; [exact Hc|]. unfold chain_ok in H. apply andb_true_split in H as [H _].
  cbn [forallb] in H. apply andb_true_split in H as [H _]. apply andb_true_split in H as [H _].
  cbn [guarded_tree readTokenTierChain] in *. by rewrite guard_not_or.
Qed.
