(* ===== verification/TierCompile.v ===== *)
(** * Tier chains compile

    A source that parses to the tree of a chain passes the checks of the
    compiler: the tree has a type, no request rules, and where it has fixed
    prices, their shape. *)
From Stdlib Require Import SpecFloat.
From stdpp Require Import strings.
From S2P Require Import Prelude JsString JsNumber JsNumberFacts Syntax SyntaxFacts Parser ParserFacts Grammar Compile CompileFacts EraseFacts.
From S2P Require Import Runtime Display TierText.

#[local] Open Scope Z_scope.

(** ** Parts of a chain *)

(** No calls and no conditionals. *)
Definition plain_part (p : node) : bool := match p with Call _ _ _ _ | Cond _ _ _ _ _ => false | _ => true end.
Definition plain_tree (n : node) : bool := forallb plain_part (postorder n).

Lemma plain_more {A} o (tree : A -> node) first l : plain_tree first = true -> (forall x, plain_tree (tree x) = true) ->
  plain_tree (more_tree o tree first l) = true.
Proof.
  intros Hf Ht. revert first Hf. induction l as [|x l IH]; intros first Hf; cbn [more_tree fold_left]; [done|]. apply IH.
  unfold plain_tree in *. cbn [postorder app]. by rewrite !forallb_app, Hf, Ht.
Qed.

Lemma plain_guard c cs : plain_tree (guard_tree c cs) = true.
Proof. by apply plain_more. Qed.

Lemma plain_sum t ts : plain_tree (body_tree (CB_sum t ts)) = true.
Proof. by apply plain_more. Qed.

Lemma plain_no_function f n : plain_tree n = true -> ~ uses_function f n.
Proof.
  unfold plain_tree. rewrite forallb_forall. intros H (args & s & e & Hin). apply list_elem_of_In, H in Hin. done.
Qed.

(** ** Types *)
Lemma more_type {A} o (tree : A -> node) first l t : (forall a b, has_type a t -> has_type b t -> has_type (Bin o a b 0 0) t) ->
  has_type first t -> (forall x, In x l -> has_type (tree x) t) -> has_type (more_tree o tree first l) t.
Proof.
  intros Ho. revert first. induction l as [|x l IH]; intros first Hf Ht; cbn [more_tree fold_left]; [done|].
  apply IH; [apply Ho; [done|apply Ht; by left]|]. intros y Hy. apply Ht. by right.
Qed.

Lemma condition_type c : is_order (ch_op c) = true -> has_type (condition_tree c) Ty_boolean.
Proof. intros Ho. eapply HT_compare; [destruct c as [v [] x i]; try done; compute_done|constructor|constructor]. Qed.

Lemma guard_type c cs : guards_ok c cs = true -> has_type (guard_tree c cs) Ty_boolean.
Proof.
  unfold guards_ok. rewrite forallb_forall. intros H. apply more_type.
  - intros a b Ha Hb. eapply HT_logic; [by left|done|done|by left|by left].
  - apply condition_type, H. by left.
  - intros x Hx. apply condition_type, H. by right.
Qed.

Lemma arith_type o a b : o ∈ [B_add; B_mul] -> has_type a Ty_number -> has_type b Ty_number -> has_type (Bin o a b 0 0) Ty_number.
Proof. intros Ho Ha Hb. eapply HT_arith; [set_solver|done|done|by left|by left]. Qed.

Lemma body_type b : has_type (body_tree b) Ty_number.
Proof.
  destruct b as [x i|t ts].
  - apply HT_math; [done| |done]. constructor; [|constructor]. exists Ty_number. split; [apply (HT_lit (L_num x i))|by left].
  - assert (forall t, has_type (term_tree t) Ty_number) as Ht
      by (intros; apply arith_type; [by compute_done|constructor|apply (HT_lit (L_num _ _))]).
    apply more_type; [intros; by apply arith_type; [compute_done| |]|apply Ht|intros; apply Ht].
Qed.

Lemma tier_type t : has_type (tier_tree t) Ty_number.
Proof. eapply HT_tier; [apply (HT_lit (L_str _))|apply body_type|by left|by left]. Qed.

Lemma guarded_type l last : guarded_ok l = true -> has_type (guarded_tree l last) Ty_number.
Proof.
  induction l as [|[[c cs] t] l IH]; cbn [guarded_tree guarded_ok forallb fst snd]; [intros _; apply tier_type|].
  intros H. apply andb_true_split in H as [Hg Hl]. eapply HT_cond_same; [by apply guard_type|by left|apply tier_type|by apply IH].
Qed.

(** ** Depth *)
Lemma more_levels {A} o (tree : A -> node) first l k : (forall x, levels (tree x) <= k) -> 0 <= k ->
  levels (more_tree o tree first l) <= Z.max (levels first) k + Z.of_nat (length l).
Proof.
  intros Ht Hk. revert first. induction l as [|x l IH]; intros first; cbn [more_tree fold_left length]; [lia|].
  fold (more_tree o tree (Bin o first (tree x) 0 0) l). specialize (IH (Bin o first (tree x) 0 0)). specialize (Ht x).
  cbn [levels] in IH. lia.
Qed.

(** Limits far beyond what an editor shows. *)
Definition small (l : list (chain_condition * list chain_condition * chain_tier)) (last : chain_tier) : bool :=
  let terms t := match cn_body t with CB_sum _ ts => length ts | CB_fixed _ _ => 0%nat end in
  (length l <=? 100)%nat && forallb (fun '(c, cs, t) => (length cs <=? 100)%nat && (terms t <=? 100)%nat) l && (terms last <=? 100)%nat.

Lemma tier_levels t : (match cn_body t with CB_sum _ ts => length ts | CB_fixed _ _ => 0 end <= 100)%nat -> levels (tier_tree t) <= 103.
Proof.
  destruct t as [label [x i|t0 ts]]; cbn [cn_body]; intros H; [cbn; lia|].
  pose proof (more_levels B_add term_tree (term_tree t0) ts 2 ltac:(intros; cbn; lia) ltac:(lia)) as Hl.
  change (levels (term_tree t0)) with 2 in Hl. unfold tier_tree. cbn [levels map foldr cn_body body_tree str_lit]. lia.
Qed.

Lemma guarded_levels l last : small l last = true -> levels (guarded_tree l last) <= 104 + Z.of_nat (length l) /\ (length l <= 100)%nat.
Proof.
  unfold small. intros H. apply andb_true_split in H as [H Hlast]. apply andb_true_split in H as [Hn H].
  apply Nat.leb_le in Hn, Hlast. split; [|done]. clear Hn. apply tier_levels in Hlast.
  induction l as [|[[c cs] t] l IH]; cbn [guarded_tree length]; [lia|]. cbn [forallb] in H. apply andb_true_split in H as [Hg H].
  apply andb_true_split in Hg as [Hcs Ht]. apply Nat.leb_le in Hcs, Ht. apply tier_levels in Ht. specialize (IH H).
  pose proof (more_levels B_and condition_tree (condition_tree c) cs 2 ltac:(intros; cbn; lia) ltac:(lia)) as Hl.
  change (levels (condition_tree c)) with 2 in Hl. fold (guard_tree c cs) in Hl. cbn [levels]. lia.
Qed.

(** ** No request rules *)
Definition ruleless_part (p : node) : bool := match p with Cond _ (Lit _ _ _) _ _ _ => false | _ => true end.

Lemma plain_ruleless l : forallb plain_part l = true -> forallb ruleless_part l = true.
Proof. rewrite !forallb_forall. intros H x Hx. apply H in Hx. by destruct x. Qed.

Lemma tier_ruleless t : forallb ruleless_part (postorder (tier_tree t)) = true.
Proof.
  rewrite postorder_eq, forallb_app. apply andb_true_iff. split; [|done]. cbn [children tier_tree map mjoin list_join].
  destruct t as [label [x i|t0 ts]]; [done|]. cbn [cn_body cn_label app postorder str_lit].
  change (forallb ruleless_part (postorder (body_tree (CB_sum t0 ts)) ++ []) = true). rewrite app_nil_r. apply plain_ruleless, plain_sum.
Qed.

Lemma guarded_ruleless l last : forallb ruleless_part (postorder (guarded_tree l last)) = true.
Proof.
  induction l as [|[[c cs] t] l IH]; cbn [guarded_tree]; [apply tier_ruleless|].
  rewrite postorder_eq, forallb_app. apply andb_true_iff. split; [|done]. cbn [children map].
  change (mjoin [postorder (guard_tree c cs); postorder (tier_tree t); postorder (guarded_tree l last)])
    with (postorder (guard_tree c cs) ++ postorder (tier_tree t) ++ postorder (guarded_tree l last) ++ []).
  rewrite app_nil_r, !forallb_app, IH, tier_ruleless, plain_ruleless; [done|apply plain_guard].
Qed.

Lemma ruleless_erase p : ruleless_part (erase p) = ruleless_part p.
Proof. by destruct p as [| | | | |c [] no s e]. Qed.

Lemma no_rules source parts : forallb ruleless_part parts = true -> rfold (collect_rule source) parts [] = Ok [].
Proof.
  induction parts as [|p parts IH]; [done|]. cbn [forallb rfold]. intros H. apply andb_true_split in H as [Hp H].
  assert (collect_rule source p [] = Ok []) as ->; [|by apply IH]. by destruct p as [| | | | |c [] no s e].
Qed.

(** ** The shape of fixed prices *)
Definition fixed_ok (t : chain_tier) : bool :=
  match cn_body t with CB_fixed x _ => n_leb n_zero x && is_finite (n_mul x n_million) | CB_sum _ _ => true end.

Lemma no_marker n : fits 0 n -> ~ uses_function F_tier n -> ~ uses_function F_fixed n -> containsPricingMarker n = Ok false.
Proof.
  intros Hf H1 H2. unfold containsPricingMarker. destruct (dependencies_ok n Hf) as (d & -> & _ & Hfn). cbn [rbind].
  rewrite !bool_decide_eq_false_2; [done| |]; by rewrite Hfn.
Qed.

Lemma plain_marker n : fits 0 n -> plain_tree (erase n) = true -> containsPricingMarker n = Ok false.
Proof. intros Hf Hp. apply no_marker; [done| |]; rewrite <- uses_function_erase; by apply plain_no_function. Qed.

Lemma fits_child n c : c ∈ children n -> fits 0 n -> fits 0 c.
Proof. intros Hc Hf. apply fits_children in Hf; [|lia]. rewrite Forall_elem in Hf. apply (fits_mono (0 + 1)); [lia|by apply Hf]. Qed.

Lemma erase_call n f args s e : erase n = Call f args s e -> exists args' s' e', n = Call f args' s' e' /\ map erase args' = args.
Proof. destruct n; try done. intros [= -> <- _ _]. by do 3 eexists. Qed.

Lemma tier_shape n t rules : fits 0 n -> erase n = tier_tree t -> fixed_ok t = true -> validateFixedPricingTree n rules = Ok tt.
Proof.
  intros Hf E Hk. apply erase_call in E as (args & s & e & -> & Ea). destruct args as [|label [|price [|]]]; try done.
  injection Ea as El Ep.
  assert (containsPricingMarker label = Ok false) as Hl by (apply plain_marker; [eapply fits_child; [|exact Hf]; by left|by rewrite El]).
  cbn [validateFixedPricingTree valid_tier_leaf]. rewrite Hl. cbn [rbind]. unfold fixed_ok in Hk.
  destruct t as [lbl [x i|t0 ts]]; cbn [cn_body body_tree] in *.
  - apply erase_call in Ep as (pargs & ps & pe & -> & Ep). destruct pargs as [|[v ? ?| | | | |] [|]]; try done. injection Ep as ->.
    cbn [rbind]. by rewrite Hk.
  - assert (containsPricingMarker price = Ok false) as Hp.
    { apply plain_marker; [eapply fits_child; [|exact Hf]; right; by left|]. rewrite Ep. apply plain_sum. }
    assert (exists l r s e o, price = Bin o l r s e) as (l & r & s' & e' & o & ->); [|cbn [rbind]; by rewrite Hp].
    assert (exists l r o, more_tree B_add term_tree (term_tree t0) ts = Bin o l r 0 0) as (l & r & o & Es).
    { destruct ts as [|t1 ts _] using rev_ind; [by do 3 eexists|]. unfold more_tree. rewrite fold_left_app. by do 3 eexists. }
    rewrite Es in Ep. destruct price; try done. by do 5 eexists.
Qed.

Lemma guarded_shape l last rules : forall n, fits 0 n -> erase n = guarded_tree l last ->
  forallb (fun '(_, t) => fixed_ok t) l && fixed_ok last = true -> validateFixedPricingTree n rules = Ok tt.
Proof.
  induction l as [|[[c cs] t] l IH]; intros n Hf E H; cbn [forallb guarded_tree] in *.
  { by eapply tier_shape. }
  apply andb_true_split in H as [H Hlast]. apply andb_true_split in H as [Ht Hl].
  destruct n as [| | | | |cn y no s e]; try done. injection E as Ec Ey En.
  assert (fits 0 cn) as Hfc by (eapply fits_child; [|exact Hf]; by left).
  assert (fits 0 y) as Hfy by (eapply fits_child; [|exact Hf]; right; by left).
  assert (fits 0 no) as Hfn by (eapply fits_child; [|exact Hf]; right; right; by left).
  cbn [validateFixedPricingTree]. rewrite (plain_marker cn) by (done || (rewrite Ec; apply plain_guard)). cbn [rbind].
  rewrite (tier_shape y t rules Hfy Ey Ht). cbn [rbind]. apply IH; [done|done|]. by rewrite Hl.
Qed.

(** ** Compilation *)
Lemma chain_compiles source m l last : parse source = Ok m -> erase m = guarded_tree l last -> guarded_ok l = true ->
  small l last = true -> forallb (fun '(_, t) => fixed_ok t) l && fixed_ok last = true ->
  exists c, compile source = Ready c /\ ce_ast c = m.
Proof.
  intros Hp E Hg Hs Hk. assert (fits 0 m) as Hf.
  { unfold fits. rewrite <- levels_erase, E. pose proof (guarded_levels _ _ Hs). lia. }
  pose proof (parse_wf _ _ Hp) as Hw. pose proof (wf_keys_nodup _ Hw) as Hnd.
  assert (has_type m Ty_number) as Ht by (apply has_type_erase; rewrite E; by apply guarded_type).
  destruct (check_complete m Ty_number ∅ Hnd Hw Ht) as [types Htypes]. destruct (dependencies_ok m Hf) as (d & Hd & _ & _).
  assert (collect_rules source m = Ok []) as Hr.
  { unfold collect_rules. rewrite visit_spec by done. apply no_rules.
    assert (forallb ruleless_part (map erase (postorder m)) = true) as H by (rewrite <- postorder_erase, E; apply guarded_ruleless).
    rewrite forallb_forall in H |- *. intros p Hin. rewrite <- ruleless_erase. apply H, in_map_iff. by exists p. }
  exists (Compiled source m (dep_variables d) (dep_functions d) []). split; [|done].
  unfold compile, compile_body. rewrite Hp. cbn [rbind]. unfold checkExpressionTypes. rewrite visit_spec by done.
  fold check_step. rewrite Htypes. cbn [rbind]. rewrite Hd. cbn [rbind]. rewrite Hr. cbn [rbind].
  rewrite (guarded_shape l last [] m Hf E Hk). by destruct (bool_decide _).
Qed.
