(* ===== verification/TierEditorFacts.v ===== *)
(** * What the token tier editor writes is what it shows

    The text the editor generates for its tiers lexes to the tokens of a chain,
    which parse to the tree of the chain, in which the readers find the tiers
    again: labels, conditions and prices. *)
From Stdlib Require Import SpecFloat.
From stdpp Require Import strings.
From S2P Require Import Prelude JsString JsNumber JsNumberFacts JsValue Syntax SyntaxFacts Parser ParserFacts Grammar GrammarFacts.
From S2P Require Import NumberText LexText Compile CompileFacts Runtime Semantics Display Structure TierSummary Catalog TierEditor TierText TierCompile.

#[local] Open Scope Z_scope.

(** ** The chain of a configuration *)
Definition chain_condition_of (c : condition_input) : option chain_condition :=
  match literal_of (condition_value_text (ci_value c)) with
  | Some (x, i) => if is_order (ci_op c) then Some (ChainCondition (ci_var c) (ci_op c) x i) else None
  | None => None
  end.

Definition chain_term_of (p : token_variable * num) : option chain_term :=
  (fun '(y, i) => ChainTerm (fst p) y i) <$> literal_of (num_to_string (snd p)).

(** The costs the body of a tier names, in order. *)
Definition named_costs (costs : list (jstr * num)) : list (token_variable * num) :=
  omap (fun cv => let x := cost_of (fst cv) costs in if n_eqb x n_zero then None else Some (snd cv, x)) BILLING_CACHE_VAR_MAP.

Definition all_costs (costs : list (jstr * num)) : list (token_variable * num) :=
  (V_p, cost_of (js "input_unit_cost") costs) :: (V_c, cost_of (js "output_unit_cost") costs) :: named_costs costs.

Definition chain_body_of (tier : editor_tier) : option chain_body :=
  match et_billing_unit tier with
  | Some Unit_request => (fun '(x, i) => CB_fixed x i) <$> literal_of (default [] (et_fixed_price tier))
  | _ =>
      match mapM chain_term_of (all_costs (et_costs tier)) with
      | Some (t :: ts) => Some (CB_sum t ts)
      | _ => None
      end
  end.

Definition chain_tier_of (label : jstr) (tier : editor_tier) : option chain_tier :=
  if unquoted label then ChainTier label <$> chain_body_of tier else None.

(** The conditions that count. *)
Definition given_conditions (tier : editor_tier) : list condition_input := List.filter given_value (default [] (et_conditions tier)).

Fixpoint guarded_of (i : Z) (tiers : list editor_tier) : option chain :=
  match tiers with
  | [] => None
  | tier :: rest =>
      match chain_tier_of (label_or (js "tier_" ++ dec_of_Z i) tier) tier, rest with
      | None, _ => None
      | Some last, [] => Some ([], last)
      | Some t, _ =>
          match mapM chain_condition_of (given_conditions tier), guarded_of (i + 1) rest with
          | Some (c :: cs), Some (l, last) => Some ((c, cs, t) :: l, last)
          | _, _ => None
          end
      end
  end.

Definition chain_of (tiers : list editor_tier) : option chain :=
  match tiers with
  | [tier] =>
      match given_conditions tier with
      | [] => (fun t => ([], t)) <$> chain_tier_of (label_or (js "default") tier) tier
      | _ => None
      end
  | _ => guarded_of 1 tiers
  end.

(** ** Texts and tokens *)
Lemma lexes_joined {A B} (R : A -> B -> Prop) (o : string) (text : A -> jstr) (tokens : B -> list token) xs y ys rest ts :
  written (js o) -> (forall x y rest ts, R x y -> ends rest -> lexes rest ts -> lexes (text x ++ rest) (tokens y ++ ts)) ->
  Forall2 R xs (y :: ys) -> ends rest -> lexes rest ts ->
  lexes (join (32 :: js o ++ [32]) (map text xs) ++ rest) (tokens y ++ more_tokens o tokens ys ++ ts).
Proof.
  intros Ho Ht HR Hr Hts. revert y xs HR. induction ys as [|y' ys IH]; intros y xs HR;
    apply Forall2_cons_inv_r in HR as (x & l & Hx & HR & ->).
  - apply Forall2_nil_inv_r in HR as ->. by apply (Ht x y).
  - pose proof HR as HR'. apply Forall2_cons_inv_r in HR' as (x' & l' & _ & _ & ->).
    set (sep := 32 :: js o ++ [32]). change (join sep (map text (x :: x' :: l'))) with (text x ++ sep ++ join sep (map text (x' :: l'))).
    change (more_tokens o tokens (y' :: ys)) with (sym o :: tokens y' ++ more_tokens o tokens ys).
    rewrite <- !app_assoc. apply Ht; [done|by left|]. unfold sep at 1. cbn [app]. apply lexes_space.
    rewrite <- !app_assoc. apply lexes_operator; [done|]. by apply (IH y').
Qed.

Lemma variable_identifier v : identifier (variable_text v) = true.
Proof. by destruct v. Qed.

Lemma order_written o : is_order o = true -> written (binary_text o).
Proof. unfold written. by destruct o; try done; intros _; compute_done. Qed.

Lemma lexes_condition c k rest ts : chain_condition_of c = Some k -> ends rest -> lexes rest ts ->
  lexes (condition_source c ++ rest) (condition_tokens k ++ ts).
Proof.
  unfold chain_condition_of. intros E Hr Hts. destruct (literal_of _) as [[x i]|] eqn:El; [|done].
  destruct (is_order (ci_op c)) eqn:Ho; [|done]. injection E as <-. unfold condition_source. rewrite <- !app_assoc.
  cbn [condition_tokens ch_var ch_op ch_value ch_int app]. apply lexes_name; [apply variable_identifier|done|].
  change (js " ") with [32]. cbn [app]. apply lexes_space. apply lexes_operator; [by apply order_written|]. by apply lexes_number.
Qed.

Lemma lexes_term p t rest ts : chain_term_of p = Some t -> ends rest -> lexes rest ts ->
  lexes (cost_term (fst p) (snd p) ++ rest) (term_tokens t ++ ts).
Proof.
  intros E Hr Hts. apply fmap_Some in E as ([y i] & El & ->). unfold cost_term. rewrite <- !app_assoc.
  cbn [term_tokens cm_var cm_price cm_int app]. apply lexes_name; [apply variable_identifier|done|].
  change (js " * ") with (32 :: js "*" ++ [32]). cbn [app].
  apply lexes_space. apply (lexes_operator (js "*")); [by compute_done|]. by apply lexes_number.
Qed.

Lemma body_texts costs : join (js " + ") (cost_term V_p (cost_of (js "input_unit_cost") costs)
    :: cost_term V_c (cost_of (js "output_unit_cost") costs) :: extra_terms costs)
  = join (js " + ") (map (fun p => cost_term (fst p) (snd p)) (all_costs costs)).
Proof.
  unfold all_costs, extra_terms, named_costs. cbn [map fst snd]. do 3 f_equal. induction BILLING_CACHE_VAR_MAP as [|[f v] l IH]; [done|].
  cbn [omap list_omap fst snd] in *. destruct (n_eqb _ _); [done|]. cbn. by rewrite IH.
Qed.

Lemma lexes_body tier b rest ts : chain_body_of tier = Some b -> ends rest -> lexes rest ts ->
  lexes (buildTierBodyExpr tier ++ rest) (body_tokens b ++ ts).
Proof.
  unfold chain_body_of, buildTierBodyExpr. intros E Hr Hts.
  assert ((et_billing_unit tier = Some Unit_request /\ exists x i, literal_of (default [] (et_fixed_price tier)) = Some (x, i) /\ b = CB_fixed x i)
    \/ (et_billing_unit tier <> Some Unit_request /\ exists t ts, mapM chain_term_of (all_costs (et_costs tier)) = Some (t :: ts) /\ b = CB_sum t ts))
    as [(-> & x & i & El & ->)|(Hu & t & tl & Em & ->)].
  { destruct (et_billing_unit tier) as [[]|]; [right|left|right].
    2: { apply fmap_Some in E as ([x i] & El & ->). split; [done|]. by exists x, i. }
    all: destruct (mapM _ _) as [[|t tl]|]; try done; injection E as <-; split; [done|]; by exists t, tl. }
  - change (js "fixed(") with (js "fixed" ++ [40]). rewrite <- !app_assoc. apply (lexes_name (js "fixed")); [done|done|].
    apply lexes_punctuation; [by compute_done|]. apply lexes_number; [done|by right|].
    apply lexes_punctuation; [by compute_done|done].
  - assert (lexes (join (js " + ") (map (fun p => cost_term (fst p) (snd p)) (all_costs (et_costs tier))) ++ rest)
      (body_tokens (CB_sum t tl) ++ ts)) as H.
    { cbn [body_tokens]. rewrite <- app_assoc. apply (lexes_joined (fun p t => chain_term_of p = Some t) "+"); [by compute_done| |by apply mapM_Some|done|done].
      intros. by apply lexes_term. }
    rewrite <- body_texts in H. destruct (et_billing_unit tier) as [[]|]; [exact H|done|exact H].
Qed.

Lemma lexes_tier label tier t rest ts : chain_tier_of label tier = Some t -> lexes rest ts ->
  lexes (tier_source label tier ++ rest) (tier_tokens t ++ ts).
Proof.
  unfold chain_tier_of. intros E Hts. destruct (unquoted label) eqn:Hu; [|done]. apply fmap_Some in E as (b & Eb & ->).
  unfold tier_source, tier_tokens. change (js "tier(") with (js "tier" ++ [40]). rewrite <- !app_assoc.
  apply (lexes_name (js "tier")); [done|done|]. apply lexes_punctuation; [by compute_done|]. cbn [cn_label cn_body].
  apply lexes_string; [done|]. apply (lexes_punctuation 44); [by compute_done|]. apply lexes_space.
  apply lexes_body; [done|by right|]. apply lexes_punctuation; [by compute_done|done].
Qed.

Lemma join_two sep x y l : join sep (x :: y :: l) = x ++ sep ++ join sep (y :: l).
Proof. done. Qed.

Lemma tier_parts_cons i tier rest : exists p ps, tier_parts i (tier :: rest) = p :: ps.
Proof. cbn. by do 2 eexists. Qed.

(** A guard that is written. *)
Lemma guard_text tier c cs rest ts : mapM chain_condition_of (given_conditions tier) = Some (c :: cs) -> ends rest -> lexes rest ts ->
  lexes (buildConditionStr (et_conditions tier) ++ rest) (guard_tokens c cs ++ ts) /\ buildConditionStr (et_conditions tier) <> [].
Proof.
  intros E Hr Hts. unfold buildConditionStr, guard_tokens. fold (given_conditions tier). apply mapM_Some in E. split.
  - rewrite <- app_assoc. apply (lexes_joined (fun c k => chain_condition_of c = Some k) "&&"); [by compute_done| |done|done|done].
    intros. by apply lexes_condition.
  - apply Forall2_cons_inv_r in E as (x & l & _ & _ & ->). destruct x as [v o w]. cbn [map]. unfold condition_source.
    destruct l; destruct v; done.
Qed.

Lemma lexes_guarded tiers : forall i l last, guarded_of i tiers = Some (l, last) ->
  lexes (join (js " : ") (tier_parts i tiers)) (guarded_tokens l last).
Proof.
  induction tiers as [|tier rest IH]; intros i l last E; cbn [guarded_of] in E; [done|].
  destruct (chain_tier_of _ tier) as [t|] eqn:Et; [|done]. destruct rest as [|tier' rest].
  - injection E as <- <-. cbn [tier_parts join guarded_tokens].
    rewrite <- (app_nil_r (tier_source _ _)), <- (app_nil_r (tier_tokens _)). apply lexes_tier; [done|apply lexes_nil].
  - destruct (mapM _ _) as [[|c cs]|] eqn:Ec; [done| |done]. destruct (guarded_of (i + 1) _) as [[l' last']|] eqn:El; [|done].
    injection E as <- <-. apply IH in El. cbn [guarded_tokens]. destruct (tier_parts_cons (i + 1) tier' rest) as (p & ps & Ep).
    change (tier_parts i (tier :: tier' :: rest)) with
      ((match buildConditionStr (et_conditions tier) with
        | _ :: _ => buildConditionStr (et_conditions tier) ++ js " ? " ++ tier_source (label_or (js "tier_" ++ dec_of_Z i) tier) tier
        | [] => tier_source (label_or (js "tier_" ++ dec_of_Z i) tier) tier end) :: tier_parts (i + 1) (tier' :: rest)).
    assert (lexes (js " : " ++ join (js " : ") (tier_parts (i + 1) (tier' :: rest))) (sym ":" :: guarded_tokens l' last')) as H1
      by (change (js " : ") with (32 :: js ":" ++ [32]) at 1; cbn [app]; apply lexes_space; by apply (lexes_operator (js ":")); [compute_done|]).
    apply (lexes_tier _ _ _ _ _ Et) in H1.
    assert (lexes (js " ? " ++ tier_source (label_or (js "tier_" ++ dec_of_Z i) tier) tier ++ js " : " ++ join (js " : ") (tier_parts (i + 1) (tier' :: rest)))
      (sym "?" :: tier_tokens t ++ sym ":" :: guarded_tokens l' last')) as H2
      by (change (js " ? ") with (32 :: js "?" ++ [32]); cbn [app]; apply lexes_space; by apply (lexes_operator (js "?")); [compute_done|]).
    destruct (fun Hr => guard_text tier c cs _ _ Ec Hr H2) as [H3 Hne]; [by left|].
    rewrite Ep, join_two, <- Ep. destruct (buildConditionStr (et_conditions tier)) as [|z s]; [done|].
    rewrite <- !app_assoc. exact H3.
Qed.

(** The text the editor generates lexes to the tokens of the chain. *)
Lemma lexes_generated tiers l last : chain_of tiers = Some (l, last) ->
  lexes (generateExprFromVisualConfig (Some tiers)) (guarded_tokens l last).
Proof.
  unfold chain_of, generateExprFromVisualConfig. destruct tiers as [|tier [|tier' rest]]; [done| |apply lexes_guarded].
  destruct (given_conditions tier) eqn:Eg; [|done]. intros E. apply fmap_Some in E as (t & Et & [= -> ->]).
  assert (buildConditionStr (et_conditions tier) = []) as -> by (unfold buildConditionStr; fold (given_conditions tier); by rewrite Eg).
  cbn [guarded_tokens]. rewrite <- (app_nil_r (tier_source _ _)), <- (app_nil_r (tier_tokens _)). apply lexes_tier; [done|apply lexes_nil].
Qed.

(** ** Parsing *)
Lemma lexes_no_version s c n ts : lexes s (T_name (c :: n) :: ts) -> c <> 118 -> body_text s = Some s.
Proof.
  intros H Hc. inversion H as [|? ? r ? E _]; subst. clear H. unfold body_text. assert (match_version s = None) as ->; [|done].
  unfold match_version. rewrite span_drop_while. unfold lex_token in E. destruct (drop_while is_space s) as [|first after]; [done|].
  destruct (scan_number _) as [[d r']|]; [by destruct (is_finite _ && _)|]. destruct ((first =? 34) || (first =? 39)).
  { by destruct (scan_string _ _ _ _). }
  destruct (is_name_start first) eqn:En; [|by destruct (match_operator _)]. cbn [span_while] in E.
  assert (is_word first = true) as Hw by (unfold is_word; by rewrite En). rewrite Hw in E. destruct (span_while is_word after) as [a b].
  injection E as -> _ _. destruct (span_while is_digit after) as [[|d ds] [|colon s3]]; try done.
  by rewrite (proj2 (Z.eqb_neq c 118) Hc).
Qed.

Lemma guarded_head l last : exists c n ts, guarded_tokens l last = T_name (c :: n) :: ts /\ c <> 118.
Proof.
  destruct l as [|[[[v o x i] cs] t] l]; [by do 3 eexists|]. cbn. destruct v; by do 3 eexists.
Qed.

Lemma condition_of_order c k : chain_condition_of c = Some k -> is_order (ch_op k) = true.
Proof.
  unfold chain_condition_of. destruct (literal_of _) as [[x i]|]; [|done]. destruct (is_order (ci_op c)) eqn:E; [|done].
  by intros [= <-].
Qed.

Lemma guarded_of_ok tiers : forall i l last, guarded_of i tiers = Some (l, last) -> guarded_ok l = true.
Proof.
  induction tiers as [|tier rest IH]; intros i l last E; cbn [guarded_of] in E; [done|].
  destruct (chain_tier_of _ tier) as [t|]; [|done]. destruct rest as [|tier' rest]; [by injection E as <- <-|].
  destruct (mapM _ _) as [[|c cs]|] eqn:Ec; [done| |done]. destruct (guarded_of (i + 1) _) as [[l' last']|] eqn:El; [|done].
  injection E as <- <-. cbn [guarded_ok forallb fst snd]. apply IH in El. rewrite andb_true_iff. split; [|exact El].
  apply forallb_forall. intros k Hk. apply mapM_Some in Ec. apply list_elem_of_In, list_elem_of_lookup in Hk as [j Hk].
  destruct (Forall2_lookup_r _ _ _ _ _ Ec Hk) as (x & _ & Hx). by eapply condition_of_order.
Qed.

(** The generated text parses to the tree of the chain, but for spans. *)
Lemma generated_parses tiers l last : chain_of tiers = Some (l, last) ->
  match parse (generateExprFromVisualConfig (Some tiers)) with
  | Ok m => erase m = guarded_tree l last
  | Err e => limit_error e
  end.
Proof.
  intros E. pose proof (lexes_generated _ _ _ E) as Hlex. eapply derivable_parses; [|exact Hlex|].
  - destruct (guarded_head l last) as (c & n & ts & Et & Hc). rewrite Et in Hlex. by eapply lexes_no_version.
  - apply chain_derives. unfold chain_of in E. destruct tiers as [|tier [|tier' rest]]; [done| |by eapply guarded_of_ok].
    destruct (given_conditions tier); [|done]. by apply fmap_Some in E as (t & _ & [= -> ->]).
Qed.

(** ** What the editor shows *)

(** The number a text stands for. *)
Definition text_value (t : jstr) : num := match literal_of t with Some (x, _) => x | None => n_zero end.

Definition shown_condition (c : condition_input) : token_condition :=
  TokenCondition (ci_var c) (ci_op c) (text_value (condition_value_text (ci_value c))).

Definition editor_row (label : jstr) (conditions : list token_condition) (tier : editor_tier) : token_tier :=
  match et_billing_unit tier with
  | Some Unit_request =>
      TokenTier None false (Some Unit_request) (Some (text_value (default [] (et_fixed_price tier)))) label conditions []
  | _ => TokenTier None false None None label conditions (all_costs (et_costs tier))
  end.

Fixpoint editor_rows (i : Z) (tiers : list editor_tier) : list token_tier :=
  match tiers with
  | [] => []
  | tier :: rest =>
      editor_row (label_or (js "tier_" ++ dec_of_Z i) tier)
        (match rest with [] => [] | _ => map shown_condition (given_conditions tier) end) tier :: editor_rows (i + 1) rest
  end.

Definition shown_tiers (tiers : list editor_tier) : list token_tier :=
  match tiers with
  | [tier] => [editor_row (label_or (js "default") tier) [] tier]
  | _ => editor_rows 1 tiers
  end.

(** A configuration that can be written: labels need no escape; costs are
    amounts and fixed prices numerals; every tier but the last has conditions,
    whose values are numerals; the last has none that matter; and there are at
    most a hundred tiers and conditions. *)
Definition writable_condition (c : condition_input) : bool :=
  is_order (ci_op c) && is_tier_variable (ci_var c) && match literal_of (condition_value_text (ci_value c)) with Some _ => true | None => false end.

Definition writable_tier (label : jstr) (tier : editor_tier) : bool :=
  unquoted label &&
  match et_billing_unit tier with
  | Some Unit_request =>
      match literal_of (default [] (et_fixed_price tier)) with Some (x, _) => is_finite (n_mul x n_million) | None => false end
  | _ => forallb (fun p => amount (snd p)) (all_costs (et_costs tier))
  end.

Definition writable_guard (tier : editor_tier) : bool :=
  match given_conditions tier with
  | [] => false
  | conditions => forallb writable_condition conditions && (length conditions <=? 100)%nat
  end.

Fixpoint writable_tiers (i : Z) (tiers : list editor_tier) : bool :=
  match tiers with
  | [] => true
  | tier :: rest =>
      writable_tier (label_or (js "tier_" ++ dec_of_Z i) tier) tier
      && (match rest with [] => true | _ => writable_guard tier end) && writable_tiers (i + 1) rest
  end.

Definition writable (tiers : list editor_tier) : bool :=
  match tiers with
  | [] => false
  | [tier] => writable_tier (label_or (js "default") tier) tier && match given_conditions tier with [] => true | _ => false end
  | _ => writable_tiers 1 tiers && (length tiers <=? 100)%nat
  end.

(** ** Costs *)
Definition cost_variables : list token_variable := V_p :: V_c :: map snd BILLING_CACHE_VAR_MAP.

Lemma all_costs_variables costs : (all_costs costs).*1 `sublist_of` cost_variables.
Proof.
  unfold all_costs, cost_variables, named_costs. cbn [fmap list_fmap fst]. do 2 apply sublist_skip.
  induction BILLING_CACHE_VAR_MAP as [|[f v] l IH]; [done|]. cbn [omap list_omap map fst snd].
  destruct (n_eqb _ _); cbn; [by apply sublist_cons|by apply sublist_skip].
Qed.

Lemma nonnegative x : is_finite x = true -> sign_bit x = false -> n_leb n_zero x = true /\ n_ltb x n_zero = false.
Proof. by destruct x as [[]| | |[]]. Qed.

Lemma literal_nonnegative t x i : literal_of t = Some (x, i) -> n_leb n_zero x = true /\ n_ltb x n_zero = false.
Proof.
  unfold literal_of. destruct (scan_number t) as [[d [|]]|]; try done. destruct (is_finite (dl_value d)) eqn:Ef; [|done].
  cbn [andb]. destruct (_ || _); [|done]. intros [= <- _]. apply nonnegative; [done|]. apply dl_value_valid.
Qed.

Lemma terms_of costs : forallb (fun p => amount (snd p)) costs = true ->
  exists ts, mapM chain_term_of costs = Some ts /\ map (fun m => (cm_var m, cm_price m)) ts = costs.
Proof.
  induction costs as [|[v x] costs IH]; cbn [forallb snd]; [by exists []|]. intros H. apply andb_true_split in H as [Hx H].
  destruct (IH H) as (ts & Et & Em). destruct (amount_literal x Hx) as [i Ei].
  exists (ChainTerm v x i :: ts). split; [|cbn; by rewrite Em].
  change (mapM chain_term_of ((v, x) :: costs)) with (chain_term_of (v, x) ≫= fun t => mapM chain_term_of costs ≫= fun ts => Some (t :: ts)).
  assert (chain_term_of (v, x) = Some (ChainTerm v x i)) as -> by (unfold chain_term_of; cbn [fst snd]; by rewrite Ei).
  by rewrite Et.
Qed.

Lemma amount_term v x i : amount x = true -> v ∈ cost_variables -> term_ok (ChainTerm v x i) = true.
Proof.
  intros Hx Hv. unfold term_ok. cbn [cm_var cm_price]. apply andb_true_iff. split.
  - unfold amount in Hx. bsplit. by apply nonnegative.
  - revert v Hv. apply Forall_elem. by repeat constructor.
Qed.

(** The tier of a writable tier. *)
Record tier_of (label : jstr) (tier : editor_tier) (t : chain_tier) : Prop := {
  to_chain : chain_tier_of label tier = Some t;
  to_ok : tier_ok t = true;
  to_fixed : fixed_ok t = true;
  to_small : (match cn_body t with CB_sum _ ts => length ts | CB_fixed _ _ => 0 end <= 100)%nat;
  to_row : forall conditions, tier_row conditions t = editor_row label conditions tier;
}.

Lemma sum_tier label costs : forallb (fun p => amount (snd p)) (all_costs costs) = true ->
  exists t ts, mapM chain_term_of (all_costs costs) = Some (t :: ts) /\ tier_ok (ChainTier label (CB_sum t ts)) = true /\
    (length ts <= 100)%nat /\ map (fun m => (cm_var m, cm_price m)) (t :: ts) = all_costs costs.
Proof.
  intros H. destruct (terms_of _ H) as (l & El & Em). pose proof (all_costs_variables costs) as Hsub.
  destruct l as [|t ts]; [done|]. exists t, ts. assert (map cm_var (t :: ts) = (all_costs costs).*1) as Hv.
  { rewrite <- Em. change (map cm_var (t :: ts) = map fst (map (fun m => (cm_var m, cm_price m)) (t :: ts))). by rewrite map_map. }
  split_and!; [done| | |done].
  - unfold tier_ok. cbn [cn_body]. apply andb_true_iff. split.
    + apply forallb_forall. intros [v x i] Hin. apply amount_term.
      * rewrite forallb_forall in H. apply (H (v, x)). rewrite <- Em. apply in_map_iff. by exists (ChainTerm v x i).
      * eapply elem_of_sublist; [|exact Hsub]. rewrite <- Hv. apply list_elem_of_In, in_map_iff. by exists (ChainTerm v x i).
    + apply bool_decide_eq_true. rewrite Hv. eapply sublist_NoDup; [|exact Hsub]. by compute_done.
  - apply sublist_length in Hsub. rewrite <- Hv in Hsub. cbn in Hsub. rewrite length_map in Hsub. lia.
Qed.

Lemma writable_tier_of label tier : writable_tier label tier = true -> exists t, tier_of label tier t.
Proof.
  unfold writable_tier. intros H. apply andb_true_split in H as [Hu H].
  assert ((et_billing_unit tier = Some Unit_request /\ exists x i, literal_of (default [] (et_fixed_price tier)) = Some (x, i) /\
      is_finite (n_mul x n_million) = true) \/
    (et_billing_unit tier <> Some Unit_request /\ forallb (fun p => amount (snd p)) (all_costs (et_costs tier)) = true))
    as [(Eu & x & i & El & Hx)|[Eu Ha]].
  { destruct (et_billing_unit tier) as [[]|]; [by right|left|by right]. split; [done|].
    destruct (literal_of _) as [[x i]|]; [by exists x, i|done]. }
  - exists (ChainTier label (CB_fixed x i)). split.
    + unfold chain_tier_of, chain_body_of. by rewrite Hu, Eu, El.
    + done.
    + unfold fixed_ok. cbn [cn_body]. by rewrite (proj1 (literal_nonnegative _ _ _ El)), Hx.
    + cbn. lia.
    + intros conditions. unfold editor_row, tier_row, text_value. by rewrite Eu, El.
  - destruct (sum_tier label _ Ha) as (t & ts & Et & Hok & Hs & Em). exists (ChainTier label (CB_sum t ts)). split; [|done|done|done|].
    + unfold chain_tier_of, chain_body_of. rewrite Hu, Et. by destruct (et_billing_unit tier) as [[]|].
    + intros conditions. unfold editor_row, tier_row. cbn [cn_body cn_label]. rewrite Em. by destruct (et_billing_unit tier) as [[]|].
Qed.

Lemma writable_conditions conditions : forallb writable_condition conditions = true ->
  exists ks, mapM chain_condition_of conditions = Some ks /\ forallb condition_ok ks = true /\
    map condition_row ks = map shown_condition conditions.
Proof.
  induction conditions as [|c conditions IH]; cbn [forallb]; [by exists []|]. intros H. apply andb_true_split in H as [Hc H].
  destruct (IH H) as (ks & Ek & Hk & Er). unfold writable_condition in Hc. apply andb_true_split in Hc as [Hc Hl].
  apply andb_true_split in Hc as [Ho Hv]. destruct (literal_of _) as [[x i]|] eqn:El; [|done].
  exists (ChainCondition (ci_var c) (ci_op c) x i :: ks). split_and!.
  - change (mapM chain_condition_of (c :: conditions)) with
      (chain_condition_of c ≫= fun k => mapM chain_condition_of conditions ≫= fun ks => Some (k :: ks)).
    assert (chain_condition_of c = Some (ChainCondition (ci_var c) (ci_op c) x i)) as -> by (unfold chain_condition_of; by rewrite El, Ho).
    by rewrite Ek.
  - cbn [forallb]. rewrite Hk, andb_true_r. unfold condition_ok. cbn. by rewrite Ho, Hv, (proj2 (literal_nonnegative _ _ _ El)).
  - cbn [map]. rewrite Er. unfold shown_condition, text_value. by rewrite El.
Qed.

(** The chain of a writable configuration. *)
Record chain_for (rows : list token_tier) (l : list (chain_condition * list chain_condition * chain_tier)) (last : chain_tier) : Prop := {
  cf_chain : chain_ok l last = true;
  cf_guards : guarded_ok l = true;
  cf_fixed : forallb (fun '(_, t) => fixed_ok t) l && fixed_ok last = true;
  cf_rows : chain_rows l last = rows;
  cf_terms : (match cn_body last with CB_sum _ ts => length ts | CB_fixed _ _ => 0 end <= 100)%nat;
  cf_parts : forallb (fun '(c, cs, t) => (length (cs : list chain_condition) <=? 100)%nat &&
    (match cn_body t with CB_sum _ ts => length ts | CB_fixed _ _ => 0 end <=? 100)%nat) l = true;
}.

Lemma last_chain label tier t : tier_of label tier t -> chain_for [editor_row label [] tier] [] t.
Proof. intros [H1 H2 H3 H4 H5]. split; try done. unfold chain_rows. cbn. by rewrite H5. Qed.

Lemma condition_ok_order ks : forallb condition_ok ks = true -> forallb (fun c => is_order (ch_op c)) ks = true.
Proof. rewrite !forallb_forall. intros H c Hc. apply H in Hc. unfold condition_ok in Hc. by bsplit. Qed.

Lemma writable_guarded tiers : tiers <> [] -> forall i, writable_tiers i tiers = true ->
  exists l last, guarded_of i tiers = Some (l, last) /\ chain_for (editor_rows i tiers) l last /\ length tiers = S (length l).
Proof.
  induction tiers as [|tier rest IH]; [done|]. intros _ i. cbn [writable_tiers guarded_of editor_rows]. intros H.
  apply andb_true_split in H as [H Hrest]. apply andb_true_split in H as [Ht Hg].
  destruct (writable_tier_of _ _ Ht) as [t Hto]. rewrite (to_chain _ _ _ Hto). destruct rest as [|tier' rest].
  { exists [], t. split_and!; [done|by apply last_chain|done]. }
  destruct (IH ltac:(done) _ Hrest) as (l & last & -> & Hcf & Hlen). unfold writable_guard in Hg.
  destruct (given_conditions tier) as [|g gs] eqn:Eg; [done|]. apply andb_true_split in Hg as [Hg Hn]. apply Nat.leb_le in Hn.
  destruct (writable_conditions _ Hg) as (ks & -> & Hk & Hrow). destruct ks as [|c cs]; [done|].
  exists ((c, cs, t) :: l), last. destruct Hcf as [C1 C2 C3 C4 C5 C6]. destruct Hto as [T1 T2 T3 T4 T5].
  unfold chain_ok in C1. apply andb_true_split in C1 as [C1 C1']. apply andb_true_split in C3 as [C3 C3'].
  split_and!; [done| |cbn [length]; cbn [length] in Hlen; lia]. split.
  - unfold chain_ok. rewrite C1', andb_true_r.
    change (forallb condition_ok (c :: cs) && tier_ok t && forallb (fun '(c, cs, t) => forallb condition_ok (c :: cs) && tier_ok t) l = true).
    by rewrite Hk, T2, C1.
  - cbn [guarded_ok forallb fst snd]. apply andb_true_iff. split; [by apply condition_ok_order|done].
  - cbn [forallb]. by rewrite T3, C3, C3'.
  - change (tier_row (map condition_row (c :: cs)) t :: chain_rows l last
      = editor_row (label_or (js "tier_" ++ dec_of_Z i) tier) (map shown_condition (g :: gs)) tier :: editor_rows (i + 1) (tier' :: rest)).
    by rewrite C4, T5, Hrow.
  - done.
  - cbn [forallb]. rewrite C6, andb_true_r. apply andb_true_iff. split; apply Nat.leb_le; [|done].
    apply (f_equal length) in Hrow. cbn [map length] in Hrow, Hn. rewrite !length_map in Hrow. lia.
Qed.

Lemma writable_chain tiers : writable tiers = true ->
  exists l last, chain_of tiers = Some (l, last) /\ chain_for (shown_tiers tiers) l last /\ (length l <= 100)%nat.
Proof.
  unfold writable, chain_of, shown_tiers. destruct tiers as [|tier [|tier' rest]]; [done| |].
  - intros H. apply andb_true_split in H as [H Hg]. destruct (writable_tier_of _ _ H) as [t Ht].
    destruct (given_conditions tier); [|done]. exists [], t. rewrite (to_chain _ _ _ Ht). split_and!; [done|by apply last_chain|cbn; lia].
  - intros H. apply andb_true_split in H as [H Hn]. apply Nat.leb_le in Hn.
    destruct (writable_guarded (tier :: tier' :: rest) ltac:(done) 1 H) as (l & last & E & Hcf & Hlen). exists l, last.
    split_and!; [done|done|lia].
Qed.

(** C28: what the token tier editor writes is what it shows.  Let a configuration
    have one to a hundred tiers, labels that need no escape, costs that are amounts
    and fixed prices that are numerals, conditions on every tier but the last, each
    an order between a tier variable and a numeral, and no condition on a lone tier.
    Then the expression it generates compiles, and the tiers read from it are the
    editor's, in order: labels, conditions, fixed prices and unit costs.  The only
    other outcome is that the text exceeds a limit of the parser.  Configurations
    outside this can give texts that do not compile ([unwritable_texts]). *)
Theorem editor_text_faithful tiers : writable tiers = true ->
  match compile (generateExprFromVisualConfig (Some tiers)) with
  | Ready c => readTokenTierChain (ce_ast c) = Some (shown_tiers tiers)
  | Failed f => d_code (f_diagnostic f) = C_limit
  end.
Proof.
  intros Hw. destruct (writable_chain _ Hw) as (l & last & E & [C1 C2 C3 C4 C5 C6] & Hn).
  pose proof (generated_parses _ _ _ E) as Hp. set (source := generateExprFromVisualConfig (Some tiers)) in *.
  destruct (parse source) as [m|e] eqn:Em.
  - assert (small l last = true) as Hs by (unfold small; rewrite (proj2 (Nat.leb_le _ _) Hn), C6, (proj2 (Nat.leb_le _ _) C5); done).
    destruct (chain_compiles _ _ _ _ Em Hp C2 Hs C3) as (c & -> & ->).
    by rewrite <- read_chain_erase, Hp, chain_read, C4.
  - unfold compile, compile_body. rewrite Em. cbn [rbind]. by destruct Hp as (detail & pos & ->).
Qed.

Definition sample_tiers : list editor_tier :=
  [EditorTier None None (Some (js "short")) (Some [ConditionInput V_len B_le (CV_str (js "128000"))]) None
     [(js "input_unit_cost", decimal_to_num 25 (-1)); (js "output_unit_cost", n_of_Z 10); (js "cache_read_unit_cost", decimal_to_num 3 (-1))];
   EditorTier (Some Unit_request) (Some (js "0.5")) None (Some []) None []].

Lemma editor_text_faithful_witness :
  writable sample_tiers = true /\
  match compile (generateExprFromVisualConfig (Some sample_tiers)) with
  | Ready c => readTokenTierChain (ce_ast c) = Some (shown_tiers sample_tiers)
  | Failed f => d_code (f_diagnostic f) = C_limit
  end.
Proof.
  split; [vm_compute; reflexivity|]. apply (editor_text_faithful sample_tiers). vm_compute. reflexivity.
Defined.

(** Configurations outside [writable] whose text does not compile: a label with
    a quote, a tier without conditions before the last, and a lone tier with a
    fixed price and a condition. *)
Definition plain_tier (label : jstr) : editor_tier := EditorTier None None (Some label) (Some []) None [].

Lemma unwritable_texts :
  forallb (fun tiers => match compile (generateExprFromVisualConfig (Some tiers)) with Failed _ => true | Ready _ => false end)
    [[plain_tier (js "a" ++ [34] ++ js "b")]; [plain_tier (js "a"); plain_tier (js "b")];
     [EditorTier (Some Unit_request) (Some (js "1")) (Some (js "a")) (Some [ConditionInput V_p B_lt (CV_num n_one)]) None []]] = true.
Proof. vm_compute. reflexivity. Qed.
