(* ===== verification/TaskText.v ===== *)
(** * The tokens and the trees of task price chains

    The chains that the task price editor writes, as data: guards that compare
    usage facts with strings, and prices that are sums of a constant and of facts
    times prices.  The grammar derives their trees from their tokens, the trees
    compile, and [readTaskTierChain] finds the tiers in them. *)
From Stdlib Require Import SpecFloat.
From stdpp Require Import strings.
From S2P Require Import Prelude JsString JsNumber JsNumberFacts JsValue Syntax SyntaxFacts Parser ParserFacts Grammar GrammarFacts.
From S2P Require Import Compile CompileFacts EraseFacts Runtime Display TaskTiers TierSummary TaskConfig TaskConfigFacts TierText TierCompile.

#[local] Open Scope Z_scope.

(** ** Chains as data *)
Inductive price_part :=
| PP_constant (x : num) (i : bool)
| PP_unit (field : jstr) (x : num) (i : bool) (scaled : bool).

Record task_sum := TaskSum { su_label : jstr; su_first : price_part; su_rest : list price_part }.

Definition su_parts (t : task_sum) : list price_part := su_first t :: su_rest t.

(** Guarded tiers, each with at least one condition. *)
Notation guarded_sums := (list (task_condition * list task_condition * task_sum)).

(** ** Tokens *)
Definition usage_tokens (field : jstr) : list token := [T_name (js "u"); sym "("; T_str field; sym ")"].

Definition probe_tokens (c : task_condition) : list token :=
  usage_tokens (tk_field c) ++ [sym "=="; T_str (tk_value c)].

Definition part_head (p : price_part) : list token :=
  match p with PP_constant x i => [T_num x i] | PP_unit field _ _ _ => usage_tokens field end.
Definition part_tail (p : price_part) : list token :=
  match p with
  | PP_constant _ _ => []
  | PP_unit _ x i scaled => [sym "*"; T_num x i] ++ (if scaled then [sym "/"; T_num n_million true] else [])
  end.
Definition part_tokens (p : price_part) : list token := part_head p ++ part_tail p.

Definition sum_tokens (t : task_sum) : list token :=
  [T_name (js "tier"); sym "("; T_str (su_label t); sym ","]
  ++ (part_tokens (su_first t) ++ more_tokens "+" part_tokens (su_rest t)) ++ [sym ")"].

Definition probes_tokens (c : task_condition) (cs : list task_condition) : list token :=
  probe_tokens c ++ more_tokens "&&" probe_tokens cs.

Fixpoint task_tokens (l : guarded_sums) (last : task_sum) : list token :=
  match l with
  | [] => sum_tokens last
  | (c, cs, t) :: l => probes_tokens c cs ++ [sym "?"] ++ sum_tokens t ++ [sym ":"] ++ task_tokens l last
  end.

(** ** Trees *)
Definition usage_tree (field : jstr) : node := Call F_u [str_lit field] 0 0.
Definition probe_tree (c : task_condition) : node :=
  Bin B_eq (usage_tree (tk_field c)) (str_lit (tk_value c)) 0 0.
Definition head_tree (p : price_part) : node :=
  match p with PP_constant x i => num_lit x i | PP_unit field _ _ _ => usage_tree field end.
Definition part_tree (p : price_part) : node :=
  match p with
  | PP_constant x i => num_lit x i
  | PP_unit field x i scaled =>
      let product := Bin B_mul (usage_tree field) (num_lit x i) 0 0 in
      if scaled then Bin B_div product (num_lit n_million true) 0 0 else product
  end.
Definition parts_tree (t : task_sum) : node := more_tree B_add part_tree (part_tree (su_first t)) (su_rest t).
Definition sum_tree (t : task_sum) : node := Call F_tier [str_lit (su_label t); parts_tree t] 0 0.
Definition probes_tree (c : task_condition) (cs : list task_condition) : node :=
  more_tree B_and probe_tree (probe_tree c) cs.

Fixpoint task_tree (l : guarded_sums) (last : task_sum) : node :=
  match l with
  | [] => sum_tree last
  | (c, cs, t) :: l => Cond (probes_tree c cs) (sum_tree t) (task_tree l last) 0 0
  end.

(** ** Derivations *)
Lemma string_argument s r : g_arguments (T_str s :: sym ")" :: r) [str_lit s] (sym ")" :: r).
Proof.
  apply G_last; [by intros [? ?]| |by intros [? ?]].
  eapply G_plain; [apply G_str|by apply G_stop|by intros _ [? ?]].
Qed.

Lemma usage_derives field r : g_primary (usage_tokens field ++ r) (usage_tree field) r.
Proof. apply (call_derives F_u [str_lit field] [T_str field]); [apply string_argument|done]. Qed.

Lemma head_derives p r : g_primary (part_head p ++ r) (head_tree p) r.
Proof. destruct p; [apply G_num|apply usage_derives]. Qed.

(** The factors after the first symbol of a part. *)
Lemma tail_derives m p r n e : m <= 6 ->
  g_operators m (part_tree p) r n e -> g_operators m (head_tree p) (part_tail p ++ r) n e.
Proof.
  intros Hm H. destruct p as [x i|field x i scaled]; [done|]. cbn [part_tail head_tree part_tree] in *.
  assert (level B_mul = 6 /\ level B_div = 6) as [Hmul Hdiv] by done.
  destruct scaled; cbn [app] in *.
  - apply (G_operator m _ B_mul _ (num_lit x i) (sym "/" :: T_num n_million true :: r)); [lia|apply number_derives; [lia|apply always_stops]|].
    apply (G_operator m _ B_div _ (num_lit n_million true) r); [lia|apply number_derives; [lia|apply always_stops]|done].
  - apply (G_operator m _ B_mul _ (num_lit x i) r); [lia|apply number_derives; [lia|apply always_stops]|done].
Qed.

Lemma part_derives p r : stops_at 6 r -> g_expression 6 (part_tokens p ++ r) (part_tree p) r.
Proof.
  intros Hs. unfold part_tokens. rewrite <- app_assoc. eapply G_plain; [apply head_derives| |done].
  apply tail_derives; [done|]. by apply G_stop.
Qed.

Lemma parts_derive t r : calm r ->
  g_expression 0 ((part_tokens (su_first t) ++ more_tokens "+" part_tokens (su_rest t)) ++ r) (parts_tree t) r.
Proof.
  intros Hr. unfold part_tokens at 1. rewrite <- !app_assoc. eapply G_plain; [apply head_derives| |].
  - apply tail_derives; [done|].
    apply (more_derives B_add part_tokens); [intros; by apply part_derives|by apply calm_stops|by apply calm_stops].
  - intros _. apply calm_starts; [done|by compute_done].
Qed.

Lemma task_sum_derives t r : calm r -> g_expression 0 (sum_tokens t ++ r) (sum_tree t) r.
Proof.
  intros Hr. unfold sum_tokens. set (body := part_tokens (su_first t) ++ more_tokens "+" part_tokens (su_rest t)).
  rewrite <- !app_assoc. cbn [app].
  apply (call_expression F_tier [str_lit (su_label t); parts_tree t] ([T_str (su_label t); sym ","] ++ body)); [done| |done].
  rewrite <- app_assoc. cbn [app]. eapply G_more; [by intros [? ?]| |].
  - eapply G_plain; [apply G_str|by apply G_stop|by intros _ [? ?]].
  - apply G_last; [|apply parts_derive; by left|by intros [? ?]].
    unfold body, part_tokens at 1. destruct (su_first t); by intros [? ?].
Qed.

Lemma string_derives m s r : m <> 0 -> stops_at m r -> g_expression m (T_str s :: r) (str_lit s) r.
Proof. intros Hm Hs. eapply G_plain; [apply G_str|by apply G_stop|done]. Qed.

Lemma probe_operators m c r n e : m <= level B_eq -> stops_at (level B_eq + 1) r ->
  g_operators m (probe_tree c) r n e ->
  g_operators m (usage_tree (tk_field c)) ([sym "=="; T_str (tk_value c)] ++ r) n e.
Proof.
  intros Hm Hs H. apply (G_operator m _ B_eq _ (str_lit (tk_value c)) r); [done| |done].
  apply string_derives; [by destruct B_eq|done].
Qed.

Lemma probe_stops r : stops_at 3 r -> stops_at (level B_eq + 1) r.
Proof. destruct r as [|[| |s|] r]; cbn [stops_at]; try done. destruct (binary_of_text s) as [o|]; [|done]. cbn. lia. Qed.

Lemma probe_derives c r : stops_at 3 r -> g_expression 3 (probe_tokens c ++ r) (probe_tree c) r.
Proof.
  intros Hs. unfold probe_tokens. rewrite <- app_assoc. eapply G_plain; [apply usage_derives| |done].
  apply probe_operators; [done|by apply probe_stops|by apply G_stop].
Qed.

(** The tokens of a chain derive its tree. *)
Lemma task_derives l last : g_expression 0 (task_tokens l last) (task_tree l last) [].
Proof.
  induction l as [|[[c cs] t] l IH]; cbn [task_tokens task_tree].
  { rewrite <- (app_nil_r (sum_tokens last)). by apply task_sum_derives. }
  unfold probes_tokens, probe_tokens at 1. rewrite <- !app_assoc. cbn [app].
  eapply G_conditional; [apply usage_derives| |apply task_sum_derives; by right; left|exact IH].
  apply probe_operators; [done|by destruct cs|].
  apply (more_derives B_and probe_tokens probe_tree); [|done|done]. intros. by apply probe_derives.
Qed.

(** ** Compilation *)

(** No request rule and no fixed price. *)
Definition tame_part (p : node) : bool :=
  ruleless_part p && match p with Call F_fixed _ _ _ => false | _ => true end.
Definition tame (n : node) : bool := forallb tame_part (postorder n).

Lemma tame_more {A} o (tree : A -> node) first l : tame first = true -> (forall x, tame (tree x) = true) ->
  tame (more_tree o tree first l) = true.
Proof.
  intros Hf Ht. revert first Hf. induction l as [|x l IH]; intros first Hf; cbn [more_tree fold_left]; [done|]. apply IH.
  unfold tame in *. cbn [postorder app]. by rewrite !forallb_app, Hf, Ht.
Qed.

Lemma part_tame p : tame (part_tree p) = true.
Proof. by destruct p as [|field x i []]. Qed.

Lemma sum_tame t : tame (sum_tree t) = true.
Proof.
  assert (tame (parts_tree t) = true) as H by (apply tame_more; [|intros]; apply part_tame).
  unfold tame in *. rewrite postorder_eq, forallb_app. cbn [sum_tree children map mjoin list_join].
  cbn [str_lit postorder app]. rewrite app_nil_r. cbn [forallb]. by rewrite H.
Qed.

Lemma task_tame l last : tame (task_tree l last) = true.
Proof.
  induction l as [|[[c cs] t] l IH]; cbn [task_tree]; [apply sum_tame|].
  assert (tame (probes_tree c cs) = true) as Hg by (by apply tame_more).
  pose proof (sum_tame t) as Ht. unfold tame in *. rewrite postorder_eq, forallb_app. apply andb_true_iff. split; [|done].
  cbn [children map].
  change (mjoin [postorder (probes_tree c cs); postorder (sum_tree t); postorder (task_tree l last)])
    with (postorder (probes_tree c cs) ++ postorder (sum_tree t) ++ postorder (task_tree l last) ++ []).
  by rewrite app_nil_r, !forallb_app, Hg, Ht, IH.
Qed.

Lemma tame_no_fixed n : tame n = true -> ~ uses_function F_fixed n.
Proof.
  unfold tame. rewrite forallb_forall. intros H (args & s & e & Hin). apply list_elem_of_In, H in Hin. done.
Qed.

Lemma tame_ruleless n : tame n = true -> forallb ruleless_part (postorder n) = true.
Proof. unfold tame. rewrite !forallb_forall. intros H p Hp. apply H in Hp. unfold tame_part in Hp. by bsplit. Qed.

(** Types *)
Lemma usage_type field : has_type (usage_tree field) Ty_dynamic.
Proof. eapply HT_probe; [by right|apply (HT_lit (L_str field))|by left]. Qed.

Lemma part_type p : has_type (part_tree p) Ty_number.
Proof.
  destruct p as [x i|field x i scaled]; [apply (HT_lit (L_num x i))|].
  assert (has_type (Bin B_mul (usage_tree field) (num_lit x i) 0 0) Ty_number) as H.
  { eapply HT_arith; [by compute_done|apply usage_type|apply (HT_lit (L_num x i))|by right|by left]. }
  cbn [part_tree]. destruct scaled; [|done].
  eapply HT_arith; [by compute_done|exact H|apply (HT_lit (L_num n_million true))|by left|by left].
Qed.

Lemma sum_type t : has_type (sum_tree t) Ty_number.
Proof.
  eapply HT_tier; [apply (HT_lit (L_str _))| |by left|by left].
  apply more_type; [|apply part_type|intros; apply part_type].
  intros a b Ha Hb. by apply arith_type; [compute_done| |].
Qed.

Lemma probe_type c : has_type (probe_tree c) Ty_boolean.
Proof. eapply HT_compare; [by compute_done|apply usage_type|apply (HT_lit (L_str _))]. Qed.

Lemma task_type l last : has_type (task_tree l last) Ty_number.
Proof.
  induction l as [|[[c cs] t] l IH]; cbn [task_tree]; [apply sum_type|].
  eapply HT_cond_same; [|by left|apply sum_type|done].
  apply more_type; [|apply probe_type|intros; apply probe_type].
  intros a b Ha Hb. eapply HT_logic; [by left|done|done|by left|by left].
Qed.

(** Depth *)
Definition small_sums (l : guarded_sums) (last : task_sum) : Prop :=
  (length l <= 50)%nat /\ (length (su_rest last) <= 50)%nat
  /\ Forall (fun '(c, cs, t) => (length (cs : list task_condition) <= 50)%nat /\ (length (su_rest t) <= 50)%nat) l.

Lemma sum_levels t : (length (su_rest t) <= 50)%nat -> levels (sum_tree t) <= 55.
Proof.
  intros H. assert (forall p, 1 <= levels (part_tree p) <= 4) as Hp by (by intros [|? ? ? []]; cbn; lia).
  pose proof (more_levels B_add part_tree (part_tree (su_first t)) (su_rest t) 4 ltac:(intros; apply Hp) ltac:(lia)) as Hl.
  pose proof (Hp (su_first t)). fold (parts_tree t) in Hl. unfold sum_tree. cbn [levels map foldr str_lit]. lia.
Qed.

Lemma task_levels l last : small_sums l last -> levels (task_tree l last) <= 106.
Proof.
  intros (Hn & Hlast & Hl). apply sum_levels in Hlast.
  assert (levels (task_tree l last) <= 56 + Z.of_nat (length l)) as H; [|lia]. clear Hn.
  induction Hl as [|[[c cs] t] l [Hc Ht] _ IH]; cbn [task_tree length]; [lia|]. apply sum_levels in Ht.
  pose proof (more_levels B_and probe_tree (probe_tree c) cs 3 ltac:(intros; cbn; lia) ltac:(lia)) as Hg.
  change (levels (probe_tree c)) with 3 in Hg. fold (probes_tree c cs) in Hg. cbn [levels]. lia.
Qed.

Lemma task_compiles source m l last : parse source = Ok m -> erase m = task_tree l last -> small_sums l last ->
  exists c, compile source = Ready c /\ ce_ast c = m.
Proof.
  intros Hp E Hs. assert (fits 0 m) as Hf.
  { unfold fits. rewrite <- levels_erase, E. pose proof (task_levels _ _ Hs). lia. }
  pose proof (parse_wf _ _ Hp) as Hw. pose proof (wf_keys_nodup _ Hw) as Hnd.
  assert (has_type m Ty_number) as Ht by (apply has_type_erase; rewrite E; apply task_type).
  destruct (check_complete m Ty_number ∅ Hnd Hw Ht) as [types Htypes]. destruct (dependencies_ok m Hf) as (d & Hd & _ & Hfn).
  pose proof (task_tame l last) as Hta. rewrite <- E in Hta.
  assert (collect_rules source m = Ok []) as Hr.
  { unfold collect_rules. rewrite visit_spec by done. apply no_rules. pose proof (tame_ruleless _ Hta) as H.
    rewrite postorder_erase, forallb_forall in H. apply forallb_forall. intros p Hin.
    rewrite <- ruleless_erase. apply H, in_map_iff. by exists p. }
  exists (Compiled source m (dep_variables d) (dep_functions d) []). split; [|done].
  unfold compile, compile_body. rewrite Hp. cbn [rbind]. unfold checkExpressionTypes. rewrite visit_spec by done.
  fold check_step. rewrite Htypes. cbn [rbind]. rewrite Hd. cbn [rbind]. rewrite Hr. cbn [rbind].
  rewrite bool_decide_eq_false_2; [done|]. rewrite Hfn, <- uses_function_erase. by apply tame_no_fixed.
Qed.

(** ** Readers do not look at spans *)
Lemma usage_probe_erase n : usage_probe (erase n) = usage_probe n.
Proof. by destruct n as [| | | |[] [| |[] [|[[]| | | | |] ?]| | |] [[]| | | | |] s e|]. Qed.

Lemma condition_step_erase schema b n st :
  task_condition_step schema b (erase n) st = task_condition_step schema b n st.
Proof. unfold task_condition_step. by rewrite usage_probe_erase. Qed.

Lemma condition_terms_erase schema b l st :
  task_condition_terms schema b (map erase l) st = task_condition_terms schema b l st.
Proof.
  revert st. induction l as [|n l IH]; intros st; cbn [map task_condition_terms]; [done|].
  rewrite condition_step_erase. by destruct (task_condition_step schema b n st).
Qed.

Lemma task_conditions_erase n schema b : taskConditions (erase n) schema b = taskConditions n schema b.
Proof. unfold taskConditions. by rewrite flatten_erase, condition_terms_erase. Qed.

Lemma unscale_erase n : unscale (erase n) = prod_map id erase <$> unscale n.
Proof.
  destruct n as [| | | |[] l r s e|]; try done. cbn [erase unscale].
  destruct r as [[]| | | | |]; try done. cbn [erase]. by destruct (n_eqb _ _).
Qed.

Lemma usage_price_erase n : usage_price (erase n) = usage_price n.
Proof.
  destruct n as [| | | |[] [| |[] [|[[]| | | | |] ?]| | |] r s e|]; try done.
  cbn [erase map usage_price]. by rewrite price_literal_erase.
Qed.

Lemma task_terms_erase schema l st : task_price_terms schema (map erase l) st = task_price_terms schema l st.
Proof.
  revert st. induction l as [|n l IH]; intros [[k h] u]; cbn [map task_price_terms]; [done|].
  rewrite price_literal_erase, unscale_erase. destruct (nonnegativePriceLiteral n); [destruct h; [done|apply IH]|].
  destruct (unscale n) as [[scaled n']|]; [|done]. cbn [fmap option_fmap option_map prod_map fst snd id].
  rewrite usage_price_erase. destruct (usage_price n') as [[f x]|]; [|done].
  destruct (schema_get schema f) as [d|]; [|apply IH]. destruct (uf_type d) as [[]|]; [|done..].
  destruct (uf_unit d); [|done]. destruct (bool_decide (f ∈ u.*1)); [done|]. by destruct (Bool.eqb _ _).
Qed.

Lemma task_tier_erase n cs schema : taskTier (erase n) cs schema = taskTier n cs schema.
Proof.
  destruct n as [| |[] [|a [|b rest]] s e| | |]; try done; [by destruct a as [[]| | | | |]|].
  destruct a as [[]| | | | |]; try done. cbn [erase map taskTier]. by rewrite flatten_erase, task_terms_erase.
Qed.

Lemma task_chain_erase n schema b tiers : task_chain (erase n) schema b tiers = task_chain n schema b tiers.
Proof.
  revert tiers. induction n as [| | | | |c y no s e _ _ IH] using node_rect_strong; intros tiers;
    try (match goal with |- task_chain (erase ?m) _ _ _ = _ =>
      change ((fun fallback => tiers ++ [fallback]) <$> taskTier (erase m) [] schema
              = ((fun fallback => tiers ++ [fallback]) <$> taskTier m [] schema)); by rewrite task_tier_erase end).
  cbn [erase task_chain]. rewrite task_conditions_erase. destruct (taskConditions c schema b) as [| |conditions]; [done|apply IH|].
  destruct (existsb _ _); [apply IH|]. rewrite task_tier_erase. destruct (taskTier y conditions schema); [|done].
  destruct conditions; [done|apply IH].
Qed.

(** ** The tiers of a tree *)
Section Reading.
Context (schema : usage_schema).

(** A condition on a declared value of a fact that is not a boolean. *)
Definition probe_ok (c : task_condition) : bool :=
  match schema_get schema (tk_field c) with
  | Some d => negb (bool_decide (uf_type d = Some Field_boolean))
              && match uf_enum d with Some values => bool_decide (tk_value c ∈ values) | None => false end
  | None => false
  end.

(** A price for a declared number, scaled when it counts tokens. *)
Definition unit_ok (p : price_part) : bool :=
  match p with
  | PP_constant _ _ => false
  | PP_unit field x _ scaled =>
      n_leb n_zero x
      && match schema_get schema field with
         | Some d => bool_decide (uf_type d = Some Field_number)
                     && match uf_unit d with
                        | Some unit => Bool.eqb (bool_decide (unit = Unit_tokens)) scaled
                        | None => false
                        end
         | None => false
         end
  end.

Definition unit_entry (p : price_part) : jstr * num :=
  match p with PP_constant x _ => ([], x) | PP_unit field x _ _ => (field, x) end.

(** A constant, if any, and then the prices of distinct facts. *)
Record sum_ok (t : task_sum) (constant : num) (units : list price_part) : Prop := {
  so_parts : (exists i, n_leb n_zero constant = true /\ su_parts t = PP_constant constant i :: units)
             \/ (constant = n_zero /\ su_parts t = units);
  so_units : Forall (fun p => unit_ok p = true) units;
  so_some : units <> [];
  so_distinct : NoDup (map unit_entry units).*1
}.

Lemma probe_flat c : flattenBinary (probe_tree c) B_and = [probe_tree c].
Proof. done. Qed.

Lemma probe_terms_read cs acc : Forall (fun c => probe_ok c = true) cs ->
  task_condition_terms schema false (map probe_tree cs) (acc, true) = Some (acc ++ cs, true).
Proof.
  intros H. revert acc. induction H as [|[f v] cs Hc _ IH]; intros acc; cbn [map task_condition_terms]; [by rewrite app_nil_r|].
  unfold probe_ok in Hc. cbn [tk_field tk_value] in Hc. unfold task_condition_step. cbn [probe_tree usage_probe usage_tree str_lit tk_field tk_value].
  destruct (schema_get schema f) as [d|]; [|done]. apply andb_true_split in Hc as [Hb Hv]. apply negb_true_iff in Hb. rewrite Hb.
  destruct (uf_enum d) as [values|]; [|done]. rewrite Hv. cbn [andb]. rewrite IH, <- app_assoc. done.
Qed.

Lemma probes_read c cs : Forall (fun c => probe_ok c = true) (c :: cs) ->
  taskConditions (probes_tree c cs) schema false = TC_list (c :: cs).
Proof.
  intros H. unfold taskConditions, probes_tree. rewrite flatten_more by (intros; apply probe_flat). rewrite probe_flat.
  change ([probe_tree c] ++ map probe_tree cs) with (map probe_tree (c :: cs)). by rewrite probe_terms_read.
Qed.

Lemma units_read units k h acc : Forall (fun p => unit_ok p = true) units ->
  NoDup (map unit_entry units).*1 -> (forall f, f ∈ (map unit_entry units).*1 -> f ∉ acc.*1) ->
  task_price_terms schema (map part_tree units) (k, h, acc) = Some (k, h, build (map unit_entry units) acc).
Proof.
  intros H. revert acc. induction H as [|p units Hp _ IH]; intros acc Hn Hd; [done|].
  destruct p as [|f x i scaled]; [done|]. cbn [unit_ok] in Hp. apply andb_true_split in Hp as [Hx Hp].
  change ((map unit_entry (PP_unit f x i scaled :: units)).*1) with (f :: (map unit_entry units).*1) in *.
  apply list.NoDup_cons in Hn as [Hf Hn].
  assert (task_price_terms schema (map part_tree units) (k, h, obj_set f x acc)
    = Some (k, h, build (map unit_entry (PP_unit f x i scaled :: units)) acc)) as Hrest.
  { rewrite IH; [done|done|]. intros g Hg Hin. apply obj_set_keys in Hin as [->|Hin]; [done|].
    apply (Hd g); [by right|done]. }
  destruct (schema_get schema f) as [d|] eqn:Es; [|done]. apply andb_true_split in Hp as [Ht Hu].
  apply bool_decide_eq_true in Ht. destruct (uf_unit d) as [unit|] eqn:Eu; [|done].
  assert (usage_price (Bin B_mul (usage_tree f) (num_lit x i) 0 0) = Some (f, x)) as Hprice
    by (cbn [usage_price usage_tree str_lit num_lit nonnegativePriceLiteral]; by rewrite Hx).
  cbn [map task_price_terms].
  assert (nonnegativePriceLiteral (part_tree (PP_unit f x i scaled)) = None) as -> by (by destruct scaled).
  assert (unscale (part_tree (PP_unit f x i scaled)) = Some (scaled, Bin B_mul (usage_tree f) (num_lit x i) 0 0)) as ->
    by (by destruct scaled).
  rewrite Hprice, Es, Ht, Eu, bool_decide_eq_false_2, Hu; [exact Hrest|]. apply Hd. by left.
Qed.

Lemma part_flat p : flattenBinary (part_tree p) B_add = [part_tree p].
Proof. by destruct p as [|? ? ? []]. Qed.

Lemma sum_read t constant units conditions : sum_ok t constant units ->
  taskTier (sum_tree t) conditions schema
  = Some (TaskTier None (su_label t) conditions constant (from_entries (map unit_entry units))).
Proof.
  intros [Hp Hu Hne Hd]. unfold sum_tree. cbn [taskTier str_lit]. unfold parts_tree.
  rewrite flatten_more by (intros; apply part_flat). rewrite part_flat.
  change ([part_tree (su_first t)] ++ map part_tree (su_rest t)) with (map part_tree (su_parts t)).
  assert (exists h, task_price_terms schema (map part_tree (su_parts t)) (n_zero, false, [])
    = Some (constant, h, build (map unit_entry units) [])) as (h & ->).
  { destruct Hp as [(i & Hc & ->)|[-> ->]].
    - exists true. cbn [map task_price_terms part_tree num_lit nonnegativePriceLiteral]. rewrite Hc.
      apply units_read; [done|done|]. intros f _. apply not_elem_of_nil.
    - exists false. apply units_read; [done|done|]. intros f _. apply not_elem_of_nil. }
  rewrite from_entries_build. destruct (build (map unit_entry units) []) as [|e es] eqn:E; [|done]. exfalso.
  destruct units as [|p units]; [done|].
  assert (is_Some (obj_get (fst (unit_entry p)) (build (map unit_entry (p :: units)) []))) as [x Hx].
  { rewrite build_get by done. rewrite (obj_get_in _ (unit_entry p).2); [by eexists|done|].
    cbn [map]. destruct (unit_entry p). by left. }
  by rewrite E in Hx.
Qed.
(** The tiers that an evaluation can reach: none whose conditions include those of
    an earlier tier. *)
Fixpoint reachable_rows (kept rows : list task_tier) (final : task_tier) : list task_tier :=
  match rows with
  | [] => kept ++ [final]
  | row :: rows =>
      if existsb (shadows (kt_conditions row)) kept then reachable_rows kept rows final
      else reachable_rows (kept ++ [row]) rows final
  end.

Definition sum_row (conditions : list task_condition) (t : task_sum) (row : task_tier) : Prop :=
  exists constant units, sum_ok t constant units
    /\ row = TaskTier None (su_label t) conditions constant (from_entries (map unit_entry units)).

Definition guarded_row (g : task_condition * list task_condition * task_sum) (row : task_tier) : Prop :=
  Forall (fun c => probe_ok c = true) (g.1.1 :: g.1.2) /\ sum_row (g.1.1 :: g.1.2) g.2 row.

(** The tiers the reader finds in the tree of a chain. *)
Lemma task_chain_read l last rows final kept : Forall2 guarded_row l rows -> sum_row [] last final ->
  task_chain (task_tree l last) schema false kept = Some (reachable_rows kept rows final).
Proof.
  intros Hl (constant & units & Hs & ->). revert kept. induction Hl as [|[[c cs] t] row l rows [Hc Hr] _ IH]; intros kept.
  - cbn [task_tree reachable_rows].
    change (task_chain (sum_tree last) schema false kept)
      with ((fun fallback => kept ++ [fallback]) <$> taskTier (sum_tree last) [] schema).
    by rewrite (sum_read last constant units).
  - cbn [fst snd] in *. destruct Hr as (k & u & Hk & ->). cbn [task_tree task_chain reachable_rows kt_conditions].
    rewrite probes_read by done. destruct (existsb _ _); [apply IH|]. rewrite (sum_read t k u) by done. apply IH.
Qed.
End Reading.
