(* ===== verification/TaskTextFacts.v ===== *)
(** * What the task price editor writes is what it shows

    The text that [generateTaskExprFromConfig] writes for a normal configuration
    lexes to the tokens of a chain, parses and compiles to its tree, and the reader
    of task tiers finds the editor's tiers in it. *)
From Stdlib Require Import SpecFloat.
From stdpp Require Import strings.
From S2P Require Import Prelude JsString JsNumber JsNumberFacts JsValue Syntax SyntaxFacts Parser ParserFacts Grammar GrammarFacts.
From S2P Require Import NumberText LexText Compile CompileFacts EraseFacts Runtime Display TaskTiers TierSummary TaskConfig TaskConfigFacts TierText TierCompile TierEditorFacts TaskText.

#[local] Open Scope Z_scope.

(** ** Quoted texts *)

(** A text that is written between quotes as it is. *)
Definition plain_text (s : jstr) : bool :=
  unquoted s && forallb (fun c => (32 <=? c) && negb (high_surrogate c) && negb (low_surrogate c)) s.

Lemma plain_body s : plain_text s = true -> json_body s = s.
Proof.
  unfold plain_text, unquoted. intros H. apply andb_true_split in H as [Hu Hp].
  induction s as [|c s IH]; [done|]. cbn [forallb] in *. apply andb_true_split in Hu as [Hc Hu].
  apply andb_true_split in Hp as [Hd Hp]. apply andb_true_split in Hd as [Hd Hlow]. apply andb_true_split in Hd as [H32 Hhigh].
  cbn [json_body]. apply negb_true_iff in Hhigh, Hlow. rewrite Hhigh, Hlow, IH by done.
  assert (json_char c = [c]) as ->; [|done]. unfold json_char. apply negb_true_iff in Hc. bsplit.
  repeat match goal with |- context [?a =? ?b] => rewrite (proj2 (Z.eqb_neq a b)) by lia end. cbn [orb].
  by rewrite (proj2 (Z.ltb_ge c 32)).
Qed.

Lemma lexes_quoted s rest ts : plain_text s = true -> lexes rest ts -> lexes (json_stringify s ++ rest) (T_str s :: ts).
Proof.
  intros Hs Hts. unfold json_stringify. rewrite plain_body by done.
  change ((34 :: s ++ [34]) ++ rest) with ([34] ++ (s ++ [34]) ++ rest). rewrite <- app_assoc.
  apply lexes_string; [|done]. unfold plain_text in Hs. by bsplit.
Qed.

(** ** Texts and tokens *)
Lemma lexes_usage field rest ts : plain_text field = true -> lexes rest ts ->
  lexes (js "u(" ++ json_stringify field ++ 41 :: rest) (usage_tokens field ++ ts).
Proof.
  intros Hf Hts. change (js "u(") with (js "u" ++ [40]). rewrite <- !app_assoc. cbn [usage_tokens app].
  apply (lexes_name (js "u")); [done|done|]. apply lexes_punctuation; [by compute_done|].
  apply lexes_quoted; [done|]. apply lexes_punctuation; [by compute_done|done].
Qed.

Lemma lexes_usage_term field x i token rest ts : plain_text field = true -> literal_of (num_to_string x) = Some (x, i) ->
  ends rest -> lexes rest ts ->
  lexes (usage_term field x token ++ rest) (part_tokens (PP_unit field x i token) ++ ts).
Proof.
  intros Hf Hx Hr Hts. unfold usage_term, part_tokens. cbn [part_head part_tail]. rewrite <- !app_assoc.
  change (js ") * ") with (41 :: 32 :: js "*" ++ [32]). cbn [app]. apply lexes_usage; [done|].
  apply lexes_space. apply (lexes_operator (js "*")); [by compute_done|].
  destruct token; cbn [app].
  - apply lexes_number; [done|by left|]. change (js " / 1000000") with (32 :: js "/" ++ [32] ++ js "1000000").
    cbn [app]. apply lexes_space. apply (lexes_operator (js "/")); [by compute_done|].
    apply lexes_number; [by vm_compute|done|done].
  - by apply lexes_number.
Qed.

Lemma lexes_probe c rest ts : plain_text (tk_field c) = true -> plain_text (tk_value c) = true -> lexes rest ts ->
  lexes (condition_expr c ++ rest) (probe_tokens c ++ ts).
Proof.
  intros Hf Hv Hts. unfold condition_expr, probe_tokens. rewrite <- !app_assoc.
  change (js ") == ") with (41 :: 32 :: js "==" ++ [32]). cbn [app]. apply lexes_usage; [done|].
  apply lexes_space. apply (lexes_operator (js "==")); [by compute_done|]. by apply lexes_quoted.
Qed.

(** A text that lexes to the tokens of a part. *)
Definition part_for (text : jstr) (p : price_part) : Prop :=
  forall rest ts, ends rest -> lexes rest ts -> lexes (text ++ rest) (part_tokens p ++ ts).

Lemma lexes_sum label texts p ps rest ts : plain_text label = true -> Forall2 part_for texts (p :: ps) -> lexes rest ts ->
  lexes (js "tier(" ++ json_stringify label ++ js ", " ++ join (js " + ") texts ++ js ")" ++ rest)
    (sum_tokens (TaskSum label p ps) ++ ts).
Proof.
  intros Hl Hp Hts. unfold sum_tokens. cbn [su_label su_first su_rest].
  change (js "tier(") with (js "tier" ++ [40]). rewrite <- !app_assoc.
  apply (lexes_name (js "tier")); [done|done|]. apply lexes_punctuation; [by compute_done|].
  apply lexes_quoted; [done|]. change (js ", ") with [44; 32]. cbn [app].
  apply (lexes_punctuation 44); [by compute_done|]. apply lexes_space.
  rewrite <- (map_id texts). apply (lexes_joined part_for "+" id part_tokens); [by compute_done| |done|by right|].
  - intros x y r ts' Hxy. apply Hxy.
  - apply (lexes_punctuation 41); [by compute_done|done].
Qed.

(** ** Configurations that can be written *)
Section Writing.
Context `{Collation} (schema : usage_schema).
Notation number_fields := (getTaskNumberFields (Some schema)).

(** The names and values that texts mention need no escape; enumerated facts are
    not booleans; and there are at most fifty number fields. *)
Record schema_ok : Prop := {
  sc_keys : NoDup schema.*1;
  sc_names : Forall (fun f => plain_text (fst f) = true) schema;
  sc_values : Forall (fun f => Forall (fun v => plain_text v = true) (default [] (uf_enum (snd f)))) schema;
  sc_enums : Forall (fun f => is_enum_field f = true -> uf_type (snd f) <> Some Field_boolean) schema;
  sc_some : number_fields <> [];
  sc_few : (length number_fields <= 50)%nat
}.

(** A tier whose label needs no escape, whose prices are amounts, and which has
    at most fifty conditions. *)
Definition tier_writable (t : visual_tier) : bool :=
  plain_text (vr_label t) && amount (vr_constant t) && forallb (fun p => amount (snd p)) (vr_unitPrices t)
  && (length (vr_conditions t) <=? 50)%nat.

(** Every tier but the last has a condition, and there are at most fifty before it. *)
Definition config_writable (tiers : list visual_tier) : bool :=
  forallb tier_writable tiers && forallb (fun t => negb (bool_decide (vr_conditions t = []))) (removelast tiers)
  && (length tiers <=? 51)%nat.

(** The tier as the reader gives it back. *)
Definition shown_tier (conditions : list task_condition) (t : visual_tier) : task_tier :=
  TaskTier None (vr_label t) conditions (vr_constant t) (vr_unitPrices t).

Hypothesis Hschema : schema_ok.

Lemma schema_get_in f d : (f, d) ∈ schema -> schema_get schema f = Some d.
Proof using Hschema. intros Hin. unfold schema_get. by rewrite (obj_get_in f d) by (done || apply Hschema). Qed.

Lemma number_field_in f d : (f, d) ∈ number_fields -> (f, d) ∈ schema /\ is_number_field (f, d) = true.
Proof using.
  intros Hin. unfold getTaskNumberFields in Hin. rewrite <- (sort_by_name_perm _) in Hin.
  apply list_elem_of_In, filter_In in Hin as [Hin Hn]. by rewrite list_elem_of_In.
Qed.

Lemma enum_field_in f d : obj_get f (getTaskEnumFields (Some schema)) = Some d ->
  (f, d) ∈ schema /\ is_enum_field (f, d) = true.
Proof using.
  intros Hin%obj_get_some. unfold getTaskEnumFields in Hin. rewrite <- (sort_by_name_perm _) in Hin.
  apply list_elem_of_In, filter_In in Hin as [Hin Hn]. by rewrite list_elem_of_In.
Qed.

(** Declared conditions can be written and are read back. *)
Lemma declared_probe c : declared_value schema c = true ->
  probe_ok schema c = true /\ plain_text (tk_field c) = true /\ plain_text (tk_value c) = true.
Proof using Hschema.
  unfold declared_value. intros Hd. destruct (obj_get _ _) as [d|] eqn:E; [|done]. apply enum_field_in in E as [Hin He].
  apply bool_decide_eq_true in Hd. destruct Hschema as [H1 H2 H3 H4 _ _]. rewrite Forall_elem in H2.
  rewrite Forall_elem in H3. rewrite Forall_elem in H4. specialize (H2 _ Hin). specialize (H3 _ Hin). specialize (H4 _ Hin He).
  cbn [fst snd] in *. split_and!; [|done|by rewrite Forall_elem in H3; apply H3].
  unfold probe_ok. rewrite (schema_get_in _ d) by done. rewrite bool_decide_eq_false_2 by done. cbn [negb andb].
  destruct (uf_enum d); [by apply bool_decide_eq_true|]. by apply not_elem_of_nil in Hd.
Qed.

(** The price of a number field. *)
Lemma unit_part f d x : (f, d) ∈ number_fields -> amount x = true ->
  exists i, part_for (usage_term f x (is_token_field d)) (PP_unit f x i (is_token_field d))
    /\ unit_ok schema (PP_unit f x i (is_token_field d)) = true.
Proof using Hschema.
  intros Hin Hx. destruct (amount_literal x Hx) as [i Hi]. exists i. apply number_field_in in Hin as [Hin Hn].
  pose proof (sc_names Hschema) as Hp. rewrite Forall_elem in Hp. specialize (Hp _ Hin). cbn [fst] in Hp. split.
  - intros rest ts Hr Hts. by apply lexes_usage_term.
  - cbn [unit_ok]. rewrite (proj1 (literal_nonnegative _ _ _ Hi)), (schema_get_in f d) by done. cbn [andb].
    unfold is_number_field in Hn. cbn [snd] in Hn. unfold is_token_field.
    destruct (uf_type d) as [[]|]; try done. destruct (uf_unit d) as [unit|]; [|done].
    rewrite bool_decide_eq_true_2 by done. cbn [andb]. apply eqb_true_iff.
    apply bool_decide_ext. naive_solver.
Qed.

Definition tier_price (t : visual_tier) (k : jstr) : num := default n_zero (obj_get k (vr_unitPrices t)).

(** A tier of a normal configuration. *)
Definition normal_form (t : visual_tier) : Prop := tier_normal schema t /\ vr_unitPrices t = priced schema (tier_price t).

Lemma field_amount t k : tier_writable t = true -> amount (tier_price t k) = true.
Proof using.
  unfold tier_writable, tier_price. intros Hw. bsplit. destruct (obj_get k _) as [x|] eqn:E; [|by compute_done].
  apply obj_get_some in E. match goal with H : forallb _ (vr_unitPrices t) = true |- _ => rewrite forallb_forall in H; apply (H (k, x)) end.
  by apply list_elem_of_In.
Qed.

(** The prices of the number fields, as texts and as parts. *)
Lemma field_parts t l : tier_writable t = true -> (forall f, f ∈ l -> f ∈ number_fields) ->
  exists units, Forall2 part_for (map (fun f => usage_term (fst f) (tier_price t (fst f)) (is_token_field (snd f))) l) units
    /\ Forall (fun p => unit_ok schema p = true) units
    /\ map unit_entry units = map (fun f => (fst f, tier_price t (fst f))) l.
Proof using Hschema.
  intros Hw. induction l as [|[f d] l IH]; intros Hin; [by exists []; split_and!; constructor|].
  destruct IH as (units & H1 & H2 & H3); [intros; apply Hin; by right|].
  destruct (unit_part f d (tier_price t f)) as (i & Hp & Hu); [apply Hin; by left|by apply field_amount|].
  exists (PP_unit f (tier_price t f) i (is_token_field d) :: units). split_and!; [by constructor..|]. cbn. by rewrite H3.
Qed.

Lemma constant_part x : amount x = true ->
  exists i, part_for (num_to_string x) (PP_constant x i) /\ n_leb n_zero x = true.
Proof using.
  intros Hx. destruct (amount_literal x Hx) as [i Hi]. exists i. split; [|by apply (literal_nonnegative _ _ _ Hi)].
  intros rest ts Hr Hts. by apply lexes_number.
Qed.

Lemma amount_zero x : amount x = true -> n_ltb n_zero x = false -> x = n_zero.
Proof using. unfold amount. by destruct x as [[]| | |[]]; intros; bsplit. Qed.

Lemma fields_keys (g : jstr -> num) : (map (fun f => (fst f, g (fst f))) number_fields).*1 = number_fields.*1.
Proof using. clear. by induction number_fields as [|f l IH]; [|cbn; rewrite IH]. Qed.

(** The text of a tier is that of a sum that the reader gives back. *)
Record sum_for (t : visual_tier) (s : task_sum) : Prop := {
  sf_text : forall rest ts, lexes rest ts -> lexes (generateTaskTierCall t number_fields ++ rest) (sum_tokens s ++ ts);
  sf_row : forall conditions, sum_row schema conditions s (shown_tier conditions t);
  sf_small : (length (su_rest s) <= 50)%nat
}.

Lemma tier_sum t : normal_form t -> tier_writable t = true -> exists s, sum_for t s.
Proof using Hschema.
  intros [_ Hn] Hw. destruct (field_parts t number_fields Hw ltac:(done)) as (units & Htexts & Hok & Hentries).
  pose proof Hw as Hw'. unfold tier_writable in Hw'. bsplit.
  assert (from_entries (map unit_entry units) = vr_unitPrices t) as Hprices by (by rewrite Hentries, Hn).
  assert (NoDup (map unit_entry units).*1) as Hd by (rewrite Hentries, fields_keys; apply number_fields_nodup, Hschema).
  assert (length units = length number_fields) as Hlen by (apply Forall2_length in Htexts; by rewrite length_map in Htexts).
  assert (units <> []) as Hne by (intros ->; destruct number_fields eqn:E; [by apply (sc_some Hschema)|done]).
  pose proof (sc_few Hschema) as Hfew.
  assert (exists p ps, Forall2 part_for ((if n_ltb n_zero (vr_constant t) then [num_to_string (vr_constant t)] else [])
      ++ map (fun f => usage_term (fst f) (tier_price t (fst f)) (is_token_field (snd f))) number_fields) (p :: ps)
    /\ sum_ok schema (TaskSum (vr_label t) p ps) (vr_constant t) units /\ (length ps <= 50)%nat) as (p & ps & Hparts & Hsum & Hsmall).
  { destruct (n_ltb n_zero (vr_constant t)) eqn:Ec.
    - destruct (constant_part (vr_constant t)) as (i & Hi & Hc); [done|]. exists (PP_constant (vr_constant t) i), units.
      split_and!; [by constructor| |lia]. split; [left; by exists i|done..].
    - destruct units as [|p ps]; [done|]. exists p, ps. split_and!; [done| |cbn [length] in Hlen; lia].
      split; [right; split; [by apply amount_zero|done]|done..]. }
  exists (TaskSum (vr_label t) p ps). split; [| |done].
  - intros rest ts Hts. unfold generateTaskTierCall, generateTaskTierBody. rewrite <- !app_assoc. by apply lexes_sum.
  - intros conditions. exists (vr_constant t), units. split; [done|]. unfold shown_tier. by rewrite Hprices.
Qed.

(** ** Chains *)
Lemma conditions_text conditions c cs rest ts : conditions = c :: cs ->
  Forall (fun c => declared_value schema c = true) conditions -> ends rest -> lexes rest ts ->
  lexes (generateTaskCondition conditions ++ rest) (probes_tokens c cs ++ ts).
Proof using Hschema.
  intros -> Hd Hr Hts. unfold generateTaskCondition, probes_tokens. rewrite <- app_assoc.
  apply (lexes_joined (fun c k => c = k /\ declared_value schema c = true) "&&"); [by compute_done| | |done|done].
  - intros x _ r ts' [<- Hx] _ Hts'. apply declared_probe in Hx as (_ & Hf & Hv). by apply lexes_probe.
  - revert Hd. induction (c :: cs) as [|x l IH]; intros Hd; constructor; apply Forall_cons_iff in Hd as [? ?]; [done|by apply IH].
Qed.

Lemma chain_parts_cons t rest : vr_conditions t <> [] -> rest <> [] ->
  chain_parts (t :: rest) number_fields
  = cons (generateTaskCondition (vr_conditions t) ++ js " ? " ++ generateTaskTierCall t number_fields)
    <$> chain_parts rest number_fields.
Proof using.
  intros Hc Hr. destruct rest as [|t' rest]; [done|]. cbn [chain_parts].
  destruct (generateTaskCondition (vr_conditions t)) eqn:E; [|done]. exfalso. unfold generateTaskCondition in E.
  destruct (vr_conditions t) as [|c [|c' cs]]; done.
Qed.

(** Texts on both sides of [?] and [:]. *)
Lemma lexes_branch condition call more g s l :
  (forall rest ts, ends rest -> lexes rest ts -> lexes (condition ++ rest) (g ++ ts)) ->
  (forall rest ts, lexes rest ts -> lexes (call ++ rest) (s ++ ts)) -> lexes more l ->
  lexes ((condition ++ js " ? " ++ call) ++ js " : " ++ more) (g ++ [sym "?"] ++ s ++ [sym ":"] ++ l).
Proof using.
  intros Hg Hs Hl. rewrite <- !app_assoc. apply Hg; [by left|].
  change (js " ? ") with (32 :: js "?" ++ [32]). cbn [app]. apply lexes_space. apply (lexes_operator (js "?")); [by compute_done|].
  apply Hs. change (js " : ") with (32 :: js ":" ++ [32]). cbn [app]. apply lexes_space.
  by apply (lexes_operator (js ":")); [compute_done|].
Qed.

(** The chain of the tiers before the last and of the last. *)
Record chain_text (init : list visual_tier) (final : visual_tier) (l : guarded_sums) (s : task_sum) : Prop := {
  ct_text : exists parts, chain_parts (init ++ [final]) number_fields = Some parts /\ parts <> []
    /\ lexes (join (js " : ") parts) (task_tokens l s);
  ct_rows : Forall2 (guarded_row schema) l (map (fun t => shown_tier (vr_conditions t) t) init);
  ct_last : sum_for final s;
  ct_small : Forall (fun '(c, cs, t) => (length (cs : list task_condition) <= 50)%nat /\ (length (su_rest t) <= 50)%nat) l
}.

Lemma tiers_chain init final : Forall normal_form (init ++ [final]) -> forallb tier_writable (init ++ [final]) = true ->
  Forall (fun t => vr_conditions t <> []) init -> exists l s, chain_text init final l s.
Proof using Hschema.
  intros Hn Hw Hc. induction init as [|t init IH]; cbn [app forallb] in Hn, Hw; apply Forall_cons_iff in Hn as [Ht Hn];
    apply andb_true_split in Hw as [Hwt Hw]; destruct (tier_sum _ Ht Hwt) as [s Hs].
  - exists [], s. split; [|constructor|done|constructor]. eexists. split_and!; [done|done|]. cbn [join task_tokens].
    rewrite <- (app_nil_r (generateTaskTierCall _ _)), <- (app_nil_r (sum_tokens s)). apply Hs, lexes_nil.
  - apply Forall_cons_iff in Hc as [Hct Hc]. destruct (IH Hn Hw Hc) as (l & u & [(parts & Hp & Hne & Hlex) Hrows Hlast Hsmall]).
    destruct (vr_conditions t) as [|c cs] eqn:Ec; [done|]. pose proof (tn_conditions _ _ (proj1 Ht)) as Hd.
    exists ((c, cs, s) :: l), u. split; [| |done|].
    + exists ((generateTaskCondition (vr_conditions t) ++ js " ? " ++ generateTaskTierCall t number_fields) :: parts).
      split_and!; [|done|].
      * cbn [app]. by rewrite chain_parts_cons, Hp; [|rewrite Ec|destruct init].
      * destruct parts as [|p parts]; [done|]. rewrite join_two. cbn [task_tokens].
        apply lexes_branch; [|apply Hs|done]. intros. by apply conditions_text.
    + constructor; [|done]. split; cbn [fst snd]; [|rewrite <- Ec; apply Hs]. rewrite Ec in Hd.
      revert Hd. apply Forall_impl. intros x Hx. by apply declared_probe.
    + constructor; [|done]. split; [|apply Hs]. unfold tier_writable in Hwt. bsplit. rewrite Ec in *. cbn [length] in *. lia.
Qed.
End Writing.

Lemma removelast_app_one {A} (l : list A) x : removelast (l ++ [x]) = l.
Proof. by rewrite removelast_app, app_nil_r. Qed.

(** The text the editor writes for normal tiers. *)
Lemma generated_text `{Collation} config schema init final parts : getTaskNumberFields (Some schema) <> [] ->
  normalizeTaskVisualConfig config schema = init ++ [final] ->
  chain_parts (init ++ [final]) (getTaskNumberFields (Some schema)) = Some parts ->
  generateTaskExprFromConfig config schema = join (js " : ") parts.
Proof.
  intros Hf En Hp. unfold generateTaskExprFromConfig. rewrite En. destruct (getTaskNumberFields (Some schema)) as [|f fs]; [done|].
  destruct init as [|t [|t' init]]; cbn [app] in *; [by injection Hp as <-|by rewrite Hp..].
Qed.

Lemma normalized_form `{Collation} config schema : NoDup schema.*1 ->
  Forall (normal_form schema) (normalizeTaskVisualConfig config schema).
Proof.
  intros Hk. destruct (normalize_cases schema config) as (tiers & _ & ->). apply Forall_elem. intros t Ht.
  apply elem_of_lookup_imap in Ht as (i & t0 & -> & _). split; [by apply normal_tier_normal|by apply normal_tier_prices].
Qed.

Lemma task_head l last : exists c n ts, task_tokens l last = T_name (c :: n) :: ts /\ c <> 118.
Proof. destruct l as [|[[c cs] t] l]; by do 3 eexists. Qed.

(** What a configuration shows: its tiers in order, the last without conditions,
    and none that an earlier one makes unreachable. *)
Definition shown_rows (tiers : list visual_tier) : option (list task_tier) :=
  reachable_rows [] (map (fun t => shown_tier (vr_conditions t) t) (removelast tiers)) <$> (shown_tier [] <$> list.last tiers).

(** C29: what the task price editor writes is what it shows.  Let the schema have
    distinct names, names and enumerated values that need no escape, enumerated
    facts that are not booleans, and one to fifty number fields; and let the
    normal form of the configuration have labels that need no escape, prices that
    are amounts, at most 51 tiers with at most fifty conditions each, and a
    condition on every tier but the last.  Then the expression that
    generateTaskExprFromConfig writes compiles, and the tiers that
    readTaskTierChain finds in it are those of the normal form, in order, with
    their labels, conditions, constants and unit prices, the last without
    conditions and less the tiers that an earlier one shadows.  The only other
    outcome is that the text exceeds a limit of the parser. *)
Theorem task_text_faithful `{Collation} config schema : schema_ok schema ->
  config_writable (normalizeTaskVisualConfig config schema) = true ->
  match compile (generateTaskExprFromConfig config schema) with
  | Ready c => readTaskTierChain (ce_ast c) schema false = shown_rows (normalizeTaskVisualConfig config schema)
  | Failed f => d_code (f_diagnostic f) = C_limit
  end.
Proof.
  intros Hs Hw. pose proof (normalized_form config schema (sc_keys _ Hs)) as Hn.
  destruct (normalize_config_invariant config schema (sc_keys _ Hs)) as (Hne & _).
  destruct (exists_last Hne) as (init & final & En). rewrite En in Hn, Hw. unfold config_writable in Hw.
  apply andb_true_split in Hw as [Hw Hlen]. apply andb_true_split in Hw as [Hw Hc].
  rewrite removelast_app_one in Hc. apply Nat.leb_le in Hlen. rewrite length_app in Hlen. cbn [length] in Hlen.
  destruct (tiers_chain schema Hs init final Hn Hw) as (l & s & [(parts & Hp & _ & Hlex) Hrows Hlast Hsmall]).
  { apply Forall_elem. intros t Ht. rewrite forallb_forall in Hc. apply list_elem_of_In, Hc in Ht. by bsplit. }
  rewrite <- (generated_text config schema init final parts (sc_some _ Hs) En Hp) in Hlex.
  set (source := generateTaskExprFromConfig config schema) in *.
  assert (match parse source with Ok m => erase m = task_tree l s | Err e => limit_error e end) as Hparse.
  { eapply derivable_parses; [|exact Hlex|apply task_derives]. destruct (task_head l s) as (c & n & ts & Et & Hv).
    rewrite Et in Hlex. by eapply lexes_no_version. }
  destruct (parse source) as [m|e] eqn:Em.
  - assert (small_sums l s) as Hsm.
    { split_and!; [|apply Hlast|done]. apply Forall2_length in Hrows. rewrite length_map in Hrows. lia. }
    destruct (task_compiles _ _ _ _ Em Hparse Hsm) as (c & -> & ->). unfold readTaskTierChain.
    rewrite <- task_chain_erase, Hparse, (task_chain_read schema l s _ (shown_tier [] final) []) by (done || apply Hlast).
    unfold shown_rows. by rewrite En, removelast_app_one, last_snoc.
  - unfold compile, compile_body. rewrite Em. cbn [rbind]. by destruct Hparse as (detail & pos & ->).
Qed.

(** Three tiers: one for short clips of high resolution, one for the fast mode,
    and the rest. *)
Definition clip_tiers : list visual_tier :=
  [VisualTier (js "hd") [TaskCondition (js "resolution") (js "1080p"); TaskCondition (js "mode") (js "pro")] n_one
     [(js "seconds", decimal_to_num 25 (-2)); (js "tokens", n_of_Z 3)];
   VisualTier (js "fast") [TaskCondition (js "mode") (js "fast")] n_zero [(js "seconds", n_one)];
   VisualTier [] [] (decimal_to_num 5 (-1)) []].

Lemma clip_schema_ok : @schema_ok code_unit_order clip_schema.
Proof. split; apply (bool_decide_unpack _); vm_compute; exact I. Qed.

Lemma task_text_faithful_witness :
  config_writable (@normalizeTaskVisualConfig code_unit_order (Some clip_tiers) clip_schema) = true /\
  match compile (@generateTaskExprFromConfig code_unit_order (Some clip_tiers) clip_schema) with
  | Ready c => readTaskTierChain (ce_ast c) clip_schema false
      = shown_rows (@normalizeTaskVisualConfig code_unit_order (Some clip_tiers) clip_schema)
  | Failed f => d_code (f_diagnostic f) = C_limit
  end.
Proof.
  split; [vm_compute; reflexivity|].
  apply (@task_text_faithful code_unit_order (Some clip_tiers) clip_schema); [exact clip_schema_ok|vm_compute; reflexivity].
Defined.

(** Outside these conditions the text may not compile: a tier without a condition
    before the last, or a schema without a number field. *)
Lemma unwritable_task_texts :
  match compile (@generateTaskExprFromConfig code_unit_order (Some [VisualTier (js "a") [] n_one []; VisualTier (js "b") [] n_one []]) clip_schema) with
  | Failed f => d_code (f_diagnostic f) <> C_limit
  | Ready _ => False
  end /\
  match compile (@generateTaskExprFromConfig code_unit_order (Some [VisualTier (js "a") [] n_one []]) []) with
  | Failed f => d_code (f_diagnostic f) <> C_limit
  | Ready _ => False
  end.
Proof. split; vm_compute; discriminate. Qed.

(** The text compiles, and all three tiers are shown. *)
Example clip_tiers_shown :
  match compile (@generateTaskExprFromConfig code_unit_order (Some clip_tiers) clip_schema) with
  | Ready c => map kt_label <$> readTaskTierChain (ce_ast c) clip_schema false
  | Failed _ => None
  end = Some [js "hd"; js "fast"; js "tier_3"].
Proof. vm_compute. reflexivity. Qed.
