(* ===== verification/AuthSession.v ===== *)
(** * The login session of a tab

    The store of the session ([stores/auth-store.ts]), the operations on it and
    the refresh of its tokens ([lib/auth-session.ts]), the events tabs exchange
    ([lib/auth-session-sync.ts], and the listener of [routes/__root.tsx]) and the
    session hint cookie ([lib/session-hint.ts]).

    A tab is a single-threaded program: its functions run to the next [await]
    without interruption, and between two awaits anything else may run.  The
    state of a tab is therefore explicit, and the asynchronous refresh is a
    machine whose states are its suspension points; [AuthSessionFacts] lets it
    interleave with every other operation. *)
From stdpp Require Import strings.
From S2P Require Import Prelude JsString JsNumber JsValue.

#[local] Open Scope Z_scope.

(** ** Data ([stores/auth-store.ts]) *)

(** The fields of [AuthUser] the code checks, and the object itself. *)
Record auth_user := AuthUser {
  au_id : num;
  au_username : jstr;
  au_role : num;
  au_object : jsval;
}.

Record login_session := LoginSession {
  ls_sid : jstr;
  ls_current : bool;
  ls_login_method : jstr;
  ls_ip : jstr;
  ls_user_agent : jstr;
  ls_created_at : num;
  ls_last_active_at : num;
  ls_expires_at : num;
}.

Record auth_bundle := AuthBundle {
  ab_access_token : jstr;
  ab_token_type : jstr;
  ab_access_expires_at : num;
  ab_user : auth_user;
  ab_session : login_session;
}.

Inductive bootstrap_state := B_idle | B_checking | B_complete.

#[global] Instance bootstrap_state_eq_dec : EqDecision bootstrap_state.
Proof. solve_decision. Defined.

Record pending_login := PendingLogin {
  pl_challenge : jsval;
  pl_redirectTo : option jstr;
}.

Record auth_state := AuthState {
  as_user : option auth_user;
  as_accessToken : option jstr;
  as_accessExpiresAt : option num;
  as_session : option login_session;
  as_pending : option pending_login;
  as_bootstrap : bootstrap_state;
}.

Definition initial_auth : auth_state := AuthState None None None None None B_idle.

Definition setBundle (b : auth_bundle) (a : auth_state) : auth_state :=
  AuthState (Some (ab_user b)) (Some (ab_access_token b)) (Some (ab_access_expires_at b))
    (Some (ab_session b)) None B_complete.

(** [a?.id === b?.id] *)
Definition same_user_id (a b : option auth_user) : bool :=
  match a, b with
  | None, None => true
  | Some u, Some v => n_eqb (au_id u) (au_id v)
  | _, _ => false
  end.

Definition setUser (u : option auth_user) (a : auth_state) : auth_state :=
  AuthState u (as_accessToken a) (as_accessExpiresAt a) (as_session a)
    (if same_user_id (as_user a) u then as_pending a else None) (as_bootstrap a).

Definition setPendingLoginVerification (p : option pending_login) (a : auth_state) : auth_state :=
  AuthState (as_user a) (as_accessToken a) (as_accessExpiresAt a) (as_session a) p (as_bootstrap a).

Definition setBootstrapState (s : bootstrap_state) (a : auth_state) : auth_state :=
  AuthState (as_user a) (as_accessToken a) (as_accessExpiresAt a) (as_session a) (as_pending a) s.

Definition reset (s : bootstrap_state) (a : auth_state) : auth_state :=
  AuthState None None None None None s.

(** ** Validation of server data *)

(** [value.key] of an object; the keys read here are not inherited. *)
Definition field (v : jsval) (key : string) : jsval :=
  match v with
  | J_obj props => default J_undefined (own_property props (js key))
  | _ => J_undefined
  end.

Definition as_string (v : jsval) : option jstr := match v with J_str s => Some s | _ => None end.
Definition as_number (v : jsval) : option num := match v with J_num x => Some x | _ => None end.
Definition as_boolean (v : jsval) : option bool := match v with J_bool b => Some b | _ => None end.

Definition non_empty (s : jstr) : bool := match s with [] => false | _ => true end.

Lemma non_empty_spec s : non_empty s = true <-> s <> [].
Proof. by destruct s. Qed.

(** The validators below answer with the validated view of the value. *)
Definition isAuthUser (v : jsval) : option auth_user :=
  if is_object v then
    match field v "id", field v "username", field v "role" with
    | J_num id, J_str username, J_num role =>
        if is_integer id && n_ltb n_zero id then Some (AuthUser id username role v) else None
    | _, _, _ => None
    end
  else None.

Definition isLoginSession (v : jsval) : option login_session :=
  if is_object v then
    match field v "sid", field v "current", field v "login_method", field v "ip",
          field v "user_agent" with
    | J_str sid, J_bool current, J_str login_method, J_str ip, J_str user_agent =>
        match field v "created_at", field v "last_active_at", field v "expires_at" with
        | J_num created_at, J_num last_active_at, J_num expires_at =>
            if non_empty sid then
              Some (LoginSession sid current login_method ip user_agent created_at
                      last_active_at expires_at)
            else None
        | _, _, _ => None
        end
    | _, _, _, _, _ => None
    end
  else None.

Definition hasValidTokenFields (v : jsval) : option (jstr * jstr * num) :=
  match field v "access_token", field v "token_type", field v "access_expires_at" with
  | J_str token, J_str type, J_num expires =>
      if non_empty token && non_empty type && is_finite expires && n_ltb n_zero expires
      then Some (token, type, expires) else None
  | _, _, _ => None
  end.

Definition isAuthBundle (v : jsval) : option auth_bundle :=
  if is_object v then
    '(token, type, expires) ← hasValidTokenFields v;
    user ← isAuthUser (field v "user");
    session ← isLoginSession (field v "session");
    Some (AuthBundle token type expires user session)
  else None.

(** The token, its expiry and the session of a rotation. *)
Record token_rotation := TokenRotation {
  tr_access_token : jstr;
  tr_token_type : jstr;
  tr_access_expires_at : num;
  tr_session : login_session;
}.

Definition isAuthTokenRotation (v : jsval) : option token_rotation :=
  if is_object v then
    '(token, type, expires) ← hasValidTokenFields v;
    if bool_decide (type = js "Bearer") then
      session ← isLoginSession (field v "session");
      if ls_current session then Some (TokenRotation token type expires session) else None
    else None
  else None.

(** ** Events between tabs ([lib/auth-session-sync.ts]) *)
Inductive sync_kind := K_authenticated | K_signed_out.

#[global] Instance sync_kind_eq_dec : EqDecision sync_kind.
Proof. solve_decision. Defined.

Definition kind_text (k : sync_kind) : jstr :=
  match k with K_authenticated => js "authenticated" | K_signed_out => js "signed_out" end.

Record sync_event := SyncEvent {
  se_kind : sync_kind;
  se_sid : jstr;
  se_source : jstr;
  se_nonce : jstr;
  se_timestamp : num;
}.

(** The message as the channel carries it. *)
Definition event_value (e : sync_event) : jsval :=
  J_obj [(js "kind", J_str (kind_text (se_kind e))); (js "sid", J_str (se_sid e));
         (js "source", J_str (se_source e)); (js "nonce", J_str (se_nonce e));
         (js "timestamp", J_num (se_timestamp e))].

Definition read_kind (v : jsval) : option sync_kind :=
  match v with
  | J_str s =>
      if bool_decide (s = js "authenticated") then Some K_authenticated
      else if bool_decide (s = js "signed_out") then Some K_signed_out else None
  | _ => None
  end.

Definition isAuthSessionSyncEvent (v : jsval) : option sync_event :=
  if is_object v then
    kind ← read_kind (field v "kind");
    sid ← as_string (field v "sid");
    if non_empty sid then
      source ← as_string (field v "source");
      nonce ← as_string (field v "nonce");
      timestamp ← as_number (field v "timestamp");
      Some (SyncEvent kind sid source nonce timestamp)
    else None
  else None.

(** [deliver] of [subscribeAuthSessionEvents]: the event the listener gets. *)
Definition deliver (source : jstr) (now : Z) (v : jsval) : option sync_event :=
  e ← isAuthSessionSyncEvent v;
  if negb (bool_decide (se_source e = source)) &&
     n_ltb (n_abs (n_sub (n_of_Z now) (se_timestamp e))) (n_of_Z 60000)
  then Some e else None.

(** ** A tab *)

(** What a tab does to the outside. *)
Inductive effect :=
| F_post (e : sync_event)         (* a message on the channel *)
| F_language (u : auth_user)      (* applySavedLanguage *)
| F_clear_queries                 (* queryClient.clear() *)
| F_reload                        (* window.location.reload() *)
| F_sign_in.                      (* navigate to /sign-in *)

Inductive refresh_error :=
| R_superseded                    (* AuthRefreshSupersededError *)
| R_response (error : jsval).

Inductive refresh_outcome :=
| O_authenticated (b : auth_bundle)
| O_anonymous
| O_transient_error (e : refresh_error)
| O_out_of_sync (code : option jstr).

(** [AuthRefreshHTTPResponse]; a missing field is undefined. *)
Record http_response := HttpResponse {
  hr_status : Z;
  hr_data : jsval;
  hr_error : jsval;
}.

(** Where a run of the refresh is suspended, or how it ended. *)
Inductive refresh_point :=
| P_request (sid : option jstr) (raceAttempt : nat) (allowMismatchRetry : bool)
| P_wait (delay : Z) (raceAttempt : nat) (allowMismatchRetry : bool)
| P_done (o : refresh_outcome).

(** The promise of a refresh: waiting for the browser's lock, running, settled
    with an outcome, or rejected because the lock request was. *)
Inductive refresh_phase :=
| H_lock
| H_run (p : refresh_point)
| H_settled (o : refresh_outcome)
| H_rejected (error : jsval).

Record refresh := Refresh {
  rf_epoch : Z;
  rf_phase : refresh_phase;
}.

Record tab := Tab {
  t_source : jstr;                 (* authSyncSource *)
  t_locks : bool;                  (* navigator.locks exists *)
  t_nonces : nat -> jstr;          (* what randomIdentifier will answer *)
  t_posted : nat;                  (* how often it has *)
  t_now : Z;                       (* Date.now() *)
  t_cookie : option jstr;          (* document.cookie, [None] without a document *)
  t_auth : auth_state;             (* useAuthStore.getState().auth *)
  t_epoch : Z;                     (* authEpoch *)
  t_refresh : option refresh;      (* refreshPromise *)
  t_effects : list effect;
}.

Definition with_auth (a : auth_state) (t : tab) : tab :=
  Tab (t_source t) (t_locks t) (t_nonces t) (t_posted t) (t_now t) (t_cookie t) a (t_epoch t)
    (t_refresh t) (t_effects t).

Definition bump_epoch (t : tab) : tab :=
  Tab (t_source t) (t_locks t) (t_nonces t) (t_posted t) (t_now t) (t_cookie t) (t_auth t)
    (t_epoch t + 1) (t_refresh t) (t_effects t).

Definition with_refresh (r : option refresh) (t : tab) : tab :=
  Tab (t_source t) (t_locks t) (t_nonces t) (t_posted t) (t_now t) (t_cookie t) (t_auth t)
    (t_epoch t) r (t_effects t).

Definition emit (f : effect) (t : tab) : tab :=
  Tab (t_source t) (t_locks t) (t_nonces t) (t_posted t) (t_now t) (t_cookie t) (t_auth t)
    (t_epoch t) (t_refresh t) (t_effects t ++ [f]).

(** A later moment, at which the cookies may have changed. *)
Definition at_time (now : Z) (cookie : option jstr) (t : tab) : tab :=
  Tab (t_source t) (t_locks t) (t_nonces t) (t_posted t) now cookie (t_auth t)
    (t_epoch t) (t_refresh t) (t_effects t).

Definition sid_of (t : tab) : option jstr := ls_sid <$> as_session (t_auth t).

(** [publishAuthSessionEvent] in a page with a broadcast channel. *)
Definition publishAuthSessionEvent (kind : sync_kind) (sid : jstr) (t : tab) : tab :=
  if non_empty sid then
    let e := SyncEvent kind sid (t_source t) (t_nonces t (t_posted t)) (n_of_Z (t_now t)) in
    Tab (t_source t) (t_locks t) (t_nonces t) (S (t_posted t)) (t_now t) (t_cookie t) (t_auth t)
      (t_epoch t) (t_refresh t) (t_effects t ++ [F_post e])
  else t.

(** ** Operations on the session *)
Definition applyAuthBundle (b : auth_bundle) (synchronizeTabs : bool) (t : tab) : tab :=
  let previousSID := sid_of t in
  let t := bump_epoch t in
  let t := with_auth (setBundle b (t_auth t)) t in
  let t :=
    if synchronizeTabs && negb (bool_decide (previousSID = Some (ls_sid (ab_session b))))
    then publishAuthSessionEvent K_authenticated (ls_sid (ab_session b)) t else t in
  emit (F_language (ab_user b)) t.

(** The messages of [AuthRotationError]. *)
Inductive rotation_error := RE_invalid | RE_no_session | RE_mismatch.

Definition applyAuthRotation (v : jsval) (t : tab) : result rotation_error tab :=
  match isAuthTokenRotation v with
  | None => Err RE_invalid
  | Some r =>
      match as_user (t_auth t), as_session (t_auth t) with
      | Some user, Some session =>
          if bool_decide (ls_sid (tr_session r) = ls_sid session) then
            Ok (applyAuthBundle
                  (AuthBundle (tr_access_token r) (tr_token_type r) (tr_access_expires_at r)
                     user (tr_session r)) false t)
          else Err RE_mismatch
      | _, _ => Err RE_no_session
      end
  end.

Definition clearAuthentication (synchronizeTabs : bool) (s : bootstrap_state) (t : tab) : tab :=
  let sid := sid_of t in
  let t := bump_epoch t in
  let t := with_auth (reset s (t_auth t)) t in
  match sid with
  | Some sid => if synchronizeTabs then publishAuthSessionEvent K_signed_out sid t else t
  | None => t
  end.

Definition clearAuthenticatedClientState (synchronizeTabs : bool) (t : tab) : tab :=
  clearAuthentication synchronizeTabs B_complete (emit F_clear_queries t).

(** The listener of [routes/__root.tsx]. *)
Definition on_sync_event (e : sync_event) (t : tab) : tab :=
  let currentSID := sid_of t in
  match se_kind e with
  | K_authenticated =>
      if bool_decide (Some (se_sid e) = currentSID) then t
      else
        let t :=
          match currentSID with
          | Some sid => if non_empty sid then clearAuthentication false B_complete t else t
          | None => t
          end in
        emit F_reload t
  | K_signed_out =>
      match currentSID with
      | Some sid =>
          if non_empty sid && bool_decide (se_sid e = sid)
          then emit F_sign_in (clearAuthenticatedClientState false t) else t
      | None => t
      end
  end.

(** A message of the channel arrives: [handleMessage] and the listener. *)
Definition on_message (v : jsval) (t : tab) : tab :=
  match deliver (t_source t) (t_now t) v with
  | Some e => on_sync_event e t
  | None => t
  end.

(** ** The refresh runner, over the runtime it is given *)
Record refresh_runtime (S : Type) := RefreshRuntime {
  rt_getExpectedSID : S -> option jstr;
  rt_parseBundle : jsval -> option auth_bundle;
  rt_acceptBundle : auth_bundle -> S -> S;
  rt_clear : bool -> option bootstrap_state -> S -> S;
  rt_markTransient : S -> S;
  rt_isCurrent : option (S -> bool);
}.
Arguments rt_getExpectedSID {S}.
Arguments rt_parseBundle {S}.
Arguments rt_acceptBundle {S}.
Arguments rt_clear {S}.
Arguments rt_markTransient {S}.
Arguments rt_isCurrent {S}.

Definition refreshRaceDelays : list Z := [80; 200; 500].

Section Runner.
Context {S : Type} (runtime : refresh_runtime S).

Definition current (s : S) : bool :=
  match rt_isCurrent runtime with Some f => f s | None => true end.

Definition superseded : refresh_outcome := O_transient_error R_superseded.

(** [run] up to its request. *)
Definition run_enter (raceAttempt : nat) (allowMismatchRetry : bool) (s : S) : refresh_point :=
  if current s then P_request (rt_getExpectedSID runtime s) raceAttempt allowMismatchRetry
  else P_done superseded.

(** [typeof responseData?.code === 'string'] *)
Definition response_code (r : http_response) : option jstr := as_string (field (hr_data r) "code").

(** [run] after its request was answered, up to the next suspension. *)
Definition run_response (raceAttempt : nat) (allowMismatchRetry : bool) (r : http_response)
    (s : S) : refresh_point * S :=
  if current s then
    let code := response_code r in
    match rt_parseBundle runtime (field (hr_data r) "data"),
          strict_equal (field (hr_data r) "success") (J_bool true) with
    | Some bundle, true => (P_done (O_authenticated bundle), rt_acceptBundle runtime bundle s)
    | _, _ =>
        if (hr_status r =? 409) && bool_decide (code = Some (js "AUTH_REFRESH_RACE")) then
          match refreshRaceDelays !! raceAttempt with
          | Some delay => (P_wait delay raceAttempt allowMismatchRetry, s)
          | None => (P_done (O_out_of_sync code), rt_clear runtime false None s)
          end
        else if (hr_status r =? 409) && bool_decide (code = Some (js "AUTH_SESSION_MISMATCH")) then
          if allowMismatchRetry then
            let s := rt_clear runtime false (Some B_idle) s in (run_enter 0 false s, s)
          else (P_done (O_out_of_sync code), rt_clear runtime false None s)
        else if hr_status r =? 401 then (P_done O_anonymous, rt_clear runtime true None s)
        else if (hr_status r =? 0) || (hr_status r >=? 500) || (hr_status r =? 429) then
          (P_done (O_transient_error
                     (R_response (if is_nullish (hr_error r) then hr_data r else hr_error r))),
           rt_markTransient runtime s)
        else
          (P_done (O_out_of_sync (Some (default (js "AUTH_INVALID_REFRESH_RESPONSE") code))),
           rt_clear runtime false None s)
    end
  else (P_done superseded, s).

(** [run] after its wait. *)
Definition run_timer (raceAttempt : nat) (allowMismatchRetry : bool) (s : S) : refresh_point :=
  run_enter (raceAttempt + 1) allowMismatchRetry s.

(** What an [await] may be answered with. *)
Inductive refresh_input := I_response (r : http_response) | I_timer.

(** One resumption; an input that is not awaited does nothing. *)
Definition resume (p : refresh_point) (i : refresh_input) (s : S) : refresh_point * S :=
  match p, i with
  | P_request _ race allow, I_response r => run_response race allow r s
  | P_wait _ race allow, I_timer => (run_timer race allow s, s)
  | _, _ => (p, s)
  end.
End Runner.

(** [axiosClient.post] of [requestRefresh]: an answer, an Axios error with or
    without an answer, or another error. *)
Inductive post_result :=
| X_response (status : Z) (data : jsval)
| X_axios_error (response : option (Z * jsval)) (error : jsval)
| X_other_error (error : jsval).

Definition requestRefresh (x : post_result) : http_response :=
  match x with
  | X_response status data => HttpResponse status data J_undefined
  | X_other_error error => HttpResponse 0 J_undefined error
  | X_axios_error response error =>
      HttpResponse (default 0 (fst <$> response)) (default J_undefined (snd <$> response)) error
  end.

(** The headers of that request. *)
Definition refresh_headers (expectedSID : option jstr) : list (jstr * jstr) :=
  match expectedSID with
  | Some sid => if non_empty sid then [(js "X-Auth-Session", sid)] else []
  | None => []
  end.

(** The runtime of [runRefresh]. *)
Definition tab_runtime (refreshEpoch : Z) : refresh_runtime tab := {|
  rt_getExpectedSID := sid_of;
  rt_parseBundle := isAuthBundle;
  rt_acceptBundle b t := applyAuthBundle b false t;
  rt_clear synchronizeTabs bootstrapState t :=
    if negb synchronizeTabs && bool_decide (bootstrapState = Some B_idle)
    then with_auth (reset B_idle (t_auth t)) t
    else clearAuthentication synchronizeTabs (default B_complete bootstrapState) t;
  rt_markTransient t := with_auth (setBootstrapState B_idle (t_auth t)) t;
  rt_isCurrent := Some (fun t => t_epoch t =? refreshEpoch);
|}.

(** A run that is done settles the promise. *)
Definition settle (p : refresh_point) : refresh_phase :=
  match p with P_done o => H_settled o | _ => H_run p end.

Definition runRefresh (refreshEpoch : Z) (t : tab) : refresh_phase :=
  settle (run_enter (tab_runtime refreshEpoch) 0 true t).

(** Up to the grant of the lock, if there are locks.  The [catch] handles no
    rejection: the promises are returned, not awaited, and neither call throws. *)
Definition performRefreshWithBrowserLock (refreshEpoch : Z) (t : tab) : refresh_phase :=
  if t_locks t then H_lock else runRefresh refreshEpoch t.

Definition refreshAuthentication (t : tab) : tab :=
  match t_refresh t with
  | Some _ => t
  | None => with_refresh (Some (Refresh (t_epoch t) (performRefreshWithBrowserLock (t_epoch t) t))) t
  end.

(** The continuations of the refresh in flight: the lock is granted, or its
    request is rejected; an await is answered; the [finally] clears the promise. *)
Definition lock_granted (t : tab) : tab :=
  match t_refresh t with
  | Some (Refresh epoch H_lock) => with_refresh (Some (Refresh epoch (runRefresh epoch t))) t
  | _ => t
  end.

Definition lock_rejected (error : jsval) (t : tab) : tab :=
  match t_refresh t with
  | Some (Refresh epoch H_lock) => with_refresh (Some (Refresh epoch (H_rejected error))) t
  | _ => t
  end.

Definition refresh_resume (i : refresh_input) (t : tab) : tab :=
  match t_refresh t with
  | Some (Refresh epoch (H_run p)) =>
      let '(p, t) := resume (tab_runtime epoch) p i t in
      with_refresh (Some (Refresh epoch (settle p))) t
  | _ => t
  end.

Definition refresh_finally (t : tab) : tab :=
  match t_refresh t with
  | Some (Refresh _ (H_settled _)) | Some (Refresh _ (H_rejected _)) => with_refresh None t
  | _ => t
  end.

(** ** Resolving the session *)

(** [Math.floor(Date.now() / 1000)] *)
Definition now_seconds (t : tab) : num := n_floor (n_div (n_of_Z (t_now t)) (n_of_Z 1000)).

Definition falsy_number (x : num) : bool := n_eqb x n_zero || negb (n_eqb x x).

Definition currentValidAuthBundle (t : tab) : option auth_bundle :=
  let auth := t_auth t in
  match as_user auth, as_accessToken auth, as_accessExpiresAt auth, as_session auth with
  | Some user, Some token, Some expires, Some session =>
      if negb (non_empty token) || falsy_number expires || n_leb expires (now_seconds t)
      then None
      else Some (AuthBundle token (js "Bearer") expires user session)
  | _, _, _, _ => None
  end.

(** An asynchronous answer: at once, or that of the refresh in flight. *)
Inductive answer := A_now (o : refresh_outcome) | A_refresh.

Definition resolveAuthentication (t : tab) : answer * tab :=
  match currentValidAuthBundle t with
  | Some bundle =>
      (A_now (O_authenticated bundle),
       emit (F_language (ab_user bundle)) (with_auth (setBootstrapState B_complete (t_auth t)) t))
  | None =>
      let auth := t_auth t in
      let hasStaleSession :=
        match as_user auth, as_session auth with Some _, Some _ => true | _, _ => false end in
      if bool_decide (as_bootstrap auth = B_complete) && negb hasStaleSession
      then (A_now O_anonymous, t)
      else (A_refresh, refreshAuthentication (with_auth (setBootstrapState B_checking auth) t))
  end.

(** *** The hint cookie ([lib/session-hint.ts]) *)
Definition SESSION_HINT_COOKIE_NAME : jstr := js "new_api_has_session".

Fixpoint read_parts (name : jstr) (parts : list jstr) : option jstr :=
  match parts with
  | [] => None
  | part :: parts =>
      match span_while (fun c => negb (c =? 61)) part with
      | (key, _ :: value) =>
          if bool_decide (trim key = name) then Some (trim value) else read_parts name parts
      | (_, []) => read_parts name parts
      end
  end.

Definition readCookie (cookieHeader name : jstr) : option jstr :=
  read_parts name (split_at 59 cookieHeader).

Definition hasSessionHint (t : tab) : bool :=
  match t_cookie t with
  | None => true
  | Some cookie => bool_decide (readCookie cookie SESSION_HINT_COOKIE_NAME <> None)
  end.

Definition bootstrapAuthentication (t : tab) : answer * tab :=
  match currentValidAuthBundle t, hasSessionHint t, as_user (t_auth t), as_session (t_auth t) with
  | None, false, None, None => (A_now O_anonymous, t)
  | _, _, _, _ => resolveAuthentication t
  end.

(** *** Headers *)
Definition getCommonHeaders (locale : jstr) (t : tab) : list (jstr * jstr) :=
  [(js "Content-Type", js "application/json"); (js "Accept-Language", locale)] ++
  match as_accessToken (t_auth t) with
  | Some token => if non_empty token then [(js "Authorization", js "Bearer " ++ token)] else []
  | None => []
  end.

(** The token is usable until after [moment]. *)
Definition token_after (moment : num) (t : tab) : bool :=
  match as_accessToken (t_auth t), as_accessExpiresAt (t_auth t) with
  | Some token, Some expires =>
      non_empty token && negb (falsy_number expires) && n_ltb moment expires
  | _, _ => false
  end.

(** [getFreshAuthHeaders] up to its [await]: the headers, or a refresh. *)
Definition getFreshAuthHeaders (locale : jstr) (t : tab) : option (list (jstr * jstr)) * tab :=
  if token_after (n_add (now_seconds t) (n_of_Z 60)) t then (Some (getCommonHeaders locale t), t)
  else (None, refreshAuthentication t).

Inductive headers_error := HE_request_failed (cause : refresh_error) | HE_session_expired.

(** ... and after it, in the tab of that later moment. *)
Definition freshAuthHeaders_after (locale : jstr) (o : refresh_outcome) (t : tab)
    : result headers_error (list (jstr * jstr)) :=
  match o with
  | O_authenticated _ => Ok (getCommonHeaders locale t)
  | _ =>
      if token_after (now_seconds t) t then Ok (getCommonHeaders locale t)
      else match o with
           | O_transient_error e => Err (HE_request_failed e)
           | _ => Err HE_session_expired
           end
  end.
