(* ===== verification/AuthSessionFacts.v ===== *)
(** * What the login session of a tab guarantees

    The operations of a tab interleaved in any order with the resumptions of the
    refresh in flight, as a labelled step relation: the data of the session stay
    together, a refresh settles within fifteen of its own steps whatever the
    server answers and whatever else the tab does, a refresh that a login or a
    logout has overtaken changes nothing any more, and a sign-out reaches every
    tab of the session. *)
From stdpp Require Import strings.
From S2P Require Import Prelude JsString JsNumber JsNumberFacts JsValue AuthSession.

#[local] Open Scope Z_scope.

(** ** Runs of a tab *)
Inductive label :=
| L_bundle (b : auth_bundle) (synchronizeTabs : bool)
| L_rotation (v : jsval)
| L_clear (synchronizeTabs : bool) (s : bootstrap_state)
| L_clear_client (synchronizeTabs : bool)
| L_user (u : option auth_user)
| L_pending (p : option pending_login)
| L_message (v : jsval)
| L_time (now : Z) (cookie : option jstr)
| L_resolve
| L_bootstrap
| L_headers (locale : jstr)
| L_refresh
| L_granted
| L_rejected (error : jsval)
| L_input (i : refresh_input)
| L_finally.

(** The steps of the refresh itself, up to its settlement. *)
Definition own (l : label) : bool :=
  match l with L_granted | L_rejected _ | L_input _ => true | _ => false end.

(** The label is one the refresh in flight waits for. *)
Definition awaited (t : tab) (l : label) : bool :=
  match rf_phase <$> t_refresh t, l with
  | Some H_lock, (L_granted | L_rejected _) => true
  | Some (H_run (P_request _ _ _)), L_input (I_response _) => true
  | Some (H_run (P_wait _ _ _)), L_input I_timer => true
  | Some (H_settled _ | H_rejected _), L_finally => true
  | _, _ => false
  end.

Definition continue (l : label) (t : tab) : tab :=
  match l with
  | L_granted => lock_granted t
  | L_rejected error => lock_rejected error t
  | L_input i => refresh_resume i t
  | L_finally => refresh_finally t
  | _ => t
  end.

Inductive step : tab -> label -> tab -> Prop :=
| S_bundle t v b sync :
    isAuthBundle v = Some b -> step t (L_bundle b sync) (applyAuthBundle b sync t)
| S_rotation t v t' :
    applyAuthRotation v t = Ok t' -> step t (L_rotation v) t'
| S_clear t sync s : step t (L_clear sync s) (clearAuthentication sync s t)
| S_clear_client t sync : step t (L_clear_client sync) (clearAuthenticatedClientState sync t)
| S_user t u : step t (L_user u) (with_auth (setUser u (t_auth t)) t)
| S_pending t p : step t (L_pending p) (with_auth (setPendingLoginVerification p (t_auth t)) t)
| S_message t v : step t (L_message v) (on_message v t)
| S_time t now cookie : step t (L_time now cookie) (at_time now cookie t)
| S_resolve t : step t L_resolve (resolveAuthentication t).2
| S_bootstrap t : step t L_bootstrap (bootstrapAuthentication t).2
| S_headers t locale : step t (L_headers locale) (getFreshAuthHeaders locale t).2
| S_refresh t : step t L_refresh (refreshAuthentication t)
| S_continue t l : awaited t l = true -> step t l (continue l t).

Inductive steps : tab -> list label -> tab -> Prop :=
| steps_nil t : steps t [] t
| steps_cons t l t1 tr t2 : step t l t1 -> steps t1 tr t2 -> steps t (l :: tr) t2.

Create HintDb auth.
#[export] Hint Constructors step steps : auth.

(** A page that has just been loaded. *)
Definition fresh (t : tab) : Prop := t_auth t = initial_auth /\ t_refresh t = None.

(** ** The data of the session stay together *)
Definition session_ok (a : auth_state) : Prop :=
  match as_accessToken a, as_accessExpiresAt a, as_session a with
  | None, None, None => True
  | Some token, Some expires, Some session =>
      token <> [] /\ is_finite expires = true /\ n_ltb n_zero expires = true /\ ls_sid session <> []
  | _, _, _ => False
  end.

Lemma token_fields_ok v token type expires : hasValidTokenFields v = Some (token, type, expires) ->
  token <> [] /\ is_finite expires = true /\ n_ltb n_zero expires = true.
Proof.
  unfold hasValidTokenFields. intros H. repeat case_match; simplify_eq.
  repeat match goal with H : _ && _ = true |- _ => apply andb_true_iff in H as [? ?] end.
  by rewrite <- non_empty_spec.
Qed.

Lemma session_sid_ok v s : isLoginSession v = Some s -> ls_sid s <> [].
Proof. unfold isLoginSession. intros H. repeat case_match; simplify_eq. by apply non_empty_spec. Qed.

(** The session a valid bundle carries. *)
Definition bundle_ok (b : auth_bundle) : Prop :=
  session_ok (setBundle b initial_auth).

Lemma bundle_valid v b : isAuthBundle v = Some b -> bundle_ok b.
Proof.
  unfold isAuthBundle. intros H. destruct (is_object v); [|done].
  apply bind_Some in H as ([[token type] expires] & Ht & H).
  apply bind_Some in H as (user & _ & H). apply bind_Some in H as (session & Hs & [= <-]).
  apply token_fields_ok in Ht. apply session_sid_ok in Hs. hnf. simpl. tauto.
Qed.

Lemma rotation_valid v r user : isAuthTokenRotation v = Some r ->
  bundle_ok (AuthBundle (tr_access_token r) (tr_token_type r) (tr_access_expires_at r) user
               (tr_session r)).
Proof.
  unfold isAuthTokenRotation. intros H. destruct (is_object v); [|done].
  apply bind_Some in H as ([[token type] expires] & Ht & H). case_bool_decide; [|done].
  apply bind_Some in H as (session & Hs & H). destruct (ls_current session); [|done].
  injection H as <-. apply token_fields_ok in Ht. apply session_sid_ok in Hs. hnf. simpl. tauto.
Qed.

(** What the operations do to the store. *)
Lemma apply_auth b sync t : t_auth (applyAuthBundle b sync t) = setBundle b (t_auth t).
Proof. unfold applyAuthBundle, publishAuthSessionEvent. by repeat case_match. Qed.

Lemma clear_auth sync s t : t_auth (clearAuthentication sync s t) = reset s (t_auth t).
Proof. unfold clearAuthentication, publishAuthSessionEvent. by repeat case_match. Qed.

Lemma client_clear_auth sync t :
  t_auth (clearAuthenticatedClientState sync t) = reset B_complete (t_auth t).
Proof. unfold clearAuthenticatedClientState. by rewrite clear_auth. Qed.

Lemma apply_epoch b sync t : t_epoch (applyAuthBundle b sync t) = t_epoch t + 1.
Proof. unfold applyAuthBundle, publishAuthSessionEvent. by repeat case_match. Qed.

Lemma clear_epoch sync s t : t_epoch (clearAuthentication sync s t) = t_epoch t + 1.
Proof. unfold clearAuthentication, publishAuthSessionEvent. by repeat case_match. Qed.

Lemma refresh_auth t : t_auth (refreshAuthentication t) = t_auth t.
Proof. unfold refreshAuthentication. by case_match. Qed.

(** The store after an operation: what it was, a valid bundle, an empty one, or
    one that differs in nothing about the session. *)
Inductive auth_change : auth_state -> auth_state -> Prop :=
| AC_bundle a b : bundle_ok b -> auth_change a (setBundle b a)
| AC_reset a s : auth_change a (reset s a)
| AC_keep a a' :
    as_accessToken a' = as_accessToken a -> as_accessExpiresAt a' = as_accessExpiresAt a ->
    as_session a' = as_session a -> auth_change a a'.
#[export] Hint Constructors auth_change : auth.

Lemma auth_change_ok a a' : auth_change a a' -> session_ok a -> session_ok a'.
Proof. intros []; [done|done|]. unfold session_ok. by repeat case_match; simplify_eq. Qed.

Lemma message_change v t : auth_change (t_auth t) (t_auth (on_message v t)).
Proof.
  unfold on_message, on_sync_event. repeat case_match; simpl;
    rewrite ?clear_auth, ?client_clear_auth; by constructor.
Qed.

Lemma resolve_change t : auth_change (t_auth t) (t_auth (resolveAuthentication t).2).
Proof.
  unfold resolveAuthentication. repeat case_match; simpl; rewrite ?refresh_auth; by constructor.
Qed.

Lemma response_change epoch race allow r t :
  auth_change (t_auth t) (t_auth (run_response (tab_runtime epoch) race allow r t).2).
Proof.
  unfold run_response. simpl.
  repeat case_match; simpl; rewrite ?apply_auth, ?clear_auth; try by constructor.
  constructor. by eapply bundle_valid.
Qed.

Lemma continue_change l t : auth_change (t_auth t) (t_auth (continue l t)).
Proof.
  destruct l; simpl; try by constructor.
  - unfold lock_granted. repeat case_match; by constructor.
  - unfold lock_rejected. repeat case_match; by constructor.
  - unfold refresh_resume. destruct (t_refresh t) as [[epoch []]|]; try by constructor.
    destruct p, i; simpl; try by constructor.
    pose proof (response_change epoch raceAttempt allowMismatchRetry r t) as H.
    by destruct (run_response _ _ _ _ _).
  - unfold refresh_finally. repeat case_match; by constructor.
Qed.

Lemma step_change t l t' : step t l t' -> auth_change (t_auth t) (t_auth t').
Proof.
  intros [].
  - rewrite apply_auth. constructor. by eapply bundle_valid.
  - revert H. unfold applyAuthRotation. repeat case_match; intros [= <-].
    rewrite apply_auth. constructor. by apply (rotation_valid v).
  - rewrite clear_auth. by constructor.
  - rewrite client_clear_auth. by constructor.
  - by constructor.
  - by constructor.
  - apply message_change.
  - by constructor.
  - apply resolve_change.
  - unfold bootstrapAuthentication. repeat case_match; try apply resolve_change; by constructor.
  - unfold getFreshAuthHeaders. case_match; simpl; rewrite ?refresh_auth; by constructor.
  - rewrite refresh_auth. by constructor.
  - apply continue_change.
Qed.

(** ** The refresh in flight *)

(** Foreign steps, those that are neither the refresh's own nor its end. *)
Definition foreign (l : label) : bool := match l with L_finally => false | _ => negb (own l) end.

(** An operation that looks at the promise only to see whether there is one
    commutes with any change of the refresh in flight. *)
Lemma apply_with_refresh r b sync t :
  applyAuthBundle b sync (with_refresh r t) = with_refresh r (applyAuthBundle b sync t).
Proof. unfold applyAuthBundle, publishAuthSessionEvent, sid_of. simpl. by repeat case_match. Qed.

Lemma clear_with_refresh r sync s t :
  clearAuthentication sync s (with_refresh r t) = with_refresh r (clearAuthentication sync s t).
Proof. unfold clearAuthentication, publishAuthSessionEvent, sid_of. simpl. by repeat case_match. Qed.

Lemma client_clear_with_refresh r sync t :
  clearAuthenticatedClientState sync (with_refresh r t) =
  with_refresh r (clearAuthenticatedClientState sync t).
Proof.
  unfold clearAuthenticatedClientState. by rewrite <- clear_with_refresh.
Qed.

Lemma message_with_refresh r v t : on_message v (with_refresh r t) = with_refresh r (on_message v t).
Proof.
  unfold on_message, on_sync_event, sid_of. simpl.
  repeat case_match; rewrite ?clear_with_refresh, ?client_clear_with_refresh; done.
Qed.

Lemma refresh_joins r t : t_refresh t = Some r -> refreshAuthentication t = t.
Proof. unfold refreshAuthentication. by intros ->. Qed.

Lemma resolve_with_refresh r r' t : t_refresh t = Some r ->
  (resolveAuthentication (with_refresh (Some r') t)).2 =
  with_refresh (Some r') (resolveAuthentication t).2.
Proof.
  intros Hr. unfold resolveAuthentication.
  change (currentValidAuthBundle (with_refresh (Some r') t)) with (currentValidAuthBundle t).
  change (t_auth (with_refresh (Some r') t)) with (t_auth t).
  repeat case_match; try done; cbn [snd].
  all: rewrite (refresh_joins r'), (refresh_joins r) by done; done.
Qed.

Lemma bootstrap_with_refresh r r' t : t_refresh t = Some r ->
  (bootstrapAuthentication (with_refresh (Some r') t)).2 =
  with_refresh (Some r') (bootstrapAuthentication t).2.
Proof.
  intros Hr. unfold bootstrapAuthentication.
  change (currentValidAuthBundle (with_refresh (Some r') t)) with (currentValidAuthBundle t).
  change (hasSessionHint (with_refresh (Some r') t)) with (hasSessionHint t).
  change (t_auth (with_refresh (Some r') t)) with (t_auth t).
  repeat case_match; try done; by eapply resolve_with_refresh.
Qed.

Lemma headers_with_refresh locale r r' t : t_refresh t = Some r ->
  (getFreshAuthHeaders locale (with_refresh (Some r') t)).2 =
  with_refresh (Some r') (getFreshAuthHeaders locale t).2.
Proof.
  intros Hr. unfold getFreshAuthHeaders.
  change (now_seconds (with_refresh (Some r') t)) with (now_seconds t).
  change (token_after ?m (with_refresh (Some r') t)) with (token_after m t).
  case_match; cbn [snd]; [done|]. rewrite (refresh_joins r'), (refresh_joins r) by done. done.
Qed.

Lemma rotation_with_refresh r v t t' : applyAuthRotation v t = Ok t' ->
  applyAuthRotation v (with_refresh r t) = Ok (with_refresh r t').
Proof.
  unfold applyAuthRotation. change (t_auth (with_refresh r t)) with (t_auth t).
  repeat case_match; intros [= <-]. by rewrite apply_with_refresh.
Qed.

Lemma foreign_with_refresh t l t' r r' : step t l t' -> foreign l = true -> t_refresh t = Some r ->
  step (with_refresh (Some r') t) l (with_refresh (Some r') t').
Proof.
  intros H Hl Hr.
  destruct H.
  - rewrite <- apply_with_refresh. by econstructor.
  - constructor. by apply rotation_with_refresh.
  - rewrite <- clear_with_refresh. constructor.
  - rewrite <- client_clear_with_refresh. constructor.
  - apply (S_user (with_refresh (Some r') t)).
  - apply (S_pending (with_refresh (Some r') t)).
  - rewrite <- message_with_refresh. constructor.
  - apply (S_time (with_refresh (Some r') t)).
  - erewrite <- resolve_with_refresh by done. constructor.
  - erewrite <- bootstrap_with_refresh by done. constructor.
  - erewrite <- headers_with_refresh by done. constructor.
  - rewrite (refresh_joins r) by done. rewrite <- (refresh_joins r' (with_refresh _ t)) at 2 by done.
    constructor.
  - revert H Hl. unfold awaited. by destruct (rf_phase <$> t_refresh t) as [[|[]| |]|], l.
Qed.

(** In particular it leaves the refresh alone. *)
Lemma foreign_refresh t l t' r : step t l t' -> foreign l = true -> t_refresh t = Some r ->
  t_refresh t' = Some r.
Proof.
  intros H Hl Hr. pose proof (foreign_with_refresh _ _ _ _ r H Hl Hr) as H'.
  destruct H; simpl in *; try done.
  - unfold applyAuthBundle, publishAuthSessionEvent. by repeat case_match.
  - revert H. unfold applyAuthRotation. repeat case_match; intros [= <-].
    unfold applyAuthBundle, publishAuthSessionEvent. by repeat case_match.
  - unfold clearAuthentication, publishAuthSessionEvent. by repeat case_match.
  - unfold clearAuthenticatedClientState, clearAuthentication, publishAuthSessionEvent.
    by repeat case_match.
  - unfold on_message, on_sync_event, clearAuthenticatedClientState, clearAuthentication.
    by repeat case_match.
  - unfold resolveAuthentication. repeat case_match; simpl; try done; by rewrite (refresh_joins r).
  - unfold bootstrapAuthentication, resolveAuthentication.
    repeat case_match; simpl; try done; by rewrite (refresh_joins r).
  - unfold getFreshAuthHeaders. case_match; simpl; try done; by rewrite (refresh_joins r).
  - by rewrite (refresh_joins r).
  - revert H Hl. unfold awaited. by destruct (rf_phase <$> t_refresh t) as [[|[]| |]|], l.
Qed.

(** *** How long it can take

    The steps a refresh still has before it, each weighted by its kind: [wl] for
    the lock, [wq] for the answer of a request and [ww] for a wait. *)
Section Cost.
Context (wl wq ww : nat).

Definition weight (l : label) : nat :=
  match l with
  | L_granted | L_rejected _ => wl
  | L_input (I_response _) => wq
  | L_input I_timer => ww
  | _ => 0
  end.

Definition request_cost (race : nat) (allow : bool) : nat :=
  (wq * S (3 - race) + ww * (3 - race) + if allow then 4 * wq + 3 * ww else 0)%nat.

Definition point_cost (p : refresh_point) : nat :=
  match p with
  | P_request _ race allow => request_cost race allow
  | P_wait _ race allow => ww + request_cost (race + 1) allow
  | P_done _ => 0
  end.

Definition cost (r : refresh) : nat :=
  match rf_phase r with
  | H_lock => wl + request_cost 0 true
  | H_run p => point_cost p
  | _ => 0
  end.

Definition flight_cost (t : tab) : nat := from_option cost 0%nat (t_refresh t).

Definition trace_weight (tr : list label) : nat := sum_list_with weight tr.

Lemma settle_cost epoch p : cost (Refresh epoch (settle p)) = point_cost p.
Proof. by destruct p. Qed.

Lemma enter_cost epoch race allow t :
  (point_cost (run_enter (tab_runtime epoch) race allow t) <= request_cost race allow)%nat.
Proof. unfold run_enter. case_match; simpl; lia. Qed.

Lemma response_cost epoch race allow r t :
  (wq + point_cost (run_response (tab_runtime epoch) race allow r t).1 <= request_cost race allow)%nat.
Proof.
  assert (wq <= request_cost race allow)%nat as Hpos by (unfold request_cost; nia).
  unfold run_response. simpl. repeat case_match; simpl; try lia.
  all: try (unfold run_enter; case_match; simpl; unfold request_cost; nia).
  all: match goal with H : refreshRaceDelays !! _ = Some _ |- _ =>
         apply lookup_lt_Some in H; simpl in H end; unfold request_cost in *.
  all: replace (3 - race)%nat with (S (3 - (race + 1))) by lia; destruct allow; nia.
Qed.

Lemma request_cost_bound race allow : (request_cost race allow <= 8 * wq + 6 * ww)%nat.
Proof. unfold request_cost. destruct allow; nia. Qed.

Lemma cost_bound r : (cost r <= wl + 8 * wq + 6 * ww)%nat.
Proof.
  unfold cost. destruct (rf_phase r) as [|[sid race allow|delay race allow|o]| |]; simpl; try lia.
  - pose proof (request_cost_bound 0 true). lia.
  - pose proof (request_cost_bound race allow). lia.
  - unfold request_cost.
    assert (3 - (race + 1) <= 2)%nat by lia. destruct allow; nia.
Qed.

(** Every own step brings the settlement closer by its weight. *)
Lemma own_cost t l : awaited t l = true -> own l = true ->
  exists r, t_refresh (continue l t) = Some r /\ (weight l + cost r <= flight_cost t)%nat.
Proof.
  unfold awaited, flight_cost. destruct (t_refresh t) as [[epoch phase]|] eqn:E; [|done].
  destruct phase as [|[sid race allow|delay race allow|o]| |]; intros Ha Ho;
    destruct l as [| | | | | | | | | | | | | |[r|]|]; try done; cbn [continue].
  - unfold lock_granted. rewrite E. eexists; split; [done|]. unfold runRefresh.
    rewrite settle_cost. pose proof (enter_cost epoch 0 true t). cbn [weight from_option cost rf_phase]. lia.
  - unfold lock_rejected. rewrite E. eexists; split; [done|]. cbn [weight from_option cost rf_phase]. lia.
  - unfold refresh_resume. rewrite E. cbn [resume].
    pose proof (response_cost epoch race allow r t) as H.
    destruct (run_response _ _ _ _ _) as [p t'] eqn:Er. eexists; split; [done|].
    by rewrite settle_cost.
  - unfold refresh_resume. rewrite E. cbn [resume]. eexists; split; [done|].
    rewrite settle_cost. pose proof (enter_cost epoch (race + 1) allow t). unfold run_timer.
    cbn [weight from_option cost rf_phase point_cost]. lia.
Qed.

(** A step without [L_finally] is foreign or an awaited own step. *)
Lemma step_cases t l t' : step t l t' -> l <> L_finally ->
  foreign l = true \/ own l = true /\ awaited t l = true /\ t' = continue l t.
Proof.
  intros H Hl. destruct (own l) eqn:E; [right|left; by destruct l].
  by destruct H; simpl in E; simplify_eq.
Qed.

Lemma foreign_weight l : foreign l = true -> weight l = 0%nat.
Proof. by destruct l. Qed.

Lemma own_steps_cost t tr t' : steps t tr t' -> L_finally ∉ tr -> is_Some (t_refresh t) ->
  is_Some (t_refresh t') /\ (trace_weight tr + flight_cost t' <= flight_cost t)%nat.
Proof.
  induction 1 as [|t l t1 tr t2 Hs _ IH]; intros Hf [r Hr]; [split; [by eexists|done]|].
  apply not_elem_of_cons in Hf as [Hl Hf]. unfold trace_weight in *. simpl.
  destruct (step_cases _ _ _ Hs) as [Hfo|(Ho & Ha & ->)]; [done| |].
  - pose proof (foreign_refresh _ _ _ _ Hs Hfo Hr) as Hr1. rewrite foreign_weight by done.
    destruct IH as [HS HC]; [done|by eexists|]. split; [done|].
    etrans; [exact HC|]. unfold flight_cost. by rewrite Hr, Hr1.
  - destruct (own_cost _ _ Ha Ho) as (r1 & Hr1 & Hlt).
    destruct IH as [HS HC]; [done|by eexists|]. split; [done|].
    replace (flight_cost (continue l t)) with (cost r1) in HC by (unfold flight_cost; by rewrite Hr1).
    lia.
Qed.

Lemma flight_bound t : (flight_cost t <= wl + 8 * wq + 6 * ww)%nat.
Proof. unfold flight_cost. destruct (t_refresh t); simpl; [apply cost_bound|lia]. Qed.

End Cost.

(** ** Reachable tabs *)
Definition settled (t : tab) : bool :=
  match rf_phase <$> t_refresh t with Some (H_settled _ | H_rejected _) => true | _ => false end.

Definition suspended (p : refresh_phase) : Prop :=
  match p with H_run (P_done _) => False | _ => True end.

Record tab_ok (t : tab) : Prop := {
  ok_session : session_ok (t_auth t);
  ok_epoch : forall r, t_refresh t = Some r -> rf_epoch r <= t_epoch t;
  ok_phase : forall r, t_refresh t = Some r -> suspended (rf_phase r);
}.

Lemma settle_suspended p : suspended (settle p).
Proof. by destruct p. Qed.

Lemma response_epoch epoch race allow r t :
  t_epoch t <= t_epoch (run_response (tab_runtime epoch) race allow r t).2.
Proof.
  unfold run_response. simpl. repeat case_match; simpl; rewrite ?apply_epoch, ?clear_epoch; lia.
Qed.

Lemma step_epoch t l t' : step t l t' -> t_epoch t <= t_epoch t'.
Proof.
  intros []; rewrite ?apply_epoch, ?clear_epoch; try (simpl; lia).
  - revert H. unfold applyAuthRotation. repeat case_match; intros [= <-]. rewrite apply_epoch. lia.
  - unfold clearAuthenticatedClientState. rewrite clear_epoch. simpl. lia.
  - unfold on_message, on_sync_event, clearAuthenticatedClientState.
    repeat case_match; simpl; rewrite ?clear_epoch; simpl; lia.
  - unfold resolveAuthentication, refreshAuthentication. repeat case_match; simpl; lia.
  - unfold bootstrapAuthentication, resolveAuthentication, refreshAuthentication.
    repeat case_match; simpl; lia.
  - unfold getFreshAuthHeaders, refreshAuthentication. repeat case_match; simpl; lia.
  - unfold refreshAuthentication. repeat case_match; simpl; lia.
  - destruct l0; simpl; try lia; unfold lock_granted, lock_rejected, refresh_finally, refresh_resume.
    1,2,4: by repeat case_match.
    destruct (t_refresh t0) as [[epoch []]|]; try lia. destruct p, i; simpl; try lia.
    pose proof (response_epoch epoch raceAttempt allowMismatchRetry r t0) as H'.
    by destruct (run_response _ _ _ _ _).
Qed.

Lemma refresh_starts t r : t_refresh t = None -> t_refresh (refreshAuthentication t) = Some r ->
  rf_epoch r <= t_epoch (refreshAuthentication t) /\ suspended (rf_phase r).
Proof.
  unfold refreshAuthentication. intros ->. intros [= <-]. split; [simpl; lia|].
  simpl. unfold performRefreshWithBrowserLock, runRefresh. case_match; [done|apply settle_suspended].
Qed.

(** A foreign step leaves the refresh alone or starts one. *)
Lemma foreign_starts t l t' r : step t l t' -> foreign l = true -> t_refresh t' = Some r ->
  t_refresh t = Some r \/ rf_epoch r <= t_epoch t' /\ suspended (rf_phase r).
Proof.
  intros Hs Hl Hr. destruct (t_refresh t) as [r0|] eqn:E.
  { left. rewrite <- Hr. symmetry. by eapply foreign_refresh. }
  right. destruct Hs; try (simpl in Hr; congruence).
  - revert Hr. unfold applyAuthBundle, publishAuthSessionEvent. repeat case_match; simpl; congruence.
  - revert H. unfold applyAuthRotation. repeat case_match; intros [= <-].
    revert Hr. unfold applyAuthBundle, publishAuthSessionEvent. repeat case_match; simpl; congruence.
  - revert Hr. unfold clearAuthentication, publishAuthSessionEvent. repeat case_match; simpl; congruence.
  - revert Hr. unfold clearAuthenticatedClientState, clearAuthentication, publishAuthSessionEvent.
    repeat case_match; simpl; congruence.
  - revert Hr. unfold on_message, on_sync_event, clearAuthenticatedClientState, clearAuthentication.
    repeat case_match; simpl; congruence.
  - revert Hr. unfold resolveAuthentication. repeat case_match; simpl; try congruence.
    all: intros Hr; by apply refresh_starts.
  - revert Hr. unfold bootstrapAuthentication, resolveAuthentication.
    repeat case_match; simpl; try congruence.
    all: intros Hr; by apply refresh_starts.
  - revert Hr. unfold getFreshAuthHeaders. repeat case_match; simpl; try congruence.
    all: intros Hr; by apply refresh_starts.
  - by apply refresh_starts.
  - revert H. unfold awaited. by rewrite E.
Qed.

Lemma continue_refresh t l r : awaited t l = true -> t_refresh (continue l t) = Some r ->
  (exists r0, t_refresh t = Some r0 /\ rf_epoch r = rf_epoch r0) /\ suspended (rf_phase r).
Proof.
  unfold awaited. destruct (t_refresh t) as [[epoch phase]|] eqn:E; [|done].
  destruct phase as [|[sid race allow|delay race allow|o]| |]; intros Ha;
    destruct l as [| | | | | | | | | | | | | |[x|]|]; try done; cbn [continue];
    unfold lock_granted, lock_rejected, refresh_resume, refresh_finally; rewrite E; cbn [resume].
  3: destruct (run_response _ _ _ _ _).
  all: cbn [t_refresh with_refresh]; try discriminate.
  all: intros [= <-]; split; [by eexists|]; try done; apply settle_suspended.
Qed.

Lemma step_ok t l t' : step t l t' -> tab_ok t -> tab_ok t'.
Proof.
  intros Hs [H1 H2 H3]. pose proof (step_epoch _ _ _ Hs) as He. split.
  - by eapply auth_change_ok, H1; eapply step_change.
  - intros r Hr. destruct (foreign l) eqn:Ef.
    + destruct (foreign_starts _ _ _ _ Hs Ef Hr) as [Hr0|[? _]]; [|done].
      specialize (H2 _ Hr0). lia.
    + destruct Hs; try done.
      destruct (continue_refresh _ _ _ H Hr) as [(r0 & Hr0 & ->) _]. specialize (H2 _ Hr0). lia.
  - intros r Hr. destruct (foreign l) eqn:Ef.
    + destruct (foreign_starts _ _ _ _ Hs Ef Hr) as [Hr0|[_ ?]]; [|done]. by apply H3.
    + destruct Hs; try done. by eapply continue_refresh.
Qed.

Lemma fresh_ok t : fresh t -> tab_ok t.
Proof. intros [Ha Hr]. split; [by rewrite Ha|intros r; by rewrite Hr..]. Qed.

Lemma steps_ok t tr t' : steps t tr t' -> tab_ok t -> tab_ok t'.
Proof. induction 1; eauto using step_ok. Qed.

Lemma unsettled_awaits t : tab_ok t -> is_Some (t_refresh t) -> settled t = false ->
  awaited t L_granted = true \/ (forall r, awaited t (L_input (I_response r)) = true) \/
  awaited t (L_input I_timer) = true.
Proof.
  intros Hok [[epoch phase] E]. pose proof (ok_phase _ Hok _ E) as Hp.
  unfold settled, awaited. rewrite E. simpl in *.
  destruct phase as [|[]| |]; intros; try done; eauto.
Qed.

(** ** A refresh that was overtaken *)

(** A login, a rotation or a logout has happened since the refresh began. *)
Definition overtaken (t : tab) : Prop := exists r, t_refresh t = Some r /\ rf_epoch r < t_epoch t.

(** The refresh had this outcome before, or ends as superseded. *)
Definition ends_superseded (t t' : tab) : Prop := forall o,
  rf_phase <$> t_refresh t' = Some (H_settled o) ->
  rf_phase <$> t_refresh t = Some (H_settled o) \/ o = superseded.

Lemma overtaken_current epoch (t : tab) : epoch < t_epoch t -> current (tab_runtime epoch) t = false.
Proof. intros. unfold current. simpl. lia. Qed.

Lemma overtaken_own t l : overtaken t -> awaited t l = true -> own l = true ->
  exists r, rf_epoch <$> t_refresh t = Some (rf_epoch r) /\
    continue l t = with_refresh (Some r) t /\ forall o, rf_phase r = H_settled o -> o = superseded.
Proof.
  intros ([epoch phase] & E & He). simpl in He. unfold awaited. rewrite E. simpl.
  pose proof (overtaken_current _ _ He) as Hc.
  destruct phase as [|[sid race allow|delay race allow|o]| |]; intros Ha Ho;
    destruct l as [| | | | | | | | | | | | | |[x|]|]; try done; cbn [continue];
    unfold lock_granted, lock_rejected, refresh_resume; rewrite E; cbn [resume].
  - exists (Refresh epoch (runRefresh epoch t)). split_and!; [done..|].
    unfold runRefresh, run_enter. rewrite Hc. by intros o [= <-].
  - by exists (Refresh epoch (H_rejected error)).
  - exists (Refresh epoch (H_settled superseded)). unfold run_response. rewrite Hc.
    split_and!; [done..|]. by intros o [= <-].
  - exists (Refresh epoch (H_settled superseded)). unfold run_timer, run_enter. rewrite Hc.
    split_and!; [done..|]. by intros o [= <-].
Qed.

Lemma with_refresh_id t r : t_refresh t = Some r -> with_refresh (Some r) t = t.
Proof. destruct t. simpl. by intros ->. Qed.

Lemma overtaken_steps t tr t' r' : overtaken t -> steps t tr t' -> L_finally ∉ tr ->
  steps (with_refresh (Some r') t) (List.filter (fun l => negb (own l)) tr)
    (with_refresh (Some r') t') /\ ends_superseded t t'.
Proof.
  intros Ho Hs. induction Hs as [|t l t1 tr t2 Hs _ IH]; intros Hf.
  { split; [constructor|]. intros o. by left. }
  apply not_elem_of_cons in Hf as [Hl Hf]. simpl. pose proof Ho as (r & Hr & He).
  destruct (step_cases _ _ _ Hs) as [Hfo|(Hown & Ha & ->)]; [done| |].
  - pose proof (foreign_refresh _ _ _ _ Hs Hfo Hr) as Hr1.
    destruct IH as [IH1 IH2]; [|done|].
    { exists r. split; [done|]. pose proof (step_epoch _ _ _ Hs). lia. }
    assert (negb (own l) = true) as -> by (by destruct l).
    split; [|intros o Hx; destruct (IH2 o Hx) as [H|H]; [left; congruence|by right]].
    econstructor; [by eapply foreign_with_refresh|done].
  - destruct (overtaken_own _ _ Ho Ha Hown) as (r1 & Hr1 & Ht1 & Hsup). rewrite Ht1 in *.
    rewrite Hr in Hr1. injection Hr1 as Hr1.
    destruct IH as [IH1 IH2]; [|done|].
    { exists r1. split; [done|]. simpl. lia. }
    rewrite Hown. simpl. split; [exact IH1|].
    intros o Hx. destruct (IH2 o Hx) as [H|H]; right; [|done].
    apply Hsup. simpl in H. by injection H.
Qed.

(** ** Theorems *)

(** C17: The token, its expiry and the session of a tab are present together or
    absent together in every state the tab can reach, and when present they are
    usable; an authenticated answer therefore names the session of the store. *)
Theorem session_stays_together t0 tr t :
  fresh t0 -> steps t0 tr t -> session_ok (t_auth t).
Proof. intros Hf Hs. by eapply ok_session, steps_ok, fresh_ok. Qed.

(** C15: A refresh settles: whatever the server answers and however its awaits
    interleave with the other operations of the tab, it waits for the lock at
    most once, sends at most eight requests and waits at most six times; until it
    has settled it always awaits something, and takes any answer. *)
Theorem refresh_settles t0 tr0 t tr t' :
  fresh t0 -> steps t0 tr0 t -> is_Some (t_refresh t) -> steps t tr t' -> L_finally ∉ tr ->
  (trace_weight 1 0 0 tr <= 1)%nat /\ (trace_weight 0 1 0 tr <= 8)%nat /\
  (trace_weight 0 0 1 tr <= 6)%nat /\
  (settled t' = true \/
   awaited t' L_granted = true \/ (forall r, awaited t' (L_input (I_response r)) = true) \/
   awaited t' (L_input I_timer) = true).
Proof.
  intros Hf Hs0 Hr Hs Hn.
  assert (forall wl wq ww, (trace_weight wl wq ww tr <= wl + 8 * wq + 6 * ww)%nat) as Hb.
  { intros wl wq ww. destruct (own_steps_cost wl wq ww _ _ _ Hs Hn Hr) as [_ H].
    pose proof (flight_bound wl wq ww t). lia. }
  split_and!; [etrans; [apply Hb|lia]..|].
  destruct (settled t') eqn:E; [by left|right].
  apply unsettled_awaits; [|by destruct (own_steps_cost 0 0 0 _ _ _ Hs Hn Hr)|done].
  eapply steps_ok, steps_ok, fresh_ok; eauto.
Qed.

(** C16: A refresh that a login, a rotation or a logout has overtaken is inert: the
    tab is what its other operations alone make of it, the refresh itself apart,
    so its answers can neither restore a session that was ended nor replace one
    that was begun; and it ends as superseded. *)
Theorem overtaken_refresh_inert t tr t' :
  overtaken t -> steps t tr t' -> L_finally ∉ tr ->
  exists u, steps t (List.filter (fun l => negb (own l)) tr) u /\
    with_refresh None t' = with_refresh None u /\ ends_superseded t t'.
Proof.
  intros Ho Hs Hf. pose proof Ho as (r & Hr & _).
  destruct (overtaken_steps _ _ _ r Ho Hs Hf) as [H1 H2].
  rewrite with_refresh_id in H1 by done. by eexists.
Qed.

(** *** Tabs of one session *)

(** What a sign-out of the tab announces. *)
Definition sign_out_event (t : tab) (sid : jstr) : sync_event :=
  SyncEvent K_signed_out sid (t_source t) (t_nonces t (t_posted t)) (n_of_Z (t_now t)).

(** The event reaches the tab less than a minute after it was made. *)
Definition in_time (e : sync_event) (t : tab) : Prop :=
  n_ltb (n_abs (n_sub (n_of_Z (t_now t)) (se_timestamp e))) (n_of_Z 60000) = true.

Lemma event_roundtrip e : se_sid e <> [] -> isAuthSessionSyncEvent (event_value e) = Some e.
Proof.
  intros H. destruct e as [[] sid source nonce ts]; simpl in *;
    (destruct sid; [done|]); reflexivity.
Qed.

Lemma event_delivered e t : se_sid e <> [] -> se_source e <> t_source t -> in_time e t ->
  on_message (event_value e) t = on_sync_event e t.
Proof.
  intros He Hs Ht. unfold on_message, deliver. rewrite event_roundtrip by done. simpl.
  rewrite bool_decide_eq_false_2 by done. by rewrite Ht.
Qed.

Lemma sign_out_posts t sid : sid_of t = Some sid -> sid <> [] ->
  t_effects (clearAuthentication true B_complete t) = t_effects t ++ [F_post (sign_out_event t sid)] /\
  sid_of (clearAuthentication true B_complete t) = None.
Proof.
  intros Hs Hn. split; [|unfold sid_of; by rewrite clear_auth].
  unfold clearAuthentication, publishAuthSessionEvent. rewrite Hs.
  by rewrite (proj2 (non_empty_spec sid)).
Qed.

(** The tab [u] after it got the event. *)
Definition signed_out_by (sid : jstr) (u u' : tab) : Prop :=
  if bool_decide (sid_of u = Some sid) then
    t_auth u' = reset B_complete (t_auth u) /\ t_epoch u' = t_epoch u + 1 /\
    t_effects u' = t_effects u ++ [F_clear_queries; F_sign_in]
  else u' = u.

Lemma signed_out_tab sid u e : se_kind e = K_signed_out -> se_sid e = sid -> sid <> [] ->
  signed_out_by sid u (on_sync_event e u).
Proof.
  intros Hk He Hs. unfold signed_out_by, on_sync_event. rewrite Hk.
  case_bool_decide as Hsid.
  - rewrite Hsid, He, (proj2 (non_empty_spec sid)) by done.
    rewrite bool_decide_eq_true_2 by done. simpl.
    unfold clearAuthenticatedClientState, clearAuthentication, sid_of. simpl.
    destruct (ls_sid <$> as_session (t_auth u)); simpl; by rewrite <- app_assoc.
  - destruct (sid_of u) as [sid'|]; [|done].
    rewrite (bool_decide_eq_false_2 (se_sid e = sid')) by congruence. by rewrite andb_false_r.
Qed.

Lemma signed_out_sid sid u u' : signed_out_by sid u u' -> sid_of u' <> Some sid.
Proof.
  unfold signed_out_by. case_bool_decide; [|by intros ->].
  intros (Ha & _ & _). unfold sid_of. by rewrite Ha.
Qed.

(** C38: A sign-out reaches every tab: the tab posts one message, every other tab that
    gets it within a minute and holds the same session drops the session and its
    cached queries, overtakes its own refresh and goes to the sign-in page, tabs
    of other sessions do not change, and no tab holds the session any more. *)
Theorem sign_out_reaches_tabs t sid others :
  sid_of t = Some sid -> sid <> [] ->
  Forall (fun u => t_source u <> t_source t /\ in_time (sign_out_event t sid) u) others ->
  exists e, t_effects (clearAuthentication true B_complete t) = t_effects t ++ [F_post e] /\
    Forall2 (signed_out_by sid) others (map (on_message (event_value e)) others) /\
    Forall (fun u => sid_of u <> Some sid)
      (clearAuthentication true B_complete t :: map (on_message (event_value e)) others).
Proof.
  intros Hs Hn Ho. exists (sign_out_event t sid).
  destruct (sign_out_posts _ _ Hs Hn) as [H1 H2].
  assert (Forall2 (signed_out_by sid) others
            (map (on_message (event_value (sign_out_event t sid))) others)) as H3.
  { clear H1 H2. induction Ho as [|u us [Hu Ht] _ IH]; constructor; [|done].
    rewrite event_delivered; [by apply signed_out_tab|done|by apply not_eq_sym|done]. }
  split_and!; [done..|]. constructor; [congruence|].
  induction H3; constructor; [by eapply signed_out_sid|].
  apply IHForall2. by inversion Ho.
Qed.

(** *** The visitor without a hint *)

(** The boot path skips the refresh of a fresh page whose cookies carry no hint
    and records no verdict, so that resolving the session later still asks the
    server: with its bundle the visitor is signed in. *)
Theorem hintless_visit_recovers t cookie r b :
  fresh t -> t_cookie t = Some cookie -> readCookie cookie SESSION_HINT_COOKIE_NAME = None ->
  isAuthBundle (field (hr_data r) "data") = Some b ->
  field (hr_data r) "success" = J_bool true ->
  bootstrapAuthentication t = (A_now O_anonymous, t) /\
  (resolveAuthentication t).1 = A_refresh /\
  let t' := refresh_resume (I_response r) (lock_granted (resolveAuthentication t).2) in
  rf_phase <$> t_refresh t' = Some (H_settled (O_authenticated b)) /\
  t_auth t' = setBundle b (t_auth t).
Proof.
  intros [Ha Hr] Hc Hh Hb Hd. destruct t as [src locks nonces posted now ck auth ep rf eff].
  simpl in *. subst. split; [|split; [done|]].
  - unfold bootstrapAuthentication, hasSessionHint. simpl. by rewrite Hh.
  - unfold resolveAuthentication, refreshAuthentication, performRefreshWithBrowserLock,
      lock_granted, runRefresh, run_enter, current. simpl.
    destruct locks; simpl; rewrite Z.eqb_refl; unfold refresh_resume, resume, run_response, current;
      simpl; rewrite Z.eqb_refl, Hb, Hd; done.
Qed.

(** Rotated tokens are those of the session and the user of the store: nothing is
    announced to other tabs, and a refresh in flight is overtaken. *)
Lemma rotation_keeps_session v t t' : applyAuthRotation v t = Ok t' ->
  sid_of t' = sid_of t /\ as_user (t_auth t') = as_user (t_auth t) /\ t_epoch t' = t_epoch t + 1 /\
  exists u, t_effects t' = t_effects t ++ [F_language u].
Proof.
  unfold applyAuthRotation. destruct (isAuthTokenRotation v) as [r|]; [|done].
  destruct (as_user (t_auth t)) as [user|] eqn:Eu; [|done].
  destruct (as_session (t_auth t)) as [session|] eqn:Es; [|done].
  case_bool_decide as Hs; [|done]. intros [= <-]. rewrite apply_epoch. unfold sid_of.
  rewrite apply_auth, Es. simpl. rewrite Hs. split_and!; try done. by eexists.
Qed.

(** A rejected lock request is not turned into an outcome: the promise of the
    refresh rejects and the session stays in the state of a check. *)
Lemma lock_rejection_unhandled t error : fresh t -> t_locks t = true ->
  let t' := lock_rejected error (resolveAuthentication t).2 in
  rf_phase <$> t_refresh t' = Some (H_rejected error) /\ as_bootstrap (t_auth t') = B_checking.
Proof.
  intros [Ha Hr] Hl. destruct t. simpl in *. subst. done.
Qed.

(** ** Concrete runs *)
Module Samples.
Definition user_value : jsval :=
  J_obj [(js "id", J_num (n_of_Z 7)); (js "username", J_str (js "ada")); (js "role", J_num n_one)].

Definition session_value (sid : string) : jsval :=
  J_obj [(js "sid", J_str (js sid)); (js "current", J_bool true);
         (js "login_method", J_str (js "password")); (js "ip", J_str (js "127.0.0.1"));
         (js "user_agent", J_str (js "test")); (js "created_at", J_num n_one);
         (js "last_active_at", J_num n_one); (js "expires_at", J_num (n_of_Z 2000))].

Definition bundle_value (sid : string) : jsval :=
  J_obj [(js "access_token", J_str (js "token")); (js "token_type", J_str (js "Bearer"));
         (js "access_expires_at", J_num (n_of_Z 1000)); (js "user", user_value);
         (js "session", session_value sid)].

Definition the_bundle (sid : string) : auth_bundle :=
  AuthBundle (js "token") (js "Bearer") (n_of_Z 1000)
    (AuthUser (n_of_Z 7) (js "ada") n_one user_value)
    (LoginSession (js sid) true (js "password") (js "127.0.0.1") (js "test") n_one n_one (n_of_Z 2000)).

Definition page (source cookie : string) : tab :=
  Tab (js source) false (fun n => [Z.of_nat n]) 0 5000 (Some (js cookie)) initial_auth 0 None [].

Definition response (status : Z) (props : list (string * jsval)) : http_response :=
  HttpResponse status (J_obj (map (fun p => (js p.1, p.2)) props)) J_undefined.

Definition ok_response : http_response :=
  response 200 [("success", J_bool true); ("data", bundle_value "s1")].

Definition race_response : http_response := response 409 [("code", J_str (js "AUTH_REFRESH_RACE"))].

Definition signed_in (source : string) : tab := applyAuthBundle (the_bundle "s1") false (page source "").

(** A refresh begun on a fresh page. *)
Definition checking : tab := (resolveAuthentication (page "a" "")).2.

Lemma checking_reached : steps (page "a" "") [L_resolve] checking.
Proof. econstructor; [constructor|constructor]. Qed.

(** ... answered with a race, while the user signs in. *)
Definition raced : tab := refresh_resume (I_response race_response) checking.
Definition overtaken_tab : tab := applyAuthBundle (the_bundle "s2") true raced.

Lemma raced_reached : steps checking [L_input (I_response race_response)] raced.
Proof. econstructor; [|constructor]. apply (S_continue _ (L_input _)). reflexivity. Qed.

Lemma session_stays_together_witness : session_ok (t_auth checking).
Proof. apply (session_stays_together (page "a" "") [L_resolve]); [done|exact checking_reached]. Defined.

Lemma refresh_settles_witness :
  rf_phase <$> t_refresh raced = Some (H_run (P_wait 80 0 true)) /\
  (trace_weight 0 1 0 [L_input (I_response race_response)] <= 8)%nat.
Proof.
  split; [reflexivity|].
  apply (refresh_settles (page "a" "") [L_resolve] checking _ raced); [done|exact checking_reached| |exact raced_reached|].
  - by eexists.
  - by rewrite list_elem_of_singleton.
Defined.

Lemma overtaken_refresh_inert_witness :
  exists u, steps overtaken_tab [] u /\
    with_refresh None (refresh_resume I_timer overtaken_tab) = with_refresh None u /\
    ends_superseded overtaken_tab (refresh_resume I_timer overtaken_tab).
Proof.
  apply (overtaken_refresh_inert overtaken_tab [L_input I_timer]).
  - eexists. split; [reflexivity|]. reflexivity.
  - econstructor; [|constructor]. apply (S_continue _ (L_input I_timer)). reflexivity.
  - by rewrite list_elem_of_singleton.
Defined.

Lemma sign_out_reaches_tabs_witness :
  exists e, t_effects (clearAuthentication true B_complete (signed_in "a")) =
      t_effects (signed_in "a") ++ [F_post e] /\
    Forall2 (signed_out_by (js "s1")) [signed_in "b"; page "c" ""]
      (map (on_message (event_value e)) [signed_in "b"; page "c" ""]) /\
    Forall (fun u => sid_of u <> Some (js "s1"))
      (clearAuthentication true B_complete (signed_in "a") ::
       map (on_message (event_value e)) [signed_in "b"; page "c" ""]).
Proof.
  apply (sign_out_reaches_tabs (signed_in "a") (js "s1") [signed_in "b"; page "c" ""]);
    [reflexivity|discriminate|].
  repeat constructor; try discriminate; vm_compute; reflexivity.
Defined.

Lemma hintless_visit_recovers_witness :
  bootstrapAuthentication (page "a" "x=1; theme=dark") = (A_now O_anonymous, page "a" "x=1; theme=dark") /\
  (resolveAuthentication (page "a" "x=1; theme=dark")).1 = A_refresh /\
  let t' := refresh_resume (I_response ok_response)
              (lock_granted (resolveAuthentication (page "a" "x=1; theme=dark")).2) in
  rf_phase <$> t_refresh t' = Some (H_settled (O_authenticated (the_bundle "s1"))) /\
  t_auth t' = setBundle (the_bundle "s1") initial_auth.
Proof.
  apply (hintless_visit_recovers (page "a" "x=1; theme=dark") (js "x=1; theme=dark"));
    [done|reflexivity|vm_compute; reflexivity..].
Defined.
End Samples.
