(* ===== verification/HttpClient.v ===== *)
(** * The HTTP client's authorization

    The interceptors of [lib/http-client.ts]: the headers a request is sent with,
    the refresh and the single repetition after a 401, requests whose
    authorization may be spent only once, rotations of the tokens in answers, and
    the sharing of identical GET requests; and [executeLogout] of
    [features/auth/api.ts].

    A call is a machine whose states are its suspension points; the tab it runs in
    may be any tab at each of them. *)
From stdpp Require Import strings.
From S2P Require Import Prelude JsString JsNumber JsValue JsonText AuthSession.

#[local] Open Scope Z_scope.

(** ** Calls *)
Record request_config := RequestConfig {
  rc_url : jstr;
  rc_headers : list (jstr * jstr);
  rc_skipErrorHandler : bool;
  rc_skipAuthRefresh : bool;
  rc_authRetry : bool;
  rc_acceptAuthRotation : bool;
  rc_singleUseAuthorization : bool;
}.

Definition with_headers (hs : list (jstr * jstr)) (c : request_config) : request_config :=
  RequestConfig (rc_url c) hs (rc_skipErrorHandler c) (rc_skipAuthRefresh c) (rc_authRetry c)
    (rc_acceptAuthRotation c) (rc_singleUseAuthorization c).

Definition skipping_refresh (c : request_config) : request_config :=
  RequestConfig (rc_url c) (rc_headers c) (rc_skipErrorHandler c) true (rc_authRetry c)
    (rc_acceptAuthRotation c) (rc_singleUseAuthorization c).

Definition retrying (c : request_config) : request_config :=
  RequestConfig (rc_url c) (rc_headers c) (rc_skipErrorHandler c) (rc_skipAuthRefresh c) true
    (rc_acceptAuthRotation c) (rc_singleUseAuthorization c).

(** A proof or a flow is spent by the request; axios finds a header whatever the
    case of its name. *)
Definition proof_header (header : jstr * jstr) : bool :=
  bool_decide (map ascii_lower header.1 = map ascii_lower (js "X-Security-Proof")).

Definition single_use (c : request_config) : bool := rc_singleUseAuthorization c || existsb proof_header (rc_headers c).

Inductive call_error :=
| E_status (status : Z)                 (* the answer's error, thrown on *)
| E_rotation (e : rotation_error)
| E_headers (e : headers_error)
| E_rejected (error : jsval).           (* the refresh itself was rejected *)

Inductive call_point :=
| C_headers (c : request_config)        (* awaits the refresh for fresh headers *)
| C_sent (c : request_config)           (* awaits the answer *)
| C_refresh (c : request_config) (status : Z)  (* awaits the refresh after a 401 *)
| C_ok (data : jsval)
| C_failed (e : call_error).

(** What the user sees of a failing call. *)
Inductive notice := N_session_expired | N_sign_in_page.

Record call := Call {
  cl_point : call_point;
  cl_sent : list request_config;        (* what went on the wire, in order *)
  cl_notices : list notice;
}.

Definition set_all (hs headers : list (jstr * jstr)) : list (jstr * jstr) :=
  foldl (fun acc h => obj_set h.1 h.2 acc) headers hs.

Definition send (c : request_config) (cl : call) : call :=
  Call (C_sent c) (cl_sent cl ++ [c]) (cl_notices cl).

Definition fail_with (e : call_error) (ns : list notice) (cl : call) : call :=
  Call (C_failed e) (cl_sent cl) (cl_notices cl ++ ns).

(** [headers.Authorization = `Bearer ${token}`] when there is a token *)
Definition authorize (t : tab) (hs : list (jstr * jstr)) : list (jstr * jstr) :=
  match as_accessToken (t_auth t) with
  | Some token =>
      if non_empty token then obj_set (js "Authorization") (js "Bearer " ++ token) hs else hs
  | None => hs
  end.

(** The request interceptor. *)
Definition on_request (locale : jstr) (c : request_config) (t : tab) (cl : call) : call * tab :=
  if single_use c then
    let c := skipping_refresh c in
    match getFreshAuthHeaders locale t with
    | (Some hs, t) => (send (with_headers (set_all hs (rc_headers c)) c) cl, t)
    | (None, t) => (Call (C_headers c) (cl_sent cl) (cl_notices cl), t)
    end
  else
    (send (with_headers (obj_set (js "Accept-Language") locale (authorize t (rc_headers c))) c) cl, t).

(** ... after the refresh it waited for. *)
Definition on_headers (locale : jstr) (c : request_config) (o : refresh_outcome) (t : tab)
    (cl : call) : call :=
  match freshAuthHeaders_after locale o t with
  | Ok hs => send (with_headers (set_all hs (rc_headers c)) c) cl
  | Err e => fail_with (E_headers e) [] cl
  end.

Definition unless_skipped (c : request_config) (ns : list notice) : list notice :=
  if rc_skipErrorHandler c then [] else ns.

(** The response interceptor for an answer. *)
Definition on_success (c : request_config) (data : jsval) (t : tab) (cl : call) : call * tab :=
  if rc_acceptAuthRotation c && strict_equal (field data "success") (J_bool true) then
    match applyAuthRotation (field data "data") t with
    | Ok t => (Call (C_ok data) (cl_sent cl) (cl_notices cl), t)
    | Err e => (fail_with (E_rotation e) [] cl, t)
    end
  else (Call (C_ok data) (cl_sent cl) (cl_notices cl), t).

(** ... and for an error, up to its refresh. *)
Definition on_error (c : request_config) (status : Z) (t : tab) (cl : call) : call * tab :=
  if status =? 401 then
    if negb (rc_skipAuthRefresh c) && negb (rc_authRetry c) then
      (Call (C_refresh (retrying c) status) (cl_sent cl) (cl_notices cl), refreshAuthentication t)
    else if rc_authRetry c then
      (fail_with (E_status status)
         (unless_skipped c [N_session_expired] ++ [N_sign_in_page]) cl,
       clearAuthentication false B_complete t)
    else (fail_with (E_status status) (unless_skipped c [N_session_expired]) cl, t)
  else (fail_with (E_status status) [] cl, t).

(** ... and after it. *)
Definition on_refreshed (locale : jstr) (c : request_config) (status : Z) (o : refresh_outcome)
    (t : tab) (cl : call) : call * tab :=
  match o with
  | O_authenticated _ => on_request locale (with_headers (authorize t (rc_headers c)) c) t cl
  | O_anonymous | O_out_of_sync _ =>
      (fail_with (E_status status)
         (unless_skipped c [N_session_expired] ++ [N_sign_in_page]) cl, t)
  | O_transient_error _ => (fail_with (E_status status) [] cl, t)
  end.

(** What a call may be resumed with: an answer of the server (an error has the
    status 401 or another), or the outcome or rejection of the refresh it waits
    for. *)
Inductive call_input :=
| V_data (data : jsval)
| V_error (status : Z)
| V_refreshed (o : refresh_outcome)
| V_rejected (error : jsval).

Definition call_step (locale : jstr) (i : call_input) (t : tab) (cl : call) : call * tab :=
  match cl_point cl, i with
  | C_headers c, V_refreshed o => (on_headers locale c o t cl, t)
  | C_sent c, V_data data => on_success c data t cl
  | C_sent c, V_error status => on_error c status t cl
  | C_refresh c status, V_refreshed o => on_refreshed locale c status o t cl
  | C_headers _, V_rejected error | C_refresh _ _, V_rejected error =>
      (fail_with (E_rejected error) [] cl, t)
  | _, _ => (cl, t)
  end.

Definition begin_call (locale : jstr) (c : request_config) (t : tab) : call * tab :=
  on_request locale c t (Call (C_sent c) [] []).

(** A run: at every resumption, the tab of that moment. *)
Fixpoint run_call (locale : jstr) (inputs : list (call_input * tab)) (cl : call) : call :=
  match inputs with
  | [] => cl
  | (i, t) :: inputs => run_call locale inputs (call_step locale i t cl).1
  end.

(** ** Sharing GET requests *)

(** The key of a request: session, URL and parameters ([params] is the text of
    [JSON.stringify], absent without parameters). *)
Definition get_key (t : tab) (url : jstr) (params : option jstr) : jstr :=
  let sid := default [] (sid_of t) in
  (if non_empty sid then sid else js "anonymous") ++ js ":" ++ url ++ js "?" ++
  default (js "{}") params.

(** [inFlightGet], with the identity of the request a key stands for. *)
Record get_state := GetState {
  gs_inflight : gmap jstr nat;
  gs_next : nat;                         (* requests made so far *)
}.

Definition api_get (disableDuplicate : bool) (key : jstr) (g : get_state) : nat * get_state :=
  if disableDuplicate then (gs_next g, GetState (gs_inflight g) (S (gs_next g)))
  else match gs_inflight g !! key with
       | Some request => (request, g)
       | None => (gs_next g, GetState (<[key := gs_next g]> (gs_inflight g)) (S (gs_next g)))
       end.

(** The [finally] of a shared request. *)
Definition get_finally (key : jstr) (g : get_state) : get_state :=
  GetState (delete key (gs_inflight g)) (gs_next g).

(** ** Logging out *)

(** An error of the logout request: its status and the code of its body, for an
    Axios error with an answer. *)
Inductive logout_point :=
| G_request (sid : option jstr) (allowMismatchRecovery : bool)
| G_refresh (error : Z * option jstr)
| G_done (response : jsval)
| G_failed (error : option (Z * option jstr)).

Inductive logout_input :=
| W_response (data : jsval)
| W_error (error : option (Z * option jstr))
| W_refreshed (o : refresh_outcome).

Definition executeLogout (allowMismatchRecovery : bool) (t : tab) : logout_point :=
  G_request (sid_of t) allowMismatchRecovery.

Definition logout_step (p : logout_point) (i : logout_input) (t : tab) : logout_point * tab :=
  match p, i with
  | G_request _ _, W_response data => (G_done data, t)
  | G_request _ allow, W_error error =>
      match error with
      | Some (status, code) =>
          if allow && (status =? 409) && bool_decide (code = Some (js "AUTH_SESSION_MISMATCH"))
          then (G_refresh (status, code), refreshAuthentication t)
          else (G_failed error, t)
      | None => (G_failed error, t)
      end
  | G_refresh error, W_refreshed o =>
      match o with
      | O_authenticated _ => (executeLogout false t, t)
      | O_anonymous => (G_done (J_obj [(js "success", J_bool true); (js "message", J_str [])]), t)
      | _ => (G_failed (Some error), t)
      end
  | _, _ => (p, t)
  end.

Fixpoint run_logout (inputs : list (logout_input * tab)) (p : logout_point) : logout_point :=
  match inputs with
  | [] => p
  | (i, t) :: inputs => run_logout inputs (logout_step p i t).1
  end.

(** ** Theorems *)

(** *** How often a call is sent *)
Definition sends_left (p : call_point) : nat :=
  match p with
  | C_headers _ => 1
  | C_sent c => if negb (rc_skipAuthRefresh c) && negb (rc_authRetry c) then 1 else 0
  | C_refresh _ _ => 1
  | _ => 0
  end.

(** The configuration a call holds, and what it promises about repetition. *)
Definition held (p : call_point) : option request_config :=
  match p with C_headers c | C_sent c | C_refresh c _ => Some c | _ => None end.

Definition call_inv (cl : call) : Prop :=
  match cl_point cl with
  | C_headers c => rc_skipAuthRefresh c = true
  | C_refresh c _ => rc_authRetry c = true
  | _ => True
  end.

Definition send_budget (cl : call) : nat := (length (cl_sent cl) + sends_left (cl_point cl))%nat.

Lemma fresh_headers_tab locale c t cl :
  single_use c = true ->
  call_inv (on_request locale c t cl).1 /\ send_budget (on_request locale c t cl).1 = S (length (cl_sent cl)).
Proof.
  intros H. unfold on_request. rewrite H. unfold getFreshAuthHeaders. destruct (token_after _ t); simpl.
  - split; [done|]. unfold send_budget. simpl. rewrite length_app. simpl. lia.
  - split; [done|]. unfold send_budget. simpl. lia.
Qed.

Lemma request_budget locale c t cl : let cl' := (on_request locale c t cl).1 in
  call_inv cl' /\
  (send_budget cl' <= length (cl_sent cl) + 1 +
     if single_use c || rc_skipAuthRefresh c || rc_authRetry c then 0 else 1)%nat.
Proof.
  intros cl'. subst cl'. destruct (single_use c) eqn:E.
  - destruct (fresh_headers_tab locale c t cl E) as [H1 H2]. split; [done|]. rewrite H2. simpl. lia.
  - unfold on_request. rewrite E. split; [done|]. unfold send_budget. simpl.
    rewrite length_app. simpl. destruct (rc_skipAuthRefresh c), (rc_authRetry c); simpl; lia.
Qed.

Lemma step_budget locale i t cl : call_inv cl ->
  call_inv (call_step locale i t cl).1 /\
  (send_budget (call_step locale i t cl).1 <= send_budget cl)%nat.
Proof.
  destruct cl as [p sent ns]. unfold call_inv at 1, call_step. simpl.
  destruct p as [c|c|c status|d|e], i as [data|st|o|er]; intros Hinv; try (split; [exact Hinv|reflexivity]);
    try (split; [done|unfold send_budget; simpl; lia]).
  - unfold on_headers. destruct (freshAuthHeaders_after locale o t); (split; [done|]); unfold send_budget; simpl; [|lia].
    rewrite length_app, Hinv. simpl. lia.
  - unfold on_success. repeat case_match; (split; [done|]); unfold send_budget; simpl; lia.
  - unfold on_error. repeat case_match; (split; [done|]); unfold send_budget; simpl; try lia.
    by repeat case_match.
  - unfold on_refreshed. destruct o as [b| |e|code]; try (split; [done|unfold send_budget; simpl; lia]).
    destruct (request_budget locale (with_headers (authorize t (rc_headers c)) c) t
                (Call (C_refresh c status) sent ns)) as [H1 H2].
    split; [done|]. etrans; [exact H2|]. simpl. rewrite Hinv, orb_true_r. unfold send_budget. simpl. lia.
Qed.

Lemma run_budget locale inputs cl : call_inv cl ->
  (send_budget (run_call locale inputs cl) <= send_budget cl)%nat.
Proof.
  revert cl. induction inputs as [|[i t] inputs IH]; intros cl H; simpl; [done|].
  destruct (step_budget locale i t cl H) as [H1 H2]. specialize (IH _ H1). lia.
Qed.

(** C39: Whatever the server answers and whatever the tab does meanwhile, a call goes
    on the wire at most twice, and a call that spends a proof or a flow, or that
    asks for no refresh, at most once. *)
Theorem calls_repeat_once locale c t inputs :
  let cl := run_call locale inputs (begin_call locale c t).1 in
  (length (cl_sent cl) <= 2)%nat /\
  (single_use c = true \/ rc_skipAuthRefresh c = true -> (length (cl_sent cl) <= 1)%nat).
Proof.
  intros cl. subst cl. unfold begin_call.
  destruct (request_budget locale c t (Call (C_sent c) [] [])) as [H1 H2].
  pose proof (run_budget locale inputs _ H1) as H3. unfold send_budget at 1 in H3. simpl in H2.
  split.
  - destruct (single_use c || _ || _); lia.
  - intros [H|H]; rewrite H, ?orb_true_r in H2; simpl in H2; lia.
Qed.

Lemma on_request_sends locale c t cl c' : single_use c = false ->
  cl_sent (on_request locale c t cl).1 = cl_sent cl ++ [c'] ->
  c' = with_headers (obj_set (js "Accept-Language") locale (authorize t (rc_headers c))) c.
Proof.
  unfold on_request. intros ->. simpl. intros H. apply app_inj_tail in H as [_ <-]. done.
Qed.

Lemma existsb_forall_false {A} (f : A -> bool) l : existsb f l = false <-> Forall (fun x => f x = false) l.
Proof. induction l as [|x l IH]; cbn; [by split|]. by rewrite orb_false_iff, IH, Forall_cons_iff. Qed.

(** The repetition after a refresh carries the token of the store. *)
Lemma repetition_token locale c status b t cl token :
  single_use c = false -> as_accessToken (t_auth t) = Some token -> token <> [] ->
  exists c', cl_sent (on_refreshed locale c status (O_authenticated b) t cl).1 = cl_sent cl ++ [c'] /\
    obj_get (js "Authorization") (rc_headers c') = Some (js "Bearer " ++ token).
Proof.
  intros Hs Ht Hn. simpl. unfold on_request.
  assert (single_use (with_headers (authorize t (rc_headers c)) c) = false) as ->.
  { revert Hs. unfold single_use, authorize. simpl. rewrite Ht. destruct token; [done|]. simpl.
    rewrite !orb_false_iff. intros [? Hp]. split; [done|]. revert Hp. rewrite !existsb_forall_false.
    apply set_forall. by vm_compute. }
  eexists. split; [done|]. simpl. rewrite obj_get_set, bool_decide_eq_false_2 by (vm_compute; congruence).
  unfold authorize. rewrite Ht. destruct token; [done|]. simpl. by rewrite obj_get_set, bool_decide_eq_true_2.
Qed.

(** *** Sharing *)
Inductive get_op := Op_get (disableDuplicate : bool) (key : jstr) | Op_finally (key : jstr).

Definition get_step (op : get_op) (g : get_state) : get_state :=
  match op with
  | Op_get dup key => (api_get dup key g).2
  | Op_finally key => get_finally key g
  end.

Definition get_run (ops : list get_op) : get_state :=
  foldl (fun g op => get_step op g) (GetState ∅ 0) ops.

Record get_ok (g : get_state) : Prop := {
  go_bound : forall k n, gs_inflight g !! k = Some n -> (n < gs_next g)%nat;
  go_inj : forall k1 k2 n, gs_inflight g !! k1 = Some n -> gs_inflight g !! k2 = Some n -> k1 = k2;
}.

Lemma get_step_ok op g : get_ok g -> get_ok (get_step op g).
Proof.
  intros [Hb Hi]. destruct op as [[] key|key]; simpl.
  - split; simpl; [|done]. intros k n Hk. specialize (Hb _ _ Hk). lia.
  - unfold api_get. destruct (gs_inflight g !! key) as [m|] eqn:E; [done|]. split; simpl.
    + intros k n. rewrite lookup_insert_Some. intros [[_ <-]|[_ Hk]]; [lia|].
      specialize (Hb _ _ Hk). lia.
    + intros k1 k2 n. rewrite !lookup_insert_Some.
      intros [[<- <-]|[_ H1]] [[<- H]|[_ H2]]; try done; [|subst|by eapply Hi].
      * apply Hb in H2. lia.
      * apply Hb in H1. lia.
  - split; simpl; intros k *.
    + rewrite lookup_delete_Some. intros [_ Hk]. by eapply Hb.
    + rewrite !lookup_delete_Some. intros [_ H1] [_ H2]. by eapply Hi.
Qed.

Lemma get_run_ok ops : get_ok (get_run ops).
Proof.
  unfold get_run. assert (get_ok (GetState ∅ 0)) as H by (split; intros ?; set_solver).
  revert H. generalize (GetState ∅ 0). induction ops as [|op ops IH]; intros g Hg; simpl; [done|].
  by apply IH, get_step_ok.
Qed.

Lemma get_key_session t1 t2 url1 url2 p1 p2 s1 s2 :
  sid_of t1 = Some s1 -> sid_of t2 = Some s2 -> s1 <> [] -> s2 <> [] ->
  58 ∉ s1 -> 58 ∉ s2 -> get_key t1 url1 p1 = get_key t2 url2 p2 -> s1 = s2.
Proof.
  unfold get_key. intros -> -> H1 H2 Hc1 Hc2. simpl.
  replace (non_empty s1) with true by (by destruct s1).
  replace (non_empty s2) with true by (by destruct s2).
  clear H1 H2. revert s2 Hc2. induction s1 as [|c s1 IH]; intros [|d s2] Hc2 H; simpl in H; try done.
  - injection H as <- _. set_solver.
  - injection H as -> _. set_solver.
  - injection H as <- H. f_equal. apply IH; [set_solver..|]. exact H.
Qed.

(** At every moment, two calls share a request only if they have the same key,
    and a call joins the request that is in flight under its key. *)
Theorem shared_gets_agree ops k1 k2 :
  let g := get_run ops in
  let '(n1, g1) := api_get false k1 g in
  let '(n2, g2) := api_get false k2 g1 in
  (n1 = n2 <-> k1 = k2) /\ (k1 = k2 -> gs_next g2 = gs_next g1) /\
  gs_inflight g2 !! k1 = Some n1 /\ gs_inflight g2 !! k2 = Some n2.
Proof.
  intros g. pose proof (get_step_ok (Op_get false k1) _ (get_run_ok ops)) as H1.
  fold g in H1. cbn [get_step] in H1.
  assert (gs_inflight (api_get false k1 g).2 !! k1 = Some (api_get false k1 g).1) as E1.
  { unfold api_get. destruct (gs_inflight g !! k1) eqn:E; simpl; [done|apply lookup_insert_eq]. }
  destruct (api_get false k1 g) as [n1 g1]. simpl in *. unfold api_get.
  destruct H1 as [Hb Hi].
  destruct (gs_inflight g1 !! k2) as [m|] eqn:E2.
  - split_and!; [|done..]. split; [intros ->; exact (Hi _ _ _ E1 E2)|intros ->; congruence].
  - assert (k1 <> k2) as Hne by congruence. simpl. split_and!.
    + split; [|done]. intros ->. specialize (Hb _ _ E1). lia.
    + done.
    + by rewrite lookup_insert_ne.
    + apply lookup_insert_eq.
Qed.

(** *** Logging out *)
Definition logout_left (p : logout_point) : nat :=
  match p with
  | G_request _ true => 3
  | G_refresh _ => 2
  | G_request _ false => 1
  | _ => 0
  end.

(** The input is one the call waits for. *)
Definition logout_awaits (p : logout_point) (i : logout_input) : bool :=
  match p, i with
  | G_request _ _, (W_response _ | W_error _) | G_refresh _, W_refreshed _ => true
  | _, _ => false
  end.

(** A logout ends after at most two requests and one refresh between them: every
    awaited answer brings it closer to its end. *)
Lemma logout_ends p i t : logout_awaits p i = true ->
  (logout_left (logout_step p i t).1 < logout_left p)%nat.
Proof.
  destruct p as [sid [] | | |], i as [|[[? ?]|]|[]]; simpl; try done; intros _; try lia.
  case_match; simpl; lia.
Qed.

(** It reports success without an answer only when the server has no session. *)
Lemma logout_success p i t data : (logout_step p i t).1 = G_done data ->
  p = G_done data \/ i = W_response data \/ i = W_refreshed O_anonymous.
Proof.
  destruct p as [sid [] | | |], i as [|[[? ?]|]|[]]; simpl; try case_match; intros; simplify_eq/=; eauto.
Qed.

(** ** A concrete call *)
Definition sample_config : request_config :=
  RequestConfig (js "/api/user/self") [(js "X-Security-Proof", js "p")] false false false false true.

Definition sample_tab : tab :=
  Tab (js "a") false (fun n => [Z.of_nat n]) 0 5000 None
    (AuthState None (Some (js "token")) (Some (n_of_Z 1000)) None None B_complete) 0 None [].

Lemma calls_repeat_once_witness :
  let cl := run_call (js "en") [(V_error 401, sample_tab); (V_refreshed O_anonymous, sample_tab)]
              (begin_call (js "en") sample_config sample_tab).1 in
  (length (cl_sent cl) <= 1)%nat /\ cl_point cl = C_failed (E_status 401).
Proof.
  split; [|vm_compute; reflexivity].
  apply (calls_repeat_once (js "en") sample_config sample_tab
    [(V_error 401, sample_tab); (V_refreshed O_anonymous, sample_tab)]).
  left. reflexivity.
Defined.
