(* ===== verification/PricingOptions.v ===== *)
(** * The administrator's price options

    The prices of all models are stored as eleven options, each the JSON text of
    an object from model names to values.  This file models how the console reads
    and changes them: [features/model-pricing/pricing.ts] (drafts, options and
    the values of a model), [buildPricingChanges] of its [api.ts], the snapshots
    of [system-settings/models/model-pricing-snapshots.ts] with the JSON readers
    of [system-settings/utils/json-parser.ts], and the checks of a draft of
    [system-settings/models/model-pricing-core.ts]. *)
From Stdlib Require Import SpecFloat.
From stdpp Require Import strings.
From S2P Require Import Prelude JsString JsNumber JsValue JsJson JsonText.
From S2P Require Import Syntax Compile RequestRules TaskDisplay PluginPricing.

#[local] Open Scope Z_scope.

(** ** Options and values *)
Inductive pricing_key :=
| ModelPrice | ModelRatio | CompletionRatio | CacheRatio | CreateCacheRatio | ImageRatio
| AudioRatio | AudioCompletionRatio | BillingMode | BillingExpr | PluginBillingExpr.

#[global] Instance pricing_key_eq_dec : EqDecision pricing_key.
Proof. solve_decision. Defined.

Definition PRICING_KEYS : list pricing_key :=
  [ModelPrice; ModelRatio; CompletionRatio; CacheRatio; CreateCacheRatio; ImageRatio; AudioRatio;
   AudioCompletionRatio; BillingMode; BillingExpr; PluginBillingExpr].

(** [Record<PricingKey, string>] *)
Notation pricing_options := (pricing_key -> jstr).

(** [PricingValues]: the entries other than the plugin expressions are numbers or
    strings; [pv_value] is not used at [PluginBillingExpr]. *)
Record pricing_values := PricingValues {
  pv_value : pricing_key -> option jsval;
  pv_plugin : option (list (jstr * jstr));
}.

Definition no_values : pricing_values := PricingValues (fun _ => None) None.

Definition set_value (k : pricing_key) (v : jsval) (m : pricing_values) : pricing_values :=
  PricingValues (fun k' => if bool_decide (k' = k) then Some v else pv_value m k') (pv_plugin m).

Definition delete_value (k : pricing_key) (m : pricing_values) : pricing_values :=
  PricingValues (fun k' => if bool_decide (k' = k) then None else pv_value m k') (pv_plugin m).

Definition set_plugin (p : option (list (jstr * jstr))) (m : pricing_values) : pricing_values :=
  PricingValues (pv_value m) p.

(** [pricingOptions]: the options of a settings response, under their names and
    the older names of three of them. *)
Definition key_name (k : pricing_key) : jstr :=
  match k with
  | ModelPrice => js "ModelPrice" | ModelRatio => js "ModelRatio"
  | CompletionRatio => js "CompletionRatio" | CacheRatio => js "CacheRatio"
  | CreateCacheRatio => js "CreateCacheRatio" | ImageRatio => js "ImageRatio"
  | AudioRatio => js "AudioRatio" | AudioCompletionRatio => js "AudioCompletionRatio"
  | BillingMode => js "billing_setting.billing_mode"
  | BillingExpr => js "billing_setting.billing_expr"
  | PluginBillingExpr => js "billing_setting.plugin_billing_expr"
  end.

Definition old_name (k : pricing_key) : option jstr :=
  match k with
  | BillingMode => Some (js "BillingMode")
  | BillingExpr => Some (js "BillingExpr")
  | PluginBillingExpr => Some (js "PluginBillingExpr")
  | _ => None
  end.

Definition pricingOptions (values : list (jstr * jsval)) : pricing_options := fun k =>
  let read name := default J_undefined (obj_get name values) in
  let value := read (key_name k) in
  let value := match old_name k with
               | Some name => if is_nullish value then read name else value
               | None => value
               end in
  match value with J_str s => s | _ => js "{}" end.

(** ** Drafts *)
Inductive pricing_mode := PM_per_token | PM_per_request | PM_tiered_expr.

#[global] Instance pricing_mode_eq_dec : EqDecision pricing_mode.
Proof. solve_decision. Defined.

Inductive lane_key := L_completion | L_cache | L_createCache | L_image | L_audioInput | L_audioOutput.

(** [ModelRatioData]; [md_fields] holds the eight number fields, under the keys
    [pricingFieldMap] gives them. *)
Record model_draft := ModelDraft {
  md_name : jstr;
  md_plugin : option (list (jstr * jstr));
  md_fields : pricing_key -> option jstr;
  md_mode : option pricing_mode;
  md_billingExpr : option jstr;
  md_requestRuleExpr : option jstr;
  md_promptPrice : option jstr;
  md_laneEnabled : option (lane_key -> bool);
  md_lanePrices : option (lane_key -> jstr);
}.

(** The values of [pricingFieldMap], in its order. *)
Definition pricingFieldMap : list pricing_key :=
  [ModelPrice; ModelRatio; CompletionRatio; CacheRatio; CreateCacheRatio; ImageRatio; AudioRatio;
   AudioCompletionRatio].

(** The mode keeps the field. *)
Definition mode_keeps (mode : option pricing_mode) (k : pricing_key) : bool :=
  match mode with
  | Some PM_tiered_expr => true
  | Some PM_per_request => bool_decide (k = ModelPrice)
  | _ => negb (bool_decide (k = ModelPrice))
  end.

Definition invalid_price {A} : outcome A := Err (OtherError (js "Enter a finite, non-negative price")).

Fixpoint draft_fields (data : model_draft) (keys : list pricing_key) (values : pricing_values)
    : outcome pricing_values :=
  match keys with
  | [] => Ok values
  | k :: keys =>
      match md_fields data k with
      | None | Some [] => draft_fields data keys values
      | Some text =>
          let number := to_number text in
          if negb (is_finite number) || n_ltb number n_zero then invalid_price
          else draft_fields data keys
                 (if mode_keeps (md_mode data) k then set_value k (J_num number) values else values)
      end
  end.

(** [data.billingExpr || ''] *)
Definition or_empty (s : option jstr) : jstr := default [] s.

Definition draft_expression (data : model_draft) : jstr :=
  combineBillingExpr (or_empty (md_billingExpr data)) (or_empty (md_requestRuleExpr data)).

Definition pricingFromDraft (data : model_draft) : outcome pricing_values :=
  let values :=
    set_value BillingMode
      (J_str (match md_mode data with Some PM_tiered_expr => js "tiered_expr" | _ => js "ratio" end))
      (set_plugin (md_plugin data) no_values) in
  let* values := draft_fields data pricingFieldMap values in
  Ok (match md_mode data with
      | Some PM_tiered_expr => set_value BillingExpr (J_str (draft_expression data)) values
      | _ => values
      end).

(** ** Changing the options *)
Definition obj_delete {A} (key : jstr) (o : list (jstr * A)) : list (jstr * A) :=
  List.filter (fun p => negb (bool_decide (p.1 = key))) o.

(** The object of an option.  [JSON.parse] throws on other text; an option whose
    root is not an object is a [TypeError] here, as it is for [null]. *)
Definition option_object (text : jstr) : outcome (list (jstr * jsval)) :=
  match json_parse text with
  | Some (J_obj o) => Ok o
  | Some _ => type_error
  | None => Err (OtherError (js "SyntaxError"))
  end.

(** One name of the loop over an option of numbers or strings. *)
Definition apply_value (v : option jsval) (o : list (jstr * jsval)) (name : jstr)
    : list (jstr * jsval) :=
  match v with
  | Some v => obj_set name v (obj_delete name o)
  | None => obj_delete name o
  end.

(** The variant belongs to the model. *)
Definition variant_of (name key : jstr) : bool :=
  match splitPluginBillingExprKey key with
  | Some (_, model) => bool_decide (model = name)
  | None => false
  end.

Definition plugin_key (plugin name : jstr) : jstr := plugin ++ js "::" ++ name.

(** One name of the loop over the plugin expressions. *)
Definition apply_plugin (table : list (jstr * jstr)) (o : list (jstr * jsval)) (name : jstr)
    : list (jstr * jsval) :=
  foldl (fun o p => obj_set (plugin_key p.1 name) (J_str p.2) o)
    (List.filter (fun p => negb (variant_of name p.1)) o) table.

Definition apply_option (values : pricing_values) (names : list jstr) (k : pricing_key)
    (o : list (jstr * jsval)) : list (jstr * jsval) :=
  if bool_decide (k = PluginBillingExpr) then
    match pv_plugin values with
    | None => o
    | Some table => foldl (apply_plugin table) o names
    end
  else foldl (apply_value (pv_value values k)) o names.

(** [Object.fromEntries] of the entries of all keys *)
Definition options_of_entries (entries : list (pricing_key * jstr)) : pricing_options := fun k =>
  default [] (snd <$> List.find (fun p => bool_decide (p.1 = k)) entries).

Definition applyPricingValues (options : pricing_options) (values : pricing_values)
    (names : list jstr) : outcome pricing_options :=
  let* entries := rseq (map (fun k =>
    let* o := option_object (options k) in
    Ok (k, json_text (J_obj (apply_option values names k o)))) PRICING_KEYS) in
  Ok (options_of_entries entries).

Definition applyPricingDraft (options : pricing_options) (data : model_draft) (names : list jstr)
    : outcome pricing_options :=
  let* values := pricingFromDraft data in
  if bool_decide (names = [md_name data]) then applyPricingValues options values names
  else
    let copied := set_plugin None values in
    let* next := applyPricingValues options copied names in
    if bool_decide (md_name data ∈ names) then applyPricingValues next values [md_name data]
    else Ok next.

(** ** Reading the options *)
Definition invalid_value {A} : outcome A := Err (OtherError (js "Invalid pricing value")).

Definition number_or_string (v : jsval) : bool :=
  match v with J_num _ | J_str _ => true | _ => false end.

(** An entry of an option, added to the values of its model. *)
Definition read_entry (k : pricing_key) (name : jstr) (v : jsval)
    (models : list (jstr * pricing_values)) : outcome (list (jstr * pricing_values)) :=
  if negb (number_or_string v) then invalid_value
  else if bool_decide (k = PluginBillingExpr) then
    match splitPluginBillingExprKey name, v with
    | Some (plugin, modelName), J_str e =>
        let model := default no_values (obj_get modelName models) in
        Ok (map_set modelName (set_plugin (Some (obj_set plugin e (default [] (pv_plugin model)))) model)
              models)
    | _, _ => invalid_value
    end
  else
    let model := default no_values (obj_get name models) in
    Ok (map_set name (set_value k v model) models).

Fixpoint read_entries (k : pricing_key) (o : list (jstr * jsval))
    (models : list (jstr * pricing_values)) : outcome (list (jstr * pricing_values)) :=
  match o with
  | [] => Ok models
  | (name, v) :: o => let* models := read_entry k name v models in read_entries k o models
  end.

Definition pricing_object (text : jstr) : outcome (list (jstr * jsval)) :=
  match json_parse text with
  | Some (J_obj o) => Ok o
  | Some _ => Err (OtherError (js "Pricing must be a JSON object"))
  | None => Err (OtherError (js "SyntaxError"))
  end.

Fixpoint read_options (options : pricing_options) (keys : list pricing_key)
    (models : list (jstr * pricing_values)) : outcome (list (jstr * pricing_values)) :=
  match keys with
  | [] => Ok models
  | k :: keys =>
      let* o := pricing_object (options k) in
      let* models := read_entries k o models in
      read_options options keys models
  end.

(** The [Map] from model names to values, in the order of insertion. *)
Definition pricingValuesByModel (options : pricing_options) : outcome (list (jstr * pricing_values)) :=
  read_options options PRICING_KEYS [].

(** ** The changes to send ([buildPricingChanges]) *)
Record pricing_entry := PricingEntry {
  en_model_name : jstr;
  en_version : jstr;
  en_configured : pricing_values;
}.

Record pricing_change := PricingChange {
  ch_model_name : jstr;
  ch_expected_version : jstr;
  ch_pricing : pricing_values;
}.

(** [a !== b] for values that may be absent *)
Definition differs (a b : option jsval) : bool :=
  match a, b with
  | None, None => false
  | Some a, Some b => negb (strict_equal a b)
  | _, _ => true
  end.

Definition dirty_key (old new : pricing_values) (k : pricing_key) : bool :=
  if bool_decide (k = PluginBillingExpr)
  then negb (pluginExpressionsEqual (pv_plugin old) (pv_plugin new))
  else differs (pv_value old k) (pv_value new k).

(** [delete pricing[key]] and the assignment of the new value, if there is one *)
Definition copy_key (new : pricing_values) (pricing : pricing_values) (k : pricing_key) : pricing_values :=
  if bool_decide (k = PluginBillingExpr) then set_plugin (pv_plugin new) pricing
  else match pv_value new k with
       | Some v => set_value k v (delete_value k pricing)
       | None => delete_value k pricing
       end.

Definition assign_value (k : pricing_key) (v : option jsval) (m : pricing_values) : pricing_values :=
  match v with Some v => set_value k v m | None => delete_value k m end.

Definition changed_pricing (entry : option pricing_entry) (old new : pricing_values) : pricing_values :=
  let dirty := List.filter (dirty_key old new) PRICING_KEYS in
  let pricing := foldl (copy_key new) (from_option en_configured no_values entry) dirty in
  if match pv_value new BillingMode with
     | Some v => strict_equal v (J_str (js "tiered_expr"))
     | None => false
     end
  then assign_value BillingExpr (pv_value new BillingExpr)
         (set_value BillingMode (J_str (js "tiered_expr")) pricing)
  else pricing.

(** The members of a [Set] of the list, in order. *)
Fixpoint set_members (seen l : list jstr) : list jstr :=
  match l with
  | [] => []
  | x :: l => if bool_decide (x ∈ seen) then set_members seen l else x :: set_members (x :: seen) l
  end.

Definition model_change (entries : list (jstr * pricing_entry)) (empty_version : jstr)
    (previous next : list (jstr * pricing_values)) (name : jstr) : option pricing_change :=
  let old := default no_values (obj_get name previous) in
  let new := default no_values (obj_get name next) in
  if existsb (dirty_key old new) PRICING_KEYS then
    let entry := obj_get name entries in
    Some (PricingChange name (from_option en_version empty_version entry) (changed_pricing entry old new))
  else None.

Definition buildPricingChanges (entries : list pricing_entry) (empty_version : jstr)
    (before after : pricing_options) : outcome (list pricing_change) :=
  let* previous := pricingValuesByModel before in
  let* next := pricingValuesByModel after in
  let entries := map_of (map (fun e => (en_model_name e, e)) entries) in
  Ok (omap (model_change entries empty_version previous next)
        (set_members [] (previous.*1 ++ next.*1))).

(** ** Snapshots of all models *)

(** [parseJsonObjectMap] *)
Definition parseJsonObjectMap (raw : jstr) : option (list (jstr * jsval)) :=
  match trim raw with
  | [] => Some []
  | text => match json_parse text with Some (J_obj o) => Some o | _ => None end
  end.

Definition isFiniteNonNegativeNumber (v : jsval) : bool :=
  match v with J_num x => is_finite x && n_leb n_zero x | _ => false end.

Definition parseJsonNumberMap (raw : jstr) : option (list (jstr * jsval)) :=
  o ← parseJsonObjectMap raw;
  if forallb (fun p : jstr * jsval => isFiniteNonNegativeNumber p.2) o then Some o else None.

(** [Object.entries(safeJsonParse(text, { fallback: {} }))]; the entries of an
    array or a string have keys that no plugin key has. *)
Definition plugin_entries (text : jstr) : outcome (list (jstr * jsval)) :=
  match trim text with
  | [] => Ok []
  | text => match json_parse text with
            | Some (J_obj o) => Ok o
            | Some J_null => type_error
            | _ => Ok []
            end
  end.

Record pricing_snapshot := PricingSnapshot {
  sn_name : jstr;
  sn_plugin : option (list (jstr * jsval));
  sn_fields : pricing_key -> jstr;              (* the eight number fields *)
  sn_mode : pricing_mode;
  sn_expr : option (jstr * jstr);               (* billingExpr and requestRuleExpr *)
  sn_hasConflict : bool;
}.

(** [pluginExpressionsByModel] *)
Definition plugin_tables (entries : list (jstr * jsval)) : list (jstr * list (jstr * jsval)) :=
  foldl (fun tables p =>
    match splitPluginBillingExprKey p.1 with
    | Some (plugin, model) =>
        map_set model (obj_set plugin p.2 (default [] (obj_get model tables))) tables
    | None => tables
    end) [] entries.

Section Snapshots.
(** The text of the members that a plain object inherits. *)
Context (inherited_text : jstr -> jstr).

(** [map[name]?.toString() || ''] of a map of numbers *)
Definition number_text (o : list (jstr * jsval)) (name : jstr) : jstr :=
  match obj_get name o with
  | Some v => js_to_string v
  | None => if bool_decide (name ∈ inherited_names) then inherited_text name else []
  end.

(** [billingExprMap[name] || ''], which must be a string to be split *)
Definition expr_text (o : list (jstr * jsval)) (name : jstr) : outcome jstr :=
  match obj_get name o with
  | Some (J_str s) => Ok s
  | Some J_null | Some (J_bool false) => Ok []
  | Some (J_num x) => if n_eqb x n_zero || negb (n_eqb x x) then Ok [] else type_error
  | Some _ => type_error
  | None => if bool_decide (name ∈ inherited_names) then type_error else Ok []
  end.

Definition model_snapshot (numbers : pricing_key -> list (jstr * jsval))
    (modes exprs : list (jstr * jsval)) (plugins : list (jstr * list (jstr * jsval)))
    (name : jstr) : outcome pricing_snapshot :=
  let fields k := number_text (numbers k) name in
  let plugin := obj_get name plugins in
  if match obj_get name modes with
     | Some v => strict_equal v (J_str (js "tiered_expr"))
     | None => false
     end
  then
    let* full := expr_text exprs name in
    let* split := splitBillingExprAndRequestRules full in
    Ok (PricingSnapshot name plugin fields PM_tiered_expr
          (Some (se_billingExpr split, se_requestRuleExpr split)) false)
  else
    let has_price := negb (bool_decide (fields ModelPrice = [])) in
    Ok (PricingSnapshot name plugin fields (if has_price then PM_per_request else PM_per_token) None
          (has_price &&
           existsb (fun k => negb (bool_decide (fields k = [])))
             [ModelRatio; CompletionRatio; CacheRatio; CreateCacheRatio; ImageRatio; AudioRatio;
              AudioCompletionRatio])).

Definition buildModelSnapshots (options : pricing_options) : outcome (list pricing_snapshot) :=
  let numbers k := default [] (parseJsonNumberMap (options k)) in
  let modes := default [] (parseJsonObjectMap (options BillingMode)) in
  let exprs := default [] (parseJsonObjectMap (options BillingExpr)) in
  let* entries := plugin_entries (options PluginBillingExpr) in
  let plugins := plugin_tables entries in
  let names := set_members []
    (plugins.*1 ++
     concat (map (fun k => (numbers k).*1)
       [ModelPrice; ModelRatio; CacheRatio; CreateCacheRatio; CompletionRatio; ImageRatio;
        AudioRatio; AudioCompletionRatio]) ++
     modes.*1 ++ exprs.*1) in
  rseq (map (model_snapshot numbers modes exprs plugins) names).

Definition pricingRows := buildModelSnapshots.

(** The options that hold the values of one model. *)
Definition row_options (name : jstr) (values : pricing_values) : pricing_options := fun k =>
  if bool_decide (k = PluginBillingExpr) then
    json_text (J_obj (foldl (fun o p => obj_set (plugin_key p.1 name) (J_str p.2) o) []
                        (default [] (pv_plugin values))))
  else json_text (J_obj (match pv_value values k with Some v => [(name, v)] | None => [] end)).

Definition pricingRow (name : jstr) (values : pricing_values) : outcome model_draft :=
  let* rows := pricingRows (row_options name values) in
  let row := List.find (fun r => bool_decide (sn_name r = name)) rows in
  let mode :=
    match row with
    | Some r =>
        match sn_mode r with
        | PM_tiered_expr => PM_tiered_expr
        | _ => if bool_decide (sn_fields r ModelPrice = []) then PM_per_token else PM_per_request
        end
    | None => PM_per_token
    end in
  Ok (ModelDraft name (pv_plugin values) (fun k => (fun r => sn_fields r k) <$> row) (Some mode)
        (fst <$> (row ≫= sn_expr)) (snd <$> (row ≫= sn_expr)) None None None).

(** ** Prices from an upstream *)
Section Sync.
Context (toUpperCase : jstr -> jstr).

Definition capitalized (part : jstr) : jstr := toUpperCase (take 1 part) ++ drop 1 part.

(** The key of a synchronised field: [model_ratio] is [ModelRatio]. *)
Definition sync_key (field : jstr) : option pricing_key :=
  let name := concat (map capitalized (split_at 95 field)) in
  List.find (fun k => bool_decide (key_name k = name) && negb (bool_decide (k = PluginBillingExpr)))
    PRICING_KEYS.

Definition sync_fields (fields : list (jstr * jsval)) : pricing_values -> pricing_values :=
  let fixed := bool_decide (is_Some (obj_get (js "model_price") fields)) in
  fun values => foldl (fun values p =>
    if bool_decide (p.1 = js "billing_mode") || bool_decide (p.1 = js "billing_expr") then values
    else if fixed && negb (bool_decide (p.1 = js "model_price")) then values
    else match sync_key p.1 with Some k => set_value k p.2 values | None => values end)
    values fields.

Definition apply_sync (options : pricing_options) (name : jstr) (fields : list (jstr * jsval))
    : outcome pricing_options :=
  let expression :=
    match obj_get (js "billing_expr") fields with
    | Some (J_str s) => if bool_decide (trim s = []) then None else Some s
    | _ => None
    end in
  let next :=
    match expression with
    | Some s => set_value BillingExpr (J_str s)
                  (set_value BillingMode (J_str (js "tiered_expr")) no_values)
    | None => sync_fields fields (set_value BillingMode (J_str (js "ratio")) no_values)
    end in
  let* row := pricingRow name next in
  let* validated := pricingFromDraft row in
  let validated := match expression with
                   | Some s => set_value BillingExpr (J_str s) validated
                   | None => validated
                   end in
  applyPricingValues options validated [name].

Fixpoint applyPriceSyncSelections (options : pricing_options)
    (selections : list (jstr * list (jstr * jsval))) : outcome pricing_options :=
  match selections with
  | [] => Ok options
  | (name, fields) :: selections =>
      let* options := apply_sync options name fields in
      applyPriceSyncSelections options selections
  end.
End Sync.
End Snapshots.

(** ** Checks of a draft ([model-pricing-core.ts]) *)

(** [Number.parseFloat]: the longest decimal literal at the start *)
Definition parse_float (text : jstr) : num :=
  let '(negative, s) := match trim_start text with
                        | c :: s => if is_sign c then (c =? 45, s) else (false, c :: s)
                        | [] => (false, [])
                        end in
  let x := if starts_with (js "Infinity") s then S754_infinity false
           else match scan_number s with Some (d, _) => dl_value d | None => S754_nan end in
  if negative then n_neg x else x.

Definition hasFiniteDraftNumber (value : option jstr) : bool :=
  match value with
  | None | Some [] => false
  | Some text => is_finite (parse_float text)
  end.

Definition pricingDraftKeepsModel (data : model_draft) : bool :=
  if bool_decide (trim (md_name data) = []) then false
  else
    (match md_mode data with
     | Some PM_tiered_expr => negb (bool_decide (draft_expression data = []))
     | _ => hasFiniteDraftNumber (md_fields data ModelPrice)
     end)
    || existsb (fun k => hasFiniteDraftNumber (md_fields data k))
         [ModelRatio; CacheRatio; CreateCacheRatio; CompletionRatio; ImageRatio; AudioRatio;
          AudioCompletionRatio].

Definition pricingDraftExpressionIsValid (data : model_draft) : bool :=
  match md_mode data with
  | Some PM_tiered_expr =>
      match draft_expression data with
      | [] => false
      | combined => match compile combined with Ready _ => true | Failed _ => false end
      end
  | _ => true
  end.

(** [hasValue] and [toNumberOrNull] of a text that may be absent *)
Definition hasValue (value : option jstr) : bool :=
  match value with None | Some [] => false | Some _ => true end.

Definition toNumberOrNull (value : option jstr) : option num :=
  match value with
  | None | Some [] => None
  | Some text => let x := to_number text in if is_finite x then Some x else None
  end.

(** [(toNumberOrNull(value) ?? 0) > 0] *)
Definition positive_value (value : option jstr) : bool :=
  n_ltb n_zero (default n_zero (toNumberOrNull value)).

(** [toNumberOrNull(value) === 0] *)
Definition zero_value (value : option jstr) : bool :=
  match toNumberOrNull value with Some x => n_eqb x n_zero | None => false end.

Definition null_value (value : option jstr) : bool :=
  match toNumberOrNull value with Some _ => false | None => true end.

(** Modes without lanes. *)
Definition lane_free (mode : option pricing_mode) : bool :=
  match mode with Some PM_per_request | Some PM_tiered_expr => true | _ => false end.

Definition pricingDraftValuesAreValid (data : model_draft) : bool :=
  if lane_free (md_mode data) then true
  else
    let f := md_fields data in
    let dependents := map f [CompletionRatio; CacheRatio; CreateCacheRatio; ImageRatio; AudioRatio] in
    let dependentPositive := existsb positive_value dependents in
    let dependentPresent := existsb hasValue dependents in
    if zero_value (f ModelRatio) && dependentPositive then false
    else if null_value (f ModelRatio) && dependentPresent then false
    else if hasValue (f AudioCompletionRatio) && negb (hasValue (f AudioRatio)) then false
    else if zero_value (f AudioRatio) && positive_value (f AudioCompletionRatio) then false
    else true.

(** The keys of [laneConfigs]. *)
Definition laneConfigs : list lane_key :=
  [L_completion; L_cache; L_createCache; L_image; L_audioInput; L_audioOutput].

Definition pricingPromptLaneValuesAreValid (mode : option pricing_mode) (promptPrice : option jstr)
    (enabled : lane_key -> bool) (prices : lane_key -> jstr) : bool :=
  if lane_free mode then true
  else
    let price k := Some (prices k) in
    let dependentPositive := existsb (fun k => enabled k && positive_value (price k)) laneConfigs in
    let dependentPresent := existsb (fun k => enabled k && hasValue (price k)) laneConfigs in
    if zero_value promptPrice && dependentPositive then false
    else if null_value promptPrice && dependentPresent then false
    else if enabled L_audioOutput && negb (hasValue (price L_audioInput)) then false
    else if zero_value (price L_audioInput) && enabled L_audioOutput && positive_value (price L_audioOutput)
    then false
    else true.

Definition pricingDraftCanPersist (data : model_draft) : bool :=
  if negb (pricingDraftExpressionIsValid data) then false
  else if negb (pricingDraftValuesAreValid data) then false
  else match md_laneEnabled data, md_lanePrices data with
       | Some enabled, Some prices =>
           pricingPromptLaneValuesAreValid (md_mode data) (md_promptPrice data) enabled prices
       | _, _ => true
       end.

(** [canonicalizeBillingModeMap]; assigning [__proto__] adds no property. *)
Definition canonicalizeBillingModeMap (m : list (jstr * jstr)) : list (jstr * jstr) :=
  foldl (fun next p =>
    if bool_decide (p.1 = js "__proto__") then next
    else if bool_decide (p.2 = js "tiered_expr") then obj_set p.1 p.2 next
    else if bool_decide (p.2 = js "ratio") || bool_decide (p.2 = js "per-request")
            || bool_decide (p.2 = js "per-token")
    then obj_set p.1 (js "ratio") next
    else next) [] m.
