(* ===== verification/PricingFacts.v ===== *)
(** * Saving prices changes what was edited and nothing else

    The options of all models are JSON texts; this file shows that applying a
    draft to them stores exactly the values of the draft for the models it is
    applied to, keeps every value of every other model, and that the changes sent
    to the server are for those models only. *)
From Stdlib Require Import SpecFloat.
From stdpp Require Import strings.
From S2P Require Import Prelude JsString JsNumber JsNumberFacts JsValue JsJson NumberText JsonText.
From S2P Require Import Syntax Compile RequestRules TaskDisplay PluginPricing TaskConfigFacts DynamicPriceFacts PricingOptions.

#[local] Open Scope Z_scope.

(** ** Objects *)
Lemma filter_forall {A} (P : A -> Prop) f l : Forall P l -> Forall P (List.filter f l).
Proof. induction 1 as [|x l Hx _ IH]; cbn [List.filter]; [constructor|]. destruct (f x); [by constructor|done]. Qed.

Lemma obj_get_delete {A} key k (o : list (jstr * A)) :
  obj_get key (obj_delete k o) = if bool_decide (k = key) then None else obj_get key o.
Proof.
  induction o as [|[k' v] o IH]; [by case_bool_decide|]. unfold obj_delete in *. cbn [List.filter fst].
  rewrite obj_get_cons. destruct (bool_decide_reflect (k' = k)) as [->|Hne]; cbn [negb].
  - rewrite IH. by case_bool_decide.
  - rewrite obj_get_cons, IH. do 2 case_bool_decide; congruence.
Qed.

(** ** The objects of the options *)
Definition units (s : jstr) : bool := forallb (fun c => (0 <=? c) && (c <? 65536)) s.

(** An entry the reader accepts and JSON carries. *)
Definition entry_ok (k : pricing_key) (p : jstr * jsval) : Prop :=
  units p.1 = true /\ json_ok p.2 = true /\ number_or_string p.2 = true /\
  (k = PluginBillingExpr -> splitPluginBillingExprKey p.1 <> None /\ exists e, p.2 = J_str e).

Definition object_ok (k : pricing_key) (o : list (jstr * jsval)) : Prop :=
  keys_ordered o.*1 = true /\ Forall (entry_ok k) o.

Lemma object_json k o : object_ok k o -> json_ok (J_obj o) = true.
Proof.
  intros [H1 H2]. cbn [json_ok]. rewrite H1. cbn [andb]. apply forallb_forall. intros p Hp.
  rewrite Forall_elem in H2. apply list_elem_of_In, H2 in Hp as (Hu & Hj & _). unfold units in Hu. by rewrite Hu, Hj.
Qed.

(** Every option is the text of an object the reader accepts. *)
Definition options_ok (options : pricing_options) : Prop := forall k,
  exists o, json_parse (options k) = Some (J_obj o) /\ object_ok k o.

Definition object_at (options : pricing_options) (k : pricing_key) : list (jstr * jsval) :=
  match json_parse (options k) with Some (J_obj o) => o | _ => [] end.

Lemma options_ok_at options k : options_ok options ->
  json_parse (options k) = Some (J_obj (object_at options k)) /\ object_ok k (object_at options k).
Proof. intros H. destruct (H k) as (o & E & Ho). unfold object_at. by rewrite E. Qed.

(** ** Applying values *)
Definition table_ok (table : list (jstr * jstr)) : Prop :=
  NoDup table.*1 /\ Forall (fun p => plugin_name p.1 = true /\ units p.2 = true) table.

Record values_ok (values : pricing_values) : Prop := {
  vo_value : forall k v, pv_value values k = Some v -> json_ok v = true /\ number_or_string v = true;
  vo_plugin : forall table, pv_plugin values = Some table -> table_ok table;
}.

(** A model name that is not blank. *)
Definition name_ok (name : jstr) : Prop := units name = true /\ trim name <> [].

Lemma apply_value_get v o names key :
  obj_get key (foldl (apply_value v) o names) = if bool_decide (key ∈ names) then v else obj_get key o.
Proof.
  revert o. induction names as [|n names IH]; intros o; cbn [foldl]; [done|]. rewrite IH.
  assert (obj_get key (apply_value v o n) = if bool_decide (n = key) then v else obj_get key o) as ->.
  { unfold apply_value. destruct v as [v|]; [rewrite obj_get_set|]; rewrite obj_get_delete; by destruct (bool_decide (n = key)). }
  destruct (bool_decide_reflect (key ∈ names)); [by rewrite bool_decide_eq_true_2 by set_solver|].
  destruct (bool_decide_reflect (n = key)) as [->|]; [by rewrite bool_decide_eq_true_2 by set_solver|].
  by rewrite bool_decide_eq_false_2 by set_solver.
Qed.

Lemma apply_value_ok k v o name : k <> PluginBillingExpr -> object_ok k o -> units name = true ->
  (forall x, v = Some x -> json_ok x = true /\ number_or_string x = true) -> object_ok k (apply_value v o name).
Proof.
  intros Hk [H1 H2] Hn Hv. unfold apply_value, obj_delete. destruct v as [x|].
  - destruct (Hv x eq_refl). split; [by apply set_ordered, filter_ordered|].
    apply set_forall; [|by apply filter_forall]. split_and!; try done.
  - split; [by apply filter_ordered|by apply filter_forall].
Qed.

Lemma units_app a b : units (a ++ b) = units a && units b.
Proof. apply forallb_app. Qed.

Lemma plugin_name_units s : plugin_name s = true -> units s = true.
Proof.
  assert (forall c, plugin_char c = true -> (0 <=? c) && (c <? 65536) = true) as Hc.
  { intros c. unfold plugin_char, is_lower, is_digit. intros H. apply andb_true_iff.
    repeat (apply orb_true_iff in H as [H|H]); bsplit; lia. }
  destruct s as [|c s]; [done|]. cbn [plugin_name]. intros H. bsplit. unfold units. cbn [forallb].
  rewrite Hc by (unfold plugin_char; match goal with H : _ || _ = true |- _ => by rewrite H end).
  cbn [andb]. rewrite forallb_forall in *. intros x Hx. by apply Hc; eauto.
Qed.

Lemma plugin_key_split plugin name : plugin_name plugin = true -> trim name <> [] ->
  splitPluginBillingExprKey (plugin_key plugin name) = Some (plugin, name).
Proof. intros H1 H2. by apply plugin_key_exact. Qed.

Lemma plugin_key_index plugin name : array_index_of (plugin_key plugin name) = None.
Proof.
  unfold array_index_of, plugin_key.
  assert (forallb is_digit (plugin ++ js "::" ++ name) = false) as ->.
  { rewrite !forallb_app. change (forallb is_digit (js "::")) with false. by rewrite andb_false_r. }
  by destruct (plugin ++ js "::" ++ name).
Qed.

Lemma apply_plugin_ok table o name : object_ok PluginBillingExpr o -> table_ok table -> name_ok name ->
  object_ok PluginBillingExpr (apply_plugin table o name).
Proof.
  intros [H1 H2] [_ Ht] [Hu Hn]. unfold apply_plugin.
  assert (object_ok PluginBillingExpr (List.filter (fun p => negb (variant_of name p.1)) o)) as Ho
    by (split; [by apply filter_ordered|by apply filter_forall]).
  clear H1 H2. revert Ho. generalize (List.filter (fun p => negb (variant_of name p.1)) o). clear o.
  induction Ht as [|[p e] table [Hp He] _ IH]; intros o Ho; cbn [foldl fst snd]; [done|]. apply IH.
  destruct Ho as [H1 H2]. split; [by apply set_ordered|]. apply set_forall; [|done]. split_and!; cbn [fst snd].
  - unfold plugin_key. by rewrite !units_app, plugin_name_units, Hu by done.
  - exact He.
  - done.
  - intros _. rewrite plugin_key_split by done. split; [done|by eexists].
Qed.

Lemma apply_option_ok values names k o : object_ok k o -> values_ok values -> Forall name_ok names ->
  object_ok k (apply_option values names k o).
Proof.
  intros Ho Hv Hn. unfold apply_option. case_bool_decide as Hk.
  - subst k. destruct (pv_plugin values) as [table|] eqn:E; [|done]. apply (vo_plugin _ Hv) in E.
    revert o Ho. induction Hn as [|n names Hn _ IH]; intros o Ho; cbn [foldl]; [done|].
    by apply IH, apply_plugin_ok.
  - revert o Ho. induction Hn as [|n names [Hu _] _ IH]; intros o Ho; cbn [foldl]; [done|].
    apply IH, apply_value_ok; try done. by apply vo_value.
Qed.

Lemma from_entries_keys (f : pricing_key -> jstr) k :
  options_of_entries (map (fun k => (k, f k)) PRICING_KEYS) k = f k.
Proof. by destruct k. Qed.

Lemma rseq_map {E A B} (f : A -> B) (l : list A) : rseq (map (fun x => @Ok E B (f x)) l) = Ok (map f l).
Proof. induction l as [|x l IH]; [done|]. cbn [map rseq rbind]. by rewrite IH. Qed.

(** Applying values succeeds, and the objects of the new options are the changed
    objects of the old ones. *)
Lemma apply_values_spec options values names : options_ok options -> values_ok values -> Forall name_ok names ->
  exists options', applyPricingValues options values names = Ok options' /\ options_ok options' /\
    forall k, object_at options' k = apply_option values names k (object_at options k).
Proof.
  intros Ho Hv Hn. unfold applyPricingValues.
  assert (map (fun k => let* o := option_object (options k) in
                        Ok (k, json_text (J_obj (apply_option values names k o)))) PRICING_KEYS
    = map (fun k => Ok (k, json_text (J_obj (apply_option values names k (object_at options k))))) PRICING_KEYS) as ->.
  { apply map_ext. intros k. unfold option_object. by rewrite (proj1 (options_ok_at options k Ho)). }
  rewrite (rseq_map (fun k => (k, json_text (J_obj (apply_option values names k (object_at options k)))))).
  cbn [rbind]. eexists. split; [done|].
  assert (forall k, json_parse (options_of_entries (map (fun k => (k, json_text (J_obj (apply_option values names k (object_at options k))))) PRICING_KEYS) k)
    = Some (J_obj (apply_option values names k (object_at options k)))) as Hp.
  { intros k. rewrite from_entries_keys. eapply json_text_roundtrip, object_json, apply_option_ok; try done.
    by apply options_ok_at. }
  split.
  - intros k. eexists. split; [apply Hp|]. apply apply_option_ok; try done. by apply options_ok_at.
  - intros k. unfold object_at at 1. by rewrite Hp.
Qed.

(** ** Reading values *)
Definition model_value (models : list (jstr * pricing_values)) (name : jstr) (k : pricing_key) : option jsval :=
  obj_get name models ≫= (fun m => pv_value m k).

Definition model_plugin (models : list (jstr * pricing_values)) (name : jstr) : option (list (jstr * jstr)) :=
  obj_get name models ≫= pv_plugin.

(** The plugin expressions of a model, in the order of the option. *)
Definition plugin_fold (name : jstr) (o : list (jstr * jsval)) (acc : option (list (jstr * jstr)))
    : option (list (jstr * jstr)) :=
  foldl (fun acc p =>
    match splitPluginBillingExprKey p.1, p.2 with
    | Some (plugin, model), J_str e =>
        if bool_decide (model = name) then Some (obj_set plugin e (default [] acc)) else acc
    | _, _ => acc
    end) acc o.

Lemma model_value_set models n m name k :
  model_value (map_set n m models) name k = if bool_decide (n = name) then pv_value m k else model_value models name k.
Proof. unfold model_value. rewrite obj_get_map_set. by case_bool_decide. Qed.

Lemma model_plugin_set models n m name :
  model_plugin (map_set n m models) name = if bool_decide (n = name) then pv_plugin m else model_plugin models name.
Proof. unfold model_plugin. rewrite obj_get_map_set. by case_bool_decide. Qed.

Lemma default_value models n k : pv_value (default no_values (obj_get n models)) k = model_value models n k.
Proof. unfold model_value. by destruct (obj_get n models). Qed.

Lemma default_plugin models n : pv_plugin (default no_values (obj_get n models)) = model_plugin models n.
Proof. unfold model_plugin. by destruct (obj_get n models). Qed.

Lemma read_entries_values k o models : k <> PluginBillingExpr -> object_ok k o ->
  exists models', read_entries k o models = Ok models' /\
    (forall n k', model_value models' n k' =
       if bool_decide (k' = k)
       then match obj_get n o with Some v => Some v | None => model_value models n k' end
       else model_value models n k') /\
    forall n, model_plugin models' n = model_plugin models n.
Proof.
  intros Hk [Hord Hall]. apply keys_ordered_nodup in Hord. revert models Hord.
  induction Hall as [|[name v] o (_ & _ & Hns & _) _ IH]; intros models Hnd.
  { exists models. split_and!; [done| |done]. intros n k'. by case_bool_decide. }
  cbn [fmap list_fmap fst] in Hnd. apply list.NoDup_cons in Hnd as [Hname Hnd].
  cbn [read_entries]. unfold read_entry. cbn [snd] in Hns. rewrite Hns, bool_decide_eq_false_2 by done. cbn [negb rbind].
  destruct (IH (map_set name (set_value k v (default no_values (obj_get name models))) models) Hnd)
    as (models' & E & Hv & Hp). exists models'. split_and!; [done| |].
  - intros n k'. rewrite Hv, obj_get_cons, model_value_set. cbn [pv_value set_value]. rewrite default_value.
    destruct (bool_decide_reflect (k' = k)) as [->|Hne].
    + destruct (bool_decide_reflect (name = n)) as [->|]; [|done]. by rewrite (obj_get_none n o).
    + by destruct (bool_decide_reflect (name = n)) as [->|].
  - intros n. rewrite Hp, model_plugin_set. cbn [pv_plugin set_value]. rewrite default_plugin.
    by destruct (bool_decide_reflect (name = n)) as [->|].
Qed.

Lemma read_entries_plugins o models : object_ok PluginBillingExpr o ->
  exists models', read_entries PluginBillingExpr o models = Ok models' /\
    (forall n k', model_value models' n k' = model_value models n k') /\
    forall n, model_plugin models' n = plugin_fold n o (model_plugin models n).
Proof.
  intros [_ Hall]. revert models. induction Hall as [|[name v] o (_ & _ & Hns & Hpl) _ IH]; intros models.
  { by exists models. }
  destruct (Hpl eq_refl) as [Hs [e He]]. cbn [fst snd] in *. subst v.
  destruct (splitPluginBillingExprKey name) as [[plugin model]|] eqn:Es; [|done].
  cbn [read_entries]. unfold read_entry. rewrite Hns, bool_decide_eq_true_2 by done. cbn [negb]. rewrite Es. cbn [rbind].
  edestruct IH as (models' & E & Hv & Hp). exists models'. split_and!; [exact E| |].
  - intros n k'. rewrite Hv, model_value_set. cbn [pv_value set_plugin]. rewrite default_value.
    by destruct (bool_decide_reflect (model = n)) as [->|].
  - intros n. rewrite Hp. unfold plugin_fold. cbn [foldl fst snd]. rewrite Es. f_equal.
    rewrite model_plugin_set. cbn [pv_plugin set_plugin]. rewrite default_plugin.
    by destruct (bool_decide_reflect (model = n)) as [->|].
Qed.

Lemma read_options_spec options keys models : options_ok options -> NoDup keys ->
  exists models', read_options options keys models = Ok models' /\
    (forall n k, k <> PluginBillingExpr -> model_value models' n k =
       if bool_decide (k ∈ keys)
       then match obj_get n (object_at options k) with Some v => Some v | None => model_value models n k end
       else model_value models n k) /\
    forall n, model_plugin models' n =
      if bool_decide (PluginBillingExpr ∈ keys)
      then plugin_fold n (object_at options PluginBillingExpr) (model_plugin models n)
      else model_plugin models n.
Proof.
  intros Ho Hnd. revert models. induction Hnd as [|k keys Hk _ IH]; intros models.
  { by exists models. }
  cbn [read_options]. unfold pricing_object. destruct (options_ok_at options k Ho) as [-> Hok]. cbn [rbind].
  destruct (decide (k = PluginBillingExpr)) as [->|Hne].
  - destruct (read_entries_plugins _ models Hok) as (m1 & -> & Hv1 & Hp1). cbn [rbind].
    destruct (IH m1) as (m2 & -> & Hv2 & Hp2). exists m2. split_and!; [done| |].
    + intros n k' Hk'. rewrite Hv2, Hv1 by done.
      destruct (bool_decide_reflect (k' ∈ keys)); [by rewrite bool_decide_eq_true_2 by set_solver|].
      by rewrite bool_decide_eq_false_2 by set_solver.
    + intros n. rewrite Hp2, bool_decide_eq_false_2, bool_decide_eq_true_2 by set_solver. apply Hp1.
  - destruct (read_entries_values k _ models Hne Hok) as (m1 & -> & Hv1 & Hp1). cbn [rbind].
    destruct (IH m1) as (m2 & -> & Hv2 & Hp2). exists m2. split_and!; [done| |].
    + intros n k' Hk'. rewrite Hv2, Hv1 by done. destruct (bool_decide_reflect (k' = k)) as [->|Hkk].
      * rewrite (bool_decide_eq_false_2 (k ∈ keys)) by done. by rewrite bool_decide_eq_true_2 by set_solver.
      * destruct (bool_decide_reflect (k' ∈ keys)); [by rewrite bool_decide_eq_true_2 by set_solver|].
        by rewrite bool_decide_eq_false_2 by set_solver.
    + intros n. rewrite Hp2, Hp1.
      destruct (bool_decide_reflect (PluginBillingExpr ∈ keys)); [by rewrite bool_decide_eq_true_2 by set_solver|].
      by rewrite bool_decide_eq_false_2 by set_solver.
Qed.

Lemma keys_complete k : k ∈ PRICING_KEYS.
Proof. unfold PRICING_KEYS. destruct k; set_solver. Qed.

Lemma keys_nodup : NoDup PRICING_KEYS.
Proof. by compute_done. Qed.

(** What the reader gives for a model under a key. *)
Definition priced (options : pricing_options) (n : jstr) (k : pricing_key) : option jsval :=
  match pricingValuesByModel options with Ok models => model_value models n k | Err _ => None end.

Definition priced_plugin (options : pricing_options) (n : jstr) : option (list (jstr * jstr)) :=
  match pricingValuesByModel options with Ok models => model_plugin models n | Err _ => None end.

Lemma priced_spec options : options_ok options ->
  (exists models, pricingValuesByModel options = Ok models) /\
  (forall n k, k <> PluginBillingExpr -> priced options n k = obj_get n (object_at options k)) /\
  forall n, priced_plugin options n = plugin_fold n (object_at options PluginBillingExpr) None.
Proof.
  intros Ho. unfold priced, priced_plugin, pricingValuesByModel.
  destruct (read_options_spec options PRICING_KEYS [] Ho keys_nodup) as (models & -> & Hv & Hp).
  split_and!; [by eexists| |].
  - intros n k Hk. rewrite Hv, bool_decide_eq_true_2 by (done || apply keys_complete). by destruct (obj_get n (object_at options k)).
  - intros n. rewrite Hp, bool_decide_eq_true_2 by apply keys_complete. done.
Qed.

(** *** Plugin expressions of one model and of the others *)
Lemma plugin_fold_app n o1 o2 acc : plugin_fold n (o1 ++ o2) acc = plugin_fold n o2 (plugin_fold n o1 acc).
Proof. apply foldl_app. Qed.

(** An entry of another model is skipped. *)
Definition skipped (n : jstr) (p : jstr * jsval) : Prop := variant_of n p.1 = false.

Lemma plugin_fold_skip n p acc : skipped n p -> plugin_fold n [p] acc = acc.
Proof.
  unfold skipped, variant_of, plugin_fold. cbn [foldl].
  destruct (splitPluginBillingExprKey p.1) as [[plugin model]|]; [|done]. intros ->. by destruct p.2.
Qed.

Lemma plugin_fold_skips n o acc : Forall (skipped n) o -> plugin_fold n o acc = acc.
Proof.
  induction 1 as [|p o Hp _ IH]; [done|]. change (p :: o) with ([p] ++ o).
  by rewrite plugin_fold_app, plugin_fold_skip.
Qed.

Lemma plugin_fold_filter n f o acc : (forall p, f p = false -> skipped n p) ->
  plugin_fold n (List.filter f o) acc = plugin_fold n o acc.
Proof.
  intros Hf. revert acc. induction o as [|p o IH]; intros acc; cbn [List.filter]; [done|].
  change (p :: o) with ([p] ++ o). rewrite plugin_fold_app.
  destruct (f p) eqn:E; [change (p :: ?l) with ([p] ++ l); by rewrite plugin_fold_app, IH|].
  rewrite IH. f_equal. symmetry. by apply plugin_fold_skip, Hf.
Qed.

Lemma insert_split {A} key (v : A) o : exists o1 o2, o = o1 ++ o2 /\ obj_insert key v o = o1 ++ (key, v) :: o2.
Proof.
  induction o as [|[k w] o IH]; [by exists [], []|]. destruct IH as (o1 & o2 & E1 & E2).
  assert (exists o1' o2', (k, w) :: o = o1' ++ o2' /\ (k, w) :: obj_insert key v o = o1' ++ (key, v) :: o2') as Hgo.
  { exists ((k, w) :: o1), o2. cbn [app]. by rewrite E1 at 1; rewrite E2. }
  simpl. destruct (array_index_of key) as [i|], (array_index_of k) as [j|]; try done.
  - destruct (i <? j); [by exists [], ((k, w) :: o)|done].
  - by exists [], ((k, w) :: o).
Qed.

Lemma plugin_fold_set n key v o acc : skipped n (key, v) -> plugin_fold n (obj_set key v o) acc = plugin_fold n o acc.
Proof.
  intros Hs. unfold obj_set. case_bool_decide.
  - clear H. revert acc. induction o as [|[k w] o IH]; intros acc; cbn [obj_update]; [done|].
    change ((k, w) :: o) with ([(k, w)] ++ o). destruct (bool_decide_reflect (k = key)) as [->|].
    + change ((key, v) :: o) with ([(key, v)] ++ o). rewrite !plugin_fold_app. f_equal.
      by rewrite !plugin_fold_skip.
    + change ((k, w) :: ?l) with ([(k, w)] ++ l). by rewrite !plugin_fold_app, IH.
  - destruct (insert_split key v o) as (o1 & o2 & E1 & ->). rewrite E1.
    change ((key, v) :: o2) with ([(key, v)] ++ o2). rewrite !plugin_fold_app. f_equal. by apply plugin_fold_skip.
Qed.

Lemma variant_key n plugin name : plugin_name plugin = true -> trim name <> [] ->
  variant_of n (plugin_key plugin name) = bool_decide (name = n).
Proof. intros H1 H2. unfold variant_of. by rewrite plugin_key_split. Qed.

Lemma apply_plugin_other n name table o : n <> name -> table_ok table -> trim name <> [] ->
  plugin_fold n (apply_plugin table o name) None = plugin_fold n o None.
Proof.
  intros Hne [_ Ht] Hn. unfold apply_plugin.
  transitivity (plugin_fold n (List.filter (fun p => negb (variant_of name p.1)) o) None).
  - generalize (List.filter (fun p => negb (variant_of name p.1)) o). clear o.
    induction Ht as [|[p e] table [Hp _] _ IH]; intros o; cbn [foldl fst snd]; [done|].
    rewrite IH. apply plugin_fold_set. unfold skipped. cbn [fst]. rewrite variant_key by done.
    by apply bool_decide_eq_false_2, not_eq_sym.
  - apply plugin_fold_filter. intros p Hp. apply negb_false_iff in Hp. unfold skipped. revert Hp. unfold variant_of.
    destruct (splitPluginBillingExprKey p.1) as [[? m]|]; [|done]. intros ->%bool_decide_eq_true.
    by apply bool_decide_eq_false_2, not_eq_sym.
Qed.

(** The table is rebuilt entry by entry under fresh keys. *)
Lemma apply_plugin_table name table o acc : Forall (fun p => plugin_name p.1 = true) table -> NoDup table.*1 ->
  trim name <> [] -> Forall (fun p => plugin_key p name ∉ o.*1) table.*1 ->
  plugin_fold name (foldl (fun o p => obj_set (plugin_key p.1 name) (J_str p.2) o) o table) acc
  = match table with
    | [] => plugin_fold name o acc
    | _ => Some (build table (default [] (plugin_fold name o acc)))
    end.
Proof.
  intros Ht Hnd Hn. revert o. induction Ht as [|[p e] table Hp Ht IH]; intros o Hf; [done|].
  cbn [fmap list_fmap fst] in Hnd, Hf. apply list.NoDup_cons in Hnd as [Hpt Hnd].
  apply Forall_cons_iff in Hf as [Hfp Hf]. cbn [foldl fst snd].
  assert (obj_set (plugin_key p name) (J_str e) o = o ++ [(plugin_key p name, J_str e)]) as Eset.
  { unfold obj_set. rewrite bool_decide_eq_false_2 by done. clear Hfp Hf.
    induction o as [|[k w] o IHo]; cbn [obj_insert]; [done|]. rewrite plugin_key_index. by rewrite IHo. }
  rewrite Eset.
  assert (plugin_fold name (o ++ [(plugin_key p name, J_str e)]) acc
    = Some (obj_set p e (default [] (plugin_fold name o acc)))) as Eone.
  { rewrite plugin_fold_app. unfold plugin_fold at 1. cbn [foldl fst snd].
    by rewrite plugin_key_split, bool_decide_eq_true_2 by done. }
  rewrite IH; [|done|].
  - destruct table as [|q table]; [by rewrite Eone|]. by rewrite Eone.
  - rewrite Forall_elem in *. intros q Hq. rewrite fmap_app. cbn. rewrite elem_of_app, list_elem_of_singleton.
    intros [Hin|Heq]; [by eapply Hf|].
    assert (Some (q, name) = Some (p, name)) as [= ->]; [|done].
    apply list_elem_of_fmap in Hq as ([q' e'] & -> & Hq). rewrite Forall_elem in Ht. specialize (Ht _ Hq). cbn [fst] in *.
    rewrite <- !plugin_key_split by done. by rewrite Heq.
Qed.

Lemma apply_plugin_self name table o : table_ok table -> trim name <> [] ->
  forall p, obj_get p (default [] (plugin_fold name (apply_plugin table o name) None)) = obj_get p table.
Proof.
  intros [Hnd Ht] Hn p. unfold apply_plugin.
  assert (Forall (skipped name) (List.filter (fun p => negb (variant_of name p.1)) o)) as Hskip.
  { apply Forall_elem. intros q Hq. apply list_elem_of_In, filter_In in Hq as [_ Hq]. by apply negb_true_iff. }
  rewrite apply_plugin_table; [|by apply (list.Forall_impl _ _ _ Ht); intros ? []|done|done|].
  - rewrite plugin_fold_skips by done. destruct table as [|q table]; [done|]. cbn [default from_option id].
    rewrite build_get by done. by destruct (obj_get p (q :: table)).
  - apply Forall_elem. intros q Hq Hin. apply list_elem_of_fmap in Hq as ([q' e] & -> & Hq).
    apply list_elem_of_fmap in Hin as ([k v] & Ek & Hin). cbn [fst] in *. subst k.
    rewrite Forall_elem in Hskip. rewrite Forall_elem in Ht. specialize (Hskip _ Hin). destruct (Ht _ Hq) as [Hq' _].
    unfold skipped in Hskip. cbn [fst] in *. rewrite variant_key in Hskip by done. by rewrite bool_decide_eq_true_2 in Hskip.
Qed.

(** *** One application *)
Lemma apply_values_priced options values names options' :
  options_ok options -> values_ok values -> Forall name_ok names ->
  applyPricingValues options values names = Ok options' ->
  options_ok options' /\
  (forall n k, k <> PluginBillingExpr -> priced options' n k =
     if bool_decide (n ∈ names) then pv_value values k else priced options n k) /\
  (forall n, n ∉ names \/ pv_plugin values = None -> priced_plugin options' n = priced_plugin options n) /\
  (forall n table, names = [n] -> pv_plugin values = Some table ->
     forall p, obj_get p (default [] (priced_plugin options' n)) = obj_get p table).
Proof.
  intros Ho Hv Hn E. destruct (apply_values_spec options values names Ho Hv Hn) as (o' & E' & Ho' & Hat).
  rewrite E in E'. injection E' as <-. destruct (priced_spec _ Ho) as (_ & Hp & Hpp).
  destruct (priced_spec _ Ho') as (_ & Hp' & Hpp'). split_and!; [done| | |].
  - intros n k Hk. rewrite Hp', Hat, Hp by done. unfold apply_option. rewrite bool_decide_eq_false_2 by done.
    apply apply_value_get.
  - intros n Hor. rewrite Hpp', Hat, Hpp. unfold apply_option. rewrite bool_decide_eq_true_2 by done.
    destruct (pv_plugin values) as [table|] eqn:Et; [|done]. destruct Hor as [Hnin|]; [|done].
    apply (vo_plugin _ Hv) in Et. generalize (object_at options PluginBillingExpr). clear E Hat.
    induction Hn as [|m names [_ Hm] _ IH]; intros o; cbn [foldl]; [done|].
    apply not_elem_of_cons in Hnin as [Hne Hnin]. rewrite IH by done. by apply apply_plugin_other.
  - intros n table -> Et p. rewrite Hpp', Hat. unfold apply_option. rewrite bool_decide_eq_true_2, Et by done.
    cbn [foldl]. apply apply_plugin_self; [by apply (vo_plugin _ Hv)|]. by apply Forall_cons_iff in Hn as [[_ ?] _].
Qed.

Lemma set_plugin_ok values : values_ok values -> values_ok (set_plugin None values).
Proof. intros [H1 H2]. by split. Qed.

(** *** A draft *)

(** What applying a draft with these values to the models [names] means for the
    prices that are read back: the named models have exactly its values, its own
    model has its plugin expressions, and nothing else changes. *)
Record draft_applied (data : model_draft) (values : pricing_values) (names : list jstr)
    (options options' : pricing_options) : Prop := {
  da_ok : options_ok options';
  da_named : forall n k, n ∈ names -> k <> PluginBillingExpr -> priced options' n k = pv_value values k;
  da_other : forall n k, n ∉ names -> k <> PluginBillingExpr -> priced options' n k = priced options n k;
  da_plugins : forall n, n <> md_name data \/ n ∉ names \/ pv_plugin values = None ->
    priced_plugin options' n = priced_plugin options n;
  da_table : forall table p, md_name data ∈ names -> pv_plugin values = Some table ->
    obj_get p (default [] (priced_plugin options' (md_name data))) = obj_get p table;
}.

Lemma draft_applied_exactly options data values names :
  options_ok options -> pricingFromDraft data = Ok values -> values_ok values -> Forall name_ok names ->
  exists options', applyPricingDraft options data names = Ok options' /\
    draft_applied data values names options options'.
Proof.
  intros Ho Hd Hv Hn. unfold applyPricingDraft. rewrite Hd. cbn [rbind]. case_bool_decide as Hone.
  - destruct (apply_values_spec options values names Ho Hv Hn) as (o' & E & _). exists o'. split; [done|].
    destruct (apply_values_priced _ _ _ _ Ho Hv Hn E) as (H1 & H2 & H3 & H4). split.
    + done.
    + intros n k Hin Hk. by rewrite H2, bool_decide_eq_true_2.
    + intros n k Hin Hk. by rewrite H2, bool_decide_eq_false_2.
    + intros n [Hne|Hor]; apply H3; [left|done]. by rewrite Hone, list_elem_of_singleton.
    + intros table p _ Ht. by apply H4.
  - destruct (apply_values_spec options (set_plugin None values) names Ho (set_plugin_ok _ Hv) Hn) as (o1 & E1 & _).
    rewrite E1. cbn [rbind]. destruct (apply_values_priced _ _ _ _ Ho (set_plugin_ok _ Hv) Hn E1) as (H1 & H2 & H3 & _).
    cbn [pv_value pv_plugin set_plugin] in *. case_bool_decide as Hin.
    + assert (Forall name_ok [md_name data]) as Hn1.
      { constructor; [|constructor]. rewrite Forall_elem in Hn. by apply Hn. }
      destruct (apply_values_spec o1 values [md_name data] H1 Hv Hn1) as (o2 & E2 & _). exists o2. split; [done|].
      destruct (apply_values_priced _ _ _ _ H1 Hv Hn1 E2) as (G1 & G2 & G3 & G4). split.
      * done.
      * intros n k Hnin Hk. rewrite G2 by done. case_bool_decide; [done|]. by rewrite H2, bool_decide_eq_true_2.
      * intros n k Hnin Hk. rewrite G2, H2 by done. rewrite !bool_decide_eq_false_2; [done|done|].
        by intros ->%list_elem_of_singleton.
      * intros n Hor. rewrite G3, H3; [done|by right|]. rewrite list_elem_of_singleton.
        destruct Hor as [?|[?|?]]; [by left|left; congruence|by right].
      * intros table p _ Ht. by apply G4.
    + exists o1. split; [done|]. split; [done| | | |done].
      * intros n k Hnin Hk. by rewrite H2, bool_decide_eq_true_2.
      * intros n k Hnin Hk. by rewrite H2, bool_decide_eq_false_2.
      * intros n _. apply H3. by right.
Qed.

(** ** The values of a draft *)
Lemma ratio_valid a b : 0 < b -> valid_binary 53 1024 (ratio_to_num a b) = true.
Proof.
  intros Hb. pose proof (ratio_to_num_canonical a b Hb) as H. destruct (ratio_to_num a b); try done.
  destruct H as [_ H]. by apply bounded_canonical.
Qed.

Lemma unsigned_valid s : valid_binary 53 1024 (unsigned_to_number s) = true.
Proof.
  unfold unsigned_to_number. case_bool_decide; [done|].
  destruct (scan_number s) as [[d []]|]; try done. apply dl_value_valid.
Qed.

Lemma to_number_valid s : valid_binary 53 1024 (to_number s) = true.
Proof.
  unfold to_number. destruct (trim s) as [|x t]; [done|].
  destruct (x =? 43); [apply unsigned_valid|]. destruct (x =? 45).
  { unfold n_neg. pose proof (unsigned_valid t). by destruct (unsigned_to_number t). }
  assert (forall b u, valid_binary 53 1024 (match radix_value b u with Some v => ratio_to_num v 1 | None => S754_nan end) = true) as Hr.
  { intros b u. destruct (radix_value b u); [by apply ratio_valid|done]. }
  destruct t as [|c u]; [apply unsigned_valid|]. cbv zeta.
  destruct ((x =? 48) && _); [apply Hr|]. destruct ((x =? 48) && _); [apply Hr|].
  destruct ((x =? 48) && _); [apply Hr|]. apply unsigned_valid.
Qed.

(** The draft's texts are code units, its plugin names are plugin names, and no
    field reads as [-0] (which JSON writes as [0]). *)
Record draft_ok (data : model_draft) : Prop := {
  do_fields : forall k t, md_fields data k = Some t -> to_number t <> S754_zero true;
  do_expression : units (draft_expression data) = true;
  do_plugin : forall table, md_plugin data = Some table -> table_ok table;
}.

Lemma set_value_ok k v values : json_ok v = true -> number_or_string v = true -> values_ok values ->
  values_ok (set_value k v values).
Proof.
  intros H1 H2 [Hv Hp]. split; [|done]. intros k' v'. cbn [pv_value set_value]. case_bool_decide; [by intros [= <-]|apply Hv].
Qed.

Lemma draft_fields_ok data keys values values' : draft_ok data -> values_ok values ->
  draft_fields data keys values = Ok values' -> values_ok values'.
Proof.
  intros Hd. revert values. induction keys as [|k keys IH]; intros values Hv; cbn [draft_fields]; [by intros [= <-]|].
  destruct (md_fields data k) as [[|c t]|] eqn:Ef; [by apply IH| |by apply IH].
  destruct (negb (is_finite (to_number (c :: t)))) eqn:Efin; [done|]. cbn [orb].
  destruct (n_ltb (to_number (c :: t)) n_zero); [done|]. apply IH. destruct (mode_keeps _ _); [|done].
  apply set_value_ok; [|done|done]. cbn [json_ok]. unfold json_num. rewrite to_number_valid.
  apply negb_false_iff in Efin. rewrite Efin. cbn [andb]. apply negb_true_iff, bool_decide_eq_false_2. by eapply do_fields.
Qed.

Lemma draft_values_ok data values : draft_ok data -> pricingFromDraft data = Ok values -> values_ok values.
Proof.
  intros Hd. unfold pricingFromDraft. intros H. apply rbind_ok in H as (v1 & H1 & H2).
  assert (values_ok v1) as Hv1.
  { eapply draft_fields_ok; [done| |exact H1]. apply set_value_ok; [by destruct (md_mode data) as [[]|]|done|].
    split; [done|]. apply (do_plugin _ Hd). }
  destruct (md_mode data) as [[]|]; injection H2 as <-; try done. apply set_value_ok; [|done|done].
  exact (do_expression _ Hd).
Qed.

(** ** The changes that are sent *)
Lemma differs_refl v : (forall x, v = Some x -> json_ok x = true /\ number_or_string x = true) -> differs v v = false.
Proof.
  destruct v as [v|]; [|done]. intros H. destruct (H v eq_refl) as [Hj Hn]. destruct v; try done; cbn [differs strict_equal].
  - cbn [json_ok] in Hj. unfold json_num in Hj. bsplit. by rewrite n_eqb_refl.
  - by rewrite bool_decide_eq_true_2.
Qed.

Lemma table_eq_refl t : NoDup (default [] t).*1 -> pluginExpressionsEqual t t = true.
Proof.
  intros H. unfold pluginExpressionsEqual. rewrite Nat.eqb_refl. cbn [andb]. apply forallb_forall. intros [k v] Hin.
  apply bool_decide_eq_true_2. apply obj_get_in; [done|]. by apply list_elem_of_In.
Qed.

Lemma plugin_fold_nodup n o acc : NoDup (default [] acc).*1 -> NoDup (default [] (plugin_fold n o acc)).*1.
Proof.
  revert acc. induction o as [|p o IH]; intros acc H; [done|]. unfold plugin_fold. cbn [foldl]. apply IH.
  destruct (splitPluginBillingExprKey p.1) as [[plugin model]|]; [|done]. destruct p.2; try done. case_bool_decide; [|done].
  cbn [default from_option id]. unfold obj_set. case_bool_decide; [by rewrite update_keys|].
  rewrite <- obj_insert_perm. cbn [fmap list_fmap fst]. by constructor.
Qed.

Lemma set_members_in seen l x : x ∈ set_members seen l <-> x ∈ l /\ x ∉ seen.
Proof.
  revert seen. induction l as [|y l IH]; intros seen; cbn [set_members]; [set_solver|].
  case_bool_decide; rewrite ?elem_of_cons, IH; [set_solver|]. rewrite elem_of_cons. set_unfold.
  destruct (decide (x = y)); naive_solver.
Qed.

(** A model whose values are the same before and after is not changed. *)
Lemma unchanged_model options before after entries version n :
  options_ok options -> pricingValuesByModel options = Ok before ->
  (forall k, k <> PluginBillingExpr -> model_value after n k = model_value before n k) ->
  model_plugin after n = model_plugin before n ->
  model_change entries version before after n = None.
Proof.
  intros Ho Eb Hv Hp. unfold model_change.
  assert (existsb (dirty_key (default no_values (obj_get n before)) (default no_values (obj_get n after))) PRICING_KEYS = false) as ->; [|done].
  apply not_true_iff_false. intros H. apply existsb_exists in H as (k & _ & Hk). revert Hk. unfold dirty_key.
  destruct (priced_spec _ Ho) as (_ & P1 & P2). unfold priced, priced_plugin in P1, P2. rewrite Eb in P1, P2.
  case_bool_decide as Hkp.
  - rewrite !default_plugin, Hp, table_eq_refl; [done|]. rewrite P2. apply plugin_fold_nodup. constructor.
  - rewrite !default_value, Hv by done. rewrite differs_refl; [done|]. intros x. rewrite P1 by done. intros Hx.
    destruct (options_ok_at options k Ho) as [_ [_ Hall]]. rewrite Forall_elem in Hall.
    apply obj_get_some, Hall in Hx as (_ & H1 & H2 & _). done.
Qed.

(** ** Theorems *)

(** C23: Saving a draft changes what was edited and nothing else: applied to well-formed
    options, a valid draft gives options in which each model it is applied to has
    exactly the values of the draft, the draft's own model has its plugin
    expressions, and every value and every plugin expression of every other model
    is what it was; and the changes sent to the server are for those models only. *)
Theorem draft_saves_only_names options data values names entries version :
  options_ok options -> draft_ok data -> pricingFromDraft data = Ok values -> Forall name_ok names ->
  exists options' changes, applyPricingDraft options data names = Ok options' /\
    draft_applied data values names options options' /\
    buildPricingChanges entries version options options' = Ok changes /\
    Forall (fun c => ch_model_name c ∈ names) changes.
Proof.
  intros Ho Hd Hv Hn.
  destruct (draft_applied_exactly options data values names Ho Hv (draft_values_ok _ _ Hd Hv) Hn) as (o' & Ha & Hap).
  destruct (priced_spec _ Ho) as ([before Eb] & _). destruct (priced_spec _ (da_ok _ _ _ _ _ Hap)) as ([after Ea] & _).
  eexists o', _. split; [done|]. split; [done|]. split.
  { unfold buildPricingChanges. rewrite Eb, Ea. cbn [rbind]. reflexivity. }
  apply Forall_elem. intros c Hc. apply list_elem_of_omap in Hc as (n & _ & Hc).
  assert (ch_model_name c = n) as En by (revert Hc; unfold model_change; case_match; [by intros [= <-]|done]).
  rewrite En. destruct (decide (n ∈ names)) as [|Hnin]; [done|].
  rewrite (unchanged_model options before after) in Hc; [done|done|done| |].
  - intros k Hk. pose proof (da_other _ _ _ _ _ Hap n k Hnin Hk) as H. unfold priced in H. by rewrite Eb, Ea in H.
  - pose proof (da_plugins _ _ _ _ _ Hap n (or_intror (or_introl Hnin))) as H. unfold priced_plugin in H. by rewrite Eb, Ea in H.
Qed.

(** ** A concrete save *)
Module PricingSamples.
Definition options : pricing_options := fun k =>
  match k with
  | ModelRatio => js "{" ++ json_stringify (js "a") ++ js ":1.5," ++ json_stringify (js "b") ++ js ":2}"
  | PluginBillingExpr => js "{" ++ json_stringify (js "sora::a") ++ js ":" ++ json_stringify (js "1") ++ js "}"
  | _ => js "{}"
  end.

Definition draft : model_draft :=
  ModelDraft (js "a") (Some [(js "veo", js "2")])
    (fun k => match k with ModelRatio => Some (js "0.75") | CacheRatio => Some [] | _ => None end)
    (Some PM_per_token) None None None None None.

Definition values : pricing_values :=
  match pricingFromDraft draft with Ok v => v | Err _ => no_values end.

Lemma options_are_ok : options_ok options.
Proof.
  intros k. exists (object_at options k). destruct k; (split; [vm_compute; reflexivity|]);
    (split; [vm_compute; reflexivity|]).
  all: let o := eval vm_compute in (object_at options ModelRatio) in
       let p := eval vm_compute in (object_at options PluginBillingExpr) in
       first [ change (object_at options ?k) with (@nil (jstr * jsval)); constructor
             | change (object_at options ?k) with o | change (object_at options ?k) with p ].
  all: repeat constructor; try (vm_compute; reflexivity); try discriminate.
  by eexists.
Qed.

Lemma draft_is_ok : draft_ok draft.
Proof.
  split.
  - intros k t. destruct k; cbn; intros [= <-]; vm_compute; discriminate.
  - reflexivity.
  - intros table [= <-]. split; [compute_done|]. by repeat constructor.
Qed.

Lemma draft_saves_only_names_witness :
  exists options' changes, applyPricingDraft options draft [js "a"] = Ok options' /\
    draft_applied draft values [js "a"] options options' /\
    buildPricingChanges [] (js "v0") options options' = Ok changes /\
    Forall (fun c => ch_model_name c ∈ [js "a"]) changes.
Proof.
  apply (draft_saves_only_names options draft values [js "a"] [] (js "v0"));
    [exact options_are_ok|exact draft_is_ok|reflexivity|].
  by repeat constructor.
Defined.
End PricingSamples.
