(* ===== verification/PricingRowFacts.v ===== *)
(** * Opening and saving a stored price

    The editor opens the stored values of a model as a draft of texts
    ([pricingRow], through the snapshots of all models) and saves the draft as
    values ([pricingFromDraft]): unchanged, it saves what was stored, except that
    an expression the editor did not write is combined anew. *)
From Stdlib Require Import SpecFloat.
From stdpp Require Import strings.
From S2P Require Import Prelude JsString JsNumber JsNumberFacts JsValue JsJson NumberText JsonText.
From S2P Require Import Syntax RequestRules RuleRoundtrip RuleSplit TaskDisplay PluginPricing TaskConfigFacts DynamicPriceFacts PricingOptions PricingFacts.

#[local] Open Scope Z_scope.

(** ** The options of one model *)
Lemma braces_outer t : no_outer_space ([123] ++ t ++ [125]) = true.
Proof. unfold no_outer_space. by rewrite app_assoc, rev_app_distr. Qed.

Lemma object_text_trim o : trim (json_text (J_obj o)) = json_text (J_obj o).
Proof. apply trim_id. cbn [json_text]. apply braces_outer. Qed.

Lemma object_map_reads o : json_ok (J_obj o) = true -> parseJsonObjectMap (json_text (J_obj o)) = Some o.
Proof.
  intros H. unfold parseJsonObjectMap. rewrite object_text_trim.
  destruct (json_text (J_obj o)) as [|c t] eqn:E; [done|]. rewrite <- E. by rewrite json_text_roundtrip.
Qed.

Lemma single_json name v : units name = true -> json_ok v = true -> json_ok (J_obj [(name, v)]) = true.
Proof. intros Hn Hv. unfold units in Hn. cbn. by rewrite Hn, Hv. Qed.

(** The map of an option of the row: the value under the name, if there is one. *)
Definition row_map (name : jstr) (v : option jsval) : list (jstr * jsval) :=
  match v with Some v => [(name, v)] | None => [] end.

Lemma row_map_json name v : units name = true -> (forall x, v = Some x -> json_ok x = true) ->
  json_ok (J_obj (row_map name v)) = true.
Proof. intros Hn Hv. destruct v as [x|]; [by apply single_json, Hv|done]. Qed.

Lemma row_option_text name values k : k <> PluginBillingExpr ->
  row_options name values k = json_text (J_obj (row_map name (pv_value values k))).
Proof. intros Hk. unfold row_options. by rewrite bool_decide_eq_false_2. Qed.

(** The keys that are not number fields. *)
Lemma field_key k : k ∈ pricingFieldMap <-> k <> BillingMode /\ k <> BillingExpr /\ k <> PluginBillingExpr.
Proof.
  rewrite <- (bool_decide_spec (k ∈ pricingFieldMap)). destruct k; vm_compute; naive_solver.
Qed.

(** ** Stored values *)

(** A number a price field may hold. *)
Definition price_number (v : jsval) : Prop :=
  exists x, v = J_num x /\ json_num x = true /\ n_leb n_zero x = true.

(** Values as the editor stores them: the mode and the fields of that mode, an
    expression only in tiered mode, which can be split at all. *)
Record stored_values (values : pricing_values) : Prop := {
  sv_numbers : forall k v, k ∈ pricingFieldMap -> pv_value values k = Some v -> price_number v;
  sv_plugin : forall table, pv_plugin values = Some table -> table_ok table;
  sv_mode :
    (pv_value values BillingMode = Some (J_str (js "ratio")) /\ pv_value values BillingExpr = None /\
     (is_Some (pv_value values ModelPrice) ->
        forall k, k ∈ pricingFieldMap -> k <> ModelPrice -> pv_value values k = None)) \/
    (pv_value values BillingMode = Some (J_str (js "tiered_expr")) /\
     exists e s, pv_value values BillingExpr = Some (J_str e) /\ units e = true /\
       splitBillingExprAndRequestRules e = Ok s);
}.

Lemma price_number_ok v : price_number v -> json_ok v = true /\ isFiniteNonNegativeNumber v = true.
Proof.
  intros (x & -> & Hj & Hp). split; [done|]. cbn. unfold json_num in Hj. bsplit. by apply andb_true_iff.
Qed.

Lemma not_negative x : n_leb n_zero x = true -> n_ltb x n_zero = false.
Proof. destruct x as [[]|[]| |[] m e]; done. Qed.

Lemma stored_json values k v : stored_values values -> k <> PluginBillingExpr -> pv_value values k = Some v -> json_ok v = true.
Proof.
  intros Hs Hk Hv. destruct (decide (k ∈ pricingFieldMap)) as [Hin|Hin].
  - by apply price_number_ok, (sv_numbers _ Hs k).
  - destruct (sv_mode _ Hs) as [(Hm & He & _)|(Hm & e & s & He & Hu & _)]; destruct k; try done;
      try (exfalso; by apply Hin, field_key); rewrite ?Hm, ?He in Hv;
      try done; injection Hv as <-; done.
Qed.

(** ** The snapshot *)
Section Row.
Context (inherited : jstr -> jstr) (name : jstr) (values : pricing_values).
Context (Hname : name_ok name) (Hplain : name ∉ inherited_names) (Hs : stored_values values).

Lemma row_parses k : k <> PluginBillingExpr ->
  parseJsonObjectMap (row_options name values k) = Some (row_map name (pv_value values k)).
Proof.
  intros Hk. rewrite row_option_text by done. apply object_map_reads, row_map_json; [apply Hname|].
  intros x Hx. by eapply stored_json.
Qed.

Lemma row_numbers k : k ∈ pricingFieldMap ->
  parseJsonNumberMap (row_options name values k) = Some (row_map name (pv_value values k)).
Proof.
  intros Hin. unfold parseJsonNumberMap. rewrite row_parses by (by apply field_key in Hin as (_ & _ & ?)).
  cbn [mbind option_bind]. destruct (pv_value values k) as [v|] eqn:Ev; [|done]. cbn.
  by rewrite (proj2 (price_number_ok v (sv_numbers _ Hs k v Hin Ev))).
Qed.

(** The text of a field. *)
Definition field_text (v : option jsval) : jstr := match v with Some v => js_to_string v | None => [] end.

Lemma row_number_text k : number_text inherited (row_map name (pv_value values k)) name = field_text (pv_value values k).
Proof.
  unfold number_text, row_map. destruct (pv_value values k) as [v|].
  - by rewrite obj_get_cons, bool_decide_eq_true_2.
  - change (obj_get name []) with (@None jsval). by rewrite bool_decide_eq_false_2.
Qed.

Lemma plugin_row_entries : exists o, plugin_entries (row_options name values PluginBillingExpr) = Ok o /\
  Forall (fun p => exists plugin, splitPluginBillingExprKey p.1 = Some (plugin, name)) o.
Proof.
  unfold row_options. rewrite bool_decide_eq_true_2 by done.
  set (table := default [] (pv_plugin values)).
  assert (table_ok table) as Ht.
  { subst table. destruct (pv_plugin values) as [t|] eqn:E; [by apply (sv_plugin _ Hs)|]. split; [constructor|constructor]. }
  pose proof (apply_plugin_ok table [] name) as Hok. unfold apply_plugin in Hok. cbn [List.filter] in Hok.
  specialize (Hok ltac:(split; [done|constructor]) Ht Hname).
  set (o := foldl (fun o p => obj_set (plugin_key p.1 name) (J_str p.2) o) [] table) in *.
  exists o. unfold plugin_entries. rewrite object_text_trim. split.
  { destruct (json_text (J_obj o)) as [|c t] eqn:E; [done|]. rewrite <- E.
    by rewrite json_text_roundtrip by (by eapply object_json). }
  subst o. destruct Ht as [_ Ht]. clear Hok.
  assert (Forall (fun p : jstr * jsval => exists plugin, splitPluginBillingExprKey p.1 = Some (plugin, name)) []) as H0 by constructor.
  revert H0. generalize (@nil (jstr * jsval)) as o. induction Ht as [|[p e] t [Hp _] _ IH]; intros o Ho; cbn [foldl fst snd]; [done|].
  apply IH, set_forall; [|done]. exists p. apply plugin_key_split; [done|apply Hname].
Qed.

Lemma plugin_tables_keys o : Forall (fun p => exists plugin, splitPluginBillingExprKey p.1 = Some (plugin, name)) o ->
  Forall (fun k => k = name) (plugin_tables o).*1.
Proof.
  intros H. unfold plugin_tables.
  assert (Forall (fun k => k = name) (@nil (jstr * list (jstr * jsval))).*1) as H0 by constructor.
  revert H0. generalize (@nil (jstr * list (jstr * jsval))) as t.
  induction H as [|p o [plugin Hp] _ IH]; intros t Ht; cbn [foldl]; [done|]. apply IH. rewrite Hp.
  clear IH Hp. generalize (obj_set plugin p.2 (default [] (obj_get name t))). intros x.
  induction t as [|[k w] t IHt]; cbn [map_set fmap list_fmap fst]; [by repeat constructor|].
  cbn [fmap list_fmap fst] in Ht. apply Forall_cons_iff in Ht as [-> Ht]. rewrite bool_decide_eq_true_2 by done.
  by constructor.
Qed.

Lemma set_members_single l : l <> [] -> Forall (fun k => k = name) l -> set_members [] l = [name].
Proof.
  destruct l as [|x l]; [done|]. intros _ H. apply Forall_cons_iff in H as [-> H]. cbn [set_members].
  rewrite bool_decide_eq_false_2 by set_solver. f_equal. induction H as [|y l -> _ IH]; [done|]. cbn [set_members].
  by rewrite bool_decide_eq_true_2 by set_solver.
Qed.

Lemma row_map_keys v : Forall (fun k => k = name) (row_map name v).*1.
Proof. destruct v; cbn; by repeat constructor. Qed.

(** The snapshot of the model, with the fields read from its values. *)
Lemma row_snapshot : exists r, pricingRows inherited (row_options name values) = Ok [r] /\ sn_name r = name /\
  (forall k, k ∈ pricingFieldMap -> sn_fields r k = field_text (pv_value values k)) /\
  match pv_value values BillingExpr with
  | Some (J_str e) => sn_mode r = PM_tiered_expr /\
      exists s, splitBillingExprAndRequestRules e = Ok s /\ sn_expr r = Some (se_billingExpr s, se_requestRuleExpr s)
  | _ => sn_mode r <> PM_tiered_expr
  end.
Proof.
  unfold pricingRows, buildModelSnapshots. destruct plugin_row_entries as (o & -> & Ho). cbn [rbind].
  rewrite (row_parses BillingMode), (row_parses BillingExpr) by done.
  change (default [] (Some ?x)) with x. cbv zeta.
  set (numbers := fun k => default [] (parseJsonNumberMap (row_options name values k))).
  assert (forall k, k ∈ pricingFieldMap -> numbers k = row_map name (pv_value values k)) as Hnum.
  { intros k Hk. subst numbers. cbn beta. by rewrite row_numbers. }
  set (names := set_members [] _).
  assert (names = [name]) as ->.
  { subst names. apply set_members_single.
    - destruct (sv_mode _ Hs) as [(-> & _)|(-> & _)]; cbn [row_map fmap list_fmap fst]; intros E;
        apply app_eq_nil in E as [_ E]; apply app_eq_nil in E as [_ E]; done.
    - apply Forall_app_2; [by apply plugin_tables_keys|]. apply Forall_app_2; [|apply Forall_app_2; apply row_map_keys].
      cbn [map concat]. rewrite !row_numbers by (by apply field_key).
      repeat (apply Forall_app_2; [apply row_map_keys|]).
      constructor. }
  cbn [map rseq]. unfold model_snapshot.
  assert (forall k, k ∈ pricingFieldMap -> number_text inherited (numbers k) name = field_text (pv_value values k)) as Htext.
  { intros k Hk. rewrite Hnum by done. apply row_number_text. }
  destruct (sv_mode _ Hs) as [(Hm & He & _)|(Hm & e & s & He & _ & Hsp)]; rewrite Hm, He; cbn [row_map];
    rewrite obj_get_cons, bool_decide_eq_true_2 by done; cbn [strict_equal].
  - rewrite bool_decide_eq_false_2 by (vm_compute; discriminate). cbn [rbind]. eexists. split; [done|].
    split; [done|]. split; [exact Htext|]. cbn [sn_mode]. by case_match.
  - rewrite bool_decide_eq_true_2 by done. unfold expr_text. rewrite obj_get_cons, bool_decide_eq_true_2 by done.
    cbn [rbind]. rewrite Hsp. cbn [rbind]. eexists. split; [done|]. split; [done|]. split; [exact Htext|].
    split; [done|]. by exists s.
Qed.

(** The fields of the draft the editor opens are stored as they were. *)
Lemma row_fields (data : model_draft) (v0 : pricing_values) keys :
  (forall k, k ∈ keys -> k ∈ pricingFieldMap) ->
  (forall k, k ∈ keys -> md_fields data k = Some (field_text (pv_value values k))) ->
  (forall k, k ∈ keys -> is_Some (pv_value values k) -> mode_keeps (md_mode data) k = true) ->
  exists v1, draft_fields data keys v0 = Ok v1 /\ pv_plugin v1 = pv_plugin v0 /\
    forall k, pv_value v1 k = if bool_decide (k ∈ keys)
                             then match pv_value values k with Some v => Some v | None => pv_value v0 k end
                             else pv_value v0 k.
Proof using Hs.
  clear Hplain Hname inherited name. revert v0. induction keys as [|k keys IH]; intros v0 Hk Hf Hm; [by exists v0|]. cbn [draft_fields].
  rewrite (Hf k) by set_solver. destruct (pv_value values k) as [v|] eqn:Ev; cbn [field_text].
  - assert (price_number v) as (x & -> & Hj & Hp) by (apply (sv_numbers _ Hs k); [set_solver|done]).
    cbn [js_to_string]. destruct (num_text_head x Hj) as (c & t & Et & _). rewrite Et.
    assert (to_number (c :: t) = x) as ->.
    { rewrite <- Et. unfold json_num in Hj. bsplit. by apply number_text_roundtrip. }
    assert (is_finite x = true) as -> by (unfold json_num in Hj; by bsplit). rewrite not_negative by done. cbn [negb orb].
    rewrite Hm by (set_solver || by eexists).
    destruct (IH (set_value k (J_num x) v0)) as (v1 & E & Hpl & Hv); [set_solver..|].
    exists v1. split; [done|]. split; [by rewrite Hpl|]. intros k'. rewrite Hv. cbn [pv_value set_value].
    destruct (bool_decide_reflect (k' = k)) as [->|Hne].
    + rewrite (bool_decide_eq_true_2 (k ∈ k :: keys)) by set_solver. rewrite Ev. by case_match.
    + destruct (bool_decide_reflect (k' ∈ keys)); [by rewrite bool_decide_eq_true_2 by set_solver|].
      by rewrite bool_decide_eq_false_2 by set_solver.
  - destruct (IH v0) as (v1 & E & Hpl & Hv); [set_solver..|]. exists v1. split; [done|]. split; [done|].
    intros k'. rewrite Hv. destruct (decide (k' = k)) as [->|Hne].
    + rewrite (bool_decide_eq_true_2 (k ∈ k :: keys)) by set_solver. rewrite Ev. by case_match.
    + destruct (bool_decide_reflect (k' ∈ keys)); [by rewrite bool_decide_eq_true_2 by set_solver|].
      by rewrite bool_decide_eq_false_2 by set_solver.
Qed.
End Row.

(** The mode in which a snapshot is opened. *)
Definition opened_mode (r : pricing_snapshot) : pricing_mode :=
  match sn_mode r with
  | PM_tiered_expr => PM_tiered_expr
  | _ => if bool_decide (sn_fields r ModelPrice = []) then PM_per_token else PM_per_request
  end.

Section Opened.
Context (values : pricing_values) (r : pricing_snapshot) (Hs : stored_values values).
Context (Hfields : forall k, k ∈ pricingFieldMap -> sn_fields r k = field_text (pv_value values k)).
Context (Hmode : sn_mode r = PM_tiered_expr <-> is_Some (pv_value values BillingExpr)).

Lemma opened_tiered : opened_mode r = PM_tiered_expr <-> is_Some (pv_value values BillingExpr).
Proof. rewrite <- Hmode. unfold opened_mode. destruct (sn_mode r); try done; by case_bool_decide. Qed.

Lemma opened_text : field_text (pv_value values ModelPrice) = [] <-> pv_value values ModelPrice = None.
Proof.
  destruct (pv_value values ModelPrice) as [v|] eqn:E; [|done]. split; [|done]. cbn [field_text].
  destruct (sv_numbers _ Hs ModelPrice v) as (x & -> & Hj & _); [by apply field_key|done|].
  cbn [js_to_string]. by destruct (num_text_head x Hj) as (c & t & -> & _).
Qed.

(** It keeps every field that is stored. *)
Lemma opened_keeps k : k ∈ pricingFieldMap -> is_Some (pv_value values k) ->
  mode_keeps (Some (opened_mode r)) k = true.
Proof.
  intros Hk HS. destruct (sv_mode _ Hs) as [(_ & He & Hex)|(_ & e & s & He & _)].
  - assert (opened_mode r <> PM_tiered_expr) as Hnt by (rewrite opened_tiered, He; by intros []).
    unfold opened_mode in *. rewrite Hfields in * by (by apply field_key).
    destruct (decide (k = ModelPrice)) as [->|Hne].
    + rewrite bool_decide_eq_false_2 in * by (rewrite opened_text; intros E; rewrite E in HS; by destruct HS).
      by destruct (sn_mode r).
    + assert (pv_value values ModelPrice = None) as Hp.
      { destruct (pv_value values ModelPrice) eqn:E; [|done]. rewrite (Hex ltac:(by eexists) k Hk Hne) in HS. by destruct HS. }
      rewrite bool_decide_eq_true_2 in * by (by apply opened_text).
      destruct (sn_mode r); try done; cbn [mode_keeps]; by apply negb_true_iff, bool_decide_eq_false_2.
  - assert (opened_mode r = PM_tiered_expr) as -> by (apply opened_tiered; rewrite He; by eexists). done.
Qed.
End Opened.

(** The expression a reopened one is stored as: the price in parentheses and its
    rules, or the expression itself. *)
Definition reopened (e : jstr) : option jstr :=
  match splitBillingExprAndRequestRules e with
  | Ok s => Some (combineBillingExpr (se_billingExpr s) (se_requestRuleExpr s))
  | Err _ => None
  end.


(** ** A stored expression with a ratio beside it *)
Definition sample_values : pricing_values :=
  PricingValues (fun k => match k with
    | BillingMode => Some (J_str (js "tiered_expr"))
    | BillingExpr => Some (J_str (js "p * 2 + c * 8 > 4 ? tier('a', p) : tier('b', c)"))
    | ModelRatio => Some (J_num (to_number (js "1.5")))
    | _ => None
    end) (Some [(js "veo", js "2")]).

Lemma sample_values_stored : stored_values sample_values.
Proof.
  split.
  - intros k v Hk. apply field_key in Hk as (H1 & H2 & _). destruct k; try discriminate; try done.
    intros [= <-]. eexists. split; [done|]. by vm_compute.
  - intros table [= <-]. split; [compute_done|]. by repeat constructor.
  - right. split; [done|]. exists (js "p * 2 + c * 8 > 4 ? tier('a', p) : tier('b', c)"), (SplitExpr (js "p * 2 + c * 8 > 4 ? tier('a', p) : tier('b', c)") []).
    split_and!; vm_compute; reflexivity.
Qed.

(** A price without parentheses gets them. *)
Example reopened_normalizes :
  reopened (js "tier('a', p) * (hour('UTC') >= 18 ? 2 : 1)") = Some (js "(tier('a', p)) * (hour('UTC') >= 18 ? 2 : 1)").
Proof. vm_compute. reflexivity. Qed.

Lemma sample_expression_written : editor_written (js "p * 2 + c * 8 > 4 ? tier('a', p) : tier('b', c)").
Proof.
  right. split; [vm_compute; reflexivity|]. left. exists (js "p * 2 + c * 8 > 4 "), (js " tier('a', p) : tier('b', c)").
  split; vm_compute; reflexivity.
Qed.

