(* ===== verification/StatusCodes.v ===== *)
(** * HTTP status code rules

    The lists of status codes of the request policies ([lib/http-status-code-rules.ts]):
    a text of codes and ranges is read, its ranges are sorted and merged, and the
    merged ranges are written as the normal form of the text. *)
From stdpp Require Import strings.
From S2P Require Import Prelude JsString JsNumber JsNumberFacts JsValue JsJson NumberText.

#[local] Open Scope Z_scope.

(** [StatusCodeRange] *)
Record code_range := CodeRange { cr_start : Z; cr_end : Z }.

#[global] Instance code_range_eq_dec : EqDecision code_range.
Proof. solve_decision. Defined.

Record parsed_rules := ParsedRules {
  pr_ok : bool;
  pr_ranges : list code_range;
  pr_tokens : list jstr;
  pr_normalized : jstr;
  pr_invalidTokens : list jstr;
}.

(** [/^\d+$/.test(s)] *)
Definition isNumber (s : jstr) : bool := match s with [] => false | _ => forallb is_digit s end.

(** [Number.parseInt] of a run of digits; a value beyond the exact integers is
    rejected as any value above 599 is. *)
Definition isValidCode (code : Z) : bool := (100 <=? code) && (code <=? 599).

Definition parseToken (token : jstr) : option code_range :=
  let cleaned := List.filter (fun c => negb (is_space c)) (trim token) in
  match cleaned with
  | [] => None
  | _ =>
      if includes (js "-") cleaned then
        match split_at 45 cleaned with
        | a :: b :: _ =>
            if negb (isNumber a) || negb (isNumber b) then None
            else
              let start := digits_value a in
              let end_ := digits_value b in
              if negb (isValidCode start) || negb (isValidCode end_) || (start >? end_) then None
              else Some (CodeRange start end_)
        | _ => None
        end
      else if negb (isNumber cleaned) then None
      else
        let code := digits_value cleaned in
        if negb (isValidCode code) then None else Some (CodeRange code code)
  end.

(** The comparison of the sort: [a] goes after [b]. *)
Definition range_after (a b : code_range) : bool :=
  if cr_start a =? cr_start b then cr_end a >? cr_end b else cr_start a >? cr_start b.

Fixpoint insert_range (x : code_range) (l : list code_range) : list code_range :=
  match l with
  | [] => [x]
  | y :: l => if range_after x y then y :: insert_range x l else x :: y :: l
  end.

Definition sort_ranges (l : list code_range) : list code_range := foldr insert_range [] l.

(** The reduction: [merged] without its last range, and that range. *)
Fixpoint merge_into (merged : list code_range) (last : code_range) (l : list code_range) : list code_range :=
  match l with
  | [] => merged ++ [last]
  | current :: l =>
      if cr_start current >? cr_end last + 1 then merge_into (merged ++ [last]) current l
      else merge_into merged (CodeRange (cr_start last) (Z.max (cr_end last) (cr_end current))) l
  end.

Definition mergeRanges (ranges : list code_range) : list code_range :=
  match sort_ranges ranges with
  | [] => []
  | r :: l => merge_into [] r l
  end.

Definition range_text (r : code_range) : jstr :=
  if cr_start r =? cr_end r then dec_of_Z (cr_start r)
  else dec_of_Z (cr_start r) ++ js "-" ++ dec_of_Z (cr_end r).

(** The trimmed, non-empty segments between commas, ASCII or full-width. *)
Definition segments (raw : jstr) : list jstr :=
  List.filter (fun s => negb (bool_decide (s = [])))
    (map trim (split_at 44 (map (fun c => if c =? 65292 then 44 else c) raw))).

Definition parseHttpStatusCodeRules (input : jsval) : parsed_rules :=
  let raw := trim (if is_nullish input then [] else js_to_string input) in
  match raw with
  | [] => ParsedRules true [] [] [] []
  | _ =>
      let parsed := map (fun s => (s, parseToken s)) (segments raw) in
      let invalid := map fst (List.filter (fun p => bool_decide (p.2 = None)) parsed) in
      let ranges := omap snd parsed in
      match invalid with
      | [] =>
          let merged := mergeRanges ranges in
          let tokens := map range_text merged in
          ParsedRules true merged tokens (join (js ",") tokens) []
      | _ => ParsedRules false [] [] raw invalid
      end
  end.

(** ** Sets of codes *)
Definition covers (r : code_range) (c : Z) : Prop := cr_start r <= c <= cr_end r.
Definition covered (l : list code_range) (c : Z) : Prop := exists r, r ∈ l /\ covers r c.

Definition range_ok (r : code_range) : Prop := 100 <= cr_start r /\ cr_start r <= cr_end r /\ cr_end r <= 599.

(** Sorted, disjoint and not even adjacent. *)
Fixpoint separated (l : list code_range) : Prop :=
  match l with
  | [] => True
  | r :: l => Forall (fun r' => cr_end r + 1 < cr_start r') l /\ separated l
  end.

Lemma covered_cons r l c : covered (r :: l) c <-> covers r c \/ covered l c.
Proof. unfold covered. set_solver. Qed.

Lemma covered_app a b c : covered (a ++ b) c <-> covered a c \/ covered b c.
Proof. unfold covered. set_solver. Qed.

Lemma insert_perm x l : Permutation (x :: l) (insert_range x l).
Proof.
  induction l as [|y l IH]; cbn [insert_range]; [done|]. destruct (range_after x y); [|done].
  rewrite <- IH. constructor.
Qed.

Lemma sort_perm l : Permutation l (sort_ranges l).
Proof.
  induction l as [|x l IH]; [done|]. cbn [sort_ranges foldr]. fold (sort_ranges l). rewrite <- insert_perm. by constructor.
Qed.

(** Sorted by their starts. *)
Fixpoint starts_sorted (l : list code_range) : Prop :=
  match l with
  | [] => True
  | r :: l => Forall (fun r' => cr_start r <= cr_start r') l /\ starts_sorted l
  end.

Lemma insert_starts x l : starts_sorted l -> starts_sorted (insert_range x l).
Proof.
  induction l as [|y l IH]; cbn [insert_range]; [by repeat constructor|]. intros [Hy Hl].
  assert (cr_start y <= cr_start x -> starts_sorted (y :: insert_range x l)) as Hafter.
  { intros H. split; [|by apply IH]. rewrite <- insert_perm. by constructor. }
  assert (cr_start x <= cr_start y -> starts_sorted (x :: y :: l)) as Hbefore.
  { intros H. split; [|done]. constructor; [done|]. apply (list.Forall_impl _ _ _ Hy). lia. }
  unfold range_after. destruct (Z.eqb_spec (cr_start x) (cr_start y)) as [E|E].
  - destruct (cr_end x >? cr_end y); [apply Hafter|apply Hbefore]; lia.
  - rewrite Z.gtb_ltb. destruct (Z.ltb_spec (cr_start y) (cr_start x)); [apply Hafter|apply Hbefore]; lia.
Qed.

Lemma sort_starts l : starts_sorted (sort_ranges l).
Proof. induction l as [|x l IH]; [done|]. by apply insert_starts. Qed.

(** ** Merging *)
Lemma separated_snoc l r : separated (l ++ [r]) <-> separated l /\ Forall (fun r' => cr_end r' + 1 < cr_start r) l.
Proof.
  induction l as [|x l IH]; cbn [app separated]; [by split; [repeat constructor|]|].
  rewrite IH, Forall_app, !Forall_cons_iff. split; [|naive_solver].
  intros ([H1 [H2 _]] & H3 & H4). tauto.
Qed.

Lemma merge_spec acc last l :
  separated (acc ++ [last]) -> Forall range_ok (acc ++ [last]) -> Forall range_ok l ->
  Forall (fun r => cr_start last <= cr_start r) l -> starts_sorted l ->
  separated (merge_into acc last l) /\ Forall range_ok (merge_into acc last l) /\
  forall c, covered (merge_into acc last l) c <-> covered (acc ++ [last]) c \/ covered l c.
Proof.
  revert acc last. induction l as [|r l IH]; intros acc last Hsep Hok Hl Hs Hsort; cbn [merge_into].
  { split_and!; [done..|]. intros c. unfold covered at 3. set_solver. }
  apply Forall_cons_iff in Hl as [Hr Hl]. apply Forall_cons_iff in Hs as [Hs1 Hs]. destruct Hsort as [Hrl Hsort].
  apply separated_snoc in Hsep as [Hd1 Hd2]. apply Forall_app in Hok as [Hok1 Hok2].
  apply Forall_cons_iff in Hok2 as [Hlast _]. unfold range_ok in Hr, Hlast. rewrite Z.gtb_ltb.
  destruct (Z.ltb_spec (cr_end last + 1) (cr_start r)) as [Hgap|Hgap].
  - destruct (IH (acc ++ [last]) r) as (H1 & H2 & H3); try done.
    + apply separated_snoc. split; [by apply separated_snoc|]. apply Forall_app. split; [|by repeat constructor].
      apply (list.Forall_impl _ _ _ Hd2). lia.
    + repeat apply Forall_app_2; repeat constructor; try done; unfold range_ok; lia.
    + split_and!; [done..|]. intros c. rewrite H3, covered_app, covered_cons, (covered_cons r l).
      unfold covered at 2. set_solver.
  - destruct (IH acc (CodeRange (cr_start last) (Z.max (cr_end last) (cr_end r)))) as (H1 & H2 & H3); try done.
    + apply separated_snoc. by split.
    + apply Forall_app_2; [done|]. repeat constructor; cbn; lia.
    + split_and!; [done..|]. intros c. rewrite H3, !covered_app, !covered_cons. unfold covers. cbn [cr_start cr_end].
      split; [|intuition lia]. intros [[H|[H|H]]|H]; [tauto| |tauto|tauto].
      destruct (Z.le_gt_cases c (cr_end last)); [left; right; left; lia|right; left; lia].
Qed.

Lemma covered_perm l l' c : Permutation l l' -> covered l c -> covered l' c.
Proof. intros Hp (r & Hin & Hr). exists r. split; [by rewrite <- Hp|done]. Qed.

Lemma merged_spec l : Forall range_ok l ->
  separated (mergeRanges l) /\ Forall range_ok (mergeRanges l) /\ forall c, covered (mergeRanges l) c <-> covered l c.
Proof.
  intros Hok. unfold mergeRanges. pose proof (sort_perm l) as Hp. pose proof (sort_starts l) as Hs.
  assert (forall c, covered (sort_ranges l) c <-> covered l c) as Hc.
  { intros c. split; apply covered_perm; [by symmetry|done]. }
  rewrite Hp in Hok. destruct (sort_ranges l) as [|r l'] eqn:E; [split_and!; [done|constructor|done]|].
  apply Forall_cons_iff in Hok as [Hr Hl]. destruct Hs as [Hs1 Hs2].
  destruct (merge_spec [] r l') as (H1 & H2 & H3); [by split; [apply Forall_nil|]|by apply Forall_cons_iff|done..|].
  split_and!; [done..|]. intros c. rewrite H3, <- Hc, covered_cons. cbn [app]. rewrite covered_cons.
  unfold covered at 1. set_solver.
Qed.

(** A separated list is its own normal form, *)
Lemma merge_separated acc last l : separated (last :: l) -> merge_into acc last l = acc ++ last :: l.
Proof.
  revert acc last. induction l as [|r l IH]; intros acc last [H1 H2]; cbn [merge_into]; [done|].
  apply Forall_cons_iff in H1 as [H1 _]. rewrite Z.gtb_ltb, (proj2 (Z.ltb_lt _ _)) by lia.
  rewrite IH by done. by rewrite <- app_assoc.
Qed.

Lemma sort_separated l : Forall range_ok l -> separated l -> sort_ranges l = l.
Proof.
  induction l as [|r l IH]; [done|]. intros Hok [H1 H2]. apply Forall_cons_iff in Hok as [Hr Hok].
  cbn [sort_ranges foldr]. fold (sort_ranges l). rewrite IH by done. destruct l as [|r' l]; [done|]. cbn [insert_range].
  apply Forall_cons_iff in H1 as [H1 _]. unfold range_ok in Hr. unfold range_after.
  rewrite (proj2 (Z.eqb_neq _ _)) by lia. rewrite Z.gtb_ltb, (proj2 (Z.ltb_ge _ _)) by lia. done.
Qed.

Lemma merged_separated l : Forall range_ok l -> separated l -> mergeRanges l = l.
Proof.
  intros Hok Hs. unfold mergeRanges. rewrite sort_separated by done. destruct l as [|r l]; [done|].
  by apply merge_separated.
Qed.

(** and it is determined by the codes it covers. *)
Lemma separated_head r l c : range_ok r -> separated (r :: l) -> covered l c -> cr_end r + 1 < c.
Proof.
  intros Hr [H _] (r' & Hin & Hc). rewrite Forall_elem in H. specialize (H _ Hin). unfold covers in Hc. lia.
Qed.

Lemma separated_unique l l' : Forall range_ok l -> Forall range_ok l' -> separated l -> separated l' ->
  (forall c, covered l c <-> covered l' c) -> l = l'.
Proof.
  assert (forall l r c, Forall range_ok (r :: l) -> separated (r :: l) -> covered (r :: l) c -> cr_start r <= c) as Hmin.
  { intros m r c Hok Hs Hc. apply Forall_cons_iff in Hok as [Hr _]. apply covered_cons in Hc as [Hc|Hc]; [unfold covers in Hc; lia|].
    pose proof (separated_head r m c Hr Hs Hc). unfold range_ok in Hr. lia. }
  assert (forall r l, range_ok r -> covered (r :: l) (cr_start r)) as Hstart.
  { intros r m Hr. apply covered_cons. left. unfold covers, range_ok in *. lia. }
  revert l'. induction l as [|r l IH]; intros [|r' l'] Hok Hok' Hs Hs' Hc.
  - done.
  - exfalso. apply Forall_cons_iff in Hok' as [Hr' _]. destruct (proj2 (Hc _) (Hstart r' l' Hr')) as (x & Hx & _). set_solver.
  - exfalso. apply Forall_cons_iff in Hok as [Hr _]. destruct (proj1 (Hc _) (Hstart r l Hr)) as (x & Hx & _). set_solver.
  - pose proof Hok as Hall. pose proof Hok' as Hall'.
    apply Forall_cons_iff in Hok as [Hr Hok]. apply Forall_cons_iff in Hok' as [Hr' Hok'].
    assert (cr_start r = cr_start r') as Es.
    { pose proof (Hmin _ _ _ Hall Hs (proj2 (Hc _) (Hstart r' l' Hr'))).
      pose proof (Hmin _ _ _ Hall' Hs' (proj1 (Hc _) (Hstart r l Hr))). lia. }
    assert (forall x m x' m', range_ok x -> range_ok x' -> separated (x :: m) -> cr_start x = cr_start x' ->
      (forall c, covered (x' :: m') c -> covered (x :: m) c) -> cr_end x' <= cr_end x) as Hend.
    { intros x m x' m' Hx Hx' Hsx Ex Himp. destruct (Z.le_gt_cases (cr_end x') (cr_end x)) as [|Hgt]; [done|exfalso].
      unfold range_ok in Hx, Hx'.
      assert (covered (x :: m) (cr_end x + 1)) as Hcov by (apply Himp, covered_cons; left; unfold covers; lia).
      apply covered_cons in Hcov as [Hcov|Hcov]; [unfold covers in Hcov; lia|].
      pose proof (separated_head x m _ Hx Hsx Hcov). lia. }
    assert (cr_end r = cr_end r') as Ee.
    { pose proof (Hend r l r' l' Hr Hr' Hs Es (fun c => proj2 (Hc c))).
      pose proof (Hend r' l' r l Hr' Hr Hs' (eq_sym Es) (fun c => proj1 (Hc c))). lia. }
    assert (r = r') as -> by (destruct r, r'; simpl in *; congruence). f_equal.
    apply IH; [done|done|apply Hs|apply Hs'|]. intros c.
    specialize (Hc c). rewrite !covered_cons in Hc. split; intros H.
    + pose proof (separated_head r' l c Hr Hs H). unfold covers in Hc. destruct Hc as [Hc _]. destruct Hc as [Hc|Hc]; [tauto|lia|done].
    + pose proof (separated_head r' l' c Hr' Hs' H). unfold covers in Hc. destruct Hc as [_ Hc]. destruct Hc as [Hc|Hc]; [tauto|lia|done].
Qed.

(** ** Texts *)
Lemma token_range token r : parseToken token = Some r -> range_ok r.
Proof.
  unfold parseToken. destruct (List.filter _ (trim token)) as [|c t]; [done|].
  destruct (includes _ _).
  - destruct (split_at 45 (c :: t)) as [|a [|b rest]]; try done.
    destruct (negb (isNumber a) || _); [done|]. cbv zeta.
    destruct (negb (isValidCode (digits_value a))) eqn:Ea; [done|].
    destruct (negb (isValidCode (digits_value b))) eqn:Eb; [done|]. cbn [orb].
    rewrite Z.gtb_ltb. destruct (Z.ltb_spec (digits_value b) (digits_value a)); [done|]. intros [= <-].
    apply negb_false_iff in Ea, Eb. unfold isValidCode in *. bsplit. unfold range_ok. cbn [cr_start cr_end]. lia.
  - destruct (negb (isNumber _)); [done|]. cbv zeta. destruct (negb (isValidCode _)) eqn:E; [done|].
    intros [= <-]. apply negb_false_iff in E. unfold isValidCode in E. bsplit. unfold range_ok. cbn [cr_start cr_end]. lia.
Qed.

(** Digits are neither white space nor separators. *)
Lemma digit_plain c : is_digit c = true -> is_space c = false /\ c <> 44 /\ c <> 45 /\ c <> 65292.
Proof.
  intros H. assert (48 <= c <= 57) as Hc by (unfold is_digit in H; bsplit; lia).
  split; [|lia]. apply num_char_space. unfold num_char. by rewrite H.
Qed.

(** A character of a token. *)
Definition token_char (c : Z) : Prop := is_space c = false /\ c <> 44 /\ c <> 65292.

Lemma code_digits z : 0 <= z -> digits (dec_of_Z z) /\ dec_of_Z z <> [] /\ digits_value (dec_of_Z z) = z.
Proof.
  intros Hz. destruct (dec_of_Z_spec z Hz) as (H1 & H2 & _). split_and!; [done|by apply dec_of_Z_ne|done].
Qed.

Lemma digits_token ds : digits ds -> Forall token_char ds.
Proof. intros H. apply (list.Forall_impl _ _ _ H). intros c Hc. apply digit_plain in Hc. unfold token_char. tauto. Qed.

Lemma range_text_chars r : range_ok r -> Forall token_char (range_text r) /\ range_text r <> [].
Proof.
  intros (H1 & H2 & H3). destruct (code_digits (cr_start r) ltac:(lia)) as (Hd & Hne & _).
  destruct (code_digits (cr_end r) ltac:(lia)) as (Hd' & _ & _).
  unfold range_text. destruct (cr_start r =? cr_end r); [split; [by apply digits_token|done]|]. split; [|by destruct (dec_of_Z (cr_start r))].
  apply Forall_app_2; [by apply digits_token|]. apply Forall_app_2; [|by apply digits_token].
  repeat constructor; done.
Qed.

Lemma no_space_id s : Forall (fun c => is_space c = false) s ->
  trim s = s /\ List.filter (fun c => negb (is_space c)) s = s.
Proof.
  intros H. split.
  - apply trim_id. unfold no_outer_space.
    assert (Forall (fun c => is_space c = false) (rev s)) as Hr by (by apply Forall_rev).
    destruct H as [|c t Hc _]; [done|]. destruct Hr as [|d u Hd _]; [by rewrite Hc|]. by rewrite Hc, Hd.
  - induction H as [|c t Hc _ IH]; [done|]. cbn [List.filter]. by rewrite Hc, IH.
Qed.

Lemma split_plain sep s : sep ∉ s -> split_at sep s = [s].
Proof.
  induction s as [|c s IH]; intros H; [done|]. apply not_elem_of_cons in H as [Hne H]. cbn [split_at].
  rewrite (proj2 (Z.eqb_neq c sep)) by congruence. by rewrite IH.
Qed.

Lemma split_at_first sep a b : sep ∉ a -> split_at sep (a ++ sep :: b) = a :: split_at sep b.
Proof.
  induction a as [|c a IH]; intros H; cbn [app split_at]; [by rewrite Z.eqb_refl|].
  apply not_elem_of_cons in H as [Hne H]. rewrite (proj2 (Z.eqb_neq c sep)) by congruence. by rewrite IH.
Qed.

Lemma digits_no_dash ds : digits ds -> 45 ∉ ds.
Proof. intros H Hin. rewrite Forall_elem in H. apply H in Hin. done. Qed.

Lemma digits_number ds : digits ds -> ds <> [] -> isNumber ds = true.
Proof.
  intros H Hne. unfold isNumber. destruct ds; [done|]. apply forallb_forall. intros x Hx.
  rewrite Forall_elem in H. by apply H, list_elem_of_In.
Qed.

Lemma range_text_reads r : range_ok r -> parseToken (range_text r) = Some r.
Proof.
  intros Hr. destruct (range_text_chars r Hr) as [Hc Hne]. destruct Hr as (H1 & H2 & H3).
  assert (Forall (fun c => is_space c = false) (range_text r)) as Hsp by (apply (list.Forall_impl _ _ _ Hc); by intros c []).
  destruct (no_space_id _ Hsp) as [Ht Hf]. unfold parseToken. rewrite Ht, Hf. clear Ht Hf Hsp Hc.
  destruct (code_digits (cr_start r) ltac:(lia)) as (Hd & Hdn & Hdv).
  destruct (code_digits (cr_end r) ltac:(lia)) as (Hd' & Hdn' & Hdv').
  assert (forall z, 100 <= z <= 599 -> isValidCode z = true) as Hvalid.
  { intros z Hz. unfold isValidCode. apply andb_true_iff. lia. }
  assert (match range_text r with [] => None | _ => if includes (js "-") (range_text r) then
      match split_at 45 (range_text r) with
      | a :: b :: _ => if negb (isNumber a) || negb (isNumber b) then None
          else let start := digits_value a in let end_ := digits_value b in
            if negb (isValidCode start) || negb (isValidCode end_) || (start >? end_) then None else Some (CodeRange start end_)
      | _ => None end
      else if negb (isNumber (range_text r)) then None else let code := digits_value (range_text r) in
        if negb (isValidCode code) then None else Some (CodeRange code code) end = Some r) as H; [|by destruct (range_text r)].
  destruct (range_text r) as [|x t] eqn:E; [done|]. rewrite <- E. clear Hne. unfold range_text in *.
  destruct (Z.eqb_spec (cr_start r) (cr_end r)) as [Eq|Neq].
  - assert (includes (js "-") (dec_of_Z (cr_start r)) = false) as ->.
    { apply not_true_iff_false. intros Hi. apply includes_spec in Hi as (a & b & Hab).
      apply (digits_no_dash _ Hd). rewrite Hab. change (js "-") with [45]. set_solver. }
    rewrite digits_number, Hdv by done. cbn [negb]. cbv zeta. rewrite Hvalid by lia. cbn [negb].
    f_equal. destruct r. simpl in *. by subst.
  - assert (includes (js "-") (dec_of_Z (cr_start r) ++ js "-" ++ dec_of_Z (cr_end r)) = true) as ->
      by (apply includes_spec; by eexists _, _).
    change (js "-" ++ dec_of_Z (cr_end r)) with (45 :: dec_of_Z (cr_end r)).
    rewrite split_at_first, split_plain by (by apply digits_no_dash). rewrite !digits_number by done. cbn [negb orb]. cbv zeta.
    rewrite Hdv, Hdv', !Hvalid by lia. cbn [negb orb]. rewrite Z.gtb_ltb, (proj2 (Z.ltb_ge _ _)) by lia. by destruct r.
Qed.

Lemma commas_plain s : 65292 ∉ s -> map (fun c => if c =? 65292 then 44 else c) s = s.
Proof.
  induction s as [|c s IH]; intros H; [done|]. apply not_elem_of_cons in H as [Hne H]. cbn [map].
  rewrite (proj2 (Z.eqb_neq c 65292)) by congruence. by rewrite IH.
Qed.

Definition is_token (t : jstr) : Prop := Forall token_char t /\ t <> [].

Lemma comma_cons t t' ts : join (js ",") (t :: t' :: ts) = t ++ 44 :: join (js ",") (t' :: ts).
Proof. done. Qed.

Lemma join_split ts : Forall is_token ts -> ts <> [] -> split_at 44 (join (js ",") ts) = ts.
Proof.
  assert (forall t, is_token t -> 44 ∉ t) as Hno.
  { intros t [H _] Hin. rewrite Forall_elem in H. apply H in Hin as (_ & ? & _). done. }
  induction 1 as [|t ts Ht Hts IH]; [done|]. intros _. destruct ts as [|t' ts]; [by apply split_plain, Hno|].
  rewrite comma_cons, split_at_first by (by apply Hno). by rewrite IH.
Qed.

Lemma join_segments ts : Forall is_token ts -> ts <> [] -> segments (join (js ",") ts) = ts /\
  trim (join (js ",") ts) = join (js ",") ts /\ join (js ",") ts <> [].
Proof.
  intros Hts Hne.
  assert (Forall (fun c => is_space c = false /\ c <> 65292) (join (js ",") ts)) as Hchars.
  { clear Hne. induction Hts as [|t ts [Ht _] Hts IH]; [constructor|].
    assert (Forall (fun c => is_space c = false /\ c <> 65292) t) as Ht' by (apply (list.Forall_impl _ _ _ Ht); unfold token_char; tauto).
    destruct ts as [|t' ts]; [done|]. rewrite comma_cons. apply Forall_app_2; [done|]. by constructor. }
  split_and!.
  - unfold segments. rewrite commas_plain, join_split; [|done|done|].
    + clear Hne Hchars. induction Hts as [|t ts [Ht Hn] _ IH]; [done|]. cbn [map List.filter].
      rewrite (proj1 (no_space_id t ltac:(apply (list.Forall_impl _ _ _ Ht); by intros ? []))), bool_decide_eq_false_2 by done.
      cbn [negb]. by rewrite IH.
    + intros Hin. rewrite Forall_elem in Hchars. apply Hchars in Hin as [_ ?]. done.
  - apply no_space_id. apply (list.Forall_impl _ _ _ Hchars). tauto.
  - destruct Hts as [|t ts [_ Ht] _]; [done|]. destruct t; [done|]. by destruct ts.
Qed.

(** ** Theorems *)

(** The ranges written in a text that is accepted. *)
Definition written_ranges (text : jstr) : list code_range := omap parseToken (segments (trim text)).

Lemma parsed_shape text : let p := parseHttpStatusCodeRules (J_str text) in pr_ok p = true ->
  pr_ranges p = mergeRanges (written_ranges text) /\ pr_tokens p = map range_text (pr_ranges p) /\
  pr_normalized p = join (js ",") (pr_tokens p) /\ Forall range_ok (written_ranges text) /\
  Forall (fun s => is_Some (parseToken s)) (segments (trim text)).
Proof.
  unfold parseHttpStatusCodeRules, written_ranges. cbn [is_nullish js_to_string].
  assert (forall l, omap snd (map (fun s => (s, parseToken s)) l) = omap parseToken l) as Hom.
  { induction l as [|s l IH]; [done|]. cbn [map omap list_omap snd]. destruct (parseToken s); [f_equal|]; apply IH. }
  assert (forall l, Forall range_ok (omap parseToken l)) as Hr.
  { intros l. apply Forall_elem. intros r Hin. apply list_elem_of_omap in Hin as (s & _ & Hs). by eapply token_range. }
  destruct (trim text) as [|c t] eqn:E.
  { intros _. split_and!; [done..|apply Hr|]. vm_compute. constructor. }
  rewrite <- E. set (segs := segments (trim text)). rewrite Hom.
  destruct (map fst _) as [|x l] eqn:Ei; [|done]. intros _. split_and!; [done..|apply Hr|].
  apply Forall_elem. intros s Hs. destruct (parseToken s) as [r|] eqn:Ep; [by eexists|exfalso].
  assert (s ∈ map fst (List.filter (fun p : jstr * option code_range => bool_decide (p.2 = None)) (map (fun s => (s, parseToken s)) segs))) as Hin.
  { apply list_elem_of_fmap. exists (s, None). split; [done|]. apply list_elem_of_In, filter_In. split.
    - apply in_map_iff. exists s. rewrite Ep. split; [done|]. by apply list_elem_of_In.
    - by apply bool_decide_eq_true_2. }
  rewrite Ei in Hin. by apply not_elem_of_nil in Hin.
Qed.

Lemma normal_text_reads l : separated l -> Forall range_ok l ->
  parseHttpStatusCodeRules (J_str (join (js ",") (map range_text l))) =
  ParsedRules true l (map range_text l) (join (js ",") (map range_text l)) [].
Proof.
  intros Hs Hok. destruct l as [|r l]; [done|]. set (ts := map range_text (r :: l)).
  assert (Forall is_token ts) as Hts.
  { subst ts. apply Forall_elem. intros t Ht. apply list_elem_of_fmap in Ht as (x & -> & Hx).
    rewrite Forall_elem in Hok. split; by apply range_text_chars, Hok. }
  destruct (join_segments ts Hts ltac:(done)) as (H1 & H2 & H3).
  unfold parseHttpStatusCodeRules. cbn [is_nullish js_to_string]. rewrite H2.
  destruct (join (js ",") ts) as [|c t] eqn:E; [done|]. rewrite <- E in *. rewrite H1. subst ts.
  assert (map (fun s => (s, parseToken s)) (map range_text (r :: l)) = map (fun x => (range_text x, Some x)) (r :: l)) as ->.
  { rewrite map_map. apply map_ext_in. intros x Hx. rewrite range_text_reads; [done|].
    rewrite Forall_elem in Hok. by apply Hok, list_elem_of_In. }
  assert (forall m : list code_range, List.filter (fun p : jstr * option code_range => bool_decide (p.2 = None))
    (map (fun x => (range_text x, Some x)) m) = []) as ->.
  { induction m as [|x m IH]; [done|]. cbn [map List.filter snd]. by rewrite bool_decide_eq_false_2. }
  cbn [map fst].
  assert (forall m : list code_range, omap snd (map (fun x => (range_text x, Some x)) m) = m) as Hom.
  { induction m as [|x m IH]; [done|]. cbn [map omap list_omap snd]. f_equal. apply IH. }
  change ((range_text r, Some r) :: map (fun x => (range_text x, Some x)) l) with (map (fun x => (range_text x, Some x)) (r :: l)).
  rewrite Hom. by rewrite merged_separated.
Qed.

(** An accepted text of status code rules is read as exactly the codes it lists,
    as ranges between 100 and 599 that are sorted and neither overlap nor touch;
    its normal form reads back as the same ranges and is its own normal form. *)
Theorem status_rules_normal text : let p := parseHttpStatusCodeRules (J_str text) in pr_ok p = true ->
  (forall c, covered (pr_ranges p) c <-> covered (written_ranges text) c) /\
  separated (pr_ranges p) /\ Forall range_ok (pr_ranges p) /\
  parseHttpStatusCodeRules (J_str (pr_normalized p)) = p.
Proof.
  intros p Hp. destruct (parsed_shape text Hp) as (Hr & Ht & Hn & Hok & _). fold p in Hr, Ht, Hn.
  destruct (merged_spec _ Hok) as (H1 & H2 & H3). rewrite <- Hr in *. split_and!; [done..|].
  rewrite Hn, Ht, normal_text_reads by done. subst p. unfold parseHttpStatusCodeRules in *. cbn [is_nullish js_to_string] in *.
  destruct (trim text) as [|c t]; [done|]. destruct (map fst _); [done|done].
Qed.

(** Two accepted texts have the same normal form exactly when they list the same
    codes. *)
Theorem status_rules_canonical t1 t2 :
  let p1 := parseHttpStatusCodeRules (J_str t1) in let p2 := parseHttpStatusCodeRules (J_str t2) in
  pr_ok p1 = true -> pr_ok p2 = true ->
  pr_normalized p1 = pr_normalized p2 <->
  forall c, covered (written_ranges t1) c <-> covered (written_ranges t2) c.
Proof.
  intros p1 p2 H1 H2. destruct (parsed_shape t1 H1) as (R1 & T1 & N1 & O1 & _).
  destruct (parsed_shape t2 H2) as (R2 & T2 & N2 & O2 & _). fold p1 in R1, T1, N1. fold p2 in R2, T2, N2.
  destruct (merged_spec _ O1) as (A1 & B1 & C1). destruct (merged_spec _ O2) as (A2 & B2 & C2). split.
  - intros E c. rewrite <- C1, <- C2, <- R1, <- R2.
    assert (pr_ranges p1 = pr_ranges p2) as ->; [|done].
    rewrite N1, N2, T1, T2 in E. apply (f_equal (fun s => pr_ranges (parseHttpStatusCodeRules (J_str s)))) in E.
    rewrite R1, R2, !normal_text_reads in E by done. cbn in E. congruence.
  - intros Hc. rewrite N1, N2, T1, T2, R1, R2. do 2 f_equal. apply separated_unique; try done.
    intros c. by rewrite C1, C2.
Qed.

Lemma status_rules_normal_witness :
  let p := parseHttpStatusCodeRules (J_str (js "500-503, 429,504")) in
  pr_ranges p = [CodeRange 429 429; CodeRange 500 504] /\
  (forall c, covered (pr_ranges p) c <-> covered (written_ranges (js "500-503, 429,504")) c) /\
  separated (pr_ranges p) /\ Forall range_ok (pr_ranges p) /\
  parseHttpStatusCodeRules (J_str (pr_normalized p)) = p.
Proof.
  split; [vm_compute; reflexivity|]. apply (status_rules_normal (js "500-503, 429,504")). vm_compute. reflexivity.
Defined.

(** A token with two dashes is read by its first two parts. *)
Lemma extra_dash_ignored : parseToken (js "200-300-400") = Some (CodeRange 200 300).
Proof. vm_compute. reflexivity. Qed.
