(* ===== verification/ChatMessage.v ===== *)
(** * Messages of the playground

    The chat messages of [features/playground]: their versions and timing, the
    separation of [<think>] sections from the visible text, the application of
    streamed chunks and of whole responses, the edits of a conversation, and the
    decoding of the events of a completion stream.  The clock is the argument
    [now] of an operation; the identifiers of new messages, which the package
    nanoid draws, are arguments as well. *)
From stdpp Require Import strings.
From S2P Require Import Prelude JsString JsNumber JsValue JsJson AuthSession.

#[local] Open Scope Z_scope.

(** ** Data *)
Inductive message_role := R_user | R_assistant | R_system.
Inductive message_status := M_loading | M_streaming | M_complete | M_error.

#[export] Instance message_role_eq_dec : EqDecision message_role.
Proof. solve_decision. Defined.
#[export] Instance message_status_eq_dec : EqDecision message_status.
Proof. solve_decision. Defined.

Record message_version := MessageVersion { mv_id : jstr; mv_content : jstr }.

Record reasoning := Reasoning {
  rs_content : jstr;
  rs_duration : num;
  rs_startedAt : option num;
  rs_completedAt : option num;
  rs_durationMs : option num
}.

Record message := Message {
  m_key : jstr;
  m_from : message_role;
  m_versions : list message_version;
  m_createdAt : option num;
  m_startedAt : option num;
  m_completedAt : option num;
  m_durationMs : option num;
  m_sources : option (list (jstr * jstr));
  m_reasoning : option reasoning;
  m_isReasoningStreaming : bool;
  m_isReasoningComplete : bool;
  m_isContentComplete : bool;
  m_status : option message_status;
  m_errorCode : jsval
}.

(** The spreads [{ ...message, field: value }] of the code. *)
Definition with_versions (vs : list message_version) (m : message) : message :=
  Message (m_key m) (m_from m) vs (m_createdAt m) (m_startedAt m) (m_completedAt m)
    (m_durationMs m) (m_sources m) (m_reasoning m) (m_isReasoningStreaming m)
    (m_isReasoningComplete m) (m_isContentComplete m) (m_status m) (m_errorCode m).
Definition with_reasoning (r : option reasoning) (m : message) : message :=
  Message (m_key m) (m_from m) (m_versions m) (m_createdAt m) (m_startedAt m) (m_completedAt m)
    (m_durationMs m) (m_sources m) r (m_isReasoningStreaming m)
    (m_isReasoningComplete m) (m_isContentComplete m) (m_status m) (m_errorCode m).
Definition with_reasoning_streaming (b : bool) (m : message) : message :=
  Message (m_key m) (m_from m) (m_versions m) (m_createdAt m) (m_startedAt m) (m_completedAt m)
    (m_durationMs m) (m_sources m) (m_reasoning m) b
    (m_isReasoningComplete m) (m_isContentComplete m) (m_status m) (m_errorCode m).
Definition with_status (s : message_status) (m : message) : message :=
  Message (m_key m) (m_from m) (m_versions m) (m_createdAt m) (m_startedAt m) (m_completedAt m)
    (m_durationMs m) (m_sources m) (m_reasoning m) (m_isReasoningStreaming m)
    (m_isReasoningComplete m) (m_isContentComplete m) (Some s) (m_errorCode m).
Definition with_error_code (code : jsval) (m : message) : message :=
  Message (m_key m) (m_from m) (m_versions m) (m_createdAt m) (m_startedAt m) (m_completedAt m)
    (m_durationMs m) (m_sources m) (m_reasoning m) (m_isReasoningStreaming m)
    (m_isReasoningComplete m) (m_isContentComplete m) (m_status m) code.
Definition with_created (t : option num) (m : message) : message :=
  Message (m_key m) (m_from m) (m_versions m) t (m_startedAt m) (m_completedAt m)
    (m_durationMs m) (m_sources m) (m_reasoning m) (m_isReasoningStreaming m)
    (m_isReasoningComplete m) (m_isContentComplete m) (m_status m) (m_errorCode m).
Definition with_timing (started completed duration : option num) (m : message) : message :=
  Message (m_key m) (m_from m) (m_versions m) (m_createdAt m) started completed
    duration (m_sources m) (m_reasoning m) (m_isReasoningStreaming m)
    (m_isReasoningComplete m) (m_isContentComplete m) (m_status m) (m_errorCode m).

(** [ERROR_MESSAGES] *)
Definition API_REQUEST_ERROR : jstr := js "Request error occurred".
Definition NETWORK_ERROR : jstr := js "Network connection failed or server not responding".
Definition PARSE_ERROR : jstr := js "Error parsing response data".
Definition STREAM_START_ERROR : jstr := js "Error establishing connection".
Definition CONNECTION_CLOSED : jstr := js "Connection closed".
Definition INTERRUPTED : jstr := js "Generation was interrupted".

(** ** Versions and contents: [message-utils.ts] *)
Definition getCurrentVersion (m : message) : message_version :=
  match m_versions m with v :: _ => v | [] => MessageVersion (js "default") [] end.

Definition getMessageContent (m : message) : jstr := mv_content (getCurrentVersion m).

Definition hasMessageContent (m : message) : bool := non_empty (trim (getMessageContent m)).

Definition updateCurrentVersionContent (m : message) (content : jstr) : message :=
  with_versions [MessageVersion (mv_id (getCurrentVersion m)) content] m.

Definition createMessageVersion (id content : jstr) : message_version := MessageVersion id content.

Definition createUserMessage (key id content : jstr) (createdAt : num) : message :=
  Message key R_user [createMessageVersion id content] (Some createdAt) None None None None None
    false false false None J_undefined.

Definition createLoadingAssistantMessage (key id : jstr) (startedAt : num) : message :=
  Message key R_assistant [createMessageVersion id []] (Some startedAt) (Some startedAt) None None
    None None false false false (Some M_loading) J_undefined.

Inductive content_part := Part_text (text : jstr) | Part_image (url : jstr).

(** [string | ContentPart[]] *)
Definition message_content : Type := jstr + list content_part.

Definition buildMessageContent (text : jstr) (imageUrls : list jstr) : message_content :=
  match List.filter (fun url => non_empty (trim url)) imageUrls with
  | [] => inl text
  | validImages => inr (Part_text text :: map (fun url => Part_image (trim url)) validImages)
  end.

Definition getTextContent (content : message_content) : jstr :=
  match content with
  | inl text => text
  | inr parts =>
      match List.find (fun p => match p with Part_text _ => true | _ => false end) parts with
      | Some (Part_text text) => text
      | _ => []
      end
  end.

(** The role and content of a message of a request. *)
Definition formatMessageForAPI (m : message) : message_role * jstr :=
  (m_from m, mv_content (getCurrentVersion m)).

Definition isValidMessage (m : message) : bool :=
  match m_versions m with
  | [] => false
  | _ => negb (bool_decide (m_from m = R_assistant) && negb (hasMessageContent m))
  end.

(** ** Separation of reasoning: [message-reasoning-utils.ts] *)
Definition THINK_OPEN : jstr := js "<think>".
Definition THINK_CLOSE : jstr := js "</think>".

(** The text before and after the first occurrence of [sub], as [indexOf] and
    two slices give them. *)
Fixpoint cut (sub s : jstr) : option (jstr * jstr) :=
  if starts_with sub s then Some ([], drop (length sub) s)
  else match s with
       | [] => None
       | c :: s => (fun p => (c :: p.1, p.2)) <$> cut sub s
       end.

Definition push_part (part : jstr) (parts : list jstr) : list jstr :=
  if non_empty part then parts ++ [part] else parts.

(** The loop, over the text from [currentPos] on. *)
Fixpoint think_loop (fuel : nat) (rest : jstr) (visibleParts reasoningParts : list jstr)
    : list jstr * list jstr * bool :=
  match fuel with
  | O => (visibleParts, reasoningParts, false)
  | S fuel =>
      match cut THINK_OPEN rest with
      | None => (push_part rest visibleParts, reasoningParts, false)
      | Some (before, after) =>
          match cut THINK_CLOSE after with
          | None => (push_part before visibleParts, reasoningParts ++ [after], true)
          | Some (thought, rest) =>
              think_loop fuel rest (push_part before visibleParts) (reasoningParts ++ [thought])
          end
      end
  end.

Record parsed_think := ParsedThink {
  pt_visibleContent : jstr;
  pt_reasoning : jstr;
  pt_hasUnclosedTag : bool
}.

Definition parseThinkTags (content : jstr) : parsed_think :=
  if includes THINK_OPEN content then
    let '(visibleParts, reasoningParts, unclosed) := think_loop (S (length content)) content [] [] in
    ParsedThink (trim (concat visibleParts)) (trim (join [10; 10] reasoningParts)) unclosed
  else ParsedThink content [] false.

(** ** Timing: [message-timing-utils.ts] *)
Definition elapsed (completedAt startedAt : num) : num := n_max n_zero (n_sub completedAt startedAt).

Definition completeAssistantTiming (completedAt : num) (m : message) : message :=
  if bool_decide (m_from m = R_assistant) then
    let startedAt := default (default completedAt (m_createdAt m)) (m_startedAt m) in
    with_timing (Some startedAt) (Some completedAt) (Some (elapsed completedAt startedAt)) m
  else m.

Definition startReasoningTiming (startedAt : num) (m : message) : reasoning :=
  match m_reasoning m with
  | Some r => Reasoning (rs_content r) (rs_duration r) (Some (default startedAt (rs_startedAt r)))
                (rs_completedAt r) (rs_durationMs r)
  | None => Reasoning [] n_zero (Some startedAt) None None
  end.

Definition n_thousand : num := Eval vm_compute in n_of_Z 1000.

Definition completeReasoningTiming (completedAt : num) (m : message) : message :=
  match m_reasoning m with
  | Some (Reasoning content _ started _ None) =>
      let startedAt := default (default completedAt (m_startedAt m)) started in
      let durationMs := elapsed completedAt startedAt in
      with_reasoning
        (Some (Reasoning content (n_ceil (n_div durationMs n_thousand)) (Some startedAt)
                 (Some completedAt) (Some durationMs))) m
  | _ => m
  end.

Definition with_content (content : jstr) (r : reasoning) : reasoning :=
  Reasoning content (rs_duration r) (rs_startedAt r) (rs_completedAt r) (rs_durationMs r).

(** ** Streaming: [message-streaming-utils.ts] *)
Inductive chunk_type := C_reasoning | C_content.

#[export] Instance chunk_type_eq_dec : EqDecision chunk_type.
Proof. solve_decision. Defined.

Definition processStreamingContent (now : num) (m : message) (contentChunk : jstr) : message :=
  let fullContent := (getMessageContent m ++ contentChunk)%list in
  if bool_decide (m_reasoning m = None) && negb (includes THINK_OPEN fullContent) then
    with_reasoning_streaming false (updateCurrentVersionContent m fullContent)
  else
    let parsed := parseThinkTags fullContent in
    let finalReasoning :=
      if non_empty (pt_reasoning parsed) then
        Some (with_content (pt_reasoning parsed) (startReasoningTiming now m))
      else m_reasoning m in
    with_reasoning_streaming (pt_hasUnclosedTag parsed)
      (with_reasoning finalReasoning (updateCurrentVersionContent m fullContent)).

Definition getAppendableChunk (currentContent chunk : jstr) : jstr :=
  if negb (non_empty currentContent) || negb (starts_with currentContent chunk) then chunk
  else drop (length currentContent) chunk.

Definition applyStreamingChunk (now : num) (m : message) (type : chunk_type) (chunk : jstr) : message :=
  if bool_decide (m_status m = Some M_error) then m
  else match type with
  | C_reasoning =>
      let r := startReasoningTiming now m in
      with_status M_streaming
        (with_reasoning_streaming true
           (with_reasoning
              (Some (with_content (rs_content r ++ getAppendableChunk (rs_content r) chunk) r)) m))
  | C_content =>
      let contentMessage :=
        processStreamingContent now m (getAppendableChunk (getMessageContent m) chunk) in
      with_status M_streaming
        (if m_isReasoningStreaming contentMessage then contentMessage
         else completeReasoningTiming now contentMessage)
  end.

(** [a || b] on strings *)
Definition or_text (a b : jstr) : jstr := if non_empty a then a else b.

Definition finalizeMessage (now : num) (m : message) (apiReasoningContent : option jstr) : message :=
  let content := getMessageContent m in
  let parsed := if includes THINK_OPEN content then Some (parseThinkTags content) else None in
  let visibleContent := default content (pt_visibleContent <$> parsed) in
  let finalReasoning :=
    or_text (default [] apiReasoningContent)
      (or_text (default [] (rs_content <$> m_reasoning m)) (default [] (pt_reasoning <$> parsed))) in
  completeReasoningTiming now
    (with_reasoning_streaming false
       (with_reasoning
          (if non_empty finalReasoning
           then Some (with_content finalReasoning (startReasoningTiming now m)) else None)
          (updateCurrentVersionContent m visibleContent))).

Definition completeAssistantMessage (now : num) (m : message) : message :=
  completeAssistantTiming now (with_status M_complete (finalizeMessage now m None)).

Definition isAssistantMessageFinal (m : message) : bool :=
  match m_status m with Some (M_complete | M_error) => true | _ => false end.

Definition isAssistantMessagePending (m : message) : bool :=
  match m_status m with Some (M_loading | M_streaming) => true | _ => false end.

Definition isPendingAssistantMessage (m : message) : bool :=
  bool_decide (m_from m = R_assistant) && isAssistantMessagePending m.

(** The part of [ChatCompletionResponse] that is read. *)
Record chat_choice := ChatChoice { cc_content : option jstr; cc_reasoning_content : option jstr }.
Record chat_response := ChatResponse { cr_choices : option (list chat_choice) }.

Definition first_choice (r : chat_response) : option chat_choice :=
  match cr_choices r with Some (c :: _) => Some c | _ => None end.

Definition hasChatCompletionChoice (r : chat_response) : bool :=
  match first_choice r with Some _ => true | None => false end.

Definition applyChatCompletionChoice (now : num) (m : message) (c : chat_choice) : message :=
  completeAssistantTiming now
    (with_status M_complete
       (finalizeMessage now (updateCurrentVersionContent m (default [] (cc_content c)))
          (cc_reasoning_content c))).

Definition applyChatCompletionResponse (now : num) (m : message) (r : chat_response)
    : option message :=
  applyChatCompletionChoice now m <$> first_choice r.

(** The position of the last pending assistant message. *)
Fixpoint last_pending (messages : list message) : option nat :=
  match messages with
  | [] => None
  | m :: messages =>
      match last_pending messages with
      | Some i => Some (S i)
      | None => if isPendingAssistantMessage m then Some O else None
      end
  end.

Definition sanitized (now : num) (t : jstr -> jstr) (m : message) : message :=
  let finalized := finalizeMessage now m None in
  if hasMessageContent finalized
     || non_empty (default [] ((fun r => trim (rs_content r)) <$> m_reasoning finalized)) then
    completeAssistantTiming now (with_reasoning_streaming false (with_status M_complete finalized))
  else
    completeAssistantTiming now
      (with_reasoning_streaming false
         (with_status M_error
            (updateCurrentVersionContent finalized
               (t API_REQUEST_ERROR ++ js ": " ++ t INTERRUPTED)))).

Definition sanitizeMessagesOnLoad (now : num) (t : jstr -> jstr) (messages : list message)
    : list message :=
  match last_pending messages with
  | None => messages
  | Some i => match messages !! i with
              | Some m => <[i := sanitized now t m]> messages
              | None => messages
              end
  end.

(** ** Updates of the last assistant message: [message-update-utils.ts] *)
Fixpoint updateLastAssistantMessage (messages : list message) (updater : message -> message)
    : list message :=
  match messages with
  | [] => []
  | [m] => if bool_decide (m_from m = R_assistant) then [updater m] else [m]
  | m :: messages => m :: updateLastAssistantMessage messages updater
  end.

(** A value that is falsy in a condition. *)
Definition falsy (v : jsval) : bool :=
  match v with
  | J_undefined | J_null | J_bool false => true
  | J_num x => n_eqb x n_zero || bool_decide (x = SpecFloat.S754_nan)
  | J_str s => negb (non_empty s)
  | _ => false
  end.

Definition updateAssistantMessageWithError (now : num) (messages : list message)
    (errorMessage : jstr) (errorCode : jsval) (title : jstr) : list message :=
  updateLastAssistantMessage messages (fun m =>
    completeAssistantTiming now
      (with_error_code (if falsy errorCode then J_null else errorCode)
         (with_reasoning_streaming false
            (with_status M_error
               (updateCurrentVersionContent m (title ++ js ": " ++ errorMessage)))))).

(** ** Edits of a conversation: [conversation-message-utils.ts] *)
Definition appendUserMessagePair (ids : jstr * jstr) (ids' : jstr * jstr) (now : num)
    (messages : list message) (content : jstr) : list message :=
  messages ++ [createUserMessage ids.1 ids.2 content now;
               createLoadingAssistantMessage ids'.1 ids'.2 now].

Definition createRegeneratedMessages (ids : jstr * jstr) (now : num) (messages : list message)
    (messageKey : jstr) : option (list message) :=
  '(i, m) ← list_find (fun m => m_key m = messageKey) messages;
  Some (take (if bool_decide (m_from m = R_user) then S i else i) messages
        ++ [createLoadingAssistantMessage ids.1 ids.2 now]).

Definition removeMessageByKey (messages : list message) (messageKey : jstr) : list message :=
  filter (fun m => m_key m <> messageKey) messages.

(** The last message of the user before a position. *)
Definition getPreviousUserMessage (messages : list message) (beforeIndex : nat) : option message :=
  List.find (fun m => bool_decide (m_from m = R_user)) (rev (take beforeIndex messages)).

Definition edited (submittedAt : option num) (messageKey content : jstr) (m : message) : message :=
  if bool_decide (m_key m = messageKey) then
    with_created (match submittedAt with Some t => Some t | None => m_createdAt m end)
      (updateCurrentVersionContent m content)
  else m.

Definition applyMessageEdit (ids : jstr * jstr) (now : num) (messages : list message)
    (messageKey content : jstr) (shouldSubmit : bool) : option (list message * bool) :=
  '(i, m) ← list_find (fun m => m_key m = messageKey) messages;
  let updatedMessages :=
    map (edited (if shouldSubmit then Some now else None) messageKey content) messages in
  if negb shouldSubmit || negb (bool_decide (m_from m = R_user)) then
    Some (updatedMessages, false)
  else
    Some (take (S i) updatedMessages ++ [createLoadingAssistantMessage ids.1 ids.2 now], true).

Definition getEditingMessageContent (messages : list message) (editingKey : option jstr) : jstr :=
  match editingKey with
  | Some (c :: key) =>
      match List.find (fun m => bool_decide (m_key m = c :: key)) messages with
      | Some m => getMessageContent m
      | None => []
      end
  | _ => []
  end.

(** ** What is shown of a message: [message-content-utils.ts], [message-error-utils.ts] *)
Definition shouldShowMessageLoader (m : message) (isAssistant : bool) (versionContent : jstr) : bool :=
  isAssistant && negb (m_isReasoningStreaming m) &&
  (bool_decide (m_status m = Some M_loading)
   || (bool_decide (m_status m = Some M_streaming) && negb (non_empty versionContent))).

Definition shouldShowMessageContent (m : message) (versionContent : jstr) : bool :=
  (bool_decide (m_from m = R_user) || negb (m_isReasoningStreaming m)) && non_empty versionContent.

Definition getDisplayContent (m : message) (versionContent : jstr) : jstr :=
  if negb (bool_decide (m_from m = R_assistant)) then versionContent
  else if negb (includes THINK_OPEN versionContent) then versionContent
  else pt_visibleContent (parseThinkTags versionContent).

Record content_state := ContentState {
  cs_displayContent : jstr;
  cs_hasSources : bool;
  cs_isAssistant : bool;
  cs_showLoader : bool;
  cs_showMessageContent : bool;
  cs_sources : list (jstr * jstr);
  cs_reasoningContent : option jstr
}.

Definition getMessageContentState (m : message) (versionContent : jstr) : content_state :=
  let isAssistant := bool_decide (m_from m = R_assistant) in
  let sources := default [] (m_sources m) in
  let reasoningContent := if isAssistant then rs_content <$> m_reasoning m else None in
  ContentState (getDisplayContent m versionContent)
    (match sources with [] => false | _ => true end) isAssistant
    (shouldShowMessageLoader m isAssistant versionContent)
    (shouldShowMessageContent m versionContent) sources
    (match reasoningContent with Some [] => None | r => r end).

Definition isErrorMessage (m : message) : bool := bool_decide (m_status m = Some M_error).

(** The content, whether it is a missing price, and whether to link the settings. *)
Definition getMessageErrorState (m : message) (isAdmin : bool) : option (jstr * bool * bool) :=
  if isErrorMessage m then
    let isModelPriceError := strict_equal (m_errorCode m) (J_str (js "model_price_error")) in
    Some (or_text (getMessageContent m) (js "An unknown error occurred"), isModelPriceError,
          isModelPriceError && isAdmin)
  else None.

(** ** Requests: [payload-builder.ts] *)
Record playground_config := PlaygroundConfig {
  pc_model : jstr; pc_group : jstr; pc_temperature : num; pc_top_p : num; pc_max_tokens : num;
  pc_frequency_penalty : num; pc_presence_penalty : num; pc_seed : option num; pc_stream : bool
}.

Record parameter_enabled := ParameterEnabled {
  pe_temperature : bool; pe_top_p : bool; pe_max_tokens : bool; pe_frequency_penalty : bool;
  pe_presence_penalty : bool; pe_seed : bool
}.

Record chat_request := ChatRequest {
  rq_model : jstr; rq_group : jstr; rq_messages : list (message_role * jstr); rq_stream : bool;
  rq_temperature : option num; rq_top_p : option num; rq_max_tokens : option num;
  rq_frequency_penalty : option num; rq_presence_penalty : option num; rq_seed : option num
}.

Definition buildChatCompletionPayload (messages : list message) (config : playground_config)
    (enabled : parameter_enabled) : chat_request :=
  ChatRequest (pc_model config) (pc_group config)
    (map formatMessageForAPI (List.filter isValidMessage messages)) (pc_stream config)
    (if pe_temperature enabled then Some (pc_temperature config) else None)
    (if pe_top_p enabled then Some (pc_top_p config) else None)
    (if pe_max_tokens enabled then Some (pc_max_tokens config) else None)
    (if pe_frequency_penalty enabled then Some (pc_frequency_penalty config) else None)
    (if pe_presence_penalty enabled then Some (pc_presence_penalty config) else None)
    (if pe_seed enabled then pc_seed config else None).

(** ** Events of a stream: [stream-utils.ts], [request-error-utils.ts] *)

(** [parsed.key] of a JSON value: reading a property of null throws. *)
Definition member (v : jsval) (key : string) : result unit jsval :=
  if is_nullish v then Err tt else Ok (field v key).

(** [value?.[0]] *)
Definition first_element (v : jsval) : jsval :=
  match v with
  | J_arr (x :: _) => x
  | J_str (c :: _) => J_str [c]
  | J_obj _ => field v "0"
  | _ => J_undefined
  end.

Definition parseStreamMessageUpdates (data : jstr) : result unit (list (chunk_type * jsval)) :=
  match json_parse data with
  | None => Err tt
  | Some chunk =>
      let* choices := member chunk "choices" in
      let delta := field (first_element choices) "delta" in
      if falsy delta then Ok []
      else
        Ok ((if falsy (field delta "reasoning_content") then []
             else [(C_reasoning, field delta "reasoning_content")])
            ++ (if falsy (field delta "content") then [] else [(C_content, field delta "content")]))
  end.

Definition or_value (v w : jsval) : jsval := if falsy v then w else v.

(** The code and the message of an error event. *)
Definition parseStreamErrorDetails (data : option jstr) : jsval * jsval :=
  match data with
  | None | Some [] => (J_undefined, J_str API_REQUEST_ERROR)
  | Some data =>
      match json_parse data with
      | None => (J_undefined, J_str data)
      | Some parsed =>
          let error := field parsed "error" in
          if falsy error then (J_undefined, J_str data)
          else (or_value (field error "code") J_undefined, or_value (field error "message") (J_str data))
      end
  end.

Definition isStreamDoneMessage (data : jstr) : bool := bool_decide (data = js "[DONE]").

Definition isStreamClosedReadyState (readyState : option Z) : bool :=
  bool_decide (readyState = Some 2).

Definition getStreamReadyStateError (eventReadyState status : option Z) : option jstr :=
  match eventReadyState, status with
  | Some state, Some status =>
      if (2 <=? state) && negb (status =? 200) then
        Some (js "HTTP " ++ num_to_string (n_of_Z status) ++ js ": " ++ CONNECTION_CLOSED)
      else None
  | _, _ => None
  end.

(** A request error: its own message and the body of its response. *)
Record request_error := RequestError { re_message : jsval; re_data : jsval }.

Definition parseRequestErrorDetails (e : request_error) : jsval * jsval :=
  (or_value (field (field (re_data e) "error") "code") J_undefined,
   or_value (field (re_data e) "message")
     (or_value (re_message e) (J_str API_REQUEST_ERROR))).
