(* ===== verification/ChatStream.v ===== *)
(** * Requests of the playground

    The controller of completion streams ([use-stream-request.ts]) and the chat
    handler over it ([use-chat-handler.ts]) as one state, with an operation per
    call, timer and event.  An object that a request creates (its event source,
    its abort controller) is identified by the generation of the request.

    React runs the updater of a state update either at once, when the component
    has no other work pending, or later, in order; [onMessageUpdate] follows
    the field [ch_eager], which says what it will do next, and [run_next] runs
    the oldest updater that waits. *)
From stdpp Require Import strings.
From S2P Require Import Prelude JsString JsNumber JsValue JsJson AuthSession ChatMessage.

#[local] Open Scope Z_scope.

(** ** State *)

(** The updaters that the handlers pass to [onMessageUpdate]. *)
Inductive updater :=
| U_set (messages : list message)
| U_remove (key : jstr)
| U_flush (generation : Z) (reasoning content : jstr)
| U_complete (generation : Z)
| U_error (generation : Z) (displayError : jstr) (errorCode : jsval)
| U_response (generation : Z) (response : chat_response)
| U_stop (generation : Z).

Record pending_chunks := PendingChunks {
  pd_generation : Z;
  pd_content : jstr;
  pd_reasoning : jstr
}.

(** An event source: the handler's generation in its callbacks, and [completed]. *)
Record stream_source := StreamSource { ss_owner : Z; ss_completed : bool }.

(** [streamFlushTimerRef]: the generation in the callback of the timeout, and
    whether the timeout is still to fire. *)
Record flush_timer := FlushTimer { ft_generation : Z; ft_live : bool }.

Record controller := Controller {
  ct_source : option Z;
  ct_generation : Z;
  ct_streaming : bool;
  ct_waiting : gmap Z Z;
  ct_sources : gmap Z stream_source;
  ct_closed : gset Z
}.

Record chat := Chat {
  ch_controller : controller;
  ch_generation : Z;
  ch_pending : pending_chunks;
  ch_timer : option flush_timer;
  ch_abort : option Z;
  ch_aborted : gset Z;
  ch_inflight : gset Z;
  ch_requesting : bool;
  ch_messages : list message;
  ch_queue : list updater;
  ch_ran : list updater;
  ch_eager : bool;
  ch_errors : list jstr
}.

Definition initial_controller : controller := Controller None 0 false ∅ ∅ ∅.
Definition initial_chat (messages : list message) : chat :=
  Chat initial_controller 0 (PendingChunks 0 [] []) None None ∅ ∅ false messages [] [] false [].

Definition with_controller (c : controller) (s : chat) : chat :=
  Chat c (ch_generation s) (ch_pending s) (ch_timer s) (ch_abort s) (ch_aborted s) (ch_inflight s)
    (ch_requesting s) (ch_messages s) (ch_queue s) (ch_ran s) (ch_eager s) (ch_errors s).
Definition with_generation (g : Z) (s : chat) : chat :=
  Chat (ch_controller s) g (ch_pending s) (ch_timer s) (ch_abort s) (ch_aborted s) (ch_inflight s)
    (ch_requesting s) (ch_messages s) (ch_queue s) (ch_ran s) (ch_eager s) (ch_errors s).
Definition with_pending (p : pending_chunks) (s : chat) : chat :=
  Chat (ch_controller s) (ch_generation s) p (ch_timer s) (ch_abort s) (ch_aborted s) (ch_inflight s)
    (ch_requesting s) (ch_messages s) (ch_queue s) (ch_ran s) (ch_eager s) (ch_errors s).
Definition with_timer (t : option flush_timer) (s : chat) : chat :=
  Chat (ch_controller s) (ch_generation s) (ch_pending s) t (ch_abort s) (ch_aborted s)
    (ch_inflight s) (ch_requesting s) (ch_messages s) (ch_queue s) (ch_ran s) (ch_eager s) (ch_errors s).
Definition with_requesting (b : bool) (s : chat) : chat :=
  Chat (ch_controller s) (ch_generation s) (ch_pending s) (ch_timer s) (ch_abort s) (ch_aborted s)
    (ch_inflight s) b (ch_messages s) (ch_queue s) (ch_ran s) (ch_eager s) (ch_errors s).
Definition with_abort (a : option Z) (aborted inflight : gset Z) (s : chat) : chat :=
  Chat (ch_controller s) (ch_generation s) (ch_pending s) (ch_timer s) a aborted inflight
    (ch_requesting s) (ch_messages s) (ch_queue s) (ch_ran s) (ch_eager s) (ch_errors s).
Definition with_updates (messages : list message) (queue ran : list updater) (eager : bool)
    (s : chat) : chat :=
  Chat (ch_controller s) (ch_generation s) (ch_pending s) (ch_timer s) (ch_abort s) (ch_aborted s)
    (ch_inflight s) (ch_requesting s) messages queue ran eager (ch_errors s).
Definition with_error (e : jstr) (s : chat) : chat :=
  Chat (ch_controller s) (ch_generation s) (ch_pending s) (ch_timer s) (ch_abort s) (ch_aborted s)
    (ch_inflight s) (ch_requesting s) (ch_messages s) (ch_queue s) (ch_ran s) (ch_eager s)
    (ch_errors s ++ [e]).

Section Requests.
Context (t getPlaygroundDisplayError : jstr -> jstr).

(** ** Updaters *)

(** [if (generation !== requestGenerationRef.current) return prev] *)
Definition guarded (generation current : Z) (prev next : list message) : list message :=
  if generation =? current then next else prev.

Definition apply_flush (now : num) (reasoning content : jstr) (m : message) : message :=
  let m := if non_empty reasoning then applyStreamingChunk now m C_reasoning reasoning else m in
  if non_empty content then applyStreamingChunk now m C_content content else m.

(** An updater on the previous messages, when [requestGenerationRef.current] is
    [current]. *)
Definition run_updater (now : num) (current : Z) (u : updater) (prev : list message) : list message :=
  match u with
  | U_set messages => messages
  | U_remove key => removeMessageByKey prev key
  | U_flush g reasoning content =>
      guarded g current prev (updateLastAssistantMessage prev (apply_flush now reasoning content))
  | U_complete g =>
      guarded g current prev
        (updateLastAssistantMessage prev (fun m =>
           if isAssistantMessageFinal m then m else completeAssistantMessage now m))
  | U_error g displayError errorCode =>
      guarded g current prev
        (updateAssistantMessageWithError now prev displayError errorCode (t API_REQUEST_ERROR))
  | U_response g response =>
      guarded g current prev
        (updateLastAssistantMessage prev (fun m =>
           default m (applyChatCompletionResponse now m response)))
  | U_stop g =>
      guarded g current prev
        (updateLastAssistantMessage prev (fun m =>
           if isAssistantMessagePending m then completeAssistantMessage now m else m))
  end.

Definition onMessageUpdate (now : num) (u : updater) (s : chat) : chat :=
  match ch_eager s, ch_queue s with
  | true, [] =>
      with_updates (run_updater now (ch_generation s) u (ch_messages s)) [] (ch_ran s ++ [u]) false s
  | _, queue => with_updates (ch_messages s) (queue ++ [u]) (ch_ran s) (ch_eager s) s
  end.

Definition run_next (now : num) (s : chat) : chat :=
  match ch_queue s with
  | [] => s
  | u :: queue =>
      with_updates (run_updater now (ch_generation s) u (ch_messages s)) queue (ch_ran s ++ [u])
        (ch_eager s) s
  end.

Definition set_eager (b : bool) (s : chat) : chat :=
  with_updates (ch_messages s) (ch_queue s) (ch_ran s) b s.

(** ** Buffered chunks *)

(** A chunk that is not a string has no [startsWith]; it is only converted when
    it is the first of its buffer. *)
Definition mergePendingStreamChunk (currentChunk : jstr) (nextChunk : jsval) : result unit jstr :=
  if non_empty currentChunk then
    match nextChunk with
    | J_str next => Ok (if starts_with currentChunk next then next else currentChunk ++ next)
    | _ => Err tt
    end
  else Ok (js_to_string nextChunk).

Definition discardPendingStreamUpdates (generation : Z) (s : chat) : chat :=
  with_pending (PendingChunks generation [] []) (with_timer None s).

Definition flushStreamUpdates (now : num) (generation : Z) (s : chat) : chat :=
  if negb (generation =? ch_generation s) then s
  else
    let s := with_timer None s in
    let pendingChunks := ch_pending s in
    if negb (pd_generation pendingChunks =? generation) then s
    else if negb (non_empty (pd_reasoning pendingChunks)) && negb (non_empty (pd_content pendingChunks))
    then s
    else
      onMessageUpdate now
        (U_flush generation (pd_reasoning pendingChunks) (pd_content pendingChunks))
        (with_pending (PendingChunks generation [] []) s).

Definition scheduleStreamFlush (generation : Z) (s : chat) : chat :=
  if negb (generation =? ch_generation s) then s
  else match ch_timer s with
       | Some _ => s
       | None => with_timer (Some (FlushTimer generation true)) s
       end.

(** The callback of the timeout. *)
Definition flush_timeout (now : num) (s : chat) : chat :=
  match ch_timer s with
  | Some (FlushTimer generation true) =>
      flushStreamUpdates now generation (with_timer (Some (FlushTimer generation false)) s)
  | _ => s
  end.

(** ** Callbacks of a stream; the second component says that the callback threw *)
Definition handleStreamUpdate (generation : Z) (type : chunk_type) (chunk : jsval) (s : chat)
    : chat * bool :=
  if negb (generation =? ch_generation s) then (s, false)
  else
    let p := ch_pending s in
    if negb (pd_generation p =? generation) then (s, false)
    else
      let current := match type with C_reasoning => pd_reasoning p | C_content => pd_content p end in
      match mergePendingStreamChunk current chunk with
      | Err _ => (s, true)
      | Ok merged =>
          let p := match type with
                   | C_reasoning => PendingChunks (pd_generation p) (pd_content p) merged
                   | C_content => PendingChunks (pd_generation p) merged (pd_reasoning p)
                   end in
          (scheduleStreamFlush generation (with_pending p s), false)
      end.

Definition handleStreamComplete (now : num) (generation : Z) (s : chat) : chat :=
  if negb (generation =? ch_generation s) then s
  else
    onMessageUpdate now (U_complete generation)
      (with_requesting false (flushStreamUpdates now generation s)).

(** An error that is not a string has no [trim]. *)
Definition handleStreamError (now : num) (generation : Z) (error errorCode : jsval) (s : chat)
    : chat * bool :=
  if negb (generation =? ch_generation s) then (s, false)
  else
    let s := with_requesting false (flushStreamUpdates now generation s) in
    match error with
    | J_str error =>
        let displayError := getPlaygroundDisplayError error in
        (onMessageUpdate now (U_error generation displayError errorCode) (with_error displayError s),
         false)
    | _ => (s, true)
    end.

(** ** The stream controller *)
Definition closeActiveSource (target : Z) (s : chat) : chat :=
  let c := ch_controller s in
  let current := bool_decide (ct_source c = Some target) in
  with_controller
    (Controller (if current then None else ct_source c) (ct_generation c)
       (if current then false else ct_streaming c) (ct_waiting c) (ct_sources c)
       ({[target]} ∪ ct_closed c)) s.

(** The part of [send] before it awaits the headers. *)
Definition send (owner : Z) (s : chat) : chat :=
  let c := ch_controller s in
  let requestGeneration := ct_generation c + 1 in
  with_controller
    (Controller None requestGeneration false (<[requestGeneration := owner]> (ct_waiting c))
       (ct_sources c)
       (match ct_source c with Some previous => {[previous]} ∪ ct_closed c | None => ct_closed c end)) s.

Definition isCurrent (id : Z) (c : controller) : bool :=
  (ct_generation c =? id) && bool_decide (ct_source c = Some id).

(** The source of a listener, while it is current and not completed. *)
Definition listening (id : Z) (c : controller) : option stream_source :=
  match ct_sources c !! id with
  | Some source => if isCurrent id c && negb (ss_completed source) then Some source else None
  | None => None
  end.

Definition complete_source (id : Z) (s : chat) : chat :=
  let c := ch_controller s in
  with_controller
    (Controller (ct_source c) (ct_generation c) (ct_streaming c) (ct_waiting c)
       (alter (fun source => StreamSource (ss_owner source) true) id (ct_sources c)) (ct_closed c)) s.

Definition handleError (now : num) (id : Z) (errorMessage errorCode : jsval) (s : chat) : chat :=
  match listening id (ch_controller s) with
  | None => s
  | Some source =>
      let (s, threw) := handleStreamError now (ss_owner source) errorMessage errorCode
                          (complete_source id s) in
      if threw then s else closeActiveSource id s
  end.

(** The headers of a request arrive; [starts] says whether [stream()] returns. *)
Definition headers_ready (now : num) (id : Z) (starts : bool) (s : chat) : chat :=
  let c := ch_controller s in
  match ct_waiting c !! id with
  | None => s
  | Some owner =>
      if negb (ct_generation c =? id) then
        with_controller
          (Controller (ct_source c) (ct_generation c) (ct_streaming c) (delete id (ct_waiting c))
             (ct_sources c) (ct_closed c)) s
      else
        let s := with_controller
                   (Controller (Some id) (ct_generation c) true (delete id (ct_waiting c))
                      (<[id := StreamSource owner false]> (ct_sources c)) (ct_closed c)) s in
        if starts then s else handleError now id (J_str STREAM_START_ERROR) J_undefined s
  end.

(** The headers are refused, with the message of an [Error] or with another
    value. *)
Definition headers_failed (now : num) (id : Z) (message : option jstr) (s : chat) : chat :=
  let c := ch_controller s in
  match ct_waiting c !! id with
  | None => s
  | Some owner =>
      let s := with_controller
                 (Controller (ct_source c) (ct_generation c) (ct_streaming c)
                    (delete id (ct_waiting c)) (ct_sources c) (ct_closed c)) s in
      if negb (ct_generation c =? id) then s
      else (handleStreamError now owner (J_str (default STREAM_START_ERROR message)) J_undefined s).1
  end.

(** [for (const update of updates) callbacks.onUpdate(...)] *)
Fixpoint apply_updates (owner : Z) (updates : list (chunk_type * jsval)) (s : chat) : chat * bool :=
  match updates with
  | [] => (s, false)
  | (type, chunk) :: updates =>
      let (s, threw) := handleStreamUpdate owner type chunk s in
      if threw then (s, true) else apply_updates owner updates s
  end.

Definition on_stream_message (now : num) (id : Z) (data : option jstr) (s : chat) : chat :=
  match listening id (ch_controller s) with
  | None => s
  | Some source =>
      let data := default [] data in
      if isStreamDoneMessage data then
        handleStreamComplete now (ss_owner source) (closeActiveSource id (complete_source id s))
      else
        match parseStreamMessageUpdates data with
        | Err _ => handleError now id (J_str PARSE_ERROR) J_undefined s
        | Ok updates =>
            let (s, threw) := apply_updates (ss_owner source) updates s in
            if threw then handleError now id (J_str PARSE_ERROR) J_undefined s else s
        end
  end.

Definition on_stream_error (now : num) (id : Z) (readyState : option Z) (data : option jstr)
    (s : chat) : chat :=
  match listening id (ch_controller s) with
  | None => s
  | Some _ =>
      if isStreamClosedReadyState readyState then s
      else let (errorCode, errorMessage) := parseStreamErrorDetails data in
           handleError now id errorMessage errorCode s
  end.

Definition on_ready_state (now : num) (id : Z) (readyState status : option Z) (s : chat) : chat :=
  match listening id (ch_controller s) with
  | None => s
  | Some _ =>
      match getStreamReadyStateError readyState status with
      | Some errorMessage => handleError now id (J_str errorMessage) J_undefined s
      | None => s
      end
  end.

Definition cancel (notify : bool) (s : chat) : chat :=
  let c := ch_controller s in
  with_controller
    (Controller None (ct_generation c + 1) (if notify then false else ct_streaming c) (ct_waiting c)
       (ct_sources c)
       (match ct_source c with Some active => {[active]} ∪ ct_closed c | None => ct_closed c end)) s.

(** ** The chat handler *)

(** [abortControllerRef.current?.abort()], and the new value of the reference *)
Definition abort_current (next : option Z) (s : chat) : chat :=
  with_abort next
    (match ch_abort s with Some a => {[a]} ∪ ch_aborted s | None => ch_aborted s end)
    (ch_inflight s) s.

Definition sendStreamingChat (s : chat) : chat :=
  let generation := ch_generation s + 1 in
  send generation
    (with_requesting true
       (discardPendingStreamUpdates generation
          (abort_current None (with_generation generation s)))).

Definition sendNonStreamingChat (s : chat) : chat :=
  let generation := ch_generation s + 1 in
  let s := abort_current (Some generation)
             (discardPendingStreamUpdates generation
                (cancel true (with_generation generation s))) in
  with_requesting true (with_abort (ch_abort s) (ch_aborted s) ({[generation]} ∪ ch_inflight s) s).

Definition response_taken (generation : Z) (s : chat) : chat :=
  with_abort (ch_abort s) (ch_aborted s) (ch_inflight s ∖ {[generation]}) s.

Definition request_finally (generation : Z) (s : chat) : chat :=
  if ch_generation s =? generation then
    with_requesting false (with_abort None (ch_aborted s) (ch_inflight s) s)
  else s.

(** [abortController.signal.aborted || requestGenerationRef.current !== generation] *)
Definition superseded_request (generation : Z) (s : chat) : bool :=
  bool_decide (generation ∈ ch_aborted s) || negb (ch_generation s =? generation).

Definition on_response (now : num) (generation : Z) (response : chat_response) (s : chat) : chat :=
  if bool_decide (generation ∈ ch_inflight s) then
    let s := response_taken generation s in
    request_finally generation
      (if superseded_request generation s then s
       else if negb (hasChatCompletionChoice response) then
         (handleStreamError now generation (J_str API_REQUEST_ERROR) J_undefined s).1
       else onMessageUpdate now (U_response generation response) s)
  else s.

Definition on_request_error (now : num) (generation : Z) (error : request_error) (s : chat) : chat :=
  if bool_decide (generation ∈ ch_inflight s) then
    let s := response_taken generation s in
    request_finally generation
      (if superseded_request generation s then s
       else let (errorCode, errorMessage) := parseRequestErrorDetails error in
            (handleStreamError now generation errorMessage errorCode s).1)
  else s.

Definition sendChat (stream : bool) (s : chat) : chat :=
  if stream then sendStreamingChat s else sendNonStreamingChat s.

Definition stopGeneration (now : num) (s : chat) : chat :=
  let stoppedGeneration := ch_generation s in
  let s := flushStreamUpdates now stoppedGeneration s in
  let idleGeneration := stoppedGeneration + 1 in
  let s := discardPendingStreamUpdates idleGeneration (with_generation idleGeneration s) in
  let s := with_requesting false (abort_current None (cancel true s)) in
  onMessageUpdate now (U_stop idleGeneration) s.

(** Both cleanup effects, in the order in which the hooks declare them. *)
Definition unmount (s : chat) : chat :=
  let s := cancel false s in
  let s := with_generation (ch_generation s + 1) s in
  let s := with_timer ((fun f => FlushTimer (ft_generation f) false) <$> ch_timer s) s in
  abort_current None s.

Definition isGenerating (s : chat) : bool := ct_streaming (ch_controller s) || ch_requesting s.

(** ** The conversation: [use-playground-conversation.ts]; [messages] are those
    of the last render *)
Definition handleSendMessage (now : num) (ids ids' : jstr * jstr) (stream : bool)
    (messages : list message) (text : jstr) (s : chat) : chat :=
  sendChat stream
    (onMessageUpdate now (U_set (appendUserMessagePair ids ids' now messages text)) s).

Definition handleRegenerateMessage (now : num) (ids : jstr * jstr) (stream : bool)
    (messages : list message) (key : jstr) (s : chat) : chat :=
  match createRegeneratedMessages ids now messages key with
  | None => s
  | Some next => sendChat stream (onMessageUpdate now (U_set next) s)
  end.

Definition applyEdit (now : num) (ids : jstr * jstr) (stream : bool) (messages : list message)
    (editingMessageKey newContent : jstr) (shouldSubmit : bool) (s : chat) : chat :=
  match applyMessageEdit ids now messages editingMessageKey newContent shouldSubmit with
  | None => s
  | Some (next, shouldSend) =>
      let s := onMessageUpdate now (U_set next) s in
      if shouldSend then sendChat stream s else s
  end.

Definition handleDeleteMessage (now : num) (key : jstr) (s : chat) : chat :=
  onMessageUpdate now (U_remove key) s.

End Requests.
