(* ===== verification/ChatFacts.v ===== *)
(** * What the requests of the playground guarantee

    The operations of a mounted playground in any order, as sequences of labels.
    At most one connection is open and it belongs to the current request; text
    that is buffered has a timer that will show it; a request that was overtaken
    writes nothing more; and every request settles at most once. *)
From stdpp Require Import strings.
From S2P Require Import Prelude JsString JsNumber JsValue JsJson AuthSession ChatMessage ChatStream.

#[local] Open Scope Z_scope.

(** ** Runs of a playground *)
Inductive label :=
| K_send (now : num) (ids ids' : jstr * jstr) (stream : bool) (messages : list message) (text : jstr)
| K_regenerate (now : num) (ids : jstr * jstr) (stream : bool) (messages : list message) (key : jstr)
| K_edit (now : num) (ids : jstr * jstr) (stream : bool) (messages : list message) (key content : jstr)
    (submit : bool)
| K_delete (now : num) (key : jstr)
| K_stop (now : num)
| K_timeout (now : num)
| K_eager (b : bool)
| K_run (now : num)
| K_headers (now : num) (id : Z) (starts : bool)
| K_no_headers (now : num) (id : Z) (error : option jstr)
| K_message (now : num) (id : Z) (data : option jstr)
| K_error (now : num) (id : Z) (readyState : option Z) (data : option jstr)
| K_ready_state (now : num) (id : Z) (readyState status : option Z)
| K_response (now : num) (generation : Z) (response : chat_response)
| K_request_error (now : num) (generation : Z) (error : request_error).

Section Facts.
Context (t display : jstr -> jstr).

Definition chat_step (s : chat) (l : label) : chat :=
  match l with
  | K_send now ids ids' stream messages text => handleSendMessage t now ids ids' stream messages text s
  | K_regenerate now ids stream messages key =>
      handleRegenerateMessage t now ids stream messages key s
  | K_edit now ids stream messages key content submit =>
      applyEdit t now ids stream messages key content submit s
  | K_delete now key => handleDeleteMessage t now key s
  | K_stop now => stopGeneration t now s
  | K_timeout now => flush_timeout t now s
  | K_eager b => set_eager b s
  | K_run now => run_next t now s
  | K_headers now id starts => headers_ready t display now id starts s
  | K_no_headers now id error => headers_failed t display now id error s
  | K_message now id data => on_stream_message t display now id data s
  | K_error now id readyState data => on_stream_error t display now id readyState data s
  | K_ready_state now id readyState status => on_ready_state t display now id readyState status s
  | K_response now generation response => on_response t display now generation response s
  | K_request_error now generation error => on_request_error t display now generation error s
  end.

Definition chat_run (s : chat) (tr : list label) : chat := foldl chat_step s tr.

(** ** The invariant *)

(** Everything that is not the conversation itself. *)
Record core := Core {
  co_controller : controller;
  co_generation : Z;
  co_pending : pending_chunks;
  co_timer : option flush_timer;
  co_inflight : gset Z;
  co_requesting : bool
}.

Definition core_of (s : chat) : core :=
  Core (ch_controller s) (ch_generation s) (ch_pending s) (ch_timer s) (ch_inflight s)
    (ch_requesting s).

(** The current request still waits for headers, for its stream or for its response. *)
Definition outstanding (s : core) : Prop :=
  is_Some (ct_waiting (co_controller s) !! ct_generation (co_controller s))
  \/ (exists id, is_Some (listening id (co_controller s)))
  \/ co_generation s ∈ co_inflight s.

Record connections_ok (s : core) : Prop := {
  streaming_iff : ct_streaming (co_controller s) = bool_decide (is_Some (ct_source (co_controller s)));
  source_current id : ct_source (co_controller s) = Some id ->
    ct_generation (co_controller s) = id
    /\ exists source, ct_sources (co_controller s) !! id = Some source
                      /\ ss_owner source = co_generation s;
  others_closed id : is_Some (ct_sources (co_controller s) !! id) ->
    id ∈ ct_closed (co_controller s) \/ ct_source (co_controller s) = Some id;
  waiting_old id : is_Some (ct_waiting (co_controller s) !! id) ->
    id <= ct_generation (co_controller s);
  waiting_current owner :
    ct_waiting (co_controller s) !! ct_generation (co_controller s) = Some owner ->
    owner = co_generation s /\ ct_source (co_controller s) = None;
  inflight_old g : g ∈ co_inflight s -> g <= co_generation s;
  inflight_current : co_generation s ∈ co_inflight s ->
    ct_source (co_controller s) = None
    /\ ct_waiting (co_controller s) !! ct_generation (co_controller s) = None
}.

Record buffer_ok (s : core) : Prop := {
  pending_current : pd_generation (co_pending s) = co_generation s;
  timer_current f : co_timer s = Some f -> f = FlushTimer (co_generation s) true;
  buffered_scheduled :
    pd_content (co_pending s) <> [] \/ pd_reasoning (co_pending s) <> [] -> is_Some (co_timer s)
}.

(** ** Settlement *)

(** All updaters that were ever passed to React. *)
Definition history (s : chat) : list updater := ch_ran s ++ ch_queue s.

(** The updater ends the message of request [g]. *)
Definition settles (g : Z) (u : updater) : bool :=
  match u with
  | U_complete h | U_error h _ _ | U_response h _ => g =? h
  | _ => false
  end.

Definition settled (g : Z) (h : list updater) : nat := length (List.filter (settles g) h).

(** No request has settled twice, and no later one has settled at all. *)
Definition once_ok (s : core) (h : list updater) : Prop :=
  forall g, (settled g h <= 1)%nat /\ (co_generation s < g -> settled g h = 0%nat).

(** The state between two operations. *)
Record good (s : chat) : Prop := {
  good_connections : connections_ok (core_of s);
  good_buffer : buffer_ok (core_of s);
  good_requesting : ch_requesting s = true -> outstanding (core_of s);
  good_once : once_ok (core_of s) (history s);
  good_unsettled : outstanding (core_of s) -> settled (ch_generation s) (history s) = 0%nat
}.

(** The state in which the current request has ended: [settling] before its
    settlement is recorded, [quiet] after it. *)
Record quiet (s : chat) : Prop := {
  quiet_connections : connections_ok (core_of s);
  quiet_buffer : buffer_ok (core_of s);
  quiet_ended : ~ outstanding (core_of s);
  quiet_once : once_ok (core_of s) (history s)
}.

Definition settling (s : chat) : Prop :=
  quiet s /\ settled (ch_generation s) (history s) = 0%nat.

Lemma settled_app g h h' : settled g (h ++ h') = (settled g h + settled g h')%nat.
Proof. unfold settled. by rewrite List.filter_app, length_app. Qed.

Lemma core_emit now u s : core_of (onMessageUpdate t now u s) = core_of s.
Proof. unfold onMessageUpdate. by repeat case_match. Qed.

Lemma history_emit now u s : history (onMessageUpdate t now u s) = history s ++ [u].
Proof.
  unfold onMessageUpdate, history.
  destruct (ch_eager s), (ch_queue s); simpl; by rewrite ?app_nil_r, <- ?app_assoc.
Qed.

Lemma generation_core s : ch_generation s = co_generation (core_of s).
Proof. done. Qed.

(** Two states with the same core and history. *)
Lemma good_view s s' : core_of s' = core_of s -> history s' = history s -> good s -> good s'.
Proof.
  intros Hc Hh [H1 H2 H3 H4 H5]. rewrite (generation_core s) in H5.
  change (ch_requesting s) with (co_requesting (core_of s)) in H3.
  split; rewrite ?Hh, ?(generation_core s').
  - by rewrite Hc.
  - by rewrite Hc.
  - change (ch_requesting s') with (co_requesting (core_of s')). by rewrite Hc.
  - by rewrite Hc.
  - by rewrite Hc.
Qed.

(** Emission of an updater that settles nothing. *)
Lemma good_emit now u s : (forall g, settles g u = false) -> good s -> good (onMessageUpdate t now u s).
Proof.
  intros Hu [H1 H2 H3 H4 H5].
  assert (forall g, settled g (history s ++ [u]) = settled g (history s)) as Hs.
  { intros g. rewrite settled_app. unfold settled at 2. simpl. rewrite Hu. simpl. lia. }
  pose proof (core_emit now u s) as Hc. rewrite generation_core in H5.
  change (ch_requesting s) with (co_requesting (core_of s)) in H3.
  split; rewrite ?history_emit, ?Hs, ?(generation_core (onMessageUpdate _ _ _ _)), ?Hc; try done.
  - change (ch_requesting (onMessageUpdate t now u s))
      with (co_requesting (core_of (onMessageUpdate t now u s))). by rewrite Hc.
  - intros g. rewrite Hs. apply H4.
Qed.

(** Emission of the settlement of the current request. *)
Lemma settling_emit now u s :
  (forall g, settles g u = (g =? ch_generation s)) -> settling s -> quiet (onMessageUpdate t now u s).
Proof.
  intros Hu [[H1 H2 H3 H4] H5].
  split; rewrite ?core_emit, ?history_emit; try done.
  intros g. rewrite settled_app. destruct (H4 g) as [Ha Hb]. unfold settled at 2 4. simpl. rewrite Hu.
  destruct (g =? ch_generation s) eqn:E; bsplit; simpl.
  - subst g. rewrite H5. split; [lia|]. intros Hg. exfalso. rewrite generation_core in Hg. lia.
  - split; [lia|]. intros Hg. rewrite (Hb Hg). lia.
Qed.

Definition ended (s : chat) : Prop := quiet s /\ ch_requesting s = false.

Lemma ended_good s : ended s -> good s.
Proof. intros [[H1 H2 H3 H4] Hr]. split; try done. by rewrite Hr. Qed.

Lemma quiet_requesting b s : quiet s -> quiet (with_requesting b s).
Proof. intros [[] [] H3 H4]. by split; [split|split| |]. Qed.

(** ** The buffer *)

(** Only the buffer, its timer and the conversation have changed. *)
Record rebuffered (s s' : chat) : Prop := {
  rb_controller : ch_controller s' = ch_controller s;
  rb_generation : ch_generation s' = ch_generation s;
  rb_inflight : ch_inflight s' = ch_inflight s;
  rb_requesting : ch_requesting s' = ch_requesting s;
  rb_buffer : buffer_ok (core_of s');
  rb_history : exists us, history s' = history s ++ us /\ forall g, settled g us = 0%nat
}.

Lemma connections_same s s' : rebuffered s s' ->
  connections_ok (core_of s) -> connections_ok (core_of s').
Proof.
  intros [Hc Hg Hi _ _ _] [H1 H2 H3 H4 H5 H6 H7].
  split; unfold core_of in *; simpl in *; rewrite ?Hc, ?Hg, ?Hi; assumption.
Qed.

Lemma outstanding_same s s' : rebuffered s s' ->
  outstanding (core_of s') <-> outstanding (core_of s).
Proof. intros [Hc Hg Hi _ _ _]. unfold outstanding, core_of. simpl. by rewrite Hc, Hg, Hi. Qed.

Lemma settled_same s s' g : rebuffered s s' -> settled g (history s') = settled g (history s).
Proof. intros [_ _ _ _ _ (us & -> & Hus)]. rewrite settled_app, Hus. lia. Qed.

Lemma once_same s s' : rebuffered s s' ->
  once_ok (core_of s) (history s) -> once_ok (core_of s') (history s').
Proof.
  intros H H4 g. rewrite (settled_same s) by done. destruct (H4 g) as [Ha Hb].
  split; [done|]. intros Hg. apply Hb. rewrite <- generation_core in *.
  by rewrite <- (rb_generation _ _ H).
Qed.

Lemma good_rebuffered s s' : rebuffered s s' -> good s -> good s'.
Proof.
  intros H [H1 H2 H3 H4 H5]. split.
  - by eapply connections_same.
  - apply H.
  - rewrite (rb_requesting _ _ H). intros Hr. apply (outstanding_same s); auto.
  - by eapply once_same.
  - intros Ho. rewrite (settled_same s), (rb_generation _ _ H) by done. apply H5.
    by apply (outstanding_same s s').
Qed.

Lemma settling_rebuffered s s' : rebuffered s s' -> settling s -> settling s'.
Proof.
  intros H [[H1 H2 H3 H4] H5]. split; [split|].
  - by eapply connections_same.
  - apply H.
  - by rewrite (outstanding_same s).
  - by eapply once_same.
  - by rewrite (settled_same s), (rb_generation _ _ H) by done.
Qed.

(** Buffers of the current request. *)
Lemma empty_buffer_ok c g i r : buffer_ok (Core c g (PendingChunks g [] []) None i r).
Proof. split; simpl; [done|done|]. intros [H|H]; by destruct H. Qed.

Lemma rebuffered_refl s : buffer_ok (core_of s) -> rebuffered s s.
Proof. intros H. split; try done. exists []. by rewrite app_nil_r. Qed.

Lemma rebuffered_flush now g s : buffer_ok (core_of s) -> rebuffered s (flushStreamUpdates t now g s).
Proof.
  intros Hb. unfold flushStreamUpdates.
  destruct (Z.eqb_spec g (ch_generation s)) as [->|Hg]; simpl; [|by apply rebuffered_refl].
  pose proof (pending_current _ Hb) as Hp. simpl in Hp. rewrite Hp, Z.eqb_refl. simpl.
  destruct (pd_reasoning (ch_pending s)) eqn:Er, (pd_content (ch_pending s)) eqn:Ec; simpl.
  - split; try done.
    + unfold core_of. simpl. destruct (ch_pending s) as [g' c r]; simpl in *; subst.
      apply empty_buffer_ok.
    + exists []. by rewrite app_nil_r.
  - split; try by (unfold onMessageUpdate; repeat case_match).
    + rewrite core_emit. apply empty_buffer_ok.
    + exists [U_flush (ch_generation s) [] (z :: l)]. by rewrite history_emit.
  - split; try by (unfold onMessageUpdate; repeat case_match).
    + rewrite core_emit. apply empty_buffer_ok.
    + exists [U_flush (ch_generation s) (z :: l) []]. by rewrite history_emit.
  - split; try by (unfold onMessageUpdate; repeat case_match).
    + rewrite core_emit. apply empty_buffer_ok.
    + eexists [U_flush (ch_generation s) _ _]. by rewrite history_emit.
Qed.

Lemma rebuffered_update g type chunk s : buffer_ok (core_of s) ->
  rebuffered s (handleStreamUpdate g type chunk s).1.
Proof.
  intros Hb. unfold handleStreamUpdate.
  destruct (Z.eqb_spec g (ch_generation s)) as [->|]; simpl; [|by apply rebuffered_refl].
  pose proof (pending_current _ Hb) as Hp. simpl in Hp. rewrite Hp, Z.eqb_refl. simpl.
  destruct (mergePendingStreamChunk _ _) as [merged|]; simpl; [|by apply rebuffered_refl].
  destruct Hb as [H1 H2 H3]. simpl in *. unfold scheduleStreamFlush. simpl. rewrite Z.eqb_refl. simpl.
  destruct (ch_timer s) as [f|] eqn:Ef; split; try done; try (exists []; by rewrite app_nil_r).
  - split; simpl; [by destruct type| |by rewrite Ef]. intros f' Hf'. apply H2.
    rewrite <- Hf'. simpl. by rewrite Ef.
  - split; simpl; [by destruct type| |done]. by intros f' [= <-].
Qed.

(** ** Settlement of the current request *)
Lemma requesting_emit now u s : ch_requesting (onMessageUpdate t now u s) = ch_requesting s.
Proof. unfold onMessageUpdate. by repeat case_match. Qed.

Lemma settle_flushed now u s :
  (forall g, settles g u = (g =? ch_generation s)) -> settling s ->
  ended (onMessageUpdate t now u (with_requesting false (flushStreamUpdates t now (ch_generation s) s))).
Proof.
  intros Hu Hs. assert (rebuffered s (flushStreamUpdates t now (ch_generation s) s)) as Hf.
  { apply rebuffered_flush, Hs. }
  split; [|by rewrite requesting_emit].
  apply settling_emit; [simpl; by rewrite (rb_generation _ _ Hf)|].
  apply (settling_rebuffered _ _ Hf) in Hs as [H1 H2]. split; [by apply quiet_requesting|done].
Qed.

Lemma complete_good now s : settling s -> good (handleStreamComplete t now (ch_generation s) s).
Proof. intros Hs. unfold handleStreamComplete. rewrite Z.eqb_refl. simpl. by apply ended_good, settle_flushed. Qed.

Lemma with_error_ended e s : ended s -> ended (with_error e s).
Proof. intros [[H1 H2 H3 H4] Hr]. by split; [split|]. Qed.

Lemma with_error_emit now u e s :
  onMessageUpdate t now u (with_error e s) = with_error e (onMessageUpdate t now u s).
Proof.
  unfold onMessageUpdate. simpl. by destruct (ch_eager s), (ch_queue s).
Qed.

Lemma error_ended now error code s : settling s ->
  ended (handleStreamError t display now (ch_generation s) error code s).1.
Proof.
  intros Hs. unfold handleStreamError. rewrite Z.eqb_refl. simpl.
  assert (ended (with_requesting false (flushStreamUpdates t now (ch_generation s) s))) as Hq.
  { split; [|done]. apply quiet_requesting.
    apply (settling_rebuffered s); [apply rebuffered_flush, Hs|done]. }
  destruct error; simpl; try exact Hq.
  rewrite with_error_emit. by apply with_error_ended, settle_flushed.
Qed.

(** ** The stream controller *)
Lemma closed_good id s : good s -> ~ outstanding (core_of s) \/ ct_source (ch_controller s) <> Some id ->
  good (closeActiveSource id s).
Proof.
  intros [[H1 H2 H3 H4 H5 H6 H7] Hb Hr Ho Hu] Hq.
  assert (forall id', listening id' (ch_controller (closeActiveSource id s))
                      = if bool_decide (ct_source (ch_controller s) = Some id) then None
                        else listening id' (ch_controller s)) as Hl.
  { intros id'. unfold listening, isCurrent. simpl.
    destruct (bool_decide (ct_source (ch_controller s) = Some id)); [|done].
    rewrite (bool_decide_eq_false_2 (None = _)) by done.
    rewrite andb_false_r. by destruct (ct_sources _ !! id'). }
  assert (outstanding (core_of (closeActiveSource id s)) <-> outstanding (core_of s)) as Hs.
  { unfold outstanding. cbn [co_controller core_of]. setoid_rewrite Hl.
    case_bool_decide; [|done]. split; [|by destruct Hq]. intros [|[[? []%is_Some_None]|]]; auto. }
  split; [split| |rewrite Hs| |rewrite Hs]; simpl in *; try done; try by destruct Hb.
  - rewrite H1. by repeat case_bool_decide.
  - intros id'. case_bool_decide; [done|]. apply H2.
  - intros id' Hid. apply H3 in Hid as [Hid|Hid]; [left; by apply elem_of_union_r|].
    case_bool_decide as Hd; [|by right]. left. apply elem_of_union_l, elem_of_singleton. congruence.
  - intros owner How. apply H5 in How as [? ?]. split; [done|]. by case_bool_decide.
  - intros Hg. apply H7 in Hg as [? ?]. split; [|done]. by case_bool_decide.
Qed.

Lemma listening_spec id c source : listening id c = Some source ->
  ct_sources c !! id = Some source /\ ct_source c = Some id /\ ct_generation c = id
  /\ ss_completed source = false.
Proof.
  unfold listening, isCurrent. intros H. destruct (ct_sources c !! id) as [src|]; [|done].
  destruct ((ct_generation c =? id) && _) eqn:E; simpl in H; [|done]. bsplit.
  destruct (ss_completed src) eqn:Ec; simpl in H; [done|]. by injection H as <-.
Qed.

(** A listening source belongs to the current request, which nothing else serves. *)
Lemma listening_owner s id source : good s -> listening id (ch_controller s) = Some source ->
  ss_owner source = ch_generation s
  /\ ct_waiting (ch_controller s) !! ct_generation (ch_controller s) = None
  /\ ch_generation s ∉ ch_inflight s.
Proof.
  intros [[H1 H2 H3 H4 H5 H6 H7] _ _ _ _] Hl. apply listening_spec in Hl as (Hs & Hc & Hg & _).
  simpl in *. destruct (H2 id Hc) as (_ & source' & Hs' & Ho). simplify_eq. split; [done|]. split.
  - destruct (ct_waiting _ !! _) as [w|] eqn:Ew; [|done]. destruct (H5 w eq_refl). congruence.
  - intros [Hn _]%H7. congruence.
Qed.

Lemma completed_settling s id source : good s -> listening id (ch_controller s) = Some source ->
  settling (complete_source id s).
Proof.
  intros Hgood Hl. pose proof (listening_owner _ _ _ Hgood Hl) as (Ho & Hw & Hi).
  destruct Hgood as [[H1 H2 H3 H4 H5 H6 H7] [] Hr Hon Hu].
  pose proof (listening_spec _ _ _ Hl) as (Hs & Hc & Hg & _).
  split; [split|apply Hu; right; left; by exists id]; simpl in *.
  - split; simpl; try done.
    + intros id' Hid. destruct (H2 id' Hid) as (? & source' & Hs' & Ho'). split; [done|].
      simplify_eq. rewrite lookup_alter_eq, Hs. by eexists.
    + intros id'. rewrite lookup_alter_is_Some. apply H3.
  - done.
  - intros [[w ?]|[[id' [src Hsrc]]|?]]; simpl in *; [congruence| |done].
    apply listening_spec in Hsrc as (Ha & Hb & _ & Hd). simpl in *.
    assert (id' = id) as -> by congruence. rewrite lookup_alter_eq, Hs in Ha. by injection Ha as <-.
  - done.
Qed.

Lemma handleError_good now id message code s : good s -> good (handleError t display now id message code s).
Proof.
  intros Hg. unfold handleError. destruct (listening id _) as [source|] eqn:El; [|done].
  pose proof (completed_settling _ _ _ Hg El) as Hs.
  destruct (listening_owner _ _ _ Hg El) as (-> & _ & _).
  apply (error_ended now message code) in Hs. change (ch_generation (complete_source id s))
    with (ch_generation s) in Hs.
  destruct (handleStreamError _ _ _ _ _ _ _) as [s' threw]. simpl in Hs.
  apply ended_good in Hs as Hs'. destruct threw; [done|].
  apply closed_good; [done|]. left. apply Hs.
Qed.

Lemma updates_rebuffered owner updates s : buffer_ok (core_of s) ->
  rebuffered s (apply_updates owner updates s).1.
Proof.
  revert s. induction updates as [|[type chunk] updates IH]; intros s Hb; simpl;
    [by apply rebuffered_refl|].
  pose proof (rebuffered_update owner type chunk s Hb) as H1.
  destruct (handleStreamUpdate _ _ _ _) as [s1 threw]. simpl in H1. destruct threw; [done|].
  specialize (IH s1 (rb_buffer _ _ H1)). destruct H1 as [? ? ? ? ? (us & Hus & Hz)].
  destruct IH as [? ? ? ? ? (us' & Hus' & Hz')]. split; try congruence; try done.
  exists (us ++ us'). split; [by rewrite Hus', Hus, app_assoc|].
  intros g. rewrite settled_app, Hz, Hz'. done.
Qed.

Lemma on_stream_message_good now id data s : good s -> good (on_stream_message t display now id data s).
Proof.
  intros Hg. unfold on_stream_message. destruct (listening id _) as [source|] eqn:El; [|done].
  destruct (isStreamDoneMessage _).
  - pose proof (completed_settling _ _ _ Hg El) as [Hq Hs].
    destruct (listening_owner _ _ _ Hg El) as (-> & _ & _).
    apply (complete_good now (closeActiveSource id (complete_source id s))).
    assert (good (closeActiveSource id (with_requesting false (complete_source id s)))) as Hc.
    { apply closed_good; [apply ended_good; split; [by apply quiet_requesting|done]|].
      left. apply Hq. }
    split; [|done]. destruct Hc as [[] [] _ Ho _]. split; [by split|by split| |done].
    intros Hout. apply (quiet_ended _ Hq).
    destruct Hout as [Hw|[[id' [src Hsrc]]|Hi]]; [by left| |by right; right].
    apply listening_spec in Hsrc as (_ & Hsrc & _). simpl in Hsrc.
    apply listening_spec in El as (_ & El & _). by rewrite bool_decide_eq_true_2 in Hsrc.
  - destruct (parseStreamMessageUpdates _) as [updates|]; [|by apply handleError_good].
    pose proof (updates_rebuffered (ss_owner source) updates s (good_buffer _ Hg)) as Hu.
    destruct (apply_updates _ _ _) as [s' threw]. apply (good_rebuffered _ _ Hu) in Hg.
    destruct threw; [by apply handleError_good|done].
Qed.

Lemma on_stream_error_good now id state data s : good s ->
  good (on_stream_error t display now id state data s).
Proof.
  intros Hg. unfold on_stream_error. repeat case_match; try done. by apply handleError_good.
Qed.

Lemma on_ready_state_good now id state status s : good s ->
  good (on_ready_state t display now id state status s).
Proof.
  intros Hg. unfold on_ready_state. repeat case_match; try done. by apply handleError_good.
Qed.

(** ** Headers *)

(** The request that waited for headers waits no more. *)
Definition unwait (id : Z) (s : chat) : chat :=
  let c := ch_controller s in
  with_controller
    (Controller (ct_source c) (ct_generation c) (ct_streaming c) (delete id (ct_waiting c))
       (ct_sources c) (ct_closed c)) s.

Lemma unwait_connections id s : connections_ok (core_of s) -> connections_ok (core_of (unwait id s)).
Proof.
  intros [H1 H2 H3 H4 H5 H6 H7]. split; simpl in *; try done.
  - intros id' [w Hw]. apply lookup_delete_Some in Hw as [_ Hw]. apply H4. by exists w.
  - intros w Hw. apply lookup_delete_Some in Hw as [_ Hw]. by apply H5.
  - intros Hi. destruct (H7 Hi) as [? Hw]. split; [done|]. apply lookup_delete_None. by right.
Qed.

Lemma unwait_stale id s : id <> ct_generation (ch_controller s) -> good s -> good (unwait id s).
Proof.
  intros Hid [H1 H2 H3 H4 H5].
  assert (outstanding (core_of (unwait id s)) <-> outstanding (core_of s)) as Ho.
  { unfold outstanding. simpl. by rewrite lookup_delete_ne. }
  split; rewrite ?Ho; try done; [by apply unwait_connections|by destruct H2].
Qed.

Lemma unwait_settling s owner : good s ->
  ct_waiting (ch_controller s) !! ct_generation (ch_controller s) = Some owner ->
  settling (unwait (ct_generation (ch_controller s)) s).
Proof.
  intros [H1 H2 H3 H4 H5] Hw. split; [|apply H5; left; by exists owner].
  destruct (waiting_current _ H1 owner Hw) as [_ Hs]. simpl in Hs.
  split; [by apply unwait_connections|by destruct H2| |done].
  intros [[w Hw']|[[id [src Hl]]|Hi]]; simpl in *.
  - by rewrite lookup_delete_eq in Hw'.
  - apply listening_spec in Hl as (_ & Hl & _). simpl in Hl. congruence.
  - destruct (inflight_current _ H1 Hi) as [_ Hn]. simpl in Hn. congruence.
Qed.

Lemma headers_failed_good now id error s : good s -> good (headers_failed t display now id error s).
Proof.
  intros Hg. unfold headers_failed. destruct (ct_waiting _ !! id) as [owner|] eqn:Ew; [|done].
  fold (unwait id s). destruct (Z.eqb_spec (ct_generation (ch_controller s)) id) as [<-|Hn]; simpl.
  - destruct (waiting_current _ (good_connections _ Hg) owner Ew) as [-> _].
    apply ended_good, (error_ended now _ _ (unwait _ s)). by eapply unwait_settling.
  - apply unwait_stale; congruence.
Qed.

Lemma opened_good s owner : good s ->
  ct_waiting (ch_controller s) !! ct_generation (ch_controller s) = Some owner ->
  good (with_controller
          (Controller (Some (ct_generation (ch_controller s))) (ct_generation (ch_controller s)) true
             (delete (ct_generation (ch_controller s)) (ct_waiting (ch_controller s)))
             (<[ct_generation (ch_controller s) := StreamSource owner false]>
                (ct_sources (ch_controller s))) (ct_closed (ch_controller s))) s).
Proof.
  intros [[H1 H2 H3 H4 H5 H6 H7] Hb Hr Ho Hu] Hw.
  destruct (H5 owner Hw) as [How Hs]. simpl in *.
  split; simpl; [split; simpl| | | |]; try done.
  - intros id [= <-]. split; [done|]. exists (StreamSource owner false).
    by rewrite lookup_insert_eq.
  - intros id Hid. destruct (decide (id = ct_generation (ch_controller s))) as [->|Hne]; [by right|].
    rewrite lookup_insert_ne in Hid by done. left. apply H3 in Hid as [?|?]; [done|congruence].
  - intros id [w Hid]. apply lookup_delete_Some in Hid as [_ Hid]. apply H4. by exists w.
  - intros w Hid. by rewrite lookup_delete_eq in Hid.
  - intros Hi. destruct (H7 Hi) as [_ ?]. congruence.
  - by destruct Hb.
  - intros _. right; left. exists (ct_generation (ch_controller s)). unfold listening, isCurrent. simpl.
    rewrite lookup_insert_eq, Z.eqb_refl, bool_decide_eq_true_2 by done. by eexists.
  - intros _. apply Hu. left. by exists owner.
Qed.

Lemma headers_ready_good now id starts s : good s -> good (headers_ready t display now id starts s).
Proof.
  intros Hg. unfold headers_ready. destruct (ct_waiting _ !! id) as [owner|] eqn:Ew; [|done].
  destruct (Z.eqb_spec (ct_generation (ch_controller s)) id) as [<-|Hn]; simpl.
  - apply (opened_good _ owner) in Hg; [|done]. destruct starts; [done|]. by apply handleError_good.
  - apply unwait_stale; congruence.
Qed.

(** ** New requests *)

(** A later generation whose request nothing has answered. *)
Lemma once_later s s' : once_ok (core_of s) (history s) -> history s' = history s ->
  ch_generation s' = ch_generation s + 1 ->
  once_ok (core_of s') (history s') /\ settled (ch_generation s') (history s') = 0%nat.
Proof.
  intros Ho Hh Hg. rewrite Hh. split.
  - intros g. destruct (Ho g) as [? H0]. split; [done|]. intros Hlt. apply H0.
    simpl in *. rewrite Hg in Hlt. lia.
  - destruct (Ho (ch_generation s')) as [_ H0]. apply H0. simpl. lia.
Qed.

Lemma closed_all c (P : Z -> Prop) : (forall id, P id -> id ∈ ct_closed c \/ ct_source c = Some id) ->
  forall id, P id -> id ∈ match ct_source c with
                          | Some active => {[active]} ∪ ct_closed c
                          | None => ct_closed c
                          end.
Proof.
  intros H id [Hc|Hs]%H.
  - destruct (ct_source c); [by apply elem_of_union_r|done].
  - rewrite Hs. by apply elem_of_union_l, elem_of_singleton.
Qed.

Lemma sendStreamingChat_good s : good s -> good (sendStreamingChat s).
Proof.
  intros [[H1 H2 H3 H4 H5 H6 H7] Hb Hr Ho Hu].
  destruct (once_later s (sendStreamingChat s) Ho) as [Ho' Hu']; [done..|].
  split; [split| | | |]; simpl in *; try done.
  - intros id Hid. left. by eapply (closed_all _ (fun id => is_Some (ct_sources _ !! id))).
  - intros id [w Hid]. apply lookup_insert_Some in Hid as [[<- _]|[_ Hid]]; [lia|].
    specialize (H4 id (mk_is_Some _ _ Hid)). lia.
  - intros w Hw. rewrite lookup_insert_eq in Hw. by injection Hw as <-.
  - intros g Hg. apply H6 in Hg. lia.
  - intros Hg. apply H6 in Hg. lia.
  - apply empty_buffer_ok.
  - intros _. left. simpl. rewrite lookup_insert_eq. by eexists.
Qed.

(** A cancelled stream, and a later generation. *)
Lemma cancelled_connections s p f i r : connections_ok (core_of s) ->
  (forall g, g ∈ i -> g <= ch_generation s + 1) ->
  connections_ok (Core (ch_controller (cancel true s)) (ch_generation s + 1) p f i r).
Proof.
  intros [H1 H2 H3 H4 H5 H6 H7] Hi. simpl in *.
  assert (ct_waiting (ch_controller s) !! (ct_generation (ch_controller s) + 1) = None) as Hw.
  { apply eq_None_not_Some. intros H. apply H4 in H. lia. }
  split; simpl; try done.
  - intros id Hid. left. by eapply (closed_all _ (fun id => is_Some (ct_sources _ !! id))).
  - intros id Hid. apply H4 in Hid. lia.
  - intros w. by rewrite Hw.
Qed.

Lemma sendNonStreamingChat_good s : good s -> good (sendNonStreamingChat s).
Proof.
  intros [H1 H2 H3 H4 H5].
  destruct (once_later s (sendNonStreamingChat s) H4) as [Ho' Hu']; [done..|].
  split; simpl in *; try done.
  - apply (cancelled_connections s _ _ ({[ch_generation s + 1]} ∪ ch_inflight s)); [done|].
    intros g [->%elem_of_singleton|Hg]%elem_of_union; [lia|].
    apply (inflight_old _ H1) in Hg. simpl in Hg. lia.
  - apply empty_buffer_ok.
  - intros _. right; right. simpl. by apply elem_of_union_l, elem_of_singleton.
Qed.

Lemma sendChat_good stream s : good s -> good (sendChat stream s).
Proof. destruct stream; [apply sendStreamingChat_good|apply sendNonStreamingChat_good]. Qed.

Lemma cancelled_quiet s : connections_ok (core_of s) -> once_ok (core_of s) (history s) ->
  quiet (discardPendingStreamUpdates (ch_generation s + 1)
           (with_generation (ch_generation s + 1) (cancel true s))).
Proof.
  intros H1 H4. split.
  - apply cancelled_connections; [done|]. intros g Hg. apply (inflight_old _ H1) in Hg. simpl in Hg. lia.
  - apply empty_buffer_ok.
  - intros [[w Hw]|[[id [src Hl]]|Hi]].
    + assert (is_Some (ct_waiting (ch_controller s) !! (ct_generation (ch_controller s) + 1)))
        as Hs%(waiting_old _ H1) by (by exists w). simpl in Hs. lia.
    + by apply listening_spec in Hl as (_ & Hl & _).
    + apply (inflight_old _ H1) in Hi. simpl in Hi. lia.
  - by apply (once_later s _ H4).
Qed.

Lemma stopGeneration_good now s : good s -> good (stopGeneration t now s).
Proof.
  intros Hg. pose proof (rebuffered_flush now (ch_generation s) s (good_buffer _ Hg)) as Hf.
  apply (good_rebuffered _ _ Hf) in Hg. unfold stopGeneration.
  revert Hg Hf. generalize (flushStreamUpdates t now (ch_generation s) s) as s1. intros s1 Hg Hf.
  rewrite <- (rb_generation _ _ Hf). apply good_emit; [done|]. destruct Hg as [H1 _ _ H4 _].
  destruct (quiet_requesting false _ (cancelled_quiet s1 H1 H4)) as [Ha Hb Hc Hd].
  apply ended_good. by split; [split|].
Qed.

(** ** Responses of requests that are not streamed *)
Lemma taken_connections g s : connections_ok (core_of s) -> connections_ok (core_of (response_taken g s)).
Proof.
  intros [H1 H2 H3 H4 H5 H6 H7]. split; simpl in *; try done.
  - intros g' [Hg _]%elem_of_difference. by apply H6.
  - intros [Hg _]%elem_of_difference. by apply H7.
Qed.

Lemma taken_stale g s : g <> ch_generation s -> good s -> good (response_taken g s).
Proof.
  intros Hn [H1 H2 H3 H4 H5].
  assert (outstanding (core_of (response_taken g s)) <-> outstanding (core_of s)) as Ho.
  { unfold outstanding. simpl. rewrite elem_of_difference, elem_of_singleton. naive_solver. }
  split; rewrite ?Ho; try done; [by apply taken_connections|by destruct H2].
Qed.

Lemma taken_settling s : good s -> ch_generation s ∈ ch_inflight s ->
  settling (response_taken (ch_generation s) s).
Proof.
  intros [H1 H2 H3 H4 H5] Hi. split; [|apply H5; by right; right].
  destruct (inflight_current _ H1 Hi) as [Hs Hw]. simpl in *.
  split; [by apply taken_connections|by destruct H2| |done].
  intros [[w Hw']|[[id [src Hl]]|Hi']]; simpl in *.
  - congruence.
  - apply listening_spec in Hl as (_ & Hl & _). simpl in Hl. congruence.
  - by apply elem_of_difference in Hi' as [_ []%not_elem_of_singleton].
Qed.

Lemma finally_good g s : (g = ch_generation s -> quiet s) -> (g <> ch_generation s -> good s) ->
  good (request_finally g s).
Proof.
  intros Hq Hg. unfold request_finally. destruct (Z.eqb_spec (ch_generation s) g) as [<-|Hn].
  - destruct (Hq eq_refl) as [[] [] ? ?]. apply ended_good. by split; [split; [split|split| |]|].
  - apply Hg. congruence.
Qed.

(** What a response does before its [finally]. *)
Lemma answered_good g s (k : chat -> chat) : good s ->
  (forall s', settling s' -> ch_generation s' = g -> quiet (k s') /\ ch_generation (k s') = g) ->
  good (if bool_decide (g ∈ ch_inflight s) then
          let s := response_taken g s in
          request_finally g (if superseded_request g s then s else k s)
        else s).
Proof.
  intros Hg Hk. case_bool_decide as Hi; [|done]. cbn zeta.
  destruct (decide (g = ch_generation s)) as [->|Hn].
  - pose proof (taken_settling s Hg Hi) as Hs.
    destruct (Hk _ Hs eq_refl) as [Hq Hgen].
    destruct (superseded_request _ _); apply finally_good; rewrite ?Hgen; try done.
    intros _. apply Hs.
  - unfold superseded_request. rewrite (proj2 (Z.eqb_neq (ch_generation _) g)) by (simpl; congruence).
    rewrite orb_true_r. apply finally_good; [simpl; congruence|]. intros _. by apply taken_stale.
Qed.

Lemma error_generation now g error code s :
  ch_generation (handleStreamError t display now g error code s).1 = ch_generation s.
Proof.
  unfold handleStreamError, flushStreamUpdates, onMessageUpdate. by repeat case_match; simplify_eq/=.
Qed.

Lemma error_answers now error code s g : settling s -> ch_generation s = g ->
  quiet (handleStreamError t display now g error code s).1
  /\ ch_generation (handleStreamError t display now g error code s).1 = g.
Proof. intros Hs <-. split; [by apply error_ended|by apply error_generation]. Qed.

Lemma on_response_good now g response s : good s -> good (on_response t display now g response s).
Proof.
  intros Hg. unfold on_response.
  apply (answered_good g s (fun s => if negb (hasChatCompletionChoice response)
    then (handleStreamError t display now g (J_str API_REQUEST_ERROR) J_undefined s).1
    else onMessageUpdate t now (U_response g response) s)); [done|].
  intros s' Hs Hgen. destruct (negb _); [by apply error_answers|]. split.
  - apply settling_emit; [|done]. by rewrite Hgen.
  - by rewrite generation_core, core_emit.
Qed.

Lemma on_request_error_good now g error s : good s -> good (on_request_error t display now g error s).
Proof.
  intros Hg. unfold on_request_error. destruct (parseRequestErrorDetails error) as [code message].
  apply (answered_good g s (fun s => (handleStreamError t display now g message code s).1)); [done|].
  intros s' Hs Hgen. by apply error_answers.
Qed.

Lemma flush_any_timer now f s :
  flushStreamUpdates t now (ch_generation s) (with_timer f s)
  = flushStreamUpdates t now (ch_generation s) s.
Proof. unfold flushStreamUpdates. simpl. by rewrite Z.eqb_refl. Qed.

Create HintDb chat.
#[local] Hint Resolve good_emit sendChat_good stopGeneration_good headers_ready_good headers_failed_good
  on_stream_message_good on_stream_error_good on_ready_state_good on_response_good
  on_request_error_good : chat.

Lemma chat_step_good l s : good s -> good (chat_step s l).
Proof.
  intros Hg. destruct l; simpl; eauto with chat.
  - unfold handleRegenerateMessage. destruct (createRegeneratedMessages _ _ _ _); [|done].
    by apply sendChat_good, good_emit.
  - unfold applyEdit. destruct (applyMessageEdit _ _ _ _ _ _) as [[next []]|]; [| |done];
      [apply sendChat_good|]; by apply good_emit.
  - unfold flush_timeout. destruct (ch_timer s) as [[g []]|] eqn:Et; try done.
    pose proof (timer_current _ (good_buffer _ Hg) _ Et) as [= ->].
    rewrite flush_any_timer. eapply good_rebuffered; [|done]. by apply rebuffered_flush, good_buffer.
  - by apply (good_view s).
  - apply (good_view s); [| |done]; unfold run_next, core_of, history;
      destruct (ch_queue s) eqn:E; simpl; rewrite ?E; try done. by rewrite <- app_assoc.
Qed.

Lemma initial_good messages : good (initial_chat messages).
Proof.
  split; [split|apply empty_buffer_ok| | |]; simpl; try done.
  - intros id [? H]. by rewrite lookup_empty in H.
  - intros id [? H]. by rewrite lookup_empty in H.
  - intros g. split; [apply Nat.le_0_1|done].
Qed.

Lemma chat_run_good tr s : good s -> good (chat_run s tr).
Proof. revert s. induction tr as [|l tr IH]; intros s Hg; [done|]. by apply IH, chat_step_good. Qed.

(** C20: In every state that a mounted playground can reach, whatever the server
    answers and whatever the order of its events: every stream that was opened is
    closed, except the one in use, which serves the current request; the page says
    that it is streaming exactly while there is one; while a request is shown as
    running, its headers, its stream or its response are still to come; and text
    that is buffered has a live timer that will show it for the current request. *)
Theorem chat_connections_invariant messages tr :
  let s := chat_run (initial_chat messages) tr in
  let c := ch_controller s in
  (forall id, is_Some (ct_sources c !! id) -> id ∈ ct_closed c \/ ct_source c = Some id)
  /\ (forall id, ct_source c = Some id ->
        ct_generation c = id /\ ss_owner <$> ct_sources c !! id = Some (ch_generation s))
  /\ ct_streaming c = bool_decide (is_Some (ct_source c))
  /\ (ch_requesting s = true -> outstanding (core_of s))
  /\ (pd_content (ch_pending s) <> [] \/ pd_reasoning (ch_pending s) <> [] ->
      pd_generation (ch_pending s) = ch_generation s
      /\ ch_timer s = Some (FlushTimer (ch_generation s) true)).
Proof.
  intros s c. destruct (chat_run_good tr _ (initial_good messages)) as [[] [] Hr _ _].
  fold s in source_current0, others_closed0, streaming_iff0, pending_current0, timer_current0,
    buffered_scheduled0, Hr. simpl in *. fold c in source_current0, others_closed0, streaming_iff0.
  repeat split; auto.
  - by apply source_current0.
  - destruct (source_current0 id H) as (_ & source & -> & Ho). simpl. by rewrite Ho.
  - destruct (buffered_scheduled0 H) as [f Hf]. rewrite Hf. f_equal. by apply timer_current0.
Qed.

(** ** Overtaken requests *)

(** The request an event belongs to. *)
Definition request_of (s : chat) (l : label) : option Z :=
  match l with
  | K_headers _ id _ | K_no_headers _ id _ => ct_waiting (ch_controller s) !! id
  | K_message _ id _ | K_error _ id _ _ | K_ready_state _ id _ _ =>
      ss_owner <$> ct_sources (ch_controller s) !! id
  | K_response _ g _ | K_request_error _ g _ => Some g
  | _ => None
  end.

(** Everything but the bookkeeping of requests that are in flight. *)
Definition page (s : chat) :=
  ((ch_messages s, ch_queue s, ch_ran s, ch_pending s, ch_timer s),
   (ch_requesting s, ch_generation s, ch_abort s, ch_errors s),
   (ct_source (ch_controller s), ct_streaming (ch_controller s), ct_sources (ch_controller s),
    ct_closed (ch_controller s))).

Lemma overtaken_listening s id g : good s ->
  ss_owner <$> ct_sources (ch_controller s) !! id = Some g -> g <> ch_generation s ->
  listening id (ch_controller s) = None.
Proof.
  intros Hg Hs Hn. destruct (listening id _) as [source|] eqn:El; [|done].
  destruct (listening_owner _ _ _ Hg El) as [Ho _]. apply listening_spec in El as [El _].
  rewrite El in Hs. simpl in Hs. congruence.
Qed.

Lemma overtaken_waiting s id g : good s ->
  ct_waiting (ch_controller s) !! id = Some g -> g <> ch_generation s ->
  ct_generation (ch_controller s) <> id.
Proof.
  intros Hg Hw Hn <-. by destruct (waiting_current _ (good_connections _ Hg) g Hw) as [? _].
Qed.

Lemma overtaken_response g s (k : chat -> chat) : g <> ch_generation s ->
  page (if bool_decide (g ∈ ch_inflight s) then
          let s := response_taken g s in
          request_finally g (if superseded_request g s then s else k s)
        else s) = page s.
Proof.
  intros Hn. case_bool_decide; [|done]. unfold superseded_request, request_finally. simpl.
  rewrite (proj2 (Z.eqb_neq (ch_generation s) g)) by congruence. rewrite orb_true_r. simpl.
  by rewrite (proj2 (Z.eqb_neq (ch_generation s) g)) by congruence.
Qed.

Lemma overtaken_event s l g : good s -> request_of s l = Some g -> g <> ch_generation s ->
  page (chat_step s l) = page s.
Proof.
  intros Hg Hr Hn. destruct l; simpl in *; try done.
  - unfold headers_ready. rewrite Hr, (proj2 (Z.eqb_neq _ _) (overtaken_waiting s id g Hg Hr Hn)). done.
  - unfold headers_failed. rewrite Hr, (proj2 (Z.eqb_neq _ _) (overtaken_waiting s id g Hg Hr Hn)). done.
  - unfold on_stream_message. by rewrite (overtaken_listening s id g).
  - unfold on_stream_error. by rewrite (overtaken_listening s id g).
  - unfold on_ready_state. by rewrite (overtaken_listening s id g).
  - injection Hr as ->. by apply (overtaken_response g s (fun s => if negb _ then _ else _)).
  - injection Hr as ->. unfold on_request_error. destruct (parseRequestErrorDetails _).
    by apply (overtaken_response g s (fun s => (handleStreamError _ _ _ _ _ _ s).1)).
Qed.

(** The request an updater was made for. *)
Definition updater_request (u : updater) : option Z :=
  match u with
  | U_flush g _ _ | U_complete g | U_error g _ _ | U_response g _ | U_stop g => Some g
  | _ => None
  end.

Lemma overtaken_updater now current u g prev :
  updater_request u = Some g -> g <> current -> run_updater t now current u prev = prev.
Proof.
  intros Hu Hn. destruct u; simpl in *; simplify_eq; unfold guarded;
    by rewrite (proj2 (Z.eqb_neq _ _) Hn).
Qed.

(** C19: In every run of a playground a request ends its message at most once, by
    a completion, an error or a response.  Once a later request, or the stop
    button, has overtaken it, none of its events (headers, stream events or a
    response) changes the conversation, the buffered text, the flags or the
    connections, and none of its updaters that React still holds changes the
    messages. *)
Theorem requests_settle_once messages tr g :
  let s := chat_run (initial_chat messages) tr in
  (settled g (history s) <= 1)%nat
  /\ (g <> ch_generation s ->
      (forall l, request_of s l = Some g -> page (chat_step s l) = page s)
      /\ (forall u now prev, updater_request u = Some g ->
            run_updater t now (ch_generation s) u prev = prev)).
Proof.
  intros s. pose proof (chat_run_good tr _ (initial_good messages)) as Hg. fold s in Hg.
  split; [apply Hg|]. intros Hn. split.
  - intros l Hl. by eapply overtaken_event.
  - intros u now prev Hu. by eapply overtaken_updater.
Qed.

(** ** Two ways to lose text *)

(** A stream whose connection closes regularly without [[DONE]] is neither
    completed nor reported. *)
Lemma closed_without_done now id data s :
  on_ready_state t display now id (Some 2) (Some 200) s = s
  /\ on_stream_error t display now id (Some 2) data s = s.
Proof. unfold on_ready_state, on_stream_error. by repeat case_match. Qed.

(** Stopping while React has other work pending: the buffered text is handed to
    an updater that no longer belongs to the current request when it runs. *)
Lemma stop_drops_buffer now s r c :
  ch_eager s = false -> ch_queue s = [] -> buffer_ok (core_of s) ->
  pd_reasoning (ch_pending s) = r -> pd_content (ch_pending s) = c -> r <> [] \/ c <> [] ->
  let s' := stopGeneration t now s in
  ch_queue s' = [U_flush (ch_generation s) r c; U_stop (ch_generation s + 1)]
  /\ ch_messages (run_next t now (run_next t now s'))
     = run_updater t now (ch_generation s + 1) (U_stop (ch_generation s + 1)) (ch_messages s).
Proof.
  intros He Hq Hb Hr Hc Hne. pose proof (pending_current _ Hb) as Hp. simpl in Hp.
  unfold stopGeneration, flushStreamUpdates. rewrite Z.eqb_refl. simpl. rewrite Hp, Z.eqb_refl.
  assert (negb (non_empty (pd_reasoning (ch_pending s)))
          && negb (non_empty (pd_content (ch_pending s))) = false) as ->.
  { rewrite Hr, Hc. destruct r, c; try done. by destruct Hne as [[]|[]]. }
  unfold onMessageUpdate. simpl. rewrite He, Hq. simpl. rewrite Hr, Hc. split; [done|].
  simpl. unfold guarded. by rewrite (proj2 (Z.eqb_neq (ch_generation s) _)) by lia.
Qed.

End Facts.
