(* ===== verification/ChatTextFacts.v ===== *)
(** * The text of streamed answers

    Chunks are buffered, flushed by a timer and appended to the message by
    updaters that React runs when it pleases.  For a stream of increments in which
    nothing is repeated at once, and for a stream in which every chunk extends the
    last one, the message ends up with exactly the text that was sent, however
    events, timers and updaters interleave; [echo_dropped] shows what happens to a
    token that is repeated. *)
From stdpp Require Import strings.
From S2P Require Import Prelude JsString JsNumber JsValue JsJson AuthSession JsonText ChatMessage ChatStream ChatFacts.

#[local] Open Scope Z_scope.

(** ** What a chunk adds *)

(** The text after a chunk: the buffer and the message treat a chunk alike. *)
Definition absorb (current chunk : jstr) : jstr :=
  if non_empty current && starts_with current chunk then chunk else (current ++ chunk)%list.

Lemma absorb_nil chunk : absorb [] chunk = chunk.
Proof. done. Qed.

Lemma absorb_empty current : absorb current [] = current.
Proof. unfold absorb. destruct current; simpl; [done|]. by rewrite app_nil_r. Qed.

Lemma absorb_append current chunk :
  (current ++ getAppendableChunk current chunk)%list = absorb current chunk.
Proof.
  unfold getAppendableChunk, absorb. destruct (non_empty current); simpl; [|done].
  destruct (starts_with current chunk) eqn:E; simpl; [|done].
  apply starts_with_spec in E as [rest ->]. by rewrite drop_app_length.
Qed.

Lemma merge_absorb current chunk :
  mergePendingStreamChunk current (J_str chunk) = Ok (absorb current chunk).
Proof. unfold mergePendingStreamChunk, absorb. destruct current; [done|]. simpl. by case_match. Qed.

(** ** Streams whose chunks add up *)

(** No run of chunks is followed at once by text that starts with it. *)
Definition no_repeat (chunks : list jstr) : Prop :=
  forall a u v r, chunks = a ++ u ++ v ++ r -> concat u <> [] -> v <> [] ->
    starts_with (concat u) (concat v) = false.

(** Every chunk starts with the ones before it. *)
Definition extending (chunks : list jstr) : Prop :=
  forall a x b y r, chunks = a ++ [x] ++ b ++ [y] ++ r -> starts_with x y = true.

Inductive stream_kind := Increments | Snapshots.

Definition stream_text (k : stream_kind) (chunks : list jstr) : jstr :=
  match k with
  | Increments => concat chunks
  | Snapshots => default [] (list.last chunks)
  end.

Definition stream_ok (k : stream_kind) (chunks : list jstr) : Prop :=
  match k with Increments => no_repeat chunks | Snapshots => extending chunks end.

(** Consecutive parts of a stream can be absorbed one after the other. *)
Lemma stream_absorb k chunks a u v r : stream_ok k chunks -> chunks = a ++ u ++ v ++ r ->
  absorb (stream_text k u) (stream_text k v) = stream_text k (u ++ v).
Proof.
  intros Hok Hc. destruct (decide (v = [])) as [->|Hv].
  { rewrite app_nil_r. destruct k; apply absorb_empty. }
  destruct k; simpl in *.
  - unfold absorb. rewrite concat_app. destruct (decide (concat u = [])) as [->|Eu]; [done|].
    by rewrite (Hok a u v r Hc Eu Hv), andb_false_r.
  - destruct (list.last v) as [y|] eqn:Ev; [|by apply last_None in Ev].
    rewrite last_app, Ev. simpl. unfold absorb.
    destruct (list.last u) as [x|] eqn:Eu; simpl; [|done].
    apply last_Some in Eu as [u' ->]. apply last_Some in Ev as [v' ->].
    rewrite (Hok (a ++ u') x v' y r), andb_true_r; [by destruct x|].
    by rewrite Hc, <- !app_assoc.
Qed.

(** The text of an earlier part has no tag when the whole text has none. *)
Lemma includes_prefix sub a b : includes sub (a ++ b) = false -> includes sub a = false.
Proof.
  destruct (includes sub a) eqn:E; [|done]. apply includes_spec in E as (x & y & ->).
  intros H. rewrite <- not_true_iff_false in H. destruct H. apply includes_spec.
  exists x, (y ++ b)%list. by rewrite <- !app_assoc.
Qed.

Lemma stream_prefix k chunks u v sub : stream_ok k chunks -> chunks = u ++ v -> sub <> [] ->
  includes sub (stream_text k chunks) = false -> includes sub (stream_text k u) = false.
Proof.
  intros Hok -> Hsub. destruct k; simpl in *.
  - rewrite concat_app. apply includes_prefix.
  - destruct (list.last u) as [x|] eqn:Eu; simpl; [|by destruct sub].
    destruct (list.last v) as [y|] eqn:Ev.
    + rewrite last_app, Ev. simpl. apply last_Some in Eu as [u' ->]. apply last_Some in Ev as [v' ->].
      assert (starts_with x y = true) as [t ->]%starts_with_spec.
      { apply (Hok u' x v' y []). by rewrite <- !app_assoc. }
      apply includes_prefix.
    + apply last_None in Ev as ->. by rewrite app_nil_r, Eu.
Qed.

(** ** One flush of the buffer *)
Definition written (type : chunk_type) (m : message) : jstr :=
  match type with
  | C_content => getMessageContent m
  | C_reasoning => default [] (rs_content <$> m_reasoning m)
  end.

(** An assistant message that is still being written. *)
Definition unfinished (m : message) : Prop := isPendingAssistantMessage m = true.

Lemma complete_timing_keeps now m :
  let m' := completeReasoningTiming now m in
  m_from m' = m_from m /\ m_versions m' = m_versions m /\ m_status m' = m_status m
  /\ rs_content <$> m_reasoning m' = rs_content <$> m_reasoning m.
Proof. unfold completeReasoningTiming. by destruct (m_reasoning m) as [[? ? ? ? []]|] eqn:E; rewrite ?E. Qed.

Lemma unfinished_status m : unfinished m <->
  m_from m = R_assistant /\ (m_status m = Some M_loading \/ m_status m = Some M_streaming).
Proof.
  unfold unfinished, isPendingAssistantMessage, isAssistantMessagePending.
  rewrite andb_true_iff, bool_decide_eq_true. split; intros [-> H]; split; try done;
    destruct (m_status m) as [[]|]; naive_solver.
Qed.

Lemma apply_reasoning_chunk now m chunk : unfinished m ->
  let m' := applyStreamingChunk now m C_reasoning chunk in
  unfinished m' /\ written C_content m' = written C_content m
  /\ written C_reasoning m' = absorb (written C_reasoning m) chunk.
Proof.
  intros Hm%unfinished_status. unfold applyStreamingChunk.
  rewrite bool_decide_eq_false_2 by (destruct Hm as [_ [-> | ->]]; done). simpl.
  split; [apply unfinished_status; simpl; naive_solver|]. split; [done|].
  rewrite absorb_append. unfold startReasoningTiming. by destruct (m_reasoning m).
Qed.

Lemma parse_no_think content : includes THINK_OPEN content = false ->
  parseThinkTags content = ParsedThink content [] false.
Proof. intros H. unfold parseThinkTags. by rewrite H. Qed.

Lemma apply_content_chunk now m chunk : unfinished m ->
  includes THINK_OPEN (absorb (written C_content m) chunk) = false ->
  let m' := applyStreamingChunk now m C_content chunk in
  unfinished m' /\ written C_content m' = absorb (written C_content m) chunk
  /\ written C_reasoning m' = written C_reasoning m.
Proof.
  intros Hm%unfinished_status Hi. unfold applyStreamingChunk.
  rewrite bool_decide_eq_false_2 by (destruct Hm as [_ [-> | ->]]; done).
  unfold processStreamingContent. simpl in Hi. rewrite absorb_append, parse_no_think by done.
  rewrite Hi, andb_true_r. simpl.
  set (full := absorb _ chunk) in *.
  assert (forall n, m_from n = m_from m -> m_versions n = [MessageVersion (mv_id (getCurrentVersion m)) full] ->
    rs_content <$> m_reasoning n = rs_content <$> m_reasoning m ->
    unfinished (with_status M_streaming n) /\ getMessageContent (with_status M_streaming n) = full
    /\ default [] (rs_content <$> m_reasoning n) = default [] (rs_content <$> m_reasoning m)) as Hn.
  { intros n Hf Hv Hr. split; [apply unfinished_status; simpl; rewrite Hf; naive_solver|].
    unfold getMessageContent, getCurrentVersion. simpl. by rewrite Hv, Hr. }
  case_bool_decide; simpl;
    (edestruct (complete_timing_keeps now) as (Ha & Hb & _ & Hc); apply Hn; [by rewrite Ha|by rewrite Hb|by rewrite Hc]).
Qed.

Lemma flush_written now m r c : unfinished m ->
  includes THINK_OPEN (absorb (written C_content m) c) = false ->
  let m' := apply_flush now r c m in
  unfinished m' /\ written C_content m' = absorb (written C_content m) c
  /\ written C_reasoning m' = absorb (written C_reasoning m) r.
Proof.
  intros Hm Hi. unfold apply_flush.
  assert (exists m1, (if non_empty r then applyStreamingChunk now m C_reasoning r else m) = m1
    /\ unfinished m1 /\ written C_content m1 = written C_content m
    /\ written C_reasoning m1 = absorb (written C_reasoning m) r) as (m1 & -> & Hm1 & Hc1 & Hr1).
  { eexists. split; [done|]. destruct r as [|x r]; cbn [non_empty].
    - by rewrite absorb_empty.
    - by apply apply_reasoning_chunk. }
  destruct c as [|x c]; cbn [non_empty].
  - by rewrite absorb_empty.
  - destruct (apply_content_chunk now m1 (x :: c)) as (H1 & H2 & H3); [done|by rewrite Hc1|].
    cbn zeta. rewrite H2, H3, Hc1, Hr1. done.
Qed.

Lemma complete_written now m : unfinished m -> includes THINK_OPEN (written C_content m) = false ->
  let m' := completeAssistantMessage now m in
  m_status m' = Some M_complete /\ getMessageContent m' = written C_content m
  /\ rs_content <$> m_reasoning m'
     = (if non_empty (written C_reasoning m) then Some (written C_reasoning m) else None).
Proof.
  intros Hm%unfinished_status Hi. simpl in Hi. unfold completeAssistantMessage, finalizeMessage.
  rewrite Hi. cbn [fmap option_fmap option_map default or_text non_empty].
  set (w := written C_reasoning m).
  assert (or_text w [] = w) as Hw by (unfold or_text; by destruct w).
  unfold w in Hw. simpl in Hw. simpl. rewrite Hw. fold w. unfold completeAssistantTiming.
  set (n := with_reasoning_streaming _ _).
  destruct (complete_timing_keeps now n) as (Ha & Hb & _ & Hc). simpl.
  rewrite bool_decide_eq_true_2 by (rewrite Ha; apply Hm). simpl. split; [done|]. split.
  - unfold getMessageContent, getCurrentVersion. simpl. by rewrite Hb.
  - rewrite Hc. unfold n. simpl. change (default [] (rs_content <$> m_reasoning m)) with w.
    by destruct (non_empty w).
Qed.

Lemma update_last ms m f : m_from m = R_assistant ->
  updateLastAssistantMessage (ms ++ [m]) f = ms ++ [f m].
Proof.
  intros Hm. induction ms as [|x ms IH]; simpl; [by rewrite bool_decide_eq_true_2|].
  rewrite IH. by destruct (ms ++ [m]) eqn:E; [destruct ms|].
Qed.

(** ** A stream and its interleavings *)

(** The chunks of one type. *)
Definition of_type (type : chunk_type) (l : list (chunk_type * jstr)) : list jstr :=
  omap (fun p => if bool_decide (p.1 = type) then Some p.2 else None) l.

(** What happens while the stream [id] is read: its data arrive, in any order with
    the flush timer and with React. *)
Inductive stream_event (id : Z) : label -> list (chunk_type * jstr) -> Prop :=
| E_data now data chunks :
    isStreamDoneMessage data = false ->
    parseStreamMessageUpdates data = Ok (map (fun p => (p.1, J_str p.2)) chunks) ->
    stream_event id (K_message now id (Some data)) chunks
| E_timeout now : stream_event id (K_timeout now) []
| E_eager b : stream_event id (K_eager b) []
| E_run now : stream_event id (K_run now) [].

Inductive stream_events (id : Z) : list label -> list (chunk_type * jstr) -> Prop :=
| EE_nil : stream_events id [] []
| EE_cons l tr chunks chunks' :
    stream_event id l chunks -> stream_events id tr chunks' ->
    stream_events id (l :: tr) (chunks ++ chunks').

Section Streaming.
Context (t display : jstr -> jstr) (id g : Z) (before : list message).
Context (kind : chunk_type -> stream_kind) (all : list (chunk_type * jstr)).

Definition part (type : chunk_type) (l : list (chunk_type * jstr)) : jstr :=
  stream_text (kind type) (of_type type l).

Hypothesis all_ok : forall type, stream_ok (kind type) (of_type type all).
Hypothesis no_think : includes THINK_OPEN (part C_content all) = false.

Lemma part_absorb type a u v r : all = a ++ u ++ v ++ r ->
  absorb (part type u) (part type v) = part type (u ++ v).
Proof.
  intros Ha. unfold part, of_type. rewrite omap_app. eapply (stream_absorb _ (of_type type all)); [done|].
  rewrite Ha. unfold of_type. by rewrite !omap_app.
Qed.

Lemma part_plain u v : all = u ++ v -> includes THINK_OPEN (part C_content u) = false.
Proof.
  intros Ha. eapply (stream_prefix _ (of_type C_content all)); [done| |done|done].
  rewrite Ha. unfold of_type. by rewrite !omap_app.
Qed.

Lemma part_nil type : part type [] = [].
Proof. unfold part. by destruct (kind type). Qed.

Lemma part_single type chunk : part type [(type, chunk)] = chunk.
Proof.
  unfold part, of_type. simpl. rewrite bool_decide_eq_true_2 by done.
  destruct (kind type); simpl; by rewrite ?app_nil_r.
Qed.

Lemma part_other type type' chunk l : type <> type' -> part type (l ++ [(type', chunk)]) = part type l.
Proof.
  intros Hn. unfold part, of_type. rewrite omap_app. simpl.
  by rewrite bool_decide_eq_false_2, app_nil_r by congruence.
Qed.

Definition buffer_of (p : list (chunk_type * jstr)) : pending_chunks :=
  PendingChunks g (part C_content p) (part C_reasoning p).
Definition flush_of (p : list (chunk_type * jstr)) : updater :=
  U_flush g (part C_reasoning p) (part C_content p).

(** The chunks [sent] so far are in the message, in updaters that wait, or in
    the buffer, in this order. *)
Record writing (sent : list (chunk_type * jstr)) (s : chat) : Prop := {
  w_generation : ch_generation s = g;
  w_text : exists m a bs p,
    sent = a ++ concat bs ++ p /\ ch_messages s = before ++ [m] /\ unfinished m
    /\ (forall type, written type m = part type a)
    /\ ch_queue s = map flush_of bs /\ ch_pending s = buffer_of p
}.

(** A flush on the message. *)
Lemma run_flush now m a b r : all = a ++ b ++ r -> unfinished m ->
  (forall type, written type m = part type a) ->
  exists m', run_updater t now g (flush_of b) (before ++ [m]) = before ++ [m'] /\ unfinished m'
             /\ forall type, written type m' = part type (a ++ b).
Proof.
  intros Ha Hm Hw. simpl. unfold guarded. rewrite Z.eqb_refl.
  rewrite update_last by (by apply unfinished_status in Hm as [? _]).
  eexists. split; [done|].
  destruct (flush_written now m (part C_reasoning b) (part C_content b) Hm) as (H1 & H2 & H3).
  - rewrite Hw, (part_absorb _ [] a b r) by done. apply (part_plain _ r). by rewrite <- app_assoc.
  - split; [done|]. intros []; rewrite ?H2, ?H3, Hw; by apply (part_absorb _ [] a b r).
Qed.

Lemma writing_run now sent r s : all = sent ++ r -> writing sent s -> writing sent (run_next t now s).
Proof.
  intros Ha [Hg (m & a & bs & p & Hs & Hm & Hu & Hw & Hq & Hp)]. unfold run_next. rewrite Hq.
  destruct bs as [|b bs]; [by split; [|exists m, a, [], p]|]. rewrite Hg, Hm.
  destruct (run_flush now m a b (concat bs ++ p ++ r)) as (m' & Hm' & Hu' & Hw'); [|done..|].
  { rewrite Ha, Hs. simpl. by rewrite <- !app_assoc. }
  cbn [map]. rewrite Hm'. split; [done|]. exists m', (a ++ b), bs, p. simpl in *.
  by rewrite Hs, <- !app_assoc.
Qed.

Lemma destruct_last {A} (l : list A) : l = [] \/ exists l' x, l = l' ++ [x].
Proof. induction l as [|x l _] using rev_ind; [by left|]. right. by exists l, x. Qed.

(** The same with an empty buffer. *)
Record flushed (sent : list (chunk_type * jstr)) (s : chat) : Prop := {
  fl_generation : ch_generation s = g;
  fl_text : exists m a bs,
    sent = a ++ concat bs /\ ch_messages s = before ++ [m] /\ unfinished m
    /\ (forall type, written type m = part type a)
    /\ ch_queue s = map flush_of bs /\ ch_pending s = buffer_of []
}.

Lemma flushed_writing sent s : flushed sent s -> writing sent s.
Proof.
  intros [Hg (m & a & bs & -> & Hrest)]. split; [done|]. exists m, a, bs, []. by rewrite app_nil_r.
Qed.

(** The buffer becomes an updater, which runs at once or waits. *)
Lemma flushed_emit now sent r s m a bs p : all = sent ++ r ->
  sent = a ++ concat bs ++ p -> ch_generation s = g -> ch_messages s = before ++ [m] ->
  unfinished m -> (forall type, written type m = part type a) -> ch_queue s = map flush_of bs ->
  ch_pending s = buffer_of [] ->
  flushed sent (onMessageUpdate t now (flush_of p) s).
Proof.
  intros Ha Hs Hg Hm Hu Hw Hq Hp.
  assert (flushed sent (with_updates (ch_messages s) (ch_queue s ++ [flush_of p]) (ch_ran s) (ch_eager s) s))
    as Hqueued.
  { split; [done|]. exists m, a, (bs ++ [p]). simpl. rewrite Hq, map_app, concat_app. simpl.
    by rewrite !app_nil_r. }
  unfold onMessageUpdate. destruct (ch_eager s), bs as [|b bs]; rewrite Hq in *; try done.
  cbn [map]. rewrite Hg, Hm. destruct (run_flush now m a p r) as (m' & -> & Hu' & Hw'); [|done..|].
  { by rewrite Ha, Hs, <- app_assoc. }
  split; [done|]. exists m', (a ++ p), []. simpl. by rewrite app_nil_r.
Qed.

(** Chunks without text belong to whatever precedes them. *)
Lemma part_textless type u p x r : all = x ++ u ++ p ++ r -> part type p = [] ->
  part type (u ++ p) = part type u.
Proof. intros Ha Hp. by rewrite <- (part_absorb _ x u p r), Hp, absorb_empty by done. Qed.

Lemma textless_flushed sent r s m a bs p : all = sent ++ r -> (forall type, part type p = []) ->
  sent = a ++ concat bs ++ p -> ch_generation s = g -> ch_messages s = before ++ [m] ->
  unfinished m -> (forall type, written type m = part type a) -> ch_queue s = map flush_of bs ->
  ch_pending s = buffer_of p -> flushed sent s.
Proof.
  intros Ha He Hs Hg Hm Hu Hw Hq Hp.
  assert (ch_pending s = buffer_of []) as Hp'.
  { rewrite Hp. unfold buffer_of. by rewrite !He, !part_nil. }
  split; [done|]. destruct (destruct_last bs) as [->|(bs' & b & ->)].
  - exists m, (a ++ p), []. simpl in *. rewrite app_nil_r. repeat split; try done.
    intros type. by rewrite Hw, (part_textless type a p [] r) by (by rewrite ?Ha, ?Hs, <- ?app_assoc).
  - exists m, a, (bs' ++ [b ++ p]). rewrite Hs, !concat_app. simpl. rewrite !app_nil_r, <- app_assoc.
    repeat split; try done. rewrite Hq, !map_app. simpl. unfold flush_of.
    by rewrite !(part_textless _ b p (a ++ concat bs') r)
      by (by rewrite ?Ha, ?Hs, ?concat_app; simpl; rewrite ?app_nil_r, <- ?app_assoc).
Qed.

Lemma writing_flush now sent r s : all = sent ++ r -> writing sent s ->
  flushed sent (flushStreamUpdates t now g s).
Proof.
  intros Ha [Hg (m & a & bs & p & Hs & Hm & Hu & Hw & Hq & Hp)].
  unfold flushStreamUpdates. rewrite Hg, Z.eqb_refl. simpl. rewrite Hp. simpl. rewrite Z.eqb_refl. simpl.
  destruct (negb (non_empty (part C_reasoning p)) && _) eqn:E.
  - apply (textless_flushed sent r _ m a bs p); try done.
    intros []; [destruct (part C_reasoning p)|destruct (part C_content p)]; try done;
      by destruct (part C_reasoning p).
  - apply (flushed_emit now sent r _ m a bs p); try done. simpl. unfold buffer_of. by rewrite !part_nil.
Qed.

(** Chunks go to the end of the buffer. *)
Lemma updates_written chunks sent r s :
  all = sent ++ chunks ++ r -> writing sent s ->
  exists s', apply_updates g (map (fun p => (p.1, J_str p.2)) chunks) s = (s', false)
             /\ ch_controller s' = ch_controller s /\ writing (sent ++ chunks) s'.
Proof.
  revert sent s. induction chunks as [|[type chunk] chunks IH]; intros sent s Ha Hw.
  { exists s. by rewrite app_nil_r. }
  destruct Hw as [Hg (m & a & bs & p & Hs & Hm & Hu & Hwr & Hq & Hp)].
  assert (forall ty, part ty (p ++ [(type, chunk)])
                     = if bool_decide (ty = type) then absorb (part ty p) chunk else part ty p) as Hpart.
  { intros ty. case_bool_decide as Hty; [subst ty|by apply part_other].
    rewrite <- (part_single type chunk) at 2. symmetry.
    apply (part_absorb _ (a ++ concat bs) p [(type, chunk)] (chunks ++ r)).
    by rewrite Ha, Hs, <- !app_assoc. }
  assert (handleStreamUpdate g type (J_str chunk) s
          = (scheduleStreamFlush g (with_pending (buffer_of (p ++ [(type, chunk)])) s), false)) as Hstep.
  { unfold handleStreamUpdate. rewrite Hg, Z.eqb_refl, Hp. simpl. rewrite Z.eqb_refl. simpl.
    rewrite merge_absorb. unfold buffer_of. rewrite !Hpart. by destruct type. }
  simpl. rewrite Hstep. set (s1 := scheduleStreamFlush _ _).
  assert (ch_controller s1 = ch_controller s /\ writing (sent ++ [(type, chunk)]) s1) as [Hc Hw1].
  { unfold s1, scheduleStreamFlush. simpl.
    rewrite Hg, Z.eqb_refl. simpl. split; [by destruct (ch_timer s)|].
    split; [by destruct (ch_timer s)|]. exists m, a, bs, (p ++ [(type, chunk)]).
    rewrite Hs, <- !app_assoc. by destruct (ch_timer s). }
  destruct (IH (sent ++ [(type, chunk)]) s1) as (s' & -> & Hc' & Hw'); [|done|].
  { by rewrite Ha, <- app_assoc. }
  exists s'. rewrite Hc', Hc. rewrite <- app_assoc in Hw'. done.
Qed.

(** The stream is still read. *)
Definition reading (s : chat) : Prop :=
  good s /\ exists source, listening id (ch_controller s) = Some source.

Lemma reading_owner s source : reading s -> listening id (ch_controller s) = Some source ->
  ss_owner source = ch_generation s.
Proof. intros [Hg _] Hl. by apply (listening_owner s id source). Qed.

Lemma flush_controller now h s : ch_controller (flushStreamUpdates t now h s) = ch_controller s.
Proof. unfold flushStreamUpdates, onMessageUpdate. by repeat case_match. Qed.

Lemma writing_step sent chunks r s l : all = sent ++ chunks ++ r -> stream_event id l chunks ->
  reading s -> writing sent s ->
  reading (chat_step t display s l) /\ writing (sent ++ chunks) (chat_step t display s l).
Proof.
  intros Ha Hl Hr Hw.
  assert (good (chat_step t display s l)) as Hg' by (apply chat_step_good, Hr).
  destruct Hl as [now data chunks Hd Hp|now|b|now]; rewrite ?app_nil_r; simpl in *.
  - pose proof Hr as [Hg [source Hl]]. unfold on_stream_message in *. rewrite Hl in *. simpl in *.
    rewrite Hd, Hp, (reading_owner s source Hr Hl), (w_generation _ _ Hw) in *.
    destruct (updates_written chunks sent r s Ha Hw) as (s' & Hs' & Hc & Hw'). rewrite Hs' in *.
    split; [|done]. split; [done|]. exists source. by rewrite Hc.
  - destruct Hr as [Hg [source Hl]]. unfold flush_timeout in *.
    destruct (ch_timer s) as [[h []]|] eqn:Et;
      [|by split; [split; [|exists source]|]|by split; [split; [|exists source]|]].
    pose proof (timer_current _ (good_buffer _ Hg) _ Et) as [= ->].
    split; [split; [done|exists source; by rewrite flush_controller]|].
    rewrite flush_any_timer, (w_generation _ _ Hw). by apply flushed_writing, (writing_flush now sent r).
  - destruct Hr as [Hg Hl]. split; [done|]. destruct Hw as [Hg0 Hw]. by split.
  - destruct Hr as [Hg [source Hl]]. split; [|by apply (writing_run now sent r)].
    split; [done|]. exists source. rewrite <- Hl. unfold run_next. by destruct (ch_queue s).
Qed.

Lemma writing_steps tr sent chunks r s : all = sent ++ chunks ++ r -> stream_events id tr chunks ->
  reading s -> writing sent s ->
  reading (chat_run t display s tr) /\ writing (sent ++ chunks) (chat_run t display s tr).
Proof.
  intros Ha He. revert sent s Ha. induction He as [|l tr chunks chunks' Hl He IH]; intros sent s Ha Hr Hw.
  { by rewrite app_nil_r. }
  destruct (writing_step sent chunks (chunks' ++ r) s l) as [Hr1 Hw1]; [|done..|].
  { by rewrite Ha, <- !app_assoc. }
  rewrite app_assoc. apply IH; [|done..]. by rewrite Ha, <- !app_assoc.
Qed.

(** ** The end of the stream *)

(** The message has the whole text, and has ended. *)
Definition answered (m : message) : Prop :=
  m_status m = Some M_complete /\ getMessageContent m = part C_content all
  /\ rs_content <$> m_reasoning m
     = (if non_empty (part C_reasoning all) then Some (part C_reasoning all) else None).

(** All chunks are in the message or wait in front of the completion. *)
Record finishing (s : chat) : Prop := {
  f_generation : ch_generation s = g;
  f_idle : isGenerating s = false;
  f_text :
    (exists m a bs, all = a ++ concat bs /\ ch_messages s = before ++ [m] /\ unfinished m
      /\ (forall type, written type m = part type a)
      /\ ch_queue s = map flush_of bs ++ [U_complete g])
    \/ (ch_queue s = [] /\ exists m, ch_messages s = before ++ [m] /\ answered m)
}.

Lemma run_complete now m : unfinished m -> (forall type, written type m = part type all) ->
  exists m', run_updater t now g (U_complete g) (before ++ [m]) = before ++ [m'] /\ answered m'.
Proof.
  intros Hm Hw. simpl. unfold guarded. rewrite Z.eqb_refl.
  pose proof Hm as [Hf Hs]%unfinished_status. rewrite update_last by done.
  assert (isAssistantMessageFinal m = false) as ->.
  { unfold isAssistantMessageFinal. by destruct Hs as [-> | ->]. }
  eexists. split; [done|]. destruct (complete_written now m Hm) as (H1 & H2 & H3); [by rewrite Hw|].
  split; [done|]. by rewrite <- !Hw.
Qed.

Lemma finishing_run now s : finishing s -> finishing (run_next t now s).
Proof.
  intros [Hg Hi [(m & a & bs & Ha & Hm & Hu & Hw & Hq)|(Hq & Hm)]].
  - unfold run_next. rewrite Hq. destruct bs as [|b bs]; cbn [map app]; rewrite Hg, Hm.
    + simpl in Ha. rewrite app_nil_r in Ha. subst a.
      destruct (run_complete now m Hu Hw) as (m' & -> & Ha').
      split; [done|done|]. right. split; [done|]. by exists m'.
    + destruct (run_flush now m a b (concat bs)) as (m' & -> & Hu' & Hw'); [done..|].
      split; [done|done|]. left. exists m', (a ++ b), bs. simpl in *. by rewrite Ha, <- app_assoc.
  - unfold run_next. rewrite Hq. split; [done|done|]. by right.
Qed.

Lemma flushed_complete now s : flushed all s -> isGenerating (with_requesting false s) = false ->
  finishing (onMessageUpdate t now (U_complete g) (with_requesting false s)).
Proof.
  intros [Hg (m & a & bs & Ha & Hm & Hu & Hw & Hq & Hp)] Hi.
  assert (finishing (with_updates (ch_messages s) (ch_queue s ++ [U_complete g]) (ch_ran s) (ch_eager s)
                       (with_requesting false s))) as Hqueued.
  { split; [done|done|]. left. exists m, a, bs. simpl. by rewrite Hq. }
  unfold onMessageUpdate. cbn [ch_eager ch_queue ch_generation ch_messages ch_ran with_requesting].
  destruct (ch_eager s), bs as [|b bs]; rewrite Hq in *; try done.
  simpl in Ha. rewrite app_nil_r in Ha. subst a. cbn [map]. rewrite Hg, Hm.
  destruct (run_complete now m Hu Hw) as (m' & -> & Ha').
  split; [done|done|]. right. split; [done|]. by exists m'.
Qed.

Lemma finishing_done now s : reading s -> writing all s ->
  finishing (on_stream_message t display now id (Some (js "[DONE]")) s).
Proof.
  intros Hr Hw. pose proof Hr as [Hg [source Hl]]. unfold on_stream_message. rewrite Hl. simpl.
  rewrite (reading_owner s source Hr Hl), (w_generation _ _ Hw). unfold handleStreamComplete.
  set (s0 := closeActiveSource id _). simpl. rewrite (w_generation _ _ Hw), Z.eqb_refl. simpl.
  assert (flushed all (flushStreamUpdates t now g s0)) as Hw0.
  { apply (writing_flush now all []); [by rewrite app_nil_r|]. by destruct Hw. }
  assert (isGenerating (with_requesting false (flushStreamUpdates t now g s0)) = false) as Hi.
  { unfold isGenerating. simpl. rewrite flush_controller, orb_false_r. simpl.
    apply listening_spec in Hl as (_ & Hl & _). by rewrite bool_decide_eq_true_2. }
  by apply flushed_complete.
Qed.

End Streaming.

(** ** The answer *)
Lemma run_step_queue t display now s :
  ch_queue (chat_step t display s (K_run now)) = tail (ch_queue s).
Proof. simpl. unfold run_next. by destruct (ch_queue s) eqn:E; rewrite ?E. Qed.

Lemma finishing_runs t display g before kind all nows s :
  (forall type, stream_ok (kind type) (of_type type all)) ->
  includes THINK_OPEN (part kind C_content all) = false ->
  finishing g before kind all s -> (length (ch_queue s) <= length nows)%nat ->
  let s' := chat_run t display s (map K_run nows) in
  ch_queue s' = [] /\ finishing g before kind all s'.
Proof.
  intros Hok Hth. revert s. induction nows as [|now nows IH]; intros s Hf Hlen; simpl in *.
  - split; [|done]. by destruct (ch_queue s); [|simpl in Hlen; lia].
  - apply IH; [by apply finishing_run|]. pose proof (run_step_queue t display now s) as Hq. simpl in Hq.
    rewrite Hq. destruct (ch_queue s); simpl in *; lia.
Qed.

Lemma chat_run_app t display s tr tr' :
  chat_run t display s (tr ++ tr') = chat_run t display (chat_run t display s tr) tr'.
Proof. apply foldl_app. Qed.

(** C18: A streamed answer arrives complete.  From a reachable state in which the
    stream [id] is read into an empty message, let chunks of content and of
    reasoning arrive, interleaved in any way with the flush timer and with React,
    then [[DONE]], and let React run what waits.  When each of the two texts comes
    as increments in which nothing is repeated at once, or as snapshots that extend
    each other, and the content has no [<think>] tag, the message is complete with
    exactly the text of its chunks as content and as reasoning, no other message has
    changed, and the page no longer says that it is generating. *)
Theorem streamed_answer_exact t display messages tr0 id before m kind tr chunks now nows :
  let s := chat_run t display (initial_chat messages) tr0 in
  is_Some (listening id (ch_controller s)) ->
  ch_messages s = before ++ [m] -> unfinished m -> getMessageContent m = [] -> m_reasoning m = None ->
  ch_queue s = [] -> ch_pending s = PendingChunks (ch_generation s) [] [] ->
  stream_events id tr chunks ->
  (forall type, stream_ok (kind type) (of_type type chunks)) ->
  includes THINK_OPEN (stream_text (kind C_content) (of_type C_content chunks)) = false ->
  let s1 := chat_run t display s (tr ++ [K_message now id (Some (js "[DONE]"))]) in
  (length (ch_queue s1) <= length nows)%nat ->
  let s2 := chat_run t display s1 (map K_run nows) in
  isGenerating s2 = false
  /\ exists m', ch_messages s2 = before ++ [m'] /\ m_status m' = Some M_complete
      /\ getMessageContent m' = stream_text (kind C_content) (of_type C_content chunks)
      /\ default [] (rs_content <$> m_reasoning m')
         = stream_text (kind C_reasoning) (of_type C_reasoning chunks).
Proof.
  intros s [source Hl] Hm Hu Hc Hr Hq Hp Hev Hok Hth s1 Hlen.
  assert (reading id s) as Hread.
  { split; [apply chat_run_good, initial_good|by exists source]. }
  assert (writing (ch_generation s) before kind [] s) as Hw.
  { split; [done|]. exists m, [], [], []. rewrite Hp, Hq. unfold buffer_of. rewrite !part_nil.
    repeat split; try done. intros []; simpl; rewrite part_nil; [by rewrite Hr|done]. }
  destruct (writing_steps t display id (ch_generation s) before kind chunks Hok Hth tr [] chunks [] s)
    as [Hread' Hw']; [by rewrite app_nil_r|done..|].
  pose proof (finishing_done t display id _ before kind chunks Hok Hth now _ Hread' Hw') as Hf.
  cbn zeta. unfold s1. unfold s1 in Hlen. rewrite chat_run_app in Hlen |- *.
  destruct (finishing_runs t display _ _ _ _ nows _ Hok Hth Hf Hlen) as [Hq2 Hf2].
  destruct Hf2 as [_ Hi [(m' & a & bs & _ & _ & _ & _ & Hq')|(_ & m' & Hm' & Ha)]].
  { rewrite Hq' in Hq2. by destruct bs. }
  split; [exact Hi|]. exists m'. destruct Ha as (H1 & H2 & H3). repeat split; try done.
  rewrite H3. unfold part. by destruct (stream_text (kind C_reasoning) _).
Qed.

(** ** Repeated text *)

(** A chunk that repeats all the text before it adds nothing. *)
Lemma echo_dropped current : absorb current current = current.
Proof.
  unfold absorb. destruct current as [|c s]; [done|]. cbn [non_empty andb].
  assert (starts_with (c :: s) (c :: s) = true) as ->; [|done].
  apply starts_with_spec. exists []. by rewrite app_nil_r.
Qed.

(** [no_repeat] as a test. *)
Definition no_repeatb (chunks : list jstr) : bool :=
  forallb (fun i => let l := drop i chunks in
    forallb (fun n => forallb (fun k =>
      let u := concat (take n l) in
      negb (non_empty u) || negb (starts_with u (concat (take (S k) (drop n l)))))
      (seq 0 (length chunks))) (seq 0 (S (length chunks)))) (seq 0 (S (length chunks))).

Lemma no_repeatb_ok chunks : no_repeatb chunks = true -> no_repeat chunks.
Proof.
  intros H a u v r Hc Hu Hv. unfold no_repeatb in H. rewrite List.forallb_forall in H.
  assert (length chunks = length a + (length u + (length v + length r)))%nat as Hlen.
  { rewrite Hc. by rewrite !length_app. }
  assert (length v <> 0)%nat as Hv0 by (by destruct v).
  specialize (H (length a)). rewrite List.in_seq, Hc, drop_app_length, List.forallb_forall in H.
  specialize (H ltac:(rewrite <- Hc; lia) (length u)). rewrite List.in_seq, List.forallb_forall in H.
  specialize (H ltac:(rewrite <- Hc; lia) (length v - 1)%nat). rewrite List.in_seq in H.
  specialize (H ltac:(rewrite <- Hc; lia)). replace (S (length v - 1)) with (length v) in H by lia.
  rewrite take_app_length, drop_app_length, take_app_length in H.
  apply orb_true_iff in H as [H|H]; [|by apply negb_true_iff in H].
  by destruct (concat u).
Qed.

Module Samples.
Definition data (type : string) (chunk : string) : jstr :=
  json_text (J_obj [(js "choices",
    J_arr [J_obj [(js "delta", J_obj [(js type, J_str (js chunk))])]])]).
Definition text (chunk : string) : label := K_message n_zero 1 (Some (data "content" chunk)).
Definition thought (chunk : string) : label := K_message n_zero 1 (Some (data "reasoning_content" chunk)).
Definition same (x : jstr) : jstr := x.
Definition stream_done : label := K_message n_zero 1 (Some (js "[DONE]")).

(** A question is sent, React renders, and the stream opens. *)
Definition asked : list label :=
  [K_send n_zero (js "u", js "u1") (js "a", js "a1") true [] (js "Hello?"); K_run n_zero;
   K_headers n_zero 1 true].
Definition state : chat := chat_run same same (initial_chat []) asked.
Definition answer_of (s : chat) : list jstr := map getMessageContent (ch_messages s).

(** The same four tokens with one flush in between, and with none. *)
Lemma timing_changes_text :
  let runs := [K_run n_zero; K_run n_zero; K_run n_zero] in
  let a := text "a" in let b := text "b" in
  answer_of (chat_run same same state ([a; b; K_timeout n_zero; a; b; stream_done] ++ runs))
  = [js "Hello?"; js "ab"]
  /\ answer_of (chat_run same same state ([a; b; a; b; stream_done] ++ runs))
     = [js "Hello?"; js "abab"].
Proof. split; vm_compute; reflexivity. Qed.

Definition sample_run : list label :=
  [thought "Greet"; text "Hel"; K_timeout n_zero; text "lo "; K_eager true; K_run n_zero;
   K_timeout n_zero; thought " back."; text "there"].
Definition sample_chunks : list (chunk_type * jstr) :=
  [(C_reasoning, js "Greet"); (C_content, js "Hel"); (C_content, js "lo ");
   (C_reasoning, js " back."); (C_content, js "there")].

Lemma sample_events : stream_events 1 sample_run sample_chunks.
Proof.
  apply (EE_cons 1 _ _ [(C_reasoning, js "Greet")]); [by constructor|].
  apply (EE_cons 1 _ _ [(C_content, js "Hel")]); [by constructor|].
  apply (EE_cons 1 _ _ []); [by constructor|].
  apply (EE_cons 1 _ _ [(C_content, js "lo ")]); [by constructor|].
  apply (EE_cons 1 _ _ []); [by constructor|]. apply (EE_cons 1 _ _ []); [by constructor|].
  apply (EE_cons 1 _ _ []); [by constructor|].
  apply (EE_cons 1 _ _ [(C_reasoning, js " back.")]); [by constructor|].
  apply (EE_cons 1 _ _ [(C_content, js "there")] []); [by constructor|]. constructor.
Qed.

Lemma streamed_answer_exact_witness :
  let s1 := chat_run same same state (sample_run ++ [stream_done]) in
  let s2 := chat_run same same s1 (map K_run [n_zero; n_zero; n_zero]) in
  isGenerating s2 = false
  /\ exists m', ch_messages s2 = [createUserMessage (js "u") (js "u1") (js "Hello?") n_zero] ++ [m']
      /\ m_status m' = Some M_complete
      /\ getMessageContent m' = js "Hello there"
      /\ default [] (rs_content <$> m_reasoning m') = js "Greet back.".
Proof.
  refine (streamed_answer_exact same same [] asked 1
            [createUserMessage (js "u") (js "u1") (js "Hello?") n_zero]
            (createLoadingAssistantMessage (js "a") (js "a1") n_zero) (fun _ => Increments)
            sample_run sample_chunks n_zero [n_zero; n_zero; n_zero] _ _ _ _ _ _ _
            sample_events _ _ _).
  - vm_compute. by eexists.
  - by vm_compute.
  - by vm_compute.
  - by vm_compute.
  - by vm_compute.
  - by vm_compute.
  - by vm_compute.
  - intros []; apply no_repeatb_ok; by vm_compute.
  - by vm_compute.
  - vm_compute. lia.
Defined.
End Samples.
