(* ===== verification/ThinkTags.v ===== *)
(** * Reasoning sections of an answer

    [parseThinkTags] on an answer that consists of visible text and [<think>]
    sections, the last of which may still be open: it finds exactly these parts. *)
From stdpp Require Import strings.
From S2P Require Import Prelude JsString JsValue AuthSession ChatMessage.

#[local] Open Scope Z_scope.

(** A tag whose first character does not occur in it again. *)
Definition unbordered (tag : jstr) : Prop :=
  match tag with [] => False | c :: rest => c ∉ rest end.

Lemma think_open_unbordered : unbordered THINK_OPEN.
Proof. change (60 ∉ tail THINK_OPEN). rewrite list_elem_of_In. vm_compute. intuition discriminate. Qed.

Lemma think_close_unbordered : unbordered THINK_CLOSE.
Proof. change (60 ∉ tail THINK_CLOSE). rewrite list_elem_of_In. vm_compute. intuition discriminate. Qed.

Lemma includes_cons sub c s : includes sub (c :: s) = false ->
  starts_with sub (c :: s) = false /\ includes sub s = false.
Proof. simpl. apply orb_false_split. Qed.

(** The tag does not start inside text without the tag that precedes it. *)
Lemma starts_before tag x v rest : unbordered tag -> includes tag (x :: v) = false ->
  starts_with tag (x :: v ++ tag ++ rest) = false.
Proof.
  intros Hb Hi. destruct (starts_with _ _) eqn:E; [|done]. apply starts_with_spec in E as [t Ht].
  destruct tag as [|c tag]; [done|]. simpl in Hb. exfalso.
  destruct (decide (length (c :: tag) <= length (x :: v))%nat) as [Hle|Hgt].
  - apply not_true_iff_false in Hi. apply Hi, includes_spec.
    apply (f_equal (take (length (c :: tag)))) in Ht. rewrite take_app_length in Ht.
    change (x :: v ++ (c :: tag) ++ rest) with ((x :: v) ++ (c :: tag) ++ rest) in Ht.
    rewrite take_app_le in Ht by done.
    exists [], (drop (length (c :: tag)) (x :: v)).
    by rewrite <- (take_drop (length (c :: tag)) (x :: v)) at 1; rewrite Ht.
  - apply Hb. apply (f_equal (fun l => l !! length (x :: v))) in Ht.
    change (x :: v ++ (c :: tag) ++ rest) with ((x :: v) ++ (c :: tag) ++ rest) in Ht.
    rewrite lookup_app_r, Nat.sub_diag in Ht by lia. simpl in Ht.
    rewrite lookup_app_l in Ht by (simpl in *; lia). symmetry in Ht.
    by eapply list_elem_of_lookup_2.
Qed.

Lemma cut_at tag v rest : unbordered tag -> includes tag v = false ->
  cut tag (v ++ tag ++ rest) = Some (v, rest).
Proof.
  intros Hb. induction v as [|x v IH]; intros Hi.
  - destruct tag as [|c tag]; [done|]. pose proof (starts_with_app (c :: tag) rest) as Hs.
    cbn [app cut] in *. rewrite Hs. simpl. by rewrite drop_app_length.
  - pose proof (starts_before tag x v rest Hb Hi) as Hs. simpl. simpl in Hs. rewrite Hs.
    apply includes_cons in Hi as [_ Hi]. by rewrite IH.
Qed.

Lemma cut_none tag s : includes tag s = false -> cut tag s = None.
Proof.
  induction s as [|c s IH]; simpl; [by intros [-> _]%orb_false_split|].
  intros [Hs Hi]%orb_false_split. by rewrite Hs, IH.
Qed.

(** ** Sections *)
Definition section_text (p : jstr * jstr) : jstr := p.1 ++ THINK_OPEN ++ p.2 ++ THINK_CLOSE.

Definition open_text (thought : option jstr) : jstr :=
  match thought with Some r => THINK_OPEN ++ r | None => [] end.

(** Visible text and thoughts in turn, then visible text and perhaps a thought
    that is still open. *)
Definition answer_text (sections : list (jstr * jstr)) (rest : jstr) (thought : option jstr) : jstr :=
  concat (map section_text sections) ++ rest ++ open_text thought.

Lemma concat_push v vs : concat (push_part v vs) = (concat vs ++ v)%list.
Proof.
  unfold push_part. destruct v; simpl; [by rewrite app_nil_r|]. rewrite concat_app. simpl.
  by rewrite app_nil_r.
Qed.

Lemma think_loop_sections fuel sections rest thought vs rs :
  (length sections < fuel)%nat ->
  Forall (fun p => includes THINK_OPEN p.1 = false /\ includes THINK_CLOSE p.2 = false) sections ->
  includes THINK_OPEN rest = false -> from_option (includes THINK_CLOSE) false thought = false ->
  exists vs', think_loop fuel (answer_text sections rest thought) vs rs
              = (vs', rs ++ map snd sections ++ option_list thought, bool_decide (is_Some thought))
              /\ concat vs' = concat vs ++ concat (map fst sections) ++ rest.
Proof.
  revert fuel vs rs. induction sections as [|[v r] sections IH]; intros [|fuel] vs rs Hf Hs Hr Ht;
    simpl in Hf; try lia.
  - unfold answer_text. cbn [map concat app think_loop].
    destruct thought as [r|]; cbn [open_text from_option option_list] in *.
    + rewrite (cut_at THINK_OPEN rest r) by (done || apply think_open_unbordered).
      rewrite (cut_none THINK_CLOSE) by done. eexists. split; [done|]. apply concat_push.
    + rewrite app_nil_r, cut_none by done. eexists. rewrite app_nil_r. split; [done|]. apply concat_push.
  - apply list.Forall_cons in Hs as [[Hv Hc] Hs]. simpl in Hv, Hc.
    assert (answer_text ((v, r) :: sections) rest thought
            = v ++ THINK_OPEN ++ r ++ THINK_CLOSE ++ answer_text sections rest thought) as ->.
    { unfold answer_text. cbn [map concat]. unfold section_text at 1. cbn [fst snd].
      by rewrite <- !app_assoc. }
    cbn [think_loop]. rewrite (cut_at THINK_OPEN) by (done || apply think_open_unbordered).
    rewrite (cut_at THINK_CLOSE) by (done || apply think_close_unbordered).
    destruct (IH fuel (push_part v vs) (rs ++ [r])) as (vs' & -> & Hvs'); [lia|done..|].
    exists vs'. simpl. rewrite <- app_assoc, Hvs', concat_push, <- !app_assoc. done.
Qed.

(** An answer made of visible text and reasoning sections, of which the last
    may still be open, is split into exactly these: the visible parts joined, the
    thoughts joined by an empty line, each without white space at its ends, and the
    information whether a section is open. *)
Theorem think_sections_split sections rest thought :
  sections <> [] \/ is_Some thought ->
  Forall (fun p => includes THINK_OPEN p.1 = false /\ includes THINK_CLOSE p.2 = false) sections ->
  includes THINK_OPEN rest = false -> from_option (includes THINK_CLOSE) false thought = false ->
  parseThinkTags (answer_text sections rest thought)
  = ParsedThink (trim (concat (map fst sections) ++ rest))
      (trim (join [10; 10] (map snd sections ++ option_list thought)))
      (bool_decide (is_Some thought)).
Proof.
  intros Hne Hs Hr Ht. unfold parseThinkTags.
  assert (includes THINK_OPEN (answer_text sections rest thought) = true) as ->.
  { apply includes_spec. unfold answer_text. destruct sections as [|[v r] sections].
    - destruct thought as [r|]; [|by destruct Hne as [[]|[? [=]]]]. by exists rest, r.
    - exists v. eexists. cbn [map concat]. unfold section_text at 1. cbn [fst snd].
      by rewrite <- !app_assoc. }
  assert (length sections < S (length (answer_text sections rest thought)))%nat as Hf.
  { unfold answer_text. rewrite length_app. clear. induction sections as [|p sections IH]; simpl; [lia|].
    rewrite length_app. unfold section_text at 1. rewrite length_app. simpl. lia. }
  destruct (think_loop_sections _ sections rest thought [] [] Hf Hs Hr Ht) as (vs & -> & ->). done.
Qed.

Lemma think_sections_split_witness :
  parseThinkTags (js "Sure. <think>easy</think>Two.<think>check")
  = ParsedThink (js "Sure. Two.") (js "easy" ++ [10; 10] ++ js "check") true.
Proof.
  refine (think_sections_split [(js "Sure. ", js "easy")] (js "Two.") (Some (js "check")) _ _ _ _).
  - by left.
  - by repeat constructor.
  - done.
  - done.
Defined.
