(* ===== verification/JsMap.v ===== *)
(** * Maps, sorting with a comparison, and fixed decimals

    JavaScript's [Map] as the list of its entries in insertion order, the pattern
    by which totals are accumulated in it, [Array.prototype.sort] with a
    comparison function, and [Number.prototype.toFixed]. *)
From Stdlib Require Import SpecFloat Permutation.
From stdpp Require Import strings.
From S2P Require Import Prelude JsString JsNumber.

#[local] Open Scope Z_scope.

(** ** [Map] *)
Section Maps.
Context {K V : Type} `{EqDecision K}.
Implicit Types (m : list (K * V)) (k : K).

Definition map_get k m : option V := snd <$> List.find (fun p => bool_decide (fst p = k)) m.

(** [set]: the value of a key that is there is replaced where it stands. *)
Fixpoint map_put k (v : V) m : list (K * V) :=
  match m with
  | [] => [(k, v)]
  | (j, w) :: m => if bool_decide (j = k) then (j, v) :: m else (j, w) :: map_put k v m
  end.

(** [const x = m.get(k) ?? fresh; ...; m.set(k, x)] *)
Definition map_upd k (fresh : V) (f : V -> V) m : list (K * V) := map_put k (f (default fresh (map_get k m))) m.

Lemma map_get_cons k j v m : map_get k ((j, v) :: m) = if bool_decide (j = k) then Some v else map_get k m.
Proof. unfold map_get. cbn. by case_bool_decide. Qed.

Lemma map_get_put k j v m : map_get j (map_put k v m) = if bool_decide (k = j) then Some v else map_get j m.
Proof.
  induction m as [|[i w] m IH]; cbn [map_put]; [apply map_get_cons|]. destruct (decide (i = k)) as [->|Hne].
  - rewrite (bool_decide_eq_true_2 (k = k)) by done. rewrite !map_get_cons. by case_bool_decide.
  - rewrite (bool_decide_eq_false_2 (i = k)) by done. rewrite !map_get_cons, IH. repeat case_bool_decide; congruence.
Qed.

Lemma map_put_keys k v m j : j ∈ (map_put k v m).*1 <-> j = k \/ j ∈ m.*1.
Proof.
  induction m as [|[i w] m IH]; cbn [map_put].
  - cbn. rewrite list_elem_of_singleton. split; [by left|]. intros [->|H]; [done|by apply not_elem_of_nil in H].
  - case_bool_decide as Hi; cbn; rewrite !elem_of_cons.
    + subst. naive_solver.
    + rewrite IH. naive_solver.
Qed.

Lemma map_put_nodup k v m : NoDup m.*1 -> NoDup (map_put k v m).*1.
Proof.
  induction m as [|[i w] m IH]; cbn [map_put]; intros Hn; [apply NoDup_singleton|]. cbn in Hn.
  apply list.NoDup_cons in Hn as [Hi Hn]. case_bool_decide as Hk; cbn; apply list.NoDup_cons; split; [done|done| |by apply IH].
  rewrite map_put_keys. naive_solver.
Qed.

Lemma map_get_in k v m : NoDup m.*1 -> (k, v) ∈ m <-> map_get k m = Some v.
Proof.
  induction m as [|[j w] m IH]; intros Hn; [split; [intros H; by apply not_elem_of_nil in H|done]|]. cbn in Hn.
  apply list.NoDup_cons in Hn as [Hj Hn]. rewrite map_get_cons, elem_of_cons. case_bool_decide as E.
  - subst. split; [intros [[= ->]|Hin]; [done|]|intros [= ->]; by left]. exfalso. apply Hj, list_elem_of_fmap. by exists (k, v).
  - rewrite <- IH by done. split; [intros [[= <- _]|]; done|by right].
Qed.

Lemma map_get_key k m : is_Some (map_get k m) <-> k ∈ m.*1.
Proof.
  induction m as [|[j w] m IH]; [split; [by intros [? ?]|intros H; by apply not_elem_of_nil in H]|].
  rewrite map_get_cons. cbn. rewrite elem_of_cons, <- IH. case_bool_decide; naive_solver.
Qed.

(** ** Totals

    A run of updates, each with its key, its fresh value and its change. *)
Notation event := (K * V * (V -> V))%type.

Definition run_events (events : list event) m : list (K * V) :=
  fold_left (fun m '(k, fresh, f) => map_upd k fresh f m) events m.

Definition key_events k (events : list event) : list event := List.filter (fun e => bool_decide (fst (fst e) = k)) events.

(** The changes made to one entry, from its first fresh value. *)
Definition accumulated (start : option V) (events : list event) : option V :=
  fold_left (fun acc '(_, fresh, f) => Some (f (default fresh acc))) events start.

Lemma run_get k events m : map_get k (run_events events m) = accumulated (map_get k m) (key_events k events).
Proof.
  revert m. induction events as [|[[j fresh] f] events IH]; intros m; [done|]. cbn [run_events fold_left key_events List.filter fst].
  fold (run_events events). rewrite IH. fold (key_events k events). unfold map_upd. rewrite map_get_put. case_bool_decide as E; [|done].
  subst. done.
Qed.

Lemma run_keys k events m : k ∈ (run_events events m).*1 <-> k ∈ m.*1 \/ exists e, e ∈ events /\ fst (fst e) = k.
Proof.
  revert m. induction events as [|[[j fresh] f] events IH]; intros m; cbn [run_events fold_left].
  - split; [by left|]. intros [?|(e & He & _)]; [done|by apply not_elem_of_nil in He].
  - fold (run_events events). rewrite IH. unfold map_upd. rewrite map_put_keys. split.
    + intros [[->|Hk]|(e & He & Ek)]; [right; exists (j, fresh, f); split; [by left|done]|by left|right; exists e; split; [by right|done]].
    + intros [Hk|(e & He & Ek)]; [by left; right|]. apply elem_of_cons in He as [->|He]; [left; by left|right; by exists e].
Qed.

Lemma run_nodup events m : NoDup m.*1 -> NoDup (run_events events m).*1.
Proof. revert m. induction events as [|[[j fresh] f] events IH]; intros m Hn; [done|]. by apply IH, map_put_nodup. Qed.

(** A property of fresh values that changes keep. *)
Lemma accumulated_ind (P : V -> Prop) start events : (forall v, start = Some v -> P v) ->
  Forall (fun '(_, fresh, f) => P fresh /\ forall v, P v -> P (f v)) events ->
  forall v, accumulated start events = Some v -> P v.
Proof.
  intros Hs He. revert start Hs. induction He as [|[[k fresh] f] events [Hf Hk] _ IH]; intros start Hs; [done|].
  apply IH. intros v [= <-]. apply Hk. destruct start; cbn; [by apply Hs|done].
Qed.

(** A quantity that every change increases. *)
Lemma accumulated_sum {X} (ev : X -> event) (get : V -> num) (amount : X -> num) xs :
  Forall (fun x => get (snd (fst (ev x))) = n_zero /\ forall v, get (snd (ev x) v) = n_add (get v) (amount x)) xs ->
  forall v, accumulated None (map ev xs) = Some v -> get v = fold_left n_add (map amount xs) n_zero.
Proof.
  intros He. assert (forall start, forall v, accumulated start (map ev xs) = Some v ->
    get v = fold_left n_add (map amount xs) (match start with Some w => get w | None => n_zero end)) as H; [|apply H].
  induction He as [|x xs [Hf Hk] _ IH]; intros start v E; [by cbn in E; subst|].
  cbn [map fold_left]. change (accumulated start (map ev (x :: xs)))
    with (accumulated (let '(_, fresh, f) := ev x in Some (f (default fresh start))) (map ev xs)) in E.
  rewrite (IH _ _ E). f_equal. destruct (ev x) as [[k fresh] f]. cbn [fst snd] in *. rewrite Hk. by destruct start; cbn; [|rewrite Hf].
Qed.
End Maps.

(** Values changed in place, keys kept. *)
Definition map_values {K V} (f : V -> V) (m : list (K * V)) : list (K * V) := map (fun p => (fst p, f (snd p))) m.

(** ** Sorting

    A comparison gives the sign of a number; [x || y] passes over 0 and NaN, and
    the sort takes NaN for 0. *)
Definition num_sign (d : num) : Z := if n_ltb n_zero d then 1 else if n_ltb d n_zero then -1 else 0.
Definition or_compare (a b : Z) : Z := if a =? 0 then b else a.

Section Sorting.
Context {A : Type} (compare : A -> A -> Z).

Fixpoint insert_with (x : A) (l : list A) : list A :=
  match l with
  | [] => [x]
  | y :: l' => if compare x y <=? 0 then x :: l else y :: insert_with x l'
  end.

Definition sort_with (l : list A) : list A := foldr insert_with [] l.

Lemma sort_with_perm l : Permutation l (sort_with l).
Proof.
  induction l as [|x l IH]; [done|]. cbn [sort_with foldr]. fold (sort_with l). rewrite IH at 1.
  generalize (sort_with l). clear. intros l. induction l as [|y l IH]; cbn [insert_with]; [done|].
  destruct (_ <=? 0); [done|]. rewrite <- IH. constructor.
Qed.
End Sorting.

(** ** Fixed decimals *)
Definition pad_start (n : nat) (s : jstr) : jstr := replicate (n - length s) 48 ++ s.

(** [toFixed(digits)] below 10^21. *)
Definition to_fixed (digits : nat) (x : num) : jstr :=
  match x with
  | S754_nan => js "NaN"
  | S754_infinity s => (if s then js "-" else []) ++ js "Infinity"
  | S754_zero _ => js "0" ++ (match digits with O => [] | _ => js "." ++ replicate digits 48 end)
  | S754_finite s m e =>
      let '(a, b) := num_ratio m e in
      let n := (2 * (a * 10 ^ Z.of_nat digits) + b) / (2 * b) in
      let text := pad_start (S digits) (dec_of_Z n) in
      let point := (length text - digits)%nat in
      (if s then js "-" else []) ++ take point text ++ (match digits with O => [] | _ => js "." ++ drop point text end)
  end.

Example to_fixed_samples :
  map (to_fixed 2) [decimal_to_num 34 (-2); decimal_to_num 1 (-1); n_of_Z 12; decimal_to_num 1005 (-3); n_zero]
  = [js "0.34"; js "0.10"; js "12.00"; js "1.00"; js "0.00"].
Proof. vm_compute. reflexivity. Qed.
