(* ===== verification/PlaygroundStorage.v ===== *)
(** * The playground's storage

    Models [features/playground/lib/storage/storage.ts] and [storage-schema.ts]:
    keys per user, the envelope of stored values, the schemas, loading messages
    with their repair and trimming, and saving.  The browser's storage is a finite
    map that may refuse a write.  The operations take their checks from the class
    [Schemas]; [storage_schemas] is its instance, the schemas of the repository
    run by the package zod, which is the class [Zod] with its laws. *)
From Stdlib Require Import SpecFloat.
From stdpp Require Import strings gmap.
From S2P Require Import Prelude JsString JsNumber JsValue JsJson JsonText JsMap Syntax AuthSession ChatMessage.

#[local] Open Scope Z_scope.

(** ** Limits and keys *)
Definition STORAGE_VERSION : num := n_one.
Definition MAX_STORED_MESSAGES : nat := 100.
Definition MAX_STORED_MESSAGES_BYTES : Z := 1024 * 1024.
Definition MAX_LOADED_MESSAGES_CHARS : Z := 120000.
Definition MAX_LOADED_MESSAGE_CHARS : Z := 40000.

Definition TRUNCATED_CONTENT_SUFFIX : jstr := [10; 10] ++ js "[...]".
Definition MIN_PREFIX_COLLAPSE_LENGTH : Z := 2000.
Definition MIN_REPEATED_SECTION_COUNT : Z := 3.

Inductive storage_key := SK_config | SK_messages | SK_parameter_enabled.
#[export] Instance storage_key_eq_dec : EqDecision storage_key.
Proof. solve_decision. Defined.

Definition key_text (k : storage_key) : jstr :=
  match k with
  | SK_config => js "playground_config"
  | SK_messages => js "playground_messages"
  | SK_parameter_enabled => js "playground_parameter_enabled"
  end.

Definition STORAGE_KEYS : list storage_key := [SK_config; SK_messages; SK_parameter_enabled].

(** ** Section headings

    The matches of [/^#{2,6}\s+\d+\.\s+.+$/gm]. *)
Definition line_end (c : Z) : bool := (c =? 10) || (c =? 13) || (c =? 8232) || (c =? 8233).

(** The length of the last stretch that [.+] can take back from white space at
    the end of the text: up to the last character that ends no line. *)
Definition trailing_blank (blank : jstr) : option nat :=
  match blank with
  | [] => None
  | _ :: rest =>
      match drop_while line_end (rev rest) with
      | [] => None
      | kept => Some (S (length kept))
      end
  end.

Definition heading_length (s : jstr) : option nat :=
  let '(hashes, s1) := span_while (fun c => c =? 35) s in
  let '(space1, s2) := span_while is_space s1 in
  let '(number, s3) := span_while is_digit s2 in
  match s3 with
  | 46 :: s4 =>
      let '(space2, s5) := span_while is_space s4 in
      let before := (length hashes + length space1 + length number + 1)%nat in
      if (2 <=? length hashes)%nat && (length hashes <=? 6)%nat && (1 <=? length space1)%nat && (1 <=? length number)%nat
         && (1 <=? length space2)%nat then
        match s5 with
        | [] => Nat.add before <$> trailing_blank space2
        | _ => Some (before + length space2 + length (fst (span_while (fun c => negb (line_end c)) s5)))%nat
        end
      else None
  | _ => None
  end.

Record section_occurrence := Occurrence { so_heading : jstr; so_index : nat }.

(** The occurrences from a position on; [skip] characters belong to a match. *)
Fixpoint section_scan (s : jstr) (index skip : nat) (line_start : bool) : list section_occurrence :=
  match s with
  | [] => []
  | c :: rest =>
      match skip with
      | S skip => section_scan rest (S index) skip (line_end c)
      | O =>
          match (if line_start then heading_length s else None) with
          | Some (S n) => Occurrence (take (S n) s) index :: section_scan rest (S index) n (line_end c)
          | _ => section_scan rest (S index) O (line_end c)
          end
      end
  end.

Definition getSectionOccurrences (text : jstr) : list section_occurrence := section_scan text O O true.

Definition getHeadingCounts (occurrences : list section_occurrence) : list (jstr * Z) :=
  fold_left (fun counts o => map_upd (so_heading o) 0 (Z.add 1) counts) occurrences [].

(** From the last occurrence to the first: the last index of each heading that
    is repeated. *)
Definition last_repeated (counts : list (jstr * Z)) (occurrences : list section_occurrence) : list nat :=
  snd (fold_left (fun '(seen, indexes) o =>
      if (default 0 (map_get (so_heading o) counts) <? MIN_REPEATED_SECTION_COUNT) || bool_decide (so_heading o ∈ seen)
      then (seen, indexes)
      else (set_add (so_heading o) seen, indexes ++ [so_index o]))
    (rev occurrences) ([] : list jstr, [])).

Definition findLastRepeatedSectionRunStart (text : jstr) : option nat :=
  let occurrences := getSectionOccurrences text in
  match last_repeated (getHeadingCounts occurrences) occurrences with
  | [] => None
  | i :: indexes => Some (fold_left Nat.min indexes i)
  end.

Definition collapseRepeatedSectionSnapshots (text : jstr) : jstr :=
  if Z.of_nat (length text) <? MIN_PREFIX_COLLAPSE_LENGTH then text
  else match findLastRepeatedSectionRunStart text with
       | None => text
       | Some start => drop start text
       end.

(** ** Messages *)
Definition trimMessages (messages : list message) : list message :=
  if (length messages <=? MAX_STORED_MESSAGES)%nat then messages
  else drop (length messages - MAX_STORED_MESSAGES) messages.

Definition getMessageSize (m : message) : Z :=
  fold_left (fun total v => total + Z.of_nat (length (mv_content v))) (m_versions m) 0
  + match m_reasoning m with Some r => Z.of_nat (length (rs_content r)) | None => 0 end.

Definition truncateText (text : jstr) (maxLength : Z) : jstr :=
  if Z.of_nat (length text) <=? maxLength then text
  else if maxLength <=? Z.of_nat (length TRUNCATED_CONTENT_SUFFIX) then take (Z.to_nat maxLength) text
  else take (Z.to_nat (maxLength - Z.of_nat (length TRUNCATED_CONTENT_SUFFIX))) text ++ TRUNCATED_CONTENT_SUFFIX.

Definition load_content (content : jstr) : jstr := truncateText (collapseRepeatedSectionSnapshots content) MAX_LOADED_MESSAGE_CHARS.

Definition truncate_reasoning (r : reasoning) : reasoning := with_content (truncateText (rs_content r) MAX_LOADED_MESSAGE_CHARS) r.

(** The repaired message, and whether it is another object than the given one. *)
Definition normalizeStoredMessageForLoad (now : num) (m : message) : message * bool :=
  let version_changed v :=
    let collapsed := collapseRepeatedSectionSnapshots (mv_content v) in
    negb (bool_decide (load_content (mv_content v) = mv_content v) && bool_decide (collapsed = mv_content v)) in
  let versions := map (fun v => if version_changed v then MessageVersion (mv_id v) (load_content (mv_content v)) else v) (m_versions m) in
  let reasoning := truncate_reasoning <$> m_reasoning m in
  let changed := existsb version_changed (m_versions m)
                 || negb (bool_decide (rs_content <$> reasoning = rs_content <$> m_reasoning m)) in
  let normalized := if changed then with_reasoning reasoning (with_versions versions m) else m in
  if negb (isAssistantMessagePending normalized) then (normalized, changed)
  else
    let hasReasoning := match m_reasoning normalized with Some r => non_empty (trim (rs_content r)) | None => false end in
    if negb (hasMessageContent normalized) && negb hasReasoning then (normalized, changed)
    else
      let completedAt :=
        default (default (default (default now (m_createdAt normalized)) (m_startedAt normalized))
                   (m_reasoning normalized ≫= rs_completedAt)) (m_completedAt normalized) in
      (completeAssistantTiming completedAt
         (with_reasoning_streaming false (with_status M_complete (finalizeMessage now normalized None))), true).

(** The messages, from the last, that fit; at least one. *)
Fixpoint take_sizes (messages : list message) (totalSize : Z) (first : bool) : list message :=
  match messages with
  | [] => []
  | m :: rest =>
      if negb first && (MAX_LOADED_MESSAGES_CHARS <? totalSize + getMessageSize m) then []
      else m :: take_sizes rest (totalSize + getMessageSize m) false
  end.

Definition trimMessagesByContentSize (messages : list message) : list message := rev (take_sizes (rev messages) 0 true).

(** ** The store *)
Notation store := (gmap jstr jstr).

(** The checks of the stored values, as the operations below use them. *)
Class Schemas := {
  messagesSchema : jsval -> option (list message);     (* messagesSchema.parse, None when it throws *)
  playgroundConfigSchema : jsval -> option jsval;
  parameterEnabledSchema : jsval -> option jsval;
  messages_value : list message -> jsval;              (* the objects of the messages *)
}.

(** ** The schemas: [storage-schema.ts]

    The package zod is a parameter: its schemas, [parse] ([None] when it throws)
    and the constructors the file uses.  The laws are what its documentation says
    of them. *)
Class Zod := {
  schema : Type;
  parse : schema -> jsval -> option jsval;
  z_string : schema;
  z_number : schema;
  z_boolean : schema;
  z_enum : list jstr -> schema;
  z_array : schema -> schema;
  z_min : nat -> schema -> schema;                     (* z.array(..).min(n) *)
  z_optional : schema -> schema;
  z_nullable : schema -> schema;
  z_object : list (jstr * schema) -> schema;
}.

Definition finite_number (x : num) : bool := match x with S754_zero _ | S754_finite _ _ _ => true | _ => false end.

(** The properties of a checked object: those of the shape, in its order; others
    are left out, and one that is missing and optional stays missing. *)
Fixpoint object_properties (check : list (jstr * (jsval -> option jsval))) (props : list (jstr * jsval)) : option (list (jstr * jsval)) :=
  match check with
  | [] => Some []
  | (key, f) :: check =>
      match own_property props key with
      | Some v => w ← f v; rest ← object_properties check props; Some ((key, w) :: rest)
      | None =>
          w ← f J_undefined; rest ← object_properties check props;
          Some (match w with J_undefined => rest | _ => (key, w) :: rest end)
      end
  end.

Class ZodLaws (Z : Zod) : Prop := {
  zl_string v : parse z_string v = match v with J_str _ => Some v | _ => None end;
  zl_number v : parse z_number v = match v with J_num x => if finite_number x then Some v else None | _ => None end;
  zl_boolean v : parse z_boolean v = match v with J_bool _ => Some v | _ => None end;
  zl_enum values v :
    parse (z_enum values) v = match v with J_str s => if bool_decide (s ∈ values) then Some v else None | _ => None end;
  zl_array s v : parse (z_array s) v = match v with J_arr l => J_arr <$> mapM (parse s) l | _ => None end;
  zl_min n s v :
    parse (z_min n s) v = match parse s v with Some (J_arr l) => if (length l <? n)%nat then None else Some (J_arr l) | r => r end;
  zl_optional s v : parse (z_optional s) v = match v with J_undefined => Some J_undefined | _ => parse s v end;
  zl_nullable s v : parse (z_nullable s) v = match v with J_null => Some J_null | _ => parse s v end;
  zl_object shape v :
    parse (z_object shape) v =
    match v with
    | J_obj props => J_obj <$> object_properties (map (fun f => (f.1, parse f.2)) shape) props
    | _ => None
    end;
}.
#[global] Arguments ZodLaws : clear implicits.

Section StorageSchema.
Context `{Zod}.

Definition playground_config_schema : schema := z_object
  [(js "model", z_optional z_string);
   (js "group", z_optional z_string);
   (js "temperature", z_optional z_number);
   (js "top_p", z_optional z_number);
   (js "max_tokens", z_optional z_number);
   (js "frequency_penalty", z_optional z_number);
   (js "presence_penalty", z_optional z_number);
   (js "seed", z_optional (z_nullable z_number));
   (js "stream", z_optional z_boolean)].

Definition parameter_enabled_schema : schema := z_object
  [(js "temperature", z_optional z_boolean);
   (js "top_p", z_optional z_boolean);
   (js "max_tokens", z_optional z_boolean);
   (js "frequency_penalty", z_optional z_boolean);
   (js "presence_penalty", z_optional z_boolean);
   (js "seed", z_optional z_boolean)].

Definition messageRoleSchema : schema := z_enum [js "user"; js "assistant"; js "system"].
Definition messageStatusSchema : schema := z_enum [js "loading"; js "streaming"; js "complete"; js "error"].
Definition messageVersionSchema : schema := z_object [(js "id", z_string); (js "content", z_string)].
Definition sourceSchema : schema := z_object [(js "href", z_string); (js "title", z_string)].

Definition reasoningSchema : schema := z_object
  [(js "content", z_string);
   (js "duration", z_number);
   (js "startedAt", z_optional z_number);
   (js "completedAt", z_optional z_number);
   (js "durationMs", z_optional z_number)].

Definition messageSchema : schema := z_object
  [(js "key", z_string);
   (js "from", messageRoleSchema);
   (js "versions", z_min 1 (z_array messageVersionSchema));
   (js "createdAt", z_optional z_number);
   (js "startedAt", z_optional z_number);
   (js "completedAt", z_optional z_number);
   (js "durationMs", z_optional z_number);
   (js "sources", z_optional (z_array sourceSchema));
   (js "reasoning", z_optional reasoningSchema);
   (js "isReasoningStreaming", z_optional z_boolean);
   (js "isReasoningComplete", z_optional z_boolean);
   (js "isContentComplete", z_optional z_boolean);
   (js "status", z_optional messageStatusSchema);
   (js "errorCode", z_optional (z_nullable z_string))].

Definition messages_schema : schema := z_array messageSchema.
End StorageSchema.

(** ** Messages as objects

    A record of the model stands for an object: a field without a value is a
    property the object does not have, and a flag that is not set is one it does
    not have or that is false, as [explicit] says. *)
Definition present (fields : list (jstr * option jsval)) : list (jstr * jsval) :=
  omap (fun f => pair f.1 <$> f.2) fields.

Definition role_text (r : message_role) : jstr :=
  match r with R_user => js "user" | R_assistant => js "assistant" | R_system => js "system" end.
Definition status_text (s : message_status) : jstr :=
  match s with M_loading => js "loading" | M_streaming => js "streaming" | M_complete => js "complete" | M_error => js "error" end.

Definition role_of_text (s : jstr) : option message_role :=
  List.find (fun r => bool_decide (role_text r = s)) [R_user; R_assistant; R_system].
Definition status_of_text (s : jstr) : option message_status :=
  List.find (fun x => bool_decide (status_text x = s)) [M_loading; M_streaming; M_complete; M_error].

Definition version_fields (v : message_version) : list (jstr * option jsval) :=
  [(js "id", Some (J_str (mv_id v))); (js "content", Some (J_str (mv_content v)))].
Definition source_fields (p : jstr * jstr) : list (jstr * option jsval) :=
  [(js "href", Some (J_str p.1)); (js "title", Some (J_str p.2))].
Definition reasoning_fields (r : reasoning) : list (jstr * option jsval) :=
  [(js "content", Some (J_str (rs_content r))); (js "duration", Some (J_num (rs_duration r)));
   (js "startedAt", J_num <$> rs_startedAt r); (js "completedAt", J_num <$> rs_completedAt r);
   (js "durationMs", J_num <$> rs_durationMs r)].

Definition object_of {A} (fields : A -> list (jstr * option jsval)) (x : A) : jsval := J_obj (present (fields x)).

Definition flag_field (explicit value : bool) : option jsval := if value || explicit then Some (J_bool value) else None.

Section MessageObjects.
Context (explicit : message -> jstr -> bool).

Definition message_fields (m : message) : list (jstr * option jsval) :=
  let flag key (value : bool) := (js key, flag_field (explicit m (js key)) value) in
  [(js "key", Some (J_str (m_key m))); (js "from", Some (J_str (role_text (m_from m))));
   (js "versions", Some (J_arr (map (object_of version_fields) (m_versions m))));
   (js "createdAt", J_num <$> m_createdAt m); (js "startedAt", J_num <$> m_startedAt m);
   (js "completedAt", J_num <$> m_completedAt m); (js "durationMs", J_num <$> m_durationMs m);
   (js "sources", (fun l => J_arr (map (object_of source_fields) l)) <$> m_sources m);
   (js "reasoning", object_of reasoning_fields <$> m_reasoning m);
   flag "isReasoningStreaming" (m_isReasoningStreaming m); flag "isReasoningComplete" (m_isReasoningComplete m);
   flag "isContentComplete" (m_isContentComplete m);
   (js "status", (fun s => J_str (status_text s)) <$> m_status m);
   (js "errorCode", match m_errorCode m with J_undefined => None | v => Some v end)].
End MessageObjects.

(** The record of a checked object. *)
Definition prop (v : jsval) (key : string) : jsval :=
  match v with J_obj props => default J_undefined (own_property props (js key)) | _ => J_undefined end.
Definition str_of (v : jsval) : option jstr := match v with J_str s => Some s | _ => None end.
Definition num_of (v : jsval) : option num := match v with J_num x => Some x | _ => None end.
Definition flag_of (v : jsval) : bool := match v with J_bool b => b | _ => false end.
Definition list_of {A} (f : jsval -> option A) (v : jsval) : option (list A) := match v with J_arr l => mapM f l | _ => None end.
Definition optional_of {A} (f : jsval -> option A) (v : jsval) : option (option A) :=
  match v with J_undefined => Some None | _ => Some <$> f v end.

Definition version_of (v : jsval) : option message_version :=
  a ← str_of (prop v "id"); c ← str_of (prop v "content"); Some (MessageVersion a c).
Definition source_of (v : jsval) : option (jstr * jstr) :=
  a ← str_of (prop v "href"); b ← str_of (prop v "title"); Some (a, b).
Definition reasoning_of (v : jsval) : option reasoning :=
  content ← str_of (prop v "content"); duration ← num_of (prop v "duration");
  Some (Reasoning content duration (num_of (prop v "startedAt")) (num_of (prop v "completedAt")) (num_of (prop v "durationMs"))).
Definition message_of (v : jsval) : option message :=
  key ← str_of (prop v "key"); from ← (str_of (prop v "from") ≫= role_of_text); versions ← list_of version_of (prop v "versions");
  sources ← optional_of (list_of source_of) (prop v "sources"); reasoning ← optional_of reasoning_of (prop v "reasoning");
  status ← optional_of (fun v => str_of v ≫= status_of_text) (prop v "status");
  Some (Message key from versions (num_of (prop v "createdAt")) (num_of (prop v "startedAt")) (num_of (prop v "completedAt"))
          (num_of (prop v "durationMs")) sources reasoning (flag_of (prop v "isReasoningStreaming"))
          (flag_of (prop v "isReasoningComplete")) (flag_of (prop v "isContentComplete")) status (prop v "errorCode")).

(** The checks of the repository: the schemas above, run by zod. *)
Definition storage_schemas `{Zod} (explicit : message -> jstr -> bool) : Schemas := {|
  messagesSchema v := parse messages_schema v ≫= list_of message_of;
  playgroundConfigSchema := parse playground_config_schema;
  parameterEnabledSchema := parse parameter_enabled_schema;
  messages_value ms := J_arr (map (object_of (message_fields explicit)) ms);
|}.

Section Storage.
Context `{Schemas} (fits : store -> bool) (userId : option num) (now : num) (t : jstr -> jstr).

(** [localStorage.setItem]: [None] when it throws. *)
Definition setItem (key value : jstr) (s : store) : option store :=
  let s' := <[key := value]> s in if fits s' then Some s' else None.

Definition user_key (base : storage_key) : option jstr := (fun id => key_text base ++ js ":" ++ num_to_string id) <$> userId.

Definition remove_legacy (s : store) : store := fold_left (fun s k => delete (key_text k) s) STORAGE_KEYS s.

(** Data without an owner are removed whenever a key is asked for. *)
Definition getUserStorageKey (base : storage_key) (s : store) : option jstr * store := (user_key base, remove_legacy s).

(** A stored value; the outer [None] is a thrown error, the inner one is null. *)
Definition readStoredValue (base : storage_key) (s : store) : option (option jsval) * store :=
  let '(key, s) := getUserStorageKey base s in
  match key with
  | None => (Some None, s)
  | Some key =>
      match s !! key with
      | None | Some [] => (Some None, s)
      | Some saved => (Some <$> json_parse saved, s)
      end
  end.

Definition readStoredMessagesValue (s : store) : option (option jsval) * store :=
  let '(key, s) := getUserStorageKey SK_messages s in
  match key with
  | None => (Some None, s)
  | Some key =>
      match s !! key with
      | None | Some [] => (Some None, s)
      | Some saved =>
          if MAX_STORED_MESSAGES_BYTES <? Z.of_nat (length saved) then (Some None, delete key s)
          else (Some <$> json_parse saved, s)
      end
  end.

(** The data of an envelope; other values are old data without one. *)
Definition unwrapStoredValue (value : jsval) : jsval :=
  match value with
  | J_obj props =>
      match own_property props (js "version"), own_property props (js "data") with
      | Some _, Some data => data
      | _, _ => value
      end
  | _ => value
  end.

(** The store, or [None] when a write throws. *)
Definition writeStoredValue (base : storage_key) (data : jsval) (s : store) : option store * store :=
  let '(key, s) := getUserStorageKey base s in
  match key with
  | None => (Some s, s)
  | Some key => (setItem key (json_text (J_obj [(js "version", J_num STORAGE_VERSION); (js "data", data)])) s, s)
  end.

(** A write inside [try]: a failed one changes nothing more. *)
Definition write_logged (base : storage_key) (data : jsval) (s : store) : store :=
  let '(written, s') := writeStoredValue base data s in default s' written.

(** ** Settings *)
Definition truthy_value (v : jsval) : bool :=
  match v with
  | J_undefined | J_null => false
  | J_bool b => b
  | J_num x => negb (n_eqb x n_zero) && n_eqb x x
  | J_str s => non_empty s
  | J_arr _ | J_obj _ => true
  end.

Definition load_settings (base : storage_key) (schema : jsval -> option jsval) (s : store) : jsval * store :=
  let '(saved, s) := readStoredValue base s in
  (match saved with
   | Some (Some v) => if truthy_value v then default (J_obj []) (schema (unwrapStoredValue v)) else J_obj []
   | _ => J_obj []
   end, s).

Definition save_settings (base : storage_key) (schema : jsval -> option jsval) (value : jsval) (s : store) : store :=
  match schema value with
  | Some parsed => write_logged base parsed s
  | None => s
  end.

Definition loadConfig := load_settings SK_config playgroundConfigSchema.
Definition saveConfig := save_settings SK_config playgroundConfigSchema.
Definition loadParameterEnabled := load_settings SK_parameter_enabled parameterEnabledSchema.
Definition saveParameterEnabled := save_settings SK_parameter_enabled parameterEnabledSchema.

(** ** Messages *)
Definition saveMessages (messages : list message) (s : store) : store :=
  match messagesSchema (messages_value (trimMessages messages)) with
  | Some parsed => write_logged SK_messages (messages_value parsed) s
  | None => s
  end.

(** [sizeTrimmed !== trimmed]: the trimmed messages are always a new array. *)
Definition size_trimmed_is_new : bool := true.

Definition loadMessages (s : store) : option (list message) * store :=
  let '(saved, s) := readStoredMessagesValue s in
  match saved with
  | Some (Some v) =>
      if negb (truthy_value v) then (None, s)
      else
        match messagesSchema (unwrapStoredValue v) with
        | None => (None, s)
        | Some parsed =>
            let normalized := map (fun m => fst (normalizeStoredMessageForLoad now m)) parsed in
            let normalizedChanged := existsb (fun m => snd (normalizeStoredMessageForLoad now m)) parsed in
            let trimmed := trimMessages normalized in
            let trimmedIsNew := (MAX_STORED_MESSAGES <? length normalized)%nat in
            let sizeTrimmed := trimMessagesByContentSize trimmed in
            let sanitized := sanitizeMessagesOnLoad now t sizeTrimmed in
            let sanitizedIsNew := match last_pending sizeTrimmed with Some _ => true | None => false end in
            let s := if normalizedChanged || trimmedIsNew || size_trimmed_is_new || sanitizedIsNew
                     then saveMessages sanitized s else s in
            (Some sanitized, s)
        end
  | _ => (None, s)
  end.

Definition clearPlaygroundData (s : store) : store :=
  fold_left (fun s base =>
      let '(key, s) := getUserStorageKey base s in
      match key with Some key => delete key s | None => s end) STORAGE_KEYS s.
End Storage.
