(* ===== verification/StorageFacts.v ===== *)
(** * Stored conversations are private and are read back

    The data of one user are not changed or read by what another user does in the
    same browser; and settled messages that were saved are loaded as they are. *)
From Stdlib Require Import SpecFloat.
From stdpp Require Import strings gmap.
From S2P Require Import Prelude JsString JsNumber JsNumberFacts NumberText JsValue JsJson JsonText JsMap Syntax AuthSession ChatMessage PlaygroundStorage.

#[local] Open Scope Z_scope.

(** ** Keys *)
Definition valid_id (id : num) : bool := valid_binary 53 1024 id && negb (bool_decide (id = S754_zero true)).

Lemma split_at (c : Z) (a b x y : jstr) : c ∉ a -> c ∉ x -> a ++ c :: b = x ++ c :: y -> a = x /\ b = y.
Proof.
  revert x. induction a as [|d a IH]; intros [|e x] Ha Hx E; cbn in E; [by injection E|..].
  - injection E as <- _. exfalso. apply Hx. by left.
  - injection E as -> _. exfalso. apply Ha. by left.
  - injection E as -> E. apply not_elem_of_cons in Ha as [_ Ha]. apply not_elem_of_cons in Hx as [_ Hx].
    by destruct (IH _ Ha Hx E) as [-> ->].
Qed.

Lemma key_plain base : 58 ∉ key_text base.
Proof. destruct base; by compute_done. Qed.

Definition owner_key (base : storage_key) (id : num) : jstr := key_text base ++ js ":" ++ num_to_string id.

Lemma owner_key_inj base base' id id' : valid_id id = true -> valid_id id' = true ->
  owner_key base id = owner_key base' id' -> base = base' /\ id = id'.
Proof.
  unfold valid_id. intros H1 H2 E. bsplit. change (js ":" ++ ?s) with (58 :: s) in E.
  apply split_at in E as [Eb En]; [|apply key_plain..]. split; [by destruct base, base'|].
  apply (f_equal to_number) in En. by rewrite !number_text_roundtrip in En.
Qed.

Lemma owner_key_owned base base' id : owner_key base id <> key_text base'.
Proof. intros E. apply (key_plain base'). rewrite <- E. unfold owner_key. apply elem_of_app. right. by left. Qed.

Lemma legacy_lookup (s : store) k : (forall base, k <> key_text base) -> remove_legacy s !! k = s !! k.
Proof.
  intros Hk. unfold remove_legacy, STORAGE_KEYS. cbn [fold_left].
  by rewrite !lookup_delete_ne by (intros E; by eapply Hk).
Qed.

Lemma legacy_removed (s : store) base : remove_legacy s !! key_text base = None.
Proof.
  unfold remove_legacy, STORAGE_KEYS. cbn [fold_left].
  destruct base; [rewrite !lookup_delete_ne by done|rewrite lookup_delete_ne by done|]; by rewrite lookup_delete_eq.
Qed.

(** ** What a user does *)
Inductive storage_op :=
| Op_loadConfig | Op_saveConfig (v : jsval)
| Op_loadParameterEnabled | Op_saveParameterEnabled (v : jsval)
| Op_loadMessages | Op_saveMessages (ms : list message)
| Op_clear.

Section Privacy.
Context `{Schemas} (fits : store -> bool) (now : num) (t : jstr -> jstr).

Definition run_op (user : option num) (op : storage_op) (s : store) : store :=
  match op with
  | Op_loadConfig => snd (loadConfig user s)
  | Op_saveConfig v => saveConfig fits user v s
  | Op_loadParameterEnabled => snd (loadParameterEnabled user s)
  | Op_saveParameterEnabled v => saveParameterEnabled fits user v s
  | Op_loadMessages => snd (loadMessages fits user now t s)
  | Op_saveMessages ms => saveMessages fits user ms s
  | Op_clear => clearPlaygroundData user s
  end.

(** A step that touches only the keys of a user and those without an owner. *)
Definition keeps (user : option num) (s s' : store) : Prop :=
  forall id base, valid_id id = true -> user <> Some id -> s' !! owner_key base id = s !! owner_key base id.

Lemma keeps_refl user s : keeps user s s.
Proof using. done. Qed.

Lemma keeps_trans user s1 s2 s3 : keeps user s1 s2 -> keeps user s2 s3 -> keeps user s1 s3.
Proof using. intros H1 H2 id base Hv Hu. by rewrite H2, H1. Qed.

Lemma legacy_keeps user s : keeps user s (remove_legacy s).
Proof using. intros id base _ _. apply legacy_lookup. intros. apply owner_key_owned. Qed.

Definition user_ok (user : option num) : Prop := match user with Some id => valid_id id = true | None => True end.

Lemma other_key user base id base' key : user_ok user -> valid_id id = true -> user <> Some id ->
  user_key user base = Some key -> key <> owner_key base' id.
Proof using.
  intros Hu Hv Hne E ->. destruct user as [u|]; [|done]. injection E as E. apply owner_key_inj in E as [_ ->]; done.
Qed.

Lemma write_keeps user base data s : user_ok user -> keeps user s (write_logged fits user base data s).
Proof using.
  intros Hu. unfold write_logged, writeStoredValue. cbn [getUserStorageKey]. destruct (user_key user base) as [key|] eqn:E; [|apply legacy_keeps].
  unfold setItem. destruct (fits _); [|apply legacy_keeps]. cbn [default]. eapply keeps_trans; [apply legacy_keeps|].
  intros id base' Hv Hne. apply lookup_insert_ne. by eapply other_key.
Qed.

Lemma read_keeps user base s : snd (readStoredValue user base s) = remove_legacy s.
Proof using.
  unfold readStoredValue. cbn [getUserStorageKey]. destruct (user_key user base) as [key|]; [|done]. by destruct (_ !! key) as [[|]|].
Qed.

Lemma load_settings_keeps user base schema s : keeps user s (snd (load_settings user base schema s)).
Proof using.
  unfold load_settings. pose proof (read_keeps user base s) as E. destruct (readStoredValue user base s) as [saved s']. cbn [snd] in *.
  subst. apply legacy_keeps.
Qed.

Lemma read_messages_keeps user s : user_ok user -> keeps user s (snd (readStoredMessagesValue user s)).
Proof using.
  intros Hu. unfold readStoredMessagesValue. cbn [getUserStorageKey]. destruct (user_key user SK_messages) as [key|] eqn:E; [|apply legacy_keeps].
  destruct (_ !! key) as [[|c saved]|]; [apply legacy_keeps| |apply legacy_keeps]. destruct (_ <? _); [|apply legacy_keeps].
  eapply keeps_trans; [apply legacy_keeps|]. intros id base Hv Hne. apply lookup_delete_ne. by eapply other_key.
Qed.

Lemma save_keeps user ms s : user_ok user -> keeps user s (saveMessages fits user ms s).
Proof using. intros Hu. unfold saveMessages. destruct (messagesSchema _); [by apply write_keeps|apply keeps_refl]. Qed.

Lemma load_keeps user s : user_ok user -> keeps user s (snd (loadMessages fits user now t s)).
Proof using.
  intros Hu. unfold loadMessages. pose proof (read_messages_keeps user s Hu) as Hr.
  destruct (readStoredMessagesValue user s) as [[[v|]|] s']; cbn [snd] in *; [|done..].
  destruct (negb (truthy_value v)); [done|]. destruct (messagesSchema (unwrapStoredValue v)) as [parsed|]; [|done].
  cbn [snd]. destruct (_ || _); [|done]. eapply keeps_trans; [exact Hr|by apply save_keeps].
Qed.

Lemma clear_keeps user s : user_ok user -> keeps user s (clearPlaygroundData user s).
Proof using.
  intros Hu. unfold clearPlaygroundData. generalize STORAGE_KEYS. intros bases. revert s. induction bases as [|base bases IH]; intros s; [done|].
  cbn [fold_left getUserStorageKey]. eapply keeps_trans; [|apply IH]. destruct (user_key user base) as [key|] eqn:E; [|apply legacy_keeps].
  eapply keeps_trans; [apply legacy_keeps|]. intros id base' Hv Hne. apply lookup_delete_ne. by eapply other_key.
Qed.

Lemma op_keeps user op s : user_ok user -> keeps user s (run_op user op s).
Proof using.
  intros Hu. destruct op; cbn [run_op]; try apply load_settings_keeps; try (by apply load_keeps); try (by apply save_keeps); try (by apply clear_keeps).
  - unfold saveConfig, save_settings. destruct (playgroundConfigSchema v); [by apply write_keeps|apply keeps_refl].
  - unfold saveParameterEnabled, save_settings. destruct (parameterEnabledSchema v); [by apply write_keeps|apply keeps_refl].
Qed.

(** What is read depends on the user's own key. *)
Lemma load_settings_own id base schema s s' : s !! owner_key base id = s' !! owner_key base id ->
  fst (load_settings (Some id) base schema s) = fst (load_settings (Some id) base schema s').
Proof using.
  intros E. unfold load_settings, readStoredValue. cbn [getUserStorageKey user_key fmap option_fmap option_map]. fold (owner_key base id).
  rewrite !legacy_lookup, E by (intros; apply owner_key_owned). by destruct (s' !! owner_key base id) as [[|]|].
Qed.

Lemma load_messages_own id s s' : s !! owner_key SK_messages id = s' !! owner_key SK_messages id ->
  fst (loadMessages fits (Some id) now t s) = fst (loadMessages fits (Some id) now t s').
Proof using.
  intros E. assert (fst (readStoredMessagesValue (Some id) s) = fst (readStoredMessagesValue (Some id) s')) as Er.
  { unfold readStoredMessagesValue. cbn [getUserStorageKey user_key fmap option_fmap option_map]. fold (owner_key SK_messages id).
    rewrite !legacy_lookup, E by (intros; apply owner_key_owned). destruct (s' !! owner_key SK_messages id) as [[|]|]; [done| |done].
    by destruct (_ <? _). }
  unfold loadMessages. destruct (readStoredMessagesValue (Some id) s) as [[[v|]|] s1], (readStoredMessagesValue (Some id) s') as [[[v'|]|] s2]; try done.
  cbn in Er. injection Er as <-. destruct (negb (truthy_value v)); [done|]. by destruct (messagesSchema (unwrapStoredValue v)).
Qed.
End Privacy.

(** C21: the stored data of the playground belong to their user: whatever other
    users of the browser, or nobody signed in, load, save or clear, and whether
    the browser refuses writes, a user's stored values are not touched, and
    loading the messages or the settings gives the user the same as before. *)
Theorem playground_data_private `{Schemas} fits now t id (others : list (option num * storage_op)) s : valid_id id = true ->
  Forall (fun p => user_ok (fst p) /\ fst p <> Some id) others ->
  let s' := fold_left (fun s p => run_op fits now t (fst p) (snd p) s) others s in
  (forall base, s' !! owner_key base id = s !! owner_key base id) /\
  fst (loadMessages fits (Some id) now t s') = fst (loadMessages fits (Some id) now t s) /\
  fst (loadConfig (Some id) s') = fst (loadConfig (Some id) s) /\
  fst (loadParameterEnabled (Some id) s') = fst (loadParameterEnabled (Some id) s).
Proof.
  intros Hv Ho s'. assert (forall base, s' !! owner_key base id = s !! owner_key base id) as Hk.
  { unfold s'. clear s'. revert s. induction Ho as [|[user op] others [Hu Hne] _ IH]; intros s base; [done|]. cbn [fold_left fst snd] in *.
    rewrite IH. by apply op_keeps. }
  split_and!; [done|by apply load_messages_own|by apply load_settings_own..].
Qed.

(** ** Saving and loading *)
Definition units (s : jstr) : bool := forallb (fun c => (0 <=? c) && (c <? 65536)) s.
Definition opt_num (x : option num) : bool := match x with Some x => json_num x | None => true end.

Definition reasoning_ok (r : reasoning) : bool :=
  units (rs_content r) && json_num (rs_duration r) && opt_num (rs_startedAt r) && opt_num (rs_completedAt r) && opt_num (rs_durationMs r).

(** A message of code units and JSON numbers, with at least one version and an
    error code that is a text, null or missing. *)
Definition message_ok (m : message) : bool :=
  units (m_key m) && negb (bool_decide (m_versions m = [])) && forallb (fun v => units (mv_id v) && units (mv_content v)) (m_versions m)
  && opt_num (m_createdAt m) && opt_num (m_startedAt m) && opt_num (m_completedAt m) && opt_num (m_durationMs m)
  && forallb (fun p => units (fst p) && units (snd p)) (default [] (m_sources m))
  && match m_reasoning m with Some r => reasoning_ok r | None => true end
  && match m_errorCode m with J_undefined | J_null => true | J_str s => units s | _ => false end.

(** ** Objects and their schemas *)
Lemma present_sublist fields : sublist (present fields).*1 fields.*1.
Proof.
  induction fields as [|[k [v|]] fields IH]; cbn; [constructor|by constructor|by constructor].
Qed.

Lemma ordered_sublist ks ks' : sublist ks ks' -> keys_ordered ks' = true -> keys_ordered ks = true.
Proof.
  induction 1 as [|k l l' Hs IH|k l l' Hs IH]; cbn [keys_ordered]; [done| |]; intros E; apply andb_true_split in E as [E1 E2]; [|auto].
  rewrite IH, andb_true_r by done. rewrite forallb_forall in E1 |- *. intros x Hx. apply E1. apply list_elem_of_In in Hx. apply list_elem_of_In.
  by eapply elem_of_submseteq, sublist_submseteq.
Qed.

(** The field of a key, and the property of the object. *)
Definition field_value (fields : list (jstr * option jsval)) (key : jstr) : option jsval :=
  mjoin (snd <$> List.find (fun p => bool_decide (fst p = key)) fields).

Lemma present_absent fields key : key ∉ fields.*1 -> own_property (present fields) key = None.
Proof.
  induction fields as [|[k [v|]] fields IH]; [done|..]; cbn [fmap list_fmap fst]; intros Hk; apply not_elem_of_cons in Hk as [Hne Hk]; cbn [present omap list_omap fst snd fmap option_fmap option_map].
  - unfold own_property. cbn [List.find fst]. rewrite bool_decide_eq_false_2 by congruence. by apply IH.
  - by apply IH.
Qed.

Lemma present_property fields key : NoDup fields.*1 -> own_property (present fields) key = field_value fields key.
Proof.
  induction fields as [|[k f] fields IH]; [done|]. intros Hd. apply list.NoDup_cons in Hd as [Hk Hd].
  unfold field_value. cbn [List.find fst]. destruct (decide (k = key)) as [->|Hne].
  - rewrite bool_decide_eq_true_2 by done. cbn [fmap option_fmap option_map snd mjoin option_join]. destruct f as [v|].
    + cbn [present omap list_omap fst snd fmap option_fmap option_map]. unfold own_property. cbn [List.find fst]. by rewrite bool_decide_eq_true_2.
    + cbn [present omap list_omap fst snd fmap option_fmap option_map]. by apply present_absent.
  - rewrite bool_decide_eq_false_2 by done. fold (field_value fields key). rewrite <- IH by done. destruct f as [v|]; [|done].
    cbn [present omap list_omap fst snd fmap option_fmap option_map]. unfold own_property at 1. cbn [List.find fst]. by rewrite bool_decide_eq_false_2.
Qed.

(** An object of the fields is a JSON value when its values are. *)
Lemma fields_json fields : keys_ordered fields.*1 = true -> forallb units fields.*1 = true ->
  Forall (fun f => match f.2 with Some v => json_ok v = true | None => True end) fields -> json_ok (J_obj (present fields)) = true.
Proof.
  intros Ho Hu Hv. change (keys_ordered (present fields).*1 && forallb (fun p => units p.1 && json_ok p.2) (present fields) = true).
  rewrite (ordered_sublist _ _ (present_sublist fields) Ho). clear Ho. cbn [andb].
  induction Hv as [|[k [v|]] fields Hv _ IH]; [done|..]; cbn [fmap list_fmap fst forallb] in Hu; apply andb_true_split in Hu as [Hk Hu]; [|by apply IH].
  cbn [present omap list_omap fst snd fmap option_fmap option_map forallb] in *. rewrite Hk, Hv. by apply IH.
Qed.

Section Schema.
Context {Zd : Zod} {ZL : ZodLaws Zd}.

(** The fields of an object that its shape accepts as they are. *)
Definition field_fits (entry : jstr * schema) (f : jstr * option jsval) : Prop :=
  fst entry = fst f /\
  match snd f with
  | Some v => parse (snd entry) v = Some v
  | None => parse (snd entry) J_undefined = Some J_undefined
  end.

Lemma properties_fit all shape fields : NoDup (fields.*1) -> (forall k, k ∈ fields.*1 -> own_property all k = field_value fields k) ->
  Forall2 field_fits shape fields ->
  object_properties (map (fun f => (f.1, parse f.2)) shape) all = Some (present fields).
Proof using.
  intros Hd Hall Hf. revert Hd Hall. induction Hf as [|[k s] [k' f] shape fields [E Hs] Hf IH]; [done|]. cbn [fst snd] in *. subst k'.
  intros Hd Hall. cbn [fmap list_fmap fst] in *. apply list.NoDup_cons in Hd as [Hk Hd]. cbn [map object_properties fst snd]. rewrite Hall by (by left).
  assert (field_value ((k, f) :: fields) k = f) as ->.
  { unfold field_value. cbn [List.find fst]. rewrite bool_decide_eq_true_2 by done. by destruct f. }
  rewrite IH; [|done|].
  - destruct f as [v|]; rewrite Hs; done.
  - intros k' Hk'. rewrite Hall by (by right). unfold field_value. cbn [List.find fst]. rewrite bool_decide_eq_false_2; [done|]. by intros ->.
Qed.

Lemma object_accepted shape fields : NoDup fields.*1 -> Forall2 field_fits shape fields ->
  parse (z_object shape) (J_obj (present fields)) = Some (J_obj (present fields)).
Proof using ZL.
  intros Hd Hf. rewrite zl_object, (properties_fit _ _ fields) by (done || (intros; by apply present_property)). done.
Qed.

Lemma array_accepted {A} (f : A -> jsval) s l : Forall (fun x => parse s (f x) = Some (f x)) l ->
  parse (z_array s) (J_arr (map f l)) = Some (J_arr (map f l)).
Proof using ZL. 
  intros Hl. rewrite zl_array. assert (mapM (parse s) (map f l) = Some (map f l)) as ->; [|done].
  induction Hl as [|x l Hx _ IH]; [done|]. cbn. by rewrite Hx, IH.
Qed.
End Schema.

(** A finished message whose texts loading does not shorten. *)
Definition settled (m : message) : bool :=
  negb (isAssistantMessagePending m)
  && forallb (fun v => bool_decide (collapseRepeatedSectionSnapshots (mv_content v) = mv_content v)
                       && (Z.of_nat (length (mv_content v)) <=? MAX_LOADED_MESSAGE_CHARS)) (m_versions m)
  && match m_reasoning m with Some r => Z.of_nat (length (rs_content r)) <=? MAX_LOADED_MESSAGE_CHARS | None => true end.

Lemma truncate_short text n : Z.of_nat (length text) <=? n = true -> truncateText text n = text.
Proof. intros E. unfold truncateText. by rewrite E. Qed.

Lemma existsb_none {A} (f : A -> bool) l : Forall (fun x => f x = false) l -> existsb f l = false.
Proof. induction 1 as [|x l Hx _ IH]; cbn; [done|]. by rewrite Hx. Qed.

Lemma normalize_settled now m : settled m = true -> normalizeStoredMessageForLoad now m = (m, false).
Proof.
  unfold settled. intros Hs. apply andb_true_split in Hs as [Hs Hr]. apply andb_true_split in Hs as [Hp Hv].
  unfold normalizeStoredMessageForLoad. rewrite (existsb_none _ (m_versions m)).
  - assert (rs_content <$> (truncate_reasoning <$> m_reasoning m) = rs_content <$> m_reasoning m) as ->.
    { destruct (m_reasoning m) as [r|]; [|done]. cbn. unfold truncate_reasoning. by rewrite truncate_short. }
    rewrite bool_decide_eq_true_2 by done. cbn [orb negb]. cbv zeta. by rewrite Hp.
  - apply Forall_elem. intros v Hin. rewrite forallb_forall in Hv. apply list_elem_of_In, Hv in Hin.
    apply andb_true_split in Hin as [Hc Hl]. unfold load_content. pose proof Hc as Ec. apply bool_decide_eq_true in Ec.
    rewrite Ec, truncate_short by done. by rewrite bool_decide_eq_true_2.
Qed.

Definition total_size (ms : list message) : Z := foldr (fun m n => getMessageSize m + n) 0 ms.

Lemma fold_sizes (vs : list message_version) (n : Z) : 0 <= n -> 0 <= fold_left (fun total v => total + Z.of_nat (length (mv_content v))) vs n.
Proof. revert n. induction vs as [|v vs IH]; intros n Hn; cbn; [done|]. apply IH. lia. Qed.

Lemma size_nonneg m : 0 <= getMessageSize m.
Proof. unfold getMessageSize. pose proof (fold_sizes (m_versions m) 0 ltac:(lia)). destruct (m_reasoning m); lia. Qed.

Lemma total_size_app a b : total_size (a ++ b) = total_size a + total_size b.
Proof. unfold total_size. induction a as [|m a IH]; cbn; [done|]. rewrite IH. lia. Qed.

Lemma total_size_rev ms : total_size (rev ms) = total_size ms.
Proof. induction ms as [|m ms IH]; [done|]. cbn [rev]. rewrite total_size_app, IH. unfold total_size. cbn. lia. Qed.

Lemma take_all ms n first : n + total_size ms <= MAX_LOADED_MESSAGES_CHARS -> take_sizes ms n first = ms.
Proof.
  revert n first. induction ms as [|m ms IH]; intros n first Hn; [done|]. cbn [take_sizes]. unfold total_size in Hn. cbn [foldr] in Hn. fold (total_size ms) in Hn.
  assert (0 <= total_size ms) as Hms by (clear; unfold total_size; induction ms as [|x ms IH]; cbn; [done|]; pose proof (size_nonneg x); lia).
  rewrite (proj2 (Z.ltb_ge _ _)), andb_false_r by lia. f_equal. apply IH. lia.
Qed.

Lemma no_pending ms : Forall (fun m => settled m = true) ms -> last_pending ms = None.
Proof.
  induction 1 as [|m ms Hm _ IH]; cbn [last_pending]; [done|]. rewrite IH. unfold settled in Hm. bsplit.
  unfold isPendingAssistantMessage. destruct (isAssistantMessagePending m); [done|]. by rewrite andb_false_r.
Qed.

Lemma legacy_absent (s : store) : (forall base, s !! key_text base = None) -> remove_legacy s = s.
Proof.
  intros Hs. unfold remove_legacy, STORAGE_KEYS. cbn [fold_left]. rewrite (delete_id s (key_text SK_config)) by done.
  rewrite (delete_id s (key_text SK_messages)) by done. by apply delete_id.
Qed.

(** ** The schema of messages *)
Lemma mapM_map {A B} (f : A -> B) (g : B -> option A) l : Forall (fun x => g (f x) = Some x) l -> mapM g (map f l) = Some l.
Proof. induction 1 as [|x l Hx _ IH]; [done|]. cbn. by rewrite Hx, IH. Qed.

Lemma json_num_finite x : json_num x = true -> finite_number x = true.
Proof. unfold json_num. by destruct x; rewrite ?andb_false_r. Qed.

Section MessageSchema.
Context {Zd : Zod} {ZL : ZodLaws Zd} (explicit : message -> jstr -> bool).

Lemma number_accepted x : json_num x = true -> parse z_number (J_num x) = Some (J_num x).
Proof using ZL. intros Hx. by rewrite zl_number, json_num_finite. Qed.

Lemma optional_accepted s v : v <> J_undefined -> parse s v = Some v -> parse (z_optional s) v = Some v.
Proof using ZL. intros Hv Hs. rewrite zl_optional. by destruct v. Qed.

Lemma missing_accepted s : parse (z_optional s) J_undefined = Some J_undefined.
Proof using ZL. by rewrite zl_optional. Qed.

(** A field that is optional in the schema. *)
Lemma optional_fits {A} (f : A -> jsval) key s (x : option A) : (forall y, f y <> J_undefined) ->
  match x with Some y => parse s (f y) = Some (f y) | None => True end -> field_fits (key, z_optional s) (key, f <$> x).
Proof using ZL. intros Hf Hx. split; [done|]. destruct x as [y|]; cbn [fmap option_fmap option_map snd]; [by apply optional_accepted|by apply missing_accepted]. Qed.

Lemma number_fits key x : opt_num x = true -> field_fits (key, z_optional z_number) (key, J_num <$> x).
Proof using ZL. intros Hx. apply optional_fits; [done|]. destruct x; [by apply number_accepted|done]. Qed.

Lemma flag_fits key e value : field_fits (key, z_optional z_boolean) (key, flag_field e value).
Proof using ZL.
  split; [done|]. unfold flag_field. destruct (value || e); cbn [snd]; [|by apply missing_accepted].
  apply optional_accepted; [done|]. by rewrite zl_boolean.
Qed.

Lemma text_fits key s : field_fits (key, z_string) (key, Some (J_str s)).
Proof using ZL. split; [done|]. cbn [snd]. by rewrite zl_string. Qed.

Lemma version_accepted v : parse messageVersionSchema (object_of version_fields v) = Some (object_of version_fields v).
Proof using ZL. apply object_accepted; [by apply (bool_decide_unpack _)|]. repeat constructor; apply text_fits. Qed.

Lemma source_accepted p : parse sourceSchema (object_of source_fields p) = Some (object_of source_fields p).
Proof using ZL. apply object_accepted; [by apply (bool_decide_unpack _)|]. repeat constructor; apply text_fits. Qed.

Lemma reasoning_accepted r : reasoning_ok r = true ->
  parse reasoningSchema (object_of reasoning_fields r) = Some (object_of reasoning_fields r).
Proof using ZL.
  unfold reasoning_ok. intros Hr. do 4 (apply andb_true_split in Hr as [Hr ?]). apply object_accepted; [by apply (bool_decide_unpack _)|].
  repeat apply Forall2_cons; try apply Forall2_nil; try (by apply number_fits); [apply text_fits|].
  split; [done|]. by apply number_accepted.
Qed.

Lemma versions_accepted vs : vs <> [] ->
  parse (z_min 1 (z_array messageVersionSchema)) (J_arr (map (object_of version_fields) vs)) = Some (J_arr (map (object_of version_fields) vs)).
Proof using ZL.
  intros Hvs. rewrite zl_min, array_accepted by (apply Forall_elem; intros; apply version_accepted). by destruct vs.
Qed.

Lemma message_accepted m : message_ok m = true ->
  parse messageSchema (object_of (message_fields explicit) m) = Some (object_of (message_fields explicit) m).
Proof using ZL.
  unfold message_ok. intros Hm. repeat (apply andb_true_split in Hm as [Hm ?]). apply object_accepted; [by apply (bool_decide_unpack _)|].
  repeat apply Forall2_cons; try apply Forall2_nil; try (by apply number_fits); try apply flag_fits; try apply text_fits.
  - split; [done|]. cbn [snd]. unfold messageRoleSchema. rewrite zl_enum. by destruct (m_from m).
  - split; [done|]. apply versions_accepted. by intros E; rewrite E in *.
  - apply optional_fits; [done|]. destruct (m_sources m) as [l|]; [|done]. apply array_accepted, Forall_elem. intros. apply source_accepted.
  - apply optional_fits; [done|]. destruct (m_reasoning m) as [r|]; [|done]. by apply reasoning_accepted.
  - apply optional_fits; [done|]. destruct (m_status m) as [x|]; [|done]. unfold messageStatusSchema. rewrite zl_enum. by destruct x.
  - split; [done|]. destruct (m_errorCode m); try done; cbn [snd]; [by apply missing_accepted|apply optional_accepted; [done|]..];
      rewrite zl_nullable; [done|]. by rewrite zl_string.
Qed.

(** The record is read back from the object. *)
Lemma prop_field fields key : NoDup fields.*1 -> prop (J_obj (present fields)) key = default J_undefined (field_value fields (js key)).
Proof using. intros Hd. unfold prop. by rewrite present_property. Qed.

Lemma optional_read {A} (f : A -> jsval) g (x : option A) : (forall y, f y <> J_undefined) -> (forall y, g (f y) = Some y) ->
  optional_of g (default J_undefined (f <$> x)) = Some x.
Proof using.
  intros Hf Hg. destruct x as [y|]; [|done]. cbn. unfold optional_of. specialize (Hf y). specialize (Hg y). destruct (f y); try done; by rewrite Hg.
Qed.

Lemma number_read (x : option num) : num_of (default J_undefined (J_num <$> x)) = x.
Proof using. by destruct x. Qed.

Lemma flag_read e value : flag_of (default J_undefined (flag_field e value)) = value.
Proof using. by destruct e, value. Qed.

Lemma reasoning_read r : reasoning_of (object_of reasoning_fields r) = Some r.
Proof using.
  unfold reasoning_of, object_of. rewrite !prop_field by (by apply (bool_decide_unpack _)).
  change (Some (Reasoning (rs_content r) (rs_duration r) (num_of (default J_undefined (J_num <$> rs_startedAt r)))
    (num_of (default J_undefined (J_num <$> rs_completedAt r))) (num_of (default J_undefined (J_num <$> rs_durationMs r)))) = Some r).
  rewrite !number_read. by destruct r.
Qed.
End MessageSchema.

Section Reload.
Context {Zd : Zod} {ZL : ZodLaws Zd} (explicit : message -> jstr -> bool).

Lemma texts_read {A} (fields : A -> list (jstr * option jsval)) g l : (forall x, g (object_of fields x) = Some x) ->
  list_of g (J_arr (map (object_of fields) l)) = Some l.
Proof using. intros Hg. apply mapM_map, Forall_elem. intros. apply Hg. Qed.

Lemma message_read m : message_ok m = true -> message_of (object_of (message_fields explicit) m) = Some m.
Proof using.
  intros Hok. unfold message_of, object_of. rewrite !prop_field by (by apply (bool_decide_unpack _)).
  change (field_value (message_fields explicit m) (js "sources")) with ((fun l => J_arr (map (object_of source_fields) l)) <$> m_sources m).
  rewrite (optional_read (fun l => J_arr (map (object_of source_fields) l)))
    by (done || (intros; apply texts_read; by intros [])).
  change (field_value (message_fields explicit m) (js "reasoning")) with (object_of reasoning_fields <$> m_reasoning m).
  rewrite (optional_read (object_of reasoning_fields)) by (done || apply reasoning_read).
  change (field_value (message_fields explicit m) (js "status")) with ((fun s => J_str (status_text s)) <$> m_status m).
  rewrite (optional_read (fun s => J_str (status_text s))) by (done || by intros []).
  change (field_value (message_fields explicit m) (js "versions")) with (Some (J_arr (map (object_of version_fields) (m_versions m)))).
  change (field_value (message_fields explicit m) (js "from")) with (Some (J_str (role_text (m_from m)))).
  cbn [default from_option id]. rewrite texts_read by (by intros []). cbn [str_of mbind option_bind].
  assert (role_of_text (role_text (m_from m)) = Some (m_from m)) as -> by by destruct (m_from m).
  cbn [mbind option_bind].
  change (Some (Message (m_key m) (m_from m) (m_versions m) (num_of (default J_undefined (J_num <$> m_createdAt m)))
    (num_of (default J_undefined (J_num <$> m_startedAt m))) (num_of (default J_undefined (J_num <$> m_completedAt m)))
    (num_of (default J_undefined (J_num <$> m_durationMs m))) (m_sources m) (m_reasoning m)
    (flag_of (default J_undefined (flag_field (explicit m (js "isReasoningStreaming")) (m_isReasoningStreaming m))))
    (flag_of (default J_undefined (flag_field (explicit m (js "isReasoningComplete")) (m_isReasoningComplete m))))
    (flag_of (default J_undefined (flag_field (explicit m (js "isContentComplete")) (m_isContentComplete m)))) (m_status m)
    (default J_undefined (match m_errorCode m with J_undefined => None | v => Some v end))) = Some m).
  rewrite !number_read, !flag_read. by destruct m as [? ? ? ? ? ? ? ? ? ? ? ? ? []].
Qed.

Lemma number_json key x : opt_num x = true -> match snd (key : jstr, J_num <$> x) with Some v => json_ok v = true | None => True end.
Proof using. by destruct x. Qed.

Lemma flag_json key e value : match snd (key : jstr, flag_field e value) with Some v => json_ok v = true | None => True end.
Proof using. by destruct e, value. Qed.

Ltac object_fields := apply fields_json; [vm_compute; reflexivity..|];
  repeat apply list.Forall_cons_2; try apply List.Forall_nil; try (by apply number_json); try apply flag_json.

Lemma objects_json {A} (fields : A -> list (jstr * option jsval)) l :
  Forall (fun x => json_ok (object_of fields x) = true) l -> json_ok (J_arr (map (object_of fields) l)) = true.
Proof using. intros Hl. change (forallb json_ok (map (object_of fields) l) = true). induction Hl as [|x l Hx _ IH]; [done|]. cbn [map forallb]. by rewrite Hx. Qed.

Lemma pair_json (p : jstr * jstr) : units (fst p) && units (snd p) = true -> json_ok (object_of source_fields p) = true.
Proof using. intros Hp. apply andb_true_split in Hp as [H1 H2]. unfold object_of. object_fields; done. Qed.

Lemma version_json v : units (mv_id v) && units (mv_content v) = true -> json_ok (object_of version_fields v) = true.
Proof using. intros Hp. apply andb_true_split in Hp as [H1 H2]. unfold object_of. object_fields; done. Qed.

Lemma reasoning_json r : reasoning_ok r = true -> json_ok (object_of reasoning_fields r) = true.
Proof using. unfold reasoning_ok. intros Hr. do 4 (apply andb_true_split in Hr as [Hr ?]). unfold object_of. object_fields; done. Qed.

Lemma forallb_impl {A} (f : A -> bool) (P : A -> Prop) l : (forall x, f x = true -> P x) -> forallb f l = true -> Forall P l.
Proof using. intros Hf Hl. apply Forall_elem. intros x Hx. rewrite forallb_forall in Hl. by apply Hf, Hl, list_elem_of_In. Qed.

Lemma message_json m : message_ok m = true -> json_ok (object_of (message_fields explicit) m) = true.
Proof using.
  unfold message_ok. intros Hm. repeat (apply andb_true_split in Hm as [Hm ?]). unfold object_of. object_fields; cbn [snd].
  - done.
  - by destruct (m_from m).
  - by eapply objects_json, forallb_impl; [apply version_json|].
  - destruct (m_sources m) as [l|]; [|done]. by eapply objects_json, forallb_impl; [apply pair_json|].
  - destruct (m_reasoning m) as [r|]; [|done]. by apply reasoning_json.
  - by destruct (m_status m) as [[]|].
  - by destruct (m_errorCode m).
Qed.

#[local] Hint Extern 0 Schemas => exact (storage_schemas explicit) : typeclass_instances.

Definition stored_text (ms : list message) : jstr :=
  json_text (J_obj [(js "version", J_num STORAGE_VERSION); (js "data", messages_value ms)]).

Lemma messages_accepted ms : Forall (fun m => message_ok m = true) ms -> messagesSchema (messages_value ms) = Some ms.
Proof using ZL.
  intros Hms. cbn [messagesSchema messages_value storage_schemas]. unfold messages_schema. rewrite array_accepted.
  - cbn [mbind option_bind list_of]. apply mapM_map. revert Hms. apply Forall_impl. apply message_read.
  - revert Hms. apply Forall_impl. intros m Hm. by apply message_accepted.
Qed.

Lemma stored_text_value ms : Forall (fun m => message_ok m = true) ms ->
  json_parse (stored_text ms) = Some (J_obj [(js "version", J_num STORAGE_VERSION); (js "data", messages_value ms)]).
Proof using.
  intros Hok. apply json_text_roundtrip. change (true && (true && (forallb (fun c => (0 <=? c) && (c <? 65536)) (js "data") && json_ok (messages_value ms) && true)) = true).
  assert (json_ok (messages_value ms) = true) as ->; [|done]. apply objects_json. revert Hok. apply Forall_impl. apply message_json.
Qed.

Lemma saves_text fits id ms s : Forall (fun m => message_ok m = true) ms -> (length ms <= MAX_STORED_MESSAGES)%nat ->
  fits (<[owner_key SK_messages id := stored_text ms]> (remove_legacy s)) = true ->
  saveMessages fits (Some id) ms s = <[owner_key SK_messages id := stored_text ms]> (remove_legacy s).
Proof using ZL.
  intros Hok Hn Hf. unfold saveMessages, trimMessages. rewrite (proj2 (Nat.leb_le _ _)) by done. rewrite messages_accepted by done.
  unfold write_logged, writeStoredValue. cbn [getUserStorageKey user_key fmap option_fmap option_map].
  fold (owner_key SK_messages id) (stored_text ms). unfold setItem. by rewrite Hf.
Qed.

(** C22: what is saved in the playground is what is loaded.  Messages of code
    units and finite numbers, with at least one version and an error code that is a
    text, null or missing, pass the schemas of [storage-schema.ts] with every
    field kept, whether an unset flag is false or missing; if they are finished
    and within the limits of loading (number, characters, stored text, and no text
    that loading would collapse), then, once the browser has accepted them, they
    are loaded as they were saved, and loading them leaves the stored data as they
    are.  Of zod only the documented laws are used. *)
Theorem saved_messages_reload fits now t id ms s : valid_id id = true ->
  Forall (fun m => message_ok m = true) ms -> Forall (fun m => settled m = true) ms ->
  (length ms <= MAX_STORED_MESSAGES)%nat -> total_size ms <= MAX_LOADED_MESSAGES_CHARS ->
  Z.of_nat (length (stored_text ms)) <= MAX_STORED_MESSAGES_BYTES ->
  fits (<[owner_key SK_messages id := stored_text ms]> (remove_legacy s)) = true ->
  let s' := saveMessages fits (Some id) ms s in loadMessages fits (Some id) now t s' = (Some ms, s').
Proof using ZL.
  intros Hid Hok Hset Hn Hsize Htext Hfits s'. set (key := owner_key SK_messages id) in *.
  assert (trimMessages ms = ms) as Htrim by (unfold trimMessages; by rewrite (proj2 (Nat.leb_le _ _))).
  unfold s'. rewrite saves_text by done. fold key. set (s1 := <[key := stored_text ms]> (remove_legacy s)).
  assert (remove_legacy s1 = s1) as Hleg.
  { apply legacy_absent. intros base. unfold s1. rewrite lookup_insert_ne by (apply owner_key_owned). apply legacy_removed. }
  assert (readStoredMessagesValue (Some id) s1
    = (Some (Some (J_obj [(js "version", J_num STORAGE_VERSION); (js "data", messages_value ms)])), s1)) as Hread.
  { unfold readStoredMessagesValue. cbn [getUserStorageKey user_key fmap option_fmap option_map]. fold (owner_key SK_messages id). fold key. rewrite Hleg.
    assert (s1 !! key = Some (stored_text ms)) as -> by (unfold s1; apply lookup_insert_eq).
    pose proof (stored_text_value ms Hok) as Hv. destruct (stored_text ms) as [|c text]; [done|].
    rewrite (proj2 (Z.ltb_ge _ _)) by done. by rewrite Hv. }
  unfold loadMessages. rewrite Hread. cbn [truthy_value negb].
  change (unwrapStoredValue (J_obj [(js "version", J_num STORAGE_VERSION); (js "data", messages_value ms)])) with (messages_value ms).
  rewrite messages_accepted by done.
  assert (map (fun m => fst (normalizeStoredMessageForLoad now m)) ms = ms) as ->.
  { clear -Hset. induction Hset as [|m ms Hm _ IH]; [done|]. cbn [map]. by rewrite (normalize_settled now m Hm), IH. }
  assert (trimMessagesByContentSize ms = ms) as Hbysize.
  { unfold trimMessagesByContentSize. rewrite take_all, rev_involutive; [done|]. rewrite total_size_rev. lia. }
  rewrite Htrim, Hbysize. unfold sanitizeMessagesOnLoad. rewrite no_pending by done. unfold size_trimmed_is_new. rewrite !orb_true_r. cbn [orb].
  f_equal. rewrite saves_text; rewrite ?Hleg; try done; fold key; unfold s1; by rewrite insert_insert_eq.
Qed.
End Reload.

(** ** A concrete zod *)
#[local] Instance checks : Zod := {|
  schema := jsval -> option jsval;
  parse s := s;
  z_string v := match v with J_str _ => Some v | _ => None end;
  z_number v := match v with J_num x => if finite_number x then Some v else None | _ => None end;
  z_boolean v := match v with J_bool _ => Some v | _ => None end;
  z_enum values v := match v with J_str s => if bool_decide (s ∈ values) then Some v else None | _ => None end;
  z_array s v := match v with J_arr l => J_arr <$> mapM s l | _ => None end;
  z_min n s v := match s v with Some (J_arr l) => if (length l <? n)%nat then None else Some (J_arr l) | r => r end;
  z_optional s v := match v with J_undefined => Some J_undefined | _ => s v end;
  z_nullable s v := match v with J_null => Some J_null | _ => s v end;
  z_object shape v := match v with J_obj props => J_obj <$> object_properties shape props | _ => None end;
|}.

#[local] Instance checks_laws : ZodLaws checks.
Proof.
  split; try done. intros shape v. cbn. rewrite (map_ext _ id) by (by intros []). by rewrite map_id.
Qed.

#[local] Hint Extern 0 Schemas => exact (storage_schemas (fun _ _ => false)) : typeclass_instances.

Definition sample_messages : list message :=
  [createUserMessage (js "k1") (js "v1") (js "Hello") (n_of_Z 1000);
   with_status M_complete (updateCurrentVersionContent (createLoadingAssistantMessage (js "k2") (js "v2") (n_of_Z 1001)) (js "Hi."))].

Lemma saved_messages_reload_witness :
  let s' := saveMessages (fun _ => true) (Some n_one) sample_messages ∅ in
  loadMessages (fun _ => true) (Some n_one) n_zero id s' = (Some sample_messages, s').
Proof.
  apply (saved_messages_reload (fun _ _ => false) (fun _ => true) n_zero id n_one sample_messages ∅); try (vm_compute; first [reflexivity|discriminate]).
  - apply (bool_decide_unpack _). vm_compute. exact I.
  - apply (bool_decide_unpack _). vm_compute. exact I.
  - vm_compute. lia.
Defined.

Lemma playground_data_private_witness :
  let others := [(Some (n_of_Z 2), Op_saveMessages []); (None, Op_clear); (Some (n_of_Z 2), Op_clear)] in
  let s := saveMessages (fun _ => true) (Some n_one) sample_messages ∅ in
  let s' := fold_left (fun s p => run_op (fun _ => true) n_zero id (fst p) (snd p) s) others s in
  fst (loadMessages (fun _ => true) (Some n_one) n_zero id s') = fst (loadMessages (fun _ => true) (Some n_one) n_zero id s).
Proof.
  intros others s s'.
  refine (proj1 (proj2 (playground_data_private (fun _ => true) n_zero id n_one others s _ _))); [vm_compute; reflexivity|].
  repeat constructor; vm_compute; congruence.
Defined.

(** ** What loading does not keep

    A long text that repeats a numbered heading three times loses everything
    before a last repetition; since the rest may repeat another heading three
    times, loading it once more shortens it again. *)
Definition long_line : jstr := replicate 700 120 ++ [10].
Definition repeating_text : jstr :=
  let section h := js h ++ [10] ++ long_line in
  mjoin [section "## 1. Alpha"; section "## 1. Alpha"; section "## 1. Alpha";
         section "## 2. Beta"; section "## 2. Beta"; section "## 2. Beta"].

Example loading_shortens_twice :
  let once := collapseRepeatedSectionSnapshots repeating_text in
  let twice := collapseRepeatedSectionSnapshots once in
  (length repeating_text, length once, length twice) = (4275, 2849, 712)%nat.
Proof. vm_compute. reflexivity. Qed.
