(* ===== verification/CustomRoutes.v ===== *)
(** * Routes of advanced custom channels

    [features/channels/lib/advanced-custom.ts]: the routes by which a channel
    forwards requests, their templates and defaults, normal form, validation and
    editing.  The parser behind [new URL] is an argument. *)
From stdpp Require Import strings.
From S2P Require Import Prelude JsString JsValue AuthSession.

#[local] Open Scope Z_scope.

(** ** Data *)
Record route_auth := RouteAuth {
  ra_type : option jstr;
  ra_name : option jstr;
  ra_value : option jstr
}.

Record route := Route {
  rt_incoming_path : option jstr;
  rt_upstream_path : option jstr;
  rt_converter : option jstr;
  rt_models : option (list jstr);
  rt_auth : option route_auth;
  rt_pass_through : option bool
}.

Record routes_config := RoutesConfig { advanced_routes : option (list route) }.

(** [value || fallback] of an optional string *)
Definition or_default (v : option jstr) (fallback : jstr) : jstr :=
  match v with Some (c :: s) => c :: s | _ => fallback end.

Definition MODEL_LIST_PATH : jstr := js "/v1/models".
Definition BALANCE_PATH : jstr := js "/v1/dashboard/billing/credit_grants".
Definition MODEL_LIST_LABEL : jstr := js "OpenAI Models".
Definition BALANCE_LABEL : jstr := js "Balance Query".

Definition openAIChatPath : jstr := js "/v1/chat/completions".
Definition openAIResponsesPath : jstr := js "/v1/responses".
Definition claudeMessagesPath : jstr := js "/v1/messages".
Definition geminiGenerateContentPath : jstr := js "/v1beta/models/{model}:generateContent".

(** Value, label and trigger label of the converters. *)
Definition CONVERTER_OPTIONS : list (jstr * jstr * jstr) :=
  [(js "none", js "Native forwarding", js "Native forwarding");
   (js "anthropic_messages_to_openai_chat_completions", js "Anthropic Messages to OpenAI Chat",
    js "To OpenAI Chat");
   (js "claude_messages_to_openai_responses", js "Anthropic Messages to OpenAI Responses",
    js "To OpenAI Responses");
   (js "openai_chat_completions_to_anthropic_messages", js "OpenAI Chat to Anthropic Messages",
    js "To Anthropic Messages");
   (js "openai_chat_completions_to_openai_responses", js "OpenAI Chat to OpenAI Responses",
    js "To OpenAI Responses");
   (js "openai_responses_to_openai_chat_completions", js "OpenAI Responses to OpenAI Chat",
    js "To OpenAI Chat");
   (js "openai_responses_to_gemini_generate_content", js "OpenAI Responses to Gemini Generate Content",
    js "To Gemini Generate Content");
   (js "gemini_generate_content_to_openai_chat_completions", js "Gemini Generate Content to OpenAI Chat",
    js "To OpenAI Chat");
   (js "gemini_generate_content_to_openai_responses", js "Gemini Generate Content to OpenAI Responses",
    js "To OpenAI Responses");
   (js "openai_chat_completions_to_gemini_generate_content", js "OpenAI Chat to Gemini Generate Content",
    js "To Gemini Generate Content")].

(** Value and label of the incoming paths. *)
Definition INCOMING_PATH_OPTIONS : list (jstr * jstr) :=
  [(js "/v1/chat/completions", js "OpenAI Chat");
   (js "/v1/responses", js "OpenAI Responses");
   (js "/v1/responses/compact", js "OpenAI Responses Compact");
   (js "/v1/alpha/search", js "Codex Alpha Search");
   (js "/v1/embeddings", js "OpenAI Embeddings");
   (js "/v1/images/generations", js "OpenAI Image Generations");
   (js "/v1/images/edits", js "OpenAI Image Edits");
   (js "/v1/completions", js "OpenAI Completions");
   (js "/v1/audio/speech", js "OpenAI Audio Speech");
   (js "/v1/audio/transcriptions", js "OpenAI Audio Transcriptions");
   (js "/v1/audio/translations", js "OpenAI Audio Translations");
   (js "/v1/rerank", js "Rerank");
   (js "/v1/realtime", js "OpenAI Realtime");
   (js "/v1/messages", js "Claude Messages");
   (js "/v1beta/models/{model}:generateContent", js "Gemini Generate Content");
   (js "/v1beta/models/{model}:embedContent", js "Gemini Embed Content");
   (js "/v1beta/models/{model}:batchEmbedContents", js "Gemini Batch Embed Contents")].

Definition bearerHeaderAuth : route_auth :=
  RouteAuth (Some (js "header")) (Some (js "Authorization")) (Some (js "Bearer {api_key}")).
Definition apiKeyHeaderAuth : route_auth :=
  RouteAuth (Some (js "header")) (Some (js "x-api-key")) (Some (js "{api_key}")).
Definition geminiQueryAuth : route_auth :=
  RouteAuth (Some (js "query")) (Some (js "key")) (Some (js "{api_key}")).

(** ** Templates *)
Definition native_route (auth : route_auth) (path : jstr) : route :=
  Route (Some path) (Some path) (Some (js "none")) None (Some auth) None.

Definition createOpenAINativeRoutes : list route :=
  map (native_route bearerHeaderAuth)
    [js "/v1/chat/completions"; js "/v1/completions"; js "/v1/responses"; js "/v1/responses/compact";
     js "/v1/embeddings"; js "/v1/images/generations"; js "/v1/images/edits"; js "/v1/audio/speech";
     js "/v1/audio/transcriptions"; js "/v1/audio/translations"; js "/v1/realtime"].

Definition createClaudeNativeRoutes : list route :=
  [native_route apiKeyHeaderAuth (js "/v1/messages")].

Definition createGeminiNativeRoutes : list route :=
  map (native_route geminiQueryAuth)
    [js "/v1beta/models/{model}:generateContent"; js "/v1beta/models/{model}:embedContent";
     js "/v1beta/models/{model}:batchEmbedContents"].

Definition createGatewayNativeRoutes : list route :=
  map (native_route bearerHeaderAuth) [js "/v1/alpha/search"; js "/v1/rerank"].

Definition TEMPLATE_OPTIONS : list (jstr * jstr * routes_config) :=
  [(js "all_protocols", js "All routes",
    RoutesConfig (Some (createOpenAINativeRoutes ++ createClaudeNativeRoutes
                        ++ createGeminiNativeRoutes ++ createGatewayNativeRoutes)));
   (js "openai_only", js "OpenAI only", RoutesConfig (Some createOpenAINativeRoutes));
   (js "claude_only", js "Claude only", RoutesConfig (Some createClaudeNativeRoutes));
   (js "gemini_only", js "Gemini only", RoutesConfig (Some createGeminiNativeRoutes))].

Definition getTemplateConfig (templateKey : jstr) : routes_config :=
  match List.find (fun o => bool_decide (o.1.1 = templateKey)) TEMPLATE_OPTIONS with
  | Some o => o.2
  | None => RoutesConfig (Some (createOpenAINativeRoutes ++ createClaudeNativeRoutes
                                ++ createGeminiNativeRoutes ++ createGatewayNativeRoutes))
  end.

(** ** Normal form *)
Definition getRouteUpstreamPath (r : route) : jstr := trim (default [] (rt_upstream_path r)).

Definition normalizeRouteModels (models : option (list jstr)) : list jstr :=
  List.filter non_empty (map trim (default [] models)).

Definition normalizeRoute (r : route) : route :=
  Route (Some (default [] (rt_incoming_path r))) (Some (getRouteUpstreamPath r))
    (Some (or_default (rt_converter r) (js "none")))
    (match normalizeRouteModels (rt_models r) with [] => None | models => Some models end)
    ((fun a => RouteAuth (ra_type a) (Some (default [] (ra_name a))) (Some (default [] (ra_value a))))
       <$> rt_auth r)
    (match rt_pass_through r with Some true => Some true | _ => None end).

(** The routes of [normalizeAdvancedCustomConfig]. *)
Definition normalizeConfig (config : routes_config) : list route :=
  match advanced_routes config with
  | Some routes => map normalizeRoute routes
  | None => []
  end.

(** [route.incoming_path?.trim() || ''] *)
Definition incoming (r : route) : jstr := trim (default [] (rt_incoming_path r)).

(** ** Editing *)
Definition isManagementPath (path : jstr) : bool :=
  bool_decide (path = MODEL_LIST_PATH) || bool_decide (path = BALANCE_PATH).

Definition getManagementRoute (config : routes_config) (path : jstr) : option route :=
  List.find (fun r => bool_decide (incoming r = path)) (normalizeConfig config).

Definition managementRoute (path : jstr) (r : route) : route :=
  Route (Some path) (Some (default [] (rt_upstream_path r))) (Some (js "none")) (Some []) (rt_auth r) None.

Definition replaceManagementRoute (config : routes_config) (path : jstr) (r : option route)
    : routes_config :=
  let routes := normalizeConfig config in
  let index := fst <$> list_find (fun candidate => incoming candidate = path) routes in
  RoutesConfig (Some
    match r, index with
    | None, Some i => delete i routes
    | None, None => routes
    | Some r, Some i => <[i := managementRoute path r]> routes
    | Some r, None => routes ++ [managementRoute path r]
    end).

Definition is_management (r : route) : bool := isManagementPath (incoming r).

Definition replaceForwardingRoutes (config : routes_config) (forwardingRoutes : list route)
    : routes_config :=
  let routes := normalizeConfig config in
  RoutesConfig (Some
    match fst <$> list_find (fun r => is_management r = false) routes with
    | None => List.filter is_management routes ++ forwardingRoutes
    | Some i => List.filter is_management (take i routes) ++ forwardingRoutes
                ++ List.filter is_management (drop i routes)
    end).

Definition createRoute : route :=
  Route (Some openAIChatPath) (Some openAIChatPath) (Some (js "none")) None None None.

Definition createConfig : routes_config := RoutesConfig (Some [createRoute]).

Definition createManagementRoute (path : jstr) : route :=
  Route (Some path) (Some path) (Some (js "none")) (Some []) None None.

(** ** Converters *)
Definition one_of (v : jstr) (l : list string) : bool := existsb (fun s => bool_decide (v = js s)) l.

Definition isConverterPathAllowed (incomingPath converter : jstr) : bool :=
  if one_of converter ["none"] then true
  else if bool_decide (incomingPath = js "/v1/alpha/search") then false
  else if one_of converter ["anthropic_messages_to_openai_chat_completions";
                            "claude_messages_to_openai_responses"]
  then bool_decide (incomingPath = js "/v1/messages")
  else if one_of converter ["openai_chat_completions_to_anthropic_messages";
                            "openai_chat_completions_to_openai_responses";
                            "openai_chat_completions_to_gemini_generate_content"]
  then bool_decide (incomingPath = js "/v1/chat/completions")
  else if one_of converter ["openai_responses_to_openai_chat_completions"]
  then bool_decide (incomingPath = js "/v1/responses")
  else if one_of converter ["openai_responses_to_gemini_generate_content"]
  then bool_decide (incomingPath = js "/v1/responses")
  else includes (js ":generateContent") incomingPath
       || includes (js ":streamGenerateContent") incomingPath.

Definition getIncomingPathOptions (converter : jstr) : list (jstr * jstr) :=
  List.filter (fun o => isConverterPathAllowed o.1 converter) INCOMING_PATH_OPTIONS.

Definition getDefaultIncomingPath (converter : jstr) : jstr :=
  match getIncomingPathOptions converter with
  | (c :: value, _) :: _ => c :: value
  | _ => js "/v1/chat/completions"
  end.

Definition isPassThroughAllowed (converter : jstr) : bool := bool_decide (converter = js "none").

Definition getConverterOptions (incomingPath : jstr) : list (jstr * jstr * jstr) :=
  List.filter (fun o => bool_decide (o.1.1 = js "none")
                        || isConverterPathAllowed (trim incomingPath) o.1.1) CONVERTER_OPTIONS.

Definition getIncomingPathLabel (value : jstr) : jstr :=
  match List.find (fun o => bool_decide (o.1 = value)) INCOMING_PATH_OPTIONS with
  | Some (_, c :: label) => c :: label
  | _ => value
  end.

Definition getNativeAuth (incomingPath : jstr) : route_auth :=
  if bool_decide (incomingPath = claudeMessagesPath) then apiKeyHeaderAuth
  else if includes (js ":generateContent") incomingPath
          || includes (js ":streamGenerateContent") incomingPath
          || includes (js ":embedContent") incomingPath
          || includes (js ":batchEmbedContents") incomingPath
  then geminiQueryAuth
  else bearerHeaderAuth.

Definition getConverterDefaults (converter incomingPath : jstr) : jstr * route_auth :=
  let normalizedIncomingPath := or_default (Some (trim incomingPath)) (getDefaultIncomingPath converter) in
  if one_of converter ["none"] then (normalizedIncomingPath, getNativeAuth normalizedIncomingPath)
  else if one_of converter ["anthropic_messages_to_openai_chat_completions";
                            "gemini_generate_content_to_openai_chat_completions";
                            "openai_responses_to_openai_chat_completions"]
  then (openAIChatPath, bearerHeaderAuth)
  else if one_of converter ["openai_chat_completions_to_openai_responses";
                            "claude_messages_to_openai_responses";
                            "gemini_generate_content_to_openai_responses"]
  then (openAIResponsesPath, bearerHeaderAuth)
  else if one_of converter ["openai_chat_completions_to_anthropic_messages"]
  then (claudeMessagesPath, apiKeyHeaderAuth)
  else if one_of converter ["openai_chat_completions_to_gemini_generate_content";
                            "openai_responses_to_gemini_generate_content"]
  then (geminiGenerateContentPath, geminiQueryAuth)
  else (or_default (Some normalizedIncomingPath) openAIChatPath, getNativeAuth normalizedIncomingPath).

Definition getUpstreamPathPlaceholder (converter : jstr) (incomingPath : option jstr) : jstr :=
  (getConverterDefaults converter (default (getDefaultIncomingPath converter) incomingPath)).1.

Definition getAuthMode (r : route) : jstr :=
  match rt_auth r with Some a => or_default (ra_type a) (js "default") | None => js "default" end.

Definition buildAuth (mode : jstr) (previousAuth : option route_auth) : option route_auth :=
  let name := mbind ra_name previousAuth in
  let value := mbind ra_value previousAuth in
  if one_of mode ["default"] then None
  else if one_of mode ["none"] then Some (RouteAuth (Some (js "none")) None None)
  else if one_of mode ["header"] then
    Some (RouteAuth (Some (js "header")) (Some (or_default name (js "Authorization")))
            (Some (or_default value (js "Bearer {api_key}"))))
  else
    Some (RouteAuth (Some (js "query")) (Some (or_default name (js "api_key")))
            (Some (or_default value (js "{api_key}")))).

(** ** Validation *)
Section Validation.
Context (parse_url : jstr -> option (jstr * jstr)).

(** [isFullHttpURLOrAbsolutePath]; the parser answers with the host and the
    protocol of a URL. *)
Definition isFullHttpURLOrAbsolutePath (value : jstr) : bool :=
  if starts_with (js "/") value then negb (starts_with (js "//") value)
  else match parse_url value with
       | Some (host, protocol) =>
           non_empty host
           && (bool_decide (protocol = js "http:") || bool_decide (protocol = js "https:"))
       | None => false
       end.

Definition isConverter (value : jstr) : bool :=
  existsb (fun o => bool_decide (o.1.1 = value)) CONVERTER_OPTIONS.

Definition validateRouteAuth (auth : option route_auth) : option jstr :=
  match auth with
  | None => None
  | Some a =>
      if bool_decide (ra_type a = Some (js "none")) then None
      else if negb (bool_decide (ra_type a = Some (js "header")))
              && negb (bool_decide (ra_type a = Some (js "query")))
      then Some (js "Auth type is invalid")
      else if negb (non_empty (trim (default [] (ra_name a)))) then Some (js "Auth name is required")
      else if negb (non_empty (trim (default [] (ra_value a)))) then Some (js "Auth value is required")
      else None
  end.

(** [getAdvancedCustomModelRuleKind(rule) === 'regex'] with an empty pattern *)
Definition REGEX_PREFIX : jstr := js "re:".
Definition is_regex_rule (rule : jstr) : bool := starts_with REGEX_PREFIX rule.
Definition getRegexModelPattern (rule : jstr) : jstr := drop (length REGEX_PREFIX) rule.
Definition empty_regex (rule : jstr) : bool :=
  is_regex_rule rule && bool_decide (getRegexModelPattern rule = []).

(** The rules seen for one incoming path. *)
Record path_rules := PathRules { pr_catchAll : option nat; pr_models : gmap jstr nat }.

Fixpoint check_models (routeIndex : nat) (models : list jstr) (seenInRoute : gset jstr)
    (rules : path_rules) : jstr + path_rules :=
  match models with
  | [] => inr rules
  | model :: models =>
      if empty_regex model then inl (js "Model regex cannot be empty")
      else if bool_decide (model ∈ seenInRoute) then inl (js "Duplicate model in route models")
      else if bool_decide (is_Some (pr_models rules !! model))
      then inl (js "Route models must be unique for the same incoming path")
      else check_models routeIndex models ({[model]} ∪ seenInRoute)
             (PathRules (pr_catchAll rules) (<[model := routeIndex]> (pr_models rules)))
  end.

Definition validateRouteModels (routeIndex : nat) (models : list jstr) (rules : path_rules)
    : jstr + path_rules :=
  match models, pr_catchAll rules with
  | [], Some _ => inl (js "Only one catch-all route is allowed for the same incoming path")
  | [], None => inr (PathRules (Some routeIndex) (pr_models rules))
  | _, Some _ => inl (js "Catch-all route must be last for the same incoming path")
  | models, None => check_models routeIndex models ∅ rules
  end.

Record validation := Validation {
  va_byPath : gmap jstr path_rules;
  va_modelList : option nat;
  va_balance : option nat
}.

Definition no_rules : path_rules := PathRules None ∅.

(** The checks of a management route; a route that is not one passes. *)
Definition check_management (index : nat) (r : route) (v : validation) : jstr + validation :=
  let isModelListRoute := bool_decide (incoming r = MODEL_LIST_PATH) in
  let label := if isModelListRoute then js "OpenAI Models" else js "Balance Query" in
  if isManagementPath (incoming r) then
    if bool_decide (is_Some (if isModelListRoute then va_modelList v else va_balance v))
    then inl (js "Only one " ++ label ++ js " route is allowed")
    else if negb (length (normalizeRouteModels (rt_models r)) =? 0)%nat
    then inl (label ++ js " route does not support client model rules")
    else if negb (bool_decide (or_default (rt_converter r) (js "none") = js "none"))
    then inl (label ++ js " route must use native forwarding")
    else if includes (js "{model}") (getRouteUpstreamPath r)
    then inl (label ++ js " upstream path must not contain {model}")
    else if default false (rt_pass_through r)
    then inl (label ++ js " route does not support pass-through")
    else inr (if isModelListRoute then Validation (va_byPath v) (Some index) (va_balance v)
              else Validation (va_byPath v) (va_modelList v) (Some index))
  else inr v.

(** The checks of a route after those of its rules. *)
Definition check_target (r : route) : option jstr :=
  let converter := or_default (rt_converter r) (js "none") in
  if negb (non_empty (getRouteUpstreamPath r)) then Some (js "Upstream path is required")
  else if negb (isFullHttpURLOrAbsolutePath (getRouteUpstreamPath r))
  then Some (js "Upstream path must be a full URL or a path starting with /")
  else if negb (isConverter converter) then Some (js "Converter is not registered")
  else if negb (isConverterPathAllowed (incoming r) converter)
  then Some (js "Converter does not match incoming path")
  else if default false (rt_pass_through r) && negb (isPassThroughAllowed converter)
  then Some (js "Pass-through requires native forwarding")
  else validateRouteAuth (rt_auth r).

(** One round of the loop. *)
Definition validate_route (index : nat) (r : route) (v : validation) : jstr + validation :=
  if negb (non_empty (incoming r)) then inl (js "Incoming path is required")
  else if negb (starts_with (js "/") (incoming r)) then inl (js "Incoming path must start with /")
  else if includes (js "?") (incoming r) then inl (js "Incoming path must not include query")
  else
    match check_management index r v with
    | inl e => inl e
    | inr v =>
        match validateRouteModels index (normalizeRouteModels (rt_models r))
                (default no_rules (va_byPath v !! incoming r)) with
        | inl e => inl e
        | inr rules =>
            match check_target r with
            | Some e => inl e
            | None => inr (Validation (<[incoming r := rules]> (va_byPath v)) (va_modelList v)
                             (va_balance v))
            end
        end
    end.

(** The loop from a position on: the first error with its position. *)
Fixpoint validate_routes (index : nat) (routes : list route) (v : validation) : option (nat * jstr) :=
  match routes with
  | [] => None
  | r :: routes =>
      match validate_route index r v with
      | inl e => Some (index, e)
      | inr v => validate_routes (S index) routes v
      end
  end.

Definition no_validation : validation := Validation ∅ None None.

Definition validateConfig (config : option routes_config) : option (option nat * jstr) :=
  match config with
  | None => Some (None, js "Advanced custom configuration is required")
  | Some config =>
      match normalizeConfig config with
      | [] => Some (None, js "Advanced custom configuration requires at least one route")
      | routes => prod_map Some id <$> validate_routes 0 routes no_validation
      end
  end.

Definition hasValidModelListRoute (config : option routes_config) : bool :=
  match config with
  | None => false
  | Some c =>
      match validateConfig config with
      | Some _ => false
      | None => existsb (fun r => bool_decide (incoming r = MODEL_LIST_PATH)) (normalizeConfig c)
      end
  end.

Definition usesRelativeUpstreamPath (config : option routes_config) : bool :=
  match config with
  | None => false
  | Some c => existsb (fun r => starts_with (js "/") (getRouteUpstreamPath r)) (normalizeConfig c)
  end.

End Validation.
