(* ===== verification/CustomRoutesFacts.v ===== *)
(** * What validated and edited routes guarantee

    The validation accepts exactly the lists of routes in which every route is
    acceptable after the routes before it, and reports the first that is not; the
    templates and the defaults of the converters are acceptable; and the editors of
    management and of forwarding routes do not touch each other's routes. *)
From stdpp Require Import strings.
From S2P Require Import Prelude JsString JsValue AuthSession Structure CustomRoutes.

#[local] Open Scope Z_scope.

(** ** Acceptable routes *)
Definition models_of (r : route) : list jstr := normalizeRouteModels (rt_models r).
Definition converter_of (r : route) : jstr := or_default (rt_converter r) (js "none").

Section Validation.
Context (parse_url : jstr -> option (jstr * jstr)).

Record path_acceptable (r : route) : Prop := {
  path_starts : starts_with (js "/") (incoming r) = true;
  path_no_query : includes (js "?") (incoming r) = false
}.

(** A management route: one per path, native, for no particular model. *)
Record management_acceptable (before : list route) (r : route) : Prop := {
  management_unique : forall q, q ∈ before -> incoming q <> incoming r;
  management_models : models_of r = [];
  management_native : converter_of r = js "none";
  management_upstream : includes (js "{model}") (getRouteUpstreamPath r) = false;
  management_body : rt_pass_through r <> Some true
}.

(** The rules of a route: no route for all models comes earlier on the path, and
    no rule is empty, repeated, or taken by an earlier route of the path. *)
Record rules_acceptable (before : list route) (r : route) : Prop := {
  rules_reachable q : q ∈ before -> incoming q = incoming r -> models_of q <> [];
  rules_distinct : NoDup (models_of r);
  rules_regex x : x ∈ models_of r -> empty_regex x = false;
  rules_disjoint q x : q ∈ before -> incoming q = incoming r -> x ∈ models_of q -> x ∉ models_of r
}.

Record target_acceptable (r : route) : Prop := {
  target_upstream : isFullHttpURLOrAbsolutePath parse_url (getRouteUpstreamPath r) = true;
  target_upstream_given : getRouteUpstreamPath r <> [];
  target_converter : isConverter (converter_of r) = true;
  target_path : isConverterPathAllowed (incoming r) (converter_of r) = true;
  target_body : rt_pass_through r = Some true -> converter_of r = js "none";
  target_auth : validateRouteAuth (rt_auth r) = None
}.

Record acceptable (before : list route) (r : route) : Prop := {
  acc_path : path_acceptable r;
  acc_management : isManagementPath (incoming r) = true -> management_acceptable before r;
  acc_rules : rules_acceptable before r;
  acc_target : target_acceptable r
}.

(** ** The checks of one route *)
Lemma check_target_none r : check_target parse_url r = None <-> target_acceptable r.
Proof.
  unfold check_target. fold (converter_of r). split.
  - intros H. repeat (case_match; [done|]). bsplit. split; try done.
    + by destruct (getRouteUpstreamPath r).
    + intros Hp. rewrite Hp in *. simpl in *. unfold isPassThroughAllowed in *. bsplit. done.
  - intros [H1 H2 H3 H4 H5 H6]. rewrite H1, H3, H4, H6.
    destruct (getRouteUpstreamPath r); [done|]. simpl.
    destruct (rt_pass_through r) as [[]|]; simpl; try done.
    unfold isPassThroughAllowed. by rewrite bool_decide_eq_true_2 by auto.
Qed.

(** The state after the routes [before]. *)
Record represents (before : list route) (v : validation) : Prop := {
  rep_list : is_Some (va_modelList v) <-> exists q, q ∈ before /\ incoming q = MODEL_LIST_PATH;
  rep_balance : is_Some (va_balance v) <-> exists q, q ∈ before /\ incoming q = BALANCE_PATH;
  rep_catch p : is_Some (pr_catchAll (default no_rules (va_byPath v !! p)))
    <-> exists q, q ∈ before /\ incoming q = p /\ models_of q = [];
  rep_models p x : is_Some (pr_models (default no_rules (va_byPath v !! p)) !! x)
    <-> exists q, q ∈ before /\ incoming q = p /\ x ∈ models_of q
}.

Lemma represents_empty : represents [] no_validation.
Proof.
  split; [| |intros p|intros p x]; simpl; rewrite ?lookup_empty; simpl; rewrite ?lookup_empty;
    (split; [by intros []%is_Some_None|]); intros (q & Hq & _); by apply not_elem_of_nil in Hq.
Qed.
Record models_fresh (seen : gset jstr) (rules : path_rules) (models : list jstr) : Prop := {
  mf_distinct : NoDup models;
  mf_fresh x : x ∈ models -> empty_regex x = false /\ x ∉ seen /\ pr_models rules !! x = None
}.

Lemma check_models_ok i models seen rules : models_fresh seen rules models ->
  exists rules', check_models i models seen rules = inr rules'
    /\ pr_catchAll rules' = pr_catchAll rules
    /\ forall x, is_Some (pr_models rules' !! x) <-> is_Some (pr_models rules !! x) \/ x ∈ models.
Proof.
  revert seen rules. induction models as [|y models IH]; intros seen rules [Hn Hf]; simpl.
  { exists rules. split_and!; [done|done|]. intros x. split; [by left|].
    intros [?|H]; [done|by apply not_elem_of_nil in H]. }
  destruct (Hf y) as (-> & Hs & Hl); [by left|]. apply list.NoDup_cons in Hn as [Hy Hn].
  rewrite bool_decide_eq_false_2 by done. rewrite Hl, bool_decide_eq_false_2 by (by intros []%is_Some_None).
  destruct (IH ({[y]} ∪ seen) (PathRules (pr_catchAll rules) (<[y := i]> (pr_models rules))))
    as (rules' & Hr & Hc & Hm).
  { split; [done|]. intros x Hx. destruct (Hf x) as (H1 & H2 & H3); [by right|].
    assert (x <> y) by congruence. split_and!; [done| |simpl; by rewrite lookup_insert_ne].
    intros [Hxy%elem_of_singleton|?]%elem_of_union; done. }
  exists rules'. split_and!; [done|done|]. intros x. rewrite Hm. simpl. rewrite elem_of_cons.
  rewrite lookup_insert_is_Some. destruct (decide (y = x)) as [->|]; naive_solver.
Qed.

Lemma check_models_inv i models seen rules rules' : check_models i models seen rules = inr rules' ->
  models_fresh seen rules models.
Proof.
  revert seen rules. induction models as [|y models IH]; intros seen rules H; simpl in H.
  { split; [constructor|]. intros x Hx. by apply not_elem_of_nil in Hx. }
  destruct (empty_regex y) eqn:E1; [done|]. case_bool_decide as E2; [done|]. case_bool_decide as E3; [done|].
  apply IH in H as [Hn Hf]. rewrite <- eq_None_not_Some in E3. split.
  - apply list.NoDup_cons. split; [|done]. intros Hy. apply Hf in Hy as (_ & Hy & _).
    by apply Hy, elem_of_union_l, elem_of_singleton.
  - intros x [->|Hx]%elem_of_cons; [done|]. apply Hf in Hx as (H1 & H2 & H3). simpl in H3.
    split_and!; [done| |].
    + intros Hs. by apply H2, elem_of_union_r.
    + by apply lookup_insert_None in H3 as [? _].
Qed.

(** The rules of a route against the state. *)
Lemma rules_fresh before v r : represents before v ->
  rules_acceptable before r <->
  pr_catchAll (default no_rules (va_byPath v !! incoming r)) = None
  /\ models_fresh ∅ (default no_rules (va_byPath v !! incoming r)) (models_of r).
Proof.
  intros Hv. rewrite !eq_None_not_Some, (rep_catch _ _ Hv). split.
  - intros [H1 H2 H3 H4]. split; [naive_solver|]. split; [done|]. intros x Hx. split_and!; [auto|set_solver|].
    rewrite eq_None_not_Some, (rep_models _ _ Hv). intros (q & Hq & Hp & Hxq). by eapply H4.
  - intros [H1 [H2 H3]]. split; [naive_solver|done|by apply H3|].
    intros q x Hq Hp Hxq Hx. apply H3 in Hx as (_ & _ & Hx). rewrite eq_None_not_Some, (rep_models _ _ Hv) in Hx.
    naive_solver.
Qed.

Lemma validateRouteModels_ok i before v r : represents before v -> rules_acceptable before r ->
  exists rules, validateRouteModels i (models_of r) (default no_rules (va_byPath v !! incoming r)) = inr rules
    /\ (is_Some (pr_catchAll rules) <-> models_of r = [])
    /\ forall x, is_Some (pr_models rules !! x)
         <-> is_Some (pr_models (default no_rules (va_byPath v !! incoming r)) !! x) \/ x ∈ models_of r.
Proof.
  intros Hv Hr. apply (rules_fresh _ v) in Hr as [Hc Hm]; [|done].
  unfold validateRouteModels. rewrite Hc. destruct (models_of r) as [|y models].
  - eexists. split_and!; [done|done|]. intros x. simpl. split; [by left|].
    intros [?|H]; [done|by apply not_elem_of_nil in H].
  - destruct (check_models_ok i _ _ _ Hm) as (rules & Hrules & Hc' & Hm'). exists rules.
    split_and!; [done| |done]. rewrite Hc', Hc. split; [by intros []%is_Some_None|done].
Qed.

Lemma validateRouteModels_inv i before v r rules : represents before v ->
  validateRouteModels i (models_of r) (default no_rules (va_byPath v !! incoming r)) = inr rules ->
  rules_acceptable before r.
Proof.
  intros Hv H. apply (rules_fresh _ v); [done|]. unfold validateRouteModels in H.
  destruct (models_of r) as [|y models], (pr_catchAll _) eqn:Hc; try done.
  - split; [done|]. split; [constructor|]. intros x Hx. by apply not_elem_of_nil in Hx.
  - split; [done|]. by eapply check_models_inv.
Qed.

(** ** Management routes *)
Lemma management_paths p : isManagementPath p = true <-> p = MODEL_LIST_PATH \/ p = BALANCE_PATH.
Proof. unfold isManagementPath. by rewrite orb_true_iff, !bool_decide_eq_true. Qed.

Lemma check_management_inv i before v r v' : represents before v ->
  check_management i r v = inr v' ->
  isManagementPath (incoming r) = true -> management_acceptable before r.
Proof.
  intros Hv H Hm. unfold check_management in H. rewrite Hm in H.
  destruct (bool_decide (is_Some _)) eqn:Hone in H; [done|]. apply bool_decide_eq_false in Hone.
  fold (models_of r) (converter_of r) in H.
  destruct (models_of r) eqn:Em; simpl in H; [|done].
  destruct (bool_decide (converter_of r = _)) eqn:Hc; simpl in H; [|done]. apply bool_decide_eq_true in Hc.
  destruct (includes _ _) eqn:Ei; [done|].
  destruct (rt_pass_through r) as [[]|] eqn:Ep; simpl in H; try done; split; try done; try congruence;
    intros q Hq Heq; apply Hone; (case_bool_decide as Hl;
      [apply (rep_list _ _ Hv); exists q; by rewrite Heq|
       apply (rep_balance _ _ Hv); exists q; split; [done|]; rewrite Heq;
       by apply management_paths in Hm as [?|?]]).
Qed.

Lemma check_management_ok i before v r : represents before v ->
  (isManagementPath (incoming r) = true -> management_acceptable before r) ->
  exists v', check_management i r v = inr v' /\ va_byPath v' = va_byPath v
    /\ (is_Some (va_modelList v') <-> is_Some (va_modelList v) \/ incoming r = MODEL_LIST_PATH)
    /\ (is_Some (va_balance v') <-> is_Some (va_balance v) \/ incoming r = BALANCE_PATH).
Proof.
  intros Hv Hm. unfold check_management. destruct (isManagementPath _) eqn:Em.
  - destruct (Hm eq_refl) as [H1 H2 H3 H4 H5]. fold (models_of r) (converter_of r). rewrite H2, H3, H4.
    apply management_paths in Em.
    assert (MODEL_LIST_PATH <> BALANCE_PATH) as Hne by (by vm_compute).
    assert (default false (rt_pass_through r) = false) as -> by (by destruct (rt_pass_through r) as [[]|]).
    rewrite (bool_decide_eq_true_2 (js "none" = _)) by done. simpl.
    destruct (decide (incoming r = MODEL_LIST_PATH)) as [Hp|Hp].
    + rewrite (bool_decide_eq_true_2 _ Hp), bool_decide_eq_false_2.
      2: { rewrite (rep_list _ _ Hv). intros (q & Hq & Hqp). apply (H1 q Hq). congruence. }
      eexists. split_and!; [done|done|naive_solver|]. simpl. rewrite Hp. naive_solver.
    + rewrite (bool_decide_eq_false_2 _ Hp), bool_decide_eq_false_2.
      2: { rewrite (rep_balance _ _ Hv). intros (q & Hq & Hqp). apply (H1 q Hq). naive_solver congruence. }
      eexists. split_and!; [done|done| |]; simpl; naive_solver.
  - exists v. split_and!; [done|done| |].
    + split; [by left|]. intros [?|Hp]; [done|]. by rewrite Hp in Em.
    + split; [by left|]. intros [?|Hp]; [done|]. by rewrite Hp in Em.
Qed.

(** ** One route and all routes *)
Lemma exists_snoc {A} (P : A -> Prop) l x :
  (exists q, q ∈ l ++ [x] /\ P q) <-> (exists q, q ∈ l /\ P q) \/ P x.
Proof.
  split.
  - intros (q & [Hq|Hq%list_elem_of_singleton]%elem_of_app & HP); [left; by exists q|subst; by right].
  - intros [(q & Hq & HP)|HP]; [exists q|exists x]; (split; [|done]); apply elem_of_app; [by left|].
    right. by apply list_elem_of_singleton.
Qed.

Lemma validate_route_ok i before v r : represents before v -> acceptable before r ->
  exists v', validate_route parse_url i r v = inr v' /\ represents (before ++ [r]) v'.
Proof.
  intros Hv [[Ha Hb] Hm Hr Ht]. unfold validate_route.
  assert (non_empty (incoming r) = true) as -> by (revert Ha; by destruct (incoming r)).
  rewrite Ha, Hb. cbn [negb].
  destruct (check_management_ok i before v r Hv Hm) as (v1 & -> & Hby & Hl & Hbal). rewrite Hby.
  destruct (validateRouteModels_ok i before v r Hv Hr) as (rules & Hrules & Hc & Hmod).
  fold (models_of r). rewrite Hrules. apply check_target_none in Ht. rewrite Ht.
  eexists. split; [done|]. split; simpl.
  - by rewrite Hl, (rep_list _ _ Hv), exists_snoc.
  - by rewrite Hbal, (rep_balance _ _ Hv), exists_snoc.
  - intros p'. rewrite exists_snoc. destruct (decide (incoming r = p')) as [<-|Hne].
    + rewrite lookup_insert_eq. simpl. rewrite Hc. split; [by right|].
      intros [(q & Hq & Hp & He)|[_ ?]]; [|done]. by destruct (rules_reachable _ _ Hr q Hq Hp).
    + rewrite lookup_insert_ne by done. rewrite (rep_catch _ _ Hv). naive_solver.
  - intros p' x. rewrite exists_snoc. destruct (decide (incoming r = p')) as [<-|Hne].
    + rewrite lookup_insert_eq. simpl. rewrite Hmod, (rep_models _ _ Hv). naive_solver.
    + rewrite lookup_insert_ne by done. rewrite (rep_models _ _ Hv). naive_solver.
Qed.

Lemma validate_route_inv i before v r v' : represents before v ->
  validate_route parse_url i r v = inr v' -> acceptable before r.
Proof.
  intros Hv H. unfold validate_route in H. destruct (negb (non_empty _)); [done|].
  destruct (starts_with _ _) eqn:E1; [|done]. simpl in H. destruct (includes _ _) eqn:E2; [done|].
  destruct (check_management i r v) as [|v1] eqn:E3; [done|].
  destruct (validateRouteModels _ _ _) as [|rules] eqn:E4; [done|].
  destruct (check_target parse_url r) eqn:E5; [done|]. split.
  - done.
  - by eapply check_management_inv.
  - assert (va_byPath v1 = va_byPath v) as Hby.
    { unfold check_management in E3. repeat case_match; by simplify_eq/=. }
    rewrite Hby in E4. by eapply validateRouteModels_inv.
  - by apply check_target_none.
Qed.

(** Every route is acceptable after those before it. *)
Definition all_acceptable (before routes : list route) : Prop :=
  forall i r, routes !! i = Some r -> acceptable (before ++ take i routes) r.

Lemma all_acceptable_cons before r routes : acceptable before r ->
  all_acceptable (before ++ [r]) routes <-> all_acceptable before (r :: routes).
Proof.
  intros Hr. split; intros H.
  - intros [|i] r' Hi; simpl in *; [simplify_eq; by rewrite app_nil_r|].
    apply H in Hi. by rewrite <- app_assoc in Hi.
  - intros i r' Hi. specialize (H (S i) r' Hi). simpl in H. by rewrite <- app_assoc.
Qed.

Lemma validate_routes_exact i before routes v : represents before v ->
  match validate_routes parse_url i routes v with
  | None => all_acceptable before routes
  | Some (j, _) =>
      exists k r, j = (i + k)%nat /\ routes !! k = Some r
        /\ all_acceptable before (take k routes) /\ ~ acceptable (before ++ take k routes) r
  end.
Proof.
  revert i before v. induction routes as [|r routes IH]; intros i before v Hv; simpl; [by intros ? ?|].
  destruct (validate_route parse_url i r v) as [e|v'] eqn:E.
  - exists 0%nat, r. split_and!; [lia|done|by intros ? ?|]. simpl. rewrite app_nil_r. intros Hr.
    destruct (validate_route_ok i before v r Hv Hr) as (v' & Hv' & _). congruence.
  - pose proof (validate_route_inv i before v r v' Hv E) as Hr.
    destruct (validate_route_ok i before v r Hv Hr) as (v1 & Hv1 & Hrep).
    assert (v1 = v') as -> by congruence. specialize (IH (S i) _ _ Hrep).
    destruct (validate_routes _ _ _ _) as [[j e]|]; [|by apply all_acceptable_cons].
    destruct IH as (k & r' & -> & Hk & Hall & Hn). exists (S k), r'. simpl.
    split_and!; [lia|done|by apply all_acceptable_cons|]. by rewrite <- app_assoc in Hn.
Qed.

Lemma validateConfig_routes config : normalizeConfig config <> [] ->
  validateConfig parse_url (Some config)
  = prod_map Some id <$> validate_routes parse_url 0 (normalizeConfig config) no_validation.
Proof. simpl. by destruct (normalizeConfig config). Qed.

(** C32: A configuration of routes is accepted exactly when it has a route and every
    route is acceptable after the ones before it: a path without a query; for the
    model list and the balance, a single native route without rules; no route for
    all models of its path before it, and no rule that is empty, repeated or taken
    by an earlier route of the path; a target with a registered converter that fits
    the path and complete authentication.  Otherwise the error names the first
    route that is not acceptable. *)
Theorem custom_routes_validated config :
  let routes := normalizeConfig config in
  (validateConfig parse_url (Some config) = None <-> routes <> [] /\ all_acceptable [] routes)
  /\ forall i e, validateConfig parse_url (Some config) = Some (Some i, e) ->
       exists r, routes !! i = Some r /\ all_acceptable [] (take i routes)
                 /\ ~ acceptable (take i routes) r.
Proof.
  intros routes. pose proof (validate_routes_exact 0 [] routes no_validation represents_empty) as H.
  assert (routes = [] \/ routes <> []) as [E|E] by (destruct routes; naive_solver).
  { unfold validateConfig. fold routes. rewrite E. naive_solver. }
  rewrite validateConfig_routes by done. fold routes.
  destruct (validate_routes parse_url 0 routes no_validation) as [[j e0]|]; simpl.
  - destruct H as (k & r & -> & Hk & Hall & Hn). split.
    + split; [done|]. intros [_ Ha]. destruct Hn. by apply Ha.
    + intros i e [= <- <-]. by exists r.
  - split; [done|]. done.
Qed.
End Validation.

(** ** The normal form *)
Lemma normalize_incoming r : incoming (normalizeRoute r) = incoming r.
Proof. done. Qed.

Lemma or_default_idemp v d : d <> [] -> or_default (Some (or_default v d)) d = or_default v d.
Proof. by destruct v as [[|]|], d. Qed.

Lemma normalize_models_idemp models :
  normalizeRouteModels (Some (normalizeRouteModels models)) = normalizeRouteModels models.
Proof.
  unfold normalizeRouteModels. simpl. induction (default [] models) as [|x l IH]; simpl; [done|].
  destruct (non_empty (trim x)) eqn:E; simpl; [|done]. by rewrite trim_idemp, E, IH.
Qed.

Lemma normalize_idemp r : normalizeRoute (normalizeRoute r) = normalizeRoute r.
Proof.
  unfold normalizeRoute.
  cbn [rt_incoming_path rt_upstream_path rt_converter rt_models rt_auth rt_pass_through].
  rewrite or_default_idemp by done. f_equal.
  - f_equal. apply trim_idemp.
  - destruct (normalizeRouteModels (rt_models r)) as [|x l] eqn:E; [done|].
    by rewrite <- E, normalize_models_idemp, E.
  - by destruct (rt_auth r).
  - by destruct (rt_pass_through r) as [[]|].
Qed.

Lemma normalized_config config : map normalizeRoute (normalizeConfig config) = normalizeConfig config.
Proof.
  unfold normalizeConfig. destruct (advanced_routes config) as [l|]; [|done].
  rewrite map_map. apply map_ext. apply normalize_idemp.
Qed.

(** ** Editing *)
Definition forwarding (config : routes_config) : list route :=
  List.filter (fun r => negb (is_management r)) (normalizeConfig config).
Definition management (config : routes_config) : list route :=
  List.filter is_management (normalizeConfig config).

Lemma filter_map_normalize (f : route -> bool) l : (forall r, f (normalizeRoute r) = f r) ->
  List.filter f (map normalizeRoute l) = map normalizeRoute (List.filter f l).
Proof.
  intros Hf. induction l as [|r l IH]; simpl; [done|]. rewrite Hf. destruct (f r); simpl; by rewrite IH.
Qed.

Lemma filter_rejects {A} (f : A -> bool) l : Forall (fun x => f x = false) l -> List.filter f l = [].
Proof. induction 1 as [|x l H _ IH]; simpl; [done|]. by rewrite H. Qed.

Lemma filter_accepts {A} (f : A -> bool) l : Forall (fun x => f x = true) l -> List.filter f l = l.
Proof. induction 1 as [|x l H _ IH]; simpl; [done|]. by rewrite H, IH. Qed.

(** The routes of a list at the position found and around it. *)
Lemma found_split (P : route -> Prop) `{forall r, Decision (P r)} l i r :
  list_find P l = Some (i, r) ->
  exists l1 l2, l = l1 ++ r :: l2 /\ i = length l1 /\ P r /\ Forall (fun x => ~ P x) l1.
Proof.
  intros (Hi & Hr & Hb)%list_find_Some. exists (take i l), (drop (S i) l).
  split_and!; [by rewrite take_drop_middle| |done|].
  - rewrite length_take_le; [done|]. apply lookup_lt_Some in Hi. lia.
  - apply Forall_elem. intros x (k & Hx)%list_elem_of_lookup_1.
    apply lookup_take_Some in Hx as [Hx Hk]. by apply (Hb k).
Qed.

Lemma management_incoming path r : isManagementPath path = true ->
  incoming (managementRoute path r) = path.
Proof. intros [-> | ->]%management_paths; done. Qed.

Lemma find_other path path' x : path' <> path -> incoming x = path ->
  bool_decide (incoming x = path') = false.
Proof. intros Hn Hx. apply bool_decide_eq_false. congruence. Qed.

Lemma find_normalize path l :
  List.find (fun r => bool_decide (incoming r = path)) (map normalizeRoute l)
  = normalizeRoute <$> List.find (fun r => bool_decide (incoming r = path)) l.
Proof.
  induction l as [|r l IH]; simpl; [done|]. rewrite normalize_incoming.
  by case_bool_decide.
Qed.

Lemma find_app_none {A} (f : A -> bool) l1 l2 : Forall (fun x => f x = false) l1 ->
  List.find f (l1 ++ l2) = List.find f l2.
Proof. induction 1 as [|x l1 H _ IH]; simpl; [done|]. by rewrite H. Qed.

Lemma find_skip {A} (f : A -> bool) l1 x l2 : f x = false ->
  List.find f (l1 ++ x :: l2) = List.find f (l1 ++ l2).
Proof. intros Hx. induction l1 as [|y l1 IH]; simpl; [by rewrite Hx|]. by destruct (f y). Qed.

(** What the editor of management routes does to the list. *)
Lemma replaced_routes config path r :
  let routes := normalizeConfig config in
  let new := option_list (managementRoute path <$> r) in
  (exists l1 x l2, routes = l1 ++ x :: l2 /\ incoming x = path
     /\ Forall (fun q => incoming q <> path) l1
     /\ advanced_routes (replaceManagementRoute config path r) = Some (l1 ++ new ++ l2))
  \/ (Forall (fun q => incoming q <> path) routes
      /\ advanced_routes (replaceManagementRoute config path r) = Some (routes ++ new)).
Proof.
  intros routes new. unfold replaceManagementRoute. fold routes. unfold new.
  destruct (list_find _ routes) as [[i x]|] eqn:E.
  - left. apply found_split in E as (l1 & l2 & -> & -> & Hx & Hl). exists l1, x, l2.
    split_and!; [done..|]. destruct r as [r|]; simpl; do 2 f_equal.
    + rewrite insert_app_r_alt by lia. by rewrite Nat.sub_diag.
    + apply delete_middle.
  - right. apply list_find_None in E. split; [done|]. destruct r; simpl; by rewrite ?app_nil_r.
Qed.

Lemma forwarding_skip l1 x l2 : is_management x = true ->
  List.filter (fun r => negb (is_management r)) (l1 ++ x :: l2)
  = List.filter (fun r => negb (is_management r)) (l1 ++ l2).
Proof. intros Hx. rewrite !List.filter_app. simpl. by rewrite Hx. Qed.

Lemma forwarding_normalized l :
  List.filter (fun r => negb (is_management r)) (map normalizeRoute l)
  = map normalizeRoute (List.filter (fun r => negb (is_management r)) l).
Proof. by apply filter_map_normalize. Qed.

Lemma replace_keeps_forwarding config path r : isManagementPath path = true ->
  forwarding (replaceManagementRoute config path r) = forwarding config.
Proof.
  intros Hp. unfold forwarding. rewrite <- (normalized_config config). unfold normalizeConfig at 1.
  destruct (replaced_routes config path r) as [(l1 & x & l2 & Hr & Hx & _ & ->)|[_ ->]];
    rewrite !forwarding_normalized; f_equal.
  - rewrite Hr, forwarding_skip by (unfold is_management; by rewrite Hx).
    destruct r as [r|]; simpl; [|done]. apply forwarding_skip.
    unfold is_management. by rewrite management_incoming.
  - rewrite List.filter_app. destruct r as [r|]; simpl; [|by rewrite app_nil_r].
    unfold is_management at 2. by rewrite management_incoming, Hp, app_nil_r.
Qed.

Lemma replaced_found config path r : isManagementPath path = true ->
  getManagementRoute (replaceManagementRoute config path (Some r)) path
  = Some (normalizeRoute (managementRoute path r)).
Proof.
  intros Hp. unfold getManagementRoute, normalizeConfig.
  destruct (replaced_routes config path (Some r)) as [(l1 & x & l2 & _ & _ & Hl & ->)|[Hl ->]];
    rewrite find_normalize; rewrite find_app_none;
    try (eapply list.Forall_impl; [exact Hl|]; intros q Hq; by apply bool_decide_eq_false);
    simpl; by rewrite management_incoming, bool_decide_eq_true_2.
Qed.

Lemma replace_keeps_others config path path' r : isManagementPath path = true -> path' <> path ->
  getManagementRoute (replaceManagementRoute config path r) path' = getManagementRoute config path'.
Proof.
  intros Hp Hn. unfold getManagementRoute. rewrite <- (normalized_config config).
  unfold normalizeConfig at 1.
  destruct (replaced_routes config path r) as [(l1 & x & l2 & Hr & Hx & _ & ->)|[_ ->]];
    rewrite !find_normalize; f_equal.
  - rewrite Hr, find_skip by (by eapply find_other). destruct r as [r|]; simpl; [|done].
    apply find_skip. eapply find_other; [done|]. by apply management_incoming.
  - destruct r as [r|]; simpl; [|by rewrite app_nil_r].
    rewrite find_skip, app_nil_r; [done|]. eapply find_other; [done|]. by apply management_incoming.
Qed.

(** What the editor of forwarding routes does to the list. *)
Lemma forwarding_replaced config fs :
  exists before after, management config = before ++ after
    /\ Forall (fun r => is_management r = true) (before ++ after)
    /\ advanced_routes (replaceForwardingRoutes config fs) = Some (before ++ fs ++ after).
Proof.
  unfold replaceForwardingRoutes, management. set (routes := normalizeConfig config).
  assert (forall l, Forall (fun r => is_management r = true) (List.filter is_management l)) as Hm.
  { intros l. apply Forall_elem. intros r Hr. apply list_elem_of_In, List.filter_In in Hr. by destruct Hr. }
  destruct (list_find _ routes) as [[i r]|]; simpl.
  - exists (List.filter is_management (take i routes)), (List.filter is_management (drop i routes)).
    split_and!; [by rewrite <- List.filter_app, take_drop| |done]. rewrite <- List.filter_app. apply Hm.
  - exists (List.filter is_management routes), []. rewrite !app_nil_r. by split_and!.
Qed.

Lemma management_normalized l :
  List.filter is_management (map normalizeRoute l) = map normalizeRoute (List.filter is_management l).
Proof. by apply filter_map_normalize. Qed.

Lemma forwarding_edit config fs : Forall (fun r => is_management r = false) fs ->
  management (replaceForwardingRoutes config fs) = management config
  /\ forwarding (replaceForwardingRoutes config fs) = map normalizeRoute fs.
Proof.
  intros Hfs. destruct (forwarding_replaced config fs) as (before & after & Hm & Hall & Hr).
  apply Forall_app in Hall as [Hb Ha].
  assert (map normalizeRoute (management config) = management config) as Hnorm.
  { unfold management. by rewrite <- management_normalized, normalized_config. }
  unfold management at 1, forwarding, normalizeConfig. rewrite Hr. split.
  - rewrite management_normalized, !List.filter_app, (filter_accepts _ before), (filter_accepts _ after),
      (filter_rejects _ fs) by done. simpl. by rewrite <- Hm.
  - rewrite forwarding_normalized, !List.filter_app.
    rewrite (filter_rejects _ before), (filter_rejects _ after), (filter_accepts _ fs), app_nil_r; [done|..];
      (eapply list.Forall_impl; [eassumption|]; intros q Hq; simpl; by rewrite Hq).
Qed.

(** The two editors of a channel's routes do not disturb each other.  Setting
    or removing the route of the model list or of the balance keeps all forwarding
    routes and the other management route, and the route that was set is the one
    read back, in normal form; replacing the forwarding routes keeps the management
    routes in their order and stores exactly the given routes, in normal form. *)
Theorem route_edits_separate config :
  (forall path r, isManagementPath path = true ->
     forwarding (replaceManagementRoute config path r) = forwarding config
     /\ (forall path', path' <> path ->
           getManagementRoute (replaceManagementRoute config path r) path'
           = getManagementRoute config path')
     /\ forall new, r = Some new ->
          getManagementRoute (replaceManagementRoute config path r) path
          = Some (normalizeRoute (managementRoute path new)))
  /\ (forall fs, Forall (fun r => is_management r = false) fs ->
        management (replaceForwardingRoutes config fs) = management config
        /\ forwarding (replaceForwardingRoutes config fs) = map normalizeRoute fs).
Proof.
  split; [|by apply forwarding_edit]. intros path r Hp. split_and!.
  - by apply replace_keeps_forwarding.
  - intros path' Hn. by apply replace_keeps_others.
  - intros new ->. by apply replaced_found.
Qed.

(** ** Templates and defaults *)
Lemma templates_valid parse_url :
  Forall (fun o => validateConfig parse_url (Some o.2) = None) TEMPLATE_OPTIONS.
Proof. repeat constructor; vm_compute; reflexivity. Qed.

(** The route that the editor makes for a converter. *)
Definition default_route (converter : jstr) : route :=
  let path := getDefaultIncomingPath converter in
  let (upstream, auth) := getConverterDefaults converter path in
  Route (Some path) (Some upstream) (Some converter) None (Some auth) None.

Lemma default_routes_valid parse_url :
  Forall (fun o => validateConfig parse_url (Some (RoutesConfig (Some [default_route o.1.1]))) = None)
    CONVERTER_OPTIONS.
Proof. repeat constructor; vm_compute; reflexivity. Qed.
