(* ===== verification/Flow.v ===== *)
(** * The flow graph of the dashboard

    Models [features/dashboard/lib/flow.ts]: usage rows become paths through the
    columns a role may see, columns may be cut to their largest nodes, and paths
    are added up into the nodes and links of a Sankey diagram, with filters,
    highlighting, masking of names and colours; and [flow-selection.ts].  The
    translation function, the labels of deleted tokens and of overflow nodes, the
    colour schemes of the chart library and the number format are parameters. *)
From Stdlib Require Import SpecFloat Permutation.
From stdpp Require Import strings.
From S2P Require Import Prelude JsString JsNumber JsValue JsMap Syntax TaskConfig.

#[local] Open Scope Z_scope.

(** ** Data *)
Inductive flow_kind := K_user | K_node | K_token | K_group | K_model | K_channel.
#[export] Instance flow_kind_eq_dec : EqDecision flow_kind.
Proof. solve_decision. Defined.

Inductive flow_metric := FM_quota | FM_tokens | FM_requests.
Inductive overflow_mode := OM_aggregate | OM_hide.
Inductive flow_role := FR_user | FR_admin | FR_root.

Definition kind_text (k : flow_kind) : jstr :=
  match k with
  | K_user => js "user" | K_node => js "node" | K_token => js "token"
  | K_group => js "group" | K_model => js "model" | K_channel => js "channel"
  end.

Record flow_row := FlowRow {
  fr_user_id : option num;
  fr_username : option jstr;
  fr_node_name : option jstr;
  fr_use_group : option jstr;
  fr_token_id : option num;
  fr_token_name : option jstr;
  fr_channel_id : option num;
  fr_channel_name : option jstr;
  fr_model_name : option jstr;
  fr_token_used : option num;
  fr_count : option num;
  fr_quota : option num;
}.

Record node_filter := NodeFilter { nf_kind : flow_kind; nf_id : jstr }.
Record link_selection := LinkSelection { ls_source : jstr; ls_target : jstr }.

Record flow_node := FlowNode {
  nd_id : jstr;
  nd_label : jstr;
  nd_kind : flow_kind;
  nd_value : num;
  nd_requests : num;
  nd_quota : num;
  nd_tokens : num;
  nd_color : jstr;
  nd_colorKey : jstr;
  nd_highlighted : option bool;
  nd_dimmed : option bool;
}.

Record flow_link := FlowLink {
  lk_source : jstr;
  lk_target : jstr;
  lk_value : num;
  lk_requests : num;
  lk_quota : num;
  lk_tokens : num;
  lk_sourceLabel : jstr;
  lk_targetLabel : jstr;
  lk_color : jstr;
  lk_linkColor : jstr;
  lk_linkAlpha : num;
  lk_hoverColor : jstr;
  lk_colorKey : jstr;
  lk_share : num;
  lk_highlighted : option bool;
  lk_dimmed : option bool;
}.

Record flow_graph := FlowGraph { fg_nodes : list flow_node; fg_links : list flow_link }.

Record metrics := Metrics { me_quota : num; me_tokens : num; me_requests : num }.
Record path_node := PathNode { pn_id : jstr; pn_label : jstr; pn_kind : flow_kind }.
Record prepared_path := Prepared { pp_path : list path_node; pp_metrics : metrics }.

(** ** Rows and their nodes *)
Definition OTHER_FLOW_NODE_IDS (k : flow_kind) : jstr := kind_text k ++ js ":__other__".

Definition DEFAULT_OTHER_FLOW_NODE_LABELS (k : flow_kind) : jstr :=
  match k with
  | K_user => js "Other users" | K_node => js "Other nodes" | K_token => js "Other tokens"
  | K_group => js "Other groups" | K_model => js "Other models" | K_channel => js "Other channels"
  end.

Definition sensitive_kind (k : flow_kind) : bool := match k with K_model => false | _ => true end.

Definition FLOW_NODE_KINDS : list flow_kind := [K_user; K_node; K_token; K_group; K_model; K_channel].
Definition OTHER_FLOW_NODE_ID_SET : list jstr := map OTHER_FLOW_NODE_IDS FLOW_NODE_KINDS.

(** [Number(value)], or zero when it is not finite. *)
Definition numberValue (value : option num) : num :=
  match value with Some n => if is_finite n then n else n_zero | None => n_zero end.

Definition rowMetrics (row : flow_row) : metrics :=
  Metrics (numberValue (fr_quota row)) (numberValue (fr_token_used row)) (numberValue (fr_count row)).

Definition metricValue (m : metrics) (metric : flow_metric) : num :=
  match metric with FM_requests => me_requests m | FM_tokens => me_tokens m | FM_quota => me_quota m end.

(** [s || fallback] *)
Definition name_or (s : option jstr) (fallback : jstr) : jstr :=
  match s with Some (c :: r) => c :: r | _ => fallback end.

Definition positive (x : num) : bool := n_ltb n_zero x.

Section Flow.
Context `{Collation} (t : jstr -> jstr) (deletedLabel : option (num -> jstr)).

Definition userNode (row : flow_row) : path_node :=
  let userID := numberValue (fr_user_id row) in
  PathNode
    (js "user:" ++ if positive userID then num_to_string userID else name_or (fr_username row) (js "unknown"))
    (name_or (fr_username row) (if positive userID then js "user-" ++ num_to_string userID else t (js "Unknown user")))
    K_user.

Definition nodeNameNode (row : flow_row) : path_node :=
  let nodeName := name_or (fr_node_name row) (js "default-node") in
  PathNode (js "node:" ++ nodeName) nodeName K_node.

Definition deletedTokenLabel (tokenID : num) : jstr :=
  if n_leb tokenID n_zero then t (js "Unknown token")
  else match deletedLabel with
       | Some label => label tokenID
       | None => js "token-" ++ num_to_string tokenID
       end.

Definition tokenNode (row : flow_row) : path_node :=
  let tokenID := numberValue (fr_token_id row) in
  PathNode
    (js "token:" ++ if positive tokenID then num_to_string tokenID else name_or (fr_token_name row) (js "unknown"))
    (name_or (fr_token_name row) (deletedTokenLabel tokenID))
    K_token.

Definition groupNode (row : flow_row) : path_node :=
  let useGroup := name_or (fr_use_group row) (js "unknown") in
  PathNode (js "group:" ++ useGroup) useGroup K_group.

Definition modelNode (row : flow_row) : path_node :=
  PathNode (js "model:" ++ name_or (fr_model_name row) (js "unknown"))
    (name_or (fr_model_name row) (t (js "Unknown model"))) K_model.

Definition channelNode (row : flow_row) : path_node :=
  let channelID := numberValue (fr_channel_id row) in
  PathNode
    (js "channel:" ++ if positive channelID then num_to_string channelID else name_or (fr_channel_name row) (js "unknown"))
    (name_or (fr_channel_name row)
       (if positive channelID then js "channel-" ++ num_to_string channelID else t (js "Unknown")))
    K_channel.

Definition NODE_BUILDERS (stage : flow_kind) : flow_row -> path_node :=
  match stage with
  | K_user => userNode | K_node => nodeNameNode | K_token => tokenNode
  | K_group => groupNode | K_model => modelNode | K_channel => channelNode
  end.

(** ** Columns *)
Definition getFlowStages (role : flow_role) : list flow_kind :=
  match role with
  | FR_root => [K_user; K_node; K_token; K_group; K_model; K_channel]
  | FR_admin => [K_user; K_group; K_model; K_channel]
  | FR_user => [K_token; K_group; K_model]
  end.

Definition MIN_FLOW_STAGES : nat := 2.

Definition resolveVisibleStages (role : flow_role) (visibleStages : option (list flow_kind)) : list flow_kind :=
  let stages := getFlowStages role in
  match visibleStages with
  | None => stages
  | Some visible =>
      let filtered := List.filter (fun stage => bool_decide (stage ∈ visible)) stages in
      if (MIN_FLOW_STAGES <=? length filtered)%nat then filtered else stages
  end.

Definition flowPathForStages (row : flow_row) (stages : list flow_kind) : list path_node :=
  map (fun stage => NODE_BUILDERS stage row) stages.

(** ** Filters *)
Definition filterRows (rows : list flow_row) (selectedUsers : option (list jstr)) : list flow_row :=
  match default [] selectedUsers with
  | [] => rows
  | selected => List.filter (fun row => bool_decide (pn_id (userNode row) ∈ selected)) rows
  end.

(** The selected ids of each visible kind. *)
Definition normalizeSelectedNodeFilters (selectedNodes : option (list node_filter)) (stages : list flow_kind)
  : list (flow_kind * list jstr) :=
  fold_left (fun filters f =>
      if bool_decide (nf_kind f ∈ stages) then map_upd (nf_kind f) [] (set_add (nf_id f)) filters else filters)
    (default [] selectedNodes) [].

Definition pathMatchesNodeFilters (path : list path_node) (filters : list (flow_kind * list jstr)) : bool :=
  match filters with
  | [] => true
  | _ =>
      let pathNodesByKind := fold_left (fun m node => map_upd (pn_kind node) [] (set_add (pn_id node)) m) path [] in
      forallb (fun '(kind, selectedIds) =>
          match map_get kind pathNodesByKind with
          | None => false
          | Some pathIds => existsb (fun id => bool_decide (id ∈ pathIds)) selectedIds
          end) filters
  end.

Definition filterRowsByNodes (rows : list flow_row) (selectedNodes : option (list node_filter)) (stages : list flow_kind)
  : list flow_row :=
  match normalizeSelectedNodeFilters selectedNodes stages with
  | [] => rows
  | filters => List.filter (fun row => pathMatchesNodeFilters (flowPathForStages row stages) filters) rows
  end.

Definition selectedNodeFiltersExceptKind (selectedNodes : option (list node_filter)) (kind : flow_kind)
  : option (list node_filter) :=
  match List.filter (fun f => negb (bool_decide (nf_kind f = kind))) (default [] selectedNodes) with
  | [] => None
  | filtered => Some filtered
  end.

Definition add_metrics (s m : metrics) : metrics :=
  Metrics (n_add (me_quota s) (me_quota m)) (n_add (me_tokens s) (me_tokens m)) (n_add (me_requests s) (me_requests m)).

Definition buildSummary (rows : list flow_row) : metrics :=
  fold_left (fun summary row => add_metrics summary (rowMetrics row)) rows (Metrics n_zero n_zero n_zero).

(** ** The largest nodes of a column *)
Definition normalizeTopNodeLimit (limit : option num) : option Z :=
  match limit with
  | None => None
  | Some limit =>
      match num_to_Z (n_floor limit) with
      | Some parsed => if 0 <? parsed then Some parsed else None
      | None => None
      end
  end.

Definition otherFlowNode (labeler : option (flow_kind -> jstr)) (kind : flow_kind) : path_node :=
  PathNode (OTHER_FLOW_NODE_IDS kind)
    (match labeler with Some label => label kind | None => DEFAULT_OTHER_FLOW_NODE_LABELS kind end) kind.

Record node_rank := NodeRank { rk_node : path_node; rk_value : num }.

Definition by_rank (a b : node_rank) : Z :=
  or_compare (num_sign (n_sub (rk_value b) (rk_value a)))
    (or_compare (localeCompare (pn_label (rk_node a)) (pn_label (rk_node b)))
       (localeCompare (pn_id (rk_node a)) (pn_id (rk_node b)))).

(** [slice(0, limit)] *)
Definition take_Z {A} (limit : Z) (l : list A) : list A := take (Z.to_nat (Z.min limit (Z.of_nat (length l)))) l.

Definition add_rank (value : num) (totals : list (flow_kind * list (jstr * node_rank))) (node : path_node) :=
  match map_get (pn_kind node) totals with
  | None => totals
  | Some stageTotals =>
      map_put (pn_kind node)
        (map_upd (pn_id node) (NodeRank node n_zero) (fun r => NodeRank (rk_node r) (n_add (rk_value r) value)) stageTotals)
        totals
  end.

Definition buildTopNodeSets (rows : list flow_row) (metric : flow_metric) (stages : list flow_kind) (limit : option Z)
  : option (list (flow_kind * list jstr)) :=
  match limit with
  | None => None
  | Some limit =>
      let totals := fold_left (fun m stage => map_put stage [] m) stages [] in
      let totals := fold_left (fun totals row =>
          fold_left (add_rank (metricValue (rowMetrics row) metric)) (flowPathForStages row stages) totals) rows totals in
      Some (map (fun '(kind, stageTotals) =>
        (kind, map (fun rank => pn_id (rk_node rank)) (take_Z limit (sort_with by_rank (map snd stageTotals))))) totals)
  end.

Definition isTopFlowNode (topNodeSets : option (list (flow_kind * list jstr))) (node : path_node) : bool :=
  match topNodeSets ≫= map_get (pn_kind node) with
  | None => true
  | Some topNodes => bool_decide (pn_id node ∈ topNodes)
  end.

Definition applyTopNodeLimit (path : list path_node) (topNodeSets : option (list (flow_kind * list jstr)))
    (mode : overflow_mode) (labeler : option (flow_kind -> jstr)) : option (list path_node) :=
  match topNodeSets with
  | None => Some path
  | Some _ =>
      if existsb (fun node => negb (isTopFlowNode topNodeSets node)) path then
        match mode with
        | OM_hide => None
        | OM_aggregate =>
            Some (map (fun node => if isTopFlowNode topNodeSets node then node else otherFlowNode labeler (pn_kind node)) path)
        end
      else Some path
  end.

(** ** Adding up *)
Definition add_to_node (m : metrics) (metric : flow_metric) (n : flow_node) : flow_node :=
  FlowNode (nd_id n) (nd_label n) (nd_kind n) (n_add (nd_value n) (metricValue m metric))
    (n_add (nd_requests n) (me_requests m)) (n_add (nd_quota n) (me_quota m)) (n_add (nd_tokens n) (me_tokens m))
    (nd_color n) (nd_colorKey n) (nd_highlighted n) (nd_dimmed n).

Definition fresh_node (p : path_node) (color colorKey : jstr) : flow_node :=
  FlowNode (pn_id p) (pn_label p) (pn_kind p) n_zero n_zero n_zero n_zero color colorKey None None.

Definition addNode (m : list (jstr * flow_node)) (p : path_node) (x : metrics) (metric : flow_metric) (color colorKey : jstr)
  : list (jstr * flow_node) :=
  map_upd (pn_id p) (fresh_node p color colorKey) (add_to_node x metric) m.

Definition pathLinkKey (source target : path_node) : jstr := pn_id source ++ [0] ++ pn_id target.

Definition add_to_link (m : metrics) (metric : flow_metric) (l : flow_link) : flow_link :=
  FlowLink (lk_source l) (lk_target l) (n_add (lk_value l) (metricValue m metric))
    (n_add (lk_requests l) (me_requests m)) (n_add (lk_quota l) (me_quota m)) (n_add (lk_tokens l) (me_tokens m))
    (lk_sourceLabel l) (lk_targetLabel l) (lk_color l) (lk_linkColor l) (lk_linkAlpha l) (lk_hoverColor l) (lk_colorKey l)
    (lk_share l) (lk_highlighted l) (lk_dimmed l).

Definition fresh_link (source target : path_node) (color colorKey : jstr) : flow_link :=
  FlowLink (pn_id source) (pn_id target) n_zero n_zero n_zero n_zero (pn_label source) (pn_label target)
    color color n_one color colorKey n_zero None None.

Definition addLink (m : list (jstr * flow_link)) (source target : path_node) (x : metrics) (metric : flow_metric)
    (color colorKey : jstr) : list (jstr * flow_link) :=
  map_upd (pathLinkKey source target) (fresh_link source target color colorKey) (add_to_link x metric) m.

Definition linkStableKey (l : flow_link) : jstr := lk_source l ++ [0] ++ lk_target l.

(** The pairs of consecutive nodes of a path. *)
Definition path_steps (path : list path_node) : list (path_node * path_node) := zip path (tail path).

(** ** Colours *)
Context (schemes : list (option num * option (list (option jstr)))).

Definition DEFAULT_FLOW_CHART_COLOR : jstr := js "#1664FF".

(** The first colour scheme for as many colours, or the last one. *)
Definition getDashboardChartColors (domainLength : Z) : list jstr :=
  let fits '(maxDomainLength, _) :=
    match maxDomainLength with
    | None => true
    | Some x => n_eqb x n_zero || negb (n_eqb x x) || n_leb (n_of_Z domainLength) x
    end in
  match (match List.find fits schemes with Some s => Some s | None => list.last schemes end) with
  | None => []
  | Some (_, scheme) => omap id (default [] scheme)
  end.

Definition colorAt (index : nat) (palette : option (list jstr)) : jstr :=
  let colors := match palette with Some (c :: cs) => c :: cs | _ => getDashboardChartColors (Z.of_nat index + 1) end in
  match colors with
  | [] => DEFAULT_FLOW_CHART_COLOR
  | _ => default DEFAULT_FLOW_CHART_COLOR (colors !! (index mod length colors)%nat)
  end.

Definition colorPalette (colorCount : nat) (palette : option (list jstr)) : list jstr :=
  match palette with
  | Some (c :: cs) => c :: cs
  | _ => match getDashboardChartColors (Z.of_nat colorCount) with [] => [DEFAULT_FLOW_CHART_COLOR] | colors => colors end
  end.

Definition stableColorMap (keys : list jstr) (palette : option (list jstr)) : list (jstr * jstr) :=
  let uniqueKeys := fold_left (fun l k => set_add k l) keys [] in
  let colors := colorPalette (length uniqueKeys) palette in
  imap (fun index key => (key, colorAt index (Some colors))) uniqueKeys.

Definition hex_digit (c : Z) : option Z :=
  if is_digit c then Some (c - 48)
  else if (97 <=? c) && (c <=? 102) then Some (c - 87)
  else if (65 <=? c) && (c <=? 70) then Some (c - 55)
  else None.

(** The colour of a link: six hexadecimal digits become an [rgba]. *)
Definition alphaColor (color : jstr) (alpha : num) : jstr * num :=
  let normalized := trim color in
  let hex := match normalized with c :: r => if c =? 35 then r else normalized | [] => [] end in
  match mapM hex_digit hex with
  | Some ([_; _; _; _; _; _] as ds) =>
      let value := fold_left (fun n d => n * 16 + d) ds 0 in
      let red := Z.land (Z.shiftr value 16) 255 in
      let green := Z.land (Z.shiftr value 8) 255 in
      let blue := Z.land value 255 in
      (js "rgba(" ++ dec_of_Z red ++ js ", " ++ dec_of_Z green ++ js ", " ++ dec_of_Z blue ++ js ", " ++ to_fixed 2 alpha ++ js ")",
       n_one)
  | _ => (normalized, alpha)
  end.

(** The order of the links that leave one node. *)
Definition by_share (a b : flow_link) : Z :=
  or_compare (num_sign (n_sub (lk_value b) (lk_value a))) (localeCompare (linkStableKey a) (linkStableKey b)).

Definition link_alpha (count index : nat) : num :=
  let denominator := n_of_Z (Z.max (Z.of_nat count - 1) 1) in
  if (count =? 1)%nat then decimal_to_num 34 (-2)
  else n_add (decimal_to_num 24 (-2)) (n_mul (n_div (n_of_Z (Z.of_nat index)) denominator) (decimal_to_num 2 (-1))).

Definition with_display (alpha : num) (l : flow_link) : flow_link :=
  let '(color, a) := alphaColor (lk_color l) alpha in
  FlowLink (lk_source l) (lk_target l) (lk_value l) (lk_requests l) (lk_quota l) (lk_tokens l) (lk_sourceLabel l)
    (lk_targetLabel l) (lk_color l) color a (lk_color l) (lk_colorKey l) (lk_share l) (lk_highlighted l) (lk_dimmed l).

(** Links are grouped by source; each group is coloured in its order, and the
    links are changed where they stand. *)
Definition assignLinkDisplayColors (links : list flow_link) : list flow_link :=
  let linksBySource := fold_left (fun m p => map_upd (lk_source (snd p)) [] (fun l => l ++ [p]) m) (imap pair links) [] in
  fold_left (fun links '(_, sourceLinks) =>
      let sortedLinks := sort_with (fun a b => by_share (snd a) (snd b)) sourceLinks in
      fold_left (fun links '(index, (position, _)) => alter (with_display (link_alpha (length sortedLinks) index)) position links)
        (imap pair sortedLinks) links)
    linksBySource links.

(** ** Highlighting *)
Definition pathContainsFlowNode (path : list path_node) (filter : node_filter) : bool :=
  existsb (fun node => bool_decide (pn_kind node = nf_kind filter) && bool_decide (pn_id node = nf_id filter)) path.

Definition pathContainsFlowLink (path : list path_node) (link : link_selection) : bool :=
  existsb (fun '(a, b) => bool_decide (pn_id a = ls_source link) && bool_decide (pn_id b = ls_target link)) (path_steps path).

Record highlight_sets := HighlightSets { hs_nodes : list jstr; hs_links : list jstr }.

Definition matches_path (activeNode : option node_filter) (activeLink : option link_selection) (path : list path_node) : bool :=
  match activeLink with
  | Some link => pathContainsFlowLink path link
  | None => match activeNode with Some node => pathContainsFlowNode path node | None => false end
  end.

Definition buildFlowHighlightSets (preparedPaths : list prepared_path) (activeNode : option node_filter)
    (activeLink : option link_selection) (stages : list flow_kind) : option highlight_sets :=
  let nodeActive := match activeNode with Some n => bool_decide (nf_kind n ∈ stages) | None => false end in
  if negb nodeActive && match activeLink with None => true | Some _ => false end then None
  else
    let matching := List.filter (fun p => matches_path activeNode activeLink (pp_path p)) preparedPaths in
    let nodes := fold_left (fun s p => fold_left (fun s node => set_add (pn_id node) s) (pp_path p) s) matching [] in
    let links := fold_left (fun s p => fold_left (fun s '(a, b) => set_add (pathLinkKey a b) s) (path_steps (pp_path p)) s) matching [] in
    match nodes with [] => None | _ => Some (HighlightSets nodes links) end.

Definition mark_node (highlighted : bool) (n : flow_node) : flow_node :=
  FlowNode (nd_id n) (nd_label n) (nd_kind n) (nd_value n) (nd_requests n) (nd_quota n) (nd_tokens n) (nd_color n) (nd_colorKey n)
    (Some highlighted) (Some (negb highlighted)).

Definition mark_link (highlighted : bool) (l : flow_link) : flow_link :=
  FlowLink (lk_source l) (lk_target l) (lk_value l) (lk_requests l) (lk_quota l) (lk_tokens l) (lk_sourceLabel l) (lk_targetLabel l)
    (lk_color l) (lk_linkColor l) (lk_linkAlpha l) (lk_hoverColor l) (lk_colorKey l) (lk_share l)
    (Some highlighted) (Some (negb highlighted)).

Definition applyFlowHighlights (nodes : list (jstr * flow_node)) (links : list (jstr * flow_link)) (sets : option highlight_sets)
  : list (jstr * flow_node) * list (jstr * flow_link) :=
  match sets with
  | None => (nodes, links)
  | Some sets =>
      (map_values (fun n => mark_node (bool_decide (nd_id n ∈ hs_nodes sets)) n) nodes,
       map_values (fun l => mark_link (bool_decide (linkStableKey l ∈ hs_links sets)) l) links)
  end.

(** ** Masking *)
Definition FLOW_MASK_TEXT : jstr := [8226; 8226; 8226; 8226].

Definition maskFlowLabel (label : jstr) : jstr := match label with [] => label | _ => FLOW_MASK_TEXT end.

Definition masks_node (n : flow_node) : bool :=
  sensitive_kind (nd_kind n) && negb (bool_decide (nd_id n ∈ OTHER_FLOW_NODE_ID_SET)).

Definition mask_node (n : flow_node) : flow_node :=
  if masks_node n then
    FlowNode (nd_id n) (maskFlowLabel (nd_label n)) (nd_kind n) (nd_value n) (nd_requests n) (nd_quota n) (nd_tokens n)
      (nd_color n) (nd_colorKey n) (nd_highlighted n) (nd_dimmed n)
  else n.

Definition mask_link (maskedById : list (jstr * jstr)) (l : flow_link) : flow_link :=
  FlowLink (lk_source l) (lk_target l) (lk_value l) (lk_requests l) (lk_quota l) (lk_tokens l)
    (default (lk_sourceLabel l) (map_get (lk_source l) maskedById))
    (default (lk_targetLabel l) (map_get (lk_target l) maskedById))
    (lk_color l) (lk_linkColor l) (lk_linkAlpha l) (lk_hoverColor l) (lk_colorKey l) (lk_share l) (lk_highlighted l) (lk_dimmed l).

Definition maskFlowGraphLabels (nodes : list (jstr * flow_node)) (links : list (jstr * flow_link))
  : list (jstr * flow_node) * list (jstr * flow_link) :=
  let maskedById := fold_left (fun m '(_, n) =>
    if masks_node n then map_put (nd_id n) (maskFlowLabel (nd_label n)) m else m) nodes [] in
  (map_values mask_node nodes,
   match maskedById with [] => links | _ => map_values (mask_link maskedById) links end).

(** ** The graph *)
Record graph_options := GraphOptions {
  go_topNodeLimit : option num;
  go_overflowMode : option overflow_mode;
  go_otherNodeLabel : option (flow_kind -> jstr);
  go_activeNode : option node_filter;
  go_activeLink : option link_selection;
  go_maskSensitive : bool;
}.

Definition preparePaths (rows : list flow_row) (metric : flow_metric) (stages : list flow_kind) (options : graph_options)
  : list prepared_path :=
  let topNodeSets := buildTopNodeSets rows metric stages (normalizeTopNodeLimit (go_topNodeLimit options)) in
  let overflowMode := default OM_aggregate (go_overflowMode options) in
  omap (fun row => (fun path => Prepared path (rowMetrics row))
          <$> applyTopNodeLimit (flowPathForStages row stages) topNodeSets overflowMode (go_otherNodeLabel options)) rows.

Definition root_ids (preparedPaths : list prepared_path) : list jstr :=
  omap (fun p => pn_id <$> head (pp_path p)) preparedPaths.

Definition add_path (metric : flow_metric) (color : jstr -> jstr) (maps : list (jstr * flow_node) * list (jstr * flow_link))
    (p : prepared_path) : list (jstr * flow_node) * list (jstr * flow_link) :=
  match pp_path p with
  | [] => maps
  | root :: _ =>
      let c := color (pn_id root) in
      (fold_left (fun m node => addNode m node (pp_metrics p) metric c (pn_id root)) (pp_path p) (fst maps),
       fold_left (fun m '(a, b) => addLink m a b (pp_metrics p) metric c (pn_id root)) (path_steps (pp_path p)) (snd maps))
  end.

Definition by_ends (a b : flow_link) : Z :=
  or_compare (localeCompare (lk_source a) (lk_source b)) (localeCompare (lk_target a) (lk_target b)).

Definition byValueThenLabel (a b : flow_node) : Z :=
  or_compare (num_sign (n_sub (nd_value b) (nd_value a))) (localeCompare (nd_label a) (nd_label b)).

Definition with_share (total : num) (l : flow_link) : flow_link :=
  FlowLink (lk_source l) (lk_target l) (lk_value l) (lk_requests l) (lk_quota l) (lk_tokens l) (lk_sourceLabel l) (lk_targetLabel l)
    (lk_color l) (lk_linkColor l) (lk_linkAlpha l) (lk_hoverColor l) (lk_colorKey l)
    (if n_ltb n_zero total then n_div (lk_value l) total else n_zero) (lk_highlighted l) (lk_dimmed l).

(** The sum that shares are taken of: the links of the first step. *)
Definition first_step_total (sources : list jstr) (links : list flow_link) : num :=
  fold_left (fun sum l => n_add sum (lk_value l)) (List.filter (fun l => bool_decide (lk_source l ∈ sources)) links) n_zero.

Definition buildFlowGraph (rows : list flow_row) (metric : flow_metric) (role : flow_role) (palette : option (list jstr))
    (visibleStages : option (list flow_kind)) (options : graph_options) : flow_graph :=
  let stages := resolveVisibleStages role visibleStages in
  let preparedPaths := preparePaths rows metric stages options in
  let colors := stableColorMap (sort_with localeCompare (root_ids preparedPaths)) palette in
  let color id := default (colorAt 0 palette) (map_get id colors) in
  let maps := fold_left (add_path metric color) preparedPaths ([], []) in
  let maps := if go_maskSensitive options then maskFlowGraphLabels (fst maps) (snd maps) else maps in
  let maps := applyFlowHighlights (fst maps) (snd maps)
    (buildFlowHighlightSets preparedPaths (go_activeNode options) (go_activeLink options) stages) in
  let flowLinks := sort_with by_ends (map snd (snd maps)) in
  let total := first_step_total (root_ids preparedPaths) flowLinks in
  FlowGraph (sort_with byValueThenLabel (map snd (fst maps)))
    (assignLinkDisplayColors (map (with_share total) flowLinks)).

(** ** Options of the filters *)
Context (formatNumber : num -> jstr).

Record user_option := UserOption { uo_value : jstr; uo_label : jstr; uo_valueLabel : jstr; uo_valueRaw : num; uo_color : jstr }.
Record node_option := NodeOption {
  no_kind : flow_kind; no_value : jstr; no_label : jstr; no_valueLabel : jstr; no_valueRaw : num; no_color : jstr }.

(** Neither [user_id] nor [username]: a missing or zero id, a missing or empty name. *)
Definition anonymous (row : flow_row) : bool :=
  match fr_user_id row with Some x => n_eqb x n_zero || negb (n_eqb x x) | None => true end
  && match fr_username row with Some (_ :: _) => false | _ => true end.

Definition by_user_value (a b : user_option) : Z :=
  or_compare (num_sign (n_sub (uo_valueRaw b) (uo_valueRaw a))) (localeCompare (uo_label a) (uo_label b)).

Definition buildUserFilterOptions (rows : list flow_row) (metric : flow_metric) (palette : option (list jstr)) : list user_option :=
  let colors := stableColorMap (sort_with localeCompare (map (fun row => pn_id (userNode row)) rows)) palette in
  let users := fold_left (fun users row =>
      if anonymous row then users
      else
        let user := userNode row in
        map_upd (pn_id user) (pn_label user, n_zero, default (colorAt 0 palette) (map_get (pn_id user) colors))
          (fun '(label, value, color) => (label, n_add value (metricValue (rowMetrics row) metric), color)) users) rows [] in
  sort_with by_user_value
    (map (fun '(value, (label, raw, color)) => UserOption value label (formatNumber raw) raw color) users).

Definition nodeFilterKey (f : node_filter) : jstr := kind_text (nf_kind f) ++ [0] ++ nf_id f.

Definition stage_position (stages : list flow_kind) (k : flow_kind) : Z :=
  match list_find (k =.) stages with Some (i, _) => Z.of_nat i | None => 0 end.

Definition by_node_value (stages : list flow_kind) (a b : node_option) : Z :=
  or_compare (stage_position stages (no_kind a) - stage_position stages (no_kind b))
    (or_compare (num_sign (n_sub (no_valueRaw b) (no_valueRaw a)))
       (or_compare (localeCompare (no_label a) (no_label b)) (localeCompare (no_value a) (no_value b)))).

(** The totals of one column, over the rows that the filters on the others keep. *)
Definition stage_totals (rows : list flow_row) (metric : flow_metric) (stages : list flow_kind)
    (selectedNodes : option (list node_filter)) (stage : flow_kind) : list (jstr * node_rank) :=
  fold_left (fun totals row =>
      let node := NODE_BUILDERS stage row in
      map_upd (nodeFilterKey (NodeFilter (pn_kind node) (pn_id node))) (NodeRank node n_zero)
        (fun r => NodeRank (rk_node r) (n_add (rk_value r) (metricValue (rowMetrics row) metric))) totals)
    (filterRowsByNodes rows (selectedNodeFiltersExceptKind selectedNodes stage) stages) [].

Definition buildNodeFilterOptions (rows : list flow_row) (metric : flow_metric) (role : flow_role)
    (visibleStages : option (list flow_kind)) (palette : option (list jstr)) (selectedNodes : option (list node_filter))
  : list node_option :=
  let stages := resolveVisibleStages role visibleStages in
  let colorIds := fold_left (fun ids row => fold_left (fun ids node => set_add (pn_id node) ids) (flowPathForStages row stages) ids) rows [] in
  let colors := stableColorMap (sort_with localeCompare colorIds) palette in
  sort_with (by_node_value stages)
    (mjoin (map (fun stage =>
       map (fun '(_, rank) =>
           NodeOption (pn_kind (rk_node rank)) (pn_id (rk_node rank)) (pn_label (rk_node rank)) (formatNumber (rk_value rank))
             (rk_value rank) (default (colorAt 0 palette) (map_get (pn_id (rk_node rank)) colors)))
         (stage_totals rows metric stages selectedNodes stage)) stages)).

(** ** The data of the dashboard *)
Record build_options := BuildOptions {
  bo_role : option flow_role;
  bo_selectedUsers : option (list jstr);
  bo_selectedNodes : option (list node_filter);
  bo_visibleStages : option (list flow_kind);
  bo_colorPalette : option (list jstr);
  bo_graph : graph_options;
}.

Record flow_data := FlowData {
  fd_summary : metrics;
  fd_flow : flow_graph;
  fd_users : list user_option;
  fd_nodes : list node_option;
}.

Definition buildDashboardFlowData (rows : list flow_row) (metric : flow_metric) (options : build_options) : flow_data :=
  let role := default FR_user (bo_role options) in
  let palette := bo_colorPalette options in
  let stages := resolveVisibleStages role (bo_visibleStages options) in
  let userFilteredRows := filterRows rows (bo_selectedUsers options) in
  let filteredRows := filterRowsByNodes userFilteredRows (bo_selectedNodes options) stages in
  FlowData (buildSummary filteredRows)
    (buildFlowGraph filteredRows metric role palette (bo_visibleStages options) (bo_graph options))
    (buildUserFilterOptions rows metric palette)
    (buildNodeFilterOptions userFilteredRows metric role (bo_visibleStages options) palette (bo_selectedNodes options)).
End Flow.

(** ** The data of the diagram *)

(** [Number(flag)]: no flag is not a number, which no comparison looks at. *)
Definition flag_difference (a b : option bool) : Z :=
  match a, b with Some a, Some b => Z.b2z a - Z.b2z b | _, _ => 0 end.

Definition byLinkDrawPriority `{Collation} (a b : flow_link) : Z :=
  or_compare (flag_difference (lk_dimmed a) (lk_dimmed b))
    (or_compare (flag_difference (lk_highlighted b) (lk_highlighted a))
       (or_compare (num_sign (n_sub (lk_value b) (lk_value a))) (localeCompare (linkStableKey a) (linkStableKey b)))).

(** The links that are drawn, with their depth: highlighted ones in front and
    dimmed ones behind. *)
Definition sankey_links `{Collation} (flow : flow_graph) : list (flow_link * Z) :=
  imap (fun index l =>
      (l, match lk_highlighted l, lk_dimmed l with
          | Some true, _ => 1000000 + Z.of_nat index
          | _, Some true => Z.of_nat index
          | _, _ => 100000 + Z.of_nat index
          end))
    (sort_with byLinkDrawPriority (List.filter (fun l => n_ltb n_zero (lk_value l)) (fg_links flow))).

(** ** Selections *)
Inductive display_state := DS_loading | DS_error | DS_empty | DS_chart.

Definition flowDisplayState (isLoading isError : bool) (linkCount : nat) (themeReady : bool) : display_state :=
  if isLoading then DS_loading
  else if isError then DS_error
  else if (linkCount =? 0)%nat then DS_empty
  else if negb themeReady then DS_loading
  else DS_chart.

Definition compactFlowSelectionLabel (count : num) : jstr := if n_ltb n_zero count then num_to_string count else js "*".

Definition visibleFlowUsers (users : list user_option) (selectedUsers : list jstr) : list user_option :=
  match selectedUsers with
  | [] => users
  | selected => List.filter (fun user => bool_decide (uo_value user ∈ selected)) users
  end.

(** [buildFlowFilterOptions]: without labels for deleted tokens. *)
Definition buildFlowFilterOptions `{Collation} (t : jstr -> jstr) (schemes : list (option num * option (list (option jstr))))
    (formatNumber : num -> jstr) (rows : list flow_row) (metric : flow_metric) (palette : option (list jstr)) (role : flow_role)
    (visibleStages : option (list flow_kind)) (selectedNodes : option (list node_filter))
  : list user_option * list node_option :=
  (buildUserFilterOptions t schemes formatNumber rows metric palette,
   buildNodeFilterOptions t None schemes formatNumber rows metric role visibleStages palette selectedNodes).
