(* ===== verification/FlowFacts.v ===== *)
(** * What flows in flows out

    The nodes and links of the dashboard's flow graph hold the totals of the rows
    that pass through them; so every node passes on what it receives and every
    column carries the whole. *)
From Stdlib Require Import SpecFloat Permutation.
From stdpp Require Import strings.
From S2P Require Import Prelude JsString JsNumber JsValue JsMap IntegerSums Syntax TaskConfig TaskConfigFacts Flow.

#[local] Open Scope Z_scope.

(** ** Sums that may be reordered *)
Lemma num_sum_reordered l zs : Permutation l (map n_of_Z zs) -> Forall (fun z => 0 <= z) zs -> sum_Z zs < 2 ^ 53 ->
  num_sum l = n_of_Z (sum_Z zs).
Proof.
  intros Hp Hn Hs. apply Permutation_map_inv in Hp as (zs' & -> & Hz). rewrite Hz in Hn, Hs |- *.
  by apply num_sum_integers.
Qed.

Lemma filter_map {A B} (f : A -> B) (test : B -> bool) l : List.filter test (map f l) = map f (List.filter (fun x => test (f x)) l).
Proof. induction l as [|x l IH]; cbn; [done|]. destruct (test (f x)); cbn; by rewrite IH. Qed.

#[export] Instance filter_perm {A} (test : A -> bool) : Proper (Permutation ==> Permutation) (List.filter test).
Proof.
  intros a b Hab. induction Hab as [| | |a b c _ IH1 _ IH2]; cbn.
  - done.
  - destruct (test _); [by constructor|done].
  - destruct (test x), (test y); done || constructor.
  - by rewrite IH1.
Qed.

Lemma sum_filter_le {A} (f : A -> Z) (test : A -> bool) l : Forall (fun x => 0 <= f x) l ->
  0 <= sum_Z (map f (List.filter test l)) <= sum_Z (map f l).
Proof.
  unfold sum_Z. induction 1 as [|x l Hx _ IH]; cbn; [lia|]. destruct (test x); cbn; lia.
Qed.

Lemma sum_map_mjoin {A B} (f : A -> list B) (g : B -> Z) l :
  sum_Z (map g (mjoin (map f l))) = sum_Z (map (fun x => sum_Z (map g (f x))) l).
Proof.
  induction l as [|x l IH]; [done|]. cbn [map]. change (mjoin (f x :: map f l)) with (f x ++ mjoin (map f l)).
  by rewrite map_app, sum_Z_app, IH.
Qed.

(** ** Names and columns *)
Lemma stages_nodup role visible : NoDup (resolveVisibleStages role visible).
Proof.
  assert (NoDup (getFlowStages role)) as Hn by (destruct role; by compute_done).
  unfold resolveVisibleStages. destruct visible as [v|]; [|done]. destruct (_ <=? _)%nat; [|done].
  by apply NoDup_ListNoDup, List.NoDup_filter, NoDup_ListNoDup.
Qed.

Lemma stages_two role visible : (2 <= length (resolveVisibleStages role visible))%nat.
Proof.
  assert (2 <= length (getFlowStages role))%nat as Hn by (destruct role; cbn; lia).
  unfold resolveVisibleStages. destruct visible as [v|]; [|done]. destruct (_ <=? _)%nat eqn:E; [|done]. by apply Nat.leb_le in E.
Qed.

(** An id begins with its kind. *)
Definition tagged (k : flow_kind) (id : jstr) : Prop := exists name, id = kind_text k ++ 58 :: name.

Lemma tagged_kind j k id : tagged j id -> tagged k id -> j = k.
Proof. intros [a ->] [b E]. by destruct j, k; try done; cbn in E. Qed.

(** A path through the columns whose ids have no null character. *)
Record path_ok (stages : list flow_kind) (path : list path_node) : Prop := {
  po_kinds : map pn_kind path = stages;
  po_tags : Forall (fun n => tagged (pn_kind n) (pn_id n)) path;
  po_plain : Forall (fun n => 0 ∉ pn_id n) path
}.

Lemma path_ids_nodup stages path : NoDup stages -> path_ok stages path -> NoDup (map pn_id path).
Proof.
  intros Hn [<- Ht _]. revert Hn Ht. induction path as [|n path IH]; cbn; intros Hn Ht; [apply NoDup_nil_2|].
  apply list.NoDup_cons in Hn as [Hk Hn]. apply Forall_cons_iff in Ht as [Htn Ht]. apply list.NoDup_cons. split; [|by apply IH].
  intros Hin. apply Hk. apply list_elem_of_In, in_map_iff in Hin as (x & E & Hx). apply list_elem_of_In, in_map_iff. exists x.
  split; [|done]. rewrite Forall_elem in Ht. apply list_elem_of_In in Hx. specialize (Ht _ Hx). rewrite E in Ht. by eapply tagged_kind.
Qed.

Lemma pair_split (a b c d : jstr) : 0 ∉ a -> 0 ∉ c -> a ++ [0] ++ b = c ++ [0] ++ d -> a = c /\ b = d.
Proof.
  revert c. induction a as [|x a IH]; intros [|y c] Ha Hc E; cbn in E; [by injection E|..].
  - injection E as <- _. exfalso. apply Hc. by left.
  - injection E as -> _. exfalso. apply Ha. by left.
  - injection E as -> E. apply not_elem_of_cons in Ha as [_ Ha]. apply not_elem_of_cons in Hc as [_ Hc].
    by destruct (IH _ Ha Hc E) as [-> ->].
Qed.

Section Paths.
Context `{Collation} (t : jstr -> jstr) (deletedLabel : option (num -> jstr)).

Lemma builder_kind stage row : pn_kind (NODE_BUILDERS t deletedLabel stage row) = stage.
Proof. by destruct stage. Qed.

Lemma builder_tagged stage row : tagged stage (pn_id (NODE_BUILDERS t deletedLabel stage row)).
Proof. destruct stage; by eexists. Qed.

Lemma flow_path_ok row stages : Forall (fun n => 0 ∉ pn_id n) (flowPathForStages t deletedLabel row stages) ->
  path_ok stages (flowPathForStages t deletedLabel row stages).
Proof.
  intros Hp. split; [| |done]; unfold flowPathForStages.
  - rewrite map_map. rewrite (map_ext _ id) by (intros; apply builder_kind). apply map_id.
  - apply Forall_elem. intros n Hn. apply list_elem_of_In, in_map_iff in Hn as (s & <- & _).
    rewrite builder_kind. apply builder_tagged.
Qed.

Lemma other_tagged labeler kind : tagged kind (pn_id (otherFlowNode labeler kind)) /\ 0 ∉ pn_id (otherFlowNode labeler kind).
Proof. destruct kind; (split; [by eexists|by compute_done]). Qed.

Lemma limited_path_ok stages path sets mode labeler path' : path_ok stages path ->
  applyTopNodeLimit path sets mode labeler = Some path' -> path_ok stages path'.
Proof.
  intros Hok. unfold applyTopNodeLimit. destruct sets as [sets|]; [|by intros [= <-]].
  destruct (existsb _ _); [|by intros [= <-]]. destruct mode; [|done]. intros [= <-]. destruct Hok as [<- Ht Hp]. split.
  - rewrite map_map. apply map_ext. intros n. by destruct (isTopFlowNode _ _).
  - apply Forall_map. revert Ht. apply Forall_impl. intros n Hn. destruct (isTopFlowNode _ _); [done|apply other_tagged].
  - apply Forall_map. revert Hp. apply Forall_impl. intros n Hn. destruct (isTopFlowNode _ _); [done|apply other_tagged].
Qed.
End Paths.

(** ** Totals of a run of updates *)
Section Totals.
Context {K V X : Type} `{EqDecision K} (ev : X -> K * V * (V -> V)) (get : V -> num) (z : X -> Z) (xs : list X).
Notation run := (run_events (map ev xs) []).
Notation key x := (fst (fst (ev x))).

Hypothesis Hadd : Forall (fun x => get (snd (fst (ev x))) = n_zero /\ (forall v, get (snd (ev x) v) = n_add (get v) (n_of_Z (z x))) /\ 0 <= z x) xs.

Definition key_total (k : K) : Z := sum_Z (map z (List.filter (fun x => bool_decide (key x = k)) xs)).

Hypothesis Hsum : forall k, key_total k < 2 ^ 53.

Lemma total_nonneg : Forall (fun x => 0 <= z x) xs.
Proof using Hadd. revert Hadd. apply Forall_impl. by intros x (_ & _ & ?). Qed.

Lemma key_total_bounds k : 0 <= key_total k < 2 ^ 53.
Proof using Hadd Hsum. pose proof (sum_filter_le z (fun x => bool_decide (key x = k)) xs total_nonneg). specialize (Hsum k). unfold key_total in *. lia. Qed.

Lemma run_nodup_nil : NoDup run.*1.
Proof using. apply run_nodup, NoDup_nil_2. Qed.

Lemma run_entry k v : (k, v) ∈ run ->
  accumulated None (map ev (List.filter (fun x => bool_decide (key x = k)) xs)) = Some v.
Proof using. intros Hin. apply map_get_in in Hin; [|apply run_nodup_nil]. rewrite run_get in Hin. unfold key_events in Hin. by rewrite filter_map in Hin. Qed.

Lemma run_value k v : (k, v) ∈ run -> get v = n_of_Z (key_total k).
Proof using Hadd Hsum.
  intros Hin%run_entry. rewrite (accumulated_sum ev get (fun x => n_of_Z (z x)) (List.filter (fun x => bool_decide (key x = k)) xs)); [..|done].
  - rewrite <- (map_map z n_of_Z). fold (num_sum (map n_of_Z (map z (List.filter (fun x => bool_decide (key x = k)) xs)))).
    apply num_sum_integers; [|apply key_total_bounds]. apply Forall_map, Forall_elem. intros x Hx. apply list_elem_of_In, filter_In in Hx as [Hx _].
    pose proof total_nonneg as Ht. rewrite Forall_elem in Ht. by apply Ht, list_elem_of_In.
  - apply Forall_elem. intros x Hx. apply list_elem_of_In, filter_In in Hx as [Hx _]. rewrite Forall_elem in Hadd.
    apply list_elem_of_In, Hadd in Hx as (? & ? & _). done.
Qed.

(** The entries of some keys hold the total of those keys. *)
Lemma run_total (test : V -> bool) (test' : X -> bool) :
  (forall k v x, (k, v) ∈ run -> x ∈ xs -> key x = k -> test v = test' x) ->
  exists zs, map get (List.filter test (map snd run)) = map n_of_Z zs /\ Forall (fun z => 0 <= z) zs
    /\ sum_Z zs = sum_Z (map z (List.filter test' xs)).
Proof using Hadd Hsum.
  intros Htest. set (entries := List.filter (fun p => test (snd p)) run). exists (map key_total entries.*1). split_and!.
  - rewrite filter_map. fold entries. rewrite !map_map. apply map_ext_in. intros [k v] Hin. unfold entries in Hin.
    apply filter_In in Hin as [Hin _]. by apply run_value, list_elem_of_In.
  - apply Forall_map, Forall_elem. intros k _. apply key_total_bounds.
  - assert (NoDup entries.*1) as Hn.
    { pose proof run_nodup_nil as Hn. revert Hn. unfold entries. generalize run. intros m Hm. induction m as [|[k v] m IH]; [done|].
      cbn in Hm |- *. apply list.NoDup_cons in Hm as [Hk Hm]. destruct (test v); [|by apply IH]. cbn. apply list.NoDup_cons.
      split; [|by apply IH]. intros Hin. apply Hk. apply list_elem_of_fmap in Hin as (p & -> & Hp). apply list_elem_of_fmap.
      exists p. split; [done|]. by apply list_elem_of_In, filter_In in Hp as [Hp%list_elem_of_In _]. }
    unfold key_total. rewrite (sum_by_class (fun x => key x) z entries.*1 xs Hn). f_equal. f_equal.
    apply List.filter_ext_in. intros x Hx. apply list_elem_of_In in Hx.
    assert (exists v, (key x, v) ∈ run) as [v Hv].
    { destruct (proj2 (map_get_key (key x) run)) as [v Hv].
      - apply run_keys. right. exists (ev x). split; [|done]. apply list_elem_of_In, in_map, list_elem_of_In, Hx.
      - exists v. apply map_get_in; [apply run_nodup_nil|done]. }
    rewrite <- (Htest _ _ x Hv Hx eq_refl). destruct (test v) eqn:E.
    + apply bool_decide_eq_true, list_elem_of_fmap. exists (key x, v). split; [done|]. apply list_elem_of_In, filter_In.
      split; [by apply list_elem_of_In|done].
    + apply bool_decide_eq_false. intros Hin. apply list_elem_of_fmap in Hin as ([k w] & Ek & Hw). cbn in Ek. subst k.
      apply list_elem_of_In, filter_In in Hw as [Hw Hw']. cbn in Hw'. apply list_elem_of_In in Hw.
      rewrite (Htest _ _ x Hw Hx eq_refl) in Hw'. rewrite (Htest _ _ x Hv Hx eq_refl) in E. congruence.
Qed.
End Totals.

(** ** Paths as updates *)
Section Hits.
Context (metric : flow_metric) (color : jstr -> jstr).

Definition root_of (p : prepared_path) : jstr := default [] (pn_id <$> head (pp_path p)).

(** Each node and each step of a path, with the path. *)
Definition node_hits (P : list prepared_path) : list (path_node * prepared_path) :=
  mjoin (map (fun p => map (fun n => (n, p)) (pp_path p)) P).
Definition step_hits (P : list prepared_path) : list (path_node * path_node * prepared_path) :=
  mjoin (map (fun p => map (fun ab => (ab, p)) (path_steps (pp_path p))) P).

Definition node_event (x : path_node * prepared_path) : jstr * flow_node * (flow_node -> flow_node) :=
  (pn_id (fst x), fresh_node (fst x) (color (root_of (snd x))) (root_of (snd x)), add_to_node (pp_metrics (snd x)) metric).
Definition step_event (x : path_node * path_node * prepared_path) : jstr * flow_link * (flow_link -> flow_link) :=
  (pathLinkKey (fst (fst x)) (snd (fst x)), fresh_link (fst (fst x)) (snd (fst x)) (color (root_of (snd x))) (root_of (snd x)),
   add_to_link (pp_metrics (snd x)) metric).

Lemma fold_left_map {A B C} (f : C -> B -> C) (g : A -> B) l c : fold_left f (map g l) c = fold_left (fun c x => f c (g x)) l c.
Proof. revert c. induction l; intros; cbn; auto. Qed.

Lemma run_events_app {K V} `{EqDecision K} (a b : list (K * V * (V -> V))) m : run_events (a ++ b) m = run_events b (run_events a m).
Proof. apply fold_left_app. Qed.

Lemma add_paths P maps : fold_left (add_path metric color) P maps
  = (run_events (map node_event (node_hits P)) (fst maps), run_events (map step_event (step_hits P)) (snd maps)).
Proof.
  revert maps. induction P as [|p P IH]; intros [ns ls]; [done|]. cbn [fold_left]. rewrite IH.
  unfold node_hits, step_hits. cbn [map]. change (mjoin (?x :: ?l)) with (x ++ mjoin l). rewrite !map_app, !run_events_app, !map_map.
  unfold add_path. destruct (pp_path p) as [|root path] eqn:E; [done|].
  assert (root_of p = pn_id root) as Hr by (unfold root_of; by rewrite E). cbn [fst snd]. f_equal.
  - f_equal. unfold run_events. rewrite fold_left_map. unfold node_event. cbn [fst snd]. by rewrite Hr.
  - f_equal. unfold run_events. rewrite fold_left_map. unfold step_event. cbn [fst snd]. rewrite Hr.
    generalize (path_steps (root :: path)). intros l. revert ls. clear. induction l as [|[a b] l IH]; intros ls; [done|]. apply IH.
Qed.
End Hits.

(** Exactly one node of a path has a given id, or none. *)
Lemma sum_hit {A} (g : A -> jstr) (c : Z) k l : NoDup (map g l) ->
  sum_Z (map (fun _ => c) (List.filter (fun x => bool_decide (g x = k)) l)) = if bool_decide (k ∈ map g l) then c else 0.
Proof.
  induction l as [|x l IH]; intros Hn; [done|]. cbn [map List.filter] in *. apply list.NoDup_cons in Hn as [Hx Hn]. specialize (IH Hn).
  destruct (decide (g x = k)) as [<-|Hne].
  - rewrite (bool_decide_eq_true_2 (g x = g x)), (bool_decide_eq_true_2 (g x ∈ g x :: _)) by (done || by left).
    rewrite bool_decide_eq_false_2 in IH by done. cbn [map]. change (sum_Z (?a :: ?b)) with (a + sum_Z b). lia.
  - rewrite (bool_decide_eq_false_2 (g x = k)) by done. rewrite IH.
    by rewrite (bool_decide_ext (k ∈ g x :: map g l) (k ∈ map g l)) by (rewrite elem_of_cons; naive_solver).
Qed.

Lemma filter_mjoin {A} (test : A -> bool) (l : list (list A)) : List.filter test (mjoin l) = mjoin (map (List.filter test) l).
Proof. induction l as [|x l IH]; [done|]. cbn [map]. change (mjoin (?x :: ?l)) with (x ++ mjoin l). by rewrite List.filter_app, IH. Qed.

(** The paths through a node. *)
Lemma sum_hits {A} (f : prepared_path -> list A) (g : A -> jstr) (z : prepared_path -> Z) k P :
  Forall (fun p => NoDup (map g (f p))) P ->
  sum_Z (map (fun x => z (snd x)) (List.filter (fun x => bool_decide (g (fst x) = k)) (mjoin (map (fun p => map (fun a => (a, p)) (f p)) P))))
  = sum_Z (map (fun p => if bool_decide (k ∈ map g (f p)) then z p else 0) P).
Proof.
  intros Hn. rewrite filter_mjoin, map_map, sum_map_mjoin. induction Hn as [|p P Hp _ IH]; [done|].
  cbn [map]. change (sum_Z (?a :: ?b)) with (a + sum_Z b). rewrite IH. f_equal. rewrite filter_map, map_map. cbn [fst snd].
  by apply sum_hit.
Qed.

Lemma steps_sources path : map fst (path_steps path) = removelast path.
Proof. unfold path_steps. induction path as [|a [|b path] IH]; [done|done|]. cbn in *. by rewrite IH. Qed.

Lemma steps_targets path : map snd (path_steps path) = tail path.
Proof. unfold path_steps. induction path as [|a [|b path] IH]; [done|done|]. cbn in *. by rewrite IH. Qed.

(** ** The graph of a list of paths *)
Section Graph.
Context (metric : flow_metric) (color : jstr -> jstr) (stages : list flow_kind) (P : list prepared_path).

Definition path_Z (p : prepared_path) : Z := default 0 (num_to_Z (metricValue (pp_metrics p) metric)).
Definition whole (p : prepared_path) : Prop := metricValue (pp_metrics p) metric = n_of_Z (path_Z p) /\ 0 <= path_Z p.
Definition through (k : jstr) : Z := sum_Z (map (fun p => if bool_decide (k ∈ map pn_id (pp_path p)) then path_Z p else 0) P).

Hypothesis Hstages : NoDup stages.
Hypothesis Hpaths : Forall (fun p => path_ok stages (pp_path p)) P.
Hypothesis Hwhole : Forall whole P.
Hypothesis Htotal : sum_Z (map path_Z P) < 2 ^ 53.

Notation nodes := (run_events (map (node_event metric color) (node_hits P)) []).
Notation links := (run_events (map (step_event metric color) (step_hits P)) []).

Lemma part_le (f : prepared_path -> bool) : 0 <= sum_Z (map (fun p => if f p then path_Z p else 0) P) <= sum_Z (map path_Z P).
Proof using Hwhole.
  unfold sum_Z. revert Hwhole. clear. induction 1 as [|p P' [_ Hp] _ IH]; cbn [map foldr]; [lia|]. destruct (f p); lia.
Qed.

Lemma hit_path {A} (f : prepared_path -> list A) x : x ∈ mjoin (map (fun p => map (fun a => (a, p)) (f p)) P) ->
  snd x ∈ P /\ fst x ∈ f (snd x).
Proof using.
  intros Hx. apply list_elem_of_join in Hx as (l & Hl & Hin). apply list_elem_of_In, in_map_iff in Hin as (p & <- & Hp).
  apply list_elem_of_In, in_map_iff in Hl as (a & <- & Ha). cbn. by rewrite !list_elem_of_In.
Qed.

Lemma path_hit {A} (f : prepared_path -> list A) a p : p ∈ P -> a ∈ f p -> (a, p) ∈ mjoin (map (fun p => map (fun a => (a, p)) (f p)) P).
Proof using.
  intros Hp Ha. apply list_elem_of_join. exists (map (fun a => (a, p)) (f p)).
  split; apply list_elem_of_In; [apply (in_map (fun a => (a, p)))|apply (in_map (fun p => map (fun a => (a, p)) (f p)))]; by apply list_elem_of_In.
Qed.

Lemma hits_whole {A} (f : prepared_path -> list A) :
  Forall (fun x => whole (snd x)) (mjoin (map (fun p => map (fun a => (a, p)) (f p)) P)).
Proof using Hwhole. apply Forall_elem. intros x Hx. apply hit_path in Hx as [Hx _]. rewrite Forall_elem in Hwhole. by apply Hwhole. Qed.

Lemma node_adds : Forall (fun x => nd_value (snd (fst (node_event metric color x))) = n_zero
  /\ (forall v, nd_value (snd (node_event metric color x) v) = n_add (nd_value v) (n_of_Z (path_Z (snd x)))) /\ 0 <= path_Z (snd x)) (node_hits P).
Proof using Hwhole.
  generalize (hits_whole pp_path). apply Forall_impl. intros x [Hv Hz]. split_and!; [done| |done]. intros v. cbn. by rewrite Hv.
Qed.

Lemma step_adds : Forall (fun x => lk_value (snd (fst (step_event metric color x))) = n_zero
  /\ (forall v, lk_value (snd (step_event metric color x) v) = n_add (lk_value v) (n_of_Z (path_Z (snd x)))) /\ 0 <= path_Z (snd x)) (step_hits P).
Proof using Hwhole.
  generalize (hits_whole (fun p => path_steps (pp_path p))). apply Forall_impl. intros x [Hv Hz]. split_and!; [done| |done].
  intros v. cbn. by rewrite Hv.
Qed.

Lemma ids_nodup : Forall (fun p => NoDup (map pn_id (pp_path p))) P.
Proof using Hstages Hpaths. revert Hpaths. apply Forall_impl. intros p. by apply path_ids_nodup. Qed.

Lemma node_total k : key_total (node_event metric color) (fun x => path_Z (snd x)) (node_hits P) k = through k.
Proof using Hstages Hpaths. apply (sum_hits pp_path pn_id path_Z k P), ids_nodup. Qed.

Lemma steps_plain p a b : p ∈ P -> (a, b) ∈ path_steps (pp_path p) -> 0 ∉ pn_id a /\ 0 ∉ pn_id b /\ a ∈ removelast (pp_path p) /\ b ∈ tail (pp_path p).
Proof using Hpaths.
  intros Hp Hab. rewrite Forall_elem in Hpaths. specialize (Hpaths _ Hp). pose proof (po_plain _ _ Hpaths) as Hpl. rewrite Forall_elem in Hpl.
  assert (a ∈ removelast (pp_path p)) as Ha by (rewrite <- steps_sources; apply list_elem_of_In, in_map_iff; exists (a, b); split; [done|by apply list_elem_of_In]).
  assert (b ∈ tail (pp_path p)) as Hb by (rewrite <- steps_targets; apply list_elem_of_In, in_map_iff; exists (a, b); split; [done|by apply list_elem_of_In]).
  split_and!; [apply Hpl|apply Hpl|done|done].
  - destruct (pp_path p) as [|x l] eqn:E; [by apply not_elem_of_nil in Ha|]. rewrite (app_removelast_last x) by done. apply elem_of_app. by left.
  - destruct (pp_path p); [by apply not_elem_of_nil in Hb|]. by right.
Qed.

Notation step_key := (fun ab : path_node * path_node => pathLinkKey (fst ab) (snd ab)).

Lemma sources_nodup : Forall (fun p => NoDup (map (fun ab => pn_id (fst ab)) (path_steps (pp_path p)))) P.
Proof using Hstages Hpaths.
  generalize ids_nodup. apply Forall_impl. intros p Hn. rewrite <- (map_map fst pn_id), steps_sources.
  destruct (pp_path p) as [|x l]; [apply NoDup_nil_2|]. rewrite (app_removelast_last x) in Hn by done. rewrite map_app in Hn.
  by apply list.NoDup_app in Hn as [? _].
Qed.

Lemma targets_nodup : Forall (fun p => NoDup (map (fun ab => pn_id (snd ab)) (path_steps (pp_path p)))) P.
Proof using Hstages Hpaths.
  generalize ids_nodup. apply Forall_impl. intros p Hn. rewrite <- (map_map snd pn_id), steps_targets.
  destruct (pp_path p) as [|x l]; [done|]. cbn in Hn. by apply list.NoDup_cons in Hn as [_ ?].
Qed.

Lemma step_keys_nodup : Forall (fun p => NoDup (map step_key (path_steps (pp_path p)))) P.
Proof using Hstages Hpaths.
  apply Forall_elem. intros p Hp. pose proof sources_nodup as Hn. rewrite Forall_elem in Hn. specialize (Hn _ Hp).
  assert (Forall (fun ab => 0 ∉ pn_id (fst ab)) (path_steps (pp_path p))) as Hpl.
  { apply Forall_elem. intros [a b] Hab. by apply (steps_plain p a b Hp Hab). }
  induction (path_steps (pp_path p)) as [|ab l IH]; cbn [map] in *; [apply NoDup_nil_2|]. apply list.NoDup_cons in Hn as [Hx Hn].
  apply Forall_cons_iff in Hpl as [Ha Hpl]. apply list.NoDup_cons. split; [|by apply IH]. intros Hin. apply Hx.
  apply list_elem_of_In, in_map_iff in Hin as (cd & E & Hin). rewrite Forall_elem in Hpl. apply pair_split in E as [E _].
  - apply list_elem_of_In, in_map_iff. by exists cd.
  - apply Hpl. by apply list_elem_of_In.
  - done.
Qed.

Lemma step_total_bound k : key_total (step_event metric color) (fun x => path_Z (snd x)) (step_hits P) k < 2 ^ 53.
Proof using Hstages Hpaths Hwhole Htotal.
  pose proof (sum_hits (fun p => path_steps (pp_path p)) step_key path_Z k P step_keys_nodup) as E. unfold key_total.
  change (sum_Z (map (fun x => path_Z (snd x)) (List.filter (fun x => bool_decide (step_key (fst x) = k)) (step_hits P))) < 2 ^ 53).
  unfold step_hits. rewrite E.
  pose proof (part_le (fun p => bool_decide (k ∈ map step_key (path_steps (pp_path p))))). lia.
Qed.

Lemma node_total_bound k : key_total (node_event metric color) (fun x => path_Z (snd x)) (node_hits P) k < 2 ^ 53.
Proof using Hstages Hpaths Hwhole Htotal. rewrite node_total. unfold through. pose proof (part_le (fun p => bool_decide (k ∈ map pn_id (pp_path p)))). lia. Qed.

(** What a node of the graph is. *)
Record node_fact (k : jstr) (n : flow_node) : Prop := {
  nf_key : nd_id n = k;
  nf_tag : tagged (nd_kind n) k;
  nf_stage : nd_kind n ∈ stages;
  nf_total : nd_value n = n_of_Z (through k)
}.

Lemma path_member p x : p ∈ P -> x ∈ pp_path p -> tagged (pn_kind x) (pn_id x) /\ pn_kind x ∈ stages.
Proof using Hpaths.
  intros Hp Hx. rewrite Forall_elem in Hpaths. destruct (Hpaths _ Hp) as [Hk Ht _]. rewrite Forall_elem in Ht. split; [by apply Ht|].
  rewrite <- Hk. apply list_elem_of_In, in_map, list_elem_of_In, Hx.
Qed.

Lemma node_facts k n : (k, n) ∈ nodes -> node_fact k n.
Proof using Hstages Hpaths Hwhole Htotal.
  intros Hin. pose proof (run_entry _ _ _ _ Hin) as He.
  assert (nd_id n = k /\ tagged (nd_kind n) k /\ nd_kind n ∈ stages) as (H1 & H2 & H3).
  { revert n He Hin. refine (fun n He _ => accumulated_ind (fun n => nd_id n = k /\ tagged (nd_kind n) k /\ nd_kind n ∈ stages) None _ _ _ n He); [done|].
    apply Forall_map, Forall_elem. intros x Hx. apply list_elem_of_In, filter_In in Hx as [Hx Ek]. apply bool_decide_eq_true in Ek.
    apply list_elem_of_In, (hit_path pp_path) in Hx as [Hp Hx]. cbn in Ek. subst k. split; [|done]. split; [done|]. by eapply path_member. }
  split; [done..|]. rewrite <- node_total. apply (run_value _ _ _ _ node_adds node_total_bound k n Hin).
Qed.

(** What a link of the graph is. *)
Lemma link_facts k l : (k, l) ∈ links -> k = linkStableKey l /\
  exists a b p, p ∈ P /\ (a, b) ∈ path_steps (pp_path p) /\ lk_source l = pn_id a /\ lk_target l = pn_id b.
Proof using.
  intros Hin. pose proof (run_entry _ _ _ _ Hin) as He.
  refine (accumulated_ind (fun l => k = linkStableKey l /\ exists a b p, p ∈ P /\ (a, b) ∈ path_steps (pp_path p) /\
    lk_source l = pn_id a /\ lk_target l = pn_id b) None _ _ _ l He); [done|].
  apply Forall_map, Forall_elem. intros [[a b] p] Hx. apply list_elem_of_In, filter_In in Hx as [Hx Ek]. apply bool_decide_eq_true in Ek.
  apply list_elem_of_In, (hit_path (fun p => path_steps (pp_path p))) in Hx as [Hp Hx]. cbn in Ek. subst k. split; [|done].
  split; [done|]. by exists a, b, p.
Qed.

Lemma link_ends k l x : (k, l) ∈ links -> x ∈ step_hits P -> step_key (fst x) = k ->
  lk_source l = pn_id (fst (fst x)) /\ lk_target l = pn_id (snd (fst x)).
Proof using Hpaths.
  intros Hl Hx Ek. apply link_facts in Hl as (-> & a & b & p & Hp & Hab & Ea & Eb).
  apply (hit_path (fun p => path_steps (pp_path p))) in Hx as [Hq Hx]. destruct x as [[c d] q]. cbn [fst snd] in *.
  unfold pathLinkKey, linkStableKey in Ek. rewrite Ea, Eb in *. destruct (steps_plain p a b Hp Hab) as [H1 _], (steps_plain q c d Hq Hx) as [H2 _].
  by apply pair_split in Ek as [-> ->].
Qed.

(** Terms that add up to a total. *)
Definition adds_to (l : list num) (total : Z) : Prop :=
  exists zs, l = map n_of_Z zs /\ Forall (fun z => 0 <= z) zs /\ sum_Z zs = total.

(** The links whose ends satisfy a test carry the paths whose steps do. *)
Lemma links_add (test : jstr -> jstr -> bool) :
  adds_to (map lk_value (List.filter (fun l => test (lk_source l) (lk_target l)) (map snd links)))
    (sum_Z (map (fun x => path_Z (snd x)) (List.filter (fun x => test (pn_id (fst (fst x))) (pn_id (snd (fst x)))) (step_hits P)))).
Proof using Hstages Hpaths Hwhole Htotal.
  apply (run_total (step_event metric color) lk_value (fun x => path_Z (snd x)) (step_hits P) step_adds step_total_bound).
  intros k l x Hl Hx Ek. by destruct (link_ends k l x Hl Hx Ek) as [-> ->].
Qed.

Lemma in_removelast {A} (x : A) l : x ∈ removelast l -> x ∈ l.
Proof using. destruct l as [|a l]; [done|]. intros H. rewrite (app_removelast_last a) by done. apply elem_of_app. by left. Qed.

Lemma sum_pointwise (f g : prepared_path -> Z) : (forall p, p ∈ P -> f p = g p) -> sum_Z (map f P) = sum_Z (map g P).
Proof using. intros E. f_equal. apply map_ext_in. intros p Hp. by apply E, list_elem_of_In. Qed.

Lemma inflow k kind : tagged kind k -> Some kind <> head stages ->
  adds_to (map lk_value (List.filter (fun l => bool_decide (lk_target l = k)) (map snd links))) (through k).
Proof using Hstages Hpaths Hwhole Htotal.
  intros Hk Hh. pose proof (links_add (fun _ b => bool_decide (b = k))) as Ha.
  unfold step_hits in Ha. rewrite (sum_hits (fun p => path_steps (pp_path p)) (fun ab => pn_id (snd ab)) path_Z k P targets_nodup) in Ha.
  rewrite (sum_pointwise _ (fun p => if bool_decide (k ∈ map pn_id (pp_path p)) then path_Z p else 0)) in Ha; [exact Ha|].
  intros p Hp. rewrite <- (map_map snd pn_id), steps_targets. apply (f_equal (fun b : bool => if b then path_Z p else 0)), bool_decide_ext.
  rewrite Forall_elem in Hpaths. destruct (Hpaths _ Hp) as [Hkinds Ht _]. destruct (pp_path p) as [|x l]; [done|]. cbn [map tail].
  rewrite elem_of_cons. split; [by right|]. intros [->|Hin]; [|done]. exfalso. apply Hh. apply Forall_cons_iff in Ht as [Ht _].
  rewrite <- Hkinds. cbn. f_equal. by eapply tagged_kind.
Qed.

Lemma outflow k kind : tagged kind k -> Some kind <> list.last stages ->
  adds_to (map lk_value (List.filter (fun l => bool_decide (lk_source l = k)) (map snd links))) (through k).
Proof using Hstages Hpaths Hwhole Htotal.
  intros Hk Hh. pose proof (links_add (fun a _ => bool_decide (a = k))) as Ha.
  unfold step_hits in Ha. rewrite (sum_hits (fun p => path_steps (pp_path p)) (fun ab => pn_id (fst ab)) path_Z k P sources_nodup) in Ha.
  rewrite (sum_pointwise _ (fun p => if bool_decide (k ∈ map pn_id (pp_path p)) then path_Z p else 0)) in Ha; [exact Ha|].
  intros p Hp. rewrite <- (map_map fst pn_id), steps_sources. apply (f_equal (fun b : bool => if b then path_Z p else 0)), bool_decide_ext.
  rewrite Forall_elem in Hpaths. destruct (Hpaths _ Hp) as [Hkinds Ht _]. destruct (pp_path p) as [|x l]; [done|].
  rewrite (app_removelast_last x (l := x :: l)) in Ht, Hkinds |- * by done. set (z := List.last (x :: l) x) in *. rewrite removelast_app by done. cbn [removelast].
  rewrite app_nil_r, map_app, elem_of_app. split; [by left|]. intros [Hin|Hin]; [done|]. apply list_elem_of_singleton in Hin as ->.
  exfalso. apply Hh. apply Forall_app in Ht as [_ Ht]. apply Forall_cons_iff in Ht as [Ht _].
  rewrite <- Hkinds, map_app. cbn. rewrite last_snoc. f_equal. by eapply tagged_kind.
Qed.

Lemma column s : s ∈ stages ->
  adds_to (map nd_value (List.filter (fun n => bool_decide (nd_kind n = s)) (map snd nodes))) (sum_Z (map path_Z P)).
Proof using Hstages Hpaths Hwhole Htotal.
  intros Hs. destruct (run_total (node_event metric color) nd_value (fun x => path_Z (snd x)) (node_hits P) node_adds node_total_bound
    (fun n => bool_decide (nd_kind n = s)) (fun x => bool_decide (pn_kind (fst x) = s))) as (zs & E & Hn & Ez).
  - intros k n x Hn Hx Ek. apply node_facts in Hn as [_ Ht _ _]. apply (hit_path pp_path) in Hx as [Hp Hx].
    destruct (path_member _ _ Hp Hx) as [Htx _]. cbn in Ek. subst k. by rewrite (tagged_kind _ _ _ Ht Htx).
  - exists zs. split_and!; [done|done|]. rewrite Ez. unfold node_hits. rewrite filter_mjoin, map_map, sum_map_mjoin. apply sum_pointwise.
    intros p Hp. rewrite filter_map, map_map. cbn [fst snd]. rewrite Forall_elem in Hpaths. destruct (Hpaths _ Hp) as [Hkinds _ _].
    assert (forall l, NoDup (map pn_kind l) -> sum_Z (map (fun _ => path_Z p) (List.filter (fun n => bool_decide (pn_kind n = s)) l))
      = if bool_decide (s ∈ map pn_kind l) then path_Z p else 0) as Hone.
    { clear. intros l. induction l as [|x l IH]; intros Hn; [done|]. cbn [map List.filter] in *. apply list.NoDup_cons in Hn as [Hx Hn].
      specialize (IH Hn). destruct (decide (pn_kind x = s)) as [<-|Hne].
      - rewrite (bool_decide_eq_true_2 (pn_kind x = pn_kind x)), (bool_decide_eq_true_2 (pn_kind x ∈ _ :: _)) by (done || by left).
        rewrite bool_decide_eq_false_2 in IH by done. cbn [map]. change (sum_Z (?a :: ?b)) with (a + sum_Z b). lia.
      - rewrite (bool_decide_eq_false_2 (pn_kind x = s)) by done. rewrite IH.
        by rewrite (bool_decide_ext (s ∈ pn_kind x :: map pn_kind l) (s ∈ map pn_kind l)) by (rewrite elem_of_cons; naive_solver). }
    rewrite Hone, Hkinds, bool_decide_eq_true_2 by (done || by rewrite Hkinds). done.
Qed.

(** The links of the first step carry every path. *)
Lemma first_step : (2 <= length stages)%nat ->
  adds_to (map lk_value (List.filter (fun l => bool_decide (lk_source l ∈ root_ids P)) (map snd links))) (sum_Z (map path_Z P)).
Proof using Hstages Hpaths Hwhole Htotal.
  intros H2. pose proof (links_add (fun a _ => bool_decide (a ∈ root_ids P))) as Ha.
  assert (sum_Z (map (fun x => path_Z (snd x)) (List.filter (fun x => bool_decide (pn_id (fst (fst x)) ∈ root_ids P)) (step_hits P)))
    = sum_Z (map path_Z P)) as E; [|rewrite <- E; exact Ha].
  unfold step_hits. rewrite filter_mjoin, map_map, sum_map_mjoin. apply sum_pointwise. intros p Hp. rewrite filter_map, map_map. cbn [fst snd].
  rewrite Forall_elem in Hpaths. pose proof (Hpaths _ Hp) as [Hkinds Ht _].
  destruct (pp_path p) as [|x [|y l]] eqn:Ep; [by rewrite <- Hkinds in H2; cbn in H2; lia..|].
  assert (Forall (fun ab => pn_id (fst ab) ∉ root_ids P) (path_steps (y :: l))) as Hrest.
  { apply Forall_elem. intros [a b] Hab Hr. unfold root_ids in Hr. apply list_elem_of_omap in Hr as (q & Hq & Er).
    pose proof (Hpaths _ Hq) as [Hkq Htq _]. destruct (pp_path q) as [|r m]; [done|]. injection Er as Er. cbn [fst] in Er.
    assert (a ∈ y :: l) as Ha'.
    { apply in_removelast. rewrite <- steps_sources. apply list_elem_of_In, in_map_iff. exists (a, b). split; [done|by apply list_elem_of_In]. }
    apply Forall_cons_iff in Ht as [_ Ht]. rewrite Forall_elem in Ht. specialize (Ht _ Ha'). apply Forall_cons_iff in Htq as [Htq _].
    rewrite Er in Htq. assert (pn_kind r = pn_kind a) as Ek by (by eapply tagged_kind).
    pose proof Hstages as Hn. rewrite <- Hkinds in Hn. rewrite <- Hkq in Hkinds. cbn [map] in Hkinds, Hn. injection Hkinds as Ekx _.
    apply list.NoDup_cons in Hn as [Hx _]. apply Hx. rewrite Ekx, Ek. change (pn_kind y :: map pn_kind l) with (map pn_kind (y :: l)).
    apply list_elem_of_In, in_map, list_elem_of_In, Ha'. }
  change (path_steps (x :: y :: l)) with ((x, y) :: path_steps (y :: l)). cbn [List.filter fst]. rewrite bool_decide_eq_true_2.
  - cbn [map]. change (sum_Z (?a :: ?b)) with (a + sum_Z b).
    assert (List.filter (fun ab => bool_decide (pn_id (fst ab) ∈ root_ids P)) (path_steps (y :: l)) = []) as ->; [|unfold sum_Z; cbn; lia].
    clear -Hrest. induction Hrest as [|ab l' Hab _ IH]; [done|]. cbn. by rewrite bool_decide_eq_false_2, IH by done.
  - unfold root_ids. apply list_elem_of_omap. exists p. split; [done|]. by rewrite Ep.
Qed.
End Graph.

(** ** What display does not change *)
Definition node_core (n : flow_node) : jstr * flow_kind * num := (nd_id n, nd_kind n, nd_value n).
Definition link_core (l : flow_link) : jstr * jstr * num := (lk_source l, lk_target l, lk_value l).

Lemma map_values_map {K V B} (g : V -> B) (f : V -> V) (m : list (K * V)) : (forall v, g (f v) = g v) ->
  map g (map snd (map_values f m)) = map g (map snd m).
Proof. intros E. unfold map_values. rewrite !map_map. apply map_ext. intros p. apply E. Qed.

Lemma alter_map {A B} (g : A -> B) (f : A -> A) i l : (forall x, g (f x) = g x) -> map g (alter f i l) = map g l.
Proof. intros E. revert i. induction l as [|x l IH]; intros [|i]; cbn; [done|done|by rewrite E|by rewrite IH]. Qed.

Lemma fold_left_inv {A B C} (g : C -> B) (f : C -> A -> C) l c : (forall c x, g (f c x) = g c) -> g (fold_left f l c) = g c.
Proof. intros E. revert c. induction l as [|x l IH]; intros c; cbn; [done|]. by rewrite IH, E. Qed.

Lemma display_map `{Collation} {B} (g : flow_link -> B) links : (forall a l, g (with_display a l) = g l) ->
  map g (assignLinkDisplayColors links) = map g links.
Proof.
  intros E. unfold assignLinkDisplayColors. rewrite (fold_left_inv (map g)); [done|]. intros ls [k group].
  rewrite (fold_left_inv (map g)); [done|]. intros ls' [index [position l]]. by apply alter_map.
Qed.

Lemma mask_core ns ls : map node_core (map snd (fst (maskFlowGraphLabels ns ls))) = map node_core (map snd ns) /\
  map link_core (map snd (snd (maskFlowGraphLabels ns ls))) = map link_core (map snd ls).
Proof.
  unfold maskFlowGraphLabels. cbn [fst snd]. split.
  - apply map_values_map. intros n. unfold mask_node. by destruct (masks_node n).
  - destruct (fold_left _ _ _); [done|]. by apply map_values_map.
Qed.

Lemma highlight_core ns ls sets : map node_core (map snd (fst (applyFlowHighlights ns ls sets))) = map node_core (map snd ns) /\
  map link_core (map snd (snd (applyFlowHighlights ns ls sets))) = map link_core (map snd ls).
Proof. destruct sets as [sets|]; [|done]. split; by apply map_values_map. Qed.

(** Sums over links by their ends, and over nodes by their kind. *)
Lemma link_values_perm a b (test : jstr -> jstr -> bool) : Permutation (map link_core a) (map link_core b) ->
  Permutation (map lk_value (List.filter (fun l => test (lk_source l) (lk_target l)) a))
    (map lk_value (List.filter (fun l => test (lk_source l) (lk_target l)) b)).
Proof.
  intros Hp. assert (forall l, map lk_value (List.filter (fun l => test (lk_source l) (lk_target l)) l)
    = map snd (List.filter (fun c => test (fst (fst c)) (snd (fst c))) (map link_core l))) as E
    by (intros l; by rewrite filter_map, map_map).
  by rewrite !E, Hp.
Qed.

Lemma node_values_perm a b (test : flow_kind -> bool) : Permutation (map node_core a) (map node_core b) ->
  Permutation (map nd_value (List.filter (fun n => test (nd_kind n)) a)) (map nd_value (List.filter (fun n => test (nd_kind n)) b)).
Proof.
  intros Hp. assert (forall l, map nd_value (List.filter (fun n => test (nd_kind n)) l)
    = map snd (List.filter (fun c => test (snd (fst c))) (map node_core l))) as E by (intros l; by rewrite filter_map, map_map).
  by rewrite !E, Hp.
Qed.

(** Members of a list and of a map that agree up to order and display. *)
Lemma perm_entry {K A B} (f : A -> B) (a : list A) (m : list (K * A)) x : Permutation (map f a) (map f (map snd m)) -> x ∈ a ->
  exists k y, (k, y) ∈ m /\ f y = f x.
Proof.
  intros Hp Hx. assert (f x ∈ map f a) as Hin by (apply list_elem_of_In, in_map, list_elem_of_In, Hx). rewrite Hp in Hin.
  apply list_elem_of_In, in_map_iff in Hin as (y & E & Hy). apply in_map_iff in Hy as ([k y'] & [= ->] & Hy). exists k, y.
  split; [by apply list_elem_of_In|done].
Qed.

Lemma entry_perm {K A B} (f : A -> B) (a : list A) (m : list (K * A)) k y : Permutation (map f a) (map f (map snd m)) -> (k, y) ∈ m ->
  exists x, x ∈ a /\ f x = f y.
Proof.
  intros Hp Hy. assert (f y ∈ map f (map snd m)) as Hin.
  { apply list_elem_of_In, in_map, in_map_iff. exists (k, y). split; [done|by apply list_elem_of_In]. }
  rewrite <- Hp in Hin. apply list_elem_of_In, in_map_iff in Hin as (x & E & Hx). exists x. split; [by apply list_elem_of_In|done].
Qed.

Section Dashboard.
Context `{Collation} (t : jstr -> jstr) (deletedLabel : option (num -> jstr)) (schemes : list (option num * option (list (option jstr)))).

(** The paths that are drawn. *)
Definition drawn (rows : list flow_row) (metric : flow_metric) (role : flow_role) (visible : option (list flow_kind)) (options : graph_options)
  : list prepared_path :=
  preparePaths t deletedLabel rows metric (resolveVisibleStages role visible) options.

(** The last steps, from the maps of nodes and links. *)
Definition finish_graph (P : list prepared_path) (stages : list flow_kind) (options : graph_options)
    (maps : list (jstr * flow_node) * list (jstr * flow_link)) : flow_graph :=
  let maps := if go_maskSensitive options then maskFlowGraphLabels (fst maps) (snd maps) else maps in
  let maps := applyFlowHighlights (fst maps) (snd maps) (buildFlowHighlightSets P (go_activeNode options) (go_activeLink options) stages) in
  let flowLinks := sort_with by_ends (map snd (snd maps)) in
  FlowGraph (sort_with byValueThenLabel (map snd (fst maps)))
    (assignLinkDisplayColors (map (with_share (first_step_total (root_ids P) flowLinks)) flowLinks)).

Definition raw_maps (metric : flow_metric) (color : jstr -> jstr) (P : list prepared_path) : list (jstr * flow_node) * list (jstr * flow_link) :=
  (run_events (map (node_event metric color) (node_hits P)) [], run_events (map (step_event metric color) (step_hits P)) []).

(** The colour of the paths from a root. *)
Definition root_color (palette : option (list jstr)) (P : list prepared_path) (id : jstr) : jstr :=
  default (colorAt schemes 0 palette) (map_get id (stableColorMap schemes (sort_with localeCompare (root_ids P)) palette)).

Lemma graph_finish rows metric role palette visible options :
  let P := drawn rows metric role visible options in
  buildFlowGraph t deletedLabel schemes rows metric role palette visible options
  = finish_graph P (resolveVisibleStages role visible) options (raw_maps metric (root_color palette P) P).
Proof using.
  intros P. pose proof (add_paths metric (root_color palette P) P ([], [])) as E. cbn [fst snd] in E. unfold raw_maps. by rewrite <- E.
Qed.

Lemma finish_core P stages options maps :
  let g := finish_graph P stages options maps in
  Permutation (map node_core (fg_nodes g)) (map node_core (map snd (fst maps))) /\
  Permutation (map link_core (fg_links g)) (map link_core (map snd (snd maps))) /\
  let total := first_step_total (root_ids P) (fg_links g) in
  Forall (fun l => lk_share l = if n_ltb n_zero total then n_div (lk_value l) total else n_zero) (fg_links g).
Proof using.
  intros g. unfold finish_graph in g. cbv zeta in g.
  set (masked := if go_maskSensitive options then maskFlowGraphLabels (fst maps) (snd maps) else maps) in g.
  assert (map node_core (map snd (fst masked)) = map node_core (map snd (fst maps)) /\
    map link_core (map snd (snd masked)) = map link_core (map snd (snd maps))) as [M1 M2]
    by (unfold masked; destruct (go_maskSensitive options); [apply mask_core|done]).
  set (sets := buildFlowHighlightSets _ _ _ _) in g. set (marked := applyFlowHighlights (fst masked) (snd masked) sets) in g.
  destruct (highlight_core (fst masked) (snd masked) sets) as [K1 K2]. fold marked in K1, K2.
  set (sorted := sort_with by_ends (map snd (snd marked))) in g. set (total := first_step_total (root_ids P) sorted) in g.
  assert (forall l, link_core (with_share total l) = link_core l) as Hshare by done.
  assert (map link_core (fg_links g) = map link_core sorted) as Hcore.
  { unfold g. cbn [fg_links]. rewrite display_map by (intros a l; unfold with_display; by destruct (alphaColor _ _)). by rewrite map_map. }
  split_and!.
  - unfold g. cbn [fg_nodes]. rewrite <- M1, <- K1. apply Permutation_map. symmetry. apply sort_with_perm.
  - rewrite Hcore, <- M2, <- K2. apply Permutation_map. symmetry. apply sort_with_perm.
  - intros total'. assert (total' = total) as ->.
    { unfold total', total, first_step_total.
      assert (forall l (c : num), fold_left (fun sum l => n_add sum (lk_value l)) (List.filter (fun l => bool_decide (lk_source l ∈ root_ids P)) l) c
        = fold_left n_add (map snd (List.filter (fun c => bool_decide (fst (fst c) ∈ root_ids P)) (map link_core l))) c) as E
        by (intros l c; by rewrite filter_map, map_map, fold_left_map).
      by rewrite !E, Hcore. }
    assert (map (fun l => (lk_value l, lk_share l)) (fg_links g)
      = map (fun l => (lk_value l, if n_ltb n_zero total then n_div (lk_value l) total else n_zero)) sorted) as E.
    { unfold g. cbn [fg_links]. rewrite display_map by (intros a l; unfold with_display; by destruct (alphaColor _ _)). by rewrite map_map. }
    apply Forall_elem. intros l Hl. assert ((lk_value l, lk_share l) ∈ map (fun l => (lk_value l, lk_share l)) (fg_links g)) as Hin
      by (apply list_elem_of_In, (in_map (fun l => (lk_value l, lk_share l))), list_elem_of_In, Hl).
    rewrite E in Hin. apply list_elem_of_In, in_map_iff in Hin as (l' & [= -> <-] & _). done.
Qed.

(** Rows with whole, non-negative metrics whose total is below [2^53], and with
    names without null characters. *)
Definition row_Z (metric : flow_metric) (row : flow_row) : Z := default 0 (num_to_Z (metricValue (rowMetrics row) metric)).

Record rows_ok (metric : flow_metric) (stages : list flow_kind) (rows : list flow_row) : Prop := {
  ro_whole : Forall (fun row => metricValue (rowMetrics row) metric = n_of_Z (row_Z metric row) /\ 0 <= row_Z metric row) rows;
  ro_total : sum_Z (map (row_Z metric) rows) < 2 ^ 53;
  ro_plain : Forall (fun row => Forall (fun n => 0 ∉ pn_id n) (flowPathForStages t deletedLabel row stages)) rows
}.

Lemma drawn_ok rows metric role visible options : rows_ok metric (resolveVisibleStages role visible) rows ->
  let P := drawn rows metric role visible options in
  Forall (fun p => path_ok (resolveVisibleStages role visible) (pp_path p)) P /\ Forall (whole metric) P /\
  sum_Z (map (path_Z metric) P) < 2 ^ 53.
Proof using.
  intros [Hw Ht Hp] P. set (stages := resolveVisibleStages role visible) in *. unfold P, drawn, preparePaths. fold stages.
  set (sets := buildTopNodeSets _ _ _ _ _ _). set (mode := default _ _). clearbody sets mode. clear P.
  assert (forall l, Forall (fun row => metricValue (rowMetrics row) metric = n_of_Z (row_Z metric row) /\ 0 <= row_Z metric row) l ->
    Forall (fun row => Forall (fun n => 0 ∉ pn_id n) (flowPathForStages t deletedLabel row stages)) l ->
    let P := omap (fun row => (fun path => Prepared path (rowMetrics row))
      <$> applyTopNodeLimit (flowPathForStages t deletedLabel row stages) sets mode (go_otherNodeLabel options)) l in
    Forall (fun p => path_ok stages (pp_path p)) P /\ Forall (whole metric) P /\ sum_Z (map (path_Z metric) P) <= sum_Z (map (row_Z metric) l)) as Hall.
  { clear -H. intros l Hw Hp. induction l as [|row l IH]; [by split_and!; try constructor|].
    apply Forall_cons_iff in Hw as [Hwr Hw]. apply Forall_cons_iff in Hp as [Hpr Hp]. destruct (IH Hw Hp) as (I1 & I2 & I3).
    cbn [map]. change (sum_Z (?a :: ?b)) with (a + sum_Z b).
    destruct (applyTopNodeLimit (flowPathForStages t deletedLabel row stages) sets mode (go_otherNodeLabel options)) as [path|] eqn:E; cbn [omap list_omap]; rewrite E; cbn [fmap option_fmap option_map].
    - split_and!; [constructor; [|done]|constructor; [|done]|].
      + cbn. eapply limited_path_ok; [|exact E]. by apply flow_path_ok.
      + exact Hwr.
      + cbn [map]. change (sum_Z (?a :: ?b)) with (a + sum_Z b). unfold path_Z at 1. cbn [pp_metrics]. unfold row_Z at 1. lia.
    - split_and!; [done|done|lia]. }
  destruct (Hall rows Hw Hp) as (A1 & A2 & A3). split_and!; [done|done|lia].
Qed.

Lemma all_drawn rows metric role visible options : go_overflowMode options <> Some OM_hide ->
  map pp_metrics (drawn rows metric role visible options) = map rowMetrics rows.
Proof using.
  intros Hm. unfold drawn, preparePaths. assert (default OM_aggregate (go_overflowMode options) = OM_aggregate) as ->
    by (by destruct (go_overflowMode options) as [[]|]).
  set (sets := buildTopNodeSets _ _ _ _ _ _). clearbody sets. induction rows as [|row rows IH]; [done|]. cbn [omap list_omap map].
  assert (exists path, applyTopNodeLimit (flowPathForStages t deletedLabel row (resolveVisibleStages role visible)) sets OM_aggregate
    (go_otherNodeLabel options) = Some path) as [path ->].
  { unfold applyTopNodeLimit. destruct sets; [|by eexists]. destruct (existsb _ _); by eexists. }
  cbn. by rewrite <- IH.
Qed.

Lemma summary_metric rows metric : metricValue (buildSummary rows) metric = num_sum (map (fun row => metricValue (rowMetrics row) metric) rows).
Proof using.
  unfold buildSummary, num_sum. rewrite fold_left_map.
  assert (forall s, metricValue (fold_left (fun s row => add_metrics s (rowMetrics row)) rows s) metric
    = fold_left (fun c row => n_add c (metricValue (rowMetrics row) metric)) rows (metricValue s metric)) as E; [|rewrite E; by destruct metric].
  induction rows as [|row rows IH]; intros s; [done|]. cbn [fold_left]. rewrite IH. by destruct metric.
Qed.

Lemma adds_total l total m : adds_to m total -> Permutation l m -> total < 2 ^ 53 -> num_sum l = n_of_Z total.
Proof using. intros (zs & -> & Hn & <-) Hp Ht. by apply num_sum_reordered. Qed.
End Dashboard.

(** C36: the flow graph of the dashboard conserves what it shows: for whole
    metrics whose total is below 2^53, and names without null characters, every
    node belongs to a visible column, the links into a node that is not in the
    first column and the links out of one that is not in the last add up to its
    value, the nodes of every column add up to the same total, the share of a
    link is its part of that total, and unless overflowing paths are hidden the
    total is that of the summary. *)
Theorem flow_conserved `{Collation} t deletedLabel schemes rows metric role palette visible options :
  let stages := resolveVisibleStages role visible in
  let g := buildFlowGraph t deletedLabel schemes rows metric role palette visible options in
  let total := num_sum (map (fun p => metricValue (pp_metrics p) metric) (drawn t deletedLabel rows metric role visible options)) in
  rows_ok t deletedLabel metric stages rows ->
  (forall n, n ∈ fg_nodes g -> nd_kind n ∈ stages /\
     (Some (nd_kind n) <> head stages ->
        num_sum (map lk_value (List.filter (fun l => bool_decide (lk_target l = nd_id n)) (fg_links g))) = nd_value n) /\
     (Some (nd_kind n) <> list.last stages ->
        num_sum (map lk_value (List.filter (fun l => bool_decide (lk_source l = nd_id n)) (fg_links g))) = nd_value n)) /\
  (forall s, s ∈ stages -> num_sum (map nd_value (List.filter (fun n => bool_decide (nd_kind n = s)) (fg_nodes g))) = total) /\
  Forall (fun l => lk_share l = if n_ltb n_zero total then n_div (lk_value l) total else n_zero) (fg_links g) /\
  (go_overflowMode options <> Some OM_hide -> total = metricValue (buildSummary rows) metric).
Proof.
  intros stages g total Hrows. pose proof (stages_nodup role visible) as Hs. fold stages in Hs.
  destruct (drawn_ok t deletedLabel rows metric role visible options Hrows) as (Hpaths & Hwhole & Hsum).
  set (P := drawn t deletedLabel rows metric role visible options) in *.
  pose proof (graph_finish t deletedLabel schemes rows metric role palette visible options) as Hg. cbv zeta in Hg. fold P stages g in Hg.
  set (color := root_color schemes palette P) in Hg.
  destruct (finish_core P stages options (raw_maps metric color P)) as (Hn & Hl & Hshare). rewrite <- Hg in Hn, Hl, Hshare.
  cbn [raw_maps fst snd] in Hn, Hl.
  assert (total = n_of_Z (sum_Z (map (path_Z metric) P))) as Htotal.
  { unfold total. rewrite <- (num_sum_integers (map (path_Z metric) P)); [|apply Forall_map; revert Hwhole; apply Forall_impl; by intros p [_ ?]|done].
    f_equal. rewrite map_map. apply map_ext_in. intros p Hp. rewrite Forall_elem in Hwhole. by apply Hwhole, list_elem_of_In. }
  split_and!.
  - intros n Hin. destruct (perm_entry _ _ _ _ Hn Hin) as (k & n' & Hn' & [= E1 E2 E3]).
    destruct (node_facts metric color stages P Hs Hpaths Hwhole Hsum k n' Hn') as [F1 F2 F3 F4]. rewrite <- E1, <- E2, <- E3, F1, F4.
    assert (through metric P k < 2 ^ 53) as Hb by (rewrite <- (node_total metric color stages P Hs Hpaths); by apply (node_total_bound metric color stages P)).
    split_and!; [done| |]; intros Hk.
    + eapply adds_total; [by eapply (inflow metric color stages P Hs Hpaths Hwhole Hsum k)| |done].
      exact (link_values_perm _ _ (fun _ (b : jstr) => bool_decide (b = k)) Hl).
    + eapply adds_total; [by eapply (outflow metric color stages P Hs Hpaths Hwhole Hsum k)| |done].
      exact (link_values_perm _ _ (fun (a : jstr) _ => bool_decide (a = k)) Hl).
  - intros s Hin. rewrite Htotal. eapply adds_total; [by apply (column metric color stages P Hs Hpaths Hwhole Hsum s)| |done].
    exact (node_values_perm _ _ (fun k : flow_kind => bool_decide (k = s)) Hn).
  - assert (first_step_total (root_ids P) (fg_links g) = total) as E; [|by rewrite E in Hshare].
    rewrite Htotal. unfold first_step_total. rewrite <- (fold_left_map n_add lk_value).
    eapply adds_total; [apply (first_step metric color stages P Hs Hpaths Hwhole Hsum); apply stages_two| |done].
    exact (link_values_perm _ _ (fun (a : jstr) _ => bool_decide (a ∈ root_ids P)) Hl).
  - intros Hm. rewrite summary_metric. unfold total. f_equal. rewrite <- (map_map rowMetrics (fun m => metricValue m metric)).
    rewrite <- (all_drawn t deletedLabel rows metric role visible options Hm). by rewrite map_map.
Qed.

(** Two users, two groups and two models; the smaller of each is aggregated. *)
Definition sample_row (user : Z) (group model : string) (quota : Z) : flow_row :=
  FlowRow (Some (n_of_Z user)) None None (Some (js group)) None (Some (js "key")) None None (Some (js model)) None None (Some (n_of_Z quota)).

Definition sample_rows : list flow_row :=
  [sample_row 1 "vip" "gpt-4o" 700; sample_row 1 "default" "gpt-4o" 200; sample_row 2 "vip" "claude" 90; sample_row 2 "default" "gpt-4o" 10].

Definition sample_options : graph_options := GraphOptions (Some n_one) None None None None false.

Lemma flow_conserved_witness :
  let g := @buildFlowGraph code_unit_order id None [] sample_rows FM_quota FR_admin None None sample_options in
  num_sum (map nd_value (List.filter (fun n => bool_decide (nd_kind n = K_model)) (fg_nodes g))) = n_of_Z 1000 /\
  map lk_value (List.filter (fun l => bool_decide (lk_target l = js "group:vip")) (fg_links g)) = [n_of_Z 700; n_of_Z 90].
Proof.
  intros g.
  assert (rows_ok id None FM_quota (resolveVisibleStages FR_admin None) sample_rows) as Hok
    by (split; [apply (bool_decide_unpack _)| |apply (bool_decide_unpack _)]; vm_compute; exact I || reflexivity).
  destruct (@flow_conserved code_unit_order id None [] sample_rows FM_quota FR_admin None None sample_options Hok) as (_ & Hcolumn & _ & Htotal).
  split.
  - refine (eq_trans (Hcolumn K_model _) _); [apply (bool_decide_unpack _); vm_compute; exact I|].
    refine (eq_trans (Htotal _) _); [done|]. vm_compute. reflexivity.
  - vm_compute. reflexivity.
Defined.
