(* ===== verification/FlowViewFacts.v ===== *)
(** * Masking, limits, filters and highlights of the flow graph

    A masked graph shows no name of a sensitive column; a limit bounds the nodes
    of every column; the options of a filter are the nodes that can still be
    chosen; and the highlighted parts are those of the matching paths. *)
From Stdlib Require Import SpecFloat Permutation.
From stdpp Require Import strings.
From S2P Require Import Prelude JsString JsNumber JsValue JsMap IntegerSums Syntax SyntaxFacts TaskConfig TaskConfigFacts Flow FlowFacts.

#[local] Open Scope Z_scope.

(** ** Paths that keep to the columns *)
Record path_columns (stages : list flow_kind) (path : list path_node) : Prop := {
  pc_kinds : map pn_kind path = stages;
  pc_tags : Forall (fun n => tagged (pn_kind n) (pn_id n)) path
}.

Section Drawn.
Context `{Collation} (t : jstr -> jstr) (deletedLabel : option (num -> jstr)).

Lemma flow_path_columns row stages : path_columns stages (flowPathForStages t deletedLabel row stages).
Proof using.
  split; unfold flowPathForStages.
  - rewrite map_map. rewrite (map_ext _ id) by (intros; apply builder_kind). apply map_id.
  - apply Forall_elem. intros n Hn. apply list_elem_of_In, in_map_iff in Hn as (s & <- & _). rewrite builder_kind. apply builder_tagged.
Qed.

(** A drawn path comes from a row; each of its nodes is the row's or stands for
    the rest of its column. *)
Lemma drawn_path rows metric role visible options p : p ∈ drawn t deletedLabel rows metric role visible options ->
  exists row, row ∈ rows /\
    applyTopNodeLimit (flowPathForStages t deletedLabel row (resolveVisibleStages role visible))
      (buildTopNodeSets t deletedLabel rows metric (resolveVisibleStages role visible) (normalizeTopNodeLimit (go_topNodeLimit options)))
      (default OM_aggregate (go_overflowMode options)) (go_otherNodeLabel options) = Some (pp_path p).
Proof using.
  intros Hp. apply list_elem_of_omap in Hp as (row & Hrow & E). exists row. split; [done|].
  apply fmap_Some in E as (path & E & ->). done.
Qed.

Lemma limited_columns stages path sets mode labeler path' : path_columns stages path ->
  applyTopNodeLimit path sets mode labeler = Some path' -> path_columns stages path'.
Proof using.
  intros [Hk Ht]. unfold applyTopNodeLimit. destruct sets as [sets|]; [|by intros [= <-]].
  destruct (existsb _ _); [|by intros [= <-]]. destruct mode; [|done]. intros [= <-]. split.
  - rewrite map_map. rewrite <- Hk. apply map_ext. intros n. by destruct (isTopFlowNode _ _).
  - apply Forall_map. revert Ht. apply Forall_impl. intros n Hn. destruct (isTopFlowNode _ _); [done|apply other_tagged].
Qed.

Lemma drawn_columns rows metric role visible options :
  Forall (fun p => path_columns (resolveVisibleStages role visible) (pp_path p)) (drawn t deletedLabel rows metric role visible options).
Proof using.
  apply Forall_elem. intros p Hp. apply drawn_path in Hp as (row & _ & E). eapply limited_columns; [apply flow_path_columns|exact E].
Qed.
End Drawn.

(** ** The entries of the graph before display *)
Section Entries.
Context (metric : flow_metric) (color : jstr -> jstr) (stages : list flow_kind) (P : list prepared_path).
Hypothesis Hpaths : Forall (fun p => path_columns stages (pp_path p)) P.

Notation nodes := (fst (raw_maps metric color P)).
Notation links := (snd (raw_maps metric color P)).

Lemma node_entry k n : (k, n) ∈ nodes -> nd_id n = k /\ exists p x, p ∈ P /\ x ∈ pp_path p /\ pn_id x = k /\ pn_kind x = nd_kind n.
Proof using.
  intros Hin. pose proof (run_entry _ _ _ _ Hin) as He.
  refine (accumulated_ind (fun n => nd_id n = k /\ exists p x, p ∈ P /\ x ∈ pp_path p /\ pn_id x = k /\ pn_kind x = nd_kind n) None _ _ _ n He); [done|].
  apply Forall_map, Forall_elem. intros [x p] Hx. apply list_elem_of_In, filter_In in Hx as [Hx Ek]. apply bool_decide_eq_true in Ek.
  apply list_elem_of_In, (hit_path P pp_path) in Hx as [Hp Hx]. cbn in Ek, Hp, Hx. subst k. split; [|done]. split; [done|]. by exists p, x.
Qed.

Lemma node_present p x : p ∈ P -> x ∈ pp_path p -> exists n, (pn_id x, n) ∈ nodes.
Proof using.
  intros Hp Hx. destruct (proj2 (map_get_key (pn_id x) nodes)) as [n Hn].
  - apply run_keys. right. exists (node_event metric color (x, p)). split; [|done].
    apply list_elem_of_In, in_map, list_elem_of_In, (path_hit P pp_path x p Hp Hx).
  - exists n. apply map_get_in; [apply run_nodup_nil|done].
Qed.

Lemma node_kind_tag k n : (k, n) ∈ nodes -> tagged (nd_kind n) k /\ nd_kind n ∈ stages.
Proof using Hpaths.
  intros Hin. apply node_entry in Hin as (_ & p & x & Hp & Hx & <- & <-). rewrite Forall_elem in Hpaths.
  destruct (Hpaths _ Hp) as [Hk Ht]. rewrite Forall_elem in Ht. split; [by apply Ht|]. rewrite <- Hk.
  apply list_elem_of_In, in_map, list_elem_of_In, Hx.
Qed.

Lemma link_ends_present k l : (k, l) ∈ links -> (exists n, (lk_source l, n) ∈ nodes) /\ (exists n, (lk_target l, n) ∈ nodes).
Proof using.
  intros Hl. apply (link_facts metric color P) in Hl as (_ & a & b & p & Hp & Hab & -> & ->). split; eapply node_present; try exact Hp.
  - apply in_removelast. rewrite <- steps_sources. apply list_elem_of_In, in_map_iff. exists (a, b). split; [done|by apply list_elem_of_In].
  - assert (b ∈ tail (pp_path p)) as Hb by (rewrite <- steps_targets; apply list_elem_of_In, in_map_iff; exists (a, b); split; [done|by apply list_elem_of_In]).
    destruct (pp_path p); [done|]. by right.
Qed.
End Entries.

(** ** Masking *)
Definition hidden (label : jstr) : Prop := label = [] \/ label = FLOW_MASK_TEXT.

Lemma mask_hidden label : hidden (maskFlowLabel label).
Proof. destruct label; [by left|by right]. Qed.

(** The masks, by id. *)
Definition masks_of (nodes : list (jstr * flow_node)) : list (jstr * jstr) :=
  fold_left (fun m '(_, n) => if masks_node n then map_put (nd_id n) (maskFlowLabel (nd_label n)) m else m) nodes [].

Lemma masks_spec (nodes : list (jstr * flow_node)) m id : (forall k label, map_get k m = Some label -> hidden label) ->
  let m' := fold_left (fun m '(_, n) => if masks_node n then map_put (nd_id n) (maskFlowLabel (nd_label n)) m else m) nodes m in
  (forall k label, map_get k m' = Some label -> hidden label) /\
  ((exists k n, (k, n) ∈ nodes /\ masks_node n = true /\ nd_id n = id) \/ is_Some (map_get id m) -> is_Some (map_get id m')).
Proof.
  revert m. induction nodes as [|[k n] nodes IH]; intros m Hm; cbn [fold_left].
  - split; [done|]. intros [(k & n & Hin & _)|?]; [by apply not_elem_of_nil in Hin|done].
  - destruct (masks_node n) eqn:En.
    + destruct (IH (map_put (nd_id n) (maskFlowLabel (nd_label n)) m)) as [H1 H2].
      { intros j label. rewrite map_get_put. case_bool_decide; [intros [= <-]; apply mask_hidden|apply Hm]. }
      split; [exact H1|]. intros H. apply H2. rewrite map_get_put. case_bool_decide as E; [by right; eexists|].
      destruct H as [(j & n' & Hin & Hn' & Ei)|H]; [|by right]. apply elem_of_cons in Hin as [[= -> ->]|Hin]; [done|]. left. by exists j, n'.
    + destruct (IH m Hm) as [H1 H2]. split; [exact H1|]. intros H. apply H2.
      destruct H as [(j & n' & Hin & Hn' & Ei)|H]; [|by right]. apply elem_of_cons in Hin as [[= -> ->]|Hin]; [congruence|]. left. by exists j, n'.
Qed.

(** A name that must not be shown. *)
Definition secret (id : jstr) : Prop := exists kind, sensitive_kind kind = true /\ tagged kind id /\ id ∉ OTHER_FLOW_NODE_ID_SET.

(** What only labels may change. *)
Definition node_labels (n : flow_node) : jstr * jstr := (nd_id n, nd_label n).
Definition link_labels (l : flow_link) : jstr * jstr * (jstr * jstr) := (lk_source l, lk_sourceLabel l, (lk_target l, lk_targetLabel l)).

Lemma finish_labels `{Collation} P stages options maps :
  let g := finish_graph P stages options maps in
  let masked := if go_maskSensitive options then maskFlowGraphLabels (fst maps) (snd maps) else maps in
  Permutation (map node_labels (fg_nodes g)) (map node_labels (map snd (fst masked))) /\
  Permutation (map link_labels (fg_links g)) (map link_labels (map snd (snd masked))).
Proof.
  intros g masked. unfold finish_graph in g. cbv zeta in g. fold masked in g.
  set (sets := buildFlowHighlightSets _ _ _ _) in g.
  assert (map node_labels (map snd (fst (applyFlowHighlights (fst masked) (snd masked) sets))) = map node_labels (map snd (fst masked)) /\
    map link_labels (map snd (snd (applyFlowHighlights (fst masked) (snd masked) sets))) = map link_labels (map snd (snd masked))) as [K1 K2]
    by (destruct sets; [|done]; split; by apply map_values_map).
  split.
  - unfold g. cbn [fg_nodes]. rewrite <- K1. apply Permutation_map. symmetry. apply sort_with_perm.
  - unfold g. cbn [fg_links]. rewrite display_map by (intros a l; unfold with_display; by destruct (alphaColor _ _)).
    rewrite map_map, <- K2. apply Permutation_map. symmetry. apply sort_with_perm.
Qed.

Section Masked.
Context (metric : flow_metric) (color : jstr -> jstr) (stages : list flow_kind) (P : list prepared_path).
Hypothesis Hpaths : Forall (fun p => path_columns stages (pp_path p)) P.
Notation maps := (raw_maps metric color P).

Lemma secret_masks k n : (k, n) ∈ fst maps -> secret k -> masks_node n = true.
Proof using Hpaths.
  intros Hin (kind & Hs & Ht & Ho). destruct (node_kind_tag metric color stages P Hpaths k n Hin) as [Hn _].
  apply node_entry in Hin as (Hk & _). rewrite (tagged_kind _ _ _ Ht Hn) in Hs. unfold masks_node. rewrite Hs, Hk. cbn [andb].
  by rewrite bool_decide_eq_false_2.
Qed.

Lemma masked_nodes n : n ∈ map snd (fst (maskFlowGraphLabels (fst maps) (snd maps))) -> secret (nd_id n) -> hidden (nd_label n).
Proof using Hpaths.
  intros Hin Hs. cbn [fst maskFlowGraphLabels] in Hin. unfold map_values in Hin. rewrite map_map in Hin.
  apply list_elem_of_In, in_map_iff in Hin as ([k m] & <- & Hin). cbn [snd] in *. apply list_elem_of_In in Hin.
  assert (nd_id (mask_node m) = k) as Ek by (unfold mask_node; destruct (masks_node m); cbn; by apply node_entry in Hin as [? _]).
  rewrite Ek in Hs. unfold mask_node. rewrite (secret_masks k m Hin Hs). apply mask_hidden.
Qed.

Lemma masked_links l : l ∈ map snd (snd (maskFlowGraphLabels (fst maps) (snd maps))) ->
  (secret (lk_source l) -> hidden (lk_sourceLabel l)) /\ (secret (lk_target l) -> hidden (lk_targetLabel l)).
Proof using Hpaths.
  assert (forall id, secret id -> (exists n, (id, n) ∈ fst maps) -> exists label, map_get id (masks_of (fst maps)) = Some label /\ hidden label) as Hmask.
  { intros id Hs [n Hn]. destruct (masks_spec (fst maps) [] id ltac:(done)) as [H1 H2]. destruct H2 as [label Hl].
    - left. exists id, n. split_and!; [done|by eapply secret_masks|by apply node_entry in Hn as [? _]].
    - exists label. split; [done|by eapply H1]. }
  intros Hin. cbn [snd maskFlowGraphLabels] in Hin. fold (masks_of (fst maps)) in Hin.
  assert (exists k m, (k, m) ∈ snd maps /\ (l = mask_link (masks_of (fst maps)) m \/ masks_of (fst maps) = [] /\ l = m)) as (k & m & Hm & Hl).
  { destruct (masks_of (fst maps)) as [|e es] eqn:Em.
    - apply list_elem_of_In, in_map_iff in Hin as ([k m] & <- & Hin). exists k, m. split; [by apply list_elem_of_In|]. by right.
    - unfold map_values in Hin. rewrite map_map in Hin. apply list_elem_of_In, in_map_iff in Hin as ([k m] & <- & Hin). exists k, m.
      split; [by apply list_elem_of_In|]. by left. }
  destruct (link_ends_present metric color P k m Hm) as [Ha Hb]. destruct Hl as [->|[Em ->]].
  - cbn [mask_link lk_source lk_target lk_sourceLabel lk_targetLabel].
    split; intros Hs; destruct (Hmask _ Hs) as (label & -> & Hh); done.
  - split; intros Hs; destruct (Hmask _ Hs) as (label & Hg & Hh); try done; by rewrite Em in Hg.
Qed.
End Masked.

Definition unmasked (options : graph_options) : graph_options :=
  GraphOptions (go_topNodeLimit options) (go_overflowMode options) (go_otherNodeLabel options) (go_activeNode options) (go_activeLink options) false.

(** C37: a masked flow graph shows no name of a user, node, token, group or
    channel: the label of every such node, other than the one that stands for the
    rest of its column, is empty or the mask, and so are the labels at the ends of
    its links; every link runs between nodes of the graph; and masking changes
    neither the nodes and links nor their values. *)
Theorem flow_labels_masked `{Collation} t deletedLabel schemes rows metric role palette visible options :
  let graph := buildFlowGraph t deletedLabel schemes rows metric role palette visible in
  let g := graph options in
  go_maskSensitive options = true ->
  (forall n, n ∈ fg_nodes g -> masks_node n = true -> hidden (nd_label n)) /\
  (forall l, l ∈ fg_links g -> exists a b, a ∈ fg_nodes g /\ b ∈ fg_nodes g /\ nd_id a = lk_source l /\ nd_id b = lk_target l /\
     (masks_node a = true -> hidden (lk_sourceLabel l)) /\ (masks_node b = true -> hidden (lk_targetLabel l))) /\
  Permutation (map node_core (fg_nodes g)) (map node_core (fg_nodes (graph (unmasked options)))) /\
  Permutation (map link_core (fg_links g)) (map link_core (fg_links (graph (unmasked options)))).
Proof.
  intros graph g Hmask. set (stages := resolveVisibleStages role visible).
  set (P := drawn t deletedLabel rows metric role visible options).
  pose proof (drawn_columns t deletedLabel rows metric role visible options) as Hp. fold P stages in Hp.
  pose proof (graph_finish t deletedLabel schemes rows metric role palette visible options) as Hg. cbv zeta in Hg. fold P stages in Hg.
  pose proof (graph_finish t deletedLabel schemes rows metric role palette visible (unmasked options)) as Hu. cbv zeta in Hu.
  change (drawn t deletedLabel rows metric role visible (unmasked options)) with P in Hu. fold stages in Hu.
  set (color := root_color schemes palette P) in *. set (maps := raw_maps metric color P) in *.
  destruct (finish_core P stages options maps) as (N1 & L1 & _). rewrite <- Hg in N1, L1.
  destruct (finish_core P stages (unmasked options) maps) as (N2 & L2 & _). rewrite <- Hu in N2, L2.
  destruct (finish_labels P stages options maps) as [N3 L3]. rewrite <- Hg in N3, L3. rewrite Hmask in N3, L3.
  fold graph in N1, L1, N2, L2, N3, L3. fold g in N1, L1, N3, L3.
  assert (forall n, n ∈ fg_nodes g -> masks_node n = true -> secret (nd_id n)) as Hsecret.
  { intros n Hn Hm. destruct (perm_entry _ _ _ _ N1 Hn) as (k & m & Hin & [= E1 E2 _]).
    pose proof (node_kind_tag metric color stages P Hp k m Hin) as [Ht _]. pose proof (node_entry metric color P k m Hin) as [Ek _].
    rewrite E2, <- Ek, E1 in Ht. unfold masks_node in Hm. bsplit. by exists (nd_kind n). }
  assert (forall id m, (id, m) ∈ fst maps -> exists n, n ∈ fg_nodes g /\ nd_id n = id) as Hnode.
  { intros id m Hm. destruct (entry_perm _ _ _ _ _ N1 Hm) as (n & Hn & [= En _ _]). exists n. split; [done|].
    rewrite En. by apply node_entry in Hm as [? _]. }
  split_and!.
  - intros n Hn Hm. specialize (Hsecret n Hn Hm). destruct (perm_entry _ _ _ _ N3 Hn) as (k & m & Hin & [= E1 E2]).
    rewrite <- E2. rewrite <- E1 in Hsecret. apply (masked_nodes metric color stages P Hp); [|done].
    apply list_elem_of_In, in_map_iff. exists (k, m). split; [done|by apply list_elem_of_In].
  - intros l Hl. destruct (perm_entry _ _ _ _ L3 Hl) as (j & l' & Hl' & [= E1 E2 E3 E4]).
    destruct (masked_links metric color stages P Hp l') as [Ha Hb].
    { apply list_elem_of_In, in_map_iff. exists (j, l'). split; [done|by apply list_elem_of_In]. }
    rewrite E1, E2, E3, E4 in *. destruct (perm_entry _ _ _ _ L1 Hl) as (k & r & Hr & [= R1 R2 _]).
    destruct (link_ends_present metric color P k r Hr) as [[x Hx] [y Hy]]. rewrite R1 in Hx. rewrite R2 in Hy.
    destruct (Hnode _ _ Hx) as (a & Hina & Ea), (Hnode _ _ Hy) as (b & Hinb & Eb). exists a, b. split_and!; [done..| |].
    + intros Hm. apply Ha. rewrite <- Ea. by apply Hsecret.
    + intros Hm. apply Hb. rewrite <- Eb. by apply Hsecret.
  - by rewrite N1, N2.
  - by rewrite L1, L2.
Qed.

(** ** Limits *)
Section Limits.
Context `{Collation} (t : jstr -> jstr) (deletedLabel : option (num -> jstr)).

Lemma map_get_map {K V W} `{EqDecision K} (f : V -> W) (m : list (K * V)) k :
  map_get k (map (fun p => (fst p, f (snd p))) m) = f <$> map_get k m.
Proof using. induction m as [|[j v] m IH]; [done|]. cbn [map fst snd]. rewrite !map_get_cons, IH. by case_bool_decide. Qed.

Lemma rank_keys value totals node kind : kind ∈ (add_rank value totals node).*1 <-> kind ∈ totals.*1.
Proof using.
  unfold add_rank. destruct (map_get (pn_kind node) totals) as [st|] eqn:E; [|done]. rewrite map_put_keys.
  split; [intros [->|?]; [|done]|by right]. apply map_get_key. by eexists.
Qed.

Lemma fold_keys {A B} (f : list (flow_kind * A) -> B -> list (flow_kind * A)) l m kind :
  (forall m x, kind ∈ (f m x).*1 <-> kind ∈ m.*1) -> kind ∈ (fold_left f l m).*1 <-> kind ∈ m.*1.
Proof using. intros Hf. revert m. induction l as [|x l IH]; intros m; [done|]. cbn [fold_left]. by rewrite IH, Hf. Qed.

Lemma stage_keys {A} (stages : list flow_kind) (m : list (flow_kind * list A)) kind :
  kind ∈ (fold_left (fun m stage => map_put stage [] m) stages m).*1 <-> kind ∈ stages \/ kind ∈ m.*1.
Proof using.
  revert m. induction stages as [|s stages IH]; intros m; cbn [fold_left].
  - split; [by right|]. intros [Hk|]; [by apply not_elem_of_nil in Hk|done].
  - rewrite IH, map_put_keys, elem_of_cons. naive_solver.
Qed.

Lemma take_Z_length {A} limit (l : list A) : 0 <= limit -> Z.of_nat (length (take_Z limit l)) <= limit.
Proof using. intros Hl. unfold take_Z. rewrite length_take. lia. Qed.

(** The kept ids of a column. *)
Lemma top_sets rows metric stages limit sets kind : 0 <= limit -> kind ∈ stages ->
  buildTopNodeSets t deletedLabel rows metric stages (Some limit) = Some sets ->
  exists ids, map_get kind sets = Some ids /\ Z.of_nat (length ids) <= limit.
Proof using.
  intros Hl Hk. unfold buildTopNodeSets. intros [= <-]. set (totals := fold_left _ rows _).
  assert (kind ∈ totals.*1) as Ht.
  { unfold totals. rewrite fold_keys, stage_keys; [by left|]. intros m row. apply fold_keys. intros. apply rank_keys. }
  apply map_get_key in Ht as [st Hst].
  set (f (st : list (jstr * node_rank)) := map (fun rank => pn_id (rk_node rank)) (take_Z limit (sort_with by_rank (map snd st)))).
  exists (f st). split; [|unfold f; rewrite length_map; by apply take_Z_length].
  rewrite (map_ext _ (fun p => (fst p, f (snd p)))) by (by intros [? ?]). by rewrite map_get_map, Hst.
Qed.

(** The nodes of a limited path. *)
Lemma limited_nodes path sets mode labeler path' x ids : applyTopNodeLimit path (Some sets) mode labeler = Some path' ->
  x ∈ path' -> map_get (pn_kind x) sets = Some ids ->
  pn_id x ∈ ids \/ (mode = OM_aggregate /\ pn_id x = OTHER_FLOW_NODE_IDS (pn_kind x)).
Proof using.
  unfold applyTopNodeLimit. intros E Hx Hids.
  assert (forall n, pn_kind n = pn_kind x -> isTopFlowNode (Some sets) n = true -> pn_id n ∈ ids) as Htop.
  { intros n Hn. unfold isTopFlowNode. cbn. rewrite Hn, Hids. by intros ?%bool_decide_eq_true. }
  destruct (existsb _ path) eqn:Ee.
  - destruct mode; [|done]. injection E as <-. apply list_elem_of_In, in_map_iff in Hx as (n & En & _).
    destruct (isTopFlowNode (Some sets) n) eqn:Et; subst x; [left; by apply Htop|by right].
  - injection E as <-. left. apply Htop; [done|]. destruct (isTopFlowNode (Some sets) x) eqn:Et; [done|]. exfalso.
    assert (existsb (fun node => negb (isTopFlowNode (Some sets) node)) path = true); [|congruence].
    apply existsb_exists. exists x. split; [by apply list_elem_of_In|by rewrite Et].
Qed.
End Limits.

Lemma limit_positive limit z : normalizeTopNodeLimit limit = Some z -> 0 < z.
Proof.
  unfold normalizeTopNodeLimit. destruct limit as [x|]; [|done]. destruct (num_to_Z (n_floor x)) as [y|]; [|done].
  destruct (0 <? y) eqn:E; [|done]. intros [= <-]. by apply Z.ltb_lt.
Qed.

(** The nodes of a graph have different ids. *)
Lemma graph_ids_nodup metric color P nodes (test : flow_node -> bool) :
  Permutation (map node_core nodes) (map node_core (map snd (fst (raw_maps metric color P)))) -> List.NoDup (map nd_id (List.filter test nodes)).
Proof.
  intros Hn. assert (Permutation (map nd_id nodes) (fst (raw_maps metric color P)).*1) as Hp.
  { rewrite (map_ext nd_id (fun n => fst (fst (node_core n)))) by done. rewrite <- (map_map node_core (fun c => fst (fst c))), Hn, !map_map.
    change ((fst (raw_maps metric color P)).*1) with (map fst (fst (raw_maps metric color P))).
    erewrite map_ext_in; [done|]. intros [k n] Hin. apply list_elem_of_In, (node_entry metric color P) in Hin as [? _]. done. }
  assert (List.NoDup (map nd_id nodes)) as Hall by (apply NoDup_ListNoDup; rewrite Hp; apply run_nodup_nil).
  clear -Hall. induction nodes as [|n l IH]; [constructor|]. cbn in *. apply List.NoDup_cons_iff in Hall as [Hx Hall].
  destruct (test n); [|by apply IH]. cbn. constructor; [|by apply IH]. intros Hin. apply Hx. apply in_map_iff in Hin as (m & <- & Hm).
  apply filter_In in Hm as [Hm _]. by apply in_map.
Qed.

(** a limit on the nodes of a column is respected: with a limit, every
    visible column of the flow graph has at most that many nodes, and one more,
    which stands for the rest, when overflowing nodes are aggregated. *)
Theorem flow_limit_respected `{Collation} t deletedLabel schemes rows metric role palette visible options limit kind :
  let g := buildFlowGraph t deletedLabel schemes rows metric role palette visible options in
  normalizeTopNodeLimit (go_topNodeLimit options) = Some limit -> kind ∈ resolveVisibleStages role visible ->
  Z.of_nat (length (List.filter (fun n => bool_decide (nd_kind n = kind)) (fg_nodes g)))
  <= limit + match go_overflowMode options with Some OM_hide => 0 | _ => 1 end.
Proof.
  intros g Hlimit Hk. set (stages := resolveVisibleStages role visible) in *. set (P := drawn t deletedLabel rows metric role visible options).
  pose proof (graph_finish t deletedLabel schemes rows metric role palette visible options) as Hg. cbv zeta in Hg. fold P stages g in Hg.
  set (color := root_color schemes palette P) in Hg. destruct (finish_core P stages options (raw_maps metric color P)) as (Hn & _).
  rewrite <- Hg in Hn.
  pose proof (limit_positive _ _ Hlimit) as Hpos.
  destruct (buildTopNodeSets t deletedLabel rows metric stages (Some limit)) as [sets|] eqn:Es; [|done].
  destruct (top_sets t deletedLabel rows metric stages limit sets kind ltac:(lia) Hk Es) as (ids & Hids & Hlen).
  set (rest := match go_overflowMode options with Some OM_hide => [] | _ => [OTHER_FLOW_NODE_IDS kind] end).
  set (shown := map nd_id (List.filter (fun n => bool_decide (nd_kind n = kind)) (fg_nodes g))).
  assert (List.NoDup shown) as Hnd by exact (graph_ids_nodup metric color P _ (fun n => bool_decide (nd_kind n = kind)) Hn).
  assert (incl shown (ids ++ rest)) as Hincl.
  { intros id Hin. apply in_map_iff in Hin as (n & <- & Hin). apply filter_In in Hin as [Hin Hkind]. apply bool_decide_eq_true in Hkind.
    apply list_elem_of_In in Hin. destruct (perm_entry _ _ _ _ Hn Hin) as (k & m & Hm & [= E1 E2 _]).
    apply (node_entry metric color P) in Hm as (Em & p & x & Hp & Hx & Ek & Ekind).
    apply drawn_path in Hp as (row & _ & E). fold stages in E. rewrite Hlimit, Es in E.
    rewrite <- E1, Em, <- Ek. assert (pn_kind x = kind) as Hxk by congruence.
    destruct (limited_nodes _ _ _ _ _ x ids E Hx) as [?|[Hm Ho]]; [by rewrite Hxk|apply in_or_app; left; by apply list_elem_of_In|].
    apply in_or_app. right. unfold rest. rewrite Ho, Hxk. destruct (go_overflowMode options) as [[]|]; [by left|done|by left]. }
  pose proof (NoDup_incl_length Hnd Hincl) as Hfin. unfold shown in Hfin. rewrite length_map, length_app in Hfin.
  assert (Z.of_nat (length rest) = match go_overflowMode options with Some OM_hide => 0 | _ => 1 end) as <-
    by (unfold rest; by destruct (go_overflowMode options) as [[]|]). lia.
Qed.

Lemma flow_labels_masked_witness :
  let options := GraphOptions None None None None None true in
  let g := @buildFlowGraph code_unit_order id None [] sample_rows FM_quota FR_admin None None options in
  go_maskSensitive options = true /\ (forall n, n ∈ fg_nodes g -> masks_node n = true -> hidden (nd_label n)) /\
  map nd_label (List.filter (fun n => bool_decide (nd_kind n = K_model)) (fg_nodes g)) = [js "gpt-4o"; js "claude"].
Proof.
  intros options g. split_and!; [reflexivity| |vm_compute; reflexivity].
  exact (proj1 (@flow_labels_masked code_unit_order id None [] sample_rows FM_quota FR_admin None None options eq_refl)).
Defined.

Lemma flow_limit_respected_witness :
  let g := @buildFlowGraph code_unit_order id None [] sample_rows FM_quota FR_admin None None sample_options in
  Z.of_nat (length (List.filter (fun n => bool_decide (nd_kind n = K_user)) (fg_nodes g))) <= 2 /\
  length (List.filter (fun n => bool_decide (nd_kind n = K_user)) (fg_nodes g)) = 2%nat.
Proof.
  intros g. split; [|vm_compute; reflexivity].
  apply (@flow_limit_respected code_unit_order id None [] sample_rows FM_quota FR_admin None None sample_options 1 K_user);
    [vm_compute; reflexivity|]. apply (bool_decide_unpack _). vm_compute. exact I.
Defined.
