(* ===== verification/FlowFilterFacts.v ===== *)
(** * The filters of the flow graph

    Selected nodes are alternatives within a column and requirements across
    columns; the options offered for a column are the nodes that can be chosen
    under the selections in the other columns; and the highlighted parts of a graph
    are those of the paths that match the selection. *)
From Stdlib Require Import SpecFloat Permutation.
From stdpp Require Import strings.
From S2P Require Import Prelude JsString JsNumber JsValue JsMap IntegerSums Syntax SyntaxFacts TaskConfig TaskConfigFacts Flow FlowFacts FlowViewFacts.

#[local] Open Scope Z_scope.

(** ** Sets collected by key *)
Definition collect {K} `{EqDecision K} (l : list (K * jstr)) : list (K * list jstr) :=
  run_events (map (fun p => (fst p, [], set_add (snd p))) l) [].

Lemma collected {K} `{EqDecision K} (l : list (K * jstr)) k ids : (k, ids) ∈ collect l -> forall id, id ∈ ids <-> (k, id) ∈ l.
Proof.
  intros Hin. pose proof (run_entry _ _ _ _ Hin) as He. intros id.
  set (hits := List.filter (fun p : K * jstr => bool_decide (fst p = k)) l).
  assert (forall hits (start : option (list jstr)) ids, accumulated start (map (fun p => (fst p, [], set_add (snd p))) hits) = Some ids ->
    id ∈ ids <-> id ∈ default [] start \/ exists p : K * jstr, p ∈ hits /\ snd p = id) as Hacc.
  { clear. induction hits as [|p hits IH]; intros start ids E.
    - cbn in E. subst. cbn. split; [by left|]. intros [?|(p & Hp & _)]; [done|by apply not_elem_of_nil in Hp].
    - cbn [map] in E. change (accumulated start (?e :: ?es)) with (accumulated (let '(_, fresh, f) := e in Some (f (default fresh start))) es) in E.
      cbv beta iota in E. rewrite (IH _ _ E). change (default [] (Some ?x)) with x. rewrite elem_of_set_add. split.
      + intros [[->|Hi]|(q & Hq & <-)]; [right; exists p; split; [by left|done]|by left|right; exists q; split; [by right|done]].
      + intros [Hi|(q & Hq & <-)]; [left; by right|]. apply elem_of_cons in Hq as [->|Hq]; [left; by left|right; by exists q]. }
  rewrite (Hacc _ None _ He). cbn [default]. split.
  - intros [Hi|([j i] & Hp & <-)]; [by apply not_elem_of_nil in Hi|]. apply list_elem_of_In, filter_In in Hp as [Hp Ek].
    apply bool_decide_eq_true in Ek. cbn in *. subst. by apply list_elem_of_In.
  - intros Hp. right. exists (k, id). split; [|done]. apply list_elem_of_In, filter_In. split; [by apply list_elem_of_In|by apply bool_decide_eq_true].
Qed.

Lemma collect_keys {K} `{EqDecision K} (l : list (K * jstr)) k : k ∈ (collect l).*1 <-> exists id, (k, id) ∈ l.
Proof.
  unfold collect. rewrite run_keys. split.
  - intros [Hk|(e & He & <-)]; [by apply not_elem_of_nil in Hk|]. apply list_elem_of_In, in_map_iff in He as ([j id] & <- & Hp).
    exists id. by apply list_elem_of_In.
  - intros [id Hp]. right. exists (k, [], set_add id). split; [|done]. apply list_elem_of_In, in_map_iff. exists (k, id).
    split; [done|by apply list_elem_of_In].
Qed.

Lemma collect_entry {K} `{EqDecision K} (l : list (K * jstr)) k id : (k, id) ∈ l -> exists ids, (k, ids) ∈ collect l.
Proof.
  intros Hin. destruct (proj2 (map_get_key k (collect l))) as [ids Hids]; [apply collect_keys; by exists id|].
  exists ids. apply map_get_in; [apply run_nodup_nil|done].
Qed.

Section Filters.
Context `{Collation} (t : jstr -> jstr) (deletedLabel : option (num -> jstr)).
Notation node_of stage row := (NODE_BUILDERS t deletedLabel stage row).

Definition filter_pair (f : node_filter) : flow_kind * jstr := (nf_kind f, nf_id f).

Lemma filter_pair_in f l : filter_pair f ∈ map filter_pair l <-> f ∈ l.
Proof using.
  split; [|intros Hin; apply list_elem_of_In, in_map, list_elem_of_In, Hin]. intros Hin. apply list_elem_of_In, in_map_iff in Hin as (g & E & Hg).
  destruct f, g. injection E as -> ->. by apply list_elem_of_In.
Qed.

Lemma normal_filters selected stages : normalizeSelectedNodeFilters selected stages
  = collect (map filter_pair (List.filter (fun f => bool_decide (nf_kind f ∈ stages)) (default [] selected))).
Proof using.
  unfold normalizeSelectedNodeFilters, collect, run_events. rewrite fold_left_map. generalize (default [] selected). intros l.
  generalize (@nil (flow_kind * list jstr)). induction l as [|f l IH]; intros m; [done|]. cbn [fold_left List.filter]. rewrite IH.
  by case_bool_decide.
Qed.

Lemma path_by_kind path : fold_left (fun m node => map_upd (pn_kind node) [] (set_add (pn_id node)) m) path []
  = collect (map (fun n => (pn_kind n, pn_id n)) path).
Proof using. unfold collect, run_events. by rewrite !fold_left_map. Qed.

Lemma row_pair kind id row stages : (kind, id) ∈ map (fun n => (pn_kind n, pn_id n)) (flowPathForStages t deletedLabel row stages)
  <-> kind ∈ stages /\ id = pn_id (node_of kind row).
Proof using.
  unfold flowPathForStages. rewrite map_map, list_elem_of_In, in_map_iff. split.
  - intros (s & [= <- <-] & Hs). rewrite builder_kind. split; [by apply list_elem_of_In|done].
  - intros [Hk ->]. exists kind. split; [by rewrite builder_kind|by apply list_elem_of_In].
Qed.

(** A row passes when its node of every visible column with a selection is selected. *)
Definition passes (selected : list node_filter) (stages : list flow_kind) (row : flow_row) : Prop :=
  forall kind, kind ∈ stages -> (exists f, f ∈ selected /\ nf_kind f = kind) -> NodeFilter kind (pn_id (node_of kind row)) ∈ selected.

Lemma visible_in f (selected : list node_filter) (stages : list flow_kind) :
  f ∈ List.filter (fun f => bool_decide (nf_kind f ∈ stages)) selected <-> f ∈ selected /\ nf_kind f ∈ stages.
Proof using. by rewrite !list_elem_of_In, filter_In, bool_decide_eq_true, <- !list_elem_of_In. Qed.

Lemma matches_passes selected stages row :
  pathMatchesNodeFilters (flowPathForStages t deletedLabel row stages) (normalizeSelectedNodeFilters selected stages) = true
  <-> passes (default [] selected) stages row.
Proof using.
  rewrite normal_filters. generalize (default [] selected). clear selected. intros selected.
  set (visible := List.filter (fun f => bool_decide (nf_kind f ∈ stages)) selected).
  assert (forall filters, pathMatchesNodeFilters (flowPathForStages t deletedLabel row stages) filters
    = forallb (fun '(kind, ids) => match map_get kind (collect (map (fun n => (pn_kind n, pn_id n)) (flowPathForStages t deletedLabel row stages))) with
        | None => false | Some pathIds => existsb (fun id => bool_decide (id ∈ pathIds)) ids end) filters) as ->.
  { intros [|f filters]; [done|]. unfold pathMatchesNodeFilters. by rewrite path_by_kind. }
  rewrite forallb_forall. split.
  - intros Hall kind Hk (f & Hf & Ef).
    assert (filter_pair f ∈ map filter_pair visible) as Hp by (apply filter_pair_in, visible_in; by rewrite Ef).
    unfold filter_pair at 1 in Hp. rewrite Ef in Hp. destruct (collect_entry _ _ _ Hp) as [ids Hids].
    specialize (Hall (kind, ids) (proj1 (list_elem_of_In _ _) Hids)). cbn beta iota in Hall.
    destruct (map_get kind _) as [pathIds|] eqn:E; [|done]. apply existsb_exists in Hall as (id & Hid & Hin). apply bool_decide_eq_true in Hin.
    apply map_get_in in E; [|apply run_nodup_nil]. rewrite (collected _ _ _ E), row_pair in Hin. destruct Hin as [_ ->].
    apply list_elem_of_In in Hid. rewrite (collected _ _ _ Hids) in Hid.
    change (kind, pn_id (node_of kind row)) with (filter_pair (NodeFilter kind (pn_id (node_of kind row)))) in Hid.
    apply filter_pair_in, visible_in in Hid as [? _]. done.
  - intros Hp [kind ids] Hin. apply list_elem_of_In in Hin. cbn beta iota.
    assert (kind ∈ (collect (map filter_pair visible)).*1) as Hkey by (apply list_elem_of_fmap; by exists (kind, ids)).
    apply collect_keys in Hkey as [id0 Hid0]. change (kind, id0) with (filter_pair (NodeFilter kind id0)) in Hid0.
    apply filter_pair_in, visible_in in Hid0 as [Hsel Hk]. cbn [nf_kind] in Hk.
    assert ((kind, pn_id (node_of kind row)) ∈ map (fun n => (pn_kind n, pn_id n)) (flowPathForStages t deletedLabel row stages)) as Hrow by (by apply row_pair).
    destruct (collect_entry _ _ _ Hrow) as [pathIds Hpath].
    rewrite (proj1 (map_get_in kind pathIds _ (run_nodup_nil _ _)) Hpath). apply existsb_exists. exists (pn_id (node_of kind row)). split.
    + apply list_elem_of_In. rewrite (collected _ _ _ Hin).
      change (kind, pn_id (node_of kind row)) with (filter_pair (NodeFilter kind (pn_id (node_of kind row)))).
      apply filter_pair_in, visible_in. split; [|done]. apply Hp; [done|]. by exists (NodeFilter kind id0).
    + apply bool_decide_eq_true. by rewrite (collected _ _ _ Hpath).
Qed.

Lemma filtered_rows rows selected stages row :
  row ∈ filterRowsByNodes t deletedLabel rows selected stages <-> row ∈ rows /\ passes (default [] selected) stages row.
Proof using.
  unfold filterRowsByNodes. pose proof (matches_passes selected stages row) as Hm.
  destruct (normalizeSelectedNodeFilters selected stages) as [|f filters].
  - split; [|by intros [? _]]. intros Hr. split; [done|]. by apply Hm.
  - by rewrite !list_elem_of_In, filter_In, Hm, <- list_elem_of_In.
Qed.

(** ** The options of a column *)
Lemma stage_totals_run rows metric stages selected stage : stage_totals t deletedLabel rows metric stages selected stage
  = run_events (map (fun row => (nodeFilterKey (NodeFilter (pn_kind (node_of stage row)) (pn_id (node_of stage row))), NodeRank (node_of stage row) n_zero,
      (fun r => NodeRank (rk_node r) (n_add (rk_value r) (metricValue (rowMetrics row) metric)))))
      (filterRowsByNodes t deletedLabel rows (selectedNodeFiltersExceptKind selected stage) stages)) [].
Proof using. unfold stage_totals, run_events. by rewrite fold_left_map. Qed.

Lemma stage_nodes rows metric stages selected stage id :
  (exists k r, (k, r) ∈ stage_totals t deletedLabel rows metric stages selected stage /\ pn_kind (rk_node r) = stage /\ pn_id (rk_node r) = id) <->
  exists row, row ∈ filterRowsByNodes t deletedLabel rows (selectedNodeFiltersExceptKind selected stage) stages /\ pn_id (node_of stage row) = id.
Proof using.
  rewrite stage_totals_run. set (kept := filterRowsByNodes _ _ _ _ _).
  assert (forall k r, (k, r) ∈ run_events (map (fun row => (nodeFilterKey (NodeFilter (pn_kind (node_of stage row)) (pn_id (node_of stage row))),
      NodeRank (node_of stage row) n_zero, (fun r => NodeRank (rk_node r) (n_add (rk_value r) (metricValue (rowMetrics row) metric))))) kept) [] ->
    exists row, row ∈ kept /\ rk_node r = node_of stage row /\ k = nodeFilterKey (NodeFilter stage (pn_id (node_of stage row)))) as Hentry.
  { intros k r Hin. apply run_entry in Hin. revert r Hin. apply accumulated_ind; [done|]. apply Forall_map, Forall_elem. intros row Hrow.
    apply list_elem_of_In, filter_In in Hrow as [Hrow Ek]. apply bool_decide_eq_true in Ek. cbn [fst snd] in Ek. rewrite builder_kind in Ek.
    split; [|done]. exists row. split_and!; [by apply list_elem_of_In|done|done]. }
  split.
  - intros (k & r & Hin & _ & <-). destruct (Hentry _ _ Hin) as (row & Hrow & -> & _). by exists row.
  - intros (row & Hrow & <-).
    set (k := nodeFilterKey (NodeFilter stage (pn_id (node_of stage row)))). set (m := run_events _ _) in *.
    destruct (proj2 (map_get_key k m)) as [r Hr].
    { apply run_keys. right. eexists. split; [apply list_elem_of_In, in_map_iff; exists row; split; [reflexivity|by apply list_elem_of_In]|].
      cbn [fst]. by rewrite builder_kind. }
    apply map_get_in in Hr; [|apply run_nodup_nil]. destruct (Hentry _ _ Hr) as (row' & Hrow' & Er & Ek). exists k, r.
    split_and!; [done|by rewrite Er, builder_kind|]. rewrite Er. unfold k, nodeFilterKey in Ek. cbn [nf_kind nf_id] in Ek.
    by apply app_inv_head, (app_inv_head [0]) in Ek.
Qed.

Lemma option_in schemes formatNumber rows metric role visible palette selected kind id :
  let stages := resolveVisibleStages role visible in
  (exists o, o ∈ buildNodeFilterOptions t deletedLabel schemes formatNumber rows metric role visible palette selected /\ no_kind o = kind /\ no_value o = id) <->
  kind ∈ stages /\ exists k r, (k, r) ∈ stage_totals t deletedLabel rows metric stages selected kind /\ pn_kind (rk_node r) = kind /\ pn_id (rk_node r) = id.
Proof using.
  intros stages. assert (forall stage k r, (k, r) ∈ stage_totals t deletedLabel rows metric stages selected stage -> pn_kind (rk_node r) = stage) as Hkind.
  { intros stage k r Hin. rewrite stage_totals_run in Hin. apply run_entry in Hin. revert r Hin. apply accumulated_ind; [done|].
    apply Forall_map, Forall_elem. intros row _. split; [apply builder_kind|done]. }
  unfold buildNodeFilterOptions. fold stages. setoid_rewrite <- (sort_with_perm (by_node_value stages)). split.
  - intros (o & Ho & <- & <-). apply list_elem_of_join in Ho as (l & Ho & Hl). apply list_elem_of_In, in_map_iff in Hl as (stage & <- & Hs).
    apply list_elem_of_In, in_map_iff in Ho as ([k r] & <- & Hr). cbn [no_kind no_value]. apply list_elem_of_In in Hr.
    rewrite (Hkind _ _ _ Hr). split; [by apply list_elem_of_In|]. exists k, r. split_and!; [done|by eapply Hkind|done].
  - intros [Hs (k & r & Hr & E1 & E2)]. eexists. split.
    + apply list_elem_of_join. eexists. split; apply list_elem_of_In, in_map_iff; [exists (k, r)|exists kind];
        (split; [reflexivity|by apply list_elem_of_In]).
    + by cbn.
Qed.

Lemma except_kind selected kind f : f ∈ default [] (selectedNodeFiltersExceptKind selected kind) <-> f ∈ default [] selected /\ nf_kind f <> kind.
Proof using.
  assert (default [] (selectedNodeFiltersExceptKind selected kind) = List.filter (fun f => negb (bool_decide (nf_kind f = kind))) (default [] selected)) as ->
    by (unfold selectedNodeFiltersExceptKind; by destruct (List.filter _ _)).
  rewrite !list_elem_of_In, filter_In, negb_true_iff, bool_decide_eq_false. done.
Qed.

(** Choosing one more node of a column. *)
Lemma chosen_passes selected stages kind id row : kind ∈ stages ->
  passes (default [] (selectedNodeFiltersExceptKind selected kind) ++ [NodeFilter kind id]) stages row <->
  passes (default [] (selectedNodeFiltersExceptKind selected kind)) stages row /\ pn_id (node_of kind row) = id.
Proof using.
  intros Hk. unfold passes. set (others := default [] _).
  assert (forall f, f ∈ others -> nf_kind f <> kind) as Ho by (intros f Hf; by apply except_kind in Hf as [_ ?]). split.
  - intros Hp. split.
    + intros k Hks (f & Hf & Ef). specialize (Hp k Hks). rewrite elem_of_app, list_elem_of_singleton in Hp.
      destruct Hp as [?|[= -> _]]; [exists f; by rewrite elem_of_app; split; [left|]|done|]. by apply Ho in Hf.
    + specialize (Hp kind Hk). rewrite elem_of_app, list_elem_of_singleton in Hp. destruct Hp as [Hf|[= ->]]; [|by apply Ho in Hf|done].
      exists (NodeFilter kind id). rewrite elem_of_app, list_elem_of_singleton. split; [by right|done].
  - intros [Hp <-] k Hks (f & Hf & Ef). rewrite elem_of_app, list_elem_of_singleton in Hf |- *. destruct Hf as [Hf| ->].
    + left. apply Hp; [done|]. by exists f.
    + cbn in Ef. subst k. by right.
Qed.
End Filters.

(** the node filters of the flow graph mean what they offer: a row is kept
    exactly when, in every visible column with a selection, its node is one of the
    selected ones; and the options offered for a column are exactly the nodes
    whose choice, together with the selections in the other columns, keeps some
    row. *)
Theorem flow_facets_exact `{Collation} t deletedLabel schemes formatNumber rows metric role visible palette selected :
  let stages := resolveVisibleStages role visible in
  let kept selected := filterRowsByNodes t deletedLabel rows selected stages in
  (forall row, row ∈ kept selected <-> row ∈ rows /\
     forall kind, kind ∈ stages -> (exists f, f ∈ default [] selected /\ nf_kind f = kind) ->
       NodeFilter kind (pn_id (NODE_BUILDERS t deletedLabel kind row)) ∈ default [] selected) /\
  (forall kind id,
     (exists o, o ∈ buildNodeFilterOptions t deletedLabel schemes formatNumber rows metric role visible palette selected /\
        no_kind o = kind /\ no_value o = id) <->
     kind ∈ stages /\
     kept (Some (default [] (selectedNodeFiltersExceptKind selected kind) ++ [NodeFilter kind id])) <> []).
Proof.
  intros stages kept. split; [intros row; apply filtered_rows|]. intros kind id. rewrite option_in, stage_nodes. fold stages.
  split; intros [Hk Hr]; (split; [done|]).
  - destruct Hr as (row & Hrow & <-). apply filtered_rows in Hrow as [Hin Hp]. intros E.
    assert (row ∈ kept (Some (default [] (selectedNodeFiltersExceptKind selected kind) ++ [NodeFilter kind (pn_id (NODE_BUILDERS t deletedLabel kind row))])))
      as Hrow by (apply filtered_rows; split; [done|]; by apply chosen_passes).
    rewrite E in Hrow. by apply not_elem_of_nil in Hrow.
  - destruct (kept _) as [|row l] eqn:E; [done|]. assert (row ∈ kept (Some (default [] (selectedNodeFiltersExceptKind selected kind) ++ [NodeFilter kind id])))
      as Hrow by (rewrite E; by left).
    apply filtered_rows in Hrow as [Hin Hp]. cbn [default] in Hp. apply chosen_passes in Hp as [Hp Hid]; [|done]. exists row.
    split; [by apply filtered_rows|done].
Qed.
