(* ===== verification/ModelMapping.v ===== *)
(** * Model names and redirects of a channel

    A channel lists the model names it serves (comma-separated text) and may
    redirect a request name to the name the provider knows (a JSON object in a
    text field).  This file models
    [features/channels/lib/model-mapping-validation.ts] (reading and checking
    both texts), [model-mapping-rules.ts] (deriving redirects from a naming rule
    and merging them into the document), [model-naming-patterns.ts] (detecting
    naming rules in a list of the provider), the model lists of
    [upstream-update-utils.ts] and, of
    [components/drawers/channel-mutate-drawer.tsx], the state the redirect panel
    keeps in step with the document. *)
From Stdlib Require Import SpecFloat.
From stdpp Require Import strings.
From S2P Require Import PlaygroundStorage Prelude JsString JsNumber JsValue JsJson JsMap Syntax AuthSession.

#[local] Open Scope Z_scope.

(** [[...new Set(list)]] *)
Definition js_set (l : list jstr) : list jstr := fold_left (fun s x => set_add x s) l [].

Definition has (l : list jstr) (x : jstr) : bool := bool_decide (x ∈ l).

(** ** Lists of model names *)
Definition parseModelsString (modelsStr : jstr) : list jstr :=
  match modelsStr with
  | [] => []
  | _ => List.filter non_empty (map trim (split_at 44 modelsStr))
  end.

Definition formatModelsArray (models : list jstr) : jstr := join [44] (js_set models).

Definition normalizeModelName (model : jstr) : jstr := trim model.

Definition normalize_names (models : list jstr) : list jstr := List.filter non_empty (map normalizeModelName models).

(** ** The redirect document *)

(** The own properties of a parsed document that is an object and not an array. *)
Definition parsed_object (text : jstr) : option (list (jstr * jsval)) :=
  match json_parse text with Some (J_obj props) => Some props | _ => None end.

Definition extractMappingSourceModels (modelMapping : jstr) : list jstr :=
  match trim modelMapping with
  | [] => []
  | trimmed =>
      match parsed_object trimmed with
      | Some props => js_set (List.filter non_empty (map trim props.*1))
      | None => []
      end
  end.

Definition extractRedirectModels (modelMapping : jstr) : list jstr :=
  match trim modelMapping with
  | [] => []
  | trimmed =>
      match parsed_object trimmed with
      | Some props =>
          js_set (List.filter non_empty
            (omap (fun v => match v with J_str s => Some (trim s) | _ => None end) props.*2))
      | None => []
      end
  end.

Definition hasModelConfigChanged (currentModels : list jstr) (currentModelMapping : jstr)
    (initialModels : list jstr) (initialModelMapping : jstr) : bool :=
  if bool_decide (initialModels = []) && negb (non_empty initialModelMapping) then true
  else if negb (length currentModels =? length initialModels)%nat then true
  else if existsb (fun p : jstr * jstr => negb (bool_decide (fst p = snd p))) (combine currentModels initialModels) then true
  else negb (bool_decide (trim currentModelMapping = trim initialModelMapping)).

Definition findMissingModelsInMapping (modelMapping : jstr) (currentModels : list jstr) : list jstr :=
  if negb (non_empty (trim modelMapping)) then []
  else
    match parsed_object modelMapping with
    | None => []
    | Some props =>
        let modelSet := map normalizeModelName currentModels in
        js_set (List.filter (fun key => non_empty key && negb (has modelSet key)) (map normalizeModelName props.*1))
    end.

Inductive mapping_error := Mapping_not_object | Mapping_values_not_strings | Mapping_not_json.

Definition is_string (v : jsval) : bool := match v with J_str _ => true | _ => false end.

(** The error, if any. *)
Definition validateModelMappingJson (modelMapping : jstr) : option mapping_error :=
  if negb (non_empty (trim modelMapping)) then None
  else
    match json_parse modelMapping with
    | None => Some Mapping_not_json
    | Some (J_obj props) => if existsb (fun v => negb (is_string v)) props.*2 then Some Mapping_values_not_strings else None
    | Some _ => Some Mapping_not_object
    end.

Definition findExposedTargetModels (modelMapping : jstr) (currentModels : list jstr) : list jstr :=
  let redirectModels := extractRedirectModels modelMapping in
  let modelSet := map normalizeModelName currentModels in
  List.filter (fun model => has modelSet (normalizeModelName model)) redirectModels.

Record categories := Categories {
  normalizedCurrentModels : list jstr;
  normalizedRedirectModels : list jstr;
  classificationSet : list jstr;
  redirectOnlySet : list jstr;
}.

Definition categorizeModelsWithRedirect (currentModels redirectModels : list jstr) : categories :=
  let current := js_set (normalize_names currentModels) in
  let redirect := js_set (normalize_names redirectModels) in
  Categories current redirect (js_set (current ++ redirect)) (js_set (List.filter (fun m => negb (has current m)) redirect)).

(** ** Comparison with the provider's list *)
Section Lower.
Context `{Platform}.

(** One model of the loop: the names seen and the names to remove. *)
Definition removed_step (fetchedModelSet redirectSourceKeysSet : list jstr) (keyword : jstr)
    (st : list jstr * list jstr) (model : jstr) : list jstr * list jstr :=
  let '(seen, removedModels) := st in
  let normalized := normalizeModelName model in
  if negb (non_empty normalized) || has seen normalized then st
  else
    let seen := set_add normalized seen in
    if has fetchedModelSet normalized then (seen, removedModels)
    else if has redirectSourceKeysSet normalized then (seen, removedModels)
    else if non_empty keyword && negb (includes keyword (pf_toLowerCase normalized)) then (seen, removedModels)
    else (seen, removedModels ++ [normalized]).

Definition collectRemovedUpstreamModels (existingModels fetchedModels redirectSourceModels : list jstr)
    (searchKeyword : jstr) : list jstr :=
  snd (fold_left (removed_step (normalize_names fetchedModels) (normalize_names redirectSourceModels)
                    (trim (pf_toLowerCase searchKeyword))) existingModels ([], [])).

Record upstream_lists := UpstreamLists {
  ul_filtered : list jstr;
  ul_existing : list jstr;
  ul_added : list jstr;
  ul_removed : list jstr;
  ul_redirectOnly : list jstr;
}.

(** The lists [UpstreamModelSelection] shows for the provider's models. *)
Definition upstream_categorized (existingModels models redirectModels redirectSourceModels candidateModels : list jstr)
    (search : jstr) : upstream_lists :=
  let classification := categorizeModelsWithRedirect existingModels redirectModels in
  let models := js_set (normalize_names models) in
  let sourceSet := map normalizeModelName redirectSourceModels in
  let keyword := trim (pf_toLowerCase search) in
  let filtered := List.filter (fun model => includes keyword (pf_toLowerCase model)) models in
  UpstreamLists filtered
    (List.filter (has (classificationSet classification)) filtered)
    (List.filter (fun model => negb (has (classificationSet classification) model)) filtered)
    (List.filter (fun model => negb (has models model) && negb (has sourceSet model)
                               && includes keyword (pf_toLowerCase model))
       (js_set (normalize_names candidateModels)))
    (redirectOnlySet classification).
End Lower.

(** ** Naming rules *)
Record mapping_pair := Pair { mp_from : jstr; mp_to : jstr }.

Inductive mapping_direction := To_upstream | To_request.

Inductive mapping_rule :=
| Strip_prefix (values : jstr)
| Strip_suffix (values : jstr)
| Add_prefix (value : jstr)
| Add_suffix (value : jstr)
| Replace (find replaceWith : jstr).

Definition rule_affixes (rule : mapping_rule) : list jstr :=
  match rule with
  | Strip_prefix values | Strip_suffix values => List.filter non_empty (map trim (split_at 44 values))
  | _ => []
  end.

(** The replacement text of a match, with [$$], [$&], [$`] and [$'] expanded. *)
Fixpoint expand_replacement (matched before after template : jstr) : jstr :=
  match template with
  | [] => []
  | c :: rest =>
      match rest with
      | [] => [c]
      | d :: rest' =>
          if negb (c =? 36) then c :: expand_replacement matched before after rest
          else if d =? 36 then 36 :: expand_replacement matched before after rest'
          else if d =? 38 then matched ++ expand_replacement matched before after rest'
          else if d =? 96 then before ++ expand_replacement matched before after rest'
          else if d =? 39 then after ++ expand_replacement matched before after rest'
          else c :: expand_replacement matched before after rest
      end
  end.

(** [model.replaceAll(find, template)] for a text [find] that is not empty;
    [skip] counts the characters left of the last match. *)
Fixpoint replace_scan (find template before s : jstr) (skip : nat) : jstr :=
  match s with
  | [] => []
  | c :: s' =>
      match skip with
      | S skip => replace_scan find template (before ++ [c]) s' skip
      | O =>
          if starts_with find s
          then expand_replacement find before (drop (length find) s) template
               ++ replace_scan find template (before ++ [c]) s' (length find - 1)
          else c :: replace_scan find template (before ++ [c]) s' O
      end
  end.

Definition replaceAll (s find template : jstr) : jstr := replace_scan find template [] s O.

(** The other name the rule gives a model. *)
Definition rule_derived (rule : mapping_rule) (affixes : list jstr) (model : jstr) : jstr :=
  match rule with
  | Strip_prefix _ =>
      match List.find (fun affix => starts_with affix model) affixes with
      | Some prefix => drop (length prefix) model
      | None => model
      end
  | Strip_suffix _ =>
      match List.find (fun affix => ends_with affix model) affixes with
      | Some suffix => take (length model - length suffix) model
      | None => model
      end
  | Add_prefix value => value ++ model
  | Add_suffix value => model ++ value
  | Replace find replaceWith => if non_empty find then replaceAll model find replaceWith else model
  end.

Record derivation := Derivation {
  d_pairs : list mapping_pair;
  d_unchanged : list jstr;
  d_conflicts : list jstr;
}.

(** One model of the loop: the names seen, the request names taken, the result. *)
Definition derive_step (direction : mapping_direction) (rule : mapping_rule) (affixes : list jstr)
    (st : list jstr * list jstr * derivation) (raw : jstr) : list jstr * list jstr * derivation :=
  let '(seen, requestNames, result) := st in
  let model := trim raw in
  if negb (non_empty model) || has seen model then st
  else
    let seen := set_add model seen in
    let derived := trim (rule_derived rule affixes model) in
    if negb (non_empty derived) || bool_decide (derived = model) then
      (seen, requestNames, Derivation (d_pairs result) (d_unchanged result ++ [model]) (d_conflicts result))
    else
      let pair := match direction with To_upstream => Pair derived model | To_request => Pair model derived end in
      if has requestNames (mp_from pair) then
        (seen, requestNames, Derivation (d_pairs result) (d_unchanged result) (d_conflicts result ++ [model]))
      else
        (seen, set_add (mp_from pair) requestNames,
         Derivation (d_pairs result ++ [pair]) (d_unchanged result) (d_conflicts result)).

Definition deriveModelMappingPairs (models : list jstr) (direction : mapping_direction) (rule : mapping_rule) : derivation :=
  snd (fold_left (derive_step direction rule (rule_affixes rule)) models ([], [], Derivation [] [] [])).

(** [mapping[key] = value] on a plain object: a text assigned to [__proto__] is
    dropped. *)
Definition record_set (key value : jstr) (o : list (jstr * jstr)) : list (jstr * jstr) :=
  if bool_decide (key = js "__proto__") then o else obj_set key value o.

(** The strings of the properties, unless a value is something else. *)
Definition string_entries (props : list (jstr * jsval)) : option (list (jstr * jstr)) :=
  mapM (fun p => match snd p with J_str s => Some (fst p, s) | _ => None end) props.

(** [JSON.stringify(mapping, null, 2)] of a mapping that is not empty. *)
Definition mapping_line (p : jstr * jstr) : jstr := js "  " ++ json_stringify (fst p) ++ js ": " ++ json_stringify (snd p).
Definition mapping_text (mapping : list (jstr * jstr)) : jstr :=
  [123; 10] ++ join [44; 10] (map mapping_line mapping) ++ [10; 125].

Definition merged_mapping (entries : list (jstr * jstr)) (pairs : list mapping_pair) : list (jstr * jstr) :=
  fold_left (fun m pair => record_set (mp_from pair) (mp_to pair) m) pairs
    (fold_left (fun m p => record_set (fst p) (snd p) m) entries []).

(** The current document's entries: none for a blank one, [None] for one that is
    not an object of strings. *)
Definition current_entries (current : jstr) : option (list (jstr * jstr)) :=
  match trim current with [] => Some [] | trimmed => parsed_object trimmed ≫= string_entries end.

Definition mergeModelMappingPairs (current : jstr) (pairs : list mapping_pair) : option jstr :=
  (fun entries => match merged_mapping entries pairs with [] => [] | mapping => mapping_text mapping end)
    <$> current_entries current.

(** ** Naming patterns of the provider *)
Record naming_suggestion := Suggestion { ns_id : jstr; ns_rule : mapping_rule; ns_models : list jstr }.

Definition MAX_SUGGESTIONS : nat := 3.
Definition RELAY_SUFFIXES : list jstr := [js "-all"; js "-latest"; js "-ca"].
Definition MIN_PREFIX_MATCHES : nat := 2.

(** [/-\d{4}-\d{2}-\d{2}$/] *)
Definition date_shape (s : jstr) : bool :=
  match s with
  | [a; b; c; d; e; f; g; h; i; j; k] =>
      (a =? 45) && (f =? 45) && (i =? 45) && forallb is_digit [b; c; d; e; g; h; j; k]
  | _ => false
  end.
Definition DATE_SUFFIX (model : jstr) : option jstr :=
  let tail := drop (length model - 11) model in if date_shape tail then Some tail else None.

(** The prefix up to the first slash, when something stands on both sides. *)
Definition slash_prefix (model : jstr) : jstr :=
  let '(head, tail) := span_while (fun c => negb (c =? 47)) model in
  match head, tail with
  | _ :: _, slash :: _ :: _ => head ++ [slash]
  | _, _ => []
  end.

Section Patterns.
Context (localeCompare : jstr -> jstr -> Z).

(** A suggestion with the number of models it maps to known names. *)
Definition suffix_suggestion (known candidates : list jstr) (suffix : jstr) : naming_suggestion * nat :=
  let matched := List.filter (fun model => ends_with suffix model && (length suffix <? length model)%nat) candidates in
  (Suggestion (js "strip-suffix:" ++ suffix) (Strip_suffix suffix) matched,
   length (List.filter (fun model => has known (take (length model - length suffix) model)) matched)).

Definition prefix_suggestion (known candidates : list jstr) (prefix : jstr) : naming_suggestion * nat :=
  let matched := List.filter (starts_with prefix) candidates in
  (Suggestion (js "strip-prefix:" ++ prefix) (Strip_prefix prefix) matched,
   length (List.filter (fun model => has known (drop (length prefix) model)) matched)).

Definition compare_suggestions (a b : naming_suggestion * nat) : Z :=
  or_compare (Z.of_nat (length (ns_models (fst b))) - Z.of_nat (length (ns_models (fst a))))
    (or_compare (Z.of_nat (snd b) - Z.of_nat (snd a)) (localeCompare (ns_id (fst a)) (ns_id (fst b)))).

Definition known_names (knownModels : list jstr) : list jstr := List.filter non_empty (map trim knownModels).
Definition naming_candidates (models known : list jstr) : list jstr :=
  js_set (List.filter (fun model => non_empty model && negb (has known model)) (map trim models)).

Definition all_suggestions (models knownModels : list jstr) : list (naming_suggestion * nat) :=
  let known := known_names knownModels in
  let candidates := naming_candidates models known in
  let relay := List.filter (fun s => negb (bool_decide (ns_models (fst s) = []))) (map (suffix_suggestion known candidates) RELAY_SUFFIXES) in
  let dated := map (suffix_suggestion known candidates) (js_set (omap DATE_SUFFIX candidates)) in
  let prefixes := js_set (List.filter non_empty (map slash_prefix candidates)) in
  let prefixed := List.filter (fun s => negb ((snd s =? 0)%nat && (length (ns_models (fst s)) <? MIN_PREFIX_MATCHES)%nat))
                    (map (prefix_suggestion known candidates) prefixes) in
  let dotted := List.filter (fun model => includes (js ".") model && has known (replaceAll model (js ".") (js "-"))) candidates in
  let replaced := if negb (bool_decide (dotted = []))
                  then [(Suggestion (js "replace:.:-") (Replace (js ".") (js "-")) dotted, length dotted)] else [] in
  relay ++ dated ++ prefixed ++ replaced.

Definition detectModelNamingPatterns (models knownModels : list jstr) : list naming_suggestion :=
  map fst (take MAX_SUGGESTIONS (sort_with compare_suggestions (all_suggestions models knownModels))).
End Patterns.

Fixpoint findVerifiedAlias (model : jstr) (suggestions : list naming_suggestion) (knownModels : list jstr) : option mapping_pair :=
  match suggestions with
  | [] => None
  | suggestion :: rest =>
      if negb (has (ns_models suggestion) model) then findVerifiedAlias model rest knownModels
      else
        match d_pairs (deriveModelMappingPairs [model] To_upstream (ns_rule suggestion)) with
        | alias :: _ => if has knownModels (mp_from alias) then Some alias else findVerifiedAlias model rest knownModels
        | [] => findVerifiedAlias model rest knownModels
        end
  end.

(** ** The redirect panel of the channel drawer

    The form holds the two texts; two sets remember the names the last
    synchronisation took from the document. *)
Record panel := Panel {
  p_models : jstr;
  p_mapping : jstr;
  syncedAliases : list jstr;
  syncedTargets : list jstr;
}.

(** The document's complete redirects, trimmed. *)
Definition complete_redirects (props : list (jstr * jsval)) : list mapping_pair :=
  omap (fun p => match snd p with
                 | J_str to => if non_empty (trim (fst p)) && non_empty (trim to) then Some (Pair (trim (fst p)) (trim to)) else None
                 | _ => None
                 end) props.

Definition alias_set (props : list (jstr * jsval)) : list jstr := js_set (map mp_from (complete_redirects props)).
Definition target_set (props : list (jstr * jsval)) : list jstr := js_set (map mp_to (complete_redirects props)).

(** The document the synchronisation reads: [JSON.parse(mapping.trim() || '{}')]. *)
Definition synced_document (mapping : jstr) : option (list (jstr * jsval)) :=
  parsed_object (match trim mapping with [] => js "{}" | trimmed => trimmed end).

Definition push_missing (models : list jstr) (x : jstr) : list jstr := if has models x then models else models ++ [x].

(** The model list after one synchronisation. *)
Definition synced_models (aliasSet targetSet oldAliases oldTargets models : list jstr) : list jstr :=
  let models := List.filter (fun model => negb (has oldAliases model && negb (has aliasSet model))) models in
  let models := fold_left (fun models target => if negb (has targetSet target) then push_missing models target else models)
                  oldTargets models in
  let models := List.filter (fun model => negb (has targetSet model)) models in
  fold_left push_missing aliasSet models.

Definition syncModelsWithMapping (mapping : jstr) (p : panel) : panel :=
  match synced_document mapping with
  | None => p
  | Some props =>
      let models := synced_models (alias_set props) (target_set props) (syncedAliases p) (syncedTargets p)
                      (parseModelsString (p_models p)) in
      Panel (formatModelsArray models) (p_mapping p) (alias_set props) (target_set props)
  end.

Definition applyMappingPairs (pairs : list mapping_pair) (sync : bool) (p : panel) : panel :=
  match mergeModelMappingPairs (p_mapping p) pairs with
  | None => p
  | Some merged =>
      let p := Panel (p_models p) merged (syncedAliases p) (syncedTargets p) in
      if sync then syncModelsWithMapping merged p else p
  end.

Definition handlePanelMappingChange (value : jstr) (p : panel) : panel :=
  Panel (p_models p) value (syncedAliases p) (syncedTargets p).

Definition handlePanelMappingCommit (redirectSyncModels : bool) (value : jstr) (p : panel) : panel :=
  if redirectSyncModels then syncModelsWithMapping value p else p.

(** ** Warnings about the document *)
Record guardrail := Guardrail {
  g_invalidJson : bool;
  g_entries : list mapping_pair;
  missingSourceModels : list jstr;
  exposedTargetModels : list jstr;
}.

(** The source and the target of a property as text, trimmed. *)
Definition guardrail_entry (p : jstr * jsval) : option mapping_pair :=
  let source := trim (fst p) in
  let target := trim (if is_nullish (snd p) then [] else js_to_string (snd p)) in
  if non_empty source && non_empty target then Some (Pair source target) else None.

Definition modelMappingGuardrail (modelMapping models : jstr) : guardrail :=
  if negb (non_empty (trim modelMapping)) then Guardrail false [] [] []
  else
    match parsed_object modelMapping with
    | None => Guardrail true [] [] []
    | Some props =>
        let currentModelsArray := parseModelsString models in
        let entries := omap guardrail_entry props in
        Guardrail false entries
          (js_set (map mp_from (List.filter (fun e => negb (has currentModelsArray (mp_from e))) entries)))
          (js_set (map mp_to (List.filter (fun e => has currentModelsArray (mp_to e)) entries)))
    end.

Definition openRedirectPanel (p : panel) : panel :=
  let models := parseModelsString (p_models p) in
  let entries := g_entries (modelMappingGuardrail (p_mapping p) (p_models p)) in
  Panel (p_models p) (p_mapping p)
    (js_set (map mp_from (List.filter (fun e => has models (mp_from e)) entries)))
    (js_set (map mp_to (List.filter (fun e => negb (has models (mp_to e))) entries))).

(** ** Saving a channel *)
Inductive missing_answer := Missing_add | Missing_submit | Missing_cancel.

Inductive submission :=
| Mapping_refused (e : mapping_error)
| Submission_cancelled
| Submitted (models : jstr).

(** The checks of the two texts before a channel is saved; [answer] is what the
    user says about redirected names that are not in the model list. *)
Definition submit_models (initialModels : list jstr) (initialModelMapping : jstr) (answer : missing_answer)
    (models modelMapping : jstr) : submission :=
  if negb (non_empty (trim modelMapping)) then Submitted models
  else
    match validateModelMappingJson modelMapping with
    | Some e => Mapping_refused e
    | None =>
        let normalizedModels := parseModelsString models in
        let missingModels := findMissingModelsInMapping modelMapping normalizedModels in
        if negb (bool_decide (missingModels = []))
           && hasModelConfigChanged normalizedModels modelMapping initialModels initialModelMapping
        then match answer with
             | Missing_cancel => Submission_cancelled
             | Missing_add => Submitted (formatModelsArray (js_set (normalizedModels ++ missingModels)))
             | Missing_submit => Submitted models
             end
        else Submitted models
    end.

(** ** Pending updates of the provider's list *)
Definition MODEL_FETCHABLE_TYPES : list Z :=
  [1; 4; 14; 17; 20; 23; 24; 25; 26; 27; 31; 34; 35; 40; 42; 43; 45; 47; 48; 57; 58; 59; 60; 62; 63].

(** What the checks read of a channel. *)
Record channel_view := ChannelView {
  cv_type : Z;
  cv_status : option Z;
  cv_is_multi_key : option bool;
  cv_is_draft_multi_key : option bool;
}.

Definition supportsChannelUpstreamModelUpdate (channel : option channel_view) : bool :=
  match channel with
  | None => false
  | Some c =>
      bool_decide (cv_type c ∈ MODEL_FETCHABLE_TYPES)
      && negb (bool_decide (cv_is_multi_key c = Some true)) && negb (bool_decide (cv_is_draft_multi_key c = Some true))
  end.

Definition canUseChannelUpstreamUpdates (channel : option channel_view) (enabled : option bool) : bool :=
  match channel with
  | None => false
  | Some c =>
      supportsChannelUpstreamModelUpdate channel && bool_decide (cv_status c = Some 1) && bool_decide (enabled = Some true)
  end.

Definition canFetchChannelUpstreamModels (canSensitiveWriteChannel : option bool) : bool :=
  bool_decide (canSensitiveWriteChannel = Some true).

Definition shouldUseDraftFetchModels (isEditing draftHasChanges canFetchSavedModels : bool) : bool :=
  if negb isEditing then true else draftHasChanges || negb canFetchSavedModels.

Definition normalizeModelList (models : jsval) : list jstr :=
  let source := match models with J_arr l => l | J_str s => map J_str (split_at 44 s) | _ => [] end in
  js_set (List.filter non_empty (map (fun m => trim (if truthy_value m then js_to_string m else [])) source)).

Record update_meta := UpdateMeta { um_enabled : bool; um_pendingAdd : list jstr; um_pendingRemove : list jstr }.

(** Settings are an object, or the text of one; an array that was parsed has
    none of the three properties. *)
Definition parseUpstreamUpdateMeta (settings : jsval) : update_meta :=
  let parsed := match settings with
                | J_obj props => Some props
                | J_str s => match json_parse s with Some (J_obj props) => Some props | Some (J_arr _) => Some [] | _ => None end
                | _ => None
                end in
  match parsed with
  | None => UpdateMeta false [] []
  | Some props =>
      let get key := default J_undefined (own_property props (js key)) in
      UpdateMeta (match get "upstream_model_update_check_enabled" with J_bool b => b | _ => false end)
        (normalizeModelList (get "upstream_model_update_last_detected_models"))
        (normalizeModelList (get "upstream_model_update_last_removed_models"))
  end.
