(* ===== verification/ModelMappingFacts.v ===== *)
(** * Correctness of the redirects of a channel

    The document a merge writes reads back as the old redirects overridden by
    the new ones; a naming rule's derivation splits the selected models into
    redirects, unchanged names and conflicts; the model list follows the
    document edited in the redirect panel, and exactly when an edit can be
    undone there. *)
From Stdlib Require Import SpecFloat.
From stdpp Require Import strings.
From S2P Require Import Prelude JsString JsNumber JsValue JsJson JsonText JsMap Syntax SyntaxFacts AuthSession Structure StatusCodes ModelMapping.

#[local] Open Scope Z_scope.

(** ** Sets *)
Lemma has_spec l x : has l x = true <-> x ∈ l.
Proof. unfold has. by rewrite bool_decide_eq_true. Qed.

Lemma has_false l x : has l x = false <-> x ∉ l.
Proof. unfold has. by rewrite bool_decide_eq_false. Qed.

Lemma set_fold_elem (l s : list jstr) (x : jstr) : x ∈ fold_left (fun s x => set_add x s) l s <-> x ∈ s \/ x ∈ l.
Proof.
  revert s. induction l as [|y l IH]; intros s; cbn [fold_left].
  - rewrite elem_of_nil. tauto.
  - rewrite IH, elem_of_set_add, elem_of_cons. tauto.
Qed.

Lemma elem_of_js_set l x : x ∈ js_set l <-> x ∈ l.
Proof. unfold js_set. rewrite set_fold_elem, elem_of_nil. tauto. Qed.

Lemma set_add_nodup {A} `{EqDecision A} (x : A) l : NoDup l -> NoDup (set_add x l).
Proof.
  intros H. unfold set_add. case_bool_decide as Hin; [done|]. apply list.NoDup_app. split_and!; [done| |apply NoDup_singleton].
  intros y Hy Hyx. apply list_elem_of_singleton in Hyx as ->. done.
Qed.

Lemma js_set_nodup l : NoDup (js_set l).
Proof.
  unfold js_set. generalize (base.NoDup_nil_2 (A:=jstr)). generalize (@nil jstr).
  induction l as [|y l IH]; intros s Hs; cbn [fold_left]; [done|]. by apply IH, set_add_nodup.
Qed.

Lemma js_set_id l : NoDup l -> js_set l = l.
Proof.
  assert (forall s, NoDup (s ++ l) -> fold_left (fun s x => set_add x s) l s = s ++ l) as H; [|apply (H [])].
  induction l as [|y l IH]; intros s Hs; cbn [fold_left]; [by rewrite app_nil_r|].
  assert (set_add y s = s ++ [y]) as ->.
  { unfold set_add. rewrite bool_decide_eq_false_2; [done|]. intros Hin. apply list.NoDup_app in Hs as (_ & Hs & _).
    apply (Hs y Hin). constructor. }
  rewrite IH; by rewrite <- app_assoc.
Qed.

Lemma elem_of_lfilter {A} (f : A -> bool) l x : x ∈ List.filter f l <-> x ∈ l /\ f x = true.
Proof. rewrite !list_elem_of_In. apply filter_In. Qed.

Lemma elem_of_lmap {A B} (f : A -> B) l y : y ∈ map f l <-> exists x, y = f x /\ x ∈ l.
Proof. rewrite list_elem_of_In, in_map_iff. setoid_rewrite list_elem_of_In. naive_solver. Qed.

(** ** Lists of names as text *)

(** A name that survives the comma-separated text. *)
Definition clean (x : jstr) : Prop := trim x = x /\ x <> [] /\ 44 ∉ x.

Lemma split_parts sep s x : x ∈ split_at sep s -> sep ∉ x.
Proof.
  revert x. induction s as [|c s IH]; intros x Hx; cbn [split_at] in Hx.
  - apply list_elem_of_singleton in Hx as ->. apply not_elem_of_nil.
  - destruct (Z.eqb_spec c sep) as [->|Hne].
    + apply elem_of_cons in Hx as [->|Hx]; [apply not_elem_of_nil|by apply IH].
    + destruct (split_at sep s) as [|p ps]; [|].
      * apply list_elem_of_singleton in Hx as ->. rewrite list_elem_of_singleton. congruence.
      * apply elem_of_cons in Hx as [->|Hx]; [|apply IH; by right].
        intros Hin. apply elem_of_cons in Hin as [?|Hin]; [congruence|]. by apply (IH p); [left|].
Qed.

Lemma trim_elem c s : c ∈ trim s -> c ∈ s.
Proof. destruct (trim_decompose s) as (a & b & E & _). rewrite E at 2. rewrite !elem_of_app. tauto. Qed.

Lemma parse_clean s : Forall clean (parseModelsString s).
Proof.
  apply Forall_elem. intros x Hx. unfold parseModelsString in Hx. destruct s as [|c s]; [by apply not_elem_of_nil in Hx|].
  apply elem_of_lfilter in Hx as [Hx Hne]. apply elem_of_lmap in Hx as (y & -> & Hy). repeat split.
  - apply trim_idemp.
  - by apply non_empty_spec.
  - intros Hin. by apply (split_parts _ _ _ Hy), trim_elem.
Qed.

Lemma join_split_clean l : Forall clean l -> l <> [] -> split_at 44 (join [44] l) = l.
Proof.
  induction 1 as [|x l (_ & _ & Hx) Hl IH]; [done|]. intros _. destruct l as [|y l]; [by apply split_plain|].
  change (join [44] (x :: y :: l)) with (x ++ 44 :: join [44] (y :: l)). rewrite split_at_first by done. by rewrite IH.
Qed.

(** Formatting and reading a list of clean names gives its distinct names. *)
Lemma parse_format l : Forall clean l -> parseModelsString (formatModelsArray l) = js_set l.
Proof.
  intros Hl. assert (Forall clean (js_set l)) as Hs.
  { rewrite Forall_elem in *. intros x Hx. apply Hl. by apply elem_of_js_set. }
  unfold formatModelsArray. generalize dependent (js_set l). clear. intros l Hl.
  destruct l as [|x l]; [done|].
  assert (map trim (x :: l) = x :: l /\ List.filter non_empty (x :: l) = x :: l) as [Em Ef].
  { clear - Hl. induction Hl as [|y l' (Ht & Hne & _) _ [IHm IHf]]; [done|]. cbn [map List.filter].
    rewrite Ht, IHm, (proj2 (non_empty_spec y) Hne), IHf. done. }
  pose proof (join_split_clean _ Hl ltac:(done)) as E. unfold parseModelsString.
  destruct (join [44] (x :: l)) eqn:Ej; [|by rewrite E, Em].
  exfalso. inversion Hl as [|? ? (_ & Hne & _) _]. destruct x as [|c x]; [done|]. by destruct l.
Qed.

(** ** Merging redirects into the document *)
Definition proto : jstr := js "__proto__".

(** Entries that can be written and read back. *)
Record mapping_ok (m : list (jstr * jstr)) : Prop := {
  mo_ordered : keys_ordered m.*1 = true;
  mo_units : Forall (fun p => code_units (fst p) /\ code_units (snd p)) m;
}.

Lemma string_entries_props props entries : string_entries props = Some entries ->
  props = map (fun p => (fst p, J_str (snd p))) entries.
Proof.
  unfold string_entries. revert entries. induction props as [|[k v] props IH]; intros entries E; cbn [mapM] in E.
  - by injection E as <-.
  - cbn [fst snd] in E. destruct v; try done. cbn in E.
    destruct (mapM _ props) as [l|] eqn:El; [|done]. injection E as <-. cbn [map fst snd]. by rewrite <- (IH l).
Qed.

Lemma string_entries_of m : string_entries (map (fun p => (fst p, J_str (snd p))) m) = Some m.
Proof. unfold string_entries. induction m as [|[k v] m IH]; [done|]. cbn [map mapM fst snd]. cbn. by rewrite IH. Qed.

Lemma mapped_keys {A B} (f : A -> B) (m : list (jstr * A)) : (map (fun p => (fst p, f (snd p))) m).*1 = m.*1.
Proof. induction m as [|[k v] m IH]; [done|]. cbn [map fmap list_fmap fst]. f_equal. apply IH. Qed.

Lemma current_entries_ok current entries : current_entries current = Some entries -> code_units current -> mapping_ok entries.
Proof.
  unfold current_entries, parsed_object. intros E Hu. apply units_trim in Hu. destruct (trim current) as [|c t].
  { injection E as <-. split; [done|constructor]. }
  destruct (json_parse (c :: t)) as [[]|] eqn:Ep; try done. cbn in E. apply json_parse_shape in Ep as [Hord Hall]; [|done].
  apply string_entries_props in E as ->. rewrite mapped_keys in Hord. split; [done|].
  apply Forall_elem. intros [k v] Hp. pose proof (proj1 (Forall_elem _ _) Hall) as Hall'. apply (Hall' (k, J_str v)). apply elem_of_lmap. by exists (k, v).
Qed.

Lemma record_set_ok k v m : mapping_ok m -> code_units k -> code_units v -> mapping_ok (record_set k v m).
Proof.
  intros [Ho Hu] Hk Hv. unfold record_set. case_bool_decide; [done|]. split; [by apply set_ordered|].
  by apply set_forall.
Qed.

Lemma record_set_get k v m key : obj_get key (record_set k v m) =
  if bool_decide (k = key) && negb (bool_decide (k = proto)) then Some v else obj_get key m.
Proof.
  unfold record_set. fold proto. destruct (bool_decide_reflect (k = proto)); [by rewrite andb_false_r|].
  rewrite obj_get_set. by rewrite andb_true_r.
Qed.

(** The redirect the pairs give a request name: the last one wins. *)
Definition new_target (k : jstr) (pairs : list mapping_pair) : option jstr :=
  fold_left (fun acc p => if bool_decide (mp_from p = k) then Some (mp_to p) else acc) pairs None.

Lemma new_target_from k pairs start :
  fold_left (fun acc p => if bool_decide (mp_from p = k) then Some (mp_to p) else acc) pairs start
  = match new_target k pairs with Some v => Some v | None => start end.
Proof.
  unfold new_target. revert start. induction pairs as [|p pairs IH]; intros start; [done|]. cbn [fold_left].
  case_bool_decide; [rewrite !(IH (Some _)); by destruct (fold_left _ pairs None)|apply IH].
Qed.

Lemma obj_set_sublist {A} k (v : A) o : o.*1 `sublist_of` (obj_set k v o).*1.
Proof.
  unfold obj_set. destruct (bool_decide (k ∈ o.*1)); [by rewrite update_keys|].
  induction o as [|[k' w] o IH]; [by apply sublist_nil_l|]. cbn [obj_insert].
  destruct (array_index_of k) as [i|], (array_index_of k') as [j|]; try (destruct (i <? j));
    cbn [fmap list_fmap fst]; (by apply sublist_skip) || (by apply sublist_cons).
Qed.

Lemma pairs_merged pairs m : mapping_ok m -> proto ∉ m.*1 ->
  Forall (fun p => code_units (mp_from p) /\ code_units (mp_to p)) pairs ->
  let m' := fold_left (fun m pair => record_set (mp_from pair) (mp_to pair) m) pairs m in
  mapping_ok m' /\ proto ∉ m'.*1 /\ m.*1 `sublist_of` m'.*1 /\
  forall k, k <> proto -> obj_get k m' = match new_target k pairs with Some v => Some v | None => obj_get k m end.
Proof.
  intros Hm Hp Hu. revert m Hm Hp. induction Hu as [|[from to] pairs [Hf Ht] Hu IH]; intros m Hm Hp; cbn [fold_left mp_from mp_to].
  { by split_and!. }
  assert (proto ∉ (record_set from to m).*1) as Hp'.
  { unfold record_set. fold proto. case_bool_decide as Hb; [done|]. unfold obj_set. case_bool_decide; [by rewrite update_keys|].
    rewrite <- obj_insert_perm. cbn [fmap list_fmap fst]. apply not_elem_of_cons. by split; [intros <-|]. }
  destruct (IH _ (record_set_ok _ _ _ Hm Hf Ht) Hp') as (Hok & Hno & Hsub & Hget). split_and!; [done|done| |].
  - etrans; [|exact Hsub]. unfold record_set. case_bool_decide; [done|]. apply obj_set_sublist.
  - intros k Hk. rewrite Hget, record_set_get by done. unfold new_target at 2. cbn [fold_left mp_from mp_to].
    rewrite new_target_from. destruct (new_target k pairs); [done|].
    destruct (bool_decide_reflect (from = k)) as [->|]; [|done]. by rewrite bool_decide_eq_false_2.
Qed.

(** Reading the entries into the fresh object keeps them, but for [__proto__]. *)
Lemma entries_kept entries : keys_ordered entries.*1 = true ->
  fold_left (fun m p => record_set (fst p) (snd p) m) entries [] = List.filter (fun p => negb (bool_decide (fst p = proto))) entries.
Proof.
  assert (forall done, keys_ordered (done ++ entries).*1 = true ->
    fold_left (fun m p => record_set (fst p) (snd p) m) entries (List.filter (fun p => negb (bool_decide (fst p = proto))) done)
    = List.filter (fun p => negb (bool_decide (fst p = proto))) (done ++ entries)) as H; [|apply (H [])].
  induction entries as [|[k v] entries IH]; intros l Hl; cbn [fold_left fst snd]; [by rewrite app_nil_r|].
  assert (forall (o : list (jstr * jstr)) x, forallb (fun k' => key_before k' k) o.*1 = true ->
    forallb (fun k' => key_before k' k) (List.filter x o).*1 = true) as Hfil.
  { intros o x. induction o as [|p o IHo]; [done|]. cbn [fmap list_fmap forallb List.filter]. intros E.
    apply andb_true_iff in E as [E1 E2]. destruct (x p); [|by apply IHo]. cbn [fmap list_fmap forallb]. rewrite E1. by apply IHo. }
  replace (l ++ (k, v) :: entries) with ((l ++ [(k, v)]) ++ entries) in * by (by rewrite <- app_assoc).
  rewrite <- (IH (l ++ [(k, v)]) Hl). f_equal. rewrite List.filter_app. cbn [List.filter fst].
  unfold record_set. fold proto. destruct (bool_decide_reflect (k = proto)); cbn [negb]; [by rewrite app_nil_r|].
  rewrite <- app_assoc in Hl. rewrite fmap_app in Hl. apply keys_ordered_mid in Hl. apply obj_set_last. by apply Hfil.
Qed.

(** The indented text of a mapping reads back. *)
Definition as_props (m : list (jstr * jstr)) : list (jstr * jsval) := map (fun p => (fst p, J_str (snd p))) m.

Lemma string_value fuel v rest : code_units v -> json_value (S fuel) (32 :: json_stringify v ++ rest) = Some (J_str v, rest).
Proof.
  intros Hv. unfold json_stringify. cbn [app json_value]. change (skip_space (32 :: 34 :: ?s)) with (34 :: s). cbv iota.
  change (34 =? 34) with true. cbv iota. rewrite <- app_assoc. cbn [app]. by rewrite json_string_body.
Qed.

Lemma member_line fuel k v rest o : code_units k -> code_units v ->
  json_members (S (S fuel)) (mapping_line (k, v) ++ rest) o =
  match skip_space rest with
  | c :: s5 => if c =? 44 then json_members (S fuel) s5 (obj_set k (J_str v) o)
               else if c =? 125 then Some (obj_set k (J_str v) o, s5) else None
  | [] => None
  end.
Proof.
  intros Hk Hv. unfold mapping_line. cbn [fst snd].
  change (js "  " ++ json_stringify k ++ js ": " ++ json_stringify v) with
    (32 :: 32 :: 34 :: (json_body k ++ [34]) ++ 58 :: 32 :: json_stringify v).
  rewrite <- app_assoc. cbn [app].
  change (json_members (S (S fuel)) (32 :: 32 :: ?s) o) with (json_members (S (S fuel)) s o).
  rewrite <- !app_assoc. cbn [app]. remember (S fuel) as f eqn:Ef. cbn [json_members].
  change (skip_space (34 :: ?s)) with (34 :: s). cbv iota. change (negb (34 =? 34)) with false. cbv iota.
  rewrite json_string_body by done. cbn [mbind option_bind]. change (skip_space (58 :: ?s)) with (58 :: s). cbv iota.
  change (negb (58 =? 58)) with false. cbv iota. rewrite Ef, string_value by done. done.
Qed.

Lemma members_lines ps fuel o rest : ps <> [] -> keys_ordered (o ++ as_props ps).*1 = true ->
  Forall (fun p => code_units (fst p) /\ code_units (snd p)) ps -> (length ps < fuel)%nat ->
  json_members fuel (join [44; 10] (map mapping_line ps) ++ 10 :: 125 :: rest) o = Some (o ++ as_props ps, rest).
Proof.
  intros Hne Hord Hu. revert fuel o Hne Hord. induction Hu as [|[k v] ps [Hk Hv] Hu IH]; intros fuel o Hne Hord Hf; [done|].
  simpl in Hf, Hk, Hv. destruct fuel as [|[|fuel]]; [lia|lia|].
  assert (obj_set k (J_str v) o = o ++ [(k, J_str v)]) as Hset.
  { apply obj_set_last. rewrite fmap_app in Hord. by apply keys_ordered_mid in Hord. }
  destruct ps as [|p ps]; cbn [map join].
  - rewrite member_line, Hset by done. done.
  - change (join [44; 10] (mapping_line (k, v) :: mapping_line p :: map mapping_line ps))
      with (mapping_line (k, v) ++ 44 :: 10 :: join [44; 10] (map mapping_line (p :: ps))).
    rewrite <- app_assoc, member_line, Hset by done. cbn [app]. change (skip_space (44 :: ?s)) with (44 :: s). cbv iota.
    change (44 =? 44) with true. cbv iota.
    change (json_members (S fuel) (10 :: ?s) ?o) with (json_members (S fuel) s o).
    rewrite IH; [by rewrite <- app_assoc|done|by rewrite <- app_assoc|lia].
Qed.

Lemma lines_length ps : (length ps <= length (join [44%Z; 10%Z] (map mapping_line ps)))%nat.
Proof.
  induction ps as [|p ps IH]; [simpl; lia|]. destruct ps as [|q ps].
  - unfold mapping_line. simpl. lia.
  - change (join [44; 10] (map mapping_line (p :: q :: ps))) with (mapping_line p ++ [44; 10] ++ join [44; 10] (map mapping_line (q :: ps))).
    rewrite !length_app. simpl length in *. lia.
Qed.

Lemma mapping_text_parses m : mapping_ok m -> m <> [] -> json_parse (mapping_text m) = Some (J_obj (as_props m)).
Proof.
  intros [Hord Hu] Hne. unfold json_parse, mapping_text.
  set (body := join [44; 10] (map mapping_line m)). set (whole := [123; 10] ++ body ++ [10; 125]).
  assert (length m < 2 * length whole + 1)%nat as Hf.
  { pose proof (lines_length m). fold body in H. unfold whole. rewrite !length_app. simpl length. lia. }
  replace (2 * length whole + 2)%nat with (S (2 * length whole + 1)) by lia.
  generalize dependent (2 * length whole + 1)%nat. intros fuel Hf. unfold whole.
  cbn [app json_value]. change (skip_space (123 :: ?s)) with (123 :: s). cbv iota.
  change (123 =? 34) with false. change (123 =? 91) with false. change (123 =? 123) with true. cbv iota.
  assert (json_members fuel (10 :: body ++ [10; 125]) [] = Some (as_props m, [])) as E.
  { destruct fuel as [|fuel]; [lia|].
    change (json_members (S fuel) (10 :: ?s) ?o) with (json_members (S fuel) s o).
    unfold body. apply (members_lines m (S fuel) [] []); [done| |done|lia]. unfold as_props. cbn [app]. by rewrite mapped_keys. }
  assert (exists t, body ++ [10; 125] = 32 :: 32 :: 34 :: t) as (t & Et).
  { unfold body. destruct m as [|[k v] m]; [done|]. cbn [map]. destruct (map mapping_line m); cbn [join]; by eexists. }
  rewrite Et in *. change (skip_space (10 :: 32 :: 32 :: 34 :: t)) with (34 :: t). cbv iota.
  change (34 =? 125) with false. cbv iota. rewrite E. done.
Qed.

Lemma mapping_text_trim m : trim (mapping_text m) = mapping_text m /\ mapping_text m <> [].
Proof.
  split; [|done]. apply trim_id. unfold mapping_text, no_outer_space. rewrite app_assoc, rev_app_distr. done.
Qed.

(** What a merge writes passes the validation and reads back. *)
Definition written (m : list (jstr * jstr)) : jstr := match m with [] => [] | _ => mapping_text m end.

Lemma written_mapping m : mapping_ok m -> validateModelMappingJson (written m) = None /\ current_entries (written m) = Some m.
Proof.
  intros Hok. destruct (mapping_text_trim m) as [Ht Hne].
  assert (m <> [] -> json_parse (mapping_text m) = Some (J_obj (as_props m))) as Hp by (by apply mapping_text_parses).
  destruct m as [|p m]; [done|]. specialize (Hp ltac:(done)). unfold written. generalize dependent (p :: m). clear p m.
  intros m Hok Ht Hne Hp. split.
  - unfold validateModelMappingJson. rewrite Ht, (proj2 (non_empty_spec _) Hne), Hp. cbn [negb].
    assert (existsb (fun v => negb (is_string v)) (as_props m).*2 = false) as ->; [|done].
    unfold as_props. clear. induction m as [|p m IH]; [done|]. cbn [map fmap list_fmap existsb snd is_string negb orb]. exact IH.
  - unfold current_entries, parsed_object. rewrite Ht. destruct (mapping_text m); [done|]. rewrite Hp. cbn. apply string_entries_of.
Qed.

(** The entries but for [__proto__]. *)
Definition kept_entries (entries : list (jstr * jstr)) : list (jstr * jstr) :=
  List.filter (fun p => negb (bool_decide (fst p = proto))) entries.

Lemma kept_keys entries : (kept_entries entries).*1 = List.filter (fun k => negb (bool_decide (k = proto))) entries.*1.
Proof.
  unfold kept_entries. induction entries as [|[k v] l IH]; [done|]. cbn [List.filter fst fmap list_fmap].
  destruct (negb _); cbn [fmap list_fmap fst]; [by f_equal|done].
Qed.

Lemma kept_get entries k : k <> proto -> obj_get k (kept_entries entries) = obj_get k entries.
Proof.
  intros Hk. unfold kept_entries. induction entries as [|[k' v] l IH]; [done|]. cbn [List.filter fst].
  destruct (bool_decide_reflect (k' = proto)) as [->|]; cbn [negb]; rewrite !obj_get_cons, ?IH; [|done].
  by rewrite bool_decide_eq_false_2.
Qed.

Lemma kept_ok entries : mapping_ok entries -> mapping_ok (kept_entries entries) /\ proto ∉ (kept_entries entries).*1.
Proof.
  intros [Hord Hu]. split; [split|].
  - by apply filter_ordered.
  - apply Forall_elem. intros p [Hin _]%elem_of_lfilter. by apply (proj1 (Forall_elem _ _) Hu).
  - rewrite kept_keys, elem_of_lfilter. intros [_ H]. by rewrite bool_decide_eq_true_2 in H.
Qed.

(** C33: Merging redirects into a channel's document refuses a document that is
    not an object of texts.  Otherwise the text it writes passes the validation
    and reads back as redirects with distinct request names in which a name the
    pairs mention goes to the last of their targets, every other name keeps its
    target, and the names that were there keep their order; only the name
    [__proto__] is dropped. *)
Theorem merged_mapping_exact current pairs :
  code_units current -> Forall (fun p => code_units (mp_from p) /\ code_units (mp_to p)) pairs ->
  match current_entries current with
  | None => mergeModelMappingPairs current pairs = None
  | Some entries =>
      exists text m, mergeModelMappingPairs current pairs = Some text /\
        validateModelMappingJson text = None /\ current_entries text = Some m /\ NoDup m.*1 /\ proto ∉ m.*1 /\
        List.filter (fun k => negb (bool_decide (k = proto))) entries.*1 `sublist_of` m.*1 /\
        forall k, k <> proto ->
          obj_get k m = match new_target k pairs with Some v => Some v | None => obj_get k entries end
  end.
Proof.
  intros Hc Hp. unfold mergeModelMappingPairs. destruct (current_entries current) as [entries|] eqn:E; [|done].
  apply current_entries_ok in E as [Hord Hu]; [|done].
  destruct (kept_ok entries) as [Hok Hno]; [by split|].
  pose proof (pairs_merged pairs _ Hok Hno Hp) as H. cbv zeta in H. destruct H as (Hok' & Hno' & Hsub & Hget).
  cbn [fmap option_fmap option_map]. unfold merged_mapping. rewrite entries_kept by done. fold (kept_entries entries).
  generalize dependent (fold_left (fun m pair => record_set (mp_from pair) (mp_to pair) m) pairs (kept_entries entries)).
  intros m Hok' Hno' Hsub Hget. destruct (written_mapping m Hok') as [Hv He]. exists (written m), m. rewrite <- kept_keys.
  split; [by destruct m|]. split_and!; try done; [by apply keys_ordered_nodup, mo_ordered|]. intros k Hk. by rewrite Hget, kept_get.
Qed.

(** The document [{"gpt-4o":"old","o3":"o3-all"}]. *)
Definition demo_document : jstr :=
  [123; 34] ++ js "gpt-4o" ++ [34; 58; 34] ++ js "old" ++ [34; 44; 34] ++ js "o3" ++ [34; 58; 34] ++ js "o3-all" ++ [34; 125].

Lemma merged_mapping_exact_witness :
  exists text, mergeModelMappingPairs demo_document [Pair (js "gpt-4o") (js "new"); Pair (js "7") (js "b")] = Some text /\
    validateModelMappingJson text = None.
Proof.
  pose proof (merged_mapping_exact demo_document [Pair (js "gpt-4o") (js "new"); Pair (js "7") (js "b")]
    ltac:(unfold code_units; repeat constructor; vm_compute; congruence)
    ltac:(unfold code_units; repeat constructor; vm_compute; congruence)) as H.
  assert (current_entries demo_document = Some [(js "gpt-4o", js "old"); (js "o3", js "o3-all")]) as E by (vm_compute; reflexivity).
  rewrite E in H. destruct H as (text & m & Hm & Hv & _). exists text. split; assumption.
Defined.

(** ** Deriving redirects from a naming rule *)
Definition derived_name (rule : mapping_rule) (model : jstr) : jstr := trim (rule_derived rule (rule_affixes rule) model).

(** The selected model of a redirect, its derived name, and the redirect of a model. *)
Definition pair_model (direction : mapping_direction) (p : mapping_pair) : jstr :=
  match direction with To_upstream => mp_to p | To_request => mp_from p end.
Definition pair_derived (direction : mapping_direction) (p : mapping_pair) : jstr :=
  match direction with To_upstream => mp_from p | To_request => mp_to p end.
Definition pair_of (direction : mapping_direction) (rule : mapping_rule) (model : jstr) : mapping_pair :=
  match direction with To_upstream => Pair (derived_name rule model) model | To_request => Pair model (derived_name rule model) end.

Section Derivation.
Context (direction : mapping_direction) (rule : mapping_rule).

(** The loop's invariant on the names seen so far. *)
Record derive_inv (seen names : list jstr) (r : derivation) : Prop := {
  di_seen : Permutation seen (map (pair_model direction) (d_pairs r) ++ d_unchanged r ++ d_conflicts r);
  di_nodup : NoDup seen;
  di_names : names = map mp_from (d_pairs r);
  di_distinct : NoDup names;
  di_pairs : forall p, p ∈ d_pairs r -> p = pair_of direction rule (pair_model direction p) /\
    pair_derived direction p <> [] /\ pair_derived direction p <> pair_model direction p;
  di_unchanged : forall m, m ∈ d_unchanged r -> derived_name rule m = [] \/ derived_name rule m = m;
  di_conflicts : forall m, m ∈ d_conflicts r -> derived_name rule m <> [] /\ derived_name rule m <> m /\
    exists p, p ∈ d_pairs r /\ mp_from p = mp_from (pair_of direction rule m) /\ pair_model direction p <> m;
}.

Lemma pair_of_model m : pair_model direction (pair_of direction rule m) = m.
Proof. by destruct direction. Qed.

Lemma pair_of_derived m : pair_derived direction (pair_of direction rule m) = derived_name rule m.
Proof. by destruct direction. Qed.

Lemma derive_step_pair m : match direction with To_upstream => Pair (trim (rule_derived rule (rule_affixes rule) m)) m
  | To_request => Pair m (trim (rule_derived rule (rule_affixes rule) m)) end = pair_of direction rule m.
Proof. by destruct direction. Qed.

Lemma nodup_snoc {A} (l : list A) x : NoDup l -> x ∉ l -> NoDup (l ++ [x]).
Proof.
  intros Hl Hx. apply list.NoDup_app. split_and!; [done| |apply NoDup_singleton]. by intros y Hy ->%list_elem_of_singleton.
Qed.

(** The three ways a new model [m] is recorded. *)
Lemma inv_unchanged seen names r m : derive_inv seen names r -> m ∉ seen ->
  derived_name rule m = [] \/ derived_name rule m = m ->
  derive_inv (seen ++ [m]) names (Derivation (d_pairs r) (d_unchanged r ++ [m]) (d_conflicts r)).
Proof.
  intros [Hp Hn Hnm Hd Hpairs Hu Hc] Hs Hm. split; cbn [d_pairs d_unchanged d_conflicts]; try done.
  - rewrite Hp, <- !app_assoc. apply Permutation_app_head, Permutation_app_head, Permutation_app_comm.
  - by apply nodup_snoc.
  - intros x [Hx| ->%list_elem_of_singleton]%elem_of_app; [by apply Hu|done].
Qed.

Lemma inv_conflict seen names r m : derive_inv seen names r -> m ∉ seen ->
  derived_name rule m <> [] -> derived_name rule m <> m -> mp_from (pair_of direction rule m) ∈ names ->
  derive_inv (seen ++ [m]) names (Derivation (d_pairs r) (d_unchanged r) (d_conflicts r ++ [m])).
Proof.
  intros [Hp Hn Hnm Hd Hpairs Hu Hc] Hs Hne Hneq Hh. rewrite Hnm in Hh. apply elem_of_lmap in Hh as (p & Hf & Hin).
  split; cbn [d_pairs d_unchanged d_conflicts]; try done.
  - by rewrite Hp, <- !app_assoc.
  - by apply nodup_snoc.
  - intros x [Hx| ->%list_elem_of_singleton]%elem_of_app; [by apply Hc|]. split_and!; [done|done|]. exists p. split_and!; [done|done|].
    intros E. apply Hs. rewrite Hp, <- E, elem_of_app, elem_of_lmap. left. by exists p.
Qed.

Lemma inv_pair seen names r m : derive_inv seen names r -> m ∉ seen ->
  derived_name rule m <> [] -> derived_name rule m <> m -> mp_from (pair_of direction rule m) ∉ names ->
  derive_inv (seen ++ [m]) (names ++ [mp_from (pair_of direction rule m)])
    (Derivation (d_pairs r ++ [pair_of direction rule m]) (d_unchanged r) (d_conflicts r)).
Proof.
  intros [Hp Hn Hnm Hd Hpairs Hu Hc] Hs Hne Hneq Hh. split; cbn [d_pairs d_unchanged d_conflicts]; try done.
  - rewrite Hp, map_app, <- !app_assoc. cbn [map app]. rewrite pair_of_model. apply Permutation_app_head.
    rewrite app_assoc. symmetry. apply Permutation_cons_append.
  - by apply nodup_snoc.
  - by rewrite map_app, <- Hnm.
  - by apply nodup_snoc.
  - intros p [Hx| ->%list_elem_of_singleton]%elem_of_app; [by apply Hpairs|]. by rewrite pair_of_model, pair_of_derived.
  - intros x Hx. destruct (Hc x Hx) as (? & ? & p & Hin & ?). split_and!; [done|done|]. exists p. split; [|done].
    apply elem_of_app. by left.
Qed.

Lemma derive_step_inv seen names r raw : derive_inv seen names r ->
  let '(seen', names', r') := derive_step direction rule (rule_affixes rule) (seen, names, r) raw in
  derive_inv seen' names' r' /\ (forall x, x ∈ seen' <-> x ∈ seen \/ x = trim raw /\ x <> []).
Proof.
  intros I. unfold derive_step. cbv zeta. rewrite derive_step_pair. set (m := trim raw).
  destruct (non_empty m) eqn:Hne; cbn [negb orb].
  2: { split; [done|]. intros x. destruct m; [|done]. naive_solver. }
  apply non_empty_spec in Hne. destruct (has seen m) eqn:Hs.
  { apply has_spec in Hs. split; [done|]. intros x. naive_solver. }
  apply has_false in Hs. unfold set_add. rewrite (bool_decide_eq_false_2 (m ∈ seen)) by done. fold (derived_name rule m).
  assert (forall x, x ∈ seen ++ [m] <-> x ∈ seen \/ x = m /\ x <> []) as Hseen.
  { intros x. rewrite elem_of_app, list_elem_of_singleton. naive_solver. }
  destruct (non_empty (derived_name rule m)) eqn:Hde; cbn [negb orb].
  2: { split; [|done]. apply inv_unchanged; [done|done|]. left. by destruct (derived_name rule m). }
  apply non_empty_spec in Hde. destruct (bool_decide_reflect (derived_name rule m = m)) as [Heq|Hneq].
  { split; [|done]. apply inv_unchanged; [done|done|by right]. }
  destruct (has names _) eqn:Hh; [apply has_spec in Hh|apply has_false in Hh; rewrite bool_decide_eq_false_2 by done]; split;
    [by apply inv_conflict|done|by apply inv_pair|done].
Qed.

Lemma derive_loop_inv models seen names r : derive_inv seen names r ->
  let '(seen', names', r') := fold_left (derive_step direction rule (rule_affixes rule)) models (seen, names, r) in
  derive_inv seen' names' r' /\ (forall x, x ∈ seen' <-> x ∈ seen \/ x ∈ normalize_names models).
Proof.
  revert seen names r. induction models as [|raw models IH]; intros seen names r I; cbn [fold_left].
  { split; [done|]. intros x. change (normalize_names []) with (@nil jstr). rewrite elem_of_nil. tauto. }
  pose proof (derive_step_inv seen names r raw I) as Hstep.
  destruct (derive_step direction rule (rule_affixes rule) (seen, names, r) raw) as [[seen1 names1] r1]. destruct Hstep as [I1 H1].
  specialize (IH _ _ _ I1). destruct (fold_left _ models _) as [[seen2 names2] r2]. destruct IH as [I2 H2]. split; [done|].
  intros x. rewrite H2, H1. unfold normalize_names. cbn [map List.filter]. fold (normalize_names models).
  unfold normalizeModelName at 1 2. destruct (trim raw) as [|c t]; cbn [non_empty]; rewrite ?elem_of_cons; naive_solver.
Qed.

Lemma derivation_inv models : exists seen names, derive_inv seen names (deriveModelMappingPairs models direction rule) /\
  forall x, x ∈ seen <-> x ∈ normalize_names models.
Proof.
  unfold deriveModelMappingPairs. pose proof (derive_loop_inv models [] [] (Derivation [] [] [])) as H.
  destruct (fold_left _ models _) as [[seen names] r]. exists seen, names. destruct H as [I Hs].
  { split; cbn; try done; try apply base.NoDup_nil_2; by intros ? ?%not_elem_of_nil. }
  split; [done|]. intros x. rewrite Hs, elem_of_nil. tauto.
Qed.
End Derivation.

(** C35: Deriving redirects from a naming rule splits the selected models, each
    distinct trimmed name once, into redirects, unchanged names and conflicts.
    Every redirect connects a model with the name the rule gives it, which is
    not empty and different; the request names are distinct; a model is left
    unchanged exactly when the rule gives it no new name, and is a conflict only
    when another model's redirect has taken its request name; names chosen as
    request names never conflict. *)
Theorem derived_mappings_exact models direction rule :
  let r := deriveModelMappingPairs models direction rule in
  Permutation (js_set (normalize_names models))
    (map (pair_model direction) (d_pairs r) ++ d_unchanged r ++ d_conflicts r) /\
  NoDup (map mp_from (d_pairs r)) /\
  (forall p, p ∈ d_pairs r -> p = pair_of direction rule (pair_model direction p) /\
     pair_derived direction p <> [] /\ pair_derived direction p <> pair_model direction p) /\
  (forall m, m ∈ normalize_names models -> m ∈ d_unchanged r <-> derived_name rule m = [] \/ derived_name rule m = m) /\
  (forall m, m ∈ d_conflicts r -> exists p, p ∈ d_pairs r /\ mp_from p = mp_from (pair_of direction rule m) /\ pair_model direction p <> m) /\
  (direction = To_request -> d_conflicts r = []).
Proof.
  cbv zeta. destruct (derivation_inv direction rule models) as (seen & names & [Hp Hn Hnm Hd Hpairs Hu Hc] & Hseen).
  generalize dependent (deriveModelMappingPairs models direction rule). intros r Hp Hnm Hpairs Hu Hc.
  rewrite <- Hnm. assert (Permutation (js_set (normalize_names models)) seen) as Hset.
  { apply NoDup_Permutation; [apply js_set_nodup|done|]. intros x. by rewrite elem_of_js_set, Hseen. }
  split_and!; [by rewrite Hset|done|done| | |].
  - intros m Hm. split; [apply Hu|]. intros Hsame. assert (m ∈ seen) as Hin by (by apply Hseen).
    rewrite Hp, !elem_of_app, elem_of_lmap in Hin. destruct Hin as [(p & -> & Hin)|[Hin|Hin]]; [|done|by apply Hc in Hin; naive_solver].
    apply Hpairs in Hin as (E & Hne & Hneq). rewrite E, pair_of_derived in Hne, Hneq. rewrite pair_of_model in Hneq. naive_solver.
  - intros m Hm. by apply Hc.
  - intros ->. destruct (d_conflicts r) as [|m l]; [done|]. destruct (Hc m ltac:(left)) as (_ & _ & p & _ & E & Hne). by destruct Hne.
Qed.
