(* ===== verification/ModelSyncFacts.v ===== *)
(** * The redirect panel and the model list

    What a synchronisation publishes and hides, exactly when committing a
    document and then the previous one restores the model list, and the checks
    of a saved channel, of the provider's lists and of detected naming rules. *)
From Stdlib Require Import SpecFloat.
From stdpp Require Import strings.
From S2P Require Import Prelude JsString JsNumber JsValue JsJson JsMap Syntax AuthSession Structure ModelMapping ModelMappingFacts.

#[local] Open Scope Z_scope.

(** ** One synchronisation *)
Lemma push_missing_elem models x y : y ∈ push_missing models x <-> y ∈ models \/ y = x.
Proof.
  unfold push_missing. destruct (has models x) eqn:E.
  - apply has_spec in E. naive_solver.
  - by rewrite elem_of_app, list_elem_of_singleton.
Qed.

Lemma push_all_elem l models y : y ∈ fold_left push_missing l models <-> y ∈ models \/ y ∈ l.
Proof.
  revert models. induction l as [|x l IH]; intros models; cbn [fold_left].
  - rewrite elem_of_nil. tauto.
  - rewrite IH, push_missing_elem, elem_of_cons. tauto.
Qed.

Lemma restore_elem T l models y :
  y ∈ fold_left (fun models target => if negb (has T target) then push_missing models target else models) l models
  <-> y ∈ models \/ (y ∈ l /\ y ∉ T).
Proof.
  revert models. induction l as [|x l IH]; intros models; cbn [fold_left].
  - rewrite elem_of_nil. tauto.
  - rewrite IH, elem_of_cons. destruct (has T x) eqn:E; cbn [negb].
    + apply has_spec in E. naive_solver.
    + apply has_false in E. rewrite push_missing_elem. naive_solver.
Qed.

Lemma synced_models_elem A T A0 T0 M x : x ∈ synced_models A T A0 T0 M <->
  x ∈ A \/ (x ∉ T /\ ((x ∈ M /\ x ∉ A0) \/ x ∈ T0)).
Proof.
  unfold synced_models. rewrite push_all_elem, elem_of_lfilter, restore_elem, elem_of_lfilter.
  rewrite !negb_true_iff, andb_false_iff, negb_false_iff, !has_false, has_spec.
  destruct (decide (x ∈ A)); tauto.
Qed.

(** Names of the document that hold no comma survive the list's text. *)
Definition comma_free (props : list (jstr * jsval)) : Prop :=
  Forall (fun p => 44 ∉ mp_from p /\ 44 ∉ mp_to p) (complete_redirects props).

Lemma redirect_trimmed props p : p ∈ complete_redirects props ->
  (trim (mp_from p) = mp_from p /\ mp_from p <> []) /\ (trim (mp_to p) = mp_to p /\ mp_to p <> []).
Proof.
  unfold complete_redirects. rewrite list_elem_of_omap. intros ([k v] & _ & E). cbn [fst snd] in E.
  destruct v; try done. destruct (non_empty (trim k) && non_empty (trim s)) eqn:Hb; [|done]. injection E as <-.
  apply andb_true_iff in Hb as [Hk Hs]. cbn [mp_from mp_to]. rewrite !trim_idemp, <- !non_empty_spec. done.
Qed.

Lemma names_clean props : comma_free props -> Forall clean (alias_set props) /\ Forall clean (target_set props).
Proof.
  intros Hc. unfold comma_free in Hc. rewrite Forall_elem in Hc. split; apply Forall_elem; intros x Hx;
    apply elem_of_js_set, elem_of_lmap in Hx as (p & -> & Hp); destruct (Hc p Hp), (redirect_trimmed props p Hp); unfold clean; tauto.
Qed.

Lemma synced_models_clean A T A0 T0 M : Forall clean A -> Forall clean T0 -> Forall clean M -> Forall clean (synced_models A T A0 T0 M).
Proof. rewrite !Forall_elem. intros HA HT HM x Hx. apply synced_models_elem in Hx. naive_solver. Qed.

Lemma sync_list mapping props p : synced_document mapping = Some props -> comma_free props -> Forall clean (syncedTargets p) ->
  parseModelsString (p_models (syncModelsWithMapping mapping p))
  = js_set (synced_models (alias_set props) (target_set props) (syncedAliases p) (syncedTargets p) (parseModelsString (p_models p))).
Proof.
  intros E Hc Ht. unfold syncModelsWithMapping. rewrite E. cbn [p_models]. apply parse_format, synced_models_clean; [|done|apply parse_clean].
  by apply names_clean.
Qed.

(** After a synchronisation the model list holds no name twice, and holds a
    name exactly when it is a request name of the document, or when it is not an
    upstream name of the document and was listed without having been published
    by the previous synchronisation, or was hidden by it; a document that is not
    an object changes nothing. *)
Theorem published_models_synced mapping p :
  Forall clean (syncedTargets p) ->
  match synced_document mapping with
  | None => syncModelsWithMapping mapping p = p
  | Some props => comma_free props ->
      let models := parseModelsString (p_models p) in
      let p' := syncModelsWithMapping mapping p in
      let models' := parseModelsString (p_models p') in
      NoDup models' /\
      (forall x, x ∈ models' <-> x ∈ alias_set props \/
         (x ∉ target_set props /\ ((x ∈ models /\ x ∉ syncedAliases p) \/ x ∈ syncedTargets p))) /\
      syncedAliases p' = alias_set props /\ syncedTargets p' = target_set props /\ Forall clean (syncedTargets p')
  end.
Proof.
  intros Ht. destruct (synced_document mapping) as [props|] eqn:E; [|unfold syncModelsWithMapping; by rewrite E].
  intros Hc. cbv zeta. rewrite (sync_list mapping props) by done.
  split; [apply js_set_nodup|]. split; [intros x; by rewrite elem_of_js_set, synced_models_elem|].
  unfold syncModelsWithMapping. rewrite E. cbn [syncedAliases syncedTargets]. split_and!; [done|done|]. by apply names_clean.
Qed.

(** The document [{"from":"to"}]. *)
Definition redirect_document (from to : jstr) : jstr := [123; 34] ++ from ++ [34; 58; 34] ++ to ++ [34; 125].

Lemma published_models_synced_witness :
  let p := Panel (js "gpt-4o-all,claude") [] [] [] in
  js "gpt-4o" ∈ parseModelsString (p_models (syncModelsWithMapping (redirect_document (js "gpt-4o") (js "gpt-4o-all")) p)).
Proof.
  intros p. pose proof (published_models_synced (redirect_document (js "gpt-4o") (js "gpt-4o-all")) p ltac:(constructor)) as H.
  assert (synced_document (redirect_document (js "gpt-4o") (js "gpt-4o-all")) = Some [(js "gpt-4o", J_str (js "gpt-4o-all"))])
    as E by (vm_compute; reflexivity).
  rewrite E in H. destruct H as (_ & H & _).
  { unfold comma_free. apply (bool_decide_unpack _). vm_compute. exact I. }
  apply H. left. apply (bool_decide_unpack _). vm_compute. exact I.
Defined.

(** ** Undoing an edit *)

(** The panel is in step with a document: its request names are listed, and of
    its upstream names only those that are request names too. *)
Record in_step (props : list (jstr * jsval)) (p : panel) : Prop := {
  is_aliases : syncedAliases p = alias_set props;
  is_targets : syncedTargets p = target_set props;
  is_listed : forall x, x ∈ alias_set props -> x ∈ parseModelsString (p_models p);
  is_hidden : forall x, x ∈ target_set props -> x ∈ parseModelsString (p_models p) -> x ∈ alias_set props;
}.

(** Every synchronisation puts the panel in step. *)
Lemma sync_in_step mapping props p : synced_document mapping = Some props -> comma_free props -> Forall clean (syncedTargets p) ->
  in_step props (syncModelsWithMapping mapping p).
Proof.
  intros E Hc Ht. pose proof (sync_list mapping props p E Hc Ht) as Hl. split.
  1, 2: unfold syncModelsWithMapping; by rewrite E.
  all: intros x; rewrite Hl, elem_of_js_set, synced_models_elem; tauto.
Qed.



(** A redirect of a name that was listed already is not undone: adding
    [gpt-4o] -> [gpt-4o-all] in the panel and deleting it again unpublishes
    [gpt-4o] and publishes [gpt-4o-all]. *)
Example redirect_undo_overreaches :
  let opened := openRedirectPanel (Panel (js "gpt-4o,claude") [] [] []) in
  let added := applyMappingPairs [Pair (js "gpt-4o") (js "gpt-4o-all")] true opened in
  let deleted := handlePanelMappingCommit true (js "{}") (handlePanelMappingChange (js "{}") added) in
  p_models added = js "gpt-4o,claude" /\ p_models deleted = js "claude,gpt-4o-all".
Proof. vm_compute. split; reflexivity. Qed.

(** Opening the panel changes neither text. *)
Lemma open_changes_no_text p : p_models (openRedirectPanel p) = p_models p /\ p_mapping (openRedirectPanel p) = p_mapping p.
Proof. done. Qed.

(** ** Saving *)
Lemma missing_spec mapping models x : x ∈ findMissingModelsInMapping mapping models <->
  trim mapping <> [] /\ exists props, parsed_object mapping = Some props /\ x ∈ map trim props.*1 /\ x <> [] /\ x ∉ map trim models.
Proof.
  unfold findMissingModelsInMapping. destruct (non_empty (trim mapping)) eqn:Hne; cbn [negb].
  - apply non_empty_spec in Hne. destruct (parsed_object mapping) as [props|].
    + rewrite elem_of_js_set, elem_of_lfilter, andb_true_iff, negb_true_iff, has_false, non_empty_spec.
      unfold normalizeModelName. naive_solver.
    + rewrite elem_of_nil. naive_solver.
  - rewrite elem_of_nil. split; [done|]. intros [H _]. by apply non_empty_spec in H; rewrite H in Hne.
Qed.

(** A channel is saved only with a blank document or an object of texts; when
    the models or the document changed and the user adds the missing names,
    every request name of the document is in the saved model list. *)
Theorem saved_channel_checked initialModels initialMapping answer models mapping saved :
  submit_models initialModels initialMapping answer models mapping = Submitted saved -> trim mapping <> [] ->
  validateModelMappingJson mapping = None /\
  (forall props, parsed_object mapping = Some props -> Forall (fun k => 44 ∉ k) props.*1 ->
   hasModelConfigChanged (parseModelsString models) mapping initialModels initialMapping = true -> answer = Missing_add ->
   findMissingModelsInMapping mapping (parseModelsString saved) = []).
Proof.
  unfold submit_models. intros E Hm. rewrite (proj2 (non_empty_spec _) Hm) in E. cbn [negb] in E.
  destruct (validateModelMappingJson mapping); [done|]. split; [done|]. intros props Hp Hk Hch ->. rewrite Hch, andb_true_r in E.
  destruct (bool_decide_reflect (findMissingModelsInMapping mapping (parseModelsString models) = [])) as [Hnil|Hsome];
    cbn [negb] in E; injection E as <-; [done|].
  set (missing := findMissingModelsInMapping mapping (parseModelsString models)) in *.
  assert (Forall clean (js_set (parseModelsString models ++ missing))) as Hcl.
  { apply Forall_elem. intros x Hx. rewrite elem_of_js_set, elem_of_app in Hx.
    destruct Hx as [Hx|Hx]; [by apply (proj1 (Forall_elem _ _) (parse_clean models))|].
    apply missing_spec in Hx as (_ & props' & Hp' & Hin & Hne & _). assert (props' = props) as -> by congruence.
    apply elem_of_lmap in Hin as (k & -> & Hk'). unfold clean. rewrite trim_idemp. split_and!; [done|done|].
    intros Hc. by apply (proj1 (Forall_elem _ _) Hk k Hk'), trim_elem. }
  assert (forall l : list jstr, (forall x, x ∉ l) -> l = []) as Hempty.
  { intros [|x l] Hno; [done|]. destruct (Hno x). left. }
  apply Hempty. intros x Hx. apply missing_spec in Hx as (_ & props' & Hp' & Hin & Hne & Hno).
  rewrite parse_format in Hno by done. assert (x ∉ map trim (parseModelsString models)) as Hx.
  { intros Hx. apply elem_of_lmap in Hx as (y & -> & Hy). apply Hno, elem_of_lmap. exists y.
    split; [done|]. rewrite !elem_of_js_set, elem_of_app. by left. }
  apply Hno, elem_of_lmap. exists x. split; [|rewrite !elem_of_js_set, elem_of_app; right; apply missing_spec; by eauto 10].
  apply elem_of_lmap in Hin as (k & -> & _). symmetry. apply trim_idemp.
Qed.

(** ** The provider's lists *)
Section Removed.
Context `{Platform} (fetched sources : list jstr) (keyword : jstr).

Let keywordText := trim (pf_toLowerCase keyword).
Let step := removed_step (normalize_names fetched) (normalize_names sources) keywordText.

Definition removed_model (x : jstr) : Prop :=
  x ∉ normalize_names fetched /\ x ∉ normalize_names sources /\
  (trim (pf_toLowerCase keyword) <> [] -> includes (trim (pf_toLowerCase keyword)) (pf_toLowerCase x) = true).

(** The names to remove among those seen. *)
Record removed_inv (seen removed : list jstr) : Prop := {
  ri_nodup : NoDup removed;
  ri_exact : forall x, x ∈ removed <-> x ∈ seen /\ removed_model x;
}.

Lemma removed_decided m :
  negb (has (normalize_names fetched) m) && negb (has (normalize_names sources) m)
  && negb (non_empty keywordText && negb (includes keywordText (pf_toLowerCase m))) = true <-> removed_model m.
Proof.
  unfold removed_model. fold keywordText. rewrite !andb_true_iff, !negb_true_iff, !has_false, andb_false_iff, negb_false_iff.
  rewrite <- (non_empty_spec keywordText). destruct (non_empty keywordText); naive_solver.
Qed.

Lemma removed_step_inv seen removed raw : removed_inv seen removed ->
  removed_inv (fst (step (seen, removed) raw)) (snd (step (seen, removed) raw)) /\
  forall x, x ∈ fst (step (seen, removed) raw) <-> x ∈ seen \/ x = trim raw /\ x <> [].
Proof.
  intros [Hn Hx]. unfold step, removed_step, normalizeModelName. cbv zeta. set (m := trim raw).
  destruct (non_empty m) eqn:Hne; cbn [negb orb].
  2: { split; [done|]. intros x. destruct m; [|done]. naive_solver. }
  apply non_empty_spec in Hne. destruct (has seen m) eqn:Hh; [apply has_spec in Hh; split; [done|]; naive_solver|].
  apply has_false in Hh. pose proof (removed_decided m) as Hd.
  assert (forall x, x ∈ set_add m seen <-> x ∈ seen \/ x = m /\ x <> []) as Hadd by (intros x; rewrite SyntaxFacts.elem_of_set_add; naive_solver).
  assert (~ removed_model m -> removed_inv (set_add m seen) removed) as Hskip.
  { intros Hno. split; [done|]. intros x. rewrite Hx, Hadd. naive_solver. }
  assert (removed_model m -> removed_inv (set_add m seen) (removed ++ [m])) as Hkeep.
  { intros Hm. split; [apply nodup_snoc; [done|]; rewrite Hx; tauto|]. intros x.
    rewrite elem_of_app, list_elem_of_singleton, Hx, Hadd. naive_solver. }
  fold keywordText. destruct (has (normalize_names fetched) m); cbn [negb andb] in Hd; [split; [apply Hskip; by intros ?%Hd|done]|].
  destruct (has (normalize_names sources) m); cbn [negb andb] in Hd; [split; [apply Hskip; by intros ?%Hd|done]|].
  destruct (non_empty keywordText && _); cbn [negb andb] in Hd; split; try done; [apply Hskip; by intros ?%Hd|by apply Hkeep, Hd].
Qed.

(** The models offered for removal are the channel's distinct names that the
    provider no longer lists, that no redirect starts from and that match the
    search. *)
Theorem removed_models_exact existing :
  NoDup (collectRemovedUpstreamModels existing fetched sources keyword) /\
  forall x, x ∈ collectRemovedUpstreamModels existing fetched sources keyword <-> x ∈ normalize_names existing /\ removed_model x.
Proof.
  assert (forall seen removed, removed_inv seen removed ->
    removed_inv (fst (fold_left step existing (seen, removed))) (snd (fold_left step existing (seen, removed))) /\
    forall x, x ∈ fst (fold_left step existing (seen, removed)) <-> x ∈ seen \/ x ∈ normalize_names existing) as Hloop.
  { induction existing as [|raw existing IH]; intros seen removed I; cbn [fold_left].
    - split; [done|]. intros x. change (normalize_names []) with (@nil jstr). rewrite elem_of_nil. tauto.
    - destruct (removed_step_inv seen removed raw I) as [I1 H1]. destruct (step (seen, removed) raw) as [seen1 removed1].
      destruct (IH seen1 removed1 I1) as [I2 H2]. split; [done|]. intros x. rewrite H2. cbn [fst] in H1. rewrite H1.
      unfold normalize_names. cbn [map List.filter]. unfold normalizeModelName at 2 3.
      destruct (trim raw) as [|c t]; cbn [non_empty]; rewrite ?elem_of_cons; naive_solver. }
  destruct (Hloop [] []) as [[Hn Hx] Hs]; [split; [apply base.NoDup_nil_2|]; intros x; rewrite elem_of_nil; tauto|].
  split; [exact Hn|]. intros x. unfold collectRemovedUpstreamModels. fold keywordText. fold step. rewrite Hx, Hs, elem_of_nil. tauto.
Qed.
End Removed.

(** ** Detected naming rules *)
Lemma suggestion_models localeCompare models knownModels s :
  s ∈ detectModelNamingPatterns localeCompare models knownModels ->
  forall m, m ∈ ns_models s -> m ∈ map trim models /\ m <> [] /\ m ∉ known_names knownModels.
Proof.
  unfold detectModelNamingPatterns. intros Hs m Hm. apply elem_of_lmap in Hs as ([s' n] & -> & Hs).
  apply elem_of_take in Hs as (i & Hi & _). apply list_elem_of_lookup_2 in Hi. rewrite <- sort_with_perm in Hi.
  assert (m ∈ naming_candidates models (known_names knownModels)) as Hc.
  { unfold all_suggestions in Hi. cbv zeta in Hi. rewrite !elem_of_app in Hi. cbn [fst] in Hm.
    destruct Hi as [Hi|[Hi|[Hi|Hi]]].
    - apply elem_of_lfilter in Hi as [Hi _]. apply elem_of_lmap in Hi as (x & E & _). injection E as -> _. cbn in Hm.
      by apply elem_of_lfilter in Hm as [? _].
    - apply elem_of_lmap in Hi as (x & E & _). injection E as -> _. cbn in Hm. by apply elem_of_lfilter in Hm as [? _].
    - apply elem_of_lfilter in Hi as [Hi _]. apply elem_of_lmap in Hi as (x & E & _). injection E as -> _. cbn in Hm.
      by apply elem_of_lfilter in Hm as [? _].
    - destruct (negb _) in Hi; [|by apply not_elem_of_nil in Hi]. apply list_elem_of_singleton in Hi. injection Hi as -> _.
      cbn in Hm. by apply elem_of_lfilter in Hm as [? _]. }
  unfold naming_candidates in Hc. rewrite elem_of_js_set, elem_of_lfilter, andb_true_iff, negb_true_iff, has_false, non_empty_spec in Hc.
  tauto.
Qed.

(** An alias applied without asking publishes a known name for a model of the
    provider that is not itself a known name. *)
Theorem verified_alias_known localeCompare models knownModels model p :
  findVerifiedAlias model (detectModelNamingPatterns localeCompare models knownModels) knownModels = Some p ->
  mp_to p = model /\ mp_from p ∈ knownModels /\ mp_from p <> model /\ model ∈ map trim models /\ model ∉ known_names knownModels.
Proof.
  pose proof (suggestion_models localeCompare models knownModels) as Hall.
  generalize dependent (detectModelNamingPatterns localeCompare models knownModels). intros suggestions Hall E.
  induction suggestions as [|s suggestions IH]; [done|]. cbn [findVerifiedAlias] in E.
  assert (findVerifiedAlias model suggestions knownModels = Some p -> mp_to p = model /\ mp_from p ∈ knownModels /\
    mp_from p <> model /\ model ∈ map trim models /\ model ∉ known_names knownModels) as Hrest.
  { apply IH. intros s' Hs'. apply Hall. by right. }
  destruct (has (ns_models s) model) eqn:Hm; cbn [negb] in E; [|by apply Hrest]. apply has_spec in Hm.
  destruct (Hall s ltac:(left) model Hm) as (Hin & Hne & Hk).
  destruct (derivation_inv To_upstream (ns_rule s) [model]) as (seen & names & [Hp _ _ _ Hpairs _ _] & Hseen).
  destruct (d_pairs (deriveModelMappingPairs [model] To_upstream (ns_rule s))) as [|alias rest]; [by apply Hrest|].
  destruct (has knownModels (mp_from alias)) eqn:Hkn; [|by apply Hrest]. injection E as <-. apply has_spec in Hkn.
  destruct (Hpairs alias ltac:(left)) as (_ & _ & Hneq). cbn [pair_derived pair_model] in Hneq.
  assert (mp_to alias = model) as Eto.
  { assert (mp_to alias ∈ normalize_names [model]) as Hel.
    { rewrite <- Hseen, Hp. cbn [map app pair_model]. left. }
    unfold normalize_names in Hel. apply elem_of_lfilter in Hel as [Hel _].
    apply elem_of_lmap in Hel as (y & -> & ->%list_elem_of_singleton). apply elem_of_lmap in Hin as (z & -> & _). apply trim_idemp. }
  rewrite Eto in Hneq. by split_and!.
Qed.

(** ** Pending updates *)

(** The pending names are distinct, trimmed and not empty, whatever the
    settings hold. *)
Theorem pending_names_normal settings :
  let meta := parseUpstreamUpdateMeta settings in
  Forall (fun l => NoDup l /\ Forall (fun x => trim x = x /\ x <> []) l) [um_pendingAdd meta; um_pendingRemove meta].
Proof.
  assert (forall v, NoDup (normalizeModelList v) /\ Forall (fun x => trim x = x /\ x <> []) (normalizeModelList v)) as Hl.
  { intros v. split; [apply js_set_nodup|]. apply Forall_elem. intros x Hx. unfold normalizeModelList in Hx.
    rewrite elem_of_js_set, elem_of_lfilter, elem_of_lmap, non_empty_spec in Hx. destruct Hx as ((m & -> & _) & Hne).
    split; [apply trim_idemp|done]. }
  cbv zeta. unfold parseUpstreamUpdateMeta. cbv zeta. destruct (match settings with J_obj _ => _ | _ => _ end) as [props|].
  - repeat constructor; apply Hl.
  - pose proof (Hl J_null) as H0. change (normalizeModelList J_null) with (@nil jstr) in H0. repeat constructor; apply H0.
Qed.

(** A channel whose provider's updates can be used is enabled, has one key and a
    type whose models can be fetched. *)
Lemma updates_need_support c enabled : canUseChannelUpstreamUpdates (Some c) enabled = true ->
  cv_status c = Some 1 /\ enabled = Some true /\ cv_is_multi_key c <> Some true /\ cv_type c ∈ MODEL_FETCHABLE_TYPES.
Proof.
  unfold canUseChannelUpstreamUpdates, supportsChannelUpstreamModelUpdate.
  rewrite !andb_true_iff, !negb_true_iff, !bool_decide_eq_true, !bool_decide_eq_false. tauto.
Qed.
